(* ===== verification/_CoqProject ===== *)
-Q . S2P
Prelude.v
Mem.v
StringC.v
Params.v
Env.v
Kalloc.v
Vm.v
VmBits.v
PageTable.v
UserCopy.v
ForkMem.v
KernMap.v
Resource.v
SpanWindow.v
RbTree.v
RbInv.v
RbDelete.v
RbMap.v
Spinlock.v
Sleeplock.v
Bio.v
BioLru.v
Log.v
LogFull.v
Fs.v
FsPure.v
FsTxn.v
FsAlloc.v
FsInode.v
FsFile.v
FsWrite.v
FsLock.v
SmallDisk.v
FsDir.v
FsPath.v
Mkfs.v
MkfsImage.v
Pipe.v
ProcTable.v
Sched.v
SpanObserve.v
ProcInv.v
Grep.v
Shell.v
Umalloc.v
Conc.v
Virtio.v
VirtioInit.v
Console.v
Printf.v
Kernel.v
UserIO.v
File.v
SysFile.v
ProcLife.v
Trap.v
FileInv.v
FileIO.v
FsBoot.v
Mmap.v
TrapInv.v
Ulib.v
UserProg.v
DispatchBench.v
Boot.v
