(* ===== verification/Prelude.v ===== *)
(** * A verification library for the xv6_contemporary kernel

    xv6_contemporary is a small multiprocessor Unix for RISC-V, with added
    scheduling policies in C++ and memory-mapped files.  This library models
    its kernel, the shell, the user library and the small user programs, and
    proves what makes them correct.

    ** How code becomes Rocq

    A routine of the kernel is a value of the monad [M S A] (below): a
    function from a state to an [outcome].  [Ret] is a return, [Panic] a call
    of panic(), [Sleep] a process that gave up the CPU, with the channel, the
    state it left and the rest of the routine as a continuation, [NoFuel] a
    loop that used up its iteration budget.  Records are the structs, lenses
    ([lens], [zoom]) run a component on its part of a larger state, integers
    are values of [Z] kept at their width by [u32], [u64], [i32]... where the
    C code converts.  Loops are [loop fuel body] with one definition per loop
    body, or [for_range] where the count is known.  [wp m Q s] says that [m]
    returns from [s] and [Q] holds: it excludes panics, sleeps and spent
    fuel, so a [wp] theorem is a termination theorem too.  Where routines
    sleep, the theorems quantify over the state found on wakeup, or over the
    interleavings of threads ([Prelude], last part, and [Conc]).

    ** The files

    - [Prelude]: integers, the monad, lenses, [wp] and its tactics, threads
      that sleep and wake; the hint database xv6.
    - [Mem], [StringC]: byte memory, little-endian words; kernel/string.c.
    - [Params], [Env]: constants of param.h, memlayout.h, riscv.h; the linker
      symbols (class [LinkerSyms]) and the interface [UserMem] through which
      pipes, console and file system reach user memory.
    - [Kalloc]: kernel/kalloc.c, the free list threaded through the pages.
    - [Vm], [VmBits], [PageTable]: kernel/vm.c; bit arithmetic of addresses
      and entries; the page table as a tree of tables and its meaning.
    - [UserCopy], [ForkMem]: theorems about vm.c: copyin, copyout and lazy
      allocation against an abstract user memory; uvmcopy and uvmunmap.
    - [KernMap]: kvmmake and proc_mapstacks: the kernel's own address space;
      kvminit and kvminithart.
    - [Spinlock], [Sleeplock]: kernel/spinlock.c and sleeplock.c.  In
      [Spinlock] acquire and release are programs of atomic steps ([code]):
      [exec] runs one to its end on a CPU, [lock_step] interleaves those of
      all CPUs; the first is related to the one-thread locks of [Prelude].
    - [Bio], [BioLru]: kernel/bio.c with its ring of buffers, over the
      contract of the disk; the ring as the history of releases, and which
      buffer is recycled.
    - [Log], [LogFull]: kernel/log.c with its on-disk header, crashes and
      recovery; how much three concurrent operations may write.
    - [Fs], [FsPure]: kernel/fs.c: blocks, inodes, directories, path names;
      the encodings and skipelem.
    - [FsTxn], [FsAlloc], [FsInode], [FsFile], [FsWrite], [FsLock]: fs.c
      inside a transaction of the log: what the disk holds once the
      transaction ends (class [Writing]: one that may change it), the free
      map, the blocks of an inode (bmap), readi, writei, and ilock and
      iunlock with what they load.
    - [FsDir], [FsPath]: directories as finite maps; path names as walks
      through these maps, with the counts of references.
    - [Mkfs], [MkfsImage]: mkfs/mkfs.c, the program of the build host that
      writes the first image, and the proof that the image is a disk the
      theorems about fs.c apply to.
    - [SmallDisk]: a concrete disk the theorems about files are applied to.
    - [Pipe]: kernel/pipe.c.
    - [ProcTable], [Sched], [ProcInv]: the process table of kernel/proc.c,
      the policies of sched_*.hpp and scheduler.cpp (class
      [SchedulerPolicy]), the invariant of the table under any history.
    - [Resource], [SpanWindow]: the ownership experiment of
      bench_resource_* and unique_page.hpp (class [Allocator]); the span
      accumulator of span_window_accumulator.hpp.
    - [SpanObserve]: span_observe.cpp, the hooks of the dispatch loop that
      feed the accumulator, and the self tests of the boot benchmarks.
    - [DispatchBench]: bench.cpp: the round-robin search in four forms, the
      checks that compare them and the searches each timed loop makes.
    - [RbTree], [RbInv], [RbDelete], [RbMap]: rbtree.cpp over a store of
      nodes with parent, left and right links: the operations, the
      invariant as a tree shape, removal with its colour repair, and the
      tree as a sorted list.
    - [Grep], [Shell], [Umalloc]: user/grep.c, user/sh.c, user/umalloc.c.
    - [Conc]: exclusive resources under interleaving, for the drivers.
    - [Virtio], [VirtioInit]: kernel/virtio_disk.c against a device that
      follows the virtio specification; its initialisation as register
      traffic.
    - [Console]: kernel/console.c and uart.c and the abstract terminal.
    - [Printf]: kernel/printf.c, user/printf.c, atoi, procdump.
    - [Kernel]: the state of the whole kernel, [kernel], and its parts.
    - [File], [SysFile]: kernel/file.c, pipealloc; syscall.c's argument
      fetching, sysfile.c and sysfile_mmap.cpp.
    - [ProcLife]: allocproc, fork, exit and wait of proc.c; exec.c.
    - [Trap]: sysproc.c, the system call table, trap.c, plic.c, forkret.
    - [UserIO]: the user's side of reads and writes, [UserMem] as the
      abstract memory of [UserCopy].
    - [FileIO]: whole reads and writes of files, from file descriptor to
      disk, across log, cache, inodes and user memory.
    - [FsBoot]: fsinit on what mkfs built or a crash left.
    - [FileInv], [Mmap], [TrapInv]: theorems about [File], [SysFile] and
      [Trap].
    - [Boot]: start.cpp, the set-up of plic.c and trap.c, the order of main.c
      on the harts.
    - [Ulib], [UserProg]: user/ulib.c; cat, wc, echo, ls, kill, ln, mkdir,
      rm, init, main of grep and of the shell, as programs over the system
      calls (class [Kernel]; [Streams] is the contract of read and write).

    ** What the theorems show

    Concurrency: mutual exclusion of spin locks and interrupts off while one
    is held; pipes, the console and the disk driver deliver their data in
    order under every interleaving of processes, devices and interrupts;
    a runnable process is picked within NPROC rounds by round robin.
    Durability: a transaction is all or nothing under a crash at any of its
    disk writes; the buffer cache is transparent and evicts the least
    recently used buffer.  Files: a write changes exactly the bytes it should
    and, whatever the moment of a crash, a prefix of whole transactions of it
    is on the disk; the kernel boots on that disk and mounts a well-formed
    file system; what one process writes, it or another process reads back
    into its own address space; a directory is a map from
    names to inodes, and namei is the walk through these maps, exact in the
    references it takes; the image mkfs builds satisfies the invariants these
    theorems start from.  Memory: pages are neither lost nor handed out
    twice; mappages makes walkaddr translate, and changes nothing else; the kernel's
    own table maps exactly the areas of memlayout.h, none both writable and
    executable; copies
    between kernel and user space read and write one abstract user memory and
    stay inside it; fork's copy of memory is private and loses no page; heap
    blocks of malloc do not overlap.  Processes: the invariant of the table
    under every history of its operations, exact wakeups and kills, the
    precedence of latency-sensitive processes inside their budget and not
    beyond, exact file reference counts, mapped areas that stay apart, a safe return to user
    mode.  User programs: grep prints the matching lines, the shell's parser
    terminates and its pipelines are connected as written; cat copies, wc
    counts and gets stays in its buffer on every kernel that keeps the
    contract of read and write.  The red-black tree behaves as a sorted list
    and keeps its height logarithmic.  Boot: start hands over to main in
    supervisor mode with paging off, and no hart runs before the first has
    initialised the kernel.  The four round-robin searches of the dispatch
    benchmark are one function.  An owner class
    whose destructor releases is the same function as releases written out.
    Encodings round trip (inodes, numbers), copies stay in their
    buffers.  A few theorems show where the code falls short: three
    operations that use all they reserved panic the commit, kill(0) marks a
    free slot for the next process, the size of a root directory that ends at
    a block boundary covers a block too many, huge requests overrun malloc's
    heap, munmap and mmap faults panic on arguments they do not
    check.

    ** Fuel

    Loops whose length the data bounds get that bound: the number of pages
    of a range, NPROC, NBUF, the length of the string.  Loops that wait for
    other processes (pipes, console, begin_op, kwait, pause) have a fuel
    parameter, and so do user programs that run as long as their input; the
    theorems about them hold for every fuel or say how much
    is enough: [nvma] + 1 restarts for the search of sys_mmap, the bytes to
    transfer for an uncontended pipe, the bytes of the input for a user
    program.  The loops of the red-black tree end within 2 log2(n + 1) + 1
    steps.

    ** Parameters

    [LinkerSyms] (end, etext, trampoline), the address usertrap is linked at,
    the padding bytes of struct stat, the device side of the virtio rings.
    [UserMem] is implemented by copyin and copyout in [Kernel].  rbtree.cpp
    includes a header that is not in the repository: the type of its keys and
    their comparison are parameters.

    ** Not modelled

    Assembly (entry, trampoline, kernelvec, swtch) and the linker script; the
    state main builds as a whole: each initialisation is proved with its
    component, and [Boot] has their order.  The reading of the cycle and
    instruction counters and the calibration loop of bench.cpp, the timed
    loops of the resource experiment, and what span_observe_dump prints; the
    user-level tests and load generators (usertests, grind, mixbench, ...),
    which check the kernel from outside.  The writes of virtio_disk.c to the
    registers QUEUE_NOTIFY and INTERRUPT_ACK: the device of [Virtio] looks at
    the ring whenever the driver sleeps.  Weak memory is not modelled: the
    interleavings of [Spinlock] are sequentially consistent. *)

From Stdlib Require Import ZArith Lia FunctionalExtensionality.
From stdpp Require Export base tactics option list numbers strings relations.

#[global] Open Scope Z_scope.

(** ** Machine integers

    C integers are values of [Z] kept at their width by the truncation the C
    conversion or the machine operation performs. *)

Definition u8 (x : Z) : Z := x mod 2 ^ 8.
Definition u16 (x : Z) : Z := x mod 2 ^ 16.
Definition u32 (x : Z) : Z := x mod 2 ^ 32.
Definition u64 (x : Z) : Z := x mod 2 ^ 64.

(** Conversion to [int] and to [short] (two's complement). *)
Definition i32 (x : Z) : Z := (x + 2 ^ 31) mod 2 ^ 32 - 2 ^ 31.
Definition i16 (x : Z) : Z := (x + 2 ^ 15) mod 2 ^ 16 - 2 ^ 15.

Lemma u8_range x : 0 <= u8 x < 256.
Proof. apply (Z.mod_pos_bound x 256); lia. Qed.
Lemma u16_range x : 0 <= u16 x < 65536.
Proof. apply (Z.mod_pos_bound x 65536); lia. Qed.
Lemma u32_range x : 0 <= u32 x < 4294967296.
Proof. apply (Z.mod_pos_bound x 4294967296); lia. Qed.
Lemma u64_range x : 0 <= u64 x < 18446744073709551616.
Proof. apply (Z.mod_pos_bound x 18446744073709551616); lia. Qed.
Lemma i32_range x : -2147483648 <= i32 x < 2147483648.
Proof.
  unfold i32. pose proof (Z.mod_pos_bound (x + 2 ^ 31) (2 ^ 32)). lia.
Qed.

Lemma u8_small x : 0 <= x < 256 -> u8 x = x.
Proof. apply Z.mod_small. Qed.
Lemma u16_small x : 0 <= x < 65536 -> u16 x = x.
Proof. apply Z.mod_small. Qed.
Lemma u32_small x : 0 <= x < 4294967296 -> u32 x = x.
Proof. apply Z.mod_small. Qed.
Lemma u64_small x : 0 <= x < 18446744073709551616 -> u64 x = x.
Proof. apply Z.mod_small. Qed.
Lemma i32_small x : -2147483648 <= x < 2147483648 -> i32 x = x.
Proof. intros. unfold i32. rewrite Z.mod_small; lia. Qed.
Lemma i16_small x : -32768 <= x < 32768 -> i16 x = x.
Proof. intros. unfold i16. rewrite Z.mod_small; lia. Qed.

Lemma u32_u32 x : u32 (u32 x) = u32 x.
Proof. apply u32_small, u32_range. Qed.
Lemma u64_u64 x : u64 (u64 x) = u64 x.
Proof. apply u64_small, u64_range. Qed.

(** Free-running 32-bit counters wrap around; their difference does not. *)
Lemma u32_sub_eq a b c : 0 <= b -> 0 <= c -> b < 2 ^ 31 -> c < 2 ^ 31 -> u32 (a + b) = u32 (a + c) -> b = c.
Proof.
  unfold u32. intros. assert ((b - c) mod 2 ^ 32 = 0) as E.
  { replace (b - c) with ((a + b) - (a + c)) by lia. rewrite Zminus_mod. replace ((a + b) mod 2 ^ 32) with ((a + c) mod 2 ^ 32).
    rewrite Z.sub_diag. done. }
  apply Z.mod_divide in E as [k E]; [|lia]. assert (k = 0) by lia. lia.
Qed.
Lemma u32_succ n : u32 (u32 n + 1) = u32 (n + 1).
Proof. unfold u32. by rewrite Zplus_mod_idemp_l. Qed.
Lemma u32_pred n : u32 (u32 n - 1) = u32 (n - 1).
Proof. unfold u32. by rewrite Zminus_mod_idemp_l. Qed.
Lemma u32_diff a b : 0 <= b < 2 ^ 32 -> u32 (u32 (a + b) - u32 a) = b.
Proof. intros Hb. unfold u32. rewrite <- Zminus_mod. replace (a + b - a) with b by lia. by apply Z.mod_small. Qed.
Lemma u32_mod_small x n k : 0 < n -> 2 ^ 32 = k * n -> u32 x mod n = x mod n.
Proof. intros Hn E. unfold u32. apply Z.mod_mod_divide. exists k. lia. Qed.

(** ** Wait channels

    [sleep] and [wakeup] compare channels as addresses; each constructor is
    the address of one kernel object (or of a field of one). *)

Inductive chan :=
| ChNone                     (* the null pointer *)
| ChProc (i : nat)           (* &proc[i]: a parent waiting for its children *)
| ChTicks                    (* &ticks *)
| ChLog                      (* &log *)
| ChBuf (b : nat)            (* &bcache.buf[b] *)
| ChBufLock (b : nat)        (* &bcache.buf[b].lock *)
| ChInodeLock (i : nat)      (* &itable.inode[i].lock *)
| ChPipeRead (pi : Z)        (* &pi->nread *)
| ChPipeWrite (pi : Z)       (* &pi->nwrite *)
| ChCons                     (* &cons.r *)
| ChDiskFree                 (* &disk.free[0] *)
| ChUartTx.                  (* &tx_chan *)

#[export] Instance chan_eq_dec : EqDecision chan.
Proof. solve_decision. Defined.

(** ** Outcomes and the kernel monad

    A kernel routine runs from a state [S] to an outcome: it returns, it
    calls [panic], or it gives up the CPU in [sleep].  A [Sleep] carries the
    channel, the state in which the process is left waiting and the rest of
    the routine, to be run from the state found on wakeup.  [NoFuel] is what
    a loop yields when its iteration budget is spent; the termination
    theorems rule it out. *)

Inductive outcome (S A : Type) :=
| Ret (a : A) (s : S)
| Panic (msg : string)
| Sleep (c : chan) (s : S) (k : S -> outcome S A)
| NoFuel.
Arguments Ret {S A} a s.
Arguments Panic {S A} msg.
Arguments Sleep {S A} c s k.
Arguments NoFuel {S A}.

Definition M (S A : Type) := S -> outcome S A.

Fixpoint obind {S A B} (o : outcome S A) (k : A -> M S B) : outcome S B :=
  match o with
  | Ret a s' => k a s'
  | Panic msg => Panic msg
  | Sleep c s' r => Sleep c s' (fun s'' => obind (r s'') k)
  | NoFuel => NoFuel
  end.

Definition ret {S A} (a : A) : M S A := fun s => Ret a s.
Definition bind {S A B} (m : M S A) (k : A -> M S B) : M S B := fun s => obind (m s) k.
Definition panic {S A} (msg : string) : M S A := fun _ => Panic msg.
Definition gets {S A} (f : S -> A) : M S A := fun s => Ret (f s) s.
Definition modify {S} (f : S -> S) : M S unit := fun s => Ret tt (f s).
Definition suspend {S} (c : chan) : M S unit := fun s => Sleep c s (fun s' => Ret tt s').

(** The monad laws. *)
Lemma bind_ret_l {S A B} (a : A) (k : A -> M S B) : bind (ret a) k = k a.
Proof. done. Qed.
Lemma bind_ret_r {S A} (m : M S A) : bind m ret = m.
Proof.
  extensionality s. unfold bind. induction (m s) as [a s'| |c s' r IH|]; cbn; try done. f_equal. extensionality x. apply IH.
Qed.
Lemma bind_assoc {S A B C} (m : M S A) (f : A -> M S B) (g : B -> M S C) :
  bind (bind m f) g = bind m (fun a => bind (f a) g).
Proof.
  extensionality s. unfold bind. induction (m s) as [a s'| |c s' r IH|]; cbn; try done. f_equal. extensionality x. apply IH.
Qed.
Lemma bind_ext {S A B} (m : M S A) (f g : A -> M S B) : (forall a, f a = g a) -> bind m f = bind m g.
Proof. intros E. f_equal. extensionality a. apply E. Qed.

Declare Scope kernel_scope.
Delimit Scope kernel_scope with K.
Notation "'let*' x ':=' m 'in' k" := (bind m (fun x => k))
  (at level 10, x name, m at level 100, k at level 200,
   format "'[v' 'let*'  x  ':='  m  'in' '/' k ']'") : kernel_scope.
Notation "'let*' ' p ':=' m 'in' k" := (bind m (fun x => match x with p => k end))
  (at level 10, p pattern, m at level 100, k at level 200) : kernel_scope.
Notation "m ;; k" := (bind m (fun _ => k))
  (at level 100, k at level 200, right associativity,
   format "'[v' m ;; '/' k ']'") : kernel_scope.
#[global] Open Scope kernel_scope.

(** ** Lenses: a component's state inside the state of its client *)

Record lens (S A : Type) := Lens { view : S -> A; put : A -> S -> S }.
Arguments Lens {S A} view put.
Arguments view {S A} l s.
Arguments put {S A} l a s.

(** Run a routine of a component on the client's state: everything outside
    the component is untouched by construction. *)
Fixpoint ozoom {S C A} (l : lens S C) (o : outcome C A) (s : S) : outcome S A :=
  match o with
  | Ret a c => Ret a (put l c s)
  | Panic msg => Panic msg
  | Sleep ch c k => Sleep ch (put l c s) (fun s' => ozoom l (k (view l s')) s')
  | NoFuel => NoFuel
  end.
Definition zoom {S C A} (l : lens S C) (m : M C A) : M S A := fun s => ozoom l (m (view l s)) s.

(** The lens of a component of a component. *)
Definition lcomp {S C D} (l : lens S C) (k : lens C D) : lens S D :=
  Lens (fun s => view k (view l s)) (fun d s => put l (put k d (view l s)) s).

Class LensOk {S A} (l : lens S A) : Prop := {
  view_put : forall a s, view l (put l a s) = a;
  put_put : forall a b s, put l a (put l b s) = put l a s;
  put_view : forall s, put l (view l s) s = s;
}.

(** Two lenses on parts of the state that do not overlap. *)
Class LensSep {S A B} (l : lens S A) (k : lens S B) : Prop := {
  sep_view_l : forall b s, view l (put k b s) = view l s;
  sep_view_r : forall a s, view k (put l a s) = view k s;
  sep_put : forall a b s, put l a (put k b s) = put k b (put l a s);
}.

#[export] Instance lcomp_ok {S C D} (l : lens S C) (k : lens C D) :
  LensOk l -> LensOk k -> LensOk (lcomp l k).
Proof.
  intros [v1 p1 w1] [v2 p2 w2]. split; intros; cbn.
  - by rewrite v1, v2.
  - by rewrite p1, v1, p2.
  - by rewrite w2, w1.
Qed.

(** Arrays of kernel objects, indexed by position: a total function updated
    at one index. *)
Definition upd {K A} `{EqDecision K} (f : K -> A) (i : K) (x : A) : K -> A :=
  fun j => if decide (j = i) then x else f j.
Lemma upd_eq {K A} `{EqDecision K} (f : K -> A) i x : upd f i x i = x.
Proof. unfold upd. by rewrite decide_True. Qed.
Lemma upd_ne {K A} `{EqDecision K} (f : K -> A) i j x : j <> i -> upd f i x j = f j.
Proof. intros. unfold upd. by rewrite decide_False. Qed.
Lemma upd_upd {K A} `{EqDecision K} (f : K -> A) i x y : upd (upd f i x) i y = upd f i y.
Proof. extensionality j. unfold upd. by case_decide. Qed.
Lemma upd_id {K A} `{EqDecision K} (f : K -> A) i : upd f i (f i) = f.
Proof. extensionality j. unfold upd. case_decide; by subst. Qed.
Lemma upd_comm {K A} `{EqDecision K} (f : K -> A) i j x y :
  i <> j -> upd (upd f i x) j y = upd (upd f j y) i x.
Proof. intros. extensionality k. unfold upd. repeat case_decide; congruence. Qed.

(** ** Spin locks as the components see them

    Within one kernel thread a lock word that is set is a lock this CPU
    holds; [acquire] of a held lock and [release] of a free one panic.
    [Spinlock] relates this view to the code of kernel/spinlock.c. *)

Definition spinlock := bool.
Definition acquire {S} (l : lens S spinlock) : M S unit :=
  let* lk := gets (view l) in
  if lk then panic "acquire" else modify (put l true).
Definition release {S} (l : lens S spinlock) : M S unit :=
  let* lk := gets (view l) in
  if lk then modify (put l false) else panic "release".

(** [sleep(chan, lk)] as its callers see it: the condition lock is released
    for the time of the wait. *)
Definition sleep {S} (c : chan) (l : lens S spinlock) : M S unit :=
  release l ;; suspend c ;; acquire l.

(** [wakeup(chan)] as its callers see it: the calls are recorded in order;
    [Proc] models what one does to the process table. *)
Definition wakeup {S} (w : lens S (list chan)) (c : chan) : M S unit :=
  modify (fun s => put w (view w s ++ [c]) s).

(** ** Loops

    [loop fuel body a] is a C loop whose variables are [a]: the body either
    goes round again ([inl]) or leaves with a result ([inr]). *)
Fixpoint loop {S A R} (fuel : nat) (body : A -> M S (A + R)) (a : A) : M S R :=
  match fuel with
  | O => fun _ => NoFuel
  | Datatypes.S fuel =>
      let* r := body a in
      match r with inl a' => loop fuel body a' | inr v => ret v end
  end.

(** [for_range n i body]: [n] iterations with the counter starting at [i]. *)
Fixpoint for_range {S} (n : nat) (i : Z) (body : Z -> M S unit) : M S unit :=
  match n with
  | O => ret tt
  | Datatypes.S n => body i ;; for_range n (i + 1) body
  end.

Definition when {S} (b : bool) (m : M S unit) : M S unit :=
  if b then m else ret tt.

(** ** Total-correctness triples

    [wp m Q s]: from [s] the routine returns (no panic, no sleep, no spent
    fuel) and the result and final state satisfy [Q]. *)
Definition wp {S A} (m : M S A) (Q : A -> S -> Prop) (s : S) : Prop :=
  match m s with Ret a s' => Q a s' | _ => False end.

Section WpRules.
Context {S : Type}.

Lemma wp_ret {A} (a : A) Q (s : S) : Q a s -> wp (ret a) Q s.
Proof. done. Qed.
Lemma wp_bind {A B} (m : M S A) (k : A -> M S B) Q s :
  wp m (fun a s' => wp (k a) Q s') s -> wp (bind m k) Q s.
Proof. unfold wp, bind. destruct (m s); done. Qed.
Lemma wp_mono {A} (m : M S A) (P Q : A -> S -> Prop) s :
  wp m P s -> (forall a s', P a s' -> Q a s') -> wp m Q s.
Proof. unfold wp. destruct (m s); eauto. Qed.
Lemma wp_gets {A} (f : S -> A) Q s : Q (f s) s -> wp (gets f) Q s.
Proof. done. Qed.
Lemma wp_modify (f : S -> S) Q s : Q tt (f s) -> wp (modify f) Q s.
Proof. done. Qed.
Lemma wp_acquire (l : lens S spinlock) Q s :
  view l s = false -> Q tt (put l true s) -> wp (acquire l) Q s.
Proof. intros Hl HQ. unfold wp, acquire, bind, gets. by rewrite Hl. Qed.
Lemma wp_release (l : lens S spinlock) Q s :
  view l s = true -> Q tt (put l false s) -> wp (release l) Q s.
Proof. intros Hl HQ. unfold wp, release, bind, gets. by rewrite Hl. Qed.
Lemma wp_zoom {C A} (l : lens S C) (m : M C A) Q s :
  wp m (fun a c => Q a (put l c s)) (view l s) -> wp (zoom l m) Q s.
Proof. unfold wp, zoom. destruct (m (view l s)); done. Qed.
Lemma wp_when (b : bool) (m : M S unit) Q s :
  (b = true -> wp m Q s) -> (b = false -> Q tt s) -> wp (when b m) Q s.
Proof. destruct b; intros H1 H2; [by apply H1 | by apply H2]. Qed.

(** A loop terminates within its fuel when a measure of its variables and
    of the state decreases on each iteration. *)
Lemma wp_loop {A R} (I : A -> S -> Prop) (mu : A -> S -> nat)
    (body : A -> M S (A + R)) (Q : R -> S -> Prop) :
  (forall a s, I a s ->
     wp (body a) (fun r s' => match r with
                              | inl a' => I a' s' /\ (mu a' s' < mu a s)%nat
                              | inr v => Q v s' end) s) ->
  forall fuel a s, I a s -> (mu a s < fuel)%nat -> wp (loop fuel body a) Q s.
Proof.
  intros Hbody fuel. induction fuel as [|fuel IH]; intros a s HI Hmu; [lia|].
  cbn [loop]. apply wp_bind. eapply wp_mono; [by apply Hbody|].
  intros [a'|v] s'; [|done]. intros [HI' Hlt]. apply IH; [done|lia].
Qed.

(** A counted loop carries an invariant indexed by its counter. *)
Lemma wp_for_range (I : Z -> S -> Prop) (body : Z -> M S unit) :
  forall (n : nat) i s, I i s ->
  (forall j s, i <= j < i + Z.of_nat n -> I j s -> wp (body j) (fun _ s' => I (j + 1) s') s) ->
  wp (for_range n i body) (fun _ s' => I (i + Z.of_nat n) s') s.
Proof.
  induction n as [|n IH]; intros i s HI Hbody; cbn [for_range].
  - apply wp_ret. by rewrite Z.add_0_r.
  - apply wp_bind. eapply wp_mono; [apply Hbody; [lia|done]|].
    intros [] s' HI'. replace (i + Z.of_nat (Datatypes.S n)) with (i + 1 + Z.of_nat n) by lia.
    apply IH; [done|]. intros. apply Hbody; [lia|done].
Qed.
End WpRules.

(** One step of a proof about a [wp] goal: the rule of the leading construct,
    the lock conditions discharged on the spot. *)
Ltac wp_side :=
  solve [reflexivity | assumption | cbn; reflexivity | cbn; assumption | cbn; congruence].
Ltac wp_step :=
  lazymatch goal with
  | |- wp (bind _ _) _ _ => apply wp_bind
  | |- wp (ret _) _ _ => apply wp_ret
  | |- wp (gets _) _ _ => apply wp_gets
  | |- wp (modify _) _ _ => apply wp_modify
  | |- wp (wakeup _ _) _ _ => unfold wakeup; apply wp_modify
  | |- wp (zoom _ _) _ _ => apply wp_zoom
  | |- wp (acquire _) _ _ => apply wp_acquire; [wp_side|]
  | |- wp (release _) _ _ => apply wp_release; [wp_side|]
  end.
Ltac wp_steps := repeat (wp_step; cbn).

(** Case analysis on the boolean comparisons of the code, with the
    propositions they decide. *)
Ltac bdestruct_step :=
  match goal with
  | |- context [Z.eqb ?a ?b] => destruct (Z.eqb_spec a b)
  | |- context [Z.ltb ?a ?b] => destruct (Z.ltb_spec a b)
  | |- context [Z.leb ?a ?b] => destruct (Z.leb_spec a b)
  | |- context [Z.gtb ?a ?b] => rewrite (Z.gtb_ltb a b)
  | |- context [Z.geb ?a ?b] => rewrite (Z.geb_leb a b)
  end.
Ltac bdestruct_all := repeat (bdestruct_step; cbn [andb orb negb]).

(** [bsimp]: evaluate a comparison that the arithmetic context decides. *)
Ltac bsimp :=
  repeat match goal with
  | |- context [Z.eqb ?a ?b] =>
      first [rewrite (proj2 (Z.eqb_eq a b)) by lia | rewrite (proj2 (Z.eqb_neq a b)) by lia]
  | |- context [Z.ltb ?a ?b] =>
      first [rewrite (proj2 (Z.ltb_lt a b)) by lia | rewrite (proj2 (Z.ltb_ge a b)) by lia]
  | |- context [Z.leb ?a ?b] =>
      first [rewrite (proj2 (Z.leb_le a b)) by lia | rewrite (proj2 (Z.leb_gt a b)) by lia]
  end; cbn [andb orb negb].

Create HintDb xv6.
#[export] Hint Resolve u8_range u16_range u32_range u64_range i32_range : xv6.

(** ** Shared list facts *)

Definition byte_ok (b : Z) : Prop := 0 <= b < 256.

Lemma nth_lookup_Z (l : list Z) i d : (i < length l)%nat -> l !! i = Some (nth i l d).
Proof.
  intros Hi. rewrite nth_lookup. destruct (l !! i) eqn:E; [done|].
  apply lookup_ge_None in E. lia.
Qed.

Lemma nth_replicate {A} (n : nat) (x d : A) i : (i < n)%nat -> nth i (replicate n x) d = x.
Proof. intros. rewrite nth_lookup, lookup_replicate_2; done. Qed.

Lemma nth_app_l {A} (l k : list A) i d : (i < length l)%nat -> nth i (l ++ k) d = nth i l d.
Proof. intros. by apply app_nth1. Qed.

Lemma find_app {A} (p : A -> bool) (l k : list A) :
  List.find p (l ++ k) = match List.find p l with Some x => Some x | None => List.find p k end.
Proof. induction l as [|x l IH]; cbn; [done|]. by destruct (p x). Qed.

(** Dropping an element from a list. *)
Lemma filter_ne_id {A} `{EqDecision A} (x : A) (l : list A) : x ∉ l -> filter (fun y => y <> x) l = l.
Proof.
  induction l as [|y l IH]; intros Hn; [done|]. apply not_elem_of_cons in Hn as [Hx Hl].
  rewrite filter_cons_True by done. by rewrite IH.
Qed.
Lemma filter_ne_mid {A} `{EqDecision A} (x : A) (l k : list A) : NoDup (l ++ x :: k) ->
  filter (fun y => y <> x) (l ++ x :: k) = l ++ k.
Proof.
  intros Hnd. apply NoDup_app in Hnd as (_ & Hl & Hk). apply NoDup_cons in Hk as [Hk _].
  rewrite filter_app, filter_cons_False by naive_solver. rewrite !filter_ne_id; [done|done|].
  intros Hx. apply (Hl x Hx), list_elem_of_here.
Qed.

(** Replace the elements of [l] from position [n] on by those of [k]. *)
Definition splice {A} (l : list A) (n : nat) (k : list A) : list A :=
  take n l ++ k ++ drop (n + length k) l.

Lemma length_splice {A} (l k : list A) n :
  (n + length k <= length l)%nat -> length (splice l n k) = length l.
Proof. intros. unfold splice. rewrite !length_app, length_take, length_drop. lia. Qed.

Lemma lookup_splice_in {A} (l k : list A) n i :
  (n + length k <= length l)%nat -> (n <= i < n + length k)%nat ->
  splice l n k !! i = k !! (i - n)%nat.
Proof.
  intros Hl Hi. unfold splice. rewrite lookup_app_r by (rewrite length_take; lia).
  rewrite length_take, lookup_app_l by lia. f_equal. lia.
Qed.

Lemma lookup_splice_out {A} (l k : list A) n i :
  (n + length k <= length l)%nat -> ~ (n <= i < n + length k)%nat ->
  splice l n k !! i = l !! i.
Proof.
  intros Hl Hi. unfold splice. destruct (decide (i < n)%nat).
  - rewrite lookup_app_l by (rewrite length_take; lia). by apply lookup_take_lt.
  - rewrite lookup_app_r by (rewrite length_take; lia).
    rewrite length_take, lookup_app_r by lia. rewrite lookup_drop. f_equal. lia.
Qed.

Lemma take_drop_splice {A} (l k : list A) n :
  (n + length k <= length l)%nat -> take (length k) (drop n (splice l n k)) = k.
Proof.
  intros. unfold splice. rewrite drop_app_ge by (rewrite length_take; lia).
  rewrite length_take. replace (n - n `min` length l)%nat with 0%nat by lia.
  rewrite drop_0, take_app_le by lia. by apply firstn_all.
Qed.

(** ** Routines that may sleep

    [safe I Q o]: the outcome never is a panic, every wait starts in a state
    that satisfies the invariant [I] and the rest of the routine is safe from
    any state satisfying it, and a return satisfies [Q].  A wait loop may use
    up any fuel, so [NoFuel] is allowed here: the fuel of a wait loop is the
    number of wakeups it is observed for. *)
Fixpoint safe {S A} (I : S -> Prop) (Q : A -> S -> Prop) (o : outcome S A) : Prop :=
  match o with
  | Ret a s => Q a s
  | Panic _ => False
  | Sleep _ s k => I s /\ forall s', I s' -> safe I Q (k s')
  | NoFuel => True
  end.

Lemma safe_mono {S A} (I : S -> Prop) (P Q : A -> S -> Prop) o :
  safe I P o -> (forall a s, P a s -> Q a s) -> safe I Q o.
Proof.
  intros H HPQ. induction o as [| |c s k IH|]; cbn in *; auto.
  destruct H as [HI Hk]. split; auto.
Qed.

Lemma safe_bind {S A B} (I : S -> Prop) (m : M S A) (k : A -> M S B) Q s :
  safe I (fun a s' => safe I Q (k a s')) (m s) -> safe I Q (bind m k s).
Proof.
  unfold bind. generalize (m s). intros o. induction o as [| |c s' r IH|]; cbn; auto.
  intros [HI Hk]. split; auto.
Qed.

Lemma safe_wp {S A} (I : S -> Prop) (m : M S A) Q s : wp m Q s -> safe I Q (m s).
Proof. unfold wp. destruct (m s); cbn; tauto. Qed.

Lemma safe_sleep {S} (I : S -> Prop) c (l : lens S spinlock) Q s :
  view l s = true -> I (put l false s) ->
  (forall s', I s' -> view l s' = false /\ Q tt (put l true s')) ->
  safe I Q (sleep c l s).
Proof.
  intros Hl HI HQ. unfold sleep, release, bind, gets. rewrite Hl. cbn. split; [done|].
  intros s' Hs'. destruct (HQ s' Hs') as [Hf HQ']. unfold acquire, bind, gets. by rewrite Hf.
Qed.

Lemma safe_loop {S A R} (I : S -> Prop) (J : A -> S -> Prop)
    (body : A -> M S (A + R)) (Q : R -> S -> Prop) :
  (forall a s, J a s ->
     safe I (fun r s' => match r with inl a' => J a' s' | inr v => Q v s' end) (body a s)) ->
  forall fuel a s, J a s -> safe I Q (loop fuel body a s).
Proof.
  intros Hbody fuel. induction fuel as [|fuel IH]; intros a s HJ; [done|].
  cbn [loop]. apply safe_bind. eapply safe_mono; [by apply Hbody|].
  intros [a'|v] s'; [apply IH|done].
Qed.

(** ** Interleaving at the points where processes sleep

    A pool of kernel threads over one shared state; a step runs one thread
    to its next sleep or to its end.  Any thread may be chosen: a wakeup is a
    hint, the code rechecks its condition, so a spurious one is harmless. *)
Definition thread (S : Type) := S -> outcome S unit.

Inductive pool_step {S} : list (thread S) * S -> list (thread S) * S -> Prop :=
| pool_ret pre m post s s' :
    m s = Ret tt s' -> pool_step (pre ++ m :: post, s) (pre ++ post, s')
| pool_sleep pre m post s c s' k :
    m s = Sleep c s' k -> pool_step (pre ++ m :: post, s) (pre ++ k :: post, s').

Definition pool_panics {S} (p : list (thread S) * S) : Prop :=
  exists m msg, m ∈ p.1 /\ m p.2 = Panic msg.

Definition thread_safe {S} (I : S -> Prop) (m : thread S) : Prop :=
  forall s, I s -> safe I (fun _ => I) (m s).

(** An invariant that every thread keeps at its sleeps and returns holds in
    every interleaving, and no interleaving panics. *)
Lemma pool_safe {S} (I : S -> Prop) (p p' : list (thread S) * S) :
  rtc pool_step p p' -> Forall (thread_safe I) p.1 -> I p.2 ->
  Forall (thread_safe I) p'.1 /\ I p'.2 /\ ~ pool_panics p'.
Proof.
  induction 1 as [[ts s]|p q r Hstep _ IH]; intros Hts HI.
  - split; [done|]. split; [done|]. intros (m & msg & Hm & E). cbn in *.
    rewrite Forall_forall in Hts. specialize (Hts m Hm s HI). by rewrite E in Hts.
  - apply IH; clear IH; destruct Hstep as [pre m post s s' E|pre m post s c s' k E]; cbn in *;
      apply Forall_app in Hts as [H1 H2]; apply Forall_cons in H2 as [Hm H2];
      specialize (Hm s HI); rewrite E in Hm; cbn in Hm.
    + by apply Forall_app.
    + apply Forall_app; split; [done|]. apply Forall_cons; split; [|done].
      intros s2 Hs2. by apply Hm.
    + done.
    + apply Hm.
Qed.

(** ** Evaluating concrete runs

    The state a run stopped in ([d] when it did not) and what is left of it. *)
Definition state_or {S A} (d : S) (o : outcome S A) : S := match o with Ret _ s | Sleep _ s _ => s | _ => d end.
Definition rest_of {S A} (o : outcome S A) : M S A := match o with Sleep _ _ k => k | _ => fun _ => NoFuel end.
Definition sleeps_on {S A} (o : outcome S A) : option chan := match o with Sleep c _ _ => Some c | _ => None end.
Definition returns {S A} (o : outcome S A) : bool := match o with Ret _ _ => true | _ => false end.
Lemma sleep_eta {S A} (d : S) (o : outcome S A) c : sleeps_on o = Some c -> o = Sleep c (state_or d o) (rest_of o).
Proof. destruct o; cbn; congruence. Qed.
Lemma ret_eta {S} (d : S) (o : outcome S unit) : returns o = true -> o = Ret tt (state_or d o).
Proof. destruct o as [[] | | |]; cbn; congruence. Qed.
Lemma some_eta {A} (o : option A) d : bool_decide (is_Some o) = true -> o = Some (default d o).
Proof. intros Ho. apply bool_decide_eq_true in Ho. by destruct Ho as [x ->]. Qed.
