(* ===== verification/Mem.v ===== *)
(** * Bytes, little-endian words and flat memory

    The data model shared by the memory and file-system components:
    little-endian encoding of the integers C stores in memory and on disk,
    and a flat byte-addressed memory with loads and stores of C objects. *)

From S2P Require Import Prelude.

(** ** Little-endian integers *)

Fixpoint le_enc (n : nat) (v : Z) : list Z :=
  match n with
  | O => []
  | S n => v mod 256 :: le_enc n (v / 256)
  end.

Fixpoint le_dec (bs : list Z) : Z :=
  match bs with
  | [] => 0
  | b :: bs => b + 256 * le_dec bs
  end.

Lemma length_le_enc n v : length (le_enc n v) = n.
Proof. revert v. induction n; intros; cbn; [done|]. by rewrite IHn. Qed.

Lemma le_enc_bytes n v : Forall byte_ok (le_enc n v).
Proof.
  revert v. induction n; intros; cbn; constructor; [|done].
  apply Z.mod_pos_bound. lia.
Qed.

Lemma le_dec_enc n v : le_dec (le_enc n v) = v mod 2 ^ (8 * Z.of_nat n).
Proof.
  revert v. induction n as [|n IH]; intros v; cbn [le_enc le_dec].
  - by rewrite Z.mod_1_r.
  - rewrite IH. replace (8 * Z.of_nat (S n)) with (8 + 8 * Z.of_nat n) by lia.
    rewrite Z.pow_add_r by lia. change (2 ^ 8) with 256.
    rewrite (Z.rem_mul_r v 256) by (try apply Z.pow_pos_nonneg; lia). lia.
Qed.

Lemma le_enc_dec bs : Forall byte_ok bs -> le_enc (length bs) (le_dec bs) = bs.
Proof.
  induction 1 as [|b bs Hb _ IH]; cbn [length le_dec le_enc]; [done|].
  unfold byte_ok in Hb. f_equal.
  - rewrite Z.mul_comm, Z.mod_add by lia. apply Z.mod_small. lia.
  - rewrite (Z.mul_comm 256), Z.div_add by lia. rewrite Z.div_small by lia. done.
Qed.

Lemma le_dec_bound bs : Forall byte_ok bs -> 0 <= le_dec bs < 2 ^ (8 * Z.of_nat (length bs)).
Proof.
  intros Hb. rewrite <- (le_enc_dec bs Hb) at 1 2. rewrite le_dec_enc.
  apply Z.mod_pos_bound, Z.pow_pos_nonneg; lia.
Qed.

(** ** Flat memory *)

Definition mem := Z -> Z.

(** [mwrite m a bs]: the bytes [bs] stored at [a]. *)
Definition mwrite (m : mem) (a : Z) (bs : list Z) : mem := fun x =>
  if (a <=? x) && (x <? a + Z.of_nat (length bs)) then nth (Z.to_nat (x - a)) bs 0 else m x.

(** [mread m a n]: the [n] bytes at [a]. *)
Fixpoint mread (m : mem) (a : Z) (n : nat) : list Z :=
  match n with
  | O => []
  | S n => m a :: mread m (a + 1) n
  end.

Definition mset (m : mem) (a b : Z) : mem := fun x => if x =? a then b else m x.

Lemma length_mread m a n : length (mread m a n) = n.
Proof. revert a. induction n; intros; cbn; [done|]. by rewrite IHn. Qed.

Lemma nth_mread m n : forall a i d, (i < n)%nat -> nth i (mread m a n) d = m (a + Z.of_nat i).
Proof.
  induction n as [|n IH]; intros a i d Hi; [lia|]. destruct i as [|i]; cbn [mread nth].
  - f_equal. lia.
  - rewrite IH by lia. f_equal. lia.
Qed.

Lemma mread_ext m m' n : forall a,
  (forall i, 0 <= i < Z.of_nat n -> m (a + i) = m' (a + i)) -> mread m a n = mread m' a n.
Proof.
  induction n as [|n IH]; intros a H; cbn [mread]; [done|]. f_equal.
  - specialize (H 0). rewrite Z.add_0_r in H. apply H. lia.
  - apply IH. intros i Hi. replace (a + 1 + i) with (a + (1 + i)) by lia. apply H. lia.
Qed.

Lemma mwrite_in m a bs x :
  a <= x < a + Z.of_nat (length bs) -> mwrite m a bs x = nth (Z.to_nat (x - a)) bs 0.
Proof. intros. unfold mwrite. by bsimp. Qed.

Lemma mwrite_out m a bs x :
  x < a \/ a + Z.of_nat (length bs) <= x -> mwrite m a bs x = m x.
Proof. intros. unfold mwrite. by destruct (Z.leb_spec a x), (Z.ltb_spec x (a + Z.of_nat (length bs))); cbn; try lia. Qed.

Lemma mread_mwrite_same m bs : forall a, mread (mwrite m a bs) a (length bs) = bs.
Proof.
  intros a. apply (nth_ext _ _ 0 0); rewrite length_mread; [done|]. intros i Hi.
  rewrite nth_mread by done. rewrite mwrite_in by lia. f_equal. lia.
Qed.

Lemma mread_mwrite_other m a bs b n :
  b + Z.of_nat n <= a \/ a + Z.of_nat (length bs) <= b ->
  mread (mwrite m a bs) b n = mread m b n.
Proof. intros. apply mread_ext. intros i Hi. apply mwrite_out. lia. Qed.

(** Loads and stores of [n]-byte little-endian objects. *)
Definition load (n : nat) (m : mem) (a : Z) : Z := le_dec (mread m a n).
Definition store (n : nat) (m : mem) (a v : Z) : mem := mwrite m a (le_enc n v).
Abbreviation load64 := (load 8).
Abbreviation store64 := (store 8).

Lemma load_store_same n m a v : load n (store n m a v) a = v mod 2 ^ (8 * Z.of_nat n).
Proof.
  unfold load, store. rewrite <- le_dec_enc. f_equal.
  pose proof (mread_mwrite_same m (le_enc n v) a) as H. by rewrite length_le_enc in H.
Qed.

Lemma load64_store64_same m a v : 0 <= v < 2 ^ 64 -> load64 (store64 m a v) a = v.
Proof. intros. rewrite load_store_same. by apply Z.mod_small. Qed.

Lemma load_store_other n k m a b v :
  b + Z.of_nat k <= a \/ a + Z.of_nat n <= b -> load k (store n m a v) b = load k m b.
Proof.
  intros H. unfold load, store. rewrite mread_mwrite_other; [done|]. by rewrite length_le_enc.
Qed.

Lemma load_ext n m m' a :
  (forall i, 0 <= i < Z.of_nat n -> m (a + i) = m' (a + i)) -> load n m a = load n m' a.
Proof. intros. unfold load. by rewrite (mread_ext m m'). Qed.

(** A memory holds bytes. *)
Definition mem_ok (m : mem) : Prop := forall a, byte_ok (m a).

Lemma mread_bytes m a n : mem_ok m -> Forall byte_ok (mread m a n).
Proof. intros Hm. revert a. induction n; cbn; constructor; eauto. Qed.

Lemma mwrite_ok m a bs : mem_ok m -> Forall byte_ok bs -> mem_ok (mwrite m a bs).
Proof.
  intros Hm Hb x. unfold mwrite.
  destruct ((a <=? x) && (x <? a + Z.of_nat (length bs))) eqn:E; [|apply Hm].
  apply andb_true_iff in E as [E1 E2]. apply Z.leb_le in E1. apply Z.ltb_lt in E2.
  rewrite Forall_lookup in Hb. eapply Hb, nth_lookup_Z. lia.
Qed.

Lemma store_ok n m a v : mem_ok m -> mem_ok (store n m a v).
Proof. intros. apply mwrite_ok; [done|]. apply le_enc_bytes. Qed.

Lemma load64_range m a : mem_ok m -> 0 <= load64 m a < 2 ^ 64.
Proof.
  intros. unfold load. pose proof (le_dec_bound (mread m a 8) (mread_bytes m a 8 H)) as Hb.
  by rewrite length_mread in Hb.
Qed.

#[export] Hint Resolve mwrite_ok store_ok mread_bytes le_enc_bytes : xv6.
#[global] Arguments mwrite : simpl never.
#[global] Arguments load : simpl never.
#[global] Arguments store : simpl never.
#[global] Arguments le_enc : simpl never.

(** ** Fields of a disk block

    A block is a list of bytes; [getf n off] and [putf n off] read and write
    the [n]-byte little-endian field at offset [off]. *)
Definition getf (n off : nat) (d : list Z) : Z := le_dec (take n (drop off d)).
Definition putf (n off : nat) (v : Z) (d : list Z) : list Z := splice d off (le_enc n v).

Lemma length_putf n off v d : (off + n <= length d)%nat -> length (putf n off v d) = length d.
Proof. intros. apply length_splice. by rewrite length_le_enc. Qed.

Lemma getf_putf_same n off v d : (off + n <= length d)%nat ->
  getf n off (putf n off v d) = v mod 2 ^ (8 * Z.of_nat n).
Proof.
  intros. unfold getf, putf. pose proof (take_drop_splice d (le_enc n v) off) as E.
  rewrite length_le_enc in E. rewrite E by done. apply le_dec_enc.
Qed.

Lemma take_drop_ext {A} (n off : nat) (d d' : list A) :
  (forall i, (off <= i < off + n)%nat -> d' !! i = d !! i) -> take n (drop off d') = take n (drop off d).
Proof.
  intros E. apply list_eq. intros i. destruct (decide (i < n)%nat).
  - rewrite !lookup_take_lt, !lookup_drop by done. apply E. lia.
  - rewrite !lookup_take_ge by lia. done.
Qed.

Lemma getf_putf_other n off k off' v d : (off' + k <= length d)%nat ->
  (off + n <= off' \/ off' + k <= off)%nat -> getf n off (putf k off' v d) = getf n off d.
Proof.
  intros Hl Hd. unfold getf, putf. f_equal. apply take_drop_ext. intros i Hi.
  apply lookup_splice_out; rewrite length_le_enc; lia.
Qed.

Lemma putf_bytes n off v d : Forall byte_ok d -> Forall byte_ok (putf n off v d).
Proof.
  intros. unfold putf, splice. apply Forall_app; split; [by apply Forall_take|].
  apply Forall_app; split; [apply le_enc_bytes|by apply Forall_drop].
Qed.
