(* ===== verification/StringC.v ===== *)
(** * kernel/string.c: memory blocks and C strings

    Each routine is the C loop over a flat memory.  The theorems give the
    effect of a call on every address. *)

From S2P Require Import Prelude Mem.

(** ** Memory blocks *)

Fixpoint memset_loop (n : nat) (m : mem) (cdst c : Z) : mem :=
  match n with
  | O => m
  | S n => memset_loop n (mset m cdst (u8 c)) (cdst + 1) c
  end.
Definition memset (m : mem) (dst c n : Z) : mem := memset_loop (Z.to_nat n) m dst c.

(** [while(n-- > 0){ if( *s1 != *s2) return *s1 - *s2; s1++, s2++; } return 0] *)
Fixpoint memcmp_loop (n : nat) (m : mem) (s1 s2 : Z) : Z :=
  match n with
  | O => 0
  | S n => if m s1 =? m s2 then memcmp_loop n m (s1 + 1) (s2 + 1) else m s1 - m s2
  end.
Definition memcmp (m : mem) (v1 v2 n : Z) : Z := memcmp_loop (Z.to_nat n) m v1 v2.

(** [while(n-- > 0) *--d = *--s], [d] and [s] just past the blocks. *)
Fixpoint move_down (n : nat) (m : mem) (d s : Z) : mem :=
  match n with
  | O => m
  | S n => move_down n (mset m (d - 1) (m (s - 1))) (d - 1) (s - 1)
  end.
(** [while(n-- > 0) *d++ = *s++] *)
Fixpoint move_up (n : nat) (m : mem) (d s : Z) : mem :=
  match n with
  | O => m
  | S n => move_up n (mset m d (m s)) (d + 1) (s + 1)
  end.
Definition memmove (m : mem) (dst src n : Z) : mem :=
  if n =? 0 then m
  else if (src <? dst) && (dst <? src + n)
       then move_down (Z.to_nat n) m (dst + n) (src + n)
       else move_up (Z.to_nat n) m dst src.

Definition memcpy (m : mem) (dst src n : Z) : mem := memmove m dst src n.

(** ** C strings *)

(** [while(n > 0 && *p && *p == *q) n--, p++, q++;] *)
Fixpoint strncmp_loop (n : nat) (m : mem) (p q : Z) : Z :=
  match n with
  | O => 0
  | S n => if negb (m p =? 0) && (m p =? m q) then strncmp_loop n m (p + 1) (q + 1)
           else m p - m q
  end.
Definition strncmp (m : mem) (p q n : Z) : Z := strncmp_loop (Z.to_nat n) m p q.

(** The second loop of strncpy: [while(n-- > 0) *s++ = 0] *)
Fixpoint zero_fill (n : nat) (m : mem) (s : Z) : mem :=
  match n with
  | O => m
  | S n => zero_fill n (mset m s 0) (s + 1)
  end.
(** The first: [while(n-- > 0 && ( *s++ = *t++) != 0)] *)
Fixpoint strncpy_loop (n : nat) (m : mem) (s t : Z) : mem :=
  match n with
  | O => m
  | S n =>
      let m' := mset m s (m t) in
      if m' s =? 0 then zero_fill n m' (s + 1) else strncpy_loop n m' (s + 1) (t + 1)
  end.
Definition strncpy (m : mem) (s t n : Z) : mem := strncpy_loop (Z.to_nat n) m s t.

(** [while(--n > 0 && ( *s++ = *t++) != 0); *s = 0;], [n] the value tested. *)
Fixpoint safestrcpy_loop (n : nat) (m : mem) (s t : Z) : mem :=
  match n with
  | O => mset m s 0
  | S n =>
      let m' := mset m s (m t) in
      if m' s =? 0 then mset m' (s + 1) 0 else safestrcpy_loop n m' (s + 1) (t + 1)
  end.
Definition safestrcpy (m : mem) (s t n : Z) : mem :=
  if n <=? 0 then m else safestrcpy_loop (Z.to_nat (n - 1)) m s t.

(** [for(n = 0; s[n]; n++);]; the bytes before the terminator bound the
    iterations, [None] is a string longer than the budget. *)
Fixpoint strlen_loop (fuel : nat) (m : mem) (s n : Z) : option Z :=
  match fuel with
  | O => None
  | S fuel => if m (s + n) =? 0 then Some n else strlen_loop fuel m s (n + 1)
  end.
Definition strlen (fuel : nat) (m : mem) (s : Z) : option Z := strlen_loop fuel m s 0.

(** ** Effects, address by address *)

Lemma mset_eq m a b : mset m a b a = b.
Proof. unfold mset. by rewrite Z.eqb_refl. Qed.
Lemma mset_ne m a b x : x <> a -> mset m a b x = m x.
Proof. intros. unfold mset. by bsimp. Qed.

Lemma memset_loop_at n : forall m p c x,
  memset_loop n m p c x = if (p <=? x) && (x <? p + Z.of_nat n) then u8 c else m x.
Proof.
  induction n as [|n IH]; intros m p c x; cbn [memset_loop].
  - bdestruct_all; first [done | lia].
  - rewrite IH. unfold mset. bdestruct_all; first [done | lia].
Qed.

Lemma memset_at m dst c n x : 0 <= n ->
  memset m dst c n x = if (dst <=? x) && (x <? dst + n) then u8 c else m x.
Proof. intros. unfold memset. rewrite memset_loop_at. by rewrite Z2Nat.id by lia. Qed.

Lemma memset_in m dst c n x : dst <= x < dst + n -> memset m dst c n x = u8 c.
Proof. intros. rewrite memset_at by lia. by bsimp. Qed.
Lemma memset_out m dst c n x : 0 <= n -> x < dst \/ dst + n <= x -> memset m dst c n x = m x.
Proof. intros. rewrite memset_at by lia. bdestruct_all; first [done | lia]. Qed.

Lemma memset_mem_ok m dst c n : 0 <= n -> mem_ok m -> mem_ok (memset m dst c n).
Proof.
  intros Hn Hm x. rewrite memset_at by done. destruct (_ && _); [apply u8_range | apply Hm].
Qed.

Lemma move_down_at n : forall m d s x, s <= d ->
  move_down n m d s x =
  if (d - Z.of_nat n <=? x) && (x <? d) then m (s - (d - x)) else m x.
Proof.
  induction n as [|n IH]; intros m d s x Hsd; cbn [move_down].
  - bdestruct_all; first [done | lia].
  - rewrite IH by lia. unfold mset.
    bdestruct_all; first [done | lia | f_equal; lia | exfalso; lia].
Qed.

Lemma move_up_at n : forall m d s x, d <= s \/ s + Z.of_nat n <= d ->
  move_up n m d s x =
  if (d <=? x) && (x <? d + Z.of_nat n) then m (s + (x - d)) else m x.
Proof.
  induction n as [|n IH]; intros m d s x Hsd; cbn [move_up].
  - bdestruct_all; first [done | lia].
  - rewrite IH by lia. unfold mset.
    bdestruct_all; first [done | lia | f_equal; lia | exfalso; lia].
Qed.

(** memmove is a simultaneous copy: each destination byte gets the source
    byte of the memory before the call, overlapping blocks included. *)
Lemma memmove_at m dst src n x : 0 <= n ->
  memmove m dst src n x =
  if (dst <=? x) && (x <? dst + n) then m (src + (x - dst)) else m x.
Proof.
  intros Hn. unfold memmove. destruct (Z.eqb_spec n 0) as [->|Hn0].
  - bdestruct_all; first [done | lia].
  - destruct (Z.ltb_spec src dst), (Z.ltb_spec dst (src + n)); cbn [andb];
      [rewrite move_down_at by lia | rewrite move_up_at by lia ..];
      rewrite Z2Nat.id by lia; bdestruct_all; first [done | f_equal; lia | exfalso; lia].
Qed.

Lemma memmove_mread m dst src n : 0 <= n ->
  mread (memmove m dst src n) dst (Z.to_nat n) = mread m src (Z.to_nat n).
Proof.
  intros Hn. apply (nth_ext _ _ 0 0); rewrite !length_mread; [done|]. intros i Hi.
  rewrite !nth_mread, memmove_at by done. bsimp. f_equal. lia.
Qed.

Lemma memmove_mem_ok m dst src n : 0 <= n -> mem_ok m -> mem_ok (memmove m dst src n).
Proof. intros Hn Hm x. rewrite memmove_at by done. destruct (_ && _); apply Hm. Qed.

Lemma memcmp_loop_0 n : forall m p q,
  memcmp_loop n m p q = 0 <-> (forall i, 0 <= i < Z.of_nat n -> m (p + i) = m (q + i)).
Proof.
  induction n as [|n IH]; intros m p q; cbn [memcmp_loop]; [split; [lia|done]|].
  destruct (Z.eqb_spec (m p) (m q)) as [E|E].
  - rewrite IH. split; intros H i Hi.
    + destruct (decide (i = 0)) as [->|]; [by rewrite !Z.add_0_r|].
      replace (p + i) with (p + 1 + (i - 1)) by lia.
      replace (q + i) with (q + 1 + (i - 1)) by lia. apply H. lia.
    + replace (p + 1 + i) with (p + (1 + i)) by lia.
      replace (q + 1 + i) with (q + (1 + i)) by lia. apply H. lia.
  - split; [lia|]. intros H. specialize (H 0). rewrite !Z.add_0_r in H. lia.
Qed.

Lemma zero_fill_at n : forall m s x,
  zero_fill n m s x = if (s <=? x) && (x <? s + Z.of_nat n) then 0 else m x.
Proof.
  induction n as [|n IH]; intros m s x; cbn [zero_fill].
  - bdestruct_all; first [done | lia].
  - rewrite IH. unfold mset. bdestruct_all; first [done | lia].
Qed.

(** [cstr_at m t k]: the C string at [t] has length [k]. *)
Definition cstr_at (m : mem) (t k : Z) : Prop :=
  0 <= k /\ m (t + k) = 0 /\ forall i, 0 <= i < k -> m (t + i) <> 0.

Lemma strlen_loop_spec fuel : forall m s n k,
  cstr_at m s k -> 0 <= n <= k -> (Z.to_nat (k - n) < fuel)%nat ->
  strlen_loop fuel m s n = Some k.
Proof.
  induction fuel as [|fuel IH]; intros m s n k Hk Hn Hf; [lia|]. cbn [strlen_loop].
  destruct Hk as (Hk0 & Hnul & Hnz). destruct (Z.eqb_spec (m (s + n)) 0) as [E|E].
  - f_equal. destruct (decide (n = k)); [done|]. exfalso. apply (Hnz n); [lia|done].
  - apply IH; [done| |]; destruct (decide (n = k)) as [->|]; first [done | lia].
Qed.

(** [prefix_len m t n k]: [k] bytes of the string at [t] precede its
    terminator or the limit [n], whichever comes first. *)
Definition prefix_len (m : mem) (t n k : Z) : Prop :=
  0 <= k <= n /\ (forall i, 0 <= i < k -> m (t + i) <> 0) /\ (k < n -> m (t + k) = 0).

Lemma prefix_len_step m m' s t n k :
  prefix_len m t (n + 1) k -> 0 <= n -> m t <> 0 -> s < t \/ t + n < s ->
  (forall x, x <> s -> m' x = m x) -> prefix_len m' (t + 1) n (k - 1).
Proof.
  intros (Hk & Hnz & Hz) Hn Ht Hst Hm'.
  assert (k <> 0). { intros ->. apply Ht. rewrite Z.add_0_r in Hz. apply Hz. lia. }
  split_and!; [lia|lia| |].
  - intros i Hi. rewrite Hm' by lia. replace (t + 1 + i) with (t + (1 + i)) by lia. apply Hnz. lia.
  - intros Hlt. rewrite Hm' by lia. replace (t + 1 + (k - 1)) with (t + k) by lia. apply Hz. lia.
Qed.

Lemma prefix_len_0 m t n k : prefix_len m t n k -> m t = 0 -> k = 0.
Proof.
  intros (Hk & Hnz & _) Ht. destruct (decide (k = 0)); [done|].
  exfalso. apply (Hnz 0); [lia|]. by rewrite Z.add_0_r.
Qed.

Lemma strncpy_loop_at n : forall m s t k x,
  prefix_len m t (Z.of_nat n) k -> s + Z.of_nat n <= t \/ t + Z.of_nat n <= s ->
  strncpy_loop n m s t x =
  if (s <=? x) && (x <? s + Z.of_nat n)
  then (if x - s <? k then m (t + (x - s)) else 0) else m x.
Proof.
  induction n as [|n IH]; intros m s t k x Hk Hdisj; cbn [strncpy_loop].
  - bdestruct_all; first [done | lia].
  - rewrite mset_eq. destruct (Z.eqb_spec (m t) 0) as [E|E].
    + pose proof (prefix_len_0 _ _ _ _ Hk E) as ->. rewrite zero_fill_at. unfold mset.
      bdestruct_all; first [done | lia].
    + assert (prefix_len (mset m s (m t)) (t + 1) (Z.of_nat n) (k - 1)) as Hk'.
      { eapply (prefix_len_step m _ s); [replace (Z.of_nat n + 1) with (Z.of_nat (S n)) by lia; done
                                      |lia|done|lia|]. intros. by apply mset_ne. }
      destruct Hk as (Hk & _ & _).
      rewrite (IH _ _ _ (k - 1)) by (first [done | lia]). unfold mset.
      destruct Hk' as (Hk' & _ & _).
      bdestruct_all; first [done | lia | f_equal; lia | exfalso; lia].
Qed.

Lemma safestrcpy_loop_at n : forall m s t k x,
  prefix_len m t (Z.of_nat n) k -> s + Z.of_nat n < t \/ t + Z.of_nat n <= s ->
  safestrcpy_loop n m s t x =
  if (s <=? x) && (x <? s + k) then m (t + (x - s))
  else if x =? s + k then 0
  else if (k <? Z.of_nat n) && (x =? s + k + 1) then 0 else m x.
Proof.
  induction n as [|n IH]; intros m s t k x Hk Hdisj; cbn [safestrcpy_loop].
  - destruct Hk as (Hk & _). unfold mset. bdestruct_all; first [done | lia].
  - rewrite mset_eq. destruct (Z.eqb_spec (m t) 0) as [E|E].
    + pose proof (prefix_len_0 _ _ _ _ Hk E) as ->. unfold mset.
      bdestruct_all; first [done | lia | congruence].
    + assert (prefix_len (mset m s (m t)) (t + 1) (Z.of_nat n) (k - 1)) as Hk'.
      { eapply (prefix_len_step m _ s); [replace (Z.of_nat n + 1) with (Z.of_nat (S n)) by lia; done
                                      |lia|done|lia|]. intros. by apply mset_ne. }
      destruct Hk as (Hk & _ & _).
      rewrite (IH _ _ _ (k - 1)) by (first [done | lia]). unfold mset.
      destruct Hk' as (Hk' & _ & _).
      bdestruct_all; first [done | lia | f_equal; lia | exfalso; lia].
Qed.

Lemma safestrcpy_at m s t n k x :
  1 <= n -> prefix_len m t (n - 1) k -> s + n <= t \/ t + n <= s ->
  safestrcpy m s t n x =
  if (s <=? x) && (x <? s + k) then m (t + (x - s))
  else if x =? s + k then 0
  else if (k <? n - 1) && (x =? s + k + 1) then 0 else m x.
Proof.
  intros Hn Hk Hdisj. unfold safestrcpy. bsimp.
  rewrite (safestrcpy_loop_at _ _ _ _ k) by (rewrite ?Z2Nat.id by lia; first [done | lia]).
  by rewrite Z2Nat.id by lia.
Qed.

Lemma strncpy_at m s t n k x : 0 <= n -> prefix_len m t n k -> s + n <= t \/ t + n <= s ->
  strncpy m s t n x = if (s <=? x) && (x <? s + n) then (if x - s <? k then m (t + (x - s)) else 0) else m x.
Proof. intros Hn Hk Hd. unfold strncpy. rewrite (strncpy_loop_at _ _ _ _ k); rewrite ?Z2Nat.id by lia; done. Qed.

Lemma strncmp_loop_0 n : forall m p q,
  strncmp_loop n m p q = 0 <->
  forall i, 0 <= i < Z.of_nat n -> (forall j, 0 <= j < i -> m (p + j) <> 0) -> m (p + i) = m (q + i).
Proof.
  induction n as [|n IH]; intros m p q; cbn [strncmp_loop]; [split; [lia|done]|].
  destruct (Z.eqb_spec (m p) 0) as [E0|E0], (Z.eqb_spec (m p) (m q)) as [E|E]; cbn [negb andb].
  - split; [|lia]. intros _ i Hi Hj. destruct (decide (i = 0)) as [->|]; [by rewrite !Z.add_0_r|].
    exfalso. apply (Hj 0); [lia|]. by rewrite Z.add_0_r.
  - split; [lia|]. intros H. destruct E. rewrite <- (Z.add_0_r p), <- (Z.add_0_r q). apply H; lia.
  - rewrite IH. split; intros H i Hi Hj.
    + destruct (decide (i = 0)) as [->|]; [by rewrite !Z.add_0_r|].
      replace (p + i) with (p + 1 + (i - 1)) by lia.
      replace (q + i) with (q + 1 + (i - 1)) by lia. apply H; [lia|].
      intros j Hj'. replace (p + 1 + j) with (p + (1 + j)) by lia. apply Hj. lia.
    + replace (p + 1 + i) with (p + (1 + i)) by lia.
      replace (q + 1 + i) with (q + (1 + i)) by lia. apply H; [lia|].
      intros j Hj'. destruct (decide (j = 0)) as [->|]; [by rewrite Z.add_0_r|].
      replace (p + j) with (p + 1 + (j - 1)) by lia. apply Hj. lia.
  - split; [lia|]. intros H. destruct E. rewrite <- (Z.add_0_r p), <- (Z.add_0_r q). apply H; lia.
Qed.

(** ** Properties *)

(** memmove copies as if through a temporary.  Whatever the overlap of the
    two blocks, after the call the destination holds the bytes the source held
    before it, and no byte outside the destination has changed. *)
Theorem memmove_simultaneous m dst src n :
  0 <= n ->
  mread (memmove m dst src n) dst (Z.to_nat n) = mread m src (Z.to_nat n) /\
  (forall x, x < dst \/ dst + n <= x -> memmove m dst src n x = m x).
Proof.
  intros Hn. split; [by apply memmove_mread|]. intros x Hx. rewrite memmove_at by done.
  bdestruct_all; first [done | lia].
Qed.

Definition abc : mem := fun x => if x =? 10 then 97 else if x =? 11 then 98 else if x =? 12 then 99 else 0.
Lemma memmove_simultaneous_witness :
  mread (memmove abc 11 10 3) 11 3 = [97; 98; 99] /\
  (forall x, x < 11 \/ 14 <= x -> memmove abc 11 10 3 x = abc x).
Proof. apply (memmove_simultaneous abc 11 10 3). lia. Defined.

(** C17: the two bounded string copies never write past their buffer and always
    leave it well formed: safestrcpy(s, t, n) copies the first n-1 bytes or
    the whole string and terminates it inside the buffer; strncpy(s, t, n)
    copies at most n bytes and fills the rest of the buffer with NULs. *)
Theorem bounded_string_copies m s t n k :
  1 <= n -> s + n <= t \/ t + n <= s -> prefix_len m t n k ->
  (forall x, x < s \/ s + n <= x -> safestrcpy m s t n x = m x /\ strncpy m s t n x = m x) /\
  cstr_at (safestrcpy m s t n) s (Z.min k (n - 1)) /\
  (forall i, 0 <= i < Z.min k (n - 1) -> safestrcpy m s t n (s + i) = m (t + i)) /\
  (forall i, 0 <= i < n -> strncpy m s t n (s + i) = if i <? k then m (t + i) else 0).
Proof.
  intros Hn Hdisj (Hk & Hnz & Hz).
  assert (prefix_len m t (n - 1) (Z.min k (n - 1))) as Hk'.
  { split_and!; [lia|lia|intros; apply Hnz; lia|].
    intros Hlt. rewrite Z.min_l by lia. apply Hz. lia. }
  assert (forall x, strncpy m s t n x = if (s <=? x) && (x <? s + n)
     then (if x - s <? k then m (t + (x - s)) else 0) else m x) as Hcpy.
  { intros x. apply strncpy_at; [lia|done|done]. }
  pose proof (fun x => safestrcpy_at m s t n _ x Hn Hk' Hdisj) as Hsafe.
  split; [|split; [|split]].
  - intros x Hx. rewrite Hcpy, Hsafe. split; bdestruct_all; first [done | lia].
  - split_and!; [lia| |].
    + rewrite Hsafe. bsimp. done.
    + intros i Hi. rewrite Hsafe. bsimp. replace (s + i - s) with i by lia. apply Hnz. lia.
  - intros i Hi. rewrite Hsafe. bsimp. f_equal. lia.
  - intros i Hi. rewrite Hcpy. bsimp. replace (s + i - s) with i by lia. done.
Qed.

Lemma bounded_string_copies_witness :
  (forall x, x < 20 \/ 22 <= x -> safestrcpy abc 20 10 2 x = abc x /\ strncpy abc 20 10 2 x = abc x) /\
  cstr_at (safestrcpy abc 20 10 2) 20 1 /\
  (forall i, 0 <= i < 1 -> safestrcpy abc 20 10 2 (20 + i) = abc (10 + i)) /\
  (forall i, 0 <= i < 2 -> strncpy abc 20 10 2 (20 + i) = if i <? 2 then abc (10 + i) else 0).
Proof.
  apply (bounded_string_copies abc 20 10 2 2); [lia|lia|].
  split_and!; [lia|lia| |lia]. intros i Hi. assert (i = 0 \/ i = 1) as [->| ->] by lia; vm_compute; congruence.
Defined.

(** The comparison routines decide equality: memcmp returns 0 exactly when
    the two blocks hold the same bytes, strncmp exactly when the two strings
    agree up to their terminator or the limit. *)
Theorem comparisons_decide m p q n :
  0 <= n ->
  (memcmp m p q n = 0 <-> mread m p (Z.to_nat n) = mread m q (Z.to_nat n)) /\
  (strncmp m p q n = 0 <->
   forall i, 0 <= i < n -> (forall j, 0 <= j < i -> m (p + j) <> 0) -> m (p + i) = m (q + i)).
Proof.
  intros Hn. split.
  - unfold memcmp. rewrite memcmp_loop_0. rewrite Z2Nat.id by done. split; intros Heq.
    + apply (nth_ext _ _ 0 0); rewrite !length_mread; [done|]. intros i Hi.
      rewrite !nth_mread by done. apply Heq. lia.
    + intros i Hi. apply (f_equal (fun l => nth (Z.to_nat i) l 0)) in Heq.
      rewrite !nth_mread in Heq by lia. by rewrite Z2Nat.id in Heq by lia.
  - unfold strncmp. rewrite strncmp_loop_0. by rewrite Z2Nat.id.
Qed.

Lemma comparisons_decide_witness :
  (memcmp abc 10 12 3 = 0 <-> mread abc 10 3 = mread abc 12 3) /\
  (strncmp abc 10 10 3 = 0 <->
   forall i, 0 <= i < 3 -> (forall j, 0 <= j < i -> abc (10 + j) <> 0) -> abc (10 + i) = abc (10 + i)).
Proof.
  split; [exact (proj1 (comparisons_decide abc 10 12 3 ltac:(lia)))
         |exact (proj2 (comparisons_decide abc 10 10 3 ltac:(lia)))].
Defined.

#[global] Opaque memset memmove strncpy safestrcpy strncmp memcmp.
#[global] Arguments memset : simpl never.
#[global] Arguments memmove : simpl never.
#[global] Arguments strncpy : simpl never.
#[global] Arguments safestrcpy : simpl never.
#[global] Arguments strncmp : simpl never.
