(* ===== verification/Params.v ===== *)
(** * kernel/param.h, kernel/memlayout.h and the macros of kernel/riscv.h

    The constants of the system, the page and page-table arithmetic, and the
    addresses the linker supplies. *)

From S2P Require Import Prelude.

(** ** kernel/param.h *)
Definition NPROC : Z := 64.
Definition NCPU : Z := 8.
Definition NOFILE : Z := 16.
Definition NFILE : Z := 100.
Definition NINODE : Z := 50.
Definition NDEV : Z := 10.
Definition ROOTDEV : Z := 1.
Definition MAXARG : Z := 32.
Definition MAXOPBLOCKS : Z := 10.
Definition LOGBLOCKS : Z := MAXOPBLOCKS * 3.
Definition NBUF : Z := MAXOPBLOCKS * 3.
Definition FSSIZE : Z := 2000.
Definition MAXPATH : Z := 128.
Definition USERSTACK : Z := 1.

(** ** kernel/fcntl.h *)
Definition O_RDONLY : Z := 0x000.
Definition O_WRONLY : Z := 0x001.
Definition O_RDWR : Z := 0x002.
Definition O_CREATE : Z := 0x200.
Definition O_TRUNC : Z := 0x400.
Definition PROT_READ : Z := 0x1.
Definition PROT_WRITE : Z := 0x2.
Definition MAP_SHARED : Z := 0x01.
Definition MAP_PRIVATE : Z := 0x02.

(** ** kernel/riscv.h: pages and page-table entries *)
Definition PGSIZE : Z := 4096.
Definition PGSHIFT : Z := 12.
Definition PGROUNDUP (sz : Z) : Z := Z.land (u64 (sz + PGSIZE - 1)) (Z.lnot (PGSIZE - 1)).
Definition PGROUNDDOWN (a : Z) : Z := Z.land a (Z.lnot (PGSIZE - 1)).

Definition PTE_V : Z := Z.shiftl 1 0.
Definition PTE_R : Z := Z.shiftl 1 1.
Definition PTE_W : Z := Z.shiftl 1 2.
Definition PTE_X : Z := Z.shiftl 1 3.
Definition PTE_U : Z := Z.shiftl 1 4.

Definition PA2PTE (pa : Z) : Z := u64 (Z.shiftl (Z.shiftr pa 12) 10).
Definition PTE2PA (pte : Z) : Z := u64 (Z.shiftl (Z.shiftr pte 10) 12).
Definition PTE_FLAGS (pte : Z) : Z := Z.land pte 0x3FF.

Definition PXMASK : Z := 0x1FF.
Definition PXSHIFT (level : Z) : Z := PGSHIFT + 9 * level.
Definition PX (level va : Z) : Z := Z.land (Z.shiftr va (PXSHIFT level)) PXMASK.
Definition MAXVA : Z := Z.shiftl 1 (9 + 9 + 9 + 12 - 1).

Definition SATP_SV39 : Z := Z.shiftl 8 60.
Definition MAKE_SATP (pagetable : Z) : Z := Z.lor SATP_SV39 (Z.shiftr pagetable 12).

(** ** kernel/memlayout.h *)
Definition UART0 : Z := 0x10000000.
Definition UART0_IRQ : Z := 10.
Definition VIRTIO0 : Z := 0x10001000.
Definition VIRTIO0_IRQ : Z := 1.
Definition PLIC : Z := 0x0c000000.
Definition KERNBASE : Z := 0x80000000.
Definition PHYSTOP : Z := KERNBASE + 128 * 1024 * 1024.
Definition TRAMPOLINE : Z := MAXVA - PGSIZE.
Definition KSTACK (p : Z) : Z := TRAMPOLINE - (p + 1) * 2 * PGSIZE.
Definition TRAPFRAME : Z := TRAMPOLINE - PGSIZE.

(** ** Addresses set by kernel.ld and trampoline.S

    [end], [etext] and [trampoline] are symbols of the linked image, not of
    the sources; the model takes them as parameters. *)
Class LinkerSyms := {
  kend : Z;          (* end[]: first address after the kernel *)
  etext : Z;         (* etext[]: end of kernel text *)
  trampoline : Z;    (* trampoline[]: the page of trampoline.S *)
}.

(** What kernel.ld guarantees of them. *)
Class LinkerOk `{LinkerSyms} := {
  kend_low : KERNBASE <= kend;
  kend_high : kend <= PHYSTOP;
  etext_range : KERNBASE < etext <= kend;
  etext_aligned : etext mod PGSIZE = 0;
  trampoline_range : KERNBASE <= trampoline < etext;
  trampoline_aligned : trampoline mod PGSIZE = 0;
}.

Lemma MAXVA_val : MAXVA = 274877906944.
Proof. reflexivity. Qed.

(** ** Rounding is arithmetic *)

Lemma land_lnot_mod x : 0 <= x -> Z.land x (Z.lnot (PGSIZE - 1)) = x - x mod 4096.
Proof.
  intros Hx. change (PGSIZE - 1) with (Z.ones 12).
  rewrite <- Z.ldiff_land, Z.ldiff_ones_r by lia.
  rewrite Z.shiftr_div_pow2, Z.shiftl_mul_pow2 by lia. change (2 ^ 12) with 4096.
  pose proof (Z.div_mod x 4096). lia.
Qed.

Lemma PGROUNDDOWN_mod a : 0 <= a -> PGROUNDDOWN a = a - a mod PGSIZE.
Proof. apply land_lnot_mod. Qed.

Lemma PGROUNDUP_mod a : 0 <= a -> a + PGSIZE - 1 < 2 ^ 64 ->
  PGROUNDUP a = (a + 4095) - (a + 4095) mod 4096.
Proof.
  intros H1 H2. unfold PGROUNDUP, PGSIZE in *. rewrite u64_small by lia.
  change 4096 with PGSIZE at 2. rewrite land_lnot_mod by lia. f_equal; [lia|f_equal; lia].
Qed.

Lemma PGROUNDUP_bounds a : 0 <= a -> a + PGSIZE - 1 < 2 ^ 64 ->
  a <= PGROUNDUP a < a + PGSIZE /\ PGROUNDUP a mod PGSIZE = 0.
Proof.
  intros H1 H2. rewrite PGROUNDUP_mod by done. unfold PGSIZE in *.
  pose proof (Z.mod_pos_bound (a + 4095) 4096). split; [lia|].
  rewrite Zminus_mod_idemp_r, Z.sub_diag. done.
Qed.

Lemma PGROUNDUP_aligned a : 0 <= a -> a + PGSIZE - 1 < 2 ^ 64 -> a mod PGSIZE = 0 -> PGROUNDUP a = a.
Proof.
  intros H1 H2 H3. rewrite PGROUNDUP_mod by done. unfold PGSIZE in *.
  pose proof (Z.div_mod a 4096). pose proof (Z.div_mod (a + 4095) 4096).
  pose proof (Z.mod_pos_bound (a + 4095) 4096). nia.
Qed.

Lemma PGROUNDDOWN_bounds a : 0 <= a ->
  PGROUNDDOWN a <= a < PGROUNDDOWN a + PGSIZE /\ PGROUNDDOWN a mod PGSIZE = 0 /\ 0 <= PGROUNDDOWN a.
Proof.
  intros H1. rewrite PGROUNDDOWN_mod by done. unfold PGSIZE in *.
  pose proof (Z.mod_pos_bound a 4096). pose proof (Z.div_mod a 4096).
  split_and!; [lia|lia| |]; [|pose proof (Z.div_pos a 4096); lia].
  rewrite Zminus_mod_idemp_r, Z.sub_diag. done.
Qed.

#[global] Arguments PGROUNDUP : simpl never.
#[global] Arguments PGROUNDDOWN : simpl never.
#[global] Arguments PX : simpl never.
#[global] Arguments PA2PTE : simpl never.
#[global] Arguments PTE2PA : simpl never.
#[global] Arguments PTE_FLAGS : simpl never.

(** An image that leaves eight pages of RAM to the allocator, for the
    concrete instances of the theorems. *)
Module ToyImage.
#[export] Instance syms : LinkerSyms :=
  {| kend := PHYSTOP - 8 * PGSIZE; etext := KERNBASE + 16 * PGSIZE; trampoline := KERNBASE |}.
#[export] Instance syms_ok : LinkerOk.
Proof. constructor; vm_compute; try split; congruence. Qed.
(** The i-th of the eight pages. *)
Definition P (i : Z) : Z := PHYSTOP - 8 * PGSIZE + i * PGSIZE.
End ToyImage.
