(* ===== verification/Env.v ===== *)
(** * What the kernel's components need of the calling process

    copyin, copyout and killed as the file, pipe and console code uses them:
    process [p] reads and writes its own user memory, kept in the state [W]
    with everything else the copies depend on.  Proc provides the instance
    built on vm.c. *)

From S2P Require Import Prelude.

Class UserMem (W : Type) := {
  u_copyout : nat -> Z -> list Z -> M W Z;
  u_copyin : nat -> Z -> Z -> M W (Z * list Z);
  u_killed : nat -> W -> bool;
}.

(** Copies return to their caller: they neither panic nor sleep. *)
Class UserMemOk (W : Type) `{UserMem W} (I : W -> Prop) : Prop := {
  u_copyout_ok : forall p va bytes w, I w -> wp (u_copyout p va bytes) (fun _ => I) w;
  u_copyin_ok : forall p va n w, I w ->
    wp (u_copyin p va n) (fun r w' => I w' /\ (r.1 <> -1 -> length r.2 = Z.to_nat n)) w;
}.
