(* ===== verification/Kalloc.v ===== *)
(** * kernel/kalloc.c: the physical page allocator

    The free list is threaded through the free pages themselves: the first
    word of a free page is the address of the next one. *)

From S2P Require Import Prelude Mem StringC Params.

(** Physical memory and [kmem]. *)
Record pm := mkPm {
  pm_mem : mem;
  kmem_lock : spinlock;
  kmem_freelist : Z;
}.

Definition kmem_lockL : lens pm spinlock :=
  Lens kmem_lock (fun b s => mkPm (pm_mem s) b (kmem_freelist s)).
Definition set_mem (m : mem) (s : pm) : pm := mkPm m (kmem_lock s) (kmem_freelist s).
Definition set_freelist (r : Z) (s : pm) : pm := mkPm (pm_mem s) (kmem_lock s) r.
Definition mem_op (f : mem -> mem) : M pm unit := modify (fun s => set_mem (f (pm_mem s)) s).

Section Kalloc.
Context `{LinkerSyms}.

Definition kfree (pa : Z) : M pm unit :=
  if negb (pa mod PGSIZE =? 0) || (pa <? kend) || (PHYSTOP <=? pa)
  then panic "kfree"
  else
    (* fill with junk to catch dangling refs *)
    mem_op (fun m => memset m pa 1 PGSIZE) ;;
    let r := pa in
    acquire kmem_lockL ;;
    let* fl := gets kmem_freelist in
    mem_op (fun m => store64 m r fl) ;;
    modify (set_freelist r) ;;
    release kmem_lockL.

Definition kalloc : M pm Z :=
  acquire kmem_lockL ;;
  let* r := gets kmem_freelist in
  when (negb (r =? 0))
    (let* nxt := gets (fun s => load64 (pm_mem s) r) in modify (set_freelist nxt)) ;;
  release kmem_lockL ;;
  when (negb (r =? 0)) (mem_op (fun m => memset m r 5 PGSIZE)) ;;
  ret r.

(** [for(; p + PGSIZE <= pa_end; p += PGSIZE) kfree(p);] *)
Definition freerange_step (pa_end p : Z) : M pm (Z + unit) :=
  if p + PGSIZE <=? pa_end then kfree p ;; ret (inl (p + PGSIZE)) else ret (inr tt).
Definition freerange (pa_start pa_end : Z) : M pm unit :=
  loop (S (Z.to_nat (pa_end / PGSIZE))) (freerange_step pa_end) (PGROUNDUP pa_start).

(** [initlock(&kmem.lock, "kmem")] clears the lock word. *)
Definition kinit : M pm unit :=
  modify (put kmem_lockL false) ;; freerange kend PHYSTOP.
End Kalloc.

Section KallocProofs.
Context `{LinkerOk}.

(** An address kfree accepts: a page of the RAM above the kernel. *)
Definition valid_page (pa : Z) : Prop := pa mod PGSIZE = 0 /\ kend <= pa < PHYSTOP.

Lemma valid_page_pos pa : valid_page pa -> 0 < pa /\ pa < 2 ^ 64.
Proof. intros [_ Hr]. pose proof kend_low. unfold KERNBASE, PHYSTOP, KERNBASE in *. lia. Qed.

Lemma valid_page_disjoint p q :
  valid_page p -> valid_page q -> p <> q -> p + PGSIZE <= q \/ q + PGSIZE <= p.
Proof.
  intros [Hp _] [Hq _] Hne. unfold PGSIZE in *.
  pose proof (Z.div_mod p 4096). pose proof (Z.div_mod q 4096). nia.
Qed.

(** [free_chain m r ps]: following the next pointers from [r] in memory
    visits the pages [ps] and ends at the null pointer. *)
Inductive free_chain (m : mem) : Z -> list Z -> Prop :=
| free_chain_nil : free_chain m 0 []
| free_chain_cons r ps :
    valid_page r -> free_chain m (load64 m r) ps -> free_chain m r (r :: ps).

(** The allocator's invariant: the free pages are [ps], each once. *)
Definition kmem_inv (ps : list Z) (s : pm) : Prop :=
  kmem_lock s = false /\ mem_ok (pm_mem s) /\
  free_chain (pm_mem s) (kmem_freelist s) ps /\ NoDup ps.

Lemma free_chain_valid m r ps : free_chain m r ps -> Forall valid_page ps.
Proof. induction 1; constructor; auto. Qed.

(** The chain only reads the first words of its own pages. *)
Lemma free_chain_frame m m' r ps :
  (forall p x, p ∈ ps -> p <= x < p + PGSIZE -> m' x = m x) ->
  free_chain m r ps -> free_chain m' r ps.
Proof.
  intros Hm Hc. revert Hm. induction Hc as [|r ps Hr Hc IH]; intros Hm; [constructor|].
  constructor; [done|]. replace (load64 m' r) with (load64 m r).
  - apply IH. intros p x Hp. apply Hm. by apply list_elem_of_further.
  - apply load_ext. intros i Hi. symmetry. apply (Hm r); [apply list_elem_of_here|].
    unfold PGSIZE. lia.
Qed.

Lemma page_out p q x : valid_page p -> valid_page q -> p <> q ->
  q <= x < q + PGSIZE -> x < p \/ p + PGSIZE <= x.
Proof. intros Hp Hq Hne Hx. destruct (valid_page_disjoint p q Hp Hq Hne); lia. Qed.

Lemma kfree_panics pa s : ~ valid_page pa -> kfree pa s = Panic "kfree".
Proof.
  intros Hn. unfold kfree, valid_page in *.
  destruct (Z.eqb_spec (pa mod PGSIZE) 0), (Z.ltb_spec pa kend), (Z.leb_spec PHYSTOP pa);
    cbn; try done. exfalso. apply Hn. lia.
Qed.

Lemma kfree_spec pa ps s :
  kmem_inv ps s -> valid_page pa -> pa ∉ ps ->
  wp (kfree pa) (fun _ s' => kmem_inv (pa :: ps) s' /\
    (forall x, x < pa \/ pa + PGSIZE <= x -> pm_mem s' x = pm_mem s x)) s.
Proof.
  intros (Hl & Hm & Hc & Hnd) Hv Hnin. pose proof (valid_page_pos pa Hv) as Hpos.
  pose proof Hv as [Hal Hr]. unfold kfree. rewrite Hal. bsimp.
  unfold mem_op. wp_steps. split; [split_and!|]; cbn; try done.
  - apply store_ok, memset_mem_ok; [unfold PGSIZE; lia|done].
  - assert (free_chain (store64 (memset (pm_mem s) pa 1 PGSIZE) pa (kmem_freelist s)) (kmem_freelist s) ps).
    { eapply free_chain_frame; [|exact Hc]. intros p x Hp Hx.
      apply free_chain_valid in Hc. rewrite Forall_forall in Hc. specialize (Hc p Hp).
      assert (p <> pa) by (intros ->; done).
      pose proof (page_out pa p x Hv Hc ltac:(done) Hx). unfold store, PGSIZE in *.
      rewrite mwrite_out by (rewrite length_le_enc; lia). apply memset_out; lia. }
    constructor; [done|]. rewrite load64_store64_same; [done|].
    inversion Hc as [|? ? Hv' _]; subst; [lia|]. apply valid_page_pos in Hv'. lia.
  - by apply NoDup_cons.
  - intros x Hx. unfold store, PGSIZE in *.
    rewrite mwrite_out by (rewrite length_le_enc; lia). apply memset_out; lia.
Qed.

Lemma kalloc_empty s : kmem_inv [] s -> kalloc s = Ret 0 s.
Proof.
  destruct s as [m lk fl]. intros (Hl & _ & Hc & _). cbn in *. inversion Hc; subst. done.
Qed.

Lemma kalloc_spec p ps s :
  kmem_inv (p :: ps) s ->
  wp kalloc (fun r s' => r = p /\ valid_page p /\ (p ∉ ps) /\ kmem_inv ps s' /\
    (forall x, p <= x < p + PGSIZE -> pm_mem s' x = 5) /\
    (forall x, x < p \/ p + PGSIZE <= x -> pm_mem s' x = pm_mem s x)) s.
Proof.
  intros (Hl & Hm & Hc & Hnd). inversion Hc as [|? ? Hv Hc']; subst.
  apply NoDup_cons in Hnd as [Hnin Hnd]. pose proof (valid_page_pos _ Hv) as Hpos.
  assert (negb (kmem_freelist s =? 0) = true) as Hnz by (bsimp; done).
  unfold kalloc, mem_op, when. wp_steps. rewrite Hnz. wp_steps.
  split; [done|]. split; [done|]. split; [done|]. split; [|split].
  - split; [done|]. split; [|split; [|done]]; cbn.
    + apply memset_mem_ok; [unfold PGSIZE; lia|done].
    + eapply free_chain_frame; [|exact Hc']. intros q x Hq Hx.
      apply free_chain_valid in Hc'. rewrite Forall_forall in Hc'.
      apply memset_out; [unfold PGSIZE; lia|].
      eapply (page_out _ q); eauto. by intros <-.
  - intros x Hx. by rewrite memset_in.
  - intros x Hx. apply memset_out; [unfold PGSIZE; lia|done].
Qed.

Lemma valid_page_end p : valid_page p -> p + PGSIZE <= PHYSTOP.
Proof.
  intros [Hal Hr]. unfold PHYSTOP, KERNBASE, PGSIZE in *.
  pose proof (Z.div_mod p 4096). nia.
Qed.

Lemma kend_round : kend <= PGROUNDUP kend <= PHYSTOP /\ PGROUNDUP kend mod PGSIZE = 0.
Proof.
  pose proof kend_low. pose proof kend_high.
  unfold PHYSTOP, KERNBASE in *.
  destruct (PGROUNDUP_bounds kend) as [? Hal]; unfold PGSIZE in *; [lia|lia|].
  split; [|done]. pose proof (Z.div_mod (PGROUNDUP kend) 4096). nia.
Qed.

Definition freerange_inv (p : Z) (s : pm) : Prop :=
  p mod PGSIZE = 0 /\ PGROUNDUP kend <= p <= PHYSTOP /\
  exists ps, kmem_inv ps s /\ forall q, q ∈ ps <-> valid_page q /\ q < p.

Lemma freerange_step_spec p s : freerange_inv p s ->
  wp (freerange_step PHYSTOP p) (fun r s' =>
    match r with
    | inl p' => freerange_inv p' s' /\
        (Z.to_nat ((PHYSTOP - p') / PGSIZE) < Z.to_nat ((PHYSTOP - p) / PGSIZE))%nat
    | inr _ => exists ps, kmem_inv ps s' /\ forall q, q ∈ ps <-> valid_page q
    end) s.
Proof.
  intros (Hal & Hr & ps & Hinv & Hps). pose proof kend_round as [Hk _].
  unfold freerange_step. destruct (Z.leb_spec (p + PGSIZE) PHYSTOP) as [Hle|Hgt].
  - assert (valid_page p) as Hv by (split; [done|unfold PGSIZE in *; lia]).
    assert (p ∉ ps) as Hnin by (rewrite Hps; lia).
    apply wp_bind. eapply wp_mono; [by apply kfree_spec|]. intros [] s' [Hinv' _].
    apply wp_ret. unfold PGSIZE in *. split; [split_and!|].
    + pose proof (Z.mod_add p 1 4096). unfold PGSIZE. rewrite Z.mul_1_l in *. lia.
    + lia.
    + unfold PGSIZE. lia.
    + exists (p :: ps). split; [done|]. intros q. rewrite elem_of_cons, Hps. split.
      * intros [->|[? ?]]; split; [done|unfold PGSIZE; lia|done|unfold PGSIZE; lia].
      * intros [Hq Hlt]. destruct (decide (q = p)) as [|Hne]; [by left|right]. split; [done|].
        destruct (valid_page_disjoint p q Hv Hq ltac:(done)); unfold PGSIZE in *; lia.
    + replace (PHYSTOP - p) with (PHYSTOP - (p + 4096) + 1 * 4096) by lia.
      rewrite Z.div_add by lia. pose proof (Z.div_pos (PHYSTOP - (p + 4096)) 4096). lia.
  - apply wp_ret. exists ps. split; [done|]. intros q. rewrite Hps. split; [by intros [? _]|].
    intros Hq. split; [done|]. pose proof (valid_page_end q Hq). unfold PGSIZE in *.
    destruct Hq as [Hqal _]. unfold PGSIZE in *. pose proof (Z.div_mod p 4096).
    pose proof (Z.div_mod q 4096). nia.
Qed.

(** Booting the allocator puts every usable page on the free list once. *)
Lemma kinit_free_pages m lk : mem_ok m ->
  wp kinit (fun _ s' => exists ps, kmem_inv ps s' /\ forall q, q ∈ ps <-> valid_page q) (mkPm m lk 0).
Proof.
  intros Hm. pose proof kend_round as [Hk Hal]. unfold kinit, freerange. wp_step; wp_step.
  apply (wp_loop freerange_inv (fun p _ => Z.to_nat ((PHYSTOP - p) / PGSIZE))).
  - apply freerange_step_spec.
  - split_and!; [done|lia|lia|]. exists []. split.
    + split_and!; cbn; [done|done|constructor|constructor].
    + intros q. split; [by intros ?%not_elem_of_nil|]. intros [[Hqal Hq] Hlt].
      pose proof kend_low. pose proof kend_high. unfold PHYSTOP, KERNBASE, PGSIZE in *.
      rewrite PGROUNDUP_mod in Hlt by (unfold PGSIZE; lia).
      exfalso. clear - Hqal Hq Hlt. Z.div_mod_to_equations. lia.
  - pose proof kend_low. unfold KERNBASE, PGSIZE in *.
    apply Nat.lt_succ_r, Z2Nat.inj_le; [apply Z.div_pos; lia| |apply Z.div_le_mono; lia].
    apply Z.div_pos; unfold PHYSTOP, KERNBASE; lia.
Qed.

(** ** The allocator's contract with its clients

    A client of the allocator holds a list of pages.  It may allocate, and
    free a page it holds.  [client_run] executes such a sequence on the
    code; an index that is not in the list frees nothing. *)
Inductive client_op := CAlloc | CFree (i : nat).

Fixpoint client_run (ops : list client_op) (owned : list Z) : M pm (list Z) :=
  match ops with
  | [] => ret owned
  | CAlloc :: ops =>
      let* p := kalloc in
      client_run ops (if p =? 0 then owned else p :: owned)
  | CFree i :: ops =>
      match owned !! i with
      | None => client_run ops owned
      | Some p => kfree p ;; client_run ops (delete i owned)
      end
  end.

Lemma kalloc_zero_or_page ps s : kmem_inv ps s ->
  wp kalloc (fun r s' =>
    (r = 0 /\ ps = [] /\ s' = s) \/
    (exists ps', ps = r :: ps' /\ r <> 0 /\ valid_page r /\ kmem_inv ps' s')) s.
Proof.
  intros Hinv. destruct ps as [|p ps].
  - unfold wp. rewrite kalloc_empty by done. by left.
  - eapply wp_mono; [by apply kalloc_spec|]. intros r s' (-> & Hv & _ & Hinv' & _).
    right. exists ps. pose proof (valid_page_pos _ Hv). split_and!; first [done | lia].
Qed.

(** Pages are conserved: what is free and what is held always make up the
    same collection of pages, each exactly once. *)
Lemma client_run_conserves ops : forall owned ps s,
  kmem_inv ps s -> NoDup (owned ++ ps) -> Forall valid_page owned ->
  wp (client_run ops owned) (fun owned' s' =>
    exists ps', kmem_inv ps' s' /\ owned' ++ ps' ≡ₚ owned ++ ps /\ NoDup (owned' ++ ps')) s.
Proof.
  induction ops as [|[|i] ops IH]; intros owned ps s Hinv Hnd Hval; cbn [client_run].
  - apply wp_ret. by exists ps.
  - apply wp_bind. eapply wp_mono; [by apply kalloc_zero_or_page|].
    intros r s' [(-> & -> & ->)|(ps' & -> & Hr & Hv & Hinv')].
    + rewrite Z.eqb_refl. by apply IH.
    + bsimp. assert (owned ++ r :: ps' ≡ₚ (r :: owned) ++ ps') as Hp by (symmetry; apply Permutation_middle).
      eapply wp_mono; [apply (IH (r :: owned) ps'); [done| |by constructor]|].
      * by rewrite <- Hp.
      * intros o s2 (ps2 & Hi2 & Hp2 & Hn2). exists ps2. split_and!; [done| |done].
        by rewrite Hp2, Hp.
  - destruct (owned !! i) as [p|] eqn:Hi; [|by apply IH].
    assert (owned ++ ps ≡ₚ delete i owned ++ p :: ps) as Hp.
    { etrans; [apply Permutation_app_tail, (delete_Permutation _ _ _ Hi)|apply Permutation_middle]. }
    rewrite Hp in Hnd. pose proof Hnd as Hnd'. apply NoDup_app in Hnd' as (_ & _ & Hnd').
    apply NoDup_cons in Hnd' as [Hnin _].
    apply wp_bind. eapply wp_mono.
    { apply kfree_spec; [exact Hinv| |exact Hnin]. rewrite Forall_lookup in Hval. by eapply Hval. }
    intros [] s' [Hinv' _].
    eapply wp_mono; [apply (IH (delete i owned) (p :: ps)); [done|done|]|].
    + by apply Forall_delete.
    + intros o s2 (ps2 & Hi2 & Hp2 & Hn2). exists ps2. split_and!; [done| |done].
      by rewrite Hp2, <- Hp.
Qed.
End KallocProofs.

(** ** Properties *)

(** C16: booting the allocator and using it.  After kinit, for every sequence
    of allocations and frees by clients that only free pages they hold, no
    call panics or blocks, the pages held are distinct, and the pages held
    and the pages on the free list together are exactly the page-aligned
    pages between the end of the kernel and PHYSTOP, each once: no page is
    lost and none is handed out twice. *)
Theorem kalloc_conserves_pages `{LinkerOk} m lk ops :
  mem_ok m ->
  wp (kinit ;; client_run ops []) (fun held s' =>
    exists free, kmem_inv free s' /\ NoDup (held ++ free) /\
    forall q, q ∈ held ++ free <-> valid_page q) (mkPm m lk 0).
Proof.
  intros Hm. apply wp_bind. eapply wp_mono; [by apply kinit_free_pages|].
  intros [] s1 (ps & Hinv & Hps). eapply wp_mono.
  - apply (client_run_conserves ops [] ps s1 Hinv); [by destruct Hinv as (_ & _ & _ & ?)|constructor].
  - intros held s' (free & Hinv' & Hperm & Hnd). exists free. split; [done|]. split; [done|].
    intros q. rewrite Hperm. cbn. apply Hps.
Qed.

Lemma kalloc_conserves_pages_witness :
  wp (kinit (H := ToyImage.syms) ;; client_run (H := ToyImage.syms) [CAlloc; CAlloc; CFree 0] [])
    (fun held s' => exists free, kmem_inv (H := ToyImage.syms) free s' /\ NoDup (held ++ free) /\
       forall q, q ∈ held ++ free <-> valid_page (H := ToyImage.syms) q) (mkPm (fun _ => 0) true 0).
Proof. apply (kalloc_conserves_pages (H0 := ToyImage.syms_ok)). intros a. unfold byte_ok. lia. Defined.

(** kfree accepts exactly the pages of the RAM above the kernel.  On any
    other address it panics before touching memory; on a page that is not
    free it pushes the page, overwrites nothing outside it, and the next
    kalloc hands that page out filled with junk. *)
Theorem kfree_then_kalloc `{LinkerOk} pa ps s :
  kmem_inv ps s -> pa ∉ ps ->
  (~ valid_page pa -> kfree pa s = Panic "kfree") /\
  (valid_page pa ->
   wp (kfree pa ;; kalloc) (fun r s' => r = pa /\ kmem_inv ps s' /\
     (forall x, pa <= x < pa + PGSIZE -> pm_mem s' x = 5) /\
     (forall x, x < pa \/ pa + PGSIZE <= x -> pm_mem s' x = pm_mem s x)) s).
Proof.
  intros Hinv Hnin. split; [apply kfree_panics|]. intros Hv. apply wp_bind.
  eapply wp_mono; [by apply kfree_spec|]. intros [] s1 [Hinv1 Hout1].
  eapply wp_mono; [by apply kalloc_spec|]. intros r s2 (-> & _ & _ & Hinv2 & Hin & Hout2).
  split; [done|]. split; [done|]. split; [done|]. intros x Hx. rewrite Hout2 by done. by apply Hout1.
Qed.

Lemma kfree_then_kalloc_witness :
  kfree (H := ToyImage.syms) 4097 (mkPm (fun _ => 0) false 0) = Panic "kfree" /\
  wp (kfree (H := ToyImage.syms) (ToyImage.P 3) ;; kalloc) (fun r s' => r = ToyImage.P 3 /\
     kmem_inv (H := ToyImage.syms) [] s' /\
     (forall x, ToyImage.P 3 <= x < ToyImage.P 3 + PGSIZE -> pm_mem s' x = 5) /\
     (forall x, x < ToyImage.P 3 \/ ToyImage.P 3 + PGSIZE <= x -> pm_mem s' x = 0))
    (mkPm (fun _ => 0) false 0).
Proof.
  assert (kmem_inv (H := ToyImage.syms) [] (mkPm (fun _ => 0) false 0)) as Hinv.
  { split; [done|]. split; [intros a; unfold byte_ok; cbn; lia|]. split; constructor. }
  split.
  - apply (proj1 (kfree_then_kalloc (H0 := ToyImage.syms_ok) 4097 [] _ Hinv (not_elem_of_nil _))).
    intros [Hal _]. vm_compute in Hal. congruence.
  - apply (proj2 (kfree_then_kalloc (H0 := ToyImage.syms_ok) (ToyImage.P 3) [] _ Hinv (not_elem_of_nil _))).
    split; vm_compute; [done|split; congruence].
Defined.
