(* ===== verification/Vm.v ===== *)
(** * kernel/vm.c: page tables and user memory

    Page tables are the words the code reads and writes in physical memory.
    Kernel-side buffers of copyin, copyout and copyinstr are byte lists: the
    bytes to store, or the bytes stored so far when the copy returns.
    [uproc] is the part of [myproc()] this file reads.  A load through a null
    page-table-entry pointer faults, and kerneltrap() panics on it. *)

From S2P Require Import Prelude Mem StringC Params Kalloc.

Record uproc := mkUproc { p_sz : Z; p_pagetable : Z }.

Definition load_pte (pte : Z) : M pm Z := gets (fun s => load64 (pm_mem s) pte).
Definition store_pte (pte v : Z) : M pm unit := mem_op (fun m => store64 m pte v).
Definition has (w bit : Z) : bool := negb (Z.land w bit =? 0).

Section Vm.
Context `{LinkerSyms}.

(** ** Walking the three levels *)

(** One iteration of walk's loop: the next-level table, or [None] when the
    function returns 0 from inside the loop. *)
Definition walk_level (level pagetable va : Z) (alloc : bool) : M pm (option Z) :=
  let pte := pagetable + 8 * PX level va in
  let* v := load_pte pte in
  if has v PTE_V then ret (Some (PTE2PA v))
  else if negb alloc then ret None
  else
    let* pagetable := kalloc in
    if pagetable =? 0 then ret None
    else
      mem_op (fun m => memset m pagetable 0 PGSIZE) ;;
      store_pte pte (Z.lor (PA2PTE pagetable) PTE_V) ;;
      ret (Some pagetable).

Definition walk (pagetable va : Z) (alloc : bool) : M pm Z :=
  if MAXVA <=? va then panic "walk" else
  let* l1 := walk_level 2 pagetable va alloc in
  match l1 with
  | None => ret 0
  | Some pagetable =>
      let* l0 := walk_level 1 pagetable va alloc in
      match l0 with
      | None => ret 0
      | Some pagetable => ret (pagetable + 8 * PX 0 va)
      end
  end.

Definition walkaddr (pagetable va : Z) : M pm Z :=
  if MAXVA <=? va then ret 0 else
  let* pte := walk pagetable va false in
  if pte =? 0 then ret 0 else
  let* v := load_pte pte in
  if negb (has v PTE_V) then ret 0
  else if negb (has v PTE_U) then ret 0
  else ret (PTE2PA v).

Definition ismapped (pagetable va : Z) : M pm bool :=
  let* pte := walk pagetable va false in
  if pte =? 0 then ret false else
  let* v := load_pte pte in
  ret (has v PTE_V).

(** ** Creating mappings *)

Definition mappages_step (pagetable last perm : Z) (st : Z * Z) : M pm (Z * Z + Z) :=
  let '(a, pa) := st in
  let* pte := walk pagetable a true in
  if pte =? 0 then ret (inr (-1)) else
  let* v := load_pte pte in
  if has v PTE_V then panic "mappages: remap" else
  store_pte pte (Z.lor (Z.lor (PA2PTE pa) perm) PTE_V) ;;
  if a =? last then ret (inr 0)
  else ret (inl (u64 (a + PGSIZE), u64 (pa + PGSIZE))).

Definition mappages (pagetable va size pa perm : Z) : M pm Z :=
  if negb (va mod PGSIZE =? 0) then panic "mappages: va not aligned" else
  if negb (size mod PGSIZE =? 0) then panic "mappages: size not aligned" else
  if size =? 0 then panic "mappages: size" else
  let last := u64 (va + size - PGSIZE) in
  loop (S (Z.to_nat (size / PGSIZE))) (mappages_step pagetable last perm) (va, pa).

Definition uvmcreate : M pm Z :=
  let* pagetable := kalloc in
  if pagetable =? 0 then ret 0 else
  mem_op (fun m => memset m pagetable 0 PGSIZE) ;;
  ret pagetable.

(** ** Removing mappings *)

Definition uvmunmap_step (pagetable va_end : Z) (do_free : bool) (a : Z) : M pm (Z + unit) :=
  if va_end <=? a then ret (inr tt) else
  let* pte := walk pagetable a false in
  if pte =? 0 then ret (inl (u64 (a + PGSIZE))) else
  let* v := load_pte pte in
  if negb (has v PTE_V) then ret (inl (u64 (a + PGSIZE))) else
  when do_free (kfree (PTE2PA v)) ;;
  store_pte pte 0 ;;
  ret (inl (u64 (a + PGSIZE))).

Definition uvmunmap (pagetable va npages : Z) (do_free : bool) : M pm unit :=
  if negb (va mod PGSIZE =? 0) then panic "uvmunmap: not aligned" else
  loop (S (Z.to_nat npages))
    (uvmunmap_step pagetable (u64 (va + u64 (npages * PGSIZE))) do_free) va.

Definition uvmdealloc (pagetable oldsz newsz : Z) : M pm Z :=
  if oldsz <=? newsz then ret oldsz else
  when (PGROUNDUP newsz <? PGROUNDUP oldsz)
    (let npages := i32 ((PGROUNDUP oldsz - PGROUNDUP newsz) / PGSIZE) in
     uvmunmap pagetable (PGROUNDUP newsz) npages true) ;;
  ret newsz.

Definition uvmalloc_step (pagetable oldsz newsz xperm : Z) (a : Z) : M pm (Z + Z) :=
  if newsz <=? a then ret (inr newsz) else
  let* mem := kalloc in
  if mem =? 0 then
    uvmdealloc pagetable a oldsz ;; ret (inr 0)
  else
    mem_op (fun m => memset m mem 0 PGSIZE) ;;
    let* r := mappages pagetable a PGSIZE mem (Z.lor (Z.lor PTE_R PTE_U) xperm) in
    if negb (r =? 0) then
      kfree mem ;;
      uvmdealloc pagetable a oldsz ;; ret (inr 0)
    else ret (inl (u64 (a + PGSIZE))).

Definition uvmalloc (pagetable oldsz newsz xperm : Z) : M pm Z :=
  if newsz <? oldsz then ret oldsz else
  let oldsz := PGROUNDUP oldsz in
  loop (S (S (Z.to_nat (newsz / PGSIZE)))) (uvmalloc_step pagetable oldsz newsz xperm) oldsz.

(** Recursion on the levels of the tree; a table tree has three. *)
Fixpoint freewalk (levels : nat) (pagetable : Z) : M pm unit :=
  match levels with
  | O => fun _ => NoFuel
  | S levels =>
      for_range 512 0 (fun i =>
        let* pte := load_pte (pagetable + 8 * i) in
        if has pte PTE_V && negb (has pte (Z.lor (Z.lor PTE_R PTE_W) PTE_X)) then
          let child := PTE2PA pte in
          freewalk levels child ;;
          store_pte (pagetable + 8 * i) 0
        else if has pte PTE_V then panic "freewalk: leaf"
        else ret tt) ;;
      kfree pagetable
  end.

Definition uvmfree (pagetable sz : Z) : M pm unit :=
  when (0 <? sz) (uvmunmap pagetable 0 (PGROUNDUP sz / PGSIZE) true) ;;
  freewalk 3 pagetable.

(** ** Copying an address space *)

Definition uvmcopy_step (old new sz : Z) (i : Z) : M pm (Z + Z) :=
  if sz <=? i then ret (inr 0) else
  let* pte := walk old i false in
  if pte =? 0 then ret (inl (u64 (i + PGSIZE))) else
  let* v := load_pte pte in
  if negb (has v PTE_V) then ret (inl (u64 (i + PGSIZE))) else
  let pa := PTE2PA v in
  let flags := PTE_FLAGS v in
  let* mem := kalloc in
  if mem =? 0 then
    uvmunmap new 0 (i / PGSIZE) true ;; ret (inr (-1))
  else
    mem_op (fun m => memmove m mem pa PGSIZE) ;;
    let* r := mappages new i PGSIZE mem flags in
    if negb (r =? 0) then
      kfree mem ;;
      uvmunmap new 0 (i / PGSIZE) true ;; ret (inr (-1))
    else ret (inl (u64 (i + PGSIZE))).

Definition uvmcopy (old new sz : Z) : M pm Z :=
  loop (S (S (Z.to_nat (sz / PGSIZE)))) (uvmcopy_step old new sz) 0.

Definition uvmclear (pagetable va : Z) : M pm unit :=
  let* pte := walk pagetable va false in
  if pte =? 0 then panic "uvmclear" else
  let* v := load_pte pte in
  store_pte pte (Z.land v (Z.lnot PTE_U)).

(** ** Lazily allocated memory and copies between kernel and user space *)

Definition vmfault (p : uproc) (pagetable va : Z) (read : Z) : M pm Z :=
  if p_sz p <=? va then ret 0 else
  let va := PGROUNDDOWN va in
  let* b := ismapped pagetable va in
  if (b : bool) then ret 0 else
  let* mem := kalloc in
  if mem =? 0 then ret 0 else
  mem_op (fun m => memset m mem 0 PGSIZE) ;;
  let* r := mappages (p_pagetable p) va PGSIZE mem (Z.lor (Z.lor PTE_W PTE_U) PTE_R) in
  if negb (r =? 0) then kfree mem ;; ret 0
  else ret mem.

(** The physical page of [va0], faulting it in if it is lazily allocated;
    0 where copyin and copyout give up. *)
Definition user_page (p : uproc) (pagetable va0 : Z) : M pm Z :=
  let* pa0 := walkaddr pagetable va0 in
  if pa0 =? 0 then vmfault p pagetable va0 0 else ret pa0.

(** Loop variables: the destination address and the bytes still to copy. *)
Definition copyout_step (p : uproc) (pagetable : Z) (st : Z * list Z) : M pm (Z * list Z + Z) :=
  let '(dstva, src) := st in
  let len := Z.of_nat (length src) in
  if len <=? 0 then ret (inr 0) else
  let va0 := PGROUNDDOWN dstva in
  if MAXVA <=? va0 then ret (inr (-1)) else
  let* pa0 := user_page p pagetable va0 in
  if pa0 =? 0 then ret (inr (-1)) else
  let* pte := walk pagetable va0 false in
  if pte =? 0 then panic "kerneltrap" else
  let* v := load_pte pte in
  (* forbid copyout over read-only user text pages *)
  if negb (has v PTE_W) then ret (inr (-1)) else
  let n := PGSIZE - (dstva - va0) in
  let n := if len <? n then len else n in
  mem_op (fun m => mwrite m (pa0 + (dstva - va0)) (take (Z.to_nat n) src)) ;;
  ret (inl (u64 (va0 + PGSIZE), drop (Z.to_nat n) src)).

Definition copyout (p : uproc) (pagetable dstva : Z) (src : list Z) : M pm Z :=
  loop (S (length src)) (copyout_step p pagetable) (dstva, src).

(** Loop variables: the source address, the bytes left to read and the
    bytes already stored in the kernel buffer. *)
Definition copyin_step (p : uproc) (pagetable : Z) (st : Z * Z * list Z)
    : M pm (Z * Z * list Z + Z * list Z) :=
  let '(srcva, len, dst) := st in
  if len <=? 0 then ret (inr (0, dst)) else
  let va0 := PGROUNDDOWN srcva in
  let* pa0 := user_page p pagetable va0 in
  if pa0 =? 0 then ret (inr (-1, dst)) else
  let n := PGSIZE - (srcva - va0) in
  let n := if len <? n then len else n in
  let* bytes := gets (fun s => mread (pm_mem s) (pa0 + (srcva - va0)) (Z.to_nat n)) in
  ret (inl (u64 (va0 + PGSIZE), len - n, dst ++ bytes)).

Definition copyin (p : uproc) (pagetable srcva len : Z) : M pm (Z * list Z) :=
  loop (S (Z.to_nat len)) (copyin_step p pagetable) (srcva, len, []).

(** The inner loop of copyinstr over one page: the bytes stored (the NUL
    included) and whether the NUL was found. *)
Fixpoint copystr_page (n : nat) (m : mem) (pp : Z) : list Z * bool :=
  match n with
  | O => ([], false)
  | S n => if m pp =? 0 then ([0], true)
           else let '(bs, got) := copystr_page n m (pp + 1) in (m pp :: bs, got)
  end.

Definition copyinstr_step (pagetable : Z) (st : Z * Z * list Z)
    : M pm (Z * Z * list Z + Z * list Z) :=
  let '(srcva, max, dst) := st in
  if max <=? 0 then ret (inr (-1, dst)) else
  let va0 := PGROUNDDOWN srcva in
  let* pa0 := walkaddr pagetable va0 in
  if pa0 =? 0 then ret (inr (-1, dst)) else
  let n := PGSIZE - (srcva - va0) in
  let n := if max <? n then max else n in
  let* r := gets (fun s => copystr_page (Z.to_nat n) (pm_mem s) (pa0 + (srcva - va0))) in
  let '(bs, got_null) := r in
  if (got_null : bool) then ret (inr (0, dst ++ bs))
  else ret (inl (u64 (va0 + PGSIZE), max - n, dst ++ bs)).

Definition copyinstr (pagetable srcva max : Z) : M pm (Z * list Z) :=
  loop (S (Z.to_nat max)) (copyinstr_step pagetable) (srcva, max, []).

(** ** The kernel's own page table *)

Definition kvmmap (kpgtbl va pa sz perm : Z) : M pm unit :=
  let* r := mappages kpgtbl va sz pa perm in
  if negb (r =? 0) then panic "kvmmap" else ret tt.

(** kernel/proc.c: a page for each process's kernel stack. *)
Definition proc_mapstacks (kpgtbl : Z) : M pm unit :=
  for_range (Z.to_nat NPROC) 0 (fun i =>
    let* pa := kalloc in
    if pa =? 0 then panic "kalloc" else
    let va := KSTACK i in
    kvmmap kpgtbl va pa PGSIZE (Z.lor PTE_R PTE_W)).

Definition kvmmake : M pm Z :=
  let* kpgtbl := kalloc in
  mem_op (fun m => memset m kpgtbl 0 PGSIZE) ;;
  kvmmap kpgtbl UART0 UART0 PGSIZE (Z.lor PTE_R PTE_W) ;;
  kvmmap kpgtbl VIRTIO0 VIRTIO0 PGSIZE (Z.lor PTE_R PTE_W) ;;
  kvmmap kpgtbl PLIC PLIC 0x4000000 (Z.lor PTE_R PTE_W) ;;
  kvmmap kpgtbl KERNBASE KERNBASE (etext - KERNBASE) (Z.lor PTE_R PTE_X) ;;
  kvmmap kpgtbl etext etext (PHYSTOP - etext) (Z.lor PTE_R PTE_W) ;;
  kvmmap kpgtbl TRAMPOLINE trampoline PGSIZE (Z.lor PTE_R PTE_X) ;;
  proc_mapstacks kpgtbl ;;
  ret kpgtbl.

(** ** kernel/proc.c: a user page table with its two fixed pages *)

Definition proc_pagetable (trapframe : Z) : M pm Z :=
  let* pagetable := uvmcreate in
  if pagetable =? 0 then ret 0 else
  let* r := mappages pagetable TRAMPOLINE PGSIZE trampoline (Z.lor PTE_R PTE_X) in
  if r <? 0 then uvmfree pagetable 0 ;; ret 0 else
  let* r := mappages pagetable TRAPFRAME PGSIZE trapframe (Z.lor PTE_R PTE_W) in
  if r <? 0 then
    uvmunmap pagetable TRAMPOLINE 1 false ;;
    uvmfree pagetable 0 ;; ret 0
  else ret pagetable.

Definition proc_freepagetable (pagetable sz : Z) : M pm unit :=
  uvmunmap pagetable TRAMPOLINE 1 false ;;
  uvmunmap pagetable TRAPFRAME 1 false ;;
  uvmfree pagetable sz.

(** kernel/proc.c: grow or shrink the current process; the new size. *)
Definition growproc (p : uproc) (n : Z) : M pm (Z * uproc) :=
  let sz := p_sz p in
  if 0 <? n then
    if TRAPFRAME <? u64 (sz + n) then ret (-1, p) else
    let* sz' := uvmalloc (p_pagetable p) sz (u64 (sz + n)) PTE_W in
    if sz' =? 0 then ret (-1, p) else ret (0, mkUproc sz' (p_pagetable p))
  else if n <? 0 then
    let* sz' := uvmdealloc (p_pagetable p) sz (u64 (sz + n)) in
    ret (0, mkUproc sz' (p_pagetable p))
  else ret (0, mkUproc sz (p_pagetable p)).
End Vm.
