(* ===== verification/VmBits.v ===== *)
(** * Page-table arithmetic

    The bit manipulation of kernel/riscv.h as facts on integers: the indices
    of an address determine its page, and a PTE carries back the address and
    the flags it was built from. *)

From S2P Require Import Prelude Mem Params Kalloc Vm.

Lemma PX_div l va : 0 <= l -> PX l va = (va / 2 ^ (12 + 9 * l)) mod 512.
Proof.
  intros. unfold PX, PXSHIFT, PGSHIFT, PXMASK. change 0x1FF with (Z.ones 9).
  rewrite Z.land_ones, Z.shiftr_div_pow2 by lia. done.
Qed.

Lemma PX_range l va : 0 <= l -> 0 <= PX l va < 512.
Proof. intros. rewrite PX_div by done. apply Z.mod_pos_bound. lia. Qed.

Lemma PX_indices va :
  PX 0 va = (va / 4096) mod 512 /\ PX 1 va = (va / 4096 / 512) mod 512 /\
  PX 2 va = (va / 4096 / 512 / 512) mod 512.
Proof.
  rewrite !PX_div by lia. rewrite !Z.div_div by lia. done.
Qed.

(** Two user addresses with the same three indices are on the same page. *)
Lemma PX_inj va va' :
  0 <= va < MAXVA -> 0 <= va' < MAXVA ->
  PX 2 va = PX 2 va' -> PX 1 va = PX 1 va' -> PX 0 va = PX 0 va' ->
  va / 4096 = va' / 4096.
Proof.
  destruct (PX_indices va) as (-> & -> & ->), (PX_indices va') as (-> & -> & ->).
  change MAXVA with (4096 * 67108864). intros H1 H2.
  assert (0 <= va / 4096 < 67108864) as Q1 by (split; [apply Z.div_pos | apply Z.div_lt_upper_bound]; lia).
  assert (0 <= va' / 4096 < 67108864) as Q2 by (split; [apply Z.div_pos | apply Z.div_lt_upper_bound]; lia).
  revert Q1 Q2. generalize (va / 4096) (va' / 4096). intros q q' Q1 Q2 E2 E1 E0.
  Z.div_mod_to_equations. lia.
Qed.

(** The pages of an aligned range have distinct indices from outside ones. *)
Lemma PX_same_page va va' : va / 4096 = va' / 4096 ->
  PX 2 va = PX 2 va' /\ PX 1 va = PX 1 va' /\ PX 0 va = PX 0 va'.
Proof.
  intros E. destruct (PX_indices va) as (-> & -> & ->), (PX_indices va') as (-> & -> & ->).
  by rewrite E.
Qed.

(** A physical page address as it appears in a PTE. *)
Definition pa_ok (pa : Z) : Prop := pa mod 4096 = 0 /\ 0 <= pa < 2 ^ 56.

Lemma PA2PTE_eq pa : 0 <= pa < 2 ^ 64 -> PA2PTE pa = pa / 4096 * 1024.
Proof.
  intros. unfold PA2PTE. rewrite Z.shiftl_mul_pow2, Z.shiftr_div_pow2 by lia.
  change (2 ^ 12) with 4096. change (2 ^ 10) with 1024. apply u64_small.
  pose proof (Z.div_pos pa 4096). pose proof (Z.div_lt_upper_bound pa 4096 (2 ^ 52)). lia.
Qed.

(** Flags occupy the low ten bits, under the page number. *)
Lemma lor_flags_add q f : 0 <= f < 1024 -> Z.lor (q * 1024) f = q * 1024 + f.
Proof.
  intros Hf. assert (Z.land (q * 1024) f = 0) as Hland.
  { rewrite <- (Z.mod_small f 1024) by done. change 1024 with (2 ^ 10).
    rewrite <- Z.shiftl_mul_pow2, <- Z.land_ones by lia.
    apply Z.bits_inj'. intros n Hn. rewrite !Z.land_spec, Z.bits_0.
    destruct (decide (n < 10)); [by rewrite Z.shiftl_spec_low by lia|].
    rewrite (Z.ones_spec_high 10) by lia. by rewrite !andb_false_r. }
  by rewrite Z.add_nocarry_lxor, Z.lxor_lor.
Qed.

Lemma lor_small f g : 0 <= f < 1024 -> 0 <= g < 1024 -> 0 <= Z.lor f g < 1024.
Proof.
  intros Hf Hg. split; [apply Z.lor_nonneg; lia|].
  assert (Z.lor f g = Z.lor f g mod 2 ^ 10) as ->; [|apply Z.mod_pos_bound; lia].
  rewrite <- Z.land_ones, Z.land_lor_distr_l, !Z.land_ones by lia.
  by rewrite !Z.mod_small.
Qed.

Lemma PTE2PA_build pa f : pa_ok pa -> 0 <= f < 1024 -> PTE2PA (Z.lor (PA2PTE pa) f) = pa.
Proof.
  intros [Hal Hr] Hf. rewrite PA2PTE_eq, lor_flags_add by lia. unfold PTE2PA.
  rewrite Z.shiftl_mul_pow2, Z.shiftr_div_pow2 by lia. change (2 ^ 12) with 4096.
  change (2 ^ 10) with 1024. rewrite Z.div_add_l, (Z.div_small f), Z.add_0_r by lia.
  pose proof (Z.div_mod pa 4096 ltac:(lia)). replace (pa / 4096 * 4096) with pa by lia.
  apply u64_small. lia.
Qed.

Lemma PTE_FLAGS_build pa f : pa_ok pa -> 0 <= f < 1024 -> PTE_FLAGS (Z.lor (PA2PTE pa) f) = f.
Proof.
  intros [Hal Hr] Hf. rewrite PA2PTE_eq, lor_flags_add by lia. unfold PTE_FLAGS.
  change 0x3FF with (Z.ones 10). rewrite Z.land_ones by lia. change (2 ^ 10) with 1024.
  rewrite Z.add_comm, Z.mod_add by lia. by apply Z.mod_small.
Qed.

Lemma pte_build_range pa f : pa_ok pa -> 0 <= f < 1024 -> 0 <= Z.lor (PA2PTE pa) f < 2 ^ 64.
Proof.
  intros [Hal Hr] Hf. rewrite PA2PTE_eq, lor_flags_add by lia.
  Z.div_mod_to_equations. lia.
Qed.

Lemma has_PTE_V w : has w PTE_V = Z.testbit w 0.
Proof.
  unfold has. change PTE_V with (Z.ones 1). rewrite Z.land_ones by lia.
  rewrite Z.bit0_odd, Zodd_mod. change (2 ^ 1) with 2.
  pose proof (Z.mod_pos_bound w 2). destruct (Z.eqb_spec (w mod 2) 0) as [->|]; [done|].
  assert (w mod 2 = 1) as -> by lia. done.
Qed.

Lemma has_V_lor w : has (Z.lor w PTE_V) PTE_V = true.
Proof. rewrite has_PTE_V, Z.lor_spec. by rewrite orb_true_r. Qed.

Lemma has_0 b : has 0 b = false.
Proof. done. Qed.

Lemma valid_page_pa_ok `{LinkerOk} p : valid_page p -> pa_ok p.
Proof.
  intros [Hal Hr]. pose proof kend_low. unfold pa_ok, PHYSTOP, KERNBASE, PGSIZE in *. lia.
Qed.
