(* ===== verification/PageTable.v ===== *)
(** * Page tables as maps

    A page table in memory represents a tree of table pages, given by the
    page of each path of indices.  [ptev] is the map it stands for: the leaf
    entry of each user address.  walk and mappages of kernel/vm.c are
    characterised on this view, with the pages they take from the allocator
    accounted for. *)

From stdpp Require Import gmap.
From S2P Require Import Prelude Mem StringC Params Kalloc Vm VmBits.

Section PageTable.
Context `{LinkerOk}.
Implicit Types (t : gmap (list Z) Z) (m : mem) (s : pm) (ps : list Z).

(** [pt_rep m root t]: the table pages of the tree at [root] are the pages
    of [t], indexed by the path of indices that reaches them. *)
Record pt_rep m (root : Z) t : Prop := {
  rep_root : t !! [] = Some root;
  rep_page : forall p a, t !! p = Some a -> valid_page a;
  rep_inj : forall p q a, t !! p = Some a -> t !! q = Some a -> p = q;
  rep_closed : forall p i, is_Some (t !! (p ++ [i])) -> is_Some (t !! p) /\ (length p < 2)%nat;
  rep_entry : forall p a i, t !! p = Some a -> (length p < 2)%nat -> 0 <= i < 512 ->
    match t !! (p ++ [i]) with
    | Some c => load64 m (a + 8 * i) = Z.lor (PA2PTE c) PTE_V
    | None => has (load64 m (a + 8 * i)) PTE_V = false
    end }.

(** The tree and the free list share no page. *)
Definition pt_inv (root : Z) t ps s : Prop :=
  kmem_inv ps s /\ pt_rep (pm_mem s) root t /\ forall p a, t !! p = Some a -> a ∉ ps.

(** The address of the leaf entry of [va], and the entry. *)
Definition leaf t (va : Z) : option Z :=
  (fun a => a + 8 * PX 0 va) <$> t !! [PX 2 va; PX 1 va].
Definition ptev m t (va : Z) : Z :=
  match leaf t va with Some x => load64 m x | None => 0 end.

(** The pages the tree and the allocator own between them. *)
Definition pool t ps (q : Z) : Prop := q ∈ ps \/ exists p, t !! p = Some q.

(** What an operation on the tree preserves: the tree only grows, with
    pages of the free list, and nothing outside those pages changes. *)
Record pt_ext t ps s t' ps' s' : Prop := {
  ext_sub : t ⊆ t';
  ext_pool : forall q, pool t' ps' q <-> pool t ps q;
  ext_free : forall q, q ∈ ps' -> q ∈ ps;
  ext_frame : forall x, (forall q, pool t ps q -> x < q \/ q + PGSIZE <= x) ->
    pm_mem s' x = pm_mem s x;
  ext_count : (size t' + length ps' = size t + length ps)%nat }.

(** The new tables are at paths in [P]; a failure for want of pages leaves
    none, and a path of [P] without its table. *)
Definition new_paths t t' (P : list Z -> Prop) : Prop := forall q, is_Some (t' !! q) -> is_Some (t !! q) \/ P q.
Definition short t' ps' (P : list Z -> Prop) : Prop := ps' = [] /\ exists q, P q /\ t' !! q = None.
(** The tables on the way to a page, and to the pages of a range. *)
Definition va_path (va : Z) (q : list Z) : Prop := q = [PX 2 va] \/ q = [PX 2 va; PX 1 va].
Definition range_path (va n : Z) (q : list Z) : Prop := exists va', va <= va' < va + 4096 * n /\ va_path va' q.
Lemma new_paths_refl t P : new_paths t t P.
Proof. intros q Hq. by left. Qed.
Lemma new_paths_trans t t1 t2 (P Q : list Z -> Prop) : (forall q, P q -> Q q) -> new_paths t t1 Q -> new_paths t1 t2 P -> new_paths t t2 Q.
Proof. intros H1 H2 H3 q Hq. destruct (H3 q Hq); [by apply H2|right; auto]. Qed.

Lemma pt_ext_refl t ps s : pt_ext t ps s t ps s.
Proof. by constructor. Qed.

Lemma pt_ext_trans t ps s t1 ps1 s1 t2 ps2 s2 :
  pt_ext t ps s t1 ps1 s1 -> pt_ext t1 ps1 s1 t2 ps2 s2 -> pt_ext t ps s t2 ps2 s2.
Proof.
  intros [A1 B1 C1 D1 E1] [A2 B2 C2 D2 E2]. constructor.
  - by etrans.
  - intros q. by rewrite B2.
  - auto.
  - intros x Hx. rewrite D2; [by apply D1|]. intros q Hq. apply Hx. by apply B1.
  - by rewrite E2.
Qed.

Lemma load64_zero m a : (forall i, 0 <= i < 8 -> m (a + i) = 0) -> load64 m a = 0.
Proof. intros Hz. rewrite (load_ext 8 m (fun _ => 0)); [done|]. intros i Hi. by apply Hz. Qed.

Lemma word_in_page a i : 0 <= i < 512 -> a <= a + 8 * i /\ a + 8 * i + 8 <= a + PGSIZE.
Proof. unfold PGSIZE. lia. Qed.

(** Words of different table pages, or different words of one, do not
    overlap. *)
Lemma words_disjoint a b i j : valid_page a -> valid_page b -> 0 <= i < 512 -> 0 <= j < 512 ->
  a <> b \/ i <> j -> b + 8 * j + 8 <= a + 8 * i \/ a + 8 * i + 8 <= b + 8 * j.
Proof.
  intros Ha Hb Hi Hj Hne. destruct (decide (a = b)) as [->|Hab]; [lia|].
  pose proof (valid_page_disjoint a b Ha Hb Hab). unfold PGSIZE in *. lia.
Qed.

Lemma store_word_same m a i v : 0 <= v < 2 ^ 64 -> load64 (store64 m (a + 8 * i) v) (a + 8 * i) = v.
Proof. apply load64_store64_same. Qed.

Lemma store_word_other m a i b j v : valid_page a -> valid_page b -> 0 <= i < 512 -> 0 <= j < 512 ->
  a <> b \/ i <> j -> load64 (store64 m (a + 8 * i) v) (b + 8 * j) = load64 m (b + 8 * j).
Proof. intros. apply load_store_other. apply words_disjoint; done. Qed.

Lemma path_snoc_inj (p q : list Z) i j : p ++ [i] = q ++ [j] -> p = q /\ i = j.
Proof. apply app_inj_tail. Qed.

Lemma path_snoc_ne (p : list Z) i : p ++ [i] <> p.
Proof. intros E. apply (f_equal length) in E. rewrite length_app in E. cbn in E. lia. Qed.

(** ** Reading: walk without allocation *)

Lemma walk_level_read root t s p a l va :
  pt_rep (pm_mem s) root t -> t !! p = Some a -> (length p < 2)%nat -> 0 <= l ->
  walk_level l a va false s = Ret (t !! (p ++ [PX l va])) s.
Proof.
  intros Hrep Hp Hlen Hl. pose proof (rep_entry _ _ _ Hrep p a (PX l va) Hp Hlen (PX_range _ _ Hl)) as He.
  unfold walk_level, load_pte, bind, gets. cbn [obind]. destruct (t !! (p ++ [PX l va])) as [c|] eqn:Hc.
  - rewrite He, has_V_lor. unfold ret. do 2 f_equal. apply PTE2PA_build; [|done].
    eapply valid_page_pa_ok, rep_page; eauto.
  - by rewrite He.
Qed.

Lemma walk_read root t s va :
  pt_rep (pm_mem s) root t -> va < MAXVA ->
  walk root va false s = Ret (default 0 (leaf t va)) s.
Proof.
  intros Hrep Hva. unfold walk. bsimp. unfold bind at 1.
  rewrite (walk_level_read root t s [] root 2 va) by (first [done | by eapply rep_root | cbn; lia]).
  cbn [app obind]. unfold leaf. destruct (t !! [PX 2 va]) as [a1|] eqn:H1.
  - unfold bind. cbn [obind]. rewrite (walk_level_read root t s [PX 2 va] a1 1 va) by (first [done | cbn; lia]).
    cbn [app obind]. by destruct (t !! [PX 2 va; PX 1 va]).
  - destruct (t !! [PX 2 va; PX 1 va]) as [a0|] eqn:Ha0; [|done].
    destruct (rep_closed _ _ _ Hrep [PX 2 va] (PX 1 va)) as [[? Hx] _]; [by exists a0|congruence].
Qed.

Lemma leaf_pos root t s va x : pt_rep (pm_mem s) root t -> leaf t va = Some x -> 0 < x.
Proof.
  intros Hrep Hx. unfold leaf in Hx. apply fmap_Some in Hx as (a & Ha & ->).
  apply (rep_page _ _ _ Hrep), valid_page_pos in Ha. pose proof (PX_range 0 va). lia.
Qed.

(** ** Growing the tree by one table page *)

(** [m'] is [m] with the entry [i] of table [a] pointing to the zeroed
    page [c]. *)
Record table_linked m m' (a i c : Z) : Prop := {
  linked_entry : load64 m' (a + 8 * i) = Z.lor (PA2PTE c) PTE_V;
  linked_zero : forall j, 0 <= j < 512 -> load64 m' (c + 8 * j) = 0;
  linked_other : forall b j, valid_page b -> b <> c -> 0 <= j < 512 -> b <> a \/ j <> i ->
    load64 m' (b + 8 * j) = load64 m (b + 8 * j) }.

Lemma linked_rep m m' root t p a i c :
  pt_rep m root t -> t !! p = Some a -> (length p < 2)%nat -> 0 <= i < 512 ->
  t !! (p ++ [i]) = None -> valid_page c -> (forall q, t !! q <> Some c) ->
  table_linked m m' a i c -> pt_rep m' root (<[p ++ [i] := c]> t).
Proof.
  intros Hrep Hp Hlen Hi Hnone Hc Hfresh [Hent Hzero Hoth]. constructor.
  - rewrite lookup_insert_ne; [apply (rep_root _ _ _ Hrep)|]. by destruct p.
  - intros q b Hq. apply lookup_insert_Some in Hq as [[<- <-]|[_ Hq]]; [done|].
    by eapply rep_page.
  - intros q1 q2 b H1 H2. apply lookup_insert_Some in H1, H2.
    destruct H1 as [[<- <-]|[_ H1]], H2 as [[<- E]|[_ H2]]; [done| |by subst; destruct (Hfresh q1)|].
    + by destruct (Hfresh q2).
    + by eapply rep_inj.
  - intros q j Hq. apply lookup_insert_is_Some in Hq as [Hq|[_ Hq]].
    + apply path_snoc_inj in Hq as [<- <-]. rewrite lookup_insert_ne by apply path_snoc_ne.
      eauto.
    + destruct (rep_closed _ _ _ Hrep q j Hq) as [Hs ?]. split; [|done].
      destruct (decide (p ++ [i] = q)) as [<-|]; [rewrite Hnone in Hs; by destruct Hs|].
      by rewrite lookup_insert_ne.
  - intros q b j Hq Hl Hj. apply lookup_insert_Some in Hq as [[<- <-]|[Hne Hq]].
    + rewrite lookup_insert_ne by apply not_eq_sym, path_snoc_ne.
      destruct (t !! ((p ++ [i]) ++ [j])) eqn:E.
      * destruct (rep_closed _ _ _ Hrep (p ++ [i]) j) as [Hs _]; [by eexists|]. rewrite Hnone in Hs. by destruct Hs.
      * by rewrite Hzero.
    + assert (b <> c) by (intros ->; by destruct (Hfresh q)).
      destruct (decide (p ++ [i] = q ++ [j])) as [E|E].
      * rewrite E, lookup_insert_eq. apply path_snoc_inj in E as [<- <-]. by simplify_eq.
      * rewrite lookup_insert_ne by done. rewrite Hoth.
        -- by apply (rep_entry _ _ _ Hrep).
        -- by eapply rep_page.
        -- done.
        -- done.
        -- destruct (decide (b = a)) as [->|]; [right|by left]. intros ->. apply E. f_equal.
           by eapply rep_inj.
Qed.

Lemma linked_ptev m m' root t p a i c va :
  pt_rep m root t -> t !! p = Some a -> (length p < 2)%nat -> 0 <= i < 512 ->
  t !! (p ++ [i]) = None -> (forall q, t !! q <> Some c) ->
  table_linked m m' a i c -> ptev m' (<[p ++ [i] := c]> t) va = ptev m t va.
Proof.
  intros Hrep Hp Hlen Hi Hnone Hfresh [Hent Hzero Hoth]. unfold ptev, leaf.
  destruct (decide (p ++ [i] = [PX 2 va; PX 1 va])) as [E|E].
  - rewrite E in *. rewrite lookup_insert_eq, Hnone. cbn. apply Hzero, PX_range. lia.
  - rewrite lookup_insert_ne by done. destruct (t !! [PX 2 va; PX 1 va]) as [a0|] eqn:Ha0; [|done].
    cbn. apply Hoth; [by eapply rep_page|by intros ->; destruct (Hfresh [PX 2 va; PX 1 va])|apply PX_range; lia|].
    left. intros ->. pose proof (rep_inj _ _ _ Hrep _ _ _ Hp Ha0) as ->. cbn in Hlen. lia.
Qed.

(** The memory after kalloc, memset and the store of the new entry. *)
Lemma link_memory m m1 a i c :
  valid_page a -> valid_page c -> a <> c -> 0 <= i < 512 ->
  (forall x, x < c \/ c + PGSIZE <= x -> m1 x = m x) ->
  table_linked m (store64 (memset m1 c 0 PGSIZE) (a + 8 * i) (Z.lor (PA2PTE c) PTE_V)) a i c.
Proof.
  intros Ha Hc Hac Hi Hm1. constructor.
  - apply store_word_same, pte_build_range; [by apply valid_page_pa_ok|done].
  - intros j Hj. rewrite store_word_other by (auto). apply load64_zero. intros k Hk.
    apply memset_in. unfold PGSIZE. lia.
  - intros b j Hb Hbc Hj Hne. rewrite store_word_other by (first [done | destruct Hne; [left | right]; congruence]).
    apply load_ext. intros k Hk. pose proof (valid_page_disjoint b c Hb Hc Hbc).
    rewrite memset_out by (unfold PGSIZE in *; lia). apply Hm1. unfold PGSIZE in *. lia.
Qed.

(** ** walk with allocation *)

Lemma walk_level_alloc root t ps s p a l va :
  pt_inv root t ps s -> t !! p = Some a -> (length p < 2)%nat -> 0 <= l ->
  wp (walk_level l a va true) (fun r s' => exists t' ps', pt_inv root t' ps' s' /\
    pt_ext t ps s t' ps' s' /\ (forall va', ptev (pm_mem s') t' va' = ptev (pm_mem s) t va') /\
    new_paths t t' (eq (p ++ [PX l va])) /\
    match r with
    | Some c => t' !! (p ++ [PX l va]) = Some c
    | None => short t' ps' (eq (p ++ [PX l va]))
    end) s.
Proof.
  intros (Hk & Hrep & Hsep) Hp Hlen Hl. pose proof (PX_range l va Hl) as Hi.
  pose proof (rep_entry _ _ _ Hrep p a _ Hp Hlen Hi) as He.
  unfold walk_level, load_pte, store_pte, mem_op. wp_step; wp_step.
  destruct (t !! (p ++ [PX l va])) as [c|] eqn:Hc.
  { rewrite He, has_V_lor. apply wp_ret. exists t, ps. split; [done|]. split; [apply pt_ext_refl|].
    split; [done|]. split; [apply new_paths_refl|]. rewrite PTE2PA_build; [done| |done]. eapply valid_page_pa_ok, rep_page; eauto. }
  rewrite He. cbn [negb]. wp_step. destruct ps as [|c ps].
  { unfold wp. rewrite kalloc_empty by done. exists t, []. cbn.
    split; [done|]. split; [apply pt_ext_refl|]. split; [done|]. split; [apply new_paths_refl|].
    split; [done|]. by eexists. }
  eapply wp_mono; [by apply kalloc_spec|]. intros r s1 (-> & Hv & Hnin & Hk1 & _ & Hm1).
  pose proof (valid_page_pos _ Hv). bsimp. wp_steps.
  assert (forall q, t !! q <> Some c) as Hfresh.
  { intros q Hq. apply (Hsep _ _ Hq). apply list_elem_of_here. }
  assert (valid_page a) as Ha by (by eapply rep_page).
  assert (a <> c) by (intros ->; by destruct (Hfresh p)).
  pose proof (link_memory _ _ a _ c Ha Hv ltac:(done) Hi Hm1) as Hlink.
  exists (<[p ++ [PX l va] := c]> t), ps.
  split; [|split; [|split; [by intros; eapply linked_ptev|split; [|by rewrite lookup_insert_eq]]]].
  - split; [|split; [by eapply linked_rep|]].
    + destruct Hk1 as (Hlk & Hok & Hch & Hnd). split; [done|].
      split; [by apply store_ok, memset_mem_ok|]. split; [|done].
      eapply free_chain_frame; [|exact Hch]. intros q x Hq Hx. cbn.
      assert (valid_page q) as Hvq.
      { apply free_chain_valid in Hch. rewrite Forall_forall in Hch. by apply Hch. }
      assert (q <> c) by (by intros ->).
      assert (q <> a). { intros ->. apply (Hsep p a Hp). by apply list_elem_of_further. }
      pose proof (valid_page_disjoint q c Hvq Hv ltac:(done)).
      pose proof (valid_page_disjoint q a Hvq Ha ltac:(done)).
      unfold store, PGSIZE in *. rewrite mwrite_out by (rewrite length_le_enc; lia).
      apply memset_out; lia.
    + intros q b Hq. apply lookup_insert_Some in Hq as [[<- <-]|[_ Hq]]; [done|].
      intros Hin. apply (Hsep q b Hq). by apply list_elem_of_further.
  - constructor.
    + by apply insert_subseteq.
    + intros q. unfold pool. rewrite elem_of_cons. split.
      * intros [Hq|[p' Hq]]; [by left; right|].
        apply lookup_insert_Some in Hq as [[<- <-]|[_ Hq]]; [by left; left|by right; exists p'].
      * intros [[->|Hq]|[p' Hq]]; [right; exists (p ++ [PX l va]); by rewrite lookup_insert_eq|by left|].
        right. exists p'. rewrite lookup_insert_ne; [done|]. intros <-. congruence.
    + intros q. apply list_elem_of_further.
    + intros x Hx. cbn. assert (x < a \/ a + PGSIZE <= x) by (apply Hx; right; by exists p).
      assert (x < c \/ c + PGSIZE <= x) by (apply Hx; left; apply list_elem_of_here).
      unfold store. unfold PGSIZE in *. rewrite mwrite_out by (rewrite length_le_enc; lia).
      rewrite memset_out by lia. apply Hm1. unfold PGSIZE. lia.
    + rewrite map_size_insert_None by done. cbn. lia.
  - intros q [b Hq]. apply lookup_insert_Some in Hq as [[Hq _]|[_ Hq]]; [by right|left; by exists b].
Qed.

Lemma walk_alloc root t ps s va :
  pt_inv root t ps s -> va < MAXVA ->
  wp (walk root va true) (fun r s' => exists t' ps', pt_inv root t' ps' s' /\
    pt_ext t ps s t' ps' s' /\ (forall va', ptev (pm_mem s') t' va' = ptev (pm_mem s) t va') /\
    new_paths t t' (va_path va) /\ ((r = 0 /\ short t' ps' (va_path va)) \/ leaf t' va = Some r)) s.
Proof.
  intros Hinv Hva. pose proof Hinv as (_ & Hrep & _). unfold walk. bsimp. wp_step.
  eapply wp_mono; [apply (walk_level_alloc root t ps s [] root 2 va Hinv);
    [by eapply rep_root|cbn; lia|lia]|]. cbn [app].
  intros [a1|] s1 (t1 & ps1 & Hinv1 & Hext1 & Hv1 & Hn1 & Hr1).
  2: { apply wp_ret. exists t1, ps1. split; [done|]. split; [done|]. split; [done|]. split.
       - eapply new_paths_trans; [|apply new_paths_refl|exact Hn1]. intros q <-. by left.
       - left. split; [done|]. destruct Hr1 as [-> (q & <- & Hq)]. split; [done|]. eexists. split; [by left|done]. }
  assert (new_paths t t1 (va_path va)) as Hp1.
  { eapply new_paths_trans; [|apply new_paths_refl|exact Hn1]. intros q <-. by left. }
  wp_step. eapply wp_mono; [apply (walk_level_alloc root t1 ps1 s1 [PX 2 va] a1 1 va Hinv1);
    [done|cbn; lia|lia]|]. cbn [app].
  intros [a0|] s2 (t2 & ps2 & Hinv2 & Hext2 & Hv2 & Hn2 & Hr2); apply wp_ret; exists t2, ps2;
    (split; [done|]; split; [by eapply pt_ext_trans|]; split; [by intros; rewrite Hv2|];
     split; [eapply new_paths_trans; [|exact Hp1|exact Hn2]; intros q <-; by right|]).
  - right. unfold leaf. by rewrite Hr2.
  - left. split; [done|]. destruct Hr2 as [-> (q & <- & Hq)]. split; [done|]. eexists. split; [by right|done].
Qed.

(** ** Writing leaf entries *)

Lemma kmem_inv_frame ps s m' :
  kmem_inv ps s -> mem_ok m' ->
  (forall q x, q ∈ ps -> q <= x < q + PGSIZE -> m' x = pm_mem s x) ->
  kmem_inv ps (set_mem m' s).
Proof.
  intros (Hlk & _ & Hch & Hnd) Hok Hx. split; [done|]. split; [done|]. split; [|done].
  cbn. by eapply free_chain_frame.
Qed.

Lemma store_leaf root t ps s va x v :
  pt_inv root t ps s -> leaf t va = Some x -> 0 <= va < MAXVA -> 0 <= v < 2 ^ 64 ->
  let s' := set_mem (store64 (pm_mem s) x v) s in
  pt_inv root t ps s' /\ pt_ext t ps s t ps s' /\
  forall va', 0 <= va' < MAXVA ->
    ptev (pm_mem s') t va' = if decide (va' / 4096 = va / 4096) then v else ptev (pm_mem s) t va'.
Proof.
  intros (Hk & Hrep & Hsep) Hx Hva Hv s'. pose proof (PX_range 0 va ltac:(lia)) as Hi.
  unfold leaf in Hx. apply fmap_Some in Hx as (a & Ha & ->).
  assert (valid_page a) as Hva' by (by eapply rep_page).
  assert (forall y, y < a \/ a + PGSIZE <= y -> pm_mem s' y = pm_mem s y) as Hout.
  { intros y Hy. unfold s', store, PGSIZE in *. cbn. apply mwrite_out. rewrite length_le_enc. lia. }
  split; [|split].
  - split; [|split; [|done]].
    + apply kmem_inv_frame; [done|apply store_ok; by destruct Hk as (_ & ? & _)|].
      intros q y Hq Hy. apply Hout. assert (valid_page q) as Hvq.
      { destruct Hk as (_ & _ & Hc & _). apply free_chain_valid in Hc.
        rewrite Forall_forall in Hc. by apply Hc. }
      assert (a <> q) by (intros ->; by apply (Hsep _ _ Ha)). by eapply page_out.
    + destruct Hrep as [R1 R2 R3 R4 R5]. constructor; try done.
      intros p b j Hp Hl Hj. specialize (R5 p b j Hp Hl Hj). unfold s'. cbn.
      rewrite store_word_other; [done|done|by eapply R2|done|done|].
      left. intros ->. pose proof (R3 _ _ _ Ha Hp) as <-. cbn in Hl. lia.
  - constructor; try done. intros y Hy. apply Hout, Hy. right. by eexists.
  - intros va' Hva2. unfold ptev, leaf, s'. cbn. case_decide as Heq.
    + destruct (PX_same_page va' va Heq) as (-> & -> & ->). rewrite Ha. cbn. by apply store_word_same.
    + destruct (t !! [PX 2 va'; PX 1 va']) as [b|] eqn:Hb; [|done]. cbn.
      apply store_word_other; [done|by eapply rep_page|done|apply PX_range; lia|].
      destruct (decide (a = b)) as [<-|]; [right|by left]. intros E0. apply Heq.
      pose proof (rep_inj _ _ _ Hrep _ _ _ Ha Hb) as E. injection E as E2 E1.
      symmetry. by apply PX_inj.
Qed.

(** The entry mappages stores for the page of [va'] when it maps the range
    at [va] to the physical range at [pa]. *)
Definition mapped_pte (va pa perm va' : Z) : Z :=
  Z.lor (Z.lor (PA2PTE (pa + (va' / 4096 * 4096 - va))) perm) PTE_V.

(** [k] pages of the request are in place. *)
Definition mapped_upto m t m' t' (va pa perm k : Z) : Prop :=
  forall va', 0 <= va' < MAXVA ->
    ptev m' t' va' = if decide (va <= va' < va + 4096 * k) then mapped_pte va pa perm va'
                     else ptev m t va'.

Definition map_inv root t ps s (va pa perm n : Z) (st : Z * Z) (s' : pm) : Prop :=
  exists k t' ps', 0 <= k < n /\ st = (va + 4096 * k, pa + 4096 * k) /\
    pt_inv root t' ps' s' /\ pt_ext t ps s t' ps' s' /\ new_paths t t' (range_path va n) /\
    mapped_upto (pm_mem s) t (pm_mem s') t' va pa perm k.

Lemma mapped_flags perm : 0 <= perm < 1024 -> 0 <= Z.lor perm PTE_V < 1024.
Proof. intros. by apply lor_small. Qed.

Lemma mapped_pte_range va pa perm va' :
  pa_ok (pa + (va' / 4096 * 4096 - va)) -> 0 <= perm < 1024 ->
  0 <= mapped_pte va pa perm va' < 2 ^ 64.
Proof.
  intros. unfold mapped_pte. rewrite <- Z.lor_assoc.
  apply pte_build_range; [done|]. by apply mapped_flags.
Qed.

Lemma mappages_step_spec root t ps s va pa perm n st s1 :
  va mod 4096 = 0 -> 0 <= va -> 0 < n -> va + 4096 * n <= MAXVA ->
  pa mod 4096 = 0 -> 0 <= pa -> pa + 4096 * n <= 2 ^ 56 -> 0 <= perm < 1024 ->
  (forall va', va <= va' < va + 4096 * n -> has (ptev (pm_mem s) t va') PTE_V = false) ->
  map_inv root t ps s va pa perm n st s1 ->
  wp (mappages_step root (va + 4096 * (n - 1)) perm st) (fun r s' =>
    match r with
    | inl st' => map_inv root t ps s va pa perm n st' s' /\
        (Z.to_nat ((va + 4096 * n - st'.1) / 4096) < Z.to_nat ((va + 4096 * n - st.1) / 4096))%nat
    | inr v => exists k t' ps', pt_inv root t' ps' s' /\ pt_ext t ps s t' ps' s' /\
        new_paths t t' (range_path va n) /\ mapped_upto (pm_mem s) t (pm_mem s') t' va pa perm k /\
        ((v = 0 /\ k = n) \/ (v = -1 /\ 0 <= k < n /\ short t' ps' (range_path va n)))
    end) s1.
Proof.
  intros Hal Hva Hn Hmax Hpal Hpa Hpmax Hperm Hfree (k & t1 & ps1 & Hk & -> & Hinv & Hext & Hnew & Hmap).
  pose proof MAXVA_val as HMAX. unfold mappages_step, load_pte, store_pte, mem_op. wp_step.
  assert (va + 4096 * k < MAXVA) as Hlt by lia.
  eapply wp_mono; [apply (walk_alloc root t1 ps1 s1 _ Hinv Hlt)|].
  intros r s2 (t2 & ps2 & Hinv2 & Hext2 & Hv2 & Hn2 & Hr).
  assert (forall q, va_path (va + 4096 * k) q -> range_path va n q) as Hpath.
  { intros q Hq. exists (va + 4096 * k). split; [lia|done]. }
  assert (new_paths t t2 (range_path va n)) as Hnew2 by (by eapply new_paths_trans).
  assert (mapped_upto (pm_mem s) t (pm_mem s2) t2 va pa perm k) as Hmap2.
  { intros va' Hva'. rewrite Hv2. by apply Hmap. }
  destruct Hr as [[-> [-> (q & Hq & Hnone)]]|Hleaf].
  { rewrite Z.eqb_refl. apply wp_ret. exists k, t2, []. split; [done|].
    split; [by eapply pt_ext_trans|]. split; [done|]. split; [done|]. right. split; [done|]. split; [done|].
    split; [done|]. exists q. auto. }
  pose proof (leaf_pos root t2 s2 _ r (proj1 (proj2 Hinv2)) Hleaf) as Hrpos.
  rewrite (proj2 (Z.eqb_neq r 0)) by lia. wp_step; wp_step.
  assert (load64 (pm_mem s2) r = ptev (pm_mem s) t (va + 4096 * k)) as ->.
  { transitivity (ptev (pm_mem s2) t2 (va + 4096 * k)); [unfold ptev; by rewrite Hleaf|].
    rewrite Hmap2 by lia. case_decide; [lia|done]. }
  rewrite Hfree by lia. wp_step; wp_step.
  assert ((va + 4096 * k) / 4096 * 4096 = va + 4096 * k) as Hround.
  { clear - Hal. Z.div_mod_to_equations. lia. }
  assert (Z.lor (Z.lor (PA2PTE (pa + 4096 * k)) perm) PTE_V = mapped_pte va pa perm (va + 4096 * k)) as Hw.
  { unfold mapped_pte. rewrite Hround. do 3 f_equal. lia. }
  assert (pa_ok (pa + ((va + 4096 * k) / 4096 * 4096 - va))) as Hpaok.
  { rewrite Hround. unfold pa_ok. split; [|lia].
    replace (pa + (va + 4096 * k - va)) with (pa + k * 4096) by lia. by rewrite Z.mod_add by lia. }
  rewrite Hw. destruct (store_leaf root t2 ps2 s2 (va + 4096 * k) r _ Hinv2 Hleaf
    ltac:(lia) (mapped_pte_range _ _ _ _ Hpaok Hperm)) as (Hinv3 & Hext3 & Hv3).
  assert (mapped_upto (pm_mem s) t (pm_mem (set_mem (store64 (pm_mem s2) r
     (mapped_pte va pa perm (va + 4096 * k))) s2)) t2 va pa perm (k + 1)) as Hmap3.
  { intros va' Hva'. rewrite Hv3 by done. case_decide as E1.
    - rewrite decide_True by (clear - E1 Hround Hk; Z.div_mod_to_equations; lia). unfold mapped_pte. by rewrite E1.
    - rewrite Hmap2 by done. repeat case_decide; first [done | clear - E1 Hround Hk H1 H2; Z.div_mod_to_equations; lia]. }
  assert (pt_ext t ps s t2 ps2 (set_mem (store64 (pm_mem s2) r
     (mapped_pte va pa perm (va + 4096 * k))) s2)) as Hext'.
  { eapply pt_ext_trans; [exact Hext|]. by eapply pt_ext_trans. }
  destruct (Z.eqb_spec (va + 4096 * k) (va + 4096 * (n - 1))) as [E|E]; apply wp_ret.
  - exists (k + 1), t2, ps2. split; [done|]. split; [done|]. split; [done|]. split; [done|]. left. split; [done|lia].
  - cbn [fst]. unfold PGSIZE. rewrite !u64_small by lia. split.
    + exists (k + 1), t2, ps2. split; [lia|]. split; [f_equal; lia|]. done.
    + clear - Hk E. replace (va + 4096 * n - (va + 4096 * k + 4096)) with ((n - k - 1) * 4096) by lia.
      replace (va + 4096 * n - (va + 4096 * k)) with ((n - k) * 4096) by lia.
      rewrite !Z.div_mul by lia. lia.
Qed.

(** A request mappages accepts: aligned, within the user address space and
    over addresses that are not mapped yet. *)
Record map_request (m : mem) t (va size pa perm : Z) : Prop := {
  req_va : va mod 4096 = 0 /\ 0 <= va /\ va + size <= MAXVA;
  req_size : size mod 4096 = 0 /\ 0 < size;
  req_pa : pa mod 4096 = 0 /\ 0 <= pa /\ pa + size <= 2 ^ 56;
  req_perm : 0 <= perm < 1024;
  req_free : forall va', va <= va' < va + size -> has (ptev m t va') PTE_V = false }.

Lemma mappages_spec root t ps s va size pa perm :
  pt_inv root t ps s -> map_request (pm_mem s) t va size pa perm ->
  wp (mappages root va size pa perm) (fun r s' => exists k t' ps',
    pt_inv root t' ps' s' /\ pt_ext t ps s t' ps' s' /\
    new_paths t t' (range_path va (size / 4096)) /\ mapped_upto (pm_mem s) t (pm_mem s') t' va pa perm k /\
    ((r = 0 /\ k = size / 4096) \/ (r = -1 /\ 0 <= k < size / 4096 /\ short t' ps' (range_path va (size / 4096))))) s.
Proof.
  intros Hinv [(Hal & Hva & Hmax) (Hsal & Hs) (Hpal & Hpa & Hpmax) Hperm Hfree].
  pose proof MAXVA_val as HMAX.
  unfold mappages. change PGSIZE with 4096. rewrite Hal, Hsal. bsimp.
  assert (size = 4096 * (size / 4096)) as Hn by (Z.div_mod_to_equations; lia).
  set (n := size / 4096) in *.
  rewrite u64_small by lia. replace (va + size - 4096) with (va + 4096 * (n - 1)) by lia.
  apply (wp_loop (map_inv root t ps s va pa perm n)
           (fun st _ => Z.to_nat ((va + 4096 * n - st.1) / 4096))).
  - intros st s1 Hst. apply (mappages_step_spec root t ps s); try done; try lia.
    intros va' Hva'. apply Hfree. lia.
  - exists 0, t, ps. split; [lia|]. split; [f_equal; lia|]. split; [done|].
    split; [apply pt_ext_refl|]. split; [apply new_paths_refl|]. intros va' Hva'. case_decide; [lia|done].
  - cbn. replace (va + 4096 * n - va) with (n * 4096) by lia. rewrite Z.div_mul by lia. lia.
Qed.

(** ** Address translation *)

(** walkaddr on the map: the physical page of a valid user entry. *)
Definition user_pa m t (va : Z) : Z :=
  let v := ptev m t va in
  if has v PTE_V && has v PTE_U then PTE2PA v else 0.

Lemma walkaddr_spec root t s va :
  pt_rep (pm_mem s) root t -> va < MAXVA ->
  walkaddr root va s = Ret (user_pa (pm_mem s) t va) s.
Proof.
  intros Hrep Hva. unfold walkaddr. bsimp. unfold bind at 1. rewrite (walk_read root t) by done.
  unfold user_pa, ptev. destruct (leaf t va) as [x|] eqn:Hl; cbn; [|done].
  apply (leaf_pos root t s) in Hl; [|done]. bsimp. unfold load_pte, bind, gets. cbn [obind].
  destruct (has _ PTE_V), (has _ PTE_U); done.
Qed.

Lemma walkaddr_high root s va : MAXVA <= va -> walkaddr root va s = Ret 0 s.
Proof. intros. unfold walkaddr. by bsimp. Qed.

Lemma user_pa_mapped va pa perm va' m t :
  ptev m t va' = mapped_pte va pa perm va' ->
  pa_ok (pa + (va' / 4096 * 4096 - va)) -> 0 <= perm < 1024 -> has perm PTE_U = true ->
  user_pa m t va' = pa + (va' / 4096 * 4096 - va).
Proof.
  intros E Hpa Hperm HU. unfold user_pa. rewrite E. unfold mapped_pte. rewrite has_V_lor. cbn [andb].
  replace (has _ PTE_U) with true.
  - rewrite <- Z.lor_assoc. apply PTE2PA_build; [done|]. by apply mapped_flags.
  - symmetry. unfold has in *. rewrite negb_true_iff in *. apply Z.eqb_neq. apply Z.eqb_neq in HU.
    intros E0. apply HU. rewrite !Z.land_lor_distr_l in E0.
    apply Z.lor_eq_0_iff in E0 as [E0 _]. by apply Z.lor_eq_0_iff in E0 as [_ E0].
Qed.

(** ** Creating a table *)

Lemma zero_page_rep m root : valid_page root ->
  (forall x, root <= x < root + PGSIZE -> m x = 0) -> pt_rep m root {[ [] := root ]}.
Proof.
  intros Hv Hz. constructor.
  - by rewrite lookup_singleton_eq.
  - intros p a Hp. apply lookup_singleton_Some in Hp as [_ <-]. done.
  - intros p q a Hp Hq. apply lookup_singleton_Some in Hp as [<- _], Hq as [<- _]. done.
  - intros p i [x Hx]. apply lookup_singleton_Some in Hx as [E _]. by destruct p.
  - intros p a i Hp _ Hi. apply lookup_singleton_Some in Hp as [<- <-].
    rewrite lookup_singleton_ne by done. rewrite load64_zero; [done|].
    intros j Hj. apply Hz. unfold PGSIZE. lia.
Qed.

Lemma uvmcreate_spec ps s : kmem_inv ps s ->
  wp uvmcreate (fun r s' =>
    (r = 0 /\ ps = [] /\ s' = s) \/
    (exists ps', ps = r :: ps' /\ pt_inv r {[ [] := r ]} ps' s' /\
      forall va, ptev (pm_mem s') {[ [] := r ]} va = 0)) s.
Proof.
  intros Hk. unfold uvmcreate, mem_op. wp_step. destruct ps as [|p ps].
  { unfold wp. rewrite kalloc_empty by done. cbn. by left. }
  eapply wp_mono; [by apply kalloc_spec|]. intros r s1 (-> & Hv & Hnin & Hk1 & _ & Hm1).
  pose proof (valid_page_pos _ Hv). bsimp. wp_step; wp_step; wp_step. right. exists ps. split; [done|].
  assert (forall q, q ∈ ps -> q <> p) as Hne by (by intros q Hq ->).
  split; [split; [|split]|].
  - apply kmem_inv_frame; [done|apply memset_mem_ok; [done|by destruct Hk1 as (_ & ? & _)]|].
    intros q x Hq Hx. apply memset_out; [done|].
    eapply (page_out _ q); [done| |by apply not_eq_sym, Hne|done].
    destruct Hk1 as (_ & _ & Hc & _). apply free_chain_valid in Hc. rewrite Forall_forall in Hc. by apply Hc.
  - apply zero_page_rep; [done|]. intros x Hx. cbn. by apply memset_in.
  - intros q a Hq. by apply lookup_singleton_Some in Hq as [_ <-].
  - intros va. unfold ptev, leaf. by rewrite lookup_singleton_ne.
Qed.
End PageTable.

(** ** The contract of the page-table code *)

(** C12: mapping then translating.  After a successful mappages of an aligned
    range with user permission, walkaddr translates every address of the
    range to the corresponding physical page, every other user address
    translates as before, and the table pages used came from the free list
    (table pages and free pages together are conserved). *)
Theorem mappages_walkaddr `{LinkerOk} root t ps s va size pa perm :
  pt_inv root t ps s -> map_request (pm_mem s) t va size pa perm -> has perm PTE_U = true ->
  wp (mappages root va size pa perm) (fun r s' =>
    exists t' ps', pt_inv root t' ps' s' /\ (forall q, pool t' ps' q <-> pool t ps q) /\
    (r = 0 \/ r = -1) /\
    (r = 0 -> forall va', 0 <= va' < MAXVA ->
      walkaddr root va' s' =
      Ret (if decide (va <= va' < va + size) then pa + (va' / 4096 * 4096 - va)
           else user_pa (pm_mem s) t va') s')) s.
Proof.
  intros Hinv Hreq HU. pose proof Hreq as [(Hal & Hva & Hmax) (Hsal & Hs) (Hpal & Hpa & Hpmax) Hperm _].
  eapply wp_mono; [by apply mappages_spec|]. intros r s' (k & t' & ps' & Hinv' & Hext & _ & Hmap & Hr).
  exists t', ps'. split; [done|]. split; [apply (ext_pool _ _ _ _ _ _ Hext)|].
  split; [destruct Hr as [[-> _]|[-> _]]; auto|]. intros -> va' Hva'. destruct Hr as [[_ ->]|[? _]]; [|lia].
  rewrite (walkaddr_spec root t') by (try apply Hinv'; lia). f_equal. specialize (Hmap va' Hva').
  assert (4096 * (size / 4096) = size) as Hsz by (Z.div_mod_to_equations; lia). rewrite Hsz in Hmap.
  case_decide; [|unfold user_pa; by rewrite Hmap].
  apply (user_pa_mapped _ _ perm); [done| |done|done].
  unfold pa_ok. clear - Hal Hpal Hpa Hpmax H1. Z.div_mod_to_equations. lia.
Qed.

Module PageTableWitness.
Import ToyImage.
(** Pages 1 and 2 are free, page 0 is an empty table. *)
Definition m0 : mem := store64 (fun _ => 0) (P 1) (P 2).
Definition s0 : pm := mkPm m0 false (P 1).
Definition t0 : gmap (list Z) Z := {[ [] := P 0 ]}.

Lemma P_valid i : 0 <= i < 8 -> valid_page (P i).
Proof.
  intros. unfold P, valid_page. cbn [kend syms]. split; [|unfold PHYSTOP, PGSIZE; lia].
  change (PHYSTOP - 8 * PGSIZE) with (557048 * 4096). change PGSIZE with 4096.
  rewrite <- Z.mul_add_distr_r. by apply Z.mod_mul.
Qed.

Lemma kmem_inv0 : kmem_inv [P 1; P 2] s0.
Proof.
  split; [done|]. split; [|split].
  - apply store_ok. intros a. unfold byte_ok. lia.
  - constructor; [by apply P_valid|]. change (load64 (pm_mem s0) (P 1)) with (load64 m0 (P 1)).
    replace (load64 m0 (P 1)) with (P 2) by (vm_compute; reflexivity).
    constructor; [by apply P_valid|]. replace (load64 (pm_mem s0) (P 2)) with 0 by (vm_compute; reflexivity).
    constructor.
  - apply (bool_decide_unpack (NoDup [P 1; P 2])). vm_compute. done.
Qed.

Lemma pt_inv0 : pt_inv (P 0) t0 [P 1; P 2] s0.
Proof.
  split; [apply kmem_inv0|]. split.
  - apply zero_page_rep; [by apply P_valid|]. intros x Hx. cbn. unfold m0, store.
    apply mwrite_out. left. unfold P, PGSIZE in *. lia.
  - intros p a Hp. unfold t0 in Hp. apply lookup_singleton_Some in Hp as [_ <-].
    apply (bool_decide_unpack (P 0 ∉ [P 1; P 2])). vm_compute. done.
Qed.

Lemma request0 : map_request (pm_mem s0) t0 0x1000 PGSIZE (P 3) (Z.lor PTE_R PTE_U).
Proof.
  constructor; [split_and!; vm_compute; congruence ..|].
  intros va' _. unfold ptev, leaf, t0. by rewrite lookup_singleton_ne.
Qed.

(** Mapping user address 0x1000 to page 3 and reading the translation back. *)
Lemma mappages_walkaddr_witness :
  wp (mappages (P 0) 0x1000 PGSIZE (P 3) (Z.lor PTE_R PTE_U)) (fun r s' =>
    exists t' ps', pt_inv (P 0) t' ps' s' /\ (forall q, pool t' ps' q <-> pool t0 [P 1; P 2] q) /\
    (r = 0 \/ r = -1) /\
    (r = 0 -> forall va', 0 <= va' < MAXVA ->
      walkaddr (P 0) va' s' =
      Ret (if decide (0x1000 <= va' < 0x1000 + PGSIZE) then P 3 + (va' / 4096 * 4096 - 0x1000)
           else user_pa (pm_mem s0) t0 va') s')) s0.
Proof. apply (mappages_walkaddr (P 0) t0 [P 1; P 2] s0); [apply pt_inv0|apply request0|reflexivity]. Defined.
End PageTableWitness.
