(* ===== verification/UserCopy.v ===== *)
(** * User memory

    The user part of an address space as a function from addresses to bytes,
    [vmem]: pages that were never touched read as zero.  vmfault, which
    allocates a page on first use, does not change it; copyout writes it and
    copyin reads it, and neither touches memory of anyone else. *)

From Stdlib Require Import ZArith Lia.
From stdpp Require Import gmap.
From S2P Require Import Prelude Mem StringC Params Kalloc Vm VmBits PageTable.

Section UserCopy.
Context `{LinkerOk}.
Implicit Types (t : gmap (list Z) Z) (m : mem) (s : pm) (ps : list Z).

(** The user pages of the tree are pages of RAM, each mapped once, apart
    from the tables and from the free pages. *)
Record aspace (root : Z) t ps s : Prop := {
  as_pt : pt_inv root t ps s;
  as_page : forall va, 0 <= va < MAXVA -> user_pa (pm_mem s) t va <> 0 -> valid_page (user_pa (pm_mem s) t va);
  as_inj : forall va va', 0 <= va < MAXVA -> 0 <= va' < MAXVA -> user_pa (pm_mem s) t va <> 0 ->
    user_pa (pm_mem s) t va = user_pa (pm_mem s) t va' -> va / 4096 = va' / 4096;
  as_sep : forall va, 0 <= va < MAXVA -> user_pa (pm_mem s) t va <> 0 -> ~ pool t ps (user_pa (pm_mem s) t va);
}.

(** The byte a user program finds at [va]. *)
Definition vmem m t (va : Z) : Z :=
  if user_pa m t va =? 0 then 0 else m (user_pa m t va + va mod 4096).

(** Outside the pages of the tree and the allocator. *)
Definition outside t ps (x : Z) : Prop := forall q, pool t ps q -> x < q \/ q + PGSIZE <= x.

(** ** What a change of memory outside the tables leaves alone *)

Definition tables_same m m' t : Prop := forall p a x, t !! p = Some a -> a <= x < a + PGSIZE -> m' x = m x.

Lemma load_table m m' root t p a i : pt_rep m root t -> tables_same m m' t -> t !! p = Some a -> 0 <= i < 512 ->
  load64 m' (a + 8 * i) = load64 m (a + 8 * i).
Proof.
  intros Hr Hs Hp Hi. apply load_ext. intros j Hj. apply (Hs p a); [done|]. unfold PGSIZE. lia.
Qed.
Lemma ptev_same m m' root t va : pt_rep m root t -> tables_same m m' t -> ptev m' t va = ptev m t va.
Proof.
  intros Hr Hs. unfold ptev, leaf. destruct (t !! _) as [a|] eqn:E; [|done]. cbn.
  eapply load_table; [done|done|exact E|]. apply PX_range. lia.
Qed.
Lemma user_pa_same m m' root t va : pt_rep m root t -> tables_same m m' t -> user_pa m' t va = user_pa m t va.
Proof. intros Hr Hs. unfold user_pa. by rewrite (ptev_same m m' root). Qed.
Lemma rep_same m m' root t : pt_rep m root t -> tables_same m m' t -> pt_rep m' root t.
Proof.
  intros Hr Hs. pose proof Hr as [R1 R2 R3 R4 R5]. split; try done. intros p a i Hp Hl Hi.
  specialize (R5 p a i Hp Hl Hi). rewrite (load_table m m' root t p a i) by done. done.
Qed.

Lemma free_valid ps s q : kmem_inv ps s -> q ∈ ps -> valid_page q.
Proof. intros (_ & _ & Hc & _) Hq. apply free_chain_valid in Hc. rewrite Forall_forall in Hc. by apply Hc. Qed.
Lemma pool_valid root t ps s q : pt_inv root t ps s -> pool t ps q -> valid_page q.
Proof. intros (Hk & Hr & _) [Hq|[p Hp]]; [by eapply free_valid|by eapply rep_page]. Qed.

(** A byte of a page that is not in the pool. *)
Lemma page_outside root t ps s a x : pt_inv root t ps s -> valid_page a -> ~ pool t ps a -> a <= x < a + PGSIZE -> outside t ps x.
Proof.
  intros Hi Ha Hn Hx q Hq. pose proof (pool_valid _ _ _ _ _ Hi Hq) as Hv.
  eapply (page_out q a); [done|done| |done]. by intros ->.
Qed.
Lemma pages_apart p a q : valid_page p -> valid_page a -> p <> a -> a <= q < a + PGSIZE -> q < p \/ p + PGSIZE <= q.
Proof. intros. by eapply page_out. Qed.

(** ** Faults *)

(** From one state of an address space to another that differs only by
    pages that were allocated on first use. *)
Record lazy_ext (root : Z) t ps s t' ps' s' : Prop := {
  lz_as : aspace root t' ps' s';
  lz_vmem : forall va, 0 <= va < MAXVA -> vmem (pm_mem s') t' va = vmem (pm_mem s) t va;
  lz_pte : forall va, 0 <= va < MAXVA -> has (ptev (pm_mem s) t va) PTE_V = true -> ptev (pm_mem s') t' va = ptev (pm_mem s) t va;
  lz_pool : forall q, pool t' ps' q -> pool t ps q;
  lz_new : forall va, 0 <= va < MAXVA -> user_pa (pm_mem s') t' va <> 0 ->
    user_pa (pm_mem s') t' va = user_pa (pm_mem s) t va \/ pool t ps (user_pa (pm_mem s') t' va);
  lz_frame : forall x, outside t ps x -> pm_mem s' x = pm_mem s x;
}.
Lemma lazy_refl root t ps s : aspace root t ps s -> lazy_ext root t ps s t ps s.
Proof. intros Ha. split; auto. Qed.
Lemma lazy_trans root t ps s t1 ps1 s1 t2 ps2 s2 :
  lazy_ext root t ps s t1 ps1 s1 -> lazy_ext root t1 ps1 s1 t2 ps2 s2 -> lazy_ext root t ps s t2 ps2 s2.
Proof.
  intros [A1 B1 C1 D1 E1 F1] [A2 B2 C2 D2 E2 F2]. split; [done| | | | |].
  - intros va Hva. by rewrite B2, B1.
  - intros va Hva Hv. rewrite C2; [by apply C1|done|]. by rewrite C1.
  - auto.
  - intros va Hva Hn. destruct (E2 va Hva Hn) as [E|E]; [|right; auto]. rewrite E in *. by apply E1.
  - intros x Hx. rewrite F2; [by apply F1|]. intros q Hq. by apply Hx, D1.
Qed.

(** Memory outside the tree and the free pages changes. *)
Lemma aspace_mem root t ps s m' : aspace root t ps s -> mem_ok m' ->
  (forall q x, pool t ps q -> q <= x < q + PGSIZE -> m' x = pm_mem s x) ->
  aspace root t ps (set_mem m' s) /\ forall va, ptev m' t va = ptev (pm_mem s) t va.
Proof.
  intros [(Hk & Hr & Hd) A2 A3 A4] Hok Hs. assert (tables_same (pm_mem s) m' t) as Ht.
  { intros p a x Hp Hx. apply (Hs a); [right; by exists p|done]. }
  assert (forall va, user_pa m' t va = user_pa (pm_mem s) t va) as Hu by (intros; by eapply user_pa_same).
  split; [|intros va; by eapply ptev_same]. split; cbn [pm_mem set_mem].
  - split; [|split; [by eapply rep_same|done]]. apply kmem_inv_frame; [done|done|]. intros q x Hq. apply Hs. by left.
  - intros va Hva. rewrite Hu. by apply A2.
  - intros va va' H1 H2. rewrite !Hu. by apply A3.
  - intros va Hva. rewrite Hu. by apply A4.
Qed.

(** Two address spaces over one allocator: the tables of [t] are no tables
    and no user pages of [t']. *)
Definition spaces_apart m t t' : Prop := forall p q, t !! p = Some q ->
  (forall p', t' !! p' <> Some q) /\ forall va, 0 <= va < MAXVA -> user_pa m t' va <> 0 -> user_pa m t' va <> q.

(** What happens lazily in one leaves the other as it was. *)
Lemma lazy_other root t ps s t1 ps1 s1 root' t' : aspace root t ps s -> lazy_ext root t ps s t1 ps1 s1 ->
  aspace root' t' ps s -> spaces_apart (pm_mem s) t t' ->
  aspace root' t' ps1 s1 /\ (forall va, ptev (pm_mem s1) t' va = ptev (pm_mem s) t' va) /\
  forall va, 0 <= va < MAXVA -> vmem (pm_mem s1) t' va = vmem (pm_mem s) t' va.
Proof.
  intros Ha Hl [(Hk & Hr & Hd) A2 A3 A4] Hap.
  assert (forall q, pool t ps q -> (forall p, t' !! p <> Some q) /\
    forall va, 0 <= va < MAXVA -> user_pa (pm_mem s) t' va <> 0 -> user_pa (pm_mem s) t' va <> q) as Hno.
  { intros q [Hq|[p Hq]]; [|by apply (Hap p q)]. split; [intros p Hp; by apply (Hd p q)|].
    intros va Hva Hn <-. apply (A4 va Hva Hn). by left. }
  assert (forall a x, valid_page a -> ~ pool t ps a -> a <= x < a + PGSIZE -> pm_mem s1 x = pm_mem s x) as Hsame.
  { intros a x Hv Hn Hx. apply (lz_frame _ _ _ _ _ _ _ Hl). by eapply (page_outside root t ps s a); [apply Ha|..]. }
  assert (tables_same (pm_mem s) (pm_mem s1) t') as Ht.
  { intros p a x Hp Hx. apply (Hsame a); [by eapply rep_page|intros Hq; by apply (proj1 (Hno a Hq) p)|done]. }
  assert (forall va, user_pa (pm_mem s1) t' va = user_pa (pm_mem s) t' va) as Hu by (intros; by eapply user_pa_same).
  split; [split|split].
  - split; [apply (lz_as _ _ _ _ _ _ _ Hl)|]. split; [by eapply rep_same|]. intros p a Hp Hin.
    apply (proj1 (Hno a (lz_pool _ _ _ _ _ _ _ Hl a (or_introl Hin))) p Hp).
  - intros va Hva. rewrite Hu. by apply A2.
  - intros va va' H1 H2. rewrite !Hu. by apply A3.
  - intros va Hva. rewrite Hu. intros Hn [Hq|[p Hq]]; [|apply (A4 va Hva Hn); right; by exists p].
    by apply (proj2 (Hno _ (lz_pool _ _ _ _ _ _ _ Hl _ (or_introl Hq))) va Hva Hn).
  - intros va. by eapply ptev_same.
  - intros va Hva. unfold vmem. rewrite Hu. destruct (Z.eqb_spec (user_pa (pm_mem s) t' va) 0) as [|Hn]; [done|].
    apply (Hsame (user_pa (pm_mem s) t' va)); [by apply A2|intros Hq; by apply (proj2 (Hno _ Hq) va)|].
    pose proof (Z.mod_pos_bound va 4096). unfold PGSIZE. lia.
Qed.

(** A free page leaves the pool. *)
Lemma kalloc_aspace root t ps s : aspace root t ps s ->
  wp kalloc (fun r s' => (r = 0 /\ s' = s) \/
    exists ps', ps = r :: ps' /\ r <> 0 /\ valid_page r /\ ~ pool t ps' r /\ aspace root t ps' s' /\
      (forall va, ptev (pm_mem s') t va = ptev (pm_mem s) t va) /\
      forall x, x < r \/ r + PGSIZE <= x -> pm_mem s' x = pm_mem s x) s.
Proof.
  intros [(Hk & Hr & Hd) A2 A3 A4]. destruct ps as [|p ps].
  { unfold wp. rewrite kalloc_empty by done. by left. }
  eapply wp_mono; [by apply kalloc_spec|]. intros r s1 (-> & Hv & Hn & Hk1 & _ & Hf). right. exists ps. split; [done|].
  pose proof (valid_page_pos _ Hv). split; [lia|]. split; [done|]. assert (~ pool t ps p) as Hnp.
  { intros [Hq|[q Hq]]; [done|]. apply (Hd q p Hq). by left. }
  split; [done|]. assert (tables_same (pm_mem s) (pm_mem s1) t) as Ht.
  { intros q a x Hq Hx. apply Hf. eapply pages_apart; [done|by eapply rep_page| |done]. intros ->. apply Hnp. right. by exists q. }
  assert (forall va, user_pa (pm_mem s1) t va = user_pa (pm_mem s) t va) as Hu by (intros; by eapply user_pa_same).
  split; [|split; [intros va; by eapply ptev_same|exact Hf]]. split.
  - split; [done|]. split; [by eapply rep_same|]. intros q a Hq Ha. apply (Hd q a Hq). by right.
  - intros va Hva. rewrite Hu. by apply A2.
  - intros va va' H1' H2'. rewrite !Hu. by apply A3.
  - intros va Hva. rewrite Hu. intros Hne [Hq|Hq]; apply (A4 va Hva Hne); [left; by right|by right].
Qed.

(** A page returns to the pool. *)
Lemma kfree_aspace root t ps s r : aspace root t ps s -> valid_page r -> ~ pool t ps r ->
  (forall va, 0 <= va < MAXVA -> user_pa (pm_mem s) t va <> r) ->
  wp (kfree r) (fun _ s' => aspace root t (r :: ps) s' /\ (forall va, ptev (pm_mem s') t va = ptev (pm_mem s) t va) /\
    forall x, x < r \/ r + PGSIZE <= x -> pm_mem s' x = pm_mem s x) s.
Proof.
  intros [(Hk & Hr & Hd) A2 A3 A4] Hv Hn Hnu. eapply wp_mono; [apply (kfree_spec r ps); [done|done|]; intros Hq; apply Hn; by left|].
  intros _ s1 [Hk1 Hf]. assert (tables_same (pm_mem s) (pm_mem s1) t) as Ht.
  { intros q a x Hq Hx. apply Hf. eapply pages_apart; [done|by eapply rep_page| |done]. intros ->. apply Hn. right. by exists q. }
  assert (forall va, user_pa (pm_mem s1) t va = user_pa (pm_mem s) t va) as Hu by (intros; by eapply user_pa_same).
  split; [|split; [intros va; by eapply ptev_same|exact Hf]]. split.
  - split; [done|]. split; [by eapply rep_same|]. intros q a Hq Ha. apply elem_of_cons in Ha as [->|Ha]; [apply Hn; right; by exists q|by apply (Hd q a Hq)].
  - intros va Hva. rewrite Hu. by apply A2.
  - intros va va' H1' H2'. rewrite !Hu. by apply A3.
  - intros va Hva. rewrite Hu. intros Hne [Hq|Hq]; [|apply (A4 va Hva Hne); by right].
    apply elem_of_cons in Hq as [Hq|Hq]; [by apply (Hnu va Hva)|apply (A4 va Hva Hne); by left].
Qed.

Lemma user_pa_ptev m t m' t' va : ptev m' t' va = ptev m t va -> user_pa m' t' va = user_pa m t va.
Proof. unfold user_pa. by intros ->. Qed.
Lemma in_page va x : va mod 4096 = 0 -> x / 4096 = va / 4096 <-> va <= x < va + 4096.
Proof. intros Ha. split; intros Hx; Z.div_mod_to_equations; lia. Qed.
Lemma user_pa_page m t va va' : va / 4096 = va' / 4096 -> user_pa m t va = user_pa m t va'.
Proof. intros E. unfold user_pa, ptev, leaf. by destruct (PX_same_page va va' E) as (-> & -> & ->). Qed.

(** Mapping a page of its own at an unmapped user address. *)
Lemma map_user_page root t ps s va r perm : aspace root t ps s -> va mod 4096 = 0 -> 0 <= va -> va + 4096 <= MAXVA ->
  has (ptev (pm_mem s) t va) PTE_V = false -> valid_page r -> ~ pool t ps r ->
  (forall va', 0 <= va' < MAXVA -> user_pa (pm_mem s) t va' <> r) -> 0 <= perm < 1024 -> has perm PTE_U = true ->
  wp (mappages root va PGSIZE r perm) (fun x s' => exists t' ps', aspace root t' ps' s' /\
    (forall q, pool t' ps' q <-> pool t ps q) /\ (forall x, outside t ps x -> pm_mem s' x = pm_mem s x) /\
    ((x = 0 /\ forall va', 0 <= va' < MAXVA ->
        ptev (pm_mem s') t' va' = if decide (va' / 4096 = va / 4096) then mapped_pte va r perm va' else ptev (pm_mem s) t va') \/
     (x = -1 /\ forall va', 0 <= va' < MAXVA -> ptev (pm_mem s') t' va' = ptev (pm_mem s) t va'))) s.
Proof.
  intros [Hi A2 A3 A4] Hal Hlow Hmax Hfree Hv Hnp Hnu Hp HU. pose proof (valid_page_pa_ok r Hv) as Hpa. pose proof Hpa as [Hpal Hpr].
  eapply wp_mono.
  { apply (mappages_spec root t ps s va PGSIZE r perm Hi). split; unfold PGSIZE; [lia|split; [done|lia]| |done|].
    - split; [done|]. pose proof (valid_page_end r Hv). unfold PHYSTOP, KERNBASE, PGSIZE in *. lia.
    - intros va' Hva'. replace (ptev (pm_mem s) t va') with (ptev (pm_mem s) t va); [done|]. unfold ptev, leaf.
      assert (va / 4096 = va' / 4096) as E by (symmetry; by apply in_page). by destruct (PX_same_page va va' E) as (-> & -> & ->). }
  intros x s' (k & t' & ps' & Hi' & [E1 E2 E3 E4 _] & _ & Hmap & Hx). exists t', ps'. change (PGSIZE / 4096) with 1 in Hx.
  assert (forall va', 0 <= va' < MAXVA -> ptev (pm_mem s') t' va' = if decide (k = 1 /\ va' / 4096 = va / 4096) then mapped_pte va r perm va' else ptev (pm_mem s) t va') as Hpt.
  { intros va' Hva'. rewrite (Hmap va' Hva'). assert (k = 0 \/ k = 1) as [->| ->] by lia.
    - rewrite decide_False by lia. rewrite decide_False by lia. done.
    - replace (va + 4096 * 1) with (va + 4096) by lia. pose proof (in_page va va' Hal). destruct (decide (_ /\ va' / 4096 = _)); case_decide; try done; exfalso; naive_solver. }
  assert (forall va', 0 <= va' < MAXVA -> user_pa (pm_mem s') t' va' = if decide (k = 1 /\ va' / 4096 = va / 4096) then r else user_pa (pm_mem s) t va') as Hu.
  { intros va' Hva'. specialize (Hpt va' Hva'). destruct (decide (_ /\ va' / 4096 = _)) as [[_ E]|E]; [|by apply user_pa_ptev].
    assert (va' / 4096 * 4096 = va) as Er by (clear - E Hal; Z.div_mod_to_equations; lia).
    rewrite (user_pa_mapped va r perm va'); [lia|done| |done|done]. by replace (r + (va' / 4096 * 4096 - va)) with r by lia. }
  split; [split; [done| | |]|].
  - intros va' Hva'. rewrite Hu by done. destruct (decide (_ /\ _)); [by intros _|by apply A2].
  - intros a b Ha Hb. rewrite !Hu by done. destruct (decide (_ /\ a / 4096 = _)), (decide (_ /\ b / 4096 = _)); [lia| | |by apply A3].
    + intros _ E. by destruct (Hnu b Hb).
    + intros _ E. by destruct (Hnu a Ha).
  - intros va' Hva'. rewrite Hu by done. destruct (decide (_ /\ _)); [intros _; by rewrite E2|]. intros Hne. rewrite E2. by apply A4.
  - split; [done|]. split; [done|]. destruct Hx as [[-> ->]|[-> Hk]]; [left|right]; (split; [done|]); intros va' Hva'; rewrite Hpt by done.
    + destruct (decide (va' / 4096 = va / 4096)); [rewrite decide_True by done|rewrite decide_False by tauto]; done.
    + rewrite decide_False by lia. done.
Qed.

Context (p : uproc) (root : Z) (Hp : p_pagetable p = root) (Hsz : p_sz p <= MAXVA).
Lemma ismapped_spec t s va : pt_rep (pm_mem s) root t -> va < MAXVA -> ismapped root va s = Ret (has (ptev (pm_mem s) t va) PTE_V) s.
Proof.
  intros Hr Hva. unfold ismapped, bind at 1. rewrite (walk_read root t) by done. cbn [obind]. unfold ptev.
  destruct (leaf t va) as [x|] eqn:E; cbn [default from_option id]; [|done]. pose proof (leaf_pos root t s va x Hr E). rewrite (proj2 (Z.eqb_neq x 0)) by lia. done.
Qed.

(** A new zeroed page of its own in place of an untouched one. *)
Lemma fault_in t ps s r ps1 s1 t' ps' s' va : aspace root t ps s -> va mod 4096 = 0 -> 0 <= va < MAXVA ->
  has (ptev (pm_mem s) t va) PTE_V = false -> ps = r :: ps1 -> valid_page r -> ~ pool t ps1 r ->
  (forall x, x < r \/ r + PGSIZE <= x -> pm_mem s1 x = pm_mem s x) -> (forall x, r <= x < r + PGSIZE -> pm_mem s1 x = 0) ->
  (forall va', ptev (pm_mem s1) t va' = ptev (pm_mem s) t va') ->
  aspace root t' ps' s' -> (forall q, pool t' ps' q <-> pool t ps1 q) -> (forall x, outside t ps1 x -> pm_mem s' x = pm_mem s1 x) ->
  (forall va', 0 <= va' < MAXVA -> ptev (pm_mem s') t' va' =
     if decide (va' / 4096 = va / 4096) then mapped_pte va r (Z.lor (Z.lor PTE_W PTE_U) PTE_R) va' else ptev (pm_mem s1) t va') ->
  lazy_ext root t ps s t' ps' s' /\ user_pa (pm_mem s') t' va = r.
Proof.
  intros Ha Hal Hva Hfree -> Hv Hnp Hout Hzero Hpt1 Ha' Hpool Hfr Hpt. pose proof (valid_page_pa_ok r Hv) as Hpa.
  assert (forall q, pool t ps1 q -> pool t (r :: ps1) q) as Hsub by (intros q [Hq|Hq]; [left; by right|by right]).
  assert (forall va', 0 <= va' < MAXVA -> user_pa (pm_mem s') t' va' = if decide (va' / 4096 = va / 4096) then r else user_pa (pm_mem s) t va') as Hu.
  { intros va' Hva'. specialize (Hpt va' Hva'). case_decide as E.
    - assert (va' / 4096 * 4096 = va) as Er by (clear - E Hal; Z.div_mod_to_equations; lia).
      rewrite (user_pa_mapped va r (Z.lor (Z.lor PTE_W PTE_U) PTE_R) va'); [lia|done| |done|done]. by replace (r + (va' / 4096 * 4096 - va)) with r by lia.
    - apply user_pa_ptev. by rewrite Hpt, Hpt1. }
  split; [|rewrite Hu by done; by rewrite decide_True]. split; [done| | | | |].
  - intros va' Hva'. unfold vmem. rewrite Hu by done. case_decide as E.
    + assert (user_pa (pm_mem s) t va' = 0) as ->.
      { rewrite (user_pa_page _ _ va' va) by done. unfold user_pa. by rewrite Hfree. }
      rewrite (proj2 (Z.eqb_neq r 0)) by (pose proof (valid_page_pos r Hv); lia). cbn.
      pose proof (Z.mod_pos_bound va' 4096). rewrite Hfr; [apply Hzero; unfold PGSIZE; lia|].
      intros q Hq. assert (valid_page q) by (eapply pool_valid; [apply Ha|by apply Hsub]). eapply (page_out q r); [done|done|by intros ->|unfold PGSIZE; lia].
    + destruct (Z.eqb_spec (user_pa (pm_mem s) t va') 0) as [|Hne]; [done|].
      pose proof (as_page _ _ _ _ Ha va' Hva' Hne) as Hvu. pose proof (as_sep _ _ _ _ Ha va' Hva' Hne) as Hsu. pose proof (Z.mod_pos_bound va' 4096).
      rewrite Hfr, Hout; [done| |].
      * eapply (page_out r (user_pa (pm_mem s) t va')); [done|done| |unfold PGSIZE; lia]. intros ->. apply Hsu. left. by left.
      * intros q Hq. assert (valid_page q) by (eapply pool_valid; [apply Ha|by apply Hsub]).
        eapply (page_out q (user_pa (pm_mem s) t va')); [done|done| |unfold PGSIZE; lia]. intros ->. by apply Hsu, Hsub.
  - intros va' Hva' Hvv. rewrite Hpt by done. case_decide as E; [|by rewrite Hpt1].
    exfalso. assert (ptev (pm_mem s) t va' = ptev (pm_mem s) t va) as E2.
    { unfold ptev, leaf. by destruct (PX_same_page va' va E) as (-> & -> & ->). } congruence.
  - intros q Hq. by apply Hsub, Hpool.
  - intros va' Hva'. rewrite Hu by done. case_decide; [right; left; by left|by left].
  - intros x Hx. assert (x < r \/ r + PGSIZE <= x) as Hxr by (apply Hx; left; by left).
    rewrite Hfr by (intros q Hq; by apply Hx, Hsub). by apply Hout.
Qed.

(** A fault that could not be served leaves the address space as it was. *)
Lemma fault_back t ps s r ps1 t' ps' s' : aspace root t ps s -> ps = r :: ps1 -> valid_page r -> ~ pool t ps1 r ->
  aspace root t' (r :: ps') s' -> (forall q, pool t' ps' q <-> pool t ps1 q) ->
  (forall va', 0 <= va' < MAXVA -> ptev (pm_mem s') t' va' = ptev (pm_mem s) t va') ->
  (forall x, outside t ps x -> pm_mem s' x = pm_mem s x) -> lazy_ext root t ps s t' (r :: ps') s'.
Proof.
  intros Ha -> Hv Hnp Ha' Hpool Hpt Hfr.
  assert (forall va', 0 <= va' < MAXVA -> user_pa (pm_mem s') t' va' = user_pa (pm_mem s) t va') as Hu by (intros; apply user_pa_ptev; by apply Hpt).
  split; [done| |by intros; apply Hpt| | |done].
  - intros va Hva. unfold vmem. rewrite Hu by done. destruct (Z.eqb_spec (user_pa (pm_mem s) t va) 0) as [|Hne]; [done|].
    apply Hfr. eapply page_outside; [apply Ha|by apply (as_page _ _ _ _ Ha)|by apply (as_sep _ _ _ _ Ha)|].
    pose proof (Z.mod_pos_bound va 4096). unfold PGSIZE. lia.
  - intros q [Hq|Hq]; [|destruct (proj1 (Hpool q)) as [?|?]; [by right|left; by right|by right]].
    apply elem_of_cons in Hq as [->|Hq]; [left; by left|]. destruct (proj1 (Hpool q)) as [?|?]; [by left|left; by right|by right].
  - intros va Hva. rewrite Hu by done. by left.
Qed.

Lemma vmfault_spec t ps s va : aspace root t ps s -> va mod 4096 = 0 -> 0 <= va -> user_pa (pm_mem s) t va = 0 \/ MAXVA <= va ->
  wp (vmfault p root va 0) (fun pa s' => exists t' ps', lazy_ext root t ps s t' ps' s' /\
    (pa = 0 \/ va < MAXVA /\ pa = user_pa (pm_mem s') t' va)) s.
Proof.
  intros Ha Hal Hlow Hun. unfold vmfault. destruct (Z.leb_spec (p_sz p) va).
  { wp_step. exists t, ps. split; [by apply lazy_refl|by left]. }
  rewrite PGROUNDDOWN_mod by done. change PGSIZE with 4096. rewrite Hal, Z.sub_0_r. wp_step.
  unfold wp at 1. rewrite (ismapped_spec t) by (try apply Ha; lia). destruct (has _ PTE_V) eqn:Hfree.
  { apply wp_ret. exists t, ps. split; [by apply lazy_refl|by left]. }
  wp_step. eapply wp_mono; [by apply (kalloc_aspace root)|]. intros r s1 [[-> ->]|(ps1 & E & Hr0 & Hv & Hnp & Ha1 & Hpt1 & Hf1)].
  { cbn [Z.eqb]. wp_step. exists t, ps. split; [by apply lazy_refl|by left]. }
  rewrite (proj2 (Z.eqb_neq r 0)) by done. wp_step. unfold mem_op. wp_step.
  assert (forall q x, pool t ps1 q -> q <= x < q + PGSIZE -> memset (pm_mem s1) r 0 4096 x = pm_mem s1 x) as Hms.
  { intros q x Hq Hx. apply memset_out; [done|]. eapply (page_out r q); [done|eapply pool_valid; [apply Ha1|done]|by intros ->|done]. }
  destruct (aspace_mem root t ps1 s1 (memset (pm_mem s1) r 0 4096) Ha1) as [Ha2 Hpt2].
  { apply memset_mem_ok; [done|]. apply (as_pt _ _ _ _ Ha1). }
  { exact Hms. }
  assert (forall va', 0 <= va' < MAXVA -> user_pa (pm_mem s) t va' <> r) as Hnr.
  { intros va' Hva' Er. apply (as_sep _ _ _ _ Ha va' Hva'); [rewrite Er; pose proof (valid_page_pos r Hv); lia|]. rewrite Er, E. left. by left. }
  wp_step. rewrite Hp. eapply wp_mono.
  { apply (map_user_page root t ps1 _ va r); [exact Ha2|done|done| | |done|done| |done|done].
    - pose proof MAXVA_val as HM. assert (MAXVA mod 4096 = 0) as HMm by (rewrite HM; done). clear - Hal HMm H1 Hsz. Z.div_mod_to_equations. lia.
    - cbn [pm_mem set_mem]. by rewrite Hpt2, Hpt1.
    - intros va' Hva'. cbn [pm_mem set_mem]. rewrite (user_pa_ptev (pm_mem s) t) by (by rewrite Hpt2, Hpt1). by apply Hnr. }
  intros x s3 (t3 & ps3 & Ha3 & Hpool & Hfr & [[-> Hpt3]|[-> Hpt3]]).
  - cbn [Z.eqb negb]. wp_step. exists t3, ps3. pose proof (fault_in t ps s r ps1 (set_mem (memset (pm_mem s1) r 0 4096) s1) t3 ps3 s3 va Ha Hal) as Hin.
    destruct Hin as [Hl Er]; [lia|done|done|done|done| | | |done|done|done|done|split; [done|right; split; [lia|done]]].
    + intros y Hy. cbn. rewrite memset_out by (try done; unfold PGSIZE in Hy; lia). by apply Hf1.
    + intros y Hy. cbn. by apply memset_in.
    + intros va'. cbn. by rewrite Hpt2.
  - cbn [Z.eqb negb]. wp_step. eapply wp_mono.
    { apply (kfree_aspace root t3 ps3 s3 r Ha3 Hv); [by rewrite Hpool|].
      intros va' Hva'. rewrite (user_pa_ptev (pm_mem s) t) by (rewrite Hpt3 by done; cbn; by rewrite Hpt2). by apply Hnr. }
    intros _ s4 (Ha4 & Hpt4 & Hf4). wp_step. exists t3, (r :: ps3). split; [|by left].
    apply (fault_back t ps s r ps1); [done|done|done|done|done|done| |].
    + intros va' Hva'. rewrite Hpt4, Hpt3 by done. cbn. by rewrite Hpt2.
    + intros y Hy. assert (y < r \/ r + PGSIZE <= y) as Hyr by (apply Hy; rewrite E; left; by left).
      rewrite Hf4 by done. rewrite Hfr. 2: { intros q Hq. apply Hy. rewrite E. destruct Hq; [left; by right|by right]. }
      cbn. rewrite memset_out by (try done; unfold PGSIZE in Hyr; lia). by apply Hf1.
Qed.

Lemma user_page_spec t ps s va : aspace root t ps s -> va mod 4096 = 0 -> 0 <= va ->
  wp (user_page p root va) (fun pa s' => exists t' ps', lazy_ext root t ps s t' ps' s' /\
    (pa = 0 /\ (MAXVA <= va \/ user_pa (pm_mem s) t va = 0) \/ va < MAXVA /\ pa = user_pa (pm_mem s') t' va)) s.
Proof.
  intros Ha Hal Hlow. unfold user_page. wp_step. unfold wp at 1. destruct (Z.lt_ge_cases va MAXVA) as [Hlt|Hge].
  - rewrite (walkaddr_spec root t) by (try apply Ha; done). destruct (Z.eqb_spec (user_pa (pm_mem s) t va) 0) as [E|E].
    + eapply wp_mono; [apply (vmfault_spec t ps); auto|]. intros pa s' (t' & ps' & Hl & Hpa). exists t', ps'. split; [done|].
      destruct Hpa; [left; auto|by right].
    + wp_step. exists t, ps. split; [by apply lazy_refl|by right].
  - rewrite walkaddr_high by done. cbn [Z.eqb]. eapply wp_mono; [apply (vmfault_spec t ps); auto|].
    intros pa s' (t' & ps' & Hl & Hpa). exists t', ps'. split; [done|]. destruct Hpa; [left; auto|by right].
Qed.
Lemma user_pa_kept m t m' t' va : (has (ptev m t va) PTE_V = true -> ptev m' t' va = ptev m t va) ->
  user_pa m t va <> 0 -> ptev m' t' va = ptev m t va.
Proof. intros Hk Hne. apply Hk. unfold user_pa in Hne. by destruct (has (ptev m t va) PTE_V). Qed.
Lemma page_below va va' : va / 4096 = va' / 4096 -> va' < MAXVA -> va < MAXVA.
Proof.
  intros E Hlt. pose proof MAXVA_val as HM. assert (MAXVA mod 4096 = 0) as HMm by (rewrite HM; done). clear - E Hlt HMm. Z.div_mod_to_equations. lia.
Qed.

(** ** Copies *)

Lemma page_byte va : 0 <= va -> va / 4096 * 4096 + va mod 4096 = va /\ 0 <= va mod 4096 < 4096.
Proof. intros. split; [|by apply Z.mod_pos_bound]. pose proof (Z.div_mod va 4096). lia. Qed.

(** Writing bytes of one user page. *)
Lemma write_user t ps s va bs : aspace root t ps s -> 0 <= va < MAXVA -> user_pa (pm_mem s) t va <> 0 ->
  Forall byte_ok bs -> va mod 4096 + Z.of_nat (length bs) <= 4096 ->
  let m' := mwrite (pm_mem s) (user_pa (pm_mem s) t va + va mod 4096) bs in
  aspace root t ps (set_mem m' s) /\ (forall va', ptev m' t va' = ptev (pm_mem s) t va') /\
  forall va', 0 <= va' < MAXVA -> vmem m' t va' =
    if decide (va <= va' < va + Z.of_nat (length bs)) then nth (Z.to_nat (va' - va)) bs 0 else vmem (pm_mem s) t va'.
Proof.
  intros Ha Hva Hne Hb Hlen m'. pose proof (as_page _ _ _ _ Ha va Hva Hne) as Hv. pose proof (as_sep _ _ _ _ Ha va Hva Hne) as Hsep.
  pose proof (page_byte va ltac:(lia)) as [Eva Bva].
  destruct (aspace_mem root t ps s m' Ha) as [Ha' Hpt].
  { apply mwrite_ok; [|done]. apply (as_pt _ _ _ _ Ha). }
  { intros q x Hq Hx. unfold m'. apply mwrite_out.
    assert (valid_page q) as Hvq by (eapply pool_valid; [apply Ha|done]).
    destruct (page_out (user_pa (pm_mem s) t va) q x Hv Hvq) as [?|?]; [by intros E; rewrite E in Hsep|done|lia|unfold PGSIZE in *; lia]. }
  split; [done|]. split; [done|]. intros va' Hva'. unfold vmem. rewrite (user_pa_ptev (pm_mem s) t m' t va') by done.
  pose proof (page_byte va' ltac:(lia)) as [Eva' Bva']. destruct (decide (va' / 4096 = va / 4096)) as [E|E].
  - rewrite (user_pa_page _ _ va' va E). rewrite (proj2 (Z.eqb_neq _ 0)) by done. unfold m'. case_decide as Hin.
    + rewrite mwrite_in by lia. f_equal. f_equal. lia.
    + rewrite mwrite_out by lia. done.
  - rewrite decide_False by lia. destruct (Z.eqb_spec (user_pa (pm_mem s) t va') 0) as [|Hne']; [done|]. unfold m'. apply mwrite_out.
    pose proof (as_page _ _ _ _ Ha va' Hva' Hne') as Hv'.
    destruct (page_out (user_pa (pm_mem s) t va) (user_pa (pm_mem s) t va') (user_pa (pm_mem s) t va' + va' mod 4096) Hv Hv') as [?|?]; [|unfold PGSIZE; lia|lia|unfold PGSIZE in *; lia].
    intros Eq. by apply E, (as_inj _ _ _ _ Ha); [| |rewrite <- Eq|].
Qed.

(** A user page of the address space that may be written. *)
Definition writable m t (q : Z) : Prop :=
  exists va, 0 <= va < MAXVA /\ q = user_pa m t va /\ q <> 0 /\ has (ptev m t va) PTE_W = true.

(** The first [k] bytes of [src] are at [dst]; otherwise only pages were
    faulted in. *)
Record written (dst : Z) (src : list Z) t ps s (k : nat) t' ps' s' : Prop := {
  wr_as : aspace root t' ps' s';
  wr_vmem : forall va, 0 <= va < MAXVA -> vmem (pm_mem s') t' va =
    if decide (dst <= va < dst + Z.of_nat k) then nth (Z.to_nat (va - dst)) src 0 else vmem (pm_mem s) t va;
  wr_pte : forall va, 0 <= va < MAXVA -> has (ptev (pm_mem s) t va) PTE_V = true -> ptev (pm_mem s') t' va = ptev (pm_mem s) t va;
  wr_pool : forall q, pool t' ps' q -> pool t ps q;
  wr_new : forall va, 0 <= va < MAXVA -> user_pa (pm_mem s') t' va <> 0 ->
    user_pa (pm_mem s') t' va = user_pa (pm_mem s) t va \/ pool t ps (user_pa (pm_mem s') t' va);
  wr_mapped : forall va, dst <= va < dst + Z.of_nat k -> va < MAXVA /\ user_pa (pm_mem s') t' va <> 0;
  wr_frame : forall x, outside t ps x -> (forall q, writable (pm_mem s) t q -> x < q \/ q + PGSIZE <= x) -> pm_mem s' x = pm_mem s x;
}.
Lemma written_refl dst src t ps s : aspace root t ps s -> written dst src t ps s 0 t ps s.
Proof. intros Ha. split; auto; [|intros; lia]. intros va Hva. rewrite decide_False by lia. done. Qed.
Lemma written_lazy dst src t ps s k t1 ps1 s1 t2 ps2 s2 : 0 <= dst -> written dst src t ps s k t1 ps1 s1 -> lazy_ext root t1 ps1 s1 t2 ps2 s2 ->
  written dst src t ps s k t2 ps2 s2.
Proof.
  intros Hdst [A1 B1 C1 D1 E1 G1 F1] [A2 B2 C2 D2 E2 F2]. split; [done| | | | | |].
  - intros va Hva. by rewrite B2, B1.
  - intros va Hva Hv. rewrite C2; [by apply C1|done|]. by rewrite C1.
  - auto.
  - intros va Hva Hn. destruct (E2 va Hva Hn) as [E|E]; [|right; auto]. rewrite E in *. by apply E1.
  - intros va Hva. destruct (G1 va Hva) as [Hm Hu]. split; [done|].
    assert (ptev (pm_mem s2) t2 va = ptev (pm_mem s1) t1 va) as E by (apply user_pa_kept; [apply C2; lia|done]). by rewrite (user_pa_ptev _ _ _ _ _ E).
  - intros x Hx Hw. rewrite F2; [by apply F1|]. intros q Hq. by apply Hx, D1.
Qed.
Lemma written_user dst src t ps s k t1 ps1 s1 (n : nat) : written dst src t ps s k t1 ps1 s1 -> 0 <= dst -> dst + Z.of_nat k < MAXVA ->
  let va := dst + Z.of_nat k in
  user_pa (pm_mem s1) t1 va <> 0 -> has (ptev (pm_mem s1) t1 va) PTE_W = true -> Forall byte_ok src ->
  (k + n <= length src)%nat -> va mod 4096 + Z.of_nat n <= 4096 ->
  written dst src t ps s (k + n) t1 ps1 (set_mem (mwrite (pm_mem s1) (user_pa (pm_mem s1) t1 va + va mod 4096) (take n (drop k src))) s1).
Proof.
  intros [A1 B1 C1 D1 E1 G1 F1] Hdst Hva va Hne HW Hb Hn Hlen. assert (0 <= va < MAXVA) as Hva2 by (unfold va; lia). assert (length (take n (drop k src)) = n) as Ln by (rewrite length_take, length_drop; lia).
  destruct (write_user t1 ps1 s1 va (take n (drop k src)) A1 Hva2 Hne) as (W1 & W2 & W3); [by apply Forall_take, Forall_drop|by rewrite Ln|]. rewrite Ln in W3.
  pose proof (page_byte va ltac:(lia)) as [Dva Bva]. split; cbn [pm_mem set_mem]; [done| | |done| | |].
  - intros va' Hva'. rewrite W3 by done. destruct (decide (va <= va' < va + Z.of_nat n)) as [I|I].
    + rewrite decide_True by (unfold va in *; lia). rewrite !nth_lookup, lookup_take_lt, lookup_drop by (unfold va in *; lia). do 2 f_equal. unfold va in *. lia.
    + rewrite B1 by done. repeat case_decide; try done; unfold va in *; lia.
  - intros va' Hva' Hv. rewrite W2. by apply C1.
  - intros va' Hva'. rewrite (user_pa_ptev (pm_mem s1) t1) by done. by apply E1.
  - intros va' Hva'. rewrite (user_pa_ptev (pm_mem s1) t1) by done. destruct (decide (va' < va)) as [Hl|Hl]; [apply G1; unfold va in *; lia|].
    assert (va' / 4096 = va / 4096) as Ep by (assert (va <= va' < va + Z.of_nat n) as Hv' by (unfold va in *; lia); clear - Hv' Hlen; Z.div_mod_to_equations; lia).
    split; [apply (page_below _ va); [done|lia]|]. by rewrite (user_pa_page _ _ va' va Ep).
  - intros x Hx Hw. rewrite mwrite_out; [by apply F1|]. rewrite Ln.
    assert (x < user_pa (pm_mem s1) t1 va \/ user_pa (pm_mem s1) t1 va + PGSIZE <= x) as Hout; [|unfold PGSIZE in Hout; lia].
    destruct (E1 va Hva2 Hne) as [E|E]; [|by apply Hx]. apply Hw. exists va. split; [done|]. split; [done|]. split; [done|].
    rewrite <- C1; [done|done|]. rewrite E in Hne. unfold user_pa in Hne. by destruct (has (ptev (pm_mem s) t va) PTE_V).
Qed.

(** Why copyout stops at [va]: outside the address space, not mapped (and
    not allocated on the spot), or read-only. *)
Definition refused m t (va : Z) : Prop := MAXVA <= va \/ user_pa m t va = 0 \/ has (ptev m t va) PTE_W = false.
Lemma refused_back dst src t ps s k t1 ps1 s1 va : written dst src t ps s k t1 ps1 s1 -> 0 <= va ->
  refused (pm_mem s1) t1 va -> refused (pm_mem s) t va.
Proof.
  intros Hw Hlow Hr. destruct (decide (MAXVA <= va)) as [|Hm]; [by left|]. destruct (decide (user_pa (pm_mem s) t va = 0)) as [|Hne]; [right; by left|].
  assert (ptev (pm_mem s1) t1 va = ptev (pm_mem s) t va) as E by (apply user_pa_kept; [apply (wr_pte _ _ _ _ _ _ _ _ _ Hw); lia|done]).
  unfold refused in *. rewrite (user_pa_ptev _ _ _ _ _ E), E in Hr. done.
Qed.

Definition out_inv (dst : Z) (src : list Z) t ps s (st : Z * list Z) (s' : pm) : Prop :=
  exists k t' ps', (k <= length src)%nat /\ st.2 = drop k src /\ (st.2 <> [] -> st.1 = dst + Z.of_nat k) /\
    written dst src t ps s k t' ps' s'.

Lemma copyout_step_spec dst src t ps s st s1 : 0 <= dst -> Forall byte_ok src -> out_inv dst src t ps s st s1 ->
  wp (copyout_step p root st) (fun r s' => match r with
    | inl st' => out_inv dst src t ps s st' s' /\ (length st'.2 < length st.2)%nat
    | inr v => exists k t' ps', (k <= length src)%nat /\ written dst src t ps s k t' ps' s' /\
        ((v = 0 /\ k = length src) \/ (v = -1 /\ (k < length src)%nat /\ refused (pm_mem s) t (dst + Z.of_nat k)))
    end) s1.
Proof.
  intros Hdst Hb (k & t1 & ps1 & Hk & E2 & E1 & Hw). destruct st as [va rest]. cbn [fst snd] in *. unfold copyout_step.
  assert (length rest = (length src - k)%nat) as Lr by (rewrite E2; apply length_drop).
  destruct (Z.leb_spec (Z.of_nat (length rest)) 0) as [Hl|Hl].
  { wp_step. exists k, t1, ps1. split; [done|]. split; [done|]. left. split; [done|lia]. }
  assert (va = dst + Z.of_nat k) as Eva by (apply E1; intros ->; cbn in Hl; lia). pose proof (page_byte va ltac:(lia)) as [Dva Bva].
  rewrite PGROUNDDOWN_mod by lia. change PGSIZE with 4096. destruct (Z.leb_spec MAXVA (va - va mod 4096)) as [Hm|Hm].
  { wp_step. exists k, t1, ps1. split; [done|]. split; [done|]. right. split; [done|]. split; [lia|]. left. lia. }
  assert ((va - va mod 4096) mod 4096 = 0) as Hal by (replace (va - va mod 4096) with (va / 4096 * 4096) by lia; by apply Z.mod_mul).
  assert ((va - va mod 4096) / 4096 = va / 4096) as Epg by (clear; Z.div_mod_to_equations; lia). assert (va < MAXVA) as Hva by (apply (page_below _ (va - va mod 4096)); lia).
  wp_step. eapply wp_mono; [apply (user_page_spec t1 ps1 s1 (va - va mod 4096)); [apply (wr_as _ _ _ _ _ _ _ _ _ Hw)|done|lia]|].
  intros pa s2 (t2 & ps2 & Hlz & Hpa). pose proof (written_lazy _ _ _ _ _ _ _ _ _ _ _ _ Hdst Hw Hlz) as Hw2. pose proof (wr_as _ _ _ _ _ _ _ _ _ Hw2) as Ha2.
  destruct (Z.eqb_spec pa 0) as [E0|E0].
  { wp_step. exists k, t2, ps2. split; [done|]. split; [done|]. right. split; [done|]. split; [lia|]. rewrite <- Eva.
    eapply refused_back; [exact Hw|lia|]. right. left. rewrite <- (user_pa_page _ _ _ va Epg).
    destruct Hpa as [[_ [?|?]]|[_ Epa]]; [lia|done|]. destruct (decide (user_pa (pm_mem s1) t1 (va - va mod 4096) = 0)) as [|Hne]; [done|]. exfalso.
    assert (ptev (pm_mem s2) t2 (va - va mod 4096) = ptev (pm_mem s1) t1 (va - va mod 4096)) as E by (apply user_pa_kept; [apply (lz_pte _ _ _ _ _ _ _ Hlz); lia|done]).
    apply Hne. by rewrite <- (user_pa_ptev _ _ _ _ _ E), <- Epa. }
  destruct Hpa as [[? _]|[_ Epa]]; [done|].
  rewrite (user_pa_page _ _ _ va Epg) in Epa. wp_step. unfold wp at 1. rewrite (walk_read root t2) by (try apply Ha2; lia).
  assert (ptev (pm_mem s2) t2 (va - va mod 4096) = ptev (pm_mem s2) t2 va) as Ept by (unfold ptev, leaf; by destruct (PX_same_page _ va Epg) as (-> & -> & ->)).
  destruct (leaf t2 (va - va mod 4096)) as [x|] eqn:El.
  2: { exfalso. apply E0. rewrite Epa. unfold user_pa. rewrite <- Ept. unfold ptev. by rewrite El. }
  cbn [default from_option id]. pose proof (leaf_pos root t2 s2 _ x ltac:(apply Ha2) El). rewrite (proj2 (Z.eqb_neq x 0)) by lia.
  unfold load_pte. wp_step. wp_step. assert (load64 (pm_mem s2) x = ptev (pm_mem s2) t2 va) as -> by (rewrite <- Ept; unfold ptev; by rewrite El).
  destruct (has (ptev (pm_mem s2) t2 va) PTE_W) eqn:HW; cbn [negb].
  2: { wp_step. exists k, t2, ps2. split; [done|]. split; [done|]. right. split; [done|]. split; [lia|]. rewrite <- Eva. eapply refused_back; [exact Hw2|lia|]. right. by right. }
  replace (va - (va - va mod 4096)) with (va mod 4096) by lia.
  set (n := if Z.of_nat (length rest) <? 4096 - va mod 4096 then Z.of_nat (length rest) else 4096 - va mod 4096).
  assert (0 < n <= Z.of_nat (length rest) /\ va mod 4096 + n <= 4096 /\ (n < Z.of_nat (length rest) -> n = 4096 - va mod 4096)) as (N1 & N2 & N3).
  { unfold n. destruct (Z.ltb_spec (Z.of_nat (length rest)) (4096 - va mod 4096)); lia. }
  wp_step. unfold mem_op. wp_step. wp_step. cbn [snd]. split.
  - exists (k + Z.to_nat n)%nat, t2, ps2. split; [lia|]. cbn [fst snd]. split; [by rewrite E2, drop_drop|]. split.
    + intros Hne. rewrite u64_small by (pose proof MAXVA_val; lia). assert (n < Z.of_nat (length rest)).
      { destruct (Z.lt_ge_cases n (Z.of_nat (length rest))); [done|]. exfalso. apply Hne. apply drop_ge. lia. } lia.
    + rewrite Epa, E2, Eva in *. apply written_user; [done|lia|lia|done|done|done|lia|lia].
  - cbn [snd]. rewrite length_drop. lia.
Qed.

Lemma copyout_spec dst src t ps s : 0 <= dst -> Forall byte_ok src -> aspace root t ps s ->
  wp (copyout p root dst src) (fun v s' => exists k t' ps', (k <= length src)%nat /\ written dst src t ps s k t' ps' s' /\
    ((v = 0 /\ k = length src) \/ (v = -1 /\ (k < length src)%nat /\ refused (pm_mem s) t (dst + Z.of_nat k)))) s.
Proof.
  intros Hdst Hb Ha. unfold copyout. apply (wp_loop (out_inv dst src t ps s) (fun st _ => length st.2)).
  - intros st s1. by apply copyout_step_spec.
  - exists 0%nat, t, ps. split; [lia|]. split; [done|]. split; [intros _; cbn; lia|]. by apply written_refl.
  - cbn. lia.
Qed.

(** What copyin has read so far. *)
Definition in_inv (src len : Z) t ps s (st : Z * Z * list Z) (s' : pm) : Prop :=
  exists t' ps', lazy_ext root t ps s t' ps' s' /\ 0 <= st.1.2 <= len /\ (0 < st.1.2 -> st.1.1 = src + (len - st.1.2)) /\
    Z.of_nat (length st.2) = len - st.1.2 /\ forall i, (i < length st.2)%nat -> src + Z.of_nat i < MAXVA /\ nth i st.2 0 = vmem (pm_mem s) t (src + Z.of_nat i).

Lemma copyin_step_spec src len t ps s st s1 : 0 <= src -> in_inv src len t ps s st s1 ->
  wp (copyin_step p root st) (fun r s' => match r with
    | inl st' => in_inv src len t ps s st' s' /\ (Z.to_nat st'.1.2 < Z.to_nat st.1.2)%nat
    | inr (v, bytes) => exists t' ps', lazy_ext root t ps s t' ps' s' /\ ((v = 0 /\ Z.of_nat (length bytes) = len /\
        forall i, (i < length bytes)%nat -> nth i bytes 0 = vmem (pm_mem s) t (src + Z.of_nat i)) \/
        (v = -1 /\ exists va, src <= va < src + len /\ (MAXVA <= va \/ user_pa (pm_mem s) t va = 0)))
    end) s1.
Proof.
  intros Hsrc (t1 & ps1 & Hlz & Hl & E1 & L1 & Hb). destruct st as [[va left] got]. cbn [fst snd] in *. unfold copyin_step.
  destruct (Z.leb_spec left 0) as [Hl0|Hl0].
  { wp_step. exists t1, ps1. split; [done|]. left. split; [done|]. split; [lia|]. intros i Hi. by apply Hb. }
  specialize (E1 Hl0). pose proof (page_byte va ltac:(lia)) as [Dva Bva]. rewrite PGROUNDDOWN_mod by lia. change PGSIZE with 4096.
  assert ((va - va mod 4096) mod 4096 = 0) as Hal by (replace (va - va mod 4096) with (va / 4096 * 4096) by lia; by apply Z.mod_mul).
  wp_step. eapply wp_mono; [apply (user_page_spec t1 ps1 s1 (va - va mod 4096)); [apply (lz_as _ _ _ _ _ _ _ Hlz)|done|lia]|].
  intros pa s2 (t2 & ps2 & Hlz2 & Hpa). pose proof (lazy_trans _ _ _ _ _ _ _ _ _ _ Hlz Hlz2) as Hlz3.
  assert ((va - va mod 4096) / 4096 = va / 4096) as Epg by (clear; Z.div_mod_to_equations; lia).
  destruct (Z.eqb_spec pa 0) as [E0|E0].
  { wp_step. exists t2, ps2. split; [done|]. right. split; [done|]. exists va. split; [lia|]. destruct (decide (MAXVA <= va)) as [|Hm]; [by left|right].
    rewrite <- (user_pa_page _ _ _ va Epg). destruct (decide (user_pa (pm_mem s) t (va - va mod 4096) = 0)) as [|Hne]; [done|]. exfalso.
    assert (ptev (pm_mem s2) t2 (va - va mod 4096) = ptev (pm_mem s) t (va - va mod 4096)) as E by (apply user_pa_kept; [apply (lz_pte _ _ _ _ _ _ _ Hlz3); lia|done]).
    assert (ptev (pm_mem s1) t1 (va - va mod 4096) = ptev (pm_mem s) t (va - va mod 4096)) as E' by (apply user_pa_kept; [apply (lz_pte _ _ _ _ _ _ _ Hlz); lia|done]).
    apply Hne. destruct Hpa as [[_ [?|Hz]]|[_ Epa]]; [lia| |].
    - by rewrite <- (user_pa_ptev _ _ _ _ _ E').
    - by rewrite <- (user_pa_ptev _ _ _ _ _ E), <- Epa. }
  destruct Hpa as [[? _]|[Hm Epa]]; [done|]. assert (va < MAXVA) as Hva by (by apply (page_below _ (va - va mod 4096))).
  rewrite (user_pa_page _ _ _ va Epg) in Epa. replace (va - (va - va mod 4096)) with (va mod 4096) by lia.
  set (n := if left <? 4096 - va mod 4096 then left else 4096 - va mod 4096).
  assert (0 < n <= left /\ va mod 4096 + n <= 4096 /\ (n < left -> n = 4096 - va mod 4096)) as (N1 & N2 & N3).
  { unfold n. destruct (Z.ltb_spec left (4096 - va mod 4096)); lia. }
  wp_step. wp_step. wp_step. cbn [fst snd]. split; [|lia]. exists t2, ps2. split; [done|]. cbn [fst snd]. split; [lia|]. split.
  { intros Hlt. rewrite u64_small by (pose proof MAXVA_val; lia). lia. }
  rewrite length_app, length_mread. split; [lia|]. intros i Hi. destruct (decide (i < length got)%nat) as [Hg|Hg].
  { rewrite app_nth1 by done. by apply Hb. }
  rewrite app_nth2, nth_mread by lia. pose proof MAXVA_val as HM.
  assert (src + Z.of_nat i = va + Z.of_nat (i - length got)) as Ei by lia. set (j := Z.of_nat (i - length got)) in *.
  assert ((va + j) / 4096 = va / 4096 /\ (va + j) mod 4096 = va mod 4096 + j) as [Q1 Q2].
  { assert (0 <= j < n) as Hj by lia. clear - Hj N2 Bva. Z.div_mod_to_equations. lia. }
  assert (va + j < MAXVA) as Hvj.
  { assert (MAXVA mod 4096 = 0) as HMm by (rewrite HM; done). clear - Hva Q1 HMm. Z.div_mod_to_equations. lia. }
  split; [lia|]. rewrite Ei, <- (lz_vmem _ _ _ _ _ _ _ Hlz3) by lia. unfold vmem. rewrite (user_pa_page _ _ (va + j) va Q1), <- Epa, Q2.
  rewrite (proj2 (Z.eqb_neq pa 0)) by done. f_equal. lia.
Qed.

Lemma copyin_spec src len t ps s : 0 <= src -> 0 <= len -> aspace root t ps s ->
  wp (copyin p root src len) (fun r s' => exists t' ps', lazy_ext root t ps s t' ps' s' /\
    ((r.1 = 0 /\ Z.of_nat (length r.2) = len /\ forall i, (i < length r.2)%nat -> nth i r.2 0 = vmem (pm_mem s) t (src + Z.of_nat i)) \/
     (r.1 = -1 /\ exists va, src <= va < src + len /\ (MAXVA <= va \/ user_pa (pm_mem s) t va = 0)))) s.
Proof.
  intros Hsrc Hlen Ha. unfold copyin. apply (wp_loop (in_inv src len t ps s) (fun st _ => Z.to_nat st.1.2)).
  - intros st s1 Hi. eapply wp_mono; [apply (copyin_step_spec src len t ps s st s1 Hsrc Hi)|]. intros [st'|[v bytes]] s' Hs'; exact Hs'.
  - exists t, ps. cbn. split; [by apply lazy_refl|]. split; [lia|]. split; [lia|]. split; [lia|]. intros i Hi. lia.
  - cbn. lia.
Qed.
End UserCopy.

(** C14: Copies between kernel and user space.  copyout writes the bytes of a
    user address space, up to the first address that lies outside it, is not
    mapped and cannot be allocated, or is read-only; it changes what the
    user finds at no other address and touches no memory outside the pages
    of this address space that are writable and the free pages.  Pages that
    were never touched are allocated on the way without a visible change.
    What was copied out is what copyin then reads back. *)
Theorem user_copy `{LinkerOk} (p : uproc) t ps s dst src : p_sz p <= MAXVA -> aspace (p_pagetable p) t ps s -> 0 <= dst -> Forall byte_ok src ->
  wp (copyout p (p_pagetable p) dst src) (fun v s' => exists k t' ps', aspace (p_pagetable p) t' ps' s' /\
    ((v = 0 /\ k = length src) \/ (v = -1 /\ (k < length src)%nat /\ refused (pm_mem s) t (dst + Z.of_nat k))) /\
    (forall va, 0 <= va < MAXVA -> vmem (pm_mem s') t' va =
       if decide (dst <= va < dst + Z.of_nat k) then nth (Z.to_nat (va - dst)) src 0 else vmem (pm_mem s) t va) /\
    (forall x, outside t ps x -> (forall q, writable (pm_mem s) t q -> x < q \/ q + PGSIZE <= x) -> pm_mem s' x = pm_mem s x) /\
    (v = 0 -> wp (copyin p (p_pagetable p) dst (Z.of_nat (length src))) (fun r s'' => r = (0, src) /\
       exists t'' ps'', aspace (p_pagetable p) t'' ps'' s'' /\ forall va, 0 <= va < MAXVA -> vmem (pm_mem s'') t'' va = vmem (pm_mem s') t' va) s')) s.
Proof.
  intros Hsz Ha Hdst Hb. eapply wp_mono; [by apply (copyout_spec p _ eq_refl Hsz)|]. intros v s' (k & t' & ps' & Hk & Hw & Hv).
  exists k, t', ps'. pose proof Hw as [W1 W2 W3 W4 W5 W6 W7]. split; [done|]. split; [done|]. split; [done|]. split; [done|].
  intros ->. destruct Hv as [[_ ->]|[? _]]; [|lia]. eapply wp_mono; [apply (copyin_spec p _ eq_refl Hsz dst _ t' ps'); [done|lia|done]|].
  intros [r bytes] s2 (t2 & ps2 & Hl & Hr). cbn [fst snd] in Hr. destruct Hr as [(-> & L & Hn)|(_ & va & Hva & Hno)].
  - split; [|exists t2, ps2; split; [apply (lz_as _ _ _ _ _ _ _ Hl)|apply (lz_vmem _ _ _ _ _ _ _ Hl)]].
    f_equal. apply (nth_ext _ _ 0 0); [lia|]. intros i Hi. destruct (W6 (dst + Z.of_nat i)) as [Hm _]; [lia|].
    rewrite Hn, W2 by lia. rewrite decide_True by lia. f_equal. lia.
  - destruct (W6 va Hva) as [? ?]. destruct Hno; [lia|done].
Qed.

Module UserCopyWitness.
Import ToyImage PageTableWitness.
(** Page 0 is an empty table, pages 1 to 4 are free. *)
Definition m1 : mem := store64 (store64 (store64 (fun _ => 0) (P 1) (P 2)) (P 2) (P 3)) (P 3) (P 4).
Definition s1 : pm := mkPm m1 false (P 1).
Definition free1 : list Z := [P 1; P 2; P 3; P 4].
Definition p1 : uproc := mkUproc 8192 (P 0).
Lemma chain1 : free_chain m1 (P 1) free1.
Proof.
  unfold free1. constructor; [by apply P_valid|]. replace (load64 m1 (P 1)) with (P 2) by (vm_compute; reflexivity).
  constructor; [by apply P_valid|]. replace (load64 m1 (P 2)) with (P 3) by (vm_compute; reflexivity).
  constructor; [by apply P_valid|]. replace (load64 m1 (P 3)) with (P 4) by (vm_compute; reflexivity).
  constructor; [by apply P_valid|]. replace (load64 m1 (P 4)) with 0 by (vm_compute; reflexivity). constructor.
Qed.
Lemma space1 : aspace (P 0) t0 free1 s1.
Proof.
  assert (forall va, user_pa (pm_mem s1) t0 va = 0) as Hu.
  { intros va. unfold user_pa, ptev, leaf, t0. by rewrite lookup_singleton_ne. }
  split.
  - split; [split; [done|split; [|split; [exact chain1|apply (bool_decide_unpack (NoDup free1)); by vm_compute]]]|split].
    + do 3 apply store_ok. intros a. unfold byte_ok. lia.
    + apply zero_page_rep; [by apply P_valid|]. intros x Hx. cbn [pm_mem s1]. unfold m1, store, P, PHYSTOP, KERNBASE, PGSIZE in *.
      rewrite !mwrite_out by (rewrite length_le_enc; lia). done.
    + intros q a Hq Ha. unfold t0 in Hq. apply lookup_singleton_Some in Hq as [_ <-]. revert Ha. apply (bool_decide_unpack (P 0 ∉ free1)). by vm_compute.
  - intros va _ Hn. by destruct Hn.
  - intros va va' _ _ Hn. by destruct Hn.
  - intros va _ Hn. by destruct Hn.
Qed.
(** Three bytes at an address that was never touched. *)
Lemma user_copy_witness :
  wp (copyout p1 (P 0) 4100 [7; 8; 9]) (fun v s' => exists k t' ps', aspace (P 0) t' ps' s' /\
    ((v = 0 /\ k = 3%nat) \/ (v = -1 /\ (k < 3)%nat /\ refused (pm_mem s1) t0 (4100 + Z.of_nat k))) /\
    (forall va, 0 <= va < MAXVA -> vmem (pm_mem s') t' va =
       if decide (4100 <= va < 4100 + Z.of_nat k) then nth (Z.to_nat (va - 4100)) [7; 8; 9] 0 else vmem (pm_mem s1) t0 va) /\
    (forall x, outside t0 free1 x -> (forall q, writable (pm_mem s1) t0 q -> x < q \/ q + PGSIZE <= x) -> pm_mem s' x = pm_mem s1 x) /\
    (v = 0 -> wp (copyin p1 (P 0) 4100 3) (fun r s'' => r = (0, [7; 8; 9]) /\
       exists t'' ps'', aspace (P 0) t'' ps'' s'' /\ forall va, 0 <= va < MAXVA -> vmem (pm_mem s'') t'' va = vmem (pm_mem s') t' va) s')) s1.
Proof.
  apply (user_copy p1 t0 free1 s1 4100 [7; 8; 9]); [vm_compute; discriminate|exact space1|lia|]. repeat constructor; unfold byte_ok; lia.
Defined.
Example copyout_runs : wp (copyout p1 (P 0) 4100 [7; 8; 9]) (fun v _ => v = 0) s1.
Proof. vm_compute. reflexivity. Qed.
End UserCopyWitness.

Module OnePage.
Import ToyImage PageTableWitness.
(** Tables 0, 1 and 2; page 3 at address 0, writable, with five letters;
    page 4 is zero; pages 5, 6 and 7 are free. *)
Definition parent : gmap (list Z) Z := {[ [] := P 0; [0] := P 1; [0; 0] := P 2 ]}.
Definition words : list (Z * Z) :=
  [(P 0, Z.lor (PA2PTE (P 1)) PTE_V); (P 1, Z.lor (PA2PTE (P 2)) PTE_V); (P 2, Z.lor (PA2PTE (P 3)) (Z.lor PTE_V (Z.lor PTE_R (Z.lor PTE_W PTE_U))));
   (P 3, 478560413032); (P 5, P 6); (P 6, P 7)].
Definition m2 : mem := fold_left (fun m w => store64 m w.1 w.2) words (fun _ => 0).
Definition s2 : pm := mkPm m2 false (P 5).
Definition free2 : list Z := [P 5; P 6; P 7].

Lemma m2_zero x : Forall (fun w => x < w.1 \/ w.1 + 8 <= x) words -> m2 x = 0.
Proof.
  intros Hx. unfold words in Hx. repeat (apply Forall_cons in Hx as [? Hx]). cbn [fst] in *.
  unfold m2, words. cbn [fold_left fst snd]. unfold store. rewrite !mwrite_out by (rewrite length_le_enc; lia). done.
Qed.
Lemma m2_words : Forall (fun w => load64 m2 w.1 = w.2) words.
Proof. unfold words. repeat constructor; vm_compute; reflexivity. Qed.
(** An entry other than the first of a table page, or in an empty page. *)
Lemma m2_entry k i : 0 <= k < 8 -> 0 <= i < 512 -> 0 < i \/ k = 4 -> load64 m2 (P k + 8 * i) = 0.
Proof.
  intros Hk Hi Hik. apply load64_zero. intros j Hj. apply m2_zero. unfold words, P, PHYSTOP, KERNBASE, PGSIZE.
  repeat (apply Forall_cons_2; [cbn [fst]; lia|]). constructor.
Qed.
Lemma parent_rep : pt_rep m2 (P 0) parent.
Proof.
  assert (forall p a, parent !! p = Some a -> (p = [] /\ a = P 0) \/ (p = [0] /\ a = P 1) \/ (p = [0; 0] /\ a = P 2)) as Hl.
  { intros p a Hp. unfold parent in Hp. apply lookup_insert_Some in Hp as [[<- <-]|[_ Hp]]; [by left|].
    apply lookup_insert_Some in Hp as [[<- <-]|[_ Hp]]; [by right; left|]. apply lookup_singleton_Some in Hp as [<- <-]. by right; right. }
  split; [reflexivity| | | |].
  - intros p a Hp. destruct (Hl p a Hp) as [[_ ->]|[[_ ->]|[_ ->]]]; by apply P_valid.
  - intros p q a Hp Hq. destruct (Hl p a Hp) as [[-> ->]|[[-> ->]|[-> ->]]], (Hl q _ Hq) as [[-> E]|[[-> E]|[-> E]]]; done.
  - intros p i [a Ha]. destruct (Hl _ a Ha) as [[E _]|[[E _]|[E _]]].
    + by destruct p.
    + destruct p as [|x [|y p]]; [|discriminate E..]. injection E as ->. split; [by exists (P 0)|cbn; lia].
    + destruct p as [|x [|y p]]; [discriminate E| |destruct p; discriminate E]. injection E as -> ->. split; [by exists (P 1)|cbn; lia].
  - intros p a i Hp Hlen Hi. pose proof m2_words as Hw. unfold words in Hw. repeat (apply Forall_cons in Hw as [? Hw]). cbn [fst snd] in *.
    destruct (Hl p a Hp) as [[-> ->]|[[-> ->]|[-> ->]]]; [| |cbn in Hlen; lia]; cbn [app].
    + destruct (decide (i = 0)) as [->|Hne]; [change (parent !! [0]) with (Some (P 1)); by rewrite Z.mul_0_r, Z.add_0_r|].
      destruct (parent !! [i]) as [c|] eqn:E; [|by rewrite m2_entry by lia]. destruct (Hl _ c E) as [[E2 _]|[[E2 _]|[E2 _]]]; congruence.
    + destruct (decide (i = 0)) as [->|Hne]; [change (parent !! [0; 0]) with (Some (P 2)); by rewrite Z.mul_0_r, Z.add_0_r|].
      destruct (parent !! [0; i]) as [c|] eqn:E; [|by rewrite m2_entry by lia]. destruct (Hl _ c E) as [[E2 _]|[[E2 _]|[E2 _]]]; congruence.
Qed.
Lemma chain2 : free_chain m2 (P 5) free2.
Proof.
  unfold free2. constructor; [by apply P_valid|]. replace (load64 m2 (P 5)) with (P 6) by (vm_compute; reflexivity).
  constructor; [by apply P_valid|]. replace (load64 m2 (P 6)) with (P 7) by (vm_compute; reflexivity).
  constructor; [by apply P_valid|]. replace (load64 m2 (P 7)) with 0 by (vm_compute; reflexivity). constructor.
Qed.
Lemma kmem2 : kmem_inv free2 s2.
Proof.
  split; [done|]. split; [|split; [exact chain2|apply (bool_decide_unpack (NoDup free2)); by vm_compute]].
  unfold s2, m2, words. cbn [fold_left fst snd pm_mem]. do 6 apply store_ok. intros a. unfold byte_ok. lia.
Qed.
Lemma ptev2 va : 0 <= va < MAXVA -> ptev m2 parent va = if va / 4096 =? 0 then Z.lor (PA2PTE (P 3)) (Z.lor PTE_V (Z.lor PTE_R (Z.lor PTE_W PTE_U))) else 0.
Proof.
  intros Hva. unfold ptev, leaf. destruct (Z.eqb_spec (va / 4096) 0) as [E|E].
  - destruct (PX_same_page va 0 E) as (-> & -> & ->). vm_compute. reflexivity.
  - destruct (parent !! [PX 2 va; PX 1 va]) as [a|] eqn:Hp; [|done]. cbn. unfold parent in Hp.
    apply lookup_insert_Some in Hp as [[? _]|[_ Hp]]; [done|]. apply lookup_insert_Some in Hp as [[? _]|[_ Hp]]; [done|].
    apply lookup_singleton_Some in Hp as [Hp <-]. injection Hp as E2 E1. apply m2_entry; [lia|apply PX_range; lia|]. left.
    pose proof (PX_range 0 va ltac:(lia)). destruct (Z.eq_dec (PX 0 va) 0) as [E0|]; [|lia]. exfalso. apply E.
    apply (PX_inj va 0); [done|rewrite MAXVA_val; lia|rewrite <- E2|rewrite <- E1|rewrite E0]; vm_compute; reflexivity.
Qed.
Lemma user_pa2 va : 0 <= va < MAXVA -> user_pa m2 parent va = if va / 4096 =? 0 then P 3 else 0.
Proof. intros Hva. unfold user_pa. rewrite ptev2 by done. destruct (va / 4096 =? 0); vm_compute; reflexivity. Qed.
Lemma space2 : aspace (P 0) parent free2 s2.
Proof.
  assert (forall i, i ∈ [0; 1; 2; 3] -> P i ∉ free2) as Hn.
  { intros i Hi. apply (bool_decide_unpack (P i ∉ free2)). repeat (apply elem_of_cons in Hi as [->|Hi]; [by vm_compute|]). by apply elem_of_nil in Hi. }
  assert (forall va, 0 <= va < MAXVA -> user_pa m2 parent va <> 0 -> va / 4096 = 0 /\ user_pa m2 parent va = P 3) as Hu.
  { intros va Hva. rewrite user_pa2 by done. by destruct (Z.eqb_spec (va / 4096) 0). }
  assert (forall p q, parent !! p = Some q -> q ∈ [P 0; P 1; P 2]) as Hp.
  { intros p q Hp. unfold parent in Hp. rewrite !elem_of_cons. apply lookup_insert_Some in Hp as [[_ <-]|[_ Hp]]; [tauto|].
    apply lookup_insert_Some in Hp as [[_ <-]|[_ Hp]]; [tauto|]. apply lookup_singleton_Some in Hp as [_ <-]. tauto. }
  split.
  - split; [exact kmem2|]. split; [exact parent_rep|]. intros p q Hq. specialize (Hp p q Hq).
    repeat (apply elem_of_cons in Hp as [->|Hp]; [apply Hn; set_solver|]). by apply elem_of_nil in Hp.
  - change (pm_mem s2) with m2. intros va Hva Hne. destruct (Hu va Hva Hne) as [_ ->]. by apply P_valid.
  - change (pm_mem s2) with m2. intros va va' Hva Hva' Hne E. destruct (Hu va Hva Hne) as [-> _]. destruct (Hu va' Hva') as [-> _]; [by rewrite <- E|done].
  - change (pm_mem s2) with m2. intros va Hva Hne. destruct (Hu va Hva Hne) as [_ ->]. intros [Hq|[p Hq]]; [revert Hq; apply Hn; set_solver|]. apply Hp in Hq.
    revert Hq. apply (bool_decide_unpack (P 3 ∉ [P 0; P 1; P 2])). by vm_compute.
Qed.
End OnePage.
