(* ===== verification/ForkMem.v ===== *)
(** * Copying an address space for fork

    uvmcopy gives the child its own pages with the parent's contents and
    permissions, leaves the parent alone, and when memory runs out gives
    every page it took back to the allocator; with it the specification of
    uvmunmap, which does the giving back. *)

From Stdlib Require Import ZArith Lia.
From stdpp Require Import gmap.
From S2P Require Import Prelude Mem StringC Params Kalloc Vm VmBits PageTable UserCopy.

Section Fork.
Context `{LinkerOk}.
Implicit Types (t : gmap (list Z) Z) (m : mem) (s : pm) (ps : list Z) (pg : gmap Z Z).

(** The entry of page number [k]. *)
Definition pte_at m t (k : Z) : Z := ptev m t (k * 4096).
Lemma ptev_page m t va : ptev m t va = pte_at m t (va / 4096).
Proof.
  unfold pte_at, ptev, leaf. assert (va / 4096 = va / 4096 * 4096 / 4096) as E by (by rewrite Z.div_mul).
  by destruct (PX_same_page va _ E) as (<- & <- & <-).
Qed.

(** A tree with the pages [pg] that belong to it, by page number. *)
Record region (root : Z) t ps s pg : Prop := {
  rg_pt : pt_inv root t ps s;
  rg_page : forall k r, pg !! k = Some r -> 0 <= k < MAXVA / 4096 /\ valid_page r /\ ~ pool t ps r /\
    has (pte_at (pm_mem s) t k) PTE_V = true /\ PTE2PA (pte_at (pm_mem s) t k) = r;
  rg_inj : forall k k' r, pg !! k = Some r -> pg !! k' = Some r -> k = k';
}.

(** ** The allocator under a tree *)

Lemma tables_apart root t ps s r s1 : pt_inv root t ps s -> valid_page r -> (forall q, t !! q <> Some r) ->
  (forall x, x < r \/ r + PGSIZE <= x -> pm_mem s1 x = pm_mem s x) -> tables_same (pm_mem s) (pm_mem s1) t.
Proof.
  intros (_ & Hr & _) Hv Hn Hf q a x Hq Hx. apply Hf. eapply pages_apart; [done|by eapply rep_page| |done]. intros ->. by apply (Hn q).
Qed.
Lemma region_alloc root t ps s pg : region root t ps s pg ->
  wp kalloc (fun r s' => (r = 0 /\ ps = [] /\ s' = s) \/
    exists ps', ps = r :: ps' /\ r <> 0 /\ valid_page r /\ ~ pool t ps' r /\ region root t ps' s' pg /\
      (forall k r', pg !! k = Some r' -> r' <> r) /\ (forall va, ptev (pm_mem s') t va = ptev (pm_mem s) t va) /\
      forall x, x < r \/ r + PGSIZE <= x -> pm_mem s' x = pm_mem s x) s.
Proof.
  intros [Hi R2 R3]. pose proof Hi as (Hk & Hr & Hd). destruct ps as [|p ps].
  { unfold wp. rewrite kalloc_empty by done. by left. }
  eapply wp_mono; [by apply kalloc_spec|]. intros r s1 (-> & Hv & Hn & Hk1 & _ & Hf). right. exists ps. split; [done|].
  pose proof (valid_page_pos _ Hv). split; [lia|]. split; [done|]. assert (forall q, t !! q <> Some p) as Hnt.
  { intros q Hq. apply (Hd q p Hq). by left. }
  split; [intros [Hq|[q Hq]]; [done|by apply (Hnt q)]|].
  pose proof (tables_apart root t (p :: ps) s p s1 Hi Hv Hnt Hf) as Ht.
  assert (forall va, ptev (pm_mem s1) t va = ptev (pm_mem s) t va) as Hpt by (intros; by eapply ptev_same).
  split; [|split; [|split; [exact Hpt|exact Hf]]].
  - split; [|intros k r Hkr|exact R3].
    + split; [done|]. split; [by eapply rep_same|]. intros q a Hq Ha. apply (Hd q a Hq). by right.
    + unfold pte_at. rewrite Hpt. destruct (R2 k r Hkr) as (? & ? & Hnp & ? & ?). split; [done|]. split; [done|]. split; [|done].
      intros [Hq|Hq]; apply Hnp; [left; by right|by right].
  - intros k r Hkr ->. destruct (R2 k p Hkr) as (_ & _ & Hnp & _). apply Hnp. left. by left.
Qed.
Lemma region_free root t ps s pg r : region root t ps s pg -> valid_page r -> ~ pool t ps r -> (forall k, pg !! k <> Some r) ->
  wp (kfree r) (fun _ s' => region root t (r :: ps) s' pg /\ (forall va, ptev (pm_mem s') t va = ptev (pm_mem s) t va) /\
    forall x, x < r \/ r + PGSIZE <= x -> pm_mem s' x = pm_mem s x) s.
Proof.
  intros [Hi R2 R3] Hv Hn Hpg. pose proof Hi as (Hk & Hr & Hd). eapply wp_mono; [apply (kfree_spec r ps); [done|done|]; intros Hq; apply Hn; by left|].
  intros _ s1 [Hk1 Hf]. assert (forall q, t !! q <> Some r) as Hnt by (intros q Hq; apply Hn; right; by exists q).
  pose proof (tables_apart root t ps s r s1 Hi Hv Hnt Hf) as Ht.
  assert (forall va, ptev (pm_mem s1) t va = ptev (pm_mem s) t va) as Hpt by (intros; by eapply ptev_same).
  split; [|split; [exact Hpt|exact Hf]]. split; [|intros k r' Hkr|exact R3].
  - split; [done|]. split; [by eapply rep_same|]. intros q a Hq Ha. apply elem_of_cons in Ha as [->|Ha]; [by apply (Hnt q)|by apply (Hd q a Hq)].
  - unfold pte_at. rewrite Hpt. destruct (R2 k r' Hkr) as (? & ? & Hnp & ? & ?). split; [done|]. split; [done|]. split; [|done].
    intros [Hq|Hq]; [|apply Hnp; by right]. apply elem_of_cons in Hq as [->|Hq]; [by apply (Hpg k)|apply Hnp; by left].
Qed.

(** ** Adding and removing a page *)

Lemma page_addr k : 0 <= k < MAXVA / 4096 -> 0 <= k * 4096 /\ k * 4096 + 4096 <= MAXVA /\ (k * 4096) mod 4096 = 0 /\ k * 4096 / 4096 = k.
Proof.
  intros Hk. assert (MAXVA = MAXVA / 4096 * 4096) as E by (rewrite MAXVA_val; done). rewrite Z.mod_mul, Z.div_mul by done. lia.
Qed.
Lemma page_number va : 0 <= va < MAXVA -> 0 <= va / 4096 < MAXVA / 4096.
Proof. intros Hva. assert (MAXVA = MAXVA / 4096 * 4096) as E by (rewrite MAXVA_val; done). clear - Hva E. Z.div_mod_to_equations. lia. Qed.

Lemma region_map root t ps s pg k r perm : region root t ps s pg -> 0 <= k < MAXVA / 4096 -> has (pte_at (pm_mem s) t k) PTE_V = false ->
  valid_page r -> ~ pool t ps r -> (forall k', pg !! k' <> Some r) -> 0 <= perm < 1024 ->
  wp (mappages root (k * 4096) PGSIZE r perm) (fun x s' => exists t' ps',
    (forall q, pool t' ps' q <-> pool t ps q) /\ (forall x, outside t ps x -> pm_mem s' x = pm_mem s x) /\
    ((x = 0 /\ region root t' ps' s' (<[k := r]> pg) /\ forall va, 0 <= va < MAXVA ->
        ptev (pm_mem s') t' va = if decide (va / 4096 = k) then Z.lor (PA2PTE r) (Z.lor perm PTE_V) else ptev (pm_mem s) t va) \/
     (x = -1 /\ region root t' ps' s' pg /\ forall va, 0 <= va < MAXVA -> ptev (pm_mem s') t' va = ptev (pm_mem s) t va))) s.
Proof.
  intros [Hi R2 R3] Hk Hfree Hv Hnp Hnr Hp. destruct (page_addr k Hk) as (K1 & K2 & K3 & K4). pose proof (valid_page_pa_ok r Hv) as Hpa.
  eapply wp_mono.
  { apply (mappages_spec root t ps s (k * 4096) PGSIZE r perm Hi). split; unfold PGSIZE; [lia|split; [done|lia]| |done|].
    - destruct Hpa. split; [done|]. pose proof (valid_page_end r Hv). unfold PHYSTOP, KERNBASE, PGSIZE in *. lia.
    - intros va Hva. rewrite ptev_page. replace (va / 4096) with k; [done|]. clear - Hva. Z.div_mod_to_equations. lia. }
  intros x s' (n & t' & ps' & Hi' & [E1 E2 E3 E4 _] & _ & Hmap & Hx). exists t', ps'. split; [done|]. split; [done|]. change (PGSIZE / 4096) with 1 in Hx.
  destruct Hx as [[-> ->]|[-> Hn]].
  - left. split; [done|]. assert (forall va, 0 <= va < MAXVA -> ptev (pm_mem s') t' va = if decide (va / 4096 = k) then Z.lor (PA2PTE r) (Z.lor perm PTE_V) else ptev (pm_mem s) t va) as Hpt.
    { intros va Hva. rewrite (Hmap va Hva). replace (k * 4096 + 4096 * 1) with (k * 4096 + 4096) by lia. pose proof (in_page (k * 4096) va K3) as Hin. rewrite K4 in Hin.
      destruct (decide (va / 4096 = k)) as [E|E]; [rewrite decide_True by tauto|rewrite decide_False by tauto; done].
      unfold mapped_pte. rewrite E, Z.lor_assoc. do 3 f_equal. lia. }
    split; [|done]. split; [done| |].
    + intros j q Hj. destruct (decide (j = k)) as [->|Hjk].
      * rewrite lookup_insert_eq in Hj. injection Hj as <-. split; [done|]. split; [done|]. split; [by rewrite E2|]. unfold pte_at. rewrite Hpt by lia. rewrite decide_True by done.
        split; [rewrite Z.lor_assoc; apply has_V_lor|]. apply PTE2PA_build; [done|]. by apply mapped_flags.
      * rewrite lookup_insert_ne in Hj by done. destruct (R2 j q Hj) as (J1 & J2 & J3 & J4 & J5). destruct (page_addr j J1) as (? & ? & _ & Ej).
        split; [done|]. split; [done|]. split; [by rewrite E2|]. unfold pte_at. rewrite Hpt by lia. rewrite decide_False by lia. done.
    + intros j j' q. destruct (decide (j = k)) as [->|], (decide (j' = k)) as [->|]; rewrite ?lookup_insert_eq, ?lookup_insert_ne by done; try done.
      * intros [= <-] Hq. by destruct (Hnr j').
      * intros Hq [= <-]. by destruct (Hnr j).
      * apply R3.
  - right. split; [done|]. assert (forall va, 0 <= va < MAXVA -> ptev (pm_mem s') t' va = ptev (pm_mem s) t va) as Hpt.
    { intros va Hva. rewrite (Hmap va Hva). rewrite decide_False by lia. done. }
    split; [|done]. split; [done| |done]. intros j q Hj. destruct (R2 j q Hj) as (J1 & J2 & J3 & J4 & J5). destruct (page_addr j J1) as (? & ? & _ & _).
    split; [done|]. split; [done|]. split; [by rewrite E2|]. unfold pte_at. by rewrite Hpt by lia.
Qed.

Lemma region_clear root t ps s pg k x : region root t ps s pg -> 0 <= k < MAXVA / 4096 -> leaf t (k * 4096) = Some x ->
  let s' := set_mem (store64 (pm_mem s) x 0) s in
  region root t ps s' (delete k pg) /\ (forall y, outside t ps y -> pm_mem s' y = pm_mem s y) /\
  forall va, 0 <= va < MAXVA -> ptev (pm_mem s') t va = if decide (va / 4096 = k) then 0 else ptev (pm_mem s) t va.
Proof.
  intros [Hi R2 R3] Hk Hx s'. destruct (page_addr k Hk) as (K1 & K2 & K3 & K4).
  destruct (store_leaf root t ps s (k * 4096) x 0 Hi Hx ltac:(lia) ltac:(lia)) as (Hi' & [_ _ _ Hf _] & Hpt). fold s' in Hi', Hf, Hpt. rewrite K4 in Hpt.
  split; [|done]. split; [done| |].
  - intros j q Hj. apply lookup_delete_Some in Hj as [Hne Hj]. destruct (R2 j q Hj) as (J1 & J2 & J3 & J4 & J5). destruct (page_addr j J1) as (? & ? & _ & Ej).
    split; [done|]. split; [done|]. split; [done|]. unfold pte_at. rewrite Hpt by lia. rewrite decide_False by lia. done.
  - intros j j' q Hj Hj'. apply lookup_delete_Some in Hj as [_ Hj], Hj' as [_ Hj']. by eapply R3.
Qed.

(** ** uvmunmap *)

Record unmapped_upto root t ps s pg (n k : Z) ps' s' pg' : Prop := {
  un_region : region root t ps' s' pg';
  un_pages : forall j, pg' !! j = if decide (j < k) then None else pg !! j;
  un_pte : forall va, 0 <= va < MAXVA -> if decide (va / 4096 < k) then has (ptev (pm_mem s') t va) PTE_V = false
                                       else ptev (pm_mem s') t va = ptev (pm_mem s) t va;
  un_pool : forall q, pool t ps' q <-> pool t ps q \/ exists j, j < k /\ pg !! j = Some q;
  un_frame : forall x, outside t ps x -> (forall j r, pg !! j = Some r -> j < n -> x < r \/ r + PGSIZE <= x) -> pm_mem s' x = pm_mem s x;
}.

Lemma region_drop root t ps s pg k : region root t ps s pg -> region root t ps s (delete k pg).
Proof.
  intros [Hi R2 R3]. split; [done| |].
  - intros j q Hj. apply lookup_delete_Some in Hj as [_ Hj]. by apply R2.
  - intros j j' q Hj Hj'. apply lookup_delete_Some in Hj as [_ Hj], Hj' as [_ Hj']. by eapply R3.
Qed.
(** A page that is not mapped is skipped. *)
Lemma unmapped_skip root t ps s pg n k ps' s' pg' : (forall j, 0 <= j < n -> has (pte_at (pm_mem s) t j) PTE_V = true -> is_Some (pg !! j)) ->
  0 <= k < n -> n <= MAXVA / 4096 -> region root t ps s pg -> unmapped_upto root t ps s pg n k ps' s' pg' -> has (pte_at (pm_mem s') t k) PTE_V = false ->
  unmapped_upto root t ps s pg n (k + 1) ps' s' pg'.
Proof.
  intros Hall Hk Hn Hr [U1 U2 U3 U4 U5] Hv. destruct (page_addr k ltac:(lia)) as (K1 & K2 & _ & K4).
  assert (pg !! k = None) as Hnone.
  { destruct (pg !! k) as [r|] eqn:E; [|done]. destruct (rg_page _ _ _ _ _ Hr k r E) as (_ & _ & _ & V & _).
    specialize (U3 (k * 4096) ltac:(lia)). rewrite K4, decide_False in U3 by lia. unfold pte_at in *. congruence. }
  split; [done| | | |done].
  - intros j. rewrite U2. destruct (decide (j = k)) as [->|]; [by rewrite decide_False, decide_True by lia|]. by repeat case_decide; try lia.
  - intros va Hva. specialize (U3 va Hva). destruct (decide (va / 4096 = k)) as [E|E].
    + rewrite decide_True by lia. rewrite ptev_page, E. done.
    + destruct (decide (va / 4096 < k)); [rewrite decide_True by lia|rewrite decide_False by lia]; done.
  - intros q. rewrite U4. split; (intros [?|(j & Hj & Hq)]; [by left|right; exists j]); [split; [lia|done]|].
    split; [|done]. destruct (decide (j = k)) as [->|]; [congruence|lia].
Qed.

Lemma unmap_page_spec root t ps s pg n k ps' s' pg' : (forall j, 0 <= j < n -> has (pte_at (pm_mem s) t j) PTE_V = true -> is_Some (pg !! j)) ->
  0 <= k < n -> n <= MAXVA / 4096 -> region root t ps s pg -> unmapped_upto root t ps s pg n k ps' s' pg' ->
  wp (uvmunmap_step root (n * 4096) true (k * 4096)) (fun r s2 => r = inl ((k + 1) * 4096) /\
    exists ps2 pg2, unmapped_upto root t ps s pg n (k + 1) ps2 s2 pg2) s'.
Proof.
  intros Hall Hk Hn Hr Hu. pose proof Hu as [U1 U2 U3 U4 U5]. destruct (page_addr k ltac:(lia)) as (K1 & K2 & K3 & K4). pose proof MAXVA_val as HM.
  unfold uvmunmap_step. rewrite (proj2 (Z.leb_gt _ _)) by lia. wp_step. unfold wp at 1. rewrite (walk_read root t) by (try apply U1; lia).
  assert (u64 (k * 4096 + PGSIZE) = (k + 1) * 4096) as -> by (rewrite u64_small; unfold PGSIZE; lia).
  assert (has (pte_at (pm_mem s') t k) PTE_V = false -> exists ps2 pg2, unmapped_upto root t ps s pg n (k + 1) ps2 s' pg2) as Hskip.
  { intros Hv. exists ps', pg'. by eapply unmapped_skip. }
  destruct (leaf t (k * 4096)) as [x|] eqn:El; cbn [default from_option id].
  2: { cbn [Z.eqb]. wp_step. split; [done|]. apply Hskip. unfold pte_at, ptev. by rewrite El. }
  pose proof (leaf_pos root t s' _ x ltac:(apply U1) El). rewrite (proj2 (Z.eqb_neq x 0)) by lia. unfold load_pte. wp_step. wp_step.
  assert (load64 (pm_mem s') x = pte_at (pm_mem s') t k) as -> by (unfold pte_at, ptev; by rewrite El).
  destruct (has (pte_at (pm_mem s') t k) PTE_V) eqn:Hv; cbn [negb]. 2: { wp_step. split; [done|]. by apply Hskip. }
  pose proof (U3 (k * 4096) ltac:(lia)) as E3. rewrite K4, decide_False in E3 by lia. fold (pte_at (pm_mem s') t k) (pte_at (pm_mem s) t k) in E3.
  destruct (Hall k Hk) as [r Hkr]; [by rewrite <- E3|]. assert (pg' !! k = Some r) as Hkr' by (rewrite U2, decide_False by lia; done).
  destruct (rg_page _ _ _ _ _ U1 k r Hkr') as (_ & Hvp & Hnp & _ & ->). unfold when. wp_step.
  eapply wp_mono; [apply (region_free root t ps' s' (delete k pg') r); [by apply region_drop|done|done|]|].
  { intros j Hj. apply lookup_delete_Some in Hj as [Hne Hj]. apply Hne. by eapply (rg_inj _ _ _ _ _ U1). }
  intros _ s2 (Hr2 & Hpt2 & Hf2). unfold store_pte, mem_op. wp_step. wp_step. split; [done|].
  destruct (region_clear root t (r :: ps') s2 (delete k pg') k x Hr2 ltac:(lia) El) as (Hr3 & Hf3 & Hpt3).
  exists (r :: ps'), (delete k (delete k pg')). split; [exact Hr3| | | |].
  - intros j. destruct (decide (j = k)) as [->|Hne]; [by rewrite lookup_delete_eq, decide_True by lia|].
    rewrite !lookup_delete_ne, U2 by done. by repeat case_decide; try lia.
  - intros va Hva. rewrite Hpt3 by done. specialize (U3 va Hva). destruct (decide (va / 4096 = k)) as [E|E].
    + rewrite decide_True by lia. done.
    + rewrite Hpt2. destruct (decide (va / 4096 < k)); [rewrite decide_True by lia|rewrite decide_False by lia]; done.
  - intros q. assert (pool t (r :: ps') q <-> q = r \/ pool t ps' q) as ->.
    { unfold pool. rewrite elem_of_cons. tauto. }
    rewrite U4. split.
    + intros [->|[Hq|(j & Hj & Hq)]]; [right; exists k; split; [lia|done]|by left|right; exists j; split; [lia|done]].
    + intros [Hq|(j & Hj & Hq)]; [by auto|]. destruct (decide (j = k)) as [->|]; [left; congruence|right; right; exists j; split; [lia|done]].
  - intros y Hy Hpg. rewrite Hf3; [rewrite Hf2; [by apply U5|]|].
    + apply (Hpg k r Hkr). lia.
    + intros q Hq. assert (q = r \/ pool t ps' q) as [->|Hq'] by (destruct Hq as [Hq|Hq]; [apply elem_of_cons in Hq as [->|Hq]; [by left|right; by left]|right; by right]).
      * apply (Hpg k r Hkr). lia.
      * apply U4 in Hq' as [Hq'|(j & Hj & Hq')]; [by apply Hy|]. apply (Hpg j q Hq'). lia.
Qed.

Lemma uvmunmap_spec root t ps s pg n : region root t ps s pg -> 0 <= n <= MAXVA / 4096 ->
  (forall j, 0 <= j < n -> has (pte_at (pm_mem s) t j) PTE_V = true -> is_Some (pg !! j)) ->
  wp (uvmunmap root 0 n true) (fun _ s' => exists ps' pg', unmapped_upto root t ps s pg n n ps' s' pg') s.
Proof.
  intros Hr Hn Hall. unfold uvmunmap. change (0 mod PGSIZE =? 0) with true. cbn [negb]. assert (MAXVA / 4096 = 67108864) as HM by (rewrite MAXVA_val; done).
  rewrite !(u64_small (n * PGSIZE)), Z.add_0_l, u64_small by (unfold PGSIZE; lia).
  apply (wp_loop (fun a s' => exists k ps' pg', 0 <= k <= n /\ a = k * 4096 /\ unmapped_upto root t ps s pg n k ps' s' pg')
                 (fun a _ => Z.to_nat (n - a / 4096))).
  - intros a s1 (k & ps' & pg' & Hk & -> & Hu). destruct (Z.eq_dec k n) as [->|Hne].
    + unfold uvmunmap_step. change PGSIZE with 4096. rewrite (proj2 (Z.leb_le _ _)) by lia. wp_step. by exists ps', pg'.
    + eapply wp_mono; [by apply (unmap_page_spec root t ps s pg n k ps' s1 pg'); [done|lia|lia|..]|].
      intros r s2 (-> & ps2 & pg2 & Hu2). rewrite !Z.div_mul by done. split; [|lia]. exists (k + 1), ps2, pg2. split; [lia|]. done.
  - exists 0, ps, pg. split; [lia|]. split; [done|]. split; [done| | | |done].
    + intros j. case_decide as Hj; [|done]. destruct (pg !! j) as [r|] eqn:E; [|done]. destruct (rg_page _ _ _ _ _ Hr j r E). lia.
    + intros va Hva. rewrite decide_False; [done|]. pose proof (page_number va Hva). lia.
    + intros q. split; [by left|]. intros [?|(j & Hj & E)]; [done|]. destruct (rg_page _ _ _ _ _ Hr j q E). lia.
  - change (0 / 4096) with 0. lia.
Qed.

(** ** uvmcopy *)

Lemma region_mem root t ps s pg m' : region root t ps s pg -> mem_ok m' ->
  (forall q x, pool t ps q -> q <= x < q + PGSIZE -> m' x = pm_mem s x) ->
  region root t ps (set_mem m' s) pg /\ forall va, ptev m' t va = ptev (pm_mem s) t va.
Proof.
  intros [(Hk & Hr & Hd) R2 R3] Hok Hs. assert (tables_same (pm_mem s) m' t) as Ht by (intros p a x Hp Hx; apply (Hs a); [right; by exists p|done]).
  assert (forall va, ptev m' t va = ptev (pm_mem s) t va) as Hpt by (intros; by eapply ptev_same).
  split; [|done]. split; [|intros k r Hkr; unfold pte_at; cbn [pm_mem set_mem]; rewrite Hpt; by apply R2|done].
  split; [|split; [by eapply rep_same|done]]. apply kmem_inv_frame; [done|done|]. intros q x Hq. apply Hs. by left.
Qed.
Lemma flags_valid v : has v PTE_V = true -> Z.lor (PTE_FLAGS v) PTE_V = PTE_FLAGS v.
Proof.
  intros Hv. rewrite has_PTE_V in Hv. apply Z.bits_inj'. intros n Hn. unfold PTE_FLAGS. rewrite Z.lor_spec, Z.land_spec.
  destruct (decide (n = 0)) as [->|Hne]; [by rewrite Hv|]. change PTE_V with (2 ^ 0). rewrite Z.pow2_bits_false by done. by rewrite orb_false_r.
Qed.
Lemma flags_range v : 0 <= PTE_FLAGS v < 1024.
Proof. unfold PTE_FLAGS. change 0x3FF with (Z.ones 10). rewrite Z.land_ones by lia. apply Z.mod_pos_bound. lia. Qed.

Context (ro rn sz : Z) (to tn : gmap (list Z) Z) (ps0 : list Z) (s0 : pm).
(** The parent's entry for a page, and the pages the parent holds. *)
Definition old (k : Z) : Z := pte_at (pm_mem s0) to k.
Definition in_size (k : Z) : Prop := 0 <= k /\ k * 4096 < sz.
Definition held (q : Z) : Prop := (exists p, to !! p = Some q) \/ exists k, in_size k /\ has (old k) PTE_V = true /\ q = PTE2PA (old k).

(** The parent's tree with its pages, and a new tree beside it with nothing
    below the size to copy. *)
Record fork_ready : Prop := {
  fr_old : pt_rep (pm_mem s0) ro to;
  fr_new : region rn tn ps0 s0 ∅;
  fr_size : 0 <= sz <= MAXVA;
  fr_pages : forall k, in_size k -> has (old k) PTE_V = true -> valid_page (PTE2PA (old k));
  fr_apart : forall q, held q -> ~ pool tn ps0 q;
  fr_hole : forall k, in_size k -> has (pte_at (pm_mem s0) tn k) PTE_V = false;
}.

Record copied_upto (k : Z) t ps s pg : Prop := {
  cp_region : region rn t ps s pg;
  cp_keys : forall j r, pg !! j = Some r -> 0 <= j < k /\ in_size j /\ has (old j) PTE_V = true /\ ~ held r;
  cp_page : forall j, 0 <= j < k -> in_size j -> has (old j) PTE_V = true -> exists r, pg !! j = Some r /\
    pte_at (pm_mem s) t j = Z.lor (PA2PTE r) (PTE_FLAGS (old j)) /\
    forall off, 0 <= off < 4096 -> pm_mem s (r + off) = pm_mem s0 (PTE2PA (old j) + off);
  cp_none : forall j, 0 <= j < k -> in_size j -> has (old j) PTE_V = false -> has (pte_at (pm_mem s) t j) PTE_V = false;
  cp_rest : forall va, 0 <= va < MAXVA -> k <= va / 4096 -> ptev (pm_mem s) t va = ptev (pm_mem s0) tn va;
  cp_pool : forall q, pool t ps q \/ (exists j, pg !! j = Some q) <-> pool tn ps0 q;
  cp_frame : forall x, outside tn ps0 x -> pm_mem s x = pm_mem s0 x;
}.
Context (Hready : fork_ready).

Lemma in_size_page k : in_size k -> 0 <= k < MAXVA / 4096.
Proof.
  intros [H1' H2']. destruct (fr_size Hready). split; [done|]. assert (0 <= k * 4096 < MAXVA) as Hk by lia.
  pose proof (page_number _ Hk) as Hp. rewrite Z.div_mul in Hp by done. lia.
Qed.
Lemma held_valid q : held q -> valid_page q.
Proof. intros [[p Hp]|(k & Hk & Hv & ->)]; [by eapply rep_page; [apply (fr_old Hready)|]|by apply (fr_pages Hready)]. Qed.
(** What the parent holds does not change. *)
Lemma held_same m' : (forall x, outside tn ps0 x -> m' x = pm_mem s0 x) -> forall q x, held q -> q <= x < q + PGSIZE -> m' x = pm_mem s0 x.
Proof.
  intros Hf q x Hq Hx. apply Hf. eapply page_outside; [apply (rg_pt _ _ _ _ _ (fr_new Hready))|by apply held_valid|by apply (fr_apart Hready)|done].
Qed.
Lemma old_tables s : (forall x, outside tn ps0 x -> pm_mem s x = pm_mem s0 x) -> tables_same (pm_mem s0) (pm_mem s) to.
Proof. intros Hf p a x Hp Hx. apply (held_same _ Hf a); [left; by exists p|done]. Qed.

Lemma copied_skip k t ps s pg : copied_upto k t ps s pg -> in_size k -> has (old k) PTE_V = false -> copied_upto (k + 1) t ps s pg.
Proof.
  intros [C1 C2 C3 C4 C5 C6 C7] Hk Hv. destruct (page_addr k (in_size_page k Hk)) as (K1 & K2 & _ & K4). split; [done| | | | |done|done].
  - intros j r Hj. destruct (C2 j r Hj) as (? & ? & ?). split; [lia|done].
  - intros j Hj Hs Hvj. destruct (decide (j = k)) as [->|]; [congruence|]. apply C3; [lia|done|done].
  - intros j Hj Hs Hvj. destruct (decide (j = k)) as [->|]; [|apply C4; [lia|done|done]].
    unfold pte_at. rewrite C5 by lia. by apply (fr_hole Hready).
  - intros va Hva Hj. apply C5; [done|lia].
Qed.

(** Everything that was taken is back. *)
Record copy_failed t ps s : Prop := {
  cf_region : region rn t ps s ∅;
  cf_hole : forall k, in_size k -> has (pte_at (pm_mem s) t k) PTE_V = false;
  cf_rest : forall va, sz <= va < MAXVA -> ~ in_size (va / 4096) -> ptev (pm_mem s) t va = ptev (pm_mem s0) tn va;
  cf_pool : forall q, pool t ps q <-> pool tn ps0 q;
  cf_frame : forall x, outside tn ps0 x -> pm_mem s x = pm_mem s0 x;
}.
Lemma copied_outside k t ps s pg x : copied_upto k t ps s pg -> outside tn ps0 x ->
  outside t ps x /\ forall j r, pg !! j = Some r -> x < r \/ r + PGSIZE <= x.
Proof.
  intros Hc Hx. split; [intros q Hq|intros j r Hj]; apply Hx, (cp_pool _ _ _ _ _ Hc); [by left|right; by exists j].
Qed.
Lemma copy_undo k t ps s pg : copied_upto k t ps s pg -> in_size k ->
  wp (uvmunmap rn 0 k true) (fun _ s' => exists ps', copy_failed t ps' s') s.
Proof.
  intros Hc Hk. pose proof Hc as [C1 C2 C3 C4 C5 C6 C7]. pose proof (in_size_page k Hk) as Hk2.
  eapply wp_mono; [apply (uvmunmap_spec rn t ps s pg k C1); [lia|]|].
  { intros j Hj Hv. assert (in_size j) as Hs by (unfold in_size in *; lia). destruct (has (old j) PTE_V) eqn:Ho.
    - destruct (C3 j Hj Hs Ho) as (r & -> & _). done.
    - rewrite (C4 j Hj Hs Ho) in Hv. done. }
  intros _ s' (ps' & pg' & [U1 U2 U3 U4 U5]). exists ps'. assert (pg' = ∅) as Epg.
  { apply map_empty. intros j. rewrite U2. case_decide; [done|]. destruct (pg !! j) as [r|] eqn:E; [|done]. destruct (C2 j r E). lia. }
  rewrite Epg in U1. split; [done| | | |].
  - intros j Hj. destruct (page_addr j (in_size_page j Hj)) as (J1 & J2 & _ & J4). specialize (U3 (j * 4096) ltac:(lia)). rewrite J4 in U3. unfold pte_at.
    case_decide; [done|]. rewrite U3, C5 by lia. by apply (fr_hole Hready).
  - intros va Hva Hns. assert (0 <= va < MAXVA) as Hva2 by (destruct (fr_size Hready); lia). specialize (U3 va Hva2). pose proof (page_number va Hva2).
    assert (k <= va / 4096) as Hge by (unfold in_size in *; lia). rewrite decide_False in U3 by lia. rewrite U3. by apply C5.
  - intros q. rewrite U4, <- C6. split.
    + intros [?|(j & _ & E)]; [by left|right; by exists j].
    + intros [?|(j & E)]; [by left|right; exists j]. by destruct (C2 j q E) as [[_ ?] _].
  - intros x Hx. destruct (copied_outside _ _ _ _ _ x Hc Hx) as [Ho Hp]. rewrite U5; [by apply C7|done|]. intros j r Hj _. by eapply Hp.
Qed.

(** The state with the new page out of the allocator. *)
Lemma copied_alloc k t ps s pg : copied_upto k t ps s pg ->
  wp kalloc (fun r s' => (r = 0 /\ s' = s) \/
    exists ps', r <> 0 /\ valid_page r /\ ~ pool t ps' r /\ (forall j r', pg !! j = Some r' -> r' <> r) /\ pool tn ps0 r /\
      region rn t ps' s' pg /\ (forall va, ptev (pm_mem s') t va = ptev (pm_mem s) t va) /\
      (forall q, pool t ps q <-> q = r \/ pool t ps' q) /\ forall x, x < r \/ r + PGSIZE <= x -> pm_mem s' x = pm_mem s x) s.
Proof.
  intros Hc. pose proof Hc as [C1 C2 C3 C4 C5 C6 C7]. eapply wp_mono; [by apply (region_alloc rn t ps)|].
  intros r s' [(-> & _ & ->)|(ps' & -> & H1' & H2' & H3' & H4' & H5' & H6' & H7')]; [by left|right]. exists ps'.
  do 4 (split; [done|]). split; [apply C6; left; left; by left|]. do 2 (split; [done|]). split; [|done].
  intros q. unfold pool. rewrite elem_of_cons. tauto.
Qed.

Lemma region_outside t ps s pg j r x : region rn t ps s pg -> pg !! j = Some r -> r <= x < r + PGSIZE -> outside t ps x.
Proof. intros Hr Hj Hx. destruct (rg_page _ _ _ _ _ Hr j r Hj) as (_ & Hv & Hn & _). eapply page_outside; [apply Hr|done|done|done]. Qed.

Lemma copied_transfer k t ps s pg t' ps' s' : copied_upto k t ps s pg -> region rn t' ps' s' pg ->
  (forall va, 0 <= va < MAXVA -> ptev (pm_mem s') t' va = ptev (pm_mem s) t va) -> (forall q, pool t' ps' q <-> pool t ps q) ->
  (forall x, outside t ps x -> pm_mem s' x = pm_mem s x) -> copied_upto k t' ps' s' pg.
Proof.
  intros Hc Hr Hpt Hpool Hf. pose proof Hc as [C1 C2 C3 C4 C5 C6 C7].
  assert (forall j, in_size j -> pte_at (pm_mem s') t' j = pte_at (pm_mem s) t j) as Hpa.
  { intros j Hj. destruct (page_addr j (in_size_page j Hj)) as (? & ? & _). apply Hpt. lia. }
  split; [done|done| | | | |].
  - intros j Hj Hs Hv. destruct (C3 j Hj Hs Hv) as (r & E & Ep & Ec). exists r. split; [done|]. split; [by rewrite Hpa|].
    intros off Ho. rewrite Hf; [by apply Ec|]. eapply region_outside; [exact C1|done|unfold PGSIZE; lia].
  - intros j Hj Hs Hv. rewrite Hpa by done. by apply C4.
  - intros va Hva Hk. rewrite Hpt by done. by apply C5.
  - intros q. by rewrite Hpool.
  - intros x Hx. rewrite Hf; [by apply C7|]. by eapply copied_outside.
Qed.

(** The page [k] with its copy [r] in the new tree. *)
Lemma copied_one k t ps s pg ps1 s2 r t3 ps3 s3 : copied_upto k t ps s pg -> in_size k -> has (old k) PTE_V = true ->
  valid_page r -> ~ pool t ps1 r -> pool tn ps0 r -> (forall j r', pg !! j = Some r' -> r' <> r) ->
  (forall q, pool t ps q <-> q = r \/ pool t ps1 q) ->
  (forall x, outside t ps x -> pm_mem s2 x = pm_mem s x) ->
  (forall off, 0 <= off < 4096 -> pm_mem s2 (r + off) = pm_mem s0 (PTE2PA (old k) + off)) ->
  (forall va, ptev (pm_mem s2) t va = ptev (pm_mem s) t va) ->
  region rn t3 ps3 s3 (<[k := r]> pg) -> (forall q, pool t3 ps3 q <-> pool t ps1 q) -> (forall x, outside t ps1 x -> pm_mem s3 x = pm_mem s2 x) ->
  (forall va, 0 <= va < MAXVA -> ptev (pm_mem s3) t3 va =
     if decide (va / 4096 = k) then Z.lor (PA2PTE r) (Z.lor (PTE_FLAGS (old k)) PTE_V) else ptev (pm_mem s2) t va) ->
  copied_upto (k + 1) t3 ps3 s3 (<[k := r]> pg).
Proof.
  intros Hc Hk Hv Hvr Hnp Hp0 Hnr Hpool Hf2 Hcopy Hpt2 Hr3 Hpool3 Hf3 Hpt3. pose proof Hc as [C1 C2 C3 C4 C5 C6 C7].
  assert (forall j, in_size j -> pte_at (pm_mem s3) t3 j = if decide (j = k) then Z.lor (PA2PTE r) (PTE_FLAGS (old k)) else pte_at (pm_mem s) t j) as Hpa.
  { intros j Hj. destruct (page_addr j (in_size_page j Hj)) as (? & ? & _ & Ej). unfold pte_at. rewrite Hpt3, Ej by lia.
    case_decide; [by rewrite flags_valid|by rewrite Hpt2]. }
  assert (pg !! k = None) as Hnone by (destruct (pg !! k) as [q|] eqn:E; [destruct (C2 k q E); lia|done]).
  assert (forall x, outside t ps x -> outside t ps1 x) as Ho1 by (intros x Hx q Hq; apply Hx, Hpool; by right).
  split; [done| | | | | |].
  - intros j q Hj. destruct (decide (j = k)) as [->|Hne].
    + rewrite lookup_insert_eq in Hj. injection Hj as <-. split; [unfold in_size in Hk; lia|]. split; [done|]. split; [done|]. intros Hh. by apply (fr_apart Hready r).
    + rewrite lookup_insert_ne in Hj by done. destruct (C2 j q Hj) as (? & ?). split; [lia|done].
  - intros j Hj Hs Hvj. destruct (decide (j = k)) as [->|Hne].
    + exists r. split; [by rewrite lookup_insert_eq|]. split; [by rewrite Hpa, decide_True by done|]. intros off Ho. rewrite Hf3; [by apply Hcopy|].
      intros q Hq. assert (valid_page q) as Hvq by (eapply pool_valid; [apply (rg_pt _ _ _ _ _ C1)|apply Hpool; by right]).
      eapply (page_out q r); [done|done|by intros ->|unfold PGSIZE; lia].
    + destruct (C3 j ltac:(lia) Hs Hvj) as (q & E & Ep & Ec). exists q. split; [by rewrite lookup_insert_ne|]. split; [by rewrite Hpa, decide_False by done|].
      intros off Ho. assert (outside t ps (q + off)) as Hq by (eapply region_outside; [exact C1|done|unfold PGSIZE; lia]).
      rewrite Hf3 by auto. rewrite Hf2 by done. by apply Ec.
  - intros j Hj Hs Hvj. rewrite Hpa by done. case_decide as E; [subst; congruence|]. apply C4; [lia|done|done].
  - intros va Hva Hj. rewrite Hpt3 by done. rewrite decide_False by lia. rewrite Hpt2. apply C5; [done|lia].
  - intros q. rewrite <- C6, Hpool3, Hpool. split.
    + intros [Hq|(j & Hj)]; [by left; right|]. destruct (decide (j = k)) as [->|]; [rewrite lookup_insert_eq in Hj; left; left; congruence|].
      rewrite lookup_insert_ne in Hj by done. right. by exists j.
    + intros [[->|Hq]|(j & Hj)]; [right; exists k; by rewrite lookup_insert_eq|by left|]. right. exists j. rewrite lookup_insert_ne; [done|]. congruence.
  - intros x Hx. destruct (copied_outside _ _ _ _ _ x Hc Hx) as [Ho _]. rewrite Hf3 by auto. rewrite Hf2 by done. by apply C7.
Qed.

Lemma uvmcopy_step_spec k t ps s pg : copied_upto k t ps s pg -> 0 <= k -> k * 4096 < MAXVA + 4096 ->
  wp (uvmcopy_step ro rn sz (k * 4096)) (fun r s' => match r with
    | inl i => i = (k + 1) * 4096 /\ k * 4096 < sz /\ exists t' ps' pg', copied_upto (k + 1) t' ps' s' pg'
    | inr v => (v = 0 /\ sz <= k * 4096 /\ exists t' ps' pg', copied_upto k t' ps' s' pg') \/ (v = -1 /\ exists t' ps', copy_failed t' ps' s')
    end) s.
Proof.
  intros Hc Hk Hkm. pose proof Hc as [C1 C2 C3 C4 C5 C6 C7]. pose proof MAXVA_val as HM. unfold uvmcopy_step.
  destruct (Z.leb_spec sz (k * 4096)) as [Hs|Hs]. { wp_step. left. split; [done|]. split; [done|]. by exists t, ps, pg. }
  assert (in_size k) as Hin by done. destruct (page_addr k (in_size_page k Hin)) as (K1 & K2 & K3 & K4).
  assert (u64 (k * 4096 + PGSIZE) = (k + 1) * 4096) as -> by (rewrite u64_small; unfold PGSIZE; lia).
  pose proof (old_tables s C7) as Hold. assert (pt_rep (pm_mem s) ro to) as Hro by (eapply rep_same; [apply (fr_old Hready)|done]).
  assert (ptev (pm_mem s) to (k * 4096) = old k) as Eo by (unfold old, pte_at; eapply ptev_same; [apply (fr_old Hready)|done]).
  wp_step. unfold wp at 1. rewrite (walk_read ro to) by (try done; lia).
  destruct (leaf to (k * 4096)) as [x|] eqn:El; cbn [default from_option id].
  2: { cbn [Z.eqb]. wp_step. split; [done|]. split; [done|]. exists t, ps, pg. apply copied_skip; [done|done|]. rewrite <- Eo. unfold ptev. by rewrite El. }
  pose proof (leaf_pos ro to s _ x Hro El). rewrite (proj2 (Z.eqb_neq x 0)) by lia. unfold load_pte. wp_step. wp_step.
  assert (load64 (pm_mem s) x = old k) as -> by (rewrite <- Eo; unfold ptev; by rewrite El).
  destruct (has (old k) PTE_V) eqn:Hv; cbn [negb]. 2: { wp_step. split; [done|]. split; [done|]. exists t, ps, pg. by apply copied_skip. }
  assert (forall t1 ps1 s1 pg1, copied_upto k t1 ps1 s1 pg1 -> wp (uvmunmap rn 0 (k * 4096 / PGSIZE) true ;; ret (inr (-1))) (fun (r : Z + Z) s' => match r with
    | inl i => i = (k + 1) * 4096 /\ k * 4096 < sz /\ exists t' ps' pg', copied_upto (k + 1) t' ps' s' pg'
    | inr v => (v = 0 /\ sz <= k * 4096 /\ exists t' ps' pg', copied_upto k t' ps' s' pg') \/ (v = -1 /\ exists t' ps', copy_failed t' ps' s')
    end) s1) as Hundo.
  { intros t1 ps1 s1 pg1 Hc1. wp_step. change PGSIZE with 4096. rewrite Z.div_mul by done. eapply wp_mono; [by apply (copy_undo k t1 ps1 s1 pg1)|].
    intros _ s' (ps' & Hf). wp_step. right. split; [done|]. by exists t1, ps'. }
  wp_step. eapply wp_mono; [by apply (copied_alloc k t ps s pg)|]. intros r s1 [[-> ->]|(ps1 & Hr0 & Hvr & Hnp & Hnr & Hp0 & Hr1 & Hpt1 & Hpool & Hf1)].
  { cbn [Z.eqb]. by apply (Hundo t ps s pg). }
  rewrite (proj2 (Z.eqb_neq r 0)) by done. wp_step. unfold mem_op. wp_step. set (pa := PTE2PA (old k)). set (s2 := set_mem (memmove (pm_mem s1) r pa PGSIZE) s1).
  assert (valid_page pa /\ held pa) as [Hvpa Hhpa] by (split; [by apply (fr_pages Hready)|right; by exists k]).
  assert (pa <> r) as Hpar by (intros E; apply (fr_apart Hready pa Hhpa); by rewrite E).
  assert (forall x, x < r \/ r + PGSIZE <= x -> pm_mem s2 x = pm_mem s x) as Hf2.
  { intros y Hy. cbn. rewrite memmove_at by done. destruct (Z.leb_spec r y), (Z.ltb_spec y (r + PGSIZE)); cbn [andb]; try lia; by apply Hf1. }
  destruct (region_mem rn t ps1 s1 pg (memmove (pm_mem s1) r pa PGSIZE) Hr1) as [Hr2 Hpt2].
  { apply memmove_mem_ok; [done|]. apply (rg_pt _ _ _ _ _ Hr1). }
  { intros q y Hq Hy. rewrite memmove_at by done. assert (y < r \/ r + PGSIZE <= y) as Ho.
    { eapply (page_out r q); [done|eapply pool_valid; [apply (rg_pt _ _ _ _ _ Hr1)|done]|by intros ->|done]. }
    destruct (Z.leb_spec r y), (Z.ltb_spec y (r + PGSIZE)); cbn [andb]; try lia; done. }
  fold s2 in Hr2. assert (forall va, ptev (pm_mem s2) t va = ptev (pm_mem s) t va) as Hpt by (intros va; cbn; by rewrite Hpt2).
  assert (forall off, 0 <= off < 4096 -> pm_mem s2 (r + off) = pm_mem s0 (pa + off)) as Hcp.
  { intros off Ho. cbn. rewrite memmove_at by done. rewrite (proj2 (Z.leb_le _ _)), (proj2 (Z.ltb_lt _ _)) by (unfold PGSIZE; lia). cbn [andb].
    replace (pa + (r + off - r)) with (pa + off) by lia. rewrite Hf1 by (eapply (page_out r pa); [done|done|by apply not_eq_sym|unfold PGSIZE; lia]).
    apply (held_same _ C7 pa); [done|unfold PGSIZE; lia]. }
  wp_step. eapply wp_mono.
  { apply (region_map rn t ps1 s2 pg k r (PTE_FLAGS (old k))); [done|by apply in_size_page| |done|done| |apply flags_range].
    - unfold pte_at. rewrite Hpt, C5 by lia. by apply (fr_hole Hready).
    - intros j Hj. by apply (Hnr j r). }
  intros v s3 (t3 & ps3 & Hpool3 & Hf3 & [(-> & Hr3 & Hpt3)|(-> & Hr3 & Hpt3)]); cbn [Z.eqb negb].
  - wp_step. split; [done|]. split; [done|]. exists t3, ps3, (<[k := r]> pg).
    apply (copied_one k t ps s pg ps1 s2 r t3 ps3 s3); try done. intros y Hy. apply Hf2, Hy, Hpool. by left.
  - wp_step. eapply wp_mono; [apply (region_free rn t3 ps3 s3 pg r Hr3 Hvr); [by rewrite Hpool3|]|].
    { intros j Hj. by apply (Hnr j r). }
    intros _ s4 (Hr4 & Hpt4 & Hf4). apply (Hundo t3 (r :: ps3) s4 pg). apply (copied_transfer k t ps s pg); [done|done| | |].
    + intros va Hva. by rewrite Hpt4, Hpt3, Hpt.
    + intros q. rewrite Hpool. unfold pool at 1. rewrite elem_of_cons. rewrite <- Hpool3. unfold pool. tauto.
    + intros y Hy. assert (y < r \/ r + PGSIZE <= y) as Hyr by (apply Hy, Hpool; by left). rewrite Hf4 by done.
      rewrite Hf3 by (intros q Hq; apply Hy, Hpool; by right). by apply Hf2.
Qed.

Lemma uvmcopy_spec : wp (uvmcopy ro rn sz) (fun v s' =>
  (v = 0 /\ exists k t' ps' pg', sz <= k * 4096 /\ copied_upto k t' ps' s' pg') \/ (v = -1 /\ exists t' ps', copy_failed t' ps' s')) s0.
Proof.
  pose proof MAXVA_val as HM. destruct (fr_size Hready) as [Hs1 Hs2]. unfold uvmcopy.
  apply (wp_loop (fun i s' => exists k t' ps' pg', i = k * 4096 /\ 0 <= k /\ k * 4096 < sz + 4096 /\ copied_upto k t' ps' s' pg')
                 (fun i _ => Z.to_nat (sz / 4096 + 1 - i / 4096))).
  - intros i s (k & t' & ps' & pg' & -> & Hk & Hkm & Hc). eapply wp_mono; [by apply (uvmcopy_step_spec k t' ps' s pg'); [done|done|lia]|].
    intros [i|v] s' Hr.
    + destruct Hr as (-> & Hlt & t2 & ps2 & pg2 & Hc2). split; [exists (k + 1), t2, ps2, pg2; split; [done|split; [lia|split; [lia|done]]]|].
      rewrite !Z.div_mul by done. assert (k <= sz / 4096) by (apply Z.div_le_lower_bound; lia). lia.
    + destruct Hr as [(-> & Hge & t2 & ps2 & pg2 & Hc2)|?]; [left|by right]. split; [done|]. by exists k, t2, ps2, pg2.
  - exists 0, tn, ps0, ∅. split; [done|]. split; [done|]. split; [lia|]. split; [apply (fr_new Hready)| | | |done| |done].
    + intros j r Hj. by rewrite lookup_empty in Hj.
    + intros; lia.
    + intros; lia.
    + intros q. split; [intros [?|(j & Hj)]; [done|by rewrite lookup_empty in Hj]|by left].
  - change (0 / 4096) with 0. change PGSIZE with 4096. assert (0 <= sz / 4096) by (apply Z.div_pos; lia). lia.
Qed.
End Fork.

(** C15: uvmcopy, the memory half of fork.  It returns.  Either every page of
    the parent below the size has a page of its own in the child, with the
    same contents and the same permissions, and what the parent has not
    mapped the child has not either; or memory ran out, and nothing is
    mapped in the child and every page taken is back.  The parent's tables
    and pages are untouched, the child's pages are none of the parent's, and
    no page is lost. *)
Theorem fork_copies_memory `{LinkerOk} ro rn sz to tn ps s : fork_ready ro rn sz to tn ps s ->
  wp (uvmcopy ro rn sz) (fun v s' => exists t' ps' pg, region rn t' ps' s' pg /\
    (forall q x, held sz to s q -> q <= x < q + PGSIZE -> pm_mem s' x = pm_mem s x) /\
    (forall j r, pg !! j = Some r -> ~ held sz to s r) /\
    (forall q, pool t' ps' q \/ (exists j, pg !! j = Some q) <-> pool tn ps q) /\
    ((v = 0 /\ forall k, in_size sz k ->
        if has (old to s k) PTE_V then exists r, pg !! k = Some r /\
          pte_at (pm_mem s') t' k = Z.lor (PA2PTE r) (PTE_FLAGS (old to s k)) /\
          forall off, 0 <= off < 4096 -> pm_mem s' (r + off) = pm_mem s (PTE2PA (old to s k) + off)
        else has (pte_at (pm_mem s') t' k) PTE_V = false) \/
     (v = -1 /\ pg = ∅ /\ forall k, in_size sz k -> has (pte_at (pm_mem s') t' k) PTE_V = false))) s.
Proof.
  intros Hr. eapply wp_mono; [by apply uvmcopy_spec|]. intros v s' [(-> & k & t' & ps' & pg & Hk & [C1 C2 C3 C4 C5 C6 C7])|(-> & t' & ps' & [F1 F2 F3 F4 F5])].
  - exists t', ps', pg. split; [done|]. split; [by apply (held_same ro rn sz to tn ps s Hr)|]. split; [by intros j r Hj; destruct (C2 j r Hj) as (_ & _ & _ & ?)|].
    split; [done|]. left. split; [done|]. intros j Hj. assert (0 <= j < k) as Hjk by (unfold in_size in Hj; lia).
    destruct (has (old to s j) PTE_V) eqn:Hv; [by apply C3|by apply C4].
  - exists t', ps', ∅. split; [done|]. split; [by apply (held_same ro rn sz to tn ps s Hr)|]. split; [intros j r Hj; by rewrite lookup_empty in Hj|].
    split; [|by right]. intros q. rewrite <- F4. split; [intros [?|(j & Hj)]; [done|by rewrite lookup_empty in Hj]|by left].
Qed.

Module ForkWitness.
Import ToyImage PageTableWitness OnePage.
(** The parent is the one-page space; its child has table 4. *)
Definition child : gmap (list Z) Z := {[ [] := P 4 ]}.
Lemma ready2 : fork_ready (P 0) (P 4) 4096 parent child free2 s2.
Proof.
  assert (forall k, in_size 4096 k -> k = 0) as H0 by (intros k [? ?]; lia).
  assert (old parent s2 0 = Z.lor (PA2PTE (P 3)) (Z.lor PTE_V (Z.lor PTE_R (Z.lor PTE_W PTE_U)))) as Eo by (vm_compute; reflexivity).
  assert (PTE2PA (old parent s2 0) = P 3) as Ep by (rewrite Eo; vm_compute; reflexivity).
  split; [exact parent_rep| |rewrite MAXVA_val; lia| | |].
  - split; [split; [exact kmem2|split]|..].
    + apply zero_page_rep; [by apply P_valid|]. intros x Hx. apply m2_zero. unfold words, P, PHYSTOP, KERNBASE, PGSIZE in *. repeat (apply Forall_cons_2; [cbn [fst]; lia|]). constructor.
    + intros q a Hq Ha. unfold child in Hq. apply lookup_singleton_Some in Hq as [_ <-]. revert Ha. apply (bool_decide_unpack (P 4 ∉ free2)). by vm_compute.
    + intros k r Hk. by rewrite lookup_empty in Hk.
    + intros k k' r Hk. by rewrite lookup_empty in Hk.
  - intros k Hk _. rewrite (H0 k Hk), Ep. by apply P_valid.
  - assert (forall i, i ∈ [0; 1; 2; 3] -> ~ pool child free2 (P i)) as Hn.
    { intros i Hi Hq. assert (bool_decide (P i ∈ free2 \/ P 4 = P i) = true) as Hb.
      { apply bool_decide_eq_true. destruct Hq as [Hq|[p Hq]]; [by left|right]. unfold child in Hq. by apply lookup_singleton_Some in Hq as [_ Hq]. }
      repeat (apply elem_of_cons in Hi as [->|Hi]; [vm_compute in Hb; discriminate Hb|]). by apply elem_of_nil in Hi. }
    intros q [[p Hp]|(k & Hk & _ & ->)]; [|rewrite (H0 k Hk), Ep; apply Hn; by do 3 right; left].
    unfold parent in Hp. apply lookup_insert_Some in Hp as [[<- <-]|[_ Hp]]; [apply Hn; by left|].
    apply lookup_insert_Some in Hp as [[<- <-]|[_ Hp]]; [apply Hn; by right; left|]. apply lookup_singleton_Some in Hp as [<- <-]. apply Hn. by do 2 right; left.
  - intros k Hk. unfold pte_at, ptev, leaf, child. by rewrite lookup_singleton_ne.
Qed.
Lemma fork_copies_memory_witness :
  wp (uvmcopy (P 0) (P 4) 4096) (fun v s' => exists t' ps' pg, region (P 4) t' ps' s' pg /\
    (forall q x, held 4096 parent s2 q -> q <= x < q + PGSIZE -> pm_mem s' x = pm_mem s2 x) /\
    (forall j r, pg !! j = Some r -> ~ held 4096 parent s2 r) /\
    (forall q, pool t' ps' q \/ (exists j, pg !! j = Some q) <-> pool child free2 q) /\
    ((v = 0 /\ forall k, in_size 4096 k ->
        if has (old parent s2 k) PTE_V then exists r, pg !! k = Some r /\
          pte_at (pm_mem s') t' k = Z.lor (PA2PTE r) (PTE_FLAGS (old parent s2 k)) /\
          forall off, 0 <= off < 4096 -> pm_mem s' (r + off) = pm_mem s2 (PTE2PA (old parent s2 k) + off)
        else has (pte_at (pm_mem s') t' k) PTE_V = false) \/
     (v = -1 /\ pg = ∅ /\ forall k, in_size 4096 k -> has (pte_at (pm_mem s') t' k) PTE_V = false))) s2.
Proof. apply (fork_copies_memory (P 0) (P 4) 4096 parent child free2 s2). exact ready2. Defined.
End ForkWitness.
