(* ===== verification/KernMap.v ===== *)
(** * The kernel's own address space

    kvmmake and proc_mapstacks of kernel/vm.c and proc.c: the page table the
    kernel runs on.  The table is described by its regions; the pages it takes
    are counted, so that running out of memory is excluded.  Then kvminit and
    kvminithart. *)

From Stdlib Require Import ZArith Lia.
From stdpp Require Import gmap.
From S2P Require Import Prelude Mem StringC Params Kalloc Vm VmBits PageTable UserCopy ForkMem.

Section KernMap.
Context `{LinkerOk}.
Implicit Types (t : gmap (list Z) Z) (m : mem) (s : pm) (ps stacks : list Z).

(** ** Regions *)

Record kregion := mkRegion { rg_va : Z; rg_size : Z; rg_pa : Z; rg_perm : Z }.
Definition in_region (va : Z) (r : kregion) : bool := bool_decide (rg_va r <= va < rg_va r + rg_size r).
Definition regions_pte (rs : list kregion) (va : Z) : Z :=
  match List.find (in_region va) rs with
  | Some r => mapped_pte (rg_va r) (rg_pa r) (rg_perm r) va
  | None => 0
  end.

Definition RW : Z := Z.lor PTE_R PTE_W.
Definition RX : Z := Z.lor PTE_R PTE_X.
(** What kvmmake maps before the stacks, in its order. *)
Definition base_regions : list kregion := [
  mkRegion UART0 PGSIZE UART0 RW; mkRegion VIRTIO0 PGSIZE VIRTIO0 RW; mkRegion PLIC 0x4000000 PLIC RW;
  mkRegion KERNBASE (etext - KERNBASE) KERNBASE RX; mkRegion etext (PHYSTOP - etext) etext RW;
  mkRegion TRAMPOLINE PGSIZE trampoline RX].
Definition stack_region (i : nat) (pa : Z) : kregion := mkRegion (KSTACK (Z.of_nat i)) PGSIZE pa RW.
Definition stack_regions stacks : list kregion := imap stack_region stacks.

Lemma find_snoc (f : kregion -> bool) rs r : List.find f (rs ++ [r]) =
  match List.find f rs with Some x => Some x | None => if f r then Some r else None end.
Proof. rewrite find_app. cbn. by destruct (List.find f rs). Qed.
Lemma find_none (f : kregion -> bool) rs : (forall r, r ∈ rs -> f r = false) -> List.find f rs = None.
Proof.
  induction rs as [|x rs IH]; intros Hf; [done|]. cbn. rewrite Hf by (by left). apply IH. intros r Hr. apply Hf. by right.
Qed.

(** ** The tables the regions need *)

(** The paths of all tables: the root; one second-level table for the devices,
    with 33 below it; one for RAM, with 64; two for the top of the space. *)
Definition kpaths : list (list Z) :=
  [[]; [0]; [2]; [255]; [255; 511]] ++ ((fun i => [0; i]) <$> seqZ 96 33) ++ ((fun i => [2; i]) <$> seqZ 0 64).
Definition NTABLES : nat := 102.
Lemma kpaths_length : length kpaths = NTABLES.
Proof. reflexivity. Qed.
Lemma kpaths_NoDup : NoDup kpaths.
Proof. apply (bool_decide_unpack _). vm_compute. exact I. Qed.

Lemma tables_bound t q : (forall q, is_Some (t !! q) -> q ∈ kpaths) -> q ∈ kpaths -> t !! q = None -> (size t < NTABLES)%nat.
Proof.
  intros Ht Hq Hn. rewrite <- kpaths_length, <- (size_list_to_set (C := gset (list Z)) kpaths) by apply kpaths_NoDup.
  rewrite <- size_dom. apply subset_size. split; [intros p Hp; apply elem_of_list_to_set, Ht; by apply elem_of_dom|].
  intros Hs. assert (q ∈ dom t) as Hd by (apply Hs; by apply elem_of_list_to_set). apply elem_of_dom in Hd as [? Hd]. congruence.
Qed.
Lemma tables_le t : (forall q, is_Some (t !! q) -> q ∈ kpaths) -> (size t <= NTABLES)%nat.
Proof.
  intros Ht. rewrite <- kpaths_length, <- (size_list_to_set (C := gset (list Z)) kpaths) by apply kpaths_NoDup.
  rewrite <- size_dom. apply subseteq_size. intros p Hp. apply elem_of_list_to_set, Ht. by apply elem_of_dom.
Qed.

(** The addresses whose tables are among them. *)
Definition low_va (va : Z) : Prop := 0x0c000000 <= va < 0x10200000.
Definition ram_va (va : Z) : Prop := KERNBASE <= va < PHYSTOP.
Definition top_va (va : Z) : Prop := TRAMPOLINE - 128 * PGSIZE <= va < MAXVA.
Lemma va_kpaths va q : low_va va \/ ram_va va \/ top_va va -> va_path va q -> q ∈ kpaths.
Proof.
  unfold va_path. destruct (PX_indices va) as (_ & -> & ->). unfold kpaths.
  rewrite !elem_of_app, !elem_of_cons, !list_elem_of_fmap. unfold low_va, ram_va, top_va, TRAMPOLINE, PHYSTOP, KERNBASE, PGSIZE.
  rewrite MAXVA_val. intros [Hva|[Hva|Hva]] Hq.
  - assert (va / 4096 / 512 / 512 mod 512 = 0) as E by (clear - Hva; Z.div_mod_to_equations; lia). rewrite E in Hq.
    assert (96 <= va / 4096 / 512 mod 512 < 129) as E1 by (clear - Hva; Z.div_mod_to_equations; lia).
    destruct Hq as [-> | ->]; [tauto|]. right. left. eexists. split; [done|]. apply elem_of_seqZ. lia.
  - assert (va / 4096 / 512 / 512 mod 512 = 2) as E by (clear - Hva; Z.div_mod_to_equations; lia). rewrite E in Hq.
    assert (0 <= va / 4096 / 512 mod 512 < 64) as E1 by (clear - Hva; Z.div_mod_to_equations; lia).
    destruct Hq as [-> | ->]; [tauto|]. right. right. eexists. split; [done|]. apply elem_of_seqZ. lia.
  - assert (va / 4096 / 512 / 512 mod 512 = 255) as E by (clear - Hva; Z.div_mod_to_equations; lia). rewrite E in Hq.
    assert (va / 4096 / 512 mod 512 = 511) as E1 by (clear - Hva; Z.div_mod_to_equations; lia). rewrite E1 in Hq.
    destruct Hq as [-> | ->]; tauto.
Qed.

(** ** Mapping a region *)

(** A table for the regions [rs]; [stacks] are pages taken from the free list
    [ps0] that it does not own, [k] more are to be taken.  Memory outside
    [ps0] is what it was in [s0]. *)
Record kmap (ps0 : list Z) (s0 : pm) (root : Z) (rs : list kregion) stacks (k : nat) t ps s : Prop := {
  km_pt : pt_inv root t ps s;
  km_paths : forall q, is_Some (t !! q) -> q ∈ kpaths;
  km_room : (NTABLES + k <= size t + length ps)%nat;
  km_pte : forall va, 0 <= va < MAXVA -> ptev (pm_mem s) t va = regions_pte rs va;
  km_pool : forall q, q ∈ ps0 <-> pool t ps q \/ q ∈ stacks;
  km_stacks : NoDup stacks /\ forall q, q ∈ stacks -> valid_page q /\ ~ pool t ps q;
  km_frame : forall x, (forall q, q ∈ ps0 -> x < q \/ q + PGSIZE <= x) -> pm_mem s x = pm_mem s0 x
}.

Record region_ok (rs : list kregion) (r : kregion) : Prop := {
  ro_va : rg_va r mod 4096 = 0 /\ 0 <= rg_va r /\ rg_va r + rg_size r <= MAXVA;
  ro_size : rg_size r mod 4096 = 0 /\ 0 < rg_size r;
  ro_pa : rg_pa r mod 4096 = 0 /\ 0 <= rg_pa r /\ rg_pa r + rg_size r <= 2 ^ 56;
  ro_perm : 0 <= rg_perm r < 1024;
  ro_new : forall va r', r' ∈ rs -> rg_va r <= va < rg_va r + rg_size r -> in_region va r' = false;
  ro_tables : forall va, rg_va r <= va < rg_va r + rg_size r -> low_va va \/ ram_va va \/ top_va va
}.

Lemma kvmmap_spec ps0 s0 root rs stacks k t ps s r : kmap ps0 s0 root rs stacks k t ps s -> region_ok rs r ->
  wp (kvmmap root (rg_va r) (rg_pa r) (rg_size r) (rg_perm r)) (fun _ s' =>
    exists t' ps', kmap ps0 s0 root (rs ++ [r]) stacks k t' ps' s') s.
Proof.
  intros [K1 K2 K3 K4 K5 K6 K7] [(Hva & Hva0 & Hmax) (Hsz & Hs0) (Hpa & Hpa0 & Hpmax) Hp Hnew Htab].
  assert (4096 * (rg_size r / 4096) = rg_size r) as Hn by (clear - Hsz; Z.div_mod_to_equations; lia).
  unfold kvmmap. wp_step. eapply wp_mono.
  { apply (mappages_spec root t ps s (rg_va r) (rg_size r) (rg_pa r) (rg_perm r) K1). split; try done.
    intros va' Hva'. rewrite K4 by lia. unfold regions_pte. rewrite find_none; [done|]. intros r' Hr'. by eapply Hnew. }
  intros x s1 (n & t1 & ps1 & Hi & [E1 E2 E3 E4 E5] & Hnp & Hmap & Hx).
  assert (forall q, range_path (rg_va r) (rg_size r / 4096) q -> q ∈ kpaths) as Hrange.
  { intros q (va' & Hva' & Hq). rewrite Hn in Hva'. by eapply va_kpaths; [apply Htab|]. }
  assert (forall q, is_Some (t1 !! q) -> q ∈ kpaths) as Hk1.
  { intros q Hq. destruct (Hnp q Hq); [by apply K2|by apply Hrange]. }
  destruct Hx as [[-> ->]|(-> & _ & -> & q & Hq & Hnone)].
  - rewrite Z.eqb_refl. cbn [negb]. apply wp_ret. exists t1, ps1. split; try done.
    + lia.
    + intros va' Hva'. rewrite Hmap by done. unfold regions_pte. rewrite find_snoc, Hn. unfold in_region at 2.
      case_decide as Hin.
      * rewrite find_none by (intros r' Hr'; by eapply Hnew). by rewrite bool_decide_eq_true_2.
      * rewrite bool_decide_eq_false_2 by done. rewrite K4 by done. unfold regions_pte. by destruct (List.find _ rs).
    + intros q. by rewrite K5, E2.
    + split; [apply K6|]. intros q Hq. rewrite E2. by apply K6.
    + intros y Hy. rewrite E4; [by apply K7|]. intros q Hq. apply Hy. apply K5. by left.
  - exfalso. pose proof (tables_bound t1 q Hk1 (Hrange q Hq) Hnone). cbn [length] in E5. lia.
Qed.

(** A page for a stack leaves the free list. *)
Lemma kalloc_stack ps0 s0 root rs stacks k t ps s : kmap ps0 s0 root rs stacks (S k) t ps s ->
  wp kalloc (fun pa s' => pa <> 0 /\ valid_page pa /\ exists ps', kmap ps0 s0 root rs (stacks ++ [pa]) k t ps' s') s.
Proof.
  intros [(Hk & Hr & Hd) K2 K3 K4 K5 [K6 K6'] K7]. destruct ps as [|p ps].
  { pose proof (tables_le t K2). cbn [length] in K3. lia. }
  eapply wp_mono; [by apply kalloc_spec|]. intros r s1 (-> & Hv & Hn & Hk1 & _ & Hf).
  pose proof (valid_page_pos _ Hv). split; [lia|]. split; [done|]. exists ps.
  assert (forall q, t !! q <> Some p) as Hnt by (intros q Hq; apply (Hd q p Hq); by left).
  assert (tables_same (pm_mem s) (pm_mem s1) t) as Ht by (by eapply (tables_apart root t (p :: ps) s p s1)).
  assert (~ pool t ps p) as Hnp by (intros [?|[q Hq]]; [done|by apply (Hnt q)]).
  split; try done.
  - split; [done|]. split; [by eapply rep_same|]. intros q a Hq Ha. apply (Hd q a Hq). by right.
  - cbn [length] in K3. lia.
  - intros va Hva. rewrite (ptev_same _ _ root t va Hr Ht). by apply K4.
  - intros q. rewrite K5, elem_of_app, list_elem_of_singleton. unfold pool. rewrite elem_of_cons. tauto.
  - split.
    + apply NoDup_app. split; [done|]. split; [|apply NoDup_singleton]. intros q Hq ->%list_elem_of_singleton.
      apply (proj2 (K6' p Hq)). left. by left.
    + intros q [Hq| ->%list_elem_of_singleton]%elem_of_app; [|done]. destruct (K6' q Hq) as [? Hnq]. split; [done|].
      intros Hpq. apply Hnq. destruct Hpq as [?|?]; [left; by right|by right].
  - intros x Hx. rewrite Hf; [by apply K7|]. apply Hx, K5. left. left. by left.
Qed.

(** ** proc_mapstacks *)

Lemma KSTACK_val i : KSTACK i = 274877906944 - 4096 - (i + 1) * 2 * 4096.
Proof. unfold KSTACK, TRAMPOLINE, PGSIZE. by rewrite MAXVA_val. Qed.
Lemma stack_regions_snoc stacks pa : stack_regions (stacks ++ [pa]) = stack_regions stacks ++ [stack_region (length stacks) pa].
Proof. unfold stack_regions. rewrite imap_app. cbn. by rewrite Nat.add_0_r. Qed.
Lemma elem_stack_regions r stacks : r ∈ stack_regions stacks -> exists i pa, stacks !! i = Some pa /\ r = stack_region i pa.
Proof. unfold stack_regions. intros (i & pa & -> & Hi)%elem_of_lookup_imap_1. eauto. Qed.

Lemma stack_region_ok stacks pa : (length stacks < 64)%nat -> valid_page pa ->
  region_ok (base_regions ++ stack_regions stacks) (stack_region (length stacks) pa).
Proof.
  intros Hl Hv. pose proof (valid_page_pa_ok pa Hv) as [Hal Hpa]. pose proof (valid_page_end pa Hv) as He.
  pose proof etext_range. pose proof kend_high. unfold PHYSTOP, KERNBASE in *.
  split; unfold stack_region; cbn [rg_va rg_size rg_pa rg_perm]; rewrite ?KSTACK_val; unfold PGSIZE in *.
  - rewrite MAXVA_val. split; [|lia]. replace (274877906944 - 4096 - (Z.of_nat (length stacks) + 1) * 2 * 4096) with ((67108863 - (Z.of_nat (length stacks) + 1) * 2) * 4096) by lia.
    by rewrite Z.mod_mul.
  - done.
  - lia.
  - done.
  - intros va r' [Hr|Hr]%elem_of_app Hva.
    + unfold base_regions in Hr. rewrite !elem_of_cons in Hr. unfold in_region. apply bool_decide_eq_false.
      destruct Hr as [->|[->|[->|[->|[->|[->|Hr]]]]]]; [..|by apply elem_of_nil in Hr]; cbn [rg_va rg_size];
        unfold UART0, VIRTIO0, PLIC, KERNBASE, PHYSTOP, TRAMPOLINE, PGSIZE, KERNBASE; rewrite ?MAXVA_val; lia.
    + apply elem_stack_regions in Hr as (i & q & Hi & ->). apply lookup_lt_Some in Hi. unfold in_region, stack_region.
      cbn [rg_va rg_size]. rewrite KSTACK_val. unfold PGSIZE. apply bool_decide_eq_false. lia.
  - intros va Hva. right. right. unfold top_va, TRAMPOLINE, PGSIZE. rewrite MAXVA_val. lia.
Qed.

Lemma proc_mapstacks_spec ps0 s0 root t ps s : kmap ps0 s0 root base_regions [] (Z.to_nat NPROC) t ps s ->
  wp (proc_mapstacks root) (fun _ s' => exists t' ps' stacks, length stacks = Z.to_nat NPROC /\
    kmap ps0 s0 root (base_regions ++ stack_regions stacks) stacks 0 t' ps' s') s.
Proof.
  intros HK. unfold proc_mapstacks.
  pose (I := fun (i : Z) (s : pm) => exists t ps stacks, Z.of_nat (length stacks) = i /\
    kmap ps0 s0 root (base_regions ++ stack_regions stacks) stacks (Z.to_nat (NPROC - i)) t ps s).
  eapply wp_mono; [apply (wp_for_range I)|].
  - exists t, ps, []. done.
  - intros i s1 Hi (t1 & ps1 & st & Hl & HK1). change (0 + Z.of_nat (Z.to_nat NPROC)) with 64 in Hi.
    replace (Z.to_nat (NPROC - i)) with (S (Z.to_nat (NPROC - (i + 1)))) in HK1 by (change NPROC with 64; lia).
    wp_step. eapply wp_mono; [apply (kalloc_stack _ _ _ _ _ _ _ _ _ HK1)|].
    intros pa s2 (Hpa & Hv & ps2 & HK2). rewrite (proj2 (Z.eqb_neq pa 0)) by done.
    assert (length st < 64)%nat as Hlt by lia. rewrite <- Hl.
    eapply wp_mono; [apply (kvmmap_spec ps0 s0 root _ _ _ t1 ps2 s2 (stack_region (length st) pa) HK2); by apply stack_region_ok|].
    intros _ s3 (t3 & ps3 & HK3). exists t3, ps3, (st ++ [pa]). split; [rewrite length_app; cbn; lia|].
    rewrite stack_regions_snoc, (assoc_L (++)). by rewrite Hl.
  - intros _ s1 (t1 & ps1 & st & Hl & HK1). exists t1, ps1, st. change (0 + Z.of_nat (Z.to_nat NPROC)) with 64 in *.
    split; [change NPROC with 64; lia|]. done.
Qed.

(** ** kvmmake *)

(** The pages it takes: a table each of [NTABLES], a page for each stack. *)
Definition kernel_pages : nat := 166.

Lemma root_table ps s p : kmem_inv (p :: ps) s ->
  wp kalloc (fun r s1 => r = p /\ let s' := set_mem (memset (pm_mem s1) p 0 PGSIZE) s1 in
    pt_inv p {[ [] := p ]} ps s' /\ (forall va, ptev (pm_mem s') {[ [] := p ]} va = 0) /\
    forall x, x < p \/ p + PGSIZE <= x -> pm_mem s' x = pm_mem s x) s.
Proof.
  intros Hk. eapply wp_mono; [by apply kalloc_spec|]. intros r s1 (-> & Hv & Hnin & Hk1 & _ & Hm1).
  pose proof (valid_page_pos _ Hv). split; [done|]. intros s'. assert (forall q, q ∈ ps -> q <> p) as Hne by (by intros q Hq ->).
  split; [split; [|split]|split].
  - apply kmem_inv_frame; [done|apply memset_mem_ok; [done|by destruct Hk1 as (_ & ? & _)]|].
    intros q x Hq Hx. apply memset_out; [done|]. eapply (page_out _ q); [done|by eapply free_valid|by apply not_eq_sym, Hne|done].
  - apply zero_page_rep; [done|]. intros x Hx. cbn. by apply memset_in.
  - intros q a Hq. by apply lookup_singleton_Some in Hq as [_ <-].
  - intros va. unfold ptev, leaf. by rewrite lookup_singleton_ne.
  - intros x Hx. cbn. rewrite memset_out by (done || lia). by apply Hm1.
Qed.

Lemma base_region_ok i r : kend < PHYSTOP -> base_regions !! i = Some r -> region_ok (take i base_regions) r.
Proof.
  intros Hk Hi. pose proof etext_range. pose proof kend_high. pose proof etext_aligned. pose proof trampoline_range. pose proof trampoline_aligned.
  unfold PHYSTOP, KERNBASE, PGSIZE in *.
  destruct i as [|[|[|[|[|[|]]]]]]; [injection Hi as <- ..|done];
    (split; cbn [rg_va rg_size rg_pa rg_perm];
      unfold UART0, VIRTIO0, PLIC, PHYSTOP, TRAMPOLINE, KERNBASE, PGSIZE; rewrite ?MAXVA_val;
      [| |split; [|lia]|done| |]); try done; try lia.
  all: try (intros va Hva; unfold low_va, ram_va, top_va, TRAMPOLINE, PHYSTOP, KERNBASE, PGSIZE; rewrite MAXVA_val; lia).
  all: try (split; [|lia]; clear -H3; Z.div_mod_to_equations; lia).
  all: intros va r' Hr Hva; cbn [take base_regions] in Hr; rewrite ?elem_of_cons in Hr; unfold in_region; apply bool_decide_eq_false;
    repeat destruct Hr as [->|Hr]; try (by apply elem_of_nil in Hr);
    cbn [rg_va rg_size]; unfold UART0, VIRTIO0, PLIC, KERNBASE, PHYSTOP, TRAMPOLINE, PGSIZE, KERNBASE; rewrite ?MAXVA_val; lia.
Qed.

Lemma kvmmap_base ps0 s0 root k i r t ps s : kend < PHYSTOP -> base_regions !! i = Some r ->
  kmap ps0 s0 root (take i base_regions) [] k t ps s ->
  wp (kvmmap root (rg_va r) (rg_pa r) (rg_size r) (rg_perm r)) (fun _ s' =>
    exists t' ps', kmap ps0 s0 root (take (S i) base_regions) [] k t' ps' s') s.
Proof.
  intros Hk Hi HK. eapply wp_mono; [apply (kvmmap_spec _ _ _ _ _ _ _ _ _ r HK); by eapply base_region_ok|].
  intros _ s' (t' & ps' & HK'). exists t', ps'. by rewrite (take_S_r _ _ _ Hi).
Qed.

Local Ltac map_next Hend HK i r :=
  eapply wp_mono; [exact (kvmmap_base _ _ _ _ i r _ _ _ Hend eq_refl HK)|]; clear HK; intros _ ? (? & ? & HK).
Lemma kvmmake_spec ps s : kmem_inv ps s -> (kernel_pages <= length ps)%nat ->
  wp kvmmake (fun root s' => exists t ps' stacks, length stacks = Z.to_nat NPROC /\
    kmap ps s root (base_regions ++ stack_regions stacks) stacks 0 t ps' s') s.
Proof.
  intros Hk Hlen. unfold kernel_pages in Hlen. destruct ps as [|p ps]; [cbn in Hlen; lia|].
  assert (kend < PHYSTOP) as Hend. { destruct (free_valid _ _ p Hk ltac:(by left)) as [_ ?]. lia. }
  unfold kvmmake, mem_op. wp_step. eapply wp_mono; [by apply root_table|]. intros root s1 (-> & Hi & Hz & Hf).
  set (s2 := set_mem (memset (pm_mem s1) p 0 PGSIZE) s1) in *. do 2 wp_step. change (set_mem _ s1) with s2.
  assert (kmap (p :: ps) s p (take 0 base_regions) [] (Z.to_nat NPROC) {[ [] := p ]} ps s2) as HK.
  { split; try done.
    - intros q [a Hq]. apply lookup_singleton_Some in Hq as [<- _]. by left.
    - intros q. rewrite elem_of_nil, elem_of_cons. unfold pool. split.
      + intros [->|Hq]; left; [right; exists []; by rewrite lookup_singleton_eq|by left].
      + intros [[Hq|[q' Hq]]|[]]; [by right|]. apply lookup_singleton_Some in Hq as [_ <-]. by left.
    - split; [constructor|]. intros q Hq. by apply elem_of_nil in Hq.
    - intros x Hx. apply Hf. apply Hx. by left. }
  wp_step; map_next Hend HK 0%nat (mkRegion UART0 PGSIZE UART0 RW).
  wp_step; map_next Hend HK 1%nat (mkRegion VIRTIO0 PGSIZE VIRTIO0 RW).
  wp_step; map_next Hend HK 2%nat (mkRegion PLIC 0x4000000 PLIC RW).
  wp_step; map_next Hend HK 3%nat (mkRegion KERNBASE (etext - KERNBASE) KERNBASE RX).
  wp_step; map_next Hend HK 4%nat (mkRegion etext (PHYSTOP - etext) etext RW).
  wp_step; map_next Hend HK 5%nat (mkRegion TRAMPOLINE PGSIZE trampoline RX).
  wp_step. eapply wp_mono; [exact (proc_mapstacks_spec _ _ _ _ _ _ HK)|]. intros _ s9 (t & ps' & st & Hl & HK9). apply wp_ret.
  by exists t, ps', st.
Qed.

(** ** Translation *)

(** What the hardware makes of an address with this table in satp: the
    physical address and the flags of the entry, if it is valid. *)
Definition translate (root va : Z) (s : pm) : option (Z * Z) :=
  match walk root va false s with
  | Ret x _ =>
      if x =? 0 then None else
      let pte := load64 (pm_mem s) x in
      if has pte PTE_V then Some (PTE2PA pte + va mod PGSIZE, PTE_FLAGS pte) else None
  | _ => None
  end.
Lemma translate_ptev root t s va : pt_rep (pm_mem s) root t -> va < MAXVA ->
  translate root va s = (let v := ptev (pm_mem s) t va in
    if has v PTE_V then Some (PTE2PA v + va mod PGSIZE, PTE_FLAGS v) else None).
Proof.
  intros Hr Hva. unfold translate, ptev. rewrite (walk_read root t) by done. destruct (leaf t va) as [x|] eqn:E; [|done].
  pose proof (leaf_pos root t s va x Hr E). cbn [default from_option id]. by rewrite (proj2 (Z.eqb_neq x 0)) by lia.
Qed.

Lemma regions_first rs r l va : region_ok rs r -> in_region va r = true ->
  regions_pte (rs ++ r :: l) va = mapped_pte (rg_va r) (rg_pa r) (rg_perm r) va.
Proof.
  intros Hr Hin. unfold regions_pte. assert (List.find (in_region va) (rs ++ r :: l) = Some r) as ->; [|done].
  assert (forall r', r' ∈ rs -> in_region va r' = false) as Hn.
  { intros r' Hr'. eapply ro_new; [exact Hr|done|]. unfold in_region in Hin. by apply bool_decide_eq_true in Hin. }
  clear Hr. induction rs as [|x rs IH]; cbn; [by rewrite Hin|]. rewrite Hn by (by left). apply IH. intros r' Hr'. apply Hn. by right.
Qed.
Lemma translate_region root t s rs r l va : pt_rep (pm_mem s) root t -> 0 <= va < MAXVA ->
  ptev (pm_mem s) t va = regions_pte (rs ++ r :: l) va -> region_ok rs r -> rg_va r <= va < rg_va r + rg_size r ->
  translate root va s = Some (rg_pa r + (va - rg_va r), Z.lor (rg_perm r) PTE_V).
Proof.
  intros Hr Hva Hp Hok Hin. rewrite (translate_ptev root t) by (done || lia). rewrite Hp, regions_first by (done || by apply bool_decide_eq_true).
  destruct Hok as [(Hal & _ & _) _ (Hpal & Hpa & Hpmax) Hperm _ _]. unfold mapped_pte. cbn zeta. rewrite has_V_lor, <- Z.lor_assoc.
  assert (pa_ok (rg_pa r + (va / 4096 * 4096 - rg_va r))) as Hpok.
  { unfold pa_ok. clear - Hal Hpal Hpa Hpmax Hin. Z.div_mod_to_equations. lia. }
  rewrite PTE2PA_build, PTE_FLAGS_build by (done || by apply mapped_flags). do 2 f_equal. unfold PGSIZE.
  rewrite Z.mod_eq by done. lia.
Qed.

(** The address space of the kernel, as a reader of memlayout.h expects it. *)
Definition device_va (va : Z) : Prop :=
  UART0 <= va < UART0 + PGSIZE \/ VIRTIO0 <= va < VIRTIO0 + PGSIZE \/ PLIC <= va < PLIC + 0x4000000.
Record kernel_space (tr : Z -> option (Z * Z)) stacks : Prop := {
  ks_device va : device_va va -> tr va = Some (va, Z.lor RW PTE_V);
  ks_text va : KERNBASE <= va < etext -> tr va = Some (va, Z.lor RX PTE_V);
  ks_data va : etext <= va < PHYSTOP -> tr va = Some (va, Z.lor RW PTE_V);
  ks_trampoline va : TRAMPOLINE <= va < MAXVA -> tr va = Some (trampoline + (va - TRAMPOLINE), Z.lor RX PTE_V);
  ks_stack i pa va : stacks !! i = Some pa -> KSTACK (Z.of_nat i) <= va < KSTACK (Z.of_nat i) + PGSIZE ->
    tr va = Some (pa + (va - KSTACK (Z.of_nat i)), Z.lor RW PTE_V);
  ks_guard i va : 0 <= i < NPROC ->
    KSTACK i - PGSIZE <= va < KSTACK i \/ KSTACK i + PGSIZE <= va < KSTACK i + 2 * PGSIZE -> tr va = None;
  ks_else va : 0 <= va < MAXVA -> ~ device_va va -> ~ (KERNBASE <= va < PHYSTOP) -> ~ (KSTACK (NPROC - 1) <= va) -> tr va = None
}.

Lemma regions_none stacks va : (forall r, r ∈ base_regions ++ stack_regions stacks -> in_region va r = false) ->
  regions_pte (base_regions ++ stack_regions stacks) va = 0.
Proof. intros Hn. unfold regions_pte. by rewrite find_none. Qed.

Ltac map_consts := unfold device_va, UART0, VIRTIO0, PLIC, KERNBASE, PHYSTOP, TRAMPOLINE, PGSIZE, KERNBASE in *;
  rewrite ?KSTACK_val, ?MAXVA_val in *.
Lemma device_bounds va : device_va va -> 0 <= va < MAXVA.
Proof. map_consts. lia. Qed.
(** No region holds an address below a stack, or outside all areas. *)
Lemma regions_free va stacks : (length stacks <= 64)%nat -> ~ device_va va -> ~ (KERNBASE <= va < PHYSTOP) ->
  ~ (TRAMPOLINE <= va < MAXVA) -> (forall i, 0 <= i < 64 -> ~ (KSTACK i <= va < KSTACK i + PGSIZE)) ->
  forall r, r ∈ base_regions ++ stack_regions stacks -> in_region va r = false.
Proof.
  intros Hl Hd Hram Htop Hst r Hr. pose proof etext_range. pose proof kend_high. unfold in_region. apply bool_decide_eq_false.
  apply elem_of_app in Hr as [Hr|Hr].
  - unfold base_regions in Hr. rewrite !elem_of_cons in Hr. repeat destruct Hr as [->|Hr]; try (by apply elem_of_nil in Hr);
      cbn [rg_va rg_size]; map_consts; lia.
  - apply elem_stack_regions in Hr as (i & pa & Hi & ->). apply lookup_lt_Some in Hi. apply Hst. lia.
Qed.
Lemma guard_free i va stacks : (length stacks <= 64)%nat -> 0 <= i < 64 ->
  KSTACK i - PGSIZE <= va < KSTACK i \/ KSTACK i + PGSIZE <= va < KSTACK i + 2 * PGSIZE ->
  forall r, r ∈ base_regions ++ stack_regions stacks -> in_region va r = false.
Proof.
  intros Hl Hi Hva. apply regions_free; [done|..]; try (intros j Hj); map_consts; lia.
Qed.

Lemma kmap_space ps0 s0 root stacks t ps s : kend < PHYSTOP -> length stacks = Z.to_nat NPROC ->
  kmap ps0 s0 root (base_regions ++ stack_regions stacks) stacks 0 t ps s ->
  kernel_space (fun va => translate root va s) stacks.
Proof.
  intros Hend Hlen [(Hk & Hr & _) _ _ Hpte _ [_ Hst] _]. change (Z.to_nat NPROC) with 64%nat in Hlen.
  pose proof etext_range. pose proof kend_high. unfold PHYSTOP, KERNBASE in *.
  assert (forall i r va, base_regions !! i = Some r -> 0 <= va < MAXVA -> rg_va r <= va < rg_va r + rg_size r ->
    translate root va s = Some (rg_pa r + (va - rg_va r), Z.lor (rg_perm r) PTE_V)) as Hbase.
  { intros i r va Hi Hva Hin. apply (translate_region root t s (take i base_regions) r (drop (S i) base_regions ++ stack_regions stacks)); try done.
    - rewrite Hpte by done. f_equal. rewrite app_comm_cons, (assoc_L (++)). f_equal. by rewrite take_drop_middle.
    - by apply base_region_ok. }
  assert (forall i pa va, stacks !! i = Some pa -> KSTACK (Z.of_nat i) <= va < KSTACK (Z.of_nat i) + PGSIZE ->
    translate root va s = Some (pa + (va - KSTACK (Z.of_nat i)), Z.lor RW PTE_V)) as Hstack.
  { intros i pa va Hi Hva. pose proof (lookup_lt_Some _ _ _ Hi) as Hl. assert (length (take i stacks) = i) as Hti by (rewrite length_take; lia).
    pose proof (Hst pa ltac:(by eapply list_elem_of_lookup_2)) as [Hv _].
    apply (translate_region root t s (base_regions ++ stack_regions (take i stacks)) (stack_region i pa)
      (imap (fun j => stack_region (i + S j)) (drop (S i) stacks))); try done.
    - rewrite KSTACK_val in Hva. unfold PGSIZE in Hva. rewrite MAXVA_val. lia.
    - rewrite Hpte by (rewrite KSTACK_val in Hva; unfold PGSIZE in Hva; rewrite MAXVA_val; lia). f_equal.
      rewrite <- (assoc_L (++)). f_equal. unfold stack_regions. rewrite <- (take_drop_middle stacks i pa Hi) at 1.
      rewrite imap_app, imap_cons, Hti. cbn. rewrite Nat.add_0_r. done.
    - rewrite <- Hti at 2. apply stack_region_ok; [lia|done]. }
  assert (forall va, 0 <= va < MAXVA -> (forall r, r ∈ base_regions ++ stack_regions stacks -> in_region va r = false) ->
    translate root va s = None) as Hnone.
  { intros va Hva Hn. rewrite (translate_ptev root t) by (done || lia). by rewrite Hpte, regions_none. }
  split.
  - intros va [Hva|[Hva|Hva]]; [rewrite (Hbase 0%nat _ va eq_refl)|rewrite (Hbase 1%nat _ va eq_refl)|rewrite (Hbase 2%nat _ va eq_refl)];
      cbn [rg_va rg_size rg_pa rg_perm]; try (apply device_bounds; unfold device_va; tauto); try done; do 2 f_equal; lia.
  - intros va Hva. rewrite (Hbase 3%nat _ va eq_refl); cbn [rg_va rg_size rg_pa rg_perm]; map_consts; try lia. do 2 f_equal; lia.
  - intros va Hva. rewrite (Hbase 4%nat _ va eq_refl); cbn [rg_va rg_size rg_pa rg_perm]; map_consts; try lia. do 2 f_equal; lia.
  - intros va Hva. rewrite (Hbase 5%nat _ va eq_refl); cbn [rg_va rg_size rg_pa rg_perm]; try done; unfold TRAMPOLINE, PGSIZE in *; rewrite MAXVA_val in *; lia.
  - exact Hstack.
  - intros i va Hi Hva. apply Hnone; [|apply (guard_free i); [lia|done|done]].
    change NPROC with 64 in Hi. rewrite KSTACK_val in Hva. unfold PGSIZE in Hva. rewrite MAXVA_val. lia.
  - intros va Hva Hd Hram Htop. apply Hnone; [done|]. apply regions_free; [lia|done|done| |]; try (intros i Hi); change NPROC with 64 in *; map_consts; lia.
Qed.

(** ** kvminit and kvminithart *)

(** Memory, the global kernel_pagetable and each CPU's satp. *)
Record kvm := mkKvm { kv_pm : pm; kernel_pagetable : Z; kv_satp : nat -> Z }.
Definition kv_pmL : lens kvm pm := Lens kv_pm (fun p w => mkKvm p (kernel_pagetable w) (kv_satp w)).
Definition kvminit : M kvm unit :=
  let* p := zoom kv_pmL kvmmake in modify (fun w => mkKvm (kv_pm w) p (kv_satp w)).
(** The two sfence_vma order the store to satp with other accesses. *)
Definition kvminithart (hart : nat) : M kvm unit :=
  modify (fun w => mkKvm (kv_pm w) (kernel_pagetable w) (upd (kv_satp w) hart (MAKE_SATP (kernel_pagetable w)))).

(** The fields of satp as the privileged architecture has them. *)
Definition satp_mode (satp : Z) : Z := Z.shiftr satp 60.
Definition satp_root (satp : Z) : Z := Z.shiftl (Z.land satp (Z.ones 44)) 12.
Lemma MAKE_SATP_fields root : pa_ok root -> satp_mode (MAKE_SATP root) = 8 /\ satp_root (MAKE_SATP root) = root.
Proof.
  intros [Hal Hr]. unfold satp_mode, satp_root, MAKE_SATP, SATP_SV39. split.
  - rewrite Z.shiftr_lor, Z.shiftr_shiftr by lia. rewrite (Z.shiftr_div_pow2 root), Z.div_small by lia. done.
  - rewrite Z.land_lor_distr_l. change (Z.land (Z.shiftl 8 60) (Z.ones 44)) with 0. rewrite Z.lor_0_l, Z.land_ones by lia.
    rewrite Z.shiftr_div_pow2, Z.shiftl_mul_pow2 by lia. change (2 ^ 12) with 4096. rewrite Z.mod_small.
    + clear - Hal. Z.div_mod_to_equations. lia.
    + split; [apply Z.div_pos; lia|apply Z.div_lt_upper_bound; lia].
Qed.

(** All usable pages, counted from the end of RAM. *)
Lemma enough_pages ps n : (forall q, valid_page q -> q ∈ ps) -> kend + Z.of_nat n * PGSIZE <= PHYSTOP -> (n <= length ps)%nat.
Proof.
  intros Hps Hroom. pose (l := (fun i => PHYSTOP - (i + 1) * PGSIZE) <$> seqZ 0 (Z.of_nat n)).
  assert (length l = n) as Hl by (unfold l; rewrite length_fmap, length_seqZ; lia). rewrite <- Hl.
  apply submseteq_length, NoDup_submseteq.
  - unfold l. apply NoDup_fmap_2; [intros i j; unfold PGSIZE; lia|apply NoDup_seqZ].
  - intros q (i & -> & Hi)%list_elem_of_fmap. apply elem_of_seqZ in Hi. apply Hps. split.
    + replace (PHYSTOP - (i + 1) * PGSIZE) with ((557056 - (i + 1)) * PGSIZE) by (unfold PHYSTOP, KERNBASE, PGSIZE; lia).
      by apply Z.mod_mul.
    + unfold PGSIZE in *. lia.
Qed.
End KernMap.

(** C13: the kernel's address space.  On any machine whose RAM has room for 166
    pages above the kernel, kinit, kvminit and kvminithart return, and the
    table satp then points to maps the devices and RAM to themselves, the
    text executable and not writable, everything else writable and not
    executable, the trampoline page at the top, and a page of its own for the
    stack of each process between two unmapped pages, and nothing else;
    nothing is accessible to user mode. *)
Theorem kernel_address_space `{LinkerOk} m lk kpt satp hart : mem_ok m -> kend + Z.of_nat kernel_pages * PGSIZE <= PHYSTOP ->
  wp (zoom kv_pmL kinit ;; kvminit ;; kvminithart hart) (fun _ s' => exists stacks,
    length stacks = Z.to_nat NPROC /\ NoDup stacks /\ Forall valid_page stacks /\
    satp_mode (kv_satp s' hart) = 8 /\ satp_root (kv_satp s' hart) = kernel_pagetable s' /\
    kernel_space (fun va => translate (kernel_pagetable s') va (kv_pm s')) stacks)
  (mkKvm (mkPm m lk 0) kpt satp).
Proof.
  intros Hm Hroom. assert (kend < PHYSTOP) as Hend by (unfold kernel_pages, PGSIZE in Hroom; lia).
  wp_step; wp_step. eapply wp_mono; [by apply kinit_free_pages|]. intros _ s1 (ps & Hk & Hps).
  pose proof (enough_pages ps kernel_pages (fun q Hq => proj2 (Hps q) Hq) Hroom) as Hlen.
  unfold kvminit. wp_step; wp_step; wp_step. eapply wp_mono; [by apply (kvmmake_spec ps s1)|].
  intros root s2 (t & ps' & stacks & Hl & HK). unfold kvminithart. do 2 wp_step. exists stacks. cbn.
  pose proof HK as [(_ & Hr & _) _ _ _ _ [Hnd Hst] _]. rewrite upd_eq.
  destruct (MAKE_SATP_fields root) as [H1 H2]; [eapply valid_page_pa_ok, rep_page; [done|by eapply rep_root]|].
  split; [done|]. split; [done|]. split; [rewrite Forall_forall; intros q Hq; by apply Hst|]. split; [done|]. split; [done|].
  by eapply kmap_space.
Qed.

Module KernMapWitness.
#[local] Instance syms : LinkerSyms :=
  {| kend := KERNBASE + 64 * PGSIZE; etext := KERNBASE + 16 * PGSIZE; trampoline := KERNBASE |}.
#[local] Instance syms_ok : LinkerOk.
Proof. constructor; vm_compute; try split; congruence. Qed.
Lemma kernel_address_space_witness :
  wp (zoom kv_pmL kinit ;; kvminit ;; kvminithart 0) (fun _ s' => exists stacks,
    length stacks = Z.to_nat NPROC /\ NoDup stacks /\ Forall valid_page stacks /\
    satp_mode (kv_satp s' 0%nat) = 8 /\ satp_root (kv_satp s' 0%nat) = kernel_pagetable s' /\
    kernel_space (fun va => translate (kernel_pagetable s') va (kv_pm s')) stacks)
  (mkKvm (mkPm (fun _ => 0) false 0) 0 (fun _ => 0)).
Proof.
  apply (kernel_address_space (fun _ => 0) false 0 (fun _ => 0) 0).
  - intros x. split; reflexivity || (intros E; discriminate E).
  - vm_compute. intros E. discriminate E.
Defined.
End KernMapWitness.
