(* ===== verification/Resource.v ===== *)
(** * Owning two pages, three ways

    The experiment of kernel/bench_resource_*: functions that acquire two
    resources and release them on every failing path, written with manual
    releases in C (A) and C++ (B), and with an owner class whose destructor
    releases (C, kernel/unique_page.hpp).  The three are the same function of
    any allocator; with the ledger of bench_resource_ledger.c they pass the
    checks of the harness. *)

From Stdlib Require Import ZArith Lia FunctionalExtensionality.
From stdpp Require Import gmap.
From S2P Require Import Prelude Mem StringC Params Kalloc Vm VmBits PageTable.

Definition EP1_OK : Z := 0.
Definition EP1_FAIL_FIRST : Z := 1.
Definition EP1_FAIL_SECOND : Z := 2.
Definition EP1_EARLY_FAIL : Z := 3.

(** What a call returns: its code and what it stored at out1 and out2. *)
Notation answer := (Z * Z * Z)%type.

(** An allocator of resources: what the entry points are compiled against. *)
Class Allocator (S : Type) := {
  acquire_fn : M S Z;
  free_fn : Z -> M S unit;
  touch : Z -> M S unit;      (* EP1_TOUCH *)
}.

Section Styles.
Context {S : Type} `{Allocator S}.

(** ** Manual releases: a_real_success and its five variants *)

Definition manual_success : M S answer :=
  let* p1 := acquire_fn in
  if p1 =? 0 then ret (EP1_FAIL_FIRST, 0, 0) else
  touch p1 ;;
  let* p2 := acquire_fn in
  if p2 =? 0 then free_fn p1 ;; ret (EP1_FAIL_SECOND, 0, 0) else
  touch p2 ;;
  ret (EP1_OK, p1, p2).

Definition manual_early_fail : M S answer :=
  let* p1 := acquire_fn in
  if p1 =? 0 then ret (EP1_FAIL_FIRST, 0, 0) else
  touch p1 ;;
  let* p2 := acquire_fn in
  if p2 =? 0 then free_fn p1 ;; ret (EP1_FAIL_SECOND, 0, 0) else
  touch p2 ;;
  free_fn p2 ;;
  free_fn p1 ;;
  ret (EP1_EARLY_FAIL, 0, 0).

Definition manual_test (force_early_fail : bool) : M S answer :=
  let* p1 := acquire_fn in
  if p1 =? 0 then ret (EP1_FAIL_FIRST, 0, 0) else
  touch p1 ;;
  let* p2 := acquire_fn in
  if p2 =? 0 then free_fn p1 ;; ret (EP1_FAIL_SECOND, 0, 0) else
  touch p2 ;;
  if force_early_fail then free_fn p2 ;; free_fn p1 ;; ret (EP1_EARLY_FAIL, 0, 0)
  else ret (EP1_OK, p1, p2).

(** ** UniqueResource of kernel/unique_page.hpp *)

(** An owner is its [ptr_].  [scoped]: the object is alive during the body,
    which gives its final value; the destructor runs when the scope ends. *)
Definition destroy (ptr : Z) : M S unit := if negb (ptr =? 0) then free_fn ptr else ret tt.
Definition scoped {R} (body : M S (R * Z)) : M S R := let* r := body in destroy r.2 ;; ret r.1.
(** release() and the move constructor: the value and the emptied source. *)
Definition release_owner (ptr : Z) : Z * Z := (ptr, 0).
Definition move_owner (ptr : Z) : Z * Z := (ptr, 0).

Definition owner_success : M S answer :=
  let* a := acquire_fn in
  scoped
    (if a =? 0 then ret ((EP1_FAIL_FIRST, 0, 0), a) else
     touch a ;;
     let* b := acquire_fn in
     scoped
       (if b =? 0 then ret (((EP1_FAIL_SECOND, 0, 0), a), b) else
        touch b ;;
        let '(out1, a) := release_owner a in
        let '(out2, b) := release_owner b in
        ret (((EP1_OK, out1, out2), a), b))).

Definition owner_early_fail : M S answer :=
  let* a := acquire_fn in
  scoped
    (if a =? 0 then ret ((EP1_FAIL_FIRST, 0, 0), a) else
     touch a ;;
     let* b := acquire_fn in
     scoped
       (if b =? 0 then ret (((EP1_FAIL_SECOND, 0, 0), a), b) else
        touch b ;;
        ret (((EP1_EARLY_FAIL, 0, 0), a), b))).

Definition owner_test (force_early_fail : bool) : M S answer :=
  let* a := acquire_fn in
  scoped
    (if a =? 0 then ret ((EP1_FAIL_FIRST, 0, 0), a) else
     touch a ;;
     let* b := acquire_fn in
     scoped
       (if b =? 0 then ret (((EP1_FAIL_SECOND, 0, 0), a), b) else
        touch b ;;
        if force_early_fail then ret (((EP1_EARLY_FAIL, 0, 0), a), b)
        else
          let '(out1, a) := release_owner a in
          let '(out2, b) := release_owner b in
          ret (((EP1_OK, out1, out2), a), b))).

(** The scope of an owner: what the destructor does on each way out. *)
Lemma scoped_ret {R} (r : R) p : scoped (ret (r, p)) = bind (destroy p) (fun _ => ret r).
Proof. done. Qed.
Lemma scoped_bind {A R} (m : M S A) (k : A -> M S (R * Z)) : scoped (bind m k) = bind m (fun x => scoped (k x)).
Proof. unfold scoped. by rewrite bind_assoc. Qed.
Lemma destroy_null {A} (k : unit -> M S A) : bind (destroy 0) k = k tt.
Proof. done. Qed.
Lemma destroy_full {A} p (k : unit -> M S A) : p <> 0 -> bind (destroy p) k = bind (free_fn p) k.
Proof. intros Hp. unfold destroy. by rewrite (proj2 (Z.eqb_neq p 0)). Qed.
End Styles.

(** Proofs about nested scopes: push the scope inwards to the returns. *)
Ltac owner_step :=
  match goal with
  | |- context [scoped (bind _ _)] => rewrite scoped_bind
  | |- context [scoped (ret _)] => rewrite scoped_ret
  | |- context [bind (destroy 0) _] => rewrite destroy_null
  | |- context [bind (destroy _) _] => rewrite destroy_full by assumption
  | |- context [bind (bind _ _) _] => rewrite bind_assoc
  | |- context [bind (ret _) _] => rewrite bind_ret_l
  | |- bind _ _ = bind _ _ => apply bind_ext; intro
  | |- context [?p =? 0] => destruct (Z.eqb_spec p 0); subst
  | |- context [if ?b then _ else _] => destruct b
  end.
Ltac owner_solve := repeat owner_step; try reflexivity.

(** The three styles are one function of the allocator. *)
Lemma styles_agree {S} `{Allocator S} :
  owner_success = manual_success /\ owner_early_fail = manual_early_fail /\ forall force, owner_test force = manual_test force.
Proof.
  split; [|split].
  - unfold owner_success, manual_success, release_owner. owner_solve.
  - unfold owner_early_fail, manual_early_fail. owner_solve.
  - intros force. unfold owner_test, manual_test, release_owner. owner_solve.
Qed.

(** ** The three backends *)

Section Backends.
Context `{LinkerSyms}.

(** kalloc and kfree: UniquePage, and the *_real_* functions. *)
#[export] Instance page_allocator : Allocator pm := {
  acquire_fn := kalloc;
  free_fn := kfree;
  touch p := mem_op (fun m => mset m p 1);
}.
End Backends.

(** kernel/bench_resource_fakealloc.c: four slots at [fake_mem]. *)
Definition FAKE_NSLOTS : Z := 4.
Definition FAKE_SLOT_BYTES : Z := 8.
Record fakes := mkFakes { fake_used : Z -> bool; fake_bytes : mem }.
Section Fake.
Context (fake_mem : Z).
Definition fake_reset : M fakes unit := modify (fun s => mkFakes (fun _ => false) (fake_bytes s)).
Definition fake_alloc : M fakes Z :=
  let* used := gets fake_used in
  match List.find (fun i => negb (used i)) [0; 1; 2; 3] with
  | Some i => modify (fun s => mkFakes (upd (fake_used s) i true) (fake_bytes s)) ;; ret (fake_mem + FAKE_SLOT_BYTES * i)
  | None => ret 0
  end.
Definition fake_free (p : Z) : M fakes unit :=
  let idx := Z.quot (p - fake_mem) FAKE_SLOT_BYTES in
  when ((0 <=? idx) && (idx <? FAKE_NSLOTS)) (modify (fun s => mkFakes (upd (fake_used s) idx false) (fake_bytes s))).
Definition fake_allocator : Allocator fakes := {|
  acquire_fn := fake_alloc;
  free_fn := fake_free;
  touch p := modify (fun s => mkFakes (fake_used s) (mset (fake_bytes s) p 1));
|}.
(** A slot comes back for the next request. *)
Lemma fake_alloc_free s i : 0 < fake_mem -> 0 <= i < FAKE_NSLOTS -> fake_used s i = false -> (forall j, 0 <= j < i -> fake_used s j = true) ->
  wp fake_alloc (fun p s' => p = fake_mem + 8 * i /\ wp (fake_free p) (fun _ s'' => forall j, fake_used s'' j = fake_used s j) s') s.
Proof.
  intros Hm Hi Hf Hu. unfold fake_alloc. wp_step. wp_step. assert (List.find (fun i => negb (fake_used s i)) [0; 1; 2; 3] = Some i) as ->.
  { unfold FAKE_NSLOTS in Hi. cbn [List.find]. assert (i = 0 \/ i = 1 \/ i = 2 \/ i = 3) as Hc by lia.
    destruct Hc as [->|[->|[->| ->]]]; rewrite ?Hf, ?(Hu 0), ?(Hu 1), ?(Hu 2) by lia; done. }
  wp_step. wp_step. wp_step. split; [done|]. unfold fake_free, FAKE_SLOT_BYTES.
  replace (fake_mem + 8 * i - fake_mem) with (i * 8) by lia. rewrite Z.quot_mul by done.
  rewrite (proj2 (Z.leb_le 0 i)), (proj2 (Z.ltb_lt i FAKE_NSLOTS)) by lia. cbn [andb when]. wp_step. intros j. cbn.
  unfold upd. repeat case_decide; by subst.
Qed.
(** fake_free truncates towards zero: an address just below the slots frees
    the first one. *)
Lemma fake_free_below s : wp (fake_free (fake_mem - 1)) (fun _ s' => fake_used s' 0 = false) s.
Proof. unfold fake_free, FAKE_SLOT_BYTES. replace (fake_mem - 1 - fake_mem) with (-1) by lia. reflexivity. Qed.
End Fake.

(** ** kernel/bench_resource_ledger.c *)

Definition LEDGER_MAX : nat := 8.
Definition LEDGER_EVENT_MAX : nat := 16.
Definition EVENT_ALLOC : Z := 1.
Definition EVENT_FREE : Z := 2.
(** The used parts of the arrays. *)
Record ledger := mkLedger {
  ledger_slots : list Z;
  ledger_dup_or_unowned : bool;
  ledger_fail_at_call : Z;
  ledger_call_counter : Z;
  ledger_events : list (Z * Z);
  ledger_pm : pm;
}.
Definition ledger_pmL : lens ledger pm :=
  Lens ledger_pm (fun x s => mkLedger (ledger_slots s) (ledger_dup_or_unowned s) (ledger_fail_at_call s) (ledger_call_counter s) (ledger_events s) x).

Section Ledger.
Context `{LinkerSyms}.
Definition ledger_reset : M ledger unit := modify (fun s => mkLedger [] false 0 0 [] (ledger_pm s)).
Definition ledger_inject_fail_at (n : Z) : M ledger unit :=
  modify (fun s => mkLedger (ledger_slots s) (ledger_dup_or_unowned s) n (ledger_call_counter s) (ledger_events s) (ledger_pm s)).
Definition ledger_record_event (kind p : Z) : M ledger unit :=
  modify (fun s => mkLedger (ledger_slots s) (ledger_dup_or_unowned s) (ledger_fail_at_call s) (ledger_call_counter s)
    (if (length (ledger_events s) <? LEDGER_EVENT_MAX)%nat then ledger_events s ++ [(kind, p)] else ledger_events s) (ledger_pm s)).
Definition set_slots (f : list Z -> list Z) : M ledger unit :=
  modify (fun s => mkLedger (f (ledger_slots s)) (ledger_dup_or_unowned s) (ledger_fail_at_call s) (ledger_call_counter s) (ledger_events s) (ledger_pm s)).

Definition test_alloc_page : M ledger Z :=
  modify (fun s => mkLedger (ledger_slots s) (ledger_dup_or_unowned s) (ledger_fail_at_call s) (ledger_call_counter s + 1) (ledger_events s) (ledger_pm s)) ;;
  let* s := gets id in
  if negb (ledger_fail_at_call s =? 0) && (ledger_call_counter s =? ledger_fail_at_call s) then ret 0 else
  let* p := zoom ledger_pmL kalloc in
  when (negb (p =? 0))
    (set_slots (fun l => if (length l <? LEDGER_MAX)%nat then l ++ [p] else l) ;;
     ledger_record_event EVENT_ALLOC p) ;;
  ret p.

Fixpoint ledger_index_of (l : list Z) (p : Z) (i : nat) : option nat :=
  match l with
  | [] => None
  | x :: l => if x =? p then Some i else ledger_index_of l p (S i)
  end.
(** The last slot moves to the freed place. *)
Definition drop_slot (i : nat) (l : list Z) : list Z := removelast (<[i := List.last l 0]> l).
Definition test_free_page (p : Z) : M ledger unit :=
  if p =? 0 then ret tt else
  let* s := gets id in
  match ledger_index_of (ledger_slots s) p 0 with
  | None => modify (fun s => mkLedger (ledger_slots s) true (ledger_fail_at_call s) (ledger_call_counter s) (ledger_events s) (ledger_pm s))
  | Some i =>
      set_slots (drop_slot i) ;;
      ledger_record_event EVENT_FREE p ;;
      zoom ledger_pmL (kfree p)
  end.
Definition ledger_leaked_count (s : ledger) : nat := length (ledger_slots s).
Definition ledger_reclaim_all : M ledger unit :=
  let* s := gets id in
  for_range (length (ledger_slots s)) 0 (fun i => zoom ledger_pmL (kfree (nth (Z.to_nat i) (ledger_slots s) 0))) ;;
  set_slots (fun _ => []).

Definition ledger_check_two_resource_reverse_release (s : ledger) : bool :=
  match ledger_events s with
  | [(k0, a); (k1, b); (k2, c); (k3, d)] =>
      (k0 =? EVENT_ALLOC) && (k1 =? EVENT_ALLOC) && (k2 =? EVENT_FREE) && (k3 =? EVENT_FREE) && (c =? b) && (d =? a)
  | _ => false
  end.
Definition ledger_check_one_alloc_one_free (s : ledger) : bool :=
  match ledger_events s with
  | [(k0, a); (k1, b)] => (k0 =? EVENT_ALLOC) && (k1 =? EVENT_FREE) && (a =? b)
  | _ => false
  end.
Definition ledger_check_no_events (s : ledger) : bool := (length (ledger_events s) =? 0)%nat.

(** The planted mistakes. *)
Definition mutation_omit_free : M ledger unit := let* _ := test_alloc_page in ret tt.
Definition mutation_duplicate_free : M ledger unit :=
  let* p := test_alloc_page in test_free_page p ;; test_free_page p.

(** TestUniquePage, and the *_test functions. *)
#[export] Instance ledger_allocator : Allocator ledger := {
  acquire_fn := test_alloc_page;
  free_fn := test_free_page;
  touch p := zoom ledger_pmL (mem_op (fun m => mset m p 1));
}.

(** c_test_move_semantics, the scope of [a] around that of [b]. *)
Definition c_test_move_semantics : M ledger Z :=
  ledger_reset ;;
  let* a := acquire_fn in
  scoped
    (if a =? 0 then ret (-1, a) else
     let raw := a in
     let '(b, a) := move_owner a in
     scoped (ret ((if negb (a =? 0) then 0 else if negb (b =? raw) then 0 else 1, a), b))).
End Ledger.

(** ** The checks of kernel/bench_resource_harness.cpp *)

Section Harness.
Context `{LinkerSyms}.
Definition null (p : Z) : bool := p =? 0.
(** check: whether one case passes. *)
Definition check (r : answer) (want_ret : Z) (want_nonnull order_ok : bool) (s : ledger) : bool :=
  let '(got_ret, out1, out2) := r in
  (got_ret =? want_ret) &&
  (if want_nonnull then negb (null out1) && negb (null out2) else null out1 && null out2) &&
  negb (ledger_dup_or_unowned s) &&
  negb (null out1 && null out2 && negb (ledger_leaked_count s =? 0)%nat) &&
  order_ok.

Definition run_one_condition_correctness (call : bool -> M ledger answer) : M ledger (list bool) :=
  ledger_reset ;; ledger_inject_fail_at 1 ;;
  let* r := call false in
  let* s := gets id in
  let c1 := check r 1 false (ledger_check_no_events s) s in
  ledger_reset ;; ledger_inject_fail_at 2 ;;
  let* r := call false in
  let* s := gets id in
  let c2 := check r 2 false (ledger_check_one_alloc_one_free s) s in
  ledger_reset ;;
  let* r := call true in
  let* s := gets id in
  let c3 := check r 3 false (ledger_check_two_resource_reverse_release s) s in
  ledger_reset ;;
  let* r := call false in
  when (negb (null r.1.2) && negb (null r.2)) (test_free_page r.2 ;; test_free_page r.1.2) ;;
  let* s := gets id in
  let c4 := check r 0 true (ledger_check_two_resource_reverse_release s) s in
  ret [c1; c2; c3; c4].

(** g_correctness_fail_count after the tests: A and B are compiled from the
    same text. *)
Definition failures (l : list bool) : Z := Z.of_nat (length (List.filter negb l)).
Definition run_resource_correctness_tests : M ledger Z :=
  let* a := run_one_condition_correctness manual_test in
  let* b := run_one_condition_correctness manual_test in
  let* c := run_one_condition_correctness owner_test in
  ledger_reset ;;
  let* mv := c_test_move_semantics in
  let* s := gets id in
  let mv_ok := (mv =? 1) && (ledger_leaked_count s =? 0)%nat && negb (ledger_dup_or_unowned s) in
  ret (failures (a ++ b ++ c ++ [mv_ok])).

(** The two planted mistakes: whether the ledger detected each. *)
Definition run_resource_mutation_tests : M ledger (bool * bool) :=
  ledger_reset ;;
  mutation_omit_free ;;
  let* s := gets id in
  let detected_leak := (0 <? ledger_leaked_count s)%nat in
  ledger_reclaim_all ;;
  ledger_reset ;;
  mutation_duplicate_free ;;
  let* s := gets id in
  let dup := ledger_dup_or_unowned s in
  ledger_reclaim_all ;;
  ret (detected_leak, dup).
End Harness.

(** The sanity check of the fake backend, the last lines of
    run_resource_mutation_tests. *)
Definition fake_backend_sanity (fake_mem : Z) : M fakes bool :=
  fake_reset ;;
  let* f1 := fake_alloc fake_mem in
  let* f2 := fake_alloc fake_mem in
  let fake_ok := negb (f1 =? 0) && negb (f2 =? 0) && negb (f1 =? f2) in
  fake_free fake_mem f1 ;;
  fake_free fake_mem f2 ;;
  let* f3 := fake_alloc fake_mem in
  fake_free fake_mem f3 ;;
  ret (fake_ok && negb (f3 =? 0)).

(** A few entries fit the arrays. *)
Ltac small_array := apply Nat.ltb_lt; reflexivity.

Section Proofs.
Context `{LinkerOk}.

Record at_ledger (slots : list Z) (bad : bool) (fail calls : Z) (events : list (Z * Z)) (ps : list Z) (s : ledger) : Prop := {
  al_slots : ledger_slots s = slots;
  al_bad : ledger_dup_or_unowned s = bad;
  al_fail : ledger_fail_at_call s = fail;
  al_calls : ledger_call_counter s = calls;
  al_events : ledger_events s = events;
  al_free : kmem_inv ps (ledger_pm s);
}.

Lemma wp_ledger_reset slots bad fail calls ev ps s Q : at_ledger slots bad fail calls ev ps s ->
  (forall s', at_ledger [] false 0 0 [] ps s' -> Q tt s') -> wp ledger_reset Q s.
Proof. intros [] HQ. apply HQ. by split. Qed.
Lemma wp_inject slots bad fail calls ev ps s n Q : at_ledger slots bad fail calls ev ps s ->
  (forall s', at_ledger slots bad n calls ev ps s' -> Q tt s') -> wp (ledger_inject_fail_at n) Q s.
Proof. intros [] HQ. apply HQ. by split. Qed.
Lemma wp_test_alloc_fail slots bad fail calls ev ps s Q : at_ledger slots bad fail calls ev ps s -> fail <> 0 -> calls + 1 = fail ->
  (forall s', at_ledger slots bad fail (calls + 1) ev ps s' -> Q 0 s') -> wp test_alloc_page Q s.
Proof.
  intros [] Hf Hc HQ. unfold test_alloc_page. wp_step. wp_step. wp_step. wp_step. cbn [id ledger_fail_at_call ledger_call_counter].
  rewrite al_fail0, al_calls0, Hc, Z.eqb_refl, (proj2 (Z.eqb_neq fail 0)) by done. cbn [negb andb]. wp_step. apply HQ. split; cbn; congruence || done.
Qed.
Lemma wp_test_alloc slots bad fail calls ev p ps s Q : at_ledger slots bad fail calls ev (p :: ps) s -> calls + 1 <> fail ->
  (length slots < LEDGER_MAX)%nat -> (length ev < LEDGER_EVENT_MAX)%nat ->
  (forall s', valid_page p -> p ∉ ps -> p <> 0 -> at_ledger (slots ++ [p]) bad fail (calls + 1) (ev ++ [(EVENT_ALLOC, p)]) ps s' -> Q p s') ->
  wp test_alloc_page Q s.
Proof.
  intros [] Hc Hl He HQ. unfold test_alloc_page. wp_step. wp_step. wp_step. wp_step. cbn [id ledger_fail_at_call ledger_call_counter].
  rewrite al_fail0, al_calls0, (proj2 (Z.eqb_neq (calls + 1) fail)), andb_false_r by done. wp_step. wp_step.
  eapply wp_mono; [by apply (kalloc_spec p ps)|]. intros r m (-> & Hv & Hn & Hk & _). pose proof (valid_page_pos p Hv) as Hp.
  rewrite (proj2 (Z.eqb_neq p 0)) by lia. cbn [negb when]. wp_step. wp_step. unfold set_slots, ledger_record_event. wp_step. wp_step. wp_step.
  apply HQ; [done|done|lia|]. split; cbn [ledger_slots ledger_dup_or_unowned ledger_fail_at_call ledger_call_counter ledger_events ledger_pm put ledger_pmL];
    rewrite ?al_slots0, ?al_events0; try done.
  - by rewrite (proj2 (Nat.ltb_lt _ _)).
  - by rewrite (proj2 (Nat.ltb_lt _ _)).
Qed.
Lemma wp_touch slots bad fail calls ev ps s p Q : at_ledger slots bad fail calls ev ps s -> valid_page p -> p ∉ ps ->
  (forall s', at_ledger slots bad fail calls ev ps s' -> Q tt s') -> wp (touch p) Q s.
Proof.
  intros [] Hv Hn HQ. apply HQ. split; try done. apply kmem_inv_frame; [done| |].
  - intros x. unfold mset. case_decide || destruct (x =? p); [unfold byte_ok; lia|apply al_free0].
  - intros q x Hq Hx. unfold mset. destruct (Z.eqb_spec x p) as [->|]; [|done]. exfalso.
    assert (valid_page q) as Hvq by (destruct al_free0 as (_ & _ & Hc & _); apply free_chain_valid in Hc; rewrite Forall_forall in Hc; by apply Hc).
    destruct (page_out p q p Hv Hvq) as [?|?]; [by intros ->|done|lia|unfold PGSIZE in *; lia].
Qed.
Lemma wp_test_free slots bad fail calls ev ps s p i Q : at_ledger slots bad fail calls ev ps s -> valid_page p -> p ∉ ps ->
  ledger_index_of slots p 0 = Some i -> (length ev < LEDGER_EVENT_MAX)%nat ->
  (forall s', at_ledger (drop_slot i slots) bad fail calls (ev ++ [(EVENT_FREE, p)]) (p :: ps) s' -> Q tt s') -> wp (test_free_page p) Q s.
Proof.
  intros [] Hv Hn Hi He HQ. pose proof (valid_page_pos p Hv). unfold test_free_page. rewrite (proj2 (Z.eqb_neq p 0)) by lia. wp_step. wp_step.
  cbn [id]. rewrite al_slots0, Hi. unfold set_slots, ledger_record_event. do 4 wp_step. wp_step. eapply wp_mono; [by apply (kfree_spec p ps)|].
  intros [] m [Hk _]. apply HQ. split; cbn [ledger_slots ledger_dup_or_unowned ledger_fail_at_call ledger_call_counter ledger_events ledger_pm put ledger_pmL];
    rewrite ?al_slots0, ?al_events0; try done. by rewrite (proj2 (Nat.ltb_lt _ _)).
Qed.
(** A page the ledger does not hold is not freed. *)
Lemma wp_test_free_unowned slots bad fail calls ev ps s p Q : at_ledger slots bad fail calls ev ps s -> p <> 0 -> ledger_index_of slots p 0 = None ->
  (forall s', at_ledger slots true fail calls ev ps s' -> Q tt s') -> wp (test_free_page p) Q s.
Proof.
  intros [] Hp Hi HQ. unfold test_free_page. rewrite (proj2 (Z.eqb_neq p 0)) by done. wp_step. wp_step. cbn [id]. rewrite al_slots0, Hi. wp_step.
  apply HQ. by split.
Qed.

(** The four cases, for the version with written-out releases. *)
(** From a fresh ledger: the answer, the events and the free pages. *)
Lemma first_fails ps s Q : at_ledger [] false 1 0 [] ps s ->
  (forall s', at_ledger [] false 1 1 [] ps s' -> Q (EP1_FAIL_FIRST, 0, 0) s') -> wp (manual_test false) Q s.
Proof.
  intros Hs HQ. unfold manual_test. wp_step. eapply wp_test_alloc_fail; [exact Hs|done|done|]. intros s1 H1'. cbn [Z.eqb]. wp_step. by apply HQ.
Qed.
Lemma second_fails p ps s Q : at_ledger [] false 2 0 [] (p :: ps) s ->
  (forall s', at_ledger [] false 2 2 [(EVENT_ALLOC, p); (EVENT_FREE, p)] (p :: ps) s' -> Q (EP1_FAIL_SECOND, 0, 0) s') -> wp (manual_test false) Q s.
Proof.
  intros Hs HQ. unfold manual_test. wp_step. eapply wp_test_alloc; [exact Hs|done|small_array|small_array|]. intros s1 Hv Hn Hp H1'.
  rewrite (proj2 (Z.eqb_neq p 0)) by done. wp_step. eapply wp_touch; [exact H1'|done|done|]. intros s2 H2'.
  wp_step. eapply wp_test_alloc_fail; [exact H2'|done|done|]. intros s3 H3'. cbn [Z.eqb]. wp_step.
  eapply wp_test_free; [exact H3'|done|done|cbn; by rewrite Z.eqb_refl|small_array|]. intros s4 H4'. wp_step. by apply HQ.
Qed.
Lemma both_acquired p q ps s (force : bool) Q : at_ledger [] false 0 0 [] (p :: q :: ps) s ->
  (forall s', valid_page p -> valid_page q -> p <> q -> p <> 0 -> q <> 0 -> p ∉ ps -> q ∉ ps ->
     at_ledger [p; q] false 0 2 [(EVENT_ALLOC, p); (EVENT_ALLOC, q)] ps s' ->
     wp (if force then test_free_page q ;; test_free_page p ;; ret (EP1_EARLY_FAIL, 0, 0) else ret (EP1_OK, p, q)) Q s') ->
  wp (manual_test force) Q s.
Proof.
  intros Hs HQ. unfold manual_test. wp_step. eapply wp_test_alloc; [exact Hs|done|small_array|small_array|]. intros s1 Hv Hn Hp H1'.
  rewrite (proj2 (Z.eqb_neq p 0)) by done. wp_step. eapply wp_touch; [exact H1'|done|done|]. intros s2 H2'.
  wp_step. eapply wp_test_alloc; [exact H2'|done|small_array|small_array|]. intros s3 Hv3 Hn3 Hp3 H3'.
  rewrite (proj2 (Z.eqb_neq q 0)) by done. wp_step. eapply wp_touch; [exact H3'|done|done|]. intros s4 H4'.
  apply HQ; try done; [intros ->; apply Hn; by left|intros Hin; apply Hn; by right].
Qed.
(** The two releases in reverse order. *)
Lemma release_both p q ps s Q : valid_page p -> valid_page q -> p <> q -> p ∉ ps -> q ∉ ps ->
  at_ledger [p; q] false 0 2 [(EVENT_ALLOC, p); (EVENT_ALLOC, q)] ps s ->
  (forall s', at_ledger [] false 0 2 [(EVENT_ALLOC, p); (EVENT_ALLOC, q); (EVENT_FREE, q); (EVENT_FREE, p)] (p :: q :: ps) s' -> Q tt s') ->
  wp (test_free_page q ;; test_free_page p) Q s.
Proof.
  intros Hv Hq Hne Hn Hn' Hs HQ. wp_step.
  eapply (wp_test_free _ _ _ _ _ _ _ q 1); [exact Hs|done|done|cbn; by rewrite (proj2 (Z.eqb_neq p q)), Z.eqb_refl|small_array|]. intros s5 H5'.
  eapply (wp_test_free _ _ _ _ _ _ _ p 0); [exact H5'|done| |cbn; by rewrite Z.eqb_refl|small_array|intros s6 H6'; by apply HQ].
  intros Hin. apply elem_of_cons in Hin as [?|?]; done.
Qed.

Lemma checks_pass p q ps s : kmem_inv (p :: q :: ps) (ledger_pm s) ->
  wp (run_one_condition_correctness manual_test) (fun r s' => r = [true; true; true; true] /\ kmem_inv (p :: q :: ps) (ledger_pm s')) s.
Proof.
  intros Hk. assert (at_ledger (ledger_slots s) (ledger_dup_or_unowned s) (ledger_fail_at_call s) (ledger_call_counter s) (ledger_events s) (p :: q :: ps) s) as H0' by done.
  unfold run_one_condition_correctness.
  wp_step. eapply wp_ledger_reset; [exact H0'|]. intros s1 H1'. wp_step. eapply wp_inject; [exact H1'|]. intros s2 H2'.
  wp_step. eapply first_fails; [exact H2'|]. intros s3 H3'. wp_step. wp_step. cbn [id].
  wp_step. eapply wp_ledger_reset; [exact H3'|]. intros s4 H4'. wp_step. eapply wp_inject; [exact H4'|]. intros s5 H5'.
  wp_step. eapply second_fails; [exact H5'|]. intros s6 H6'. wp_step. wp_step. cbn [id].
  wp_step. eapply wp_ledger_reset; [exact H6'|]. intros s7 H7'. wp_step. eapply both_acquired; [exact H7'|]. intros s8 V1 V2 N1 N2 N3 N4 N5 H8'.
  rewrite <- bind_assoc. wp_step. eapply release_both; [..|exact H8'|]; [done..|]. intros s9 H9'. wp_step. wp_step. wp_step. cbn [id].
  wp_step. eapply wp_ledger_reset; [exact H9'|]. intros s10 H10'. wp_step. eapply both_acquired; [exact H10'|]. intros s11 _ _ _ _ _ _ _ H11'.
  wp_step. cbn [fst snd]. unfold null. rewrite (proj2 (Z.eqb_neq p 0)), (proj2 (Z.eqb_neq q 0)) by done. cbn [negb andb when]. wp_step.
  eapply release_both; [..|exact H11'|]; [done..|]. intros s12 H12'. wp_step. wp_step. wp_step. cbn [id]. split; [|apply (al_free _ _ _ _ _ _ _ H12')].
  unfold check, null, ledger_leaked_count, ledger_check_no_events, ledger_check_one_alloc_one_free, ledger_check_two_resource_reverse_release.
  rewrite (al_bad _ _ _ _ _ _ _ H3'), (al_slots _ _ _ _ _ _ _ H3'), (al_events _ _ _ _ _ _ _ H3').
  rewrite (al_bad _ _ _ _ _ _ _ H6'), (al_slots _ _ _ _ _ _ _ H6'), (al_events _ _ _ _ _ _ _ H6').
  rewrite (al_bad _ _ _ _ _ _ _ H9'), (al_slots _ _ _ _ _ _ _ H9'), (al_events _ _ _ _ _ _ _ H9').
  rewrite (al_bad _ _ _ _ _ _ _ H12'), (al_slots _ _ _ _ _ _ _ H12'), (al_events _ _ _ _ _ _ _ H12').
  rewrite (proj2 (Z.eqb_neq p 0)), (proj2 (Z.eqb_neq q 0)) by done. cbn. by rewrite !Z.eqb_refl.
Qed.

(** Reclaiming returns the one page that leaked. *)
Lemma wp_reclaim_none bad fail calls ev ps s Q : at_ledger [] bad fail calls ev ps s ->
  (forall s', at_ledger [] bad fail calls ev ps s' -> Q tt s') -> wp ledger_reclaim_all Q s.
Proof.
  intros [] HQ. unfold ledger_reclaim_all. wp_step. wp_step. cbn [id]. rewrite al_slots0. cbn [length for_range]. wp_step. wp_step. apply HQ. by split.
Qed.
Lemma wp_reclaim_one p bad fail calls ev ps s Q : at_ledger [p] bad fail calls ev ps s -> valid_page p -> p ∉ ps ->
  (forall s', at_ledger [] bad fail calls ev (p :: ps) s' -> Q tt s') -> wp ledger_reclaim_all Q s.
Proof.
  intros [] Hv Hn HQ. unfold ledger_reclaim_all. wp_step. wp_step. cbn [id]. rewrite al_slots0. cbn [length for_range]. wp_step. wp_step. wp_step.
  cbn [nth Z.to_nat]. eapply wp_mono; [by apply (kfree_spec p ps)|]. intros [] m [Hk _]. wp_step. apply HQ. by split.
Qed.

(** The ledger sees the planted mistakes, a double free does not reach the
    allocator, and no page is lost. *)
Lemma mutations_detected p ps s : kmem_inv (p :: ps) (ledger_pm s) ->
  wp run_resource_mutation_tests (fun r s' => r = (true, true) /\ kmem_inv (p :: ps) (ledger_pm s')) s.
Proof.
  intros Hk. unfold run_resource_mutation_tests, mutation_omit_free, mutation_duplicate_free.
  wp_step. eapply (wp_ledger_reset (ledger_slots s)); [by split|]. intros s1 H1'. wp_step. wp_step.
  eapply wp_test_alloc; [exact H1'|done|small_array|small_array|]. intros s2 Hv Hn Hp H2'. wp_step. wp_step. wp_step. cbn [id].
  wp_step. eapply wp_reclaim_one; [exact H2'|done|done|]. intros s3 H3'. wp_step. eapply wp_ledger_reset; [exact H3'|]. intros s4 H4'. wp_step. wp_step.
  eapply wp_test_alloc; [exact H4'|done|small_array|small_array|]. intros s5 _ _ _ H5'. wp_step.
  eapply (wp_test_free _ _ _ _ _ _ _ p 0); [exact H5'|done|done|cbn; by rewrite Z.eqb_refl|small_array|]. intros s6 H6'.
  eapply wp_test_free_unowned; [exact H6'|done|done|]. intros s7 H7'. wp_step. wp_step. cbn [id]. wp_step.
  eapply wp_reclaim_none; [exact H7'|]. intros s8 H8'. wp_step. unfold ledger_leaked_count. rewrite (al_slots _ _ _ _ _ _ _ H2'), (al_bad _ _ _ _ _ _ _ H7').
  split; [done|apply (al_free _ _ _ _ _ _ _ H8')].
Qed.
(** A moved-from owner releases nothing: one release for two scopes. *)
Lemma move_releases_once p ps s : kmem_inv (p :: ps) (ledger_pm s) ->
  wp c_test_move_semantics (fun r s' => r = 1 /\ ledger_leaked_count s' = 0%nat /\ ledger_dup_or_unowned s' = false /\ kmem_inv (p :: ps) (ledger_pm s')) s.
Proof.
  intros Hk. unfold c_test_move_semantics, move_owner. wp_step. eapply (wp_ledger_reset (ledger_slots s)); [by split|]. intros s1 H1'. wp_step.
  eapply wp_test_alloc; [exact H1'|done|small_array|small_array|]. intros s2 Hv Hn Hp H2'. rewrite (proj2 (Z.eqb_neq p 0)) by done. cbv zeta.
  unfold scoped. wp_step. wp_step. wp_step. wp_step. cbn [fst snd]. unfold destroy at 1. rewrite (proj2 (Z.eqb_neq p 0)) by done. cbn [negb].
  eapply (wp_test_free _ _ _ _ _ _ _ p 0); [exact H2'|done|done|cbn; by rewrite Z.eqb_refl|small_array|]. intros s3 H3'. wp_step. cbn [fst snd].
  unfold destroy. cbn [Z.eqb negb]. wp_step. wp_step. wp_step. cbn [Z.eqb negb]. rewrite Z.eqb_refl.
  split; [done|]. unfold ledger_leaked_count. rewrite (al_slots _ _ _ _ _ _ _ H3'). split; [done|]. split; [apply (al_bad _ _ _ _ _ _ _ H3')|apply (al_free _ _ _ _ _ _ _ H3')].
Qed.

Lemma owner_checks_pass p q ps s : kmem_inv (p :: q :: ps) (ledger_pm s) ->
  wp (run_one_condition_correctness owner_test) (fun r s' => r = [true; true; true; true] /\ kmem_inv (p :: q :: ps) (ledger_pm s')) s.
Proof.
  destruct (@styles_agree ledger _) as (_ & _ & E). assert (owner_test = manual_test (S := ledger)) as -> by (extensionality force; apply E).
  apply checks_pass.
Qed.
Lemma no_failures p q ps s : kmem_inv (p :: q :: ps) (ledger_pm s) ->
  wp run_resource_correctness_tests (fun r s' => r = 0 /\ kmem_inv (p :: q :: ps) (ledger_pm s')) s.
Proof.
  intros Hk. unfold run_resource_correctness_tests.
  wp_step. eapply wp_mono; [by apply checks_pass|]. intros ? s1 [-> H1'].
  wp_step. eapply wp_mono; [by apply checks_pass|]. intros ? s2 [-> H2'].
  wp_step. eapply wp_mono; [by apply owner_checks_pass|]. intros ? s3 [-> H3'].
  wp_step. eapply (wp_ledger_reset (ledger_slots s3)); [by split|]. intros s4 H4'.
  wp_step. eapply wp_mono; [apply (move_releases_once p (q :: ps)), (al_free _ _ _ _ _ _ _ H4')|]. intros r s5 (-> & Hl & Hd & H5').
  wp_step. wp_step. cbn [id]. wp_step. rewrite Hl, Hd. done.
Qed.
End Proofs.

(** The fake backend passes its check wherever its slots are. *)
Lemma fake_free_slot fake_mem i s : 0 <= i < FAKE_NSLOTS ->
  wp (fake_free fake_mem (fake_mem + FAKE_SLOT_BYTES * i)) (fun _ s' => fake_used s' = upd (fake_used s) i false) s.
Proof.
  intros Hi. unfold fake_free, FAKE_SLOT_BYTES. replace (fake_mem + 8 * i - fake_mem) with (i * 8) by lia. rewrite Z.quot_mul by done.
  rewrite (proj2 (Z.leb_le 0 i)), (proj2 (Z.ltb_lt i FAKE_NSLOTS)) by lia. cbn [andb when]. by wp_step.
Qed.
Lemma fake_alloc_slot fake_mem i s : List.find (fun i => negb (fake_used s i)) [0; 1; 2; 3] = Some i ->
  wp (fake_alloc fake_mem) (fun p s' => p = fake_mem + FAKE_SLOT_BYTES * i /\ fake_used s' = upd (fake_used s) i true) s.
Proof. intros Hi. unfold fake_alloc. wp_step. wp_step. rewrite Hi. wp_step. wp_step. by wp_step. Qed.
Lemma fake_sanity_passes fake_mem s : 0 < fake_mem -> wp (fake_backend_sanity fake_mem) (fun r _ => r = true) s.
Proof.
  intros Hm. unfold fake_backend_sanity, fake_reset. wp_step. wp_step.
  wp_step. eapply wp_mono; [by apply (fake_alloc_slot _ 0)|]. intros f1 s1 [-> E1]. cbn [fake_used] in E1.
  wp_step. eapply wp_mono; [apply (fake_alloc_slot _ 1); by rewrite E1|]. intros f2 s2 [-> E2]. rewrite E1 in E2.
  wp_step. eapply wp_mono; [by apply fake_free_slot|]. intros [] s3 E3. rewrite E2 in E3.
  wp_step. eapply wp_mono; [by apply fake_free_slot|]. intros [] s4 E4. rewrite E3 in E4.
  wp_step. eapply wp_mono; [apply (fake_alloc_slot _ 0); by rewrite E4|]. intros f3 s5 [-> _].
  wp_step. eapply wp_mono; [by apply fake_free_slot|]. intros [] s6 _. wp_step. unfold FAKE_SLOT_BYTES.
  rewrite !(proj2 (Z.eqb_neq _ _)) by lia. done.
Qed.

(** C40: The ownership experiment compares equal things.  For every
    allocator, whatever it does (fail, block, panic), the versions with an
    owner class whose destructor releases return the same answers and make
    the same acquisitions and releases in the same order as the versions
    with releases written out.  Run by the harness with the ledger and two
    free pages, the three conditions pass all checks (first and second
    acquisition failing, early failure, success with hand-over, move
    construction), the two planted mistakes are detected, and the allocator
    is left as it was found. *)
Theorem ownership_experiment :
  (forall S (A : Allocator S), owner_success = manual_success /\ owner_early_fail = manual_early_fail /\ forall force, owner_test force = manual_test force) /\
  forall `{LinkerOk} p q ps s, kmem_inv (p :: q :: ps) (ledger_pm s) ->
    wp run_resource_correctness_tests (fun failed s' => failed = 0 /\ kmem_inv (p :: q :: ps) (ledger_pm s')) s /\
    wp run_resource_mutation_tests (fun detected s' => detected = (true, true) /\ kmem_inv (p :: q :: ps) (ledger_pm s')) s.
Proof.
  split; [intros; apply styles_agree|]. intros HL HO p q ps s Hk. split; [by apply no_failures|by apply mutations_detected].
Qed.

Module ResourceWitness.
Import ToyImage PageTableWitness.
Definition l0 : ledger := mkLedger [P 7] true 3 4 [] s0.
Lemma ownership_experiment_witness :
  wp run_resource_correctness_tests (fun failed s' => failed = 0 /\ kmem_inv [P 1; P 2] (ledger_pm s')) l0 /\
  wp run_resource_mutation_tests (fun detected s' => detected = (true, true) /\ kmem_inv [P 1; P 2] (ledger_pm s')) l0.
Proof. exact (proj2 ownership_experiment syms syms_ok (P 1) (P 2) [] l0 kmem_inv0). Defined.
End ResourceWitness.
