(* ===== verification/SpanWindow.v ===== *)
(** * The span accumulator (kernel/span_window_accumulator.hpp)

    Execution time of latency-sensitive processes per fixed-width window of
    the clock: a span of time is split at priority changes and at window
    boundaries.  Every window is credited with exactly its overlap with the
    span, and windows that do not fit the table are counted. *)

From Stdlib Require Import ZArith Lia.
From stdpp Require Import gmap.
From S2P Require Import Prelude.

Definition SPAN_MAX_WINDOWS : nat := 32.
(** The used part of the table (index, time), and the two counters. *)
Record span_acc := mkSpan { windows : list (Z * Z); total_accounted : Z; overflow_count : Z }.
Definition span_init : span_acc := mkSpan [] 0 0.

Fixpoint window_slot (l : list (Z * Z)) (idx : Z) : option nat :=
  match l with
  | [] => None
  | (i, _) :: l => if i =? idx then Some 0%nat else S <$> window_slot l idx
  end.
Definition find_or_create (l : list (Z * Z)) (idx : Z) : option nat * list (Z * Z) :=
  match window_slot l idx with
  | Some k => (Some k, l)
  | None => if (length l <? SPAN_MAX_WINDOWS)%nat then (Some (length l), l ++ [(idx, 0)]) else (None, l)
  end.
(** window_ls_time_[slot] += piece *)
Definition credit (k : nat) (piece : Z) (l : list (Z * Z)) : list (Z * Z) :=
  match l !! k with Some (i, t) => <[k := (i, u64 (t + piece))]> l | None => l end.

(** One piece of a segment: the loop's body and the new position. *)
Definition piece_step (is_ls : bool) (w seg_end pos : Z) (a : span_acc) : Z * span_acc :=
  let idx := pos / w in
  let window_end := u64 ((idx + 1) * w) in
  let piece_end := if window_end <? seg_end then window_end else seg_end in
  let piece := u64 (piece_end - pos) in
  let total := u64 (total_accounted a + piece) in
  if is_ls then
    let '(slot, l) := find_or_create (windows a) idx in
    match slot with
    | Some k => (piece_end, mkSpan (credit k piece l) total (overflow_count a))
    | None => (piece_end, mkSpan l total (i32 (overflow_count a + 1)))
    end
  else (piece_end, mkSpan (windows a) total (overflow_count a)).
Fixpoint add_pieces (n : nat) (is_ls : bool) (w seg_end pos : Z) (a : span_acc) : option span_acc :=
  if pos <? seg_end then
    match n with
    | O => None
    | S n => let '(pos, a) := piece_step is_ls w seg_end pos a in add_pieces n is_ls w seg_end pos a
    end
  else Some a.
Definition add_segment (seg_start duration : Z) (is_ls : bool) (w : Z) (a : span_acc) : option span_acc :=
  if (duration =? 0) || (w =? 0) then Some a else
  add_pieces (S (S (Z.to_nat (duration / w)))) is_ls w (u64 (seg_start + duration)) seg_start a.
Definition add_span (t_enter t_exit : Z) (before_ls change_present : bool) (change_time : Z) (after_ls : bool) (w : Z)
    (a : span_acc) : option span_acc :=
  if t_exit <=? t_enter then Some a else
  if negb change_present || (change_time <=? t_enter) || (t_exit <=? change_time) then
    add_segment t_enter (u64 (t_exit - t_enter)) before_ls w a
  else
    a ← add_segment t_enter (u64 (change_time - t_enter)) before_ls w a;
    add_segment change_time (u64 (t_exit - change_time)) after_ls w a.
(** window_index(i) and window_ls_time(i) *)
Definition window_index (a : span_acc) (i : nat) : Z := match windows a !! i with Some (j, _) => j | None => 0 end.
Definition window_ls_time (a : span_acc) (i : nat) : Z := match windows a !! i with Some (_, t) => t | None => 0 end.

(** ** Time per window *)

Definition time (l : list (Z * Z)) (idx : Z) : Z :=
  match window_slot l idx with Some k => match l !! k with Some (_, t) => t | None => 0 end | None => 0 end.
(** How much of [s, e) lies in window [i]. *)
Definition overlap (w s e i : Z) : Z := Z.max 0 (Z.min e ((i + 1) * w) - Z.max s (i * w)).

Lemma time_cons i t l idx : time ((i, t) :: l) idx = if i =? idx then t else time l idx.
Proof. unfold time. cbn. destruct (i =? idx); [done|]. by destruct (window_slot l idx). Qed.
Lemma time_app_new l idx j : window_slot l idx = None -> time (l ++ [(idx, 0)]) j = time l j.
Proof.
  intros Hn. induction l as [|[i t] l IH]; cbn [app].
  - rewrite time_cons. unfold time. cbn. by destruct (idx =? j).
  - cbn in Hn. destruct (i =? idx) eqn:E; [done|]. rewrite !time_cons. destruct (i =? j); [done|]. apply IH. by destruct (window_slot l idx).
Qed.
Lemma slot_app_new l idx : window_slot l idx = None -> window_slot (l ++ [(idx, 0)]) idx = Some (length l).
Proof.
  induction l as [|[i t] l IH]; intros Hn; cbn; [by rewrite Z.eqb_refl|]. cbn in Hn. destruct (i =? idx); [done|].
  rewrite IH; [done|]. by destruct (window_slot l idx).
Qed.
Lemma time_credit l idx k p j : window_slot l idx = Some k ->
  time (credit k p l) j = if j =? idx then u64 (time l idx + p) else time l j.
Proof.
  revert k. induction l as [|[i t] l IH]; intros k Hk; [done|]. cbn in Hk. rewrite !time_cons. destruct (Z.eqb_spec i idx) as [->|Hne].
  - injection Hk as <-. unfold credit. cbn. rewrite time_cons, (Z.eqb_sym j idx). by destruct (idx =? j).
  - destruct (window_slot l idx) as [k'|] eqn:E; [|done]. injection Hk as <-. specialize (IH k' eq_refl).
    assert (credit (S k') p ((i, t) :: l) = (i, t) :: credit k' p l) as -> by (unfold credit; cbn; by destruct (l !! k') as [[? ?]|]).
    rewrite time_cons, IH. destruct (Z.eqb_spec i j), (Z.eqb_spec j idx); try done. congruence.
Qed.
Lemma length_credit k p l : length (credit k p l) = length l.
Proof. unfold credit. destruct (l !! k) as [[? ?]|]; [apply length_insert|done]. Qed.

(** The table after crediting window [idx]: its size, and what it holds
    unless there was no room. *)
Lemma find_credit l idx p : let '(slot, l') := find_or_create l idx in
  match slot with
  | Some k => (forall j, time (credit k p l') j = if j =? idx then u64 (time l idx + p) else time l j) /\ (length (credit k p l') <= S (length l))%nat
  | None => l' = l /\ (SPAN_MAX_WINDOWS <= length l)%nat
  end.
Proof.
  unfold find_or_create. destruct (window_slot l idx) as [k|] eqn:E.
  - split; [intros j; by apply time_credit|]. rewrite length_credit. lia.
  - destruct (Nat.ltb_spec (length l) SPAN_MAX_WINDOWS); [|done]. split.
    + intros j. rewrite (time_credit _ idx) by (by apply slot_app_new). rewrite !time_app_new by done. done.
    + rewrite length_credit, length_app. cbn. lia.
Qed.

Lemma window_bounds w pos : 0 < w -> pos / w * w <= pos < (pos / w + 1) * w.
Proof. intros Hw. pose proof (Z.div_mod pos w). pose proof (Z.mod_pos_bound pos w Hw). lia. Qed.
Lemma overlap_first w s e : 0 < w -> s < e -> let pe := Z.min e ((s / w + 1) * w) in
  overlap w s e (s / w) = pe - s /\ overlap w pe e (s / w) = 0 /\ s < pe <= e.
Proof. intros Hw Hs pe. pose proof (window_bounds w s Hw). unfold overlap, pe. lia. Qed.
Lemma overlap_rest w s e j : 0 < w -> s < e -> j <> s / w -> overlap w s e j = overlap w (Z.min e ((s / w + 1) * w)) e j.
Proof.
  intros Hw Hs Hj. pose proof (window_bounds w s Hw). unfold overlap. destruct (Z.lt_ge_cases j (s / w)).
  - assert ((j + 1) * w <= s / w * w) by (apply Z.mul_le_mono_nonneg_r; lia). lia.
  - assert ((s / w + 1) * w <= j * w) by (apply Z.mul_le_mono_nonneg_r; lia). lia.
Qed.
Lemma overlap_nonneg w s e j : 0 <= overlap w s e j.
Proof. unfold overlap. lia. Qed.

(** The windows a segment touches. *)
Definition touched (w s e : Z) : nat := if s <? e then Z.to_nat ((e - 1) / w - s / w + 1) else 0.
Lemma touched_next w s e : 0 < w -> s < e -> touched w s e = S (touched w (Z.min e ((s / w + 1) * w)) e).
Proof.
  intros Hw Hs. unfold touched. rewrite (proj2 (Z.ltb_lt s e)) by done. pose proof (window_bounds w s Hw) as [B1 B2].
  destruct (Z.lt_ge_cases ((s / w + 1) * w) e) as [Hl|Hl].
  - rewrite Z.min_r by lia. rewrite (proj2 (Z.ltb_lt _ e)), Z.div_mul by lia. assert (s / w + 1 <= (e - 1) / w) by (apply Z.div_le_lower_bound; lia). lia.
  - rewrite Z.min_l by lia. rewrite (proj2 (Z.ltb_ge e e)) by lia. assert ((e - 1) / w = s / w) as ->.
    { symmetry. apply (Z.div_unique _ _ _ (e - 1 - s / w * w)); lia. } lia.
Qed.
Lemma touched_bound w s d : 0 < w -> 0 < d -> (touched w s (s + d) <= S (S (Z.to_nat (d / w))))%nat.
Proof.
  intros Hw Hd. unfold touched. rewrite (proj2 (Z.ltb_lt _ _)) by lia. pose proof (window_bounds w s Hw). pose proof (window_bounds w d Hw).
  assert ((s + d - 1) / w < s / w + d / w + 2) by (apply Z.div_lt_upper_bound; lia). assert (0 <= d / w) by (apply Z.div_pos; lia). lia.
Qed.

(** After a segment: [m] windows did not fit. *)
Record accounted (is_ls : bool) (w s e : Z) (a a' : span_acc) (m : nat) : Prop := {
  ac_total : 0 <= total_accounted a < 2 ^ 64 -> total_accounted a' = u64 (total_accounted a + Z.max 0 (e - s));
  ac_over : overflow_count a' = Nat.iter m (fun x => i32 (x + 1)) (overflow_count a);
  ac_none : is_ls = false -> windows a' = windows a;
  ac_time : is_ls = true -> m = 0%nat -> forall j, time (windows a') j =
    if overlap w s e j =? 0 then time (windows a) j else u64 (time (windows a) j + overlap w s e j);
  ac_length : (length (windows a') <= length (windows a) + touched w s e)%nat;
  ac_fits : (length (windows a) + touched w s e <= SPAN_MAX_WINDOWS)%nat -> m = 0%nat;
}.

Lemma iter_comm {A} (f : A -> A) n x : Nat.iter n f (f x) = f (Nat.iter n f x).
Proof. induction n as [|n IH]; [done|]. change (f (Nat.iter n f (f x)) = f (f (Nat.iter n f x))). by rewrite IH. Qed.

Lemma add_pieces_spec is_ls w e n : 0 < w -> e + w < 2 ^ 64 -> forall s a, 0 <= s -> (touched w s e <= n)%nat ->
  exists a' m, add_pieces n is_ls w e s a = Some a' /\ accounted is_ls w s e a a' m.
Proof.
  intros Hw He. induction n as [|n IH]; intros s a Hs Hn.
  - assert (e <= s) as Hse by (unfold touched in Hn; destruct (Z.ltb_spec s e) as [Hl|]; [|done]; assert (s / w <= (e - 1) / w) by (apply Z.div_le_mono; lia); lia).
    exists a, 0%nat. cbn. rewrite (proj2 (Z.ltb_ge s e)) by done. split; [done|]. split; try done.
    + intros Ht. rewrite Z.max_l, Z.add_0_r by lia. by rewrite u64_small.
    + intros _ _ j. assert (overlap w s e j = 0) as -> by (unfold overlap; lia). done.
    + lia.
  - destruct (Z.lt_ge_cases s e) as [Hl|Hse].
    2: { exists a, 0%nat. cbn. rewrite (proj2 (Z.ltb_ge s e)) by done. split; [done|]. split; try done.
      + intros Ht. rewrite Z.max_l, Z.add_0_r by lia. by rewrite u64_small.
      + intros _ _ j. assert (overlap w s e j = 0) as -> by (unfold overlap; lia). done.
      + lia. }
    pose proof (window_bounds w s Hw) as [B1 B2]. destruct (overlap_first w s e Hw Hl) as (O1 & O2 & O3). set (pe := Z.min e ((s / w + 1) * w)) in *.
    pose proof (touched_next w s e Hw Hl) as Ht. fold pe in Ht.
    cbn [add_pieces]. rewrite (proj2 (Z.ltb_lt s e)) by done. unfold piece_step. rewrite (u64_small ((s / w + 1) * w)) by lia.
    assert ((if (s / w + 1) * w <? e then (s / w + 1) * w else e) = pe) as -> by (unfold pe; destruct (Z.ltb_spec ((s / w + 1) * w) e); lia).
    rewrite (u64_small (pe - s)) by lia.
    assert (forall total, 0 <= total < 2 ^ 64 -> u64 (u64 (total + (pe - s)) + Z.max 0 (e - pe)) = u64 (total + Z.max 0 (e - s))) as Hsum.
    { intros total _. unfold u64. rewrite Zplus_mod_idemp_l. f_equal. lia. }
    destruct is_ls.
    + pose proof (find_credit (windows a) (s / w) (pe - s)) as Hfc. destruct (find_or_create (windows a) (s / w)) as [[k|] l'].
      * destruct Hfc as [F1 F2]. destruct (IH pe (mkSpan (credit k (pe - s) l') (u64 (total_accounted a + (pe - s))) (overflow_count a)) ltac:(lia) ltac:(lia)) as (a' & m & -> & [A1 A2 A3 A4 A5 A6]).
        cbn [windows total_accounted overflow_count] in *. exists a', m. split; [done|]. split; try done.
        -- intros Htot. rewrite A1 by apply u64_range. by apply Hsum.
        -- intros _ Hm j. rewrite A4, F1 by done. destruct (Z.eqb_spec j (s / w)) as [->|Hj].
           ++ rewrite O1, O2. cbn. rewrite (proj2 (Z.eqb_neq (pe - s) 0)) by lia. done.
           ++ rewrite (overlap_rest w s e j) by done. done.
        -- lia.
        -- intros Hfit. apply A6. lia.
      * destruct Hfc as [-> F2]. destruct (IH pe (mkSpan (windows a) (u64 (total_accounted a + (pe - s))) (i32 (overflow_count a + 1))) ltac:(lia) ltac:(lia)) as (a' & m & -> & [A1 A2 A3 A4 A5 A6]).
        cbn [windows total_accounted overflow_count] in *. exists a', (S m). split; [done|]. split; try done.
        -- intros Htot. rewrite A1 by apply u64_range. by apply Hsum.
        -- rewrite A2. by rewrite (iter_comm (fun x => i32 (x + 1))).
        -- lia.
        -- lia.
    + destruct (IH pe (mkSpan (windows a) (u64 (total_accounted a + (pe - s))) (overflow_count a)) ltac:(lia) ltac:(lia)) as (a' & m & -> & [A1 A2 A3 A4 A5 A6]).
      cbn [windows total_accounted overflow_count] in *. exists a', m. split; [done|]. split; try done.
      -- intros Htot. rewrite A1 by apply u64_range. by apply Hsum.
      -- lia.
      -- intros Hfit. apply A6. lia.
Qed.

Lemma add_segment_spec s d is_ls w a : 0 < w -> 0 < d -> 0 <= s -> s + d + w < 2 ^ 64 ->
  exists a' m, add_segment s d is_ls w a = Some a' /\ accounted is_ls w s (s + d) a a' m.
Proof.
  intros Hw Hd Hs He. unfold add_segment. rewrite (proj2 (Z.eqb_neq d 0)), (proj2 (Z.eqb_neq w 0)) by lia. cbn [orb]. rewrite u64_small by lia.
  apply add_pieces_spec; [done|lia|done|]. apply touched_bound; lia.
Qed.

(** What a span that changes priority at [c] credits to window [j]. *)
Definition ls_time (before_ls after_ls : bool) (w s c e j : Z) : Z :=
  (if before_ls then overlap w s c j else 0) + (if after_ls then overlap w c e j else 0).

(** add_span returns; the whole span is accounted, and when the table has
    room each window is credited with exactly the latency-sensitive part of
    the span that lies in it. *)
Theorem add_span_exact t_enter t_exit before_ls change_time after_ls w a :
  0 < w -> 0 <= t_enter < change_time -> change_time < t_exit -> t_exit + w < 2 ^ 64 -> 0 <= total_accounted a < 2 ^ 64 ->
  (forall j, 0 <= time (windows a) j < 2 ^ 64) ->
  (length (windows a) + touched w t_enter change_time + touched w change_time t_exit <= SPAN_MAX_WINDOWS)%nat ->
  exists a', add_span t_enter t_exit before_ls true change_time after_ls w a = Some a' /\
    total_accounted a' = u64 (total_accounted a + (t_exit - t_enter)) /\ overflow_count a' = overflow_count a /\
    forall j, time (windows a') j = u64 (time (windows a) j + ls_time before_ls after_ls w t_enter change_time t_exit j).
Proof.
  intros Hw H1 H2 He Ht Hr Hfit. unfold add_span. rewrite (proj2 (Z.leb_gt _ _)), (proj2 (Z.leb_gt change_time _)), (proj2 (Z.leb_gt t_exit change_time)) by lia. cbn [negb orb].
  rewrite !u64_small by lia. destruct (add_segment_spec t_enter (change_time - t_enter) before_ls w a) as (a1 & m1 & -> & [A1 A2 A3 A4 A5 A6]); [lia..|].
  cbn [mbind option_bind]. destruct (add_segment_spec change_time (t_exit - change_time) after_ls w a1) as (a2 & m2 & -> & [B1 B2 B3 B4 B5 B6]); [lia..|].
  replace (t_enter + (change_time - t_enter)) with change_time in * by lia. replace (change_time + (t_exit - change_time)) with t_exit in * by lia.
  assert (m1 = 0%nat) as -> by (apply A6; lia). assert (m2 = 0%nat) as -> by (apply B6; lia). exists a2. split; [done|]. split; [|split; [by rewrite B2|]].
  - rewrite B1 by (rewrite A1 by done; apply u64_range). rewrite A1 by done. unfold u64. rewrite Zplus_mod_idemp_l. f_equal. lia.
  - intros j. assert (time (windows a1) j = u64 (time (windows a) j + (if before_ls then overlap w t_enter change_time j else 0))) as E1.
    { destruct before_ls; [|rewrite A3, Z.add_0_r, u64_small by done; done]. rewrite A4 by done. destruct (Z.eqb_spec (overlap w t_enter change_time j) 0) as [E|]; [|done].
      rewrite E, Z.add_0_r. by rewrite u64_small. }
    assert (time (windows a2) j = u64 (time (windows a1) j + (if after_ls then overlap w change_time t_exit j else 0))) as ->.
    { destruct after_ls; [|rewrite B3, Z.add_0_r, u64_small by (done || (rewrite E1; apply u64_range)); done]. rewrite B4 by done.
      destruct (Z.eqb_spec (overlap w change_time t_exit j) 0) as [E|]; [|done]. rewrite E, Z.add_0_r. rewrite u64_small; [done|]. rewrite E1. apply u64_range. }
    rewrite E1. unfold u64, ls_time. rewrite Zplus_mod_idemp_l. f_equal. lia.
Qed.
(** The boot-time self test: a span over three windows of ten units. *)
Example span_split : option_map windows (add_span 5 27 true false 0 false 10 span_init) = Some [(0, 5); (1, 10); (2, 7)].
Proof. reflexivity. Qed.
