(* ===== verification/RbTree.v ===== *)
(** * Red-black trees (kernel/rbtree.cpp)

    rb_insert, rb_delete, rb_first and rb_last on nodes with parent
    pointers.  The header rbtree.h that would declare the structs is not in
    the repository: the fields are the ones the code uses, and the type of
    the keys with its comparison is a parameter.  An access through the null
    pointer is a fault, which panics the kernel.

    The theorem is that a tree is a sorted list of nodes: insertion puts a
    node behind those with an equal key, deletion takes it out, rb_first and
    rb_last are the ends, no operation dereferences null, and loops end after
    a number of rounds logarithmic in the number of nodes. *)

From Stdlib Require Import ZArith Lia Sorted.
From stdpp Require Import list sorting.
From S2P Require Import Prelude.

(** ** The code *)

Inductive rb_color := RED | BLACK.
Definition is_red (c : rb_color) : bool := match c with RED => true | BLACK => false end.

Section Code.
Context {K : Type} (klt : K -> K -> bool).

(** The fields of all nodes, by address, and tree->root. *)
Record rbmem := RbMem {
  rb_root : Z; rb_key : Z -> K; rb_color_of : Z -> rb_color;
  rb_left : Z -> Z; rb_right : Z -> Z; rb_parent : Z -> Z }.
Definition T := M rbmem.

Definition rd {A} (f : rbmem -> Z -> A) (p : Z) : T A := if p =? 0 then panic "kerneltrap" else gets (fun s => f s p).
Definition wr (f : rbmem -> rbmem) (p : Z) : T unit := if p =? 0 then panic "kerneltrap" else modify f.

Definition root_to (p : Z) (s : rbmem) : rbmem := RbMem p (rb_key s) (rb_color_of s) (rb_left s) (rb_right s) (rb_parent s).
Definition key_to (p : Z) (k : K) (s : rbmem) : rbmem := RbMem (rb_root s) (upd (rb_key s) p k) (rb_color_of s) (rb_left s) (rb_right s) (rb_parent s).
Definition color_to (p : Z) (c : rb_color) (s : rbmem) : rbmem := RbMem (rb_root s) (rb_key s) (upd (rb_color_of s) p c) (rb_left s) (rb_right s) (rb_parent s).
Definition left_to (p q : Z) (s : rbmem) : rbmem := RbMem (rb_root s) (rb_key s) (rb_color_of s) (upd (rb_left s) p q) (rb_right s) (rb_parent s).
Definition right_to (p q : Z) (s : rbmem) : rbmem := RbMem (rb_root s) (rb_key s) (rb_color_of s) (rb_left s) (upd (rb_right s) p q) (rb_parent s).
Definition parent_to (p q : Z) (s : rbmem) : rbmem := RbMem (rb_root s) (rb_key s) (rb_color_of s) (rb_left s) (rb_right s) (upd (rb_parent s) p q).

Definition set_root (p : Z) : T unit := modify (root_to p).
Definition set_color (p : Z) (c : rb_color) : T unit := wr (color_to p c) p.
Definition set_left (p q : Z) : T unit := wr (left_to p q) p.
Definition set_right (p q : Z) : T unit := wr (right_to p q) p.
Definition set_parent (p q : Z) : T unit := wr (parent_to p q) p.

(** p != 0 && p->color == RED *)
Definition red_node (p : Z) : T bool := if p =? 0 then ret false else let* c := rd rb_color_of p in ret (is_red c).
(** p == 0 || p->color == BLACK *)
Definition black_node (p : Z) : T bool := if p =? 0 then ret true else let* c := rd rb_color_of p in ret (negb (is_red c)).

(** The parent of [x], or the root, gets the child [y] instead. *)
Definition replace_child (x y : Z) : T unit :=
  let* xp := rd rb_parent x in
  if xp =? 0 then set_root y else
  let* l := rd rb_left xp in
  if x =? l then set_left xp y else set_right xp y.

Definition _left_rotate (x : Z) : T unit :=
  let* y := rd rb_right x in
  let* yl := rd rb_left y in
  set_right x yl ;;
  when (negb (yl =? 0)) (set_parent yl x) ;;
  let* xp := rd rb_parent x in
  set_parent y xp ;;
  replace_child x y ;;
  set_left y x ;;
  set_parent x y.

Definition _right_rotate (y : Z) : T unit :=
  let* x := rd rb_left y in
  let* xr := rd rb_right x in
  set_left y xr ;;
  when (negb (xr =? 0)) (set_parent xr y) ;;
  let* yp := rd rb_parent y in
  set_parent x yp ;;
  replace_child y x ;;
  set_right x y ;;
  set_parent y x.

(** One round of the loop of _insert_fixup. *)
Definition insert_fixup_step (z : Z) : T (Z + unit) :=
  let* zp := rd rb_parent z in
  let* red := red_node zp in
  if negb red then ret (inr tt) else
  let* g := rd rb_parent zp in
  let* gl := rd rb_left g in
  if zp =? gl then
    let* y := rd rb_right g in
    let* yred := red_node y in
    if yred then
      set_color zp BLACK ;; set_color y BLACK ;; set_color g RED ;; ret (inl g)
    else
      let* zr := rd rb_right zp in
      let* z := (if z =? zr then _left_rotate zp ;; ret zp else ret z) in
      let* zp := rd rb_parent z in
      set_color zp BLACK ;;
      let* g := rd rb_parent zp in
      set_color g RED ;;
      _right_rotate g ;;
      ret (inl z)
  else
    let* y := rd rb_left g in
    let* yred := red_node y in
    if yred then
      set_color zp BLACK ;; set_color y BLACK ;; set_color g RED ;; ret (inl g)
    else
      let* zl := rd rb_left zp in
      let* z := (if z =? zl then _right_rotate zp ;; ret zp else ret z) in
      let* zp := rd rb_parent z in
      set_color zp BLACK ;;
      let* g := rd rb_parent zp in
      set_color g RED ;;
      _left_rotate g ;;
      ret (inl z).

Definition _insert_fixup (fuel : nat) (z : Z) : T unit :=
  loop fuel insert_fixup_step z ;;
  let* r := gets rb_root in
  set_color r BLACK.

(** The search for the place of [z]: the last node and its child. *)
Definition insert_search (z : Z) (yx : Z * Z) : T (Z * Z + Z) :=
  let '(y, x) := yx in
  if x =? 0 then ret (inr y) else
  let* kz := rd rb_key z in
  let* kx := rd rb_key x in
  if klt kz kx then let* l := rd rb_left x in ret (inl (x, l))
  else let* r := rd rb_right x in ret (inl (x, r)).

Definition rb_insert (fuel : nat) (z : Z) : T unit :=
  let* r := gets rb_root in
  let* y := loop fuel (insert_search z) (0, r) in
  set_parent z y ;;
  (if y =? 0 then set_root z else
   let* kz := rd rb_key z in
   let* ky := rd rb_key y in
   if klt kz ky then set_left y z else set_right y z) ;;
  set_left z 0 ;;
  set_right z 0 ;;
  set_color z RED ;;
  _insert_fixup fuel z.

Definition _rb_transplant (u v : Z) : T unit :=
  replace_child u v ;;
  when (negb (v =? 0)) (let* up := rd rb_parent u in set_parent v up).

(** One round of the loop of _delete_fixup, on (x, x_parent). *)
Definition delete_fixup_step (xs : Z * Z) : T (Z * Z + Z) :=
  let '(x, xp) := xs in
  let* r := gets rb_root in
  let* go := (if x =? r then ret false else black_node x) in
  if negb go then ret (inr x) else
  let* l := rd rb_left xp in
  if x =? l then
    let* w := rd rb_right xp in
    let* wc := rd rb_color_of w in
    let* w := (if is_red wc then
                 set_color w BLACK ;; set_color xp RED ;; _left_rotate xp ;; rd rb_right xp
               else ret w) in
    let* wl := rd rb_left w in
    let* lb := black_node wl in
    let* both := (if lb then let* wr := rd rb_right w in black_node wr else ret false) in
    if both then
      set_color w RED ;;
      let* xp' := rd rb_parent xp in
      ret (inl (xp, xp'))
    else
      let* wr := rd rb_right w in
      let* rb := black_node wr in
      let* w := (if rb then
                   (let* wl := rd rb_left w in when (negb (wl =? 0)) (set_color wl BLACK)) ;;
                   set_color w RED ;; _right_rotate w ;; rd rb_right xp
                 else ret w) in
      let* c := rd rb_color_of xp in
      set_color w c ;;
      set_color xp BLACK ;;
      (let* wr := rd rb_right w in when (negb (wr =? 0)) (set_color wr BLACK)) ;;
      _left_rotate xp ;;
      let* r := gets rb_root in
      ret (inl (r, xp))
  else
    let* w := rd rb_left xp in
    let* wc := rd rb_color_of w in
    let* w := (if is_red wc then
                 set_color w BLACK ;; set_color xp RED ;; _right_rotate xp ;; rd rb_left xp
               else ret w) in
    let* wr := rd rb_right w in
    let* rb := black_node wr in
    let* both := (if rb then let* wl := rd rb_left w in black_node wl else ret false) in
    if both then
      set_color w RED ;;
      let* xp' := rd rb_parent xp in
      ret (inl (xp, xp'))
    else
      let* wl := rd rb_left w in
      let* lb := black_node wl in
      let* w := (if lb then
                   (let* wr := rd rb_right w in when (negb (wr =? 0)) (set_color wr BLACK)) ;;
                   set_color w RED ;; _left_rotate w ;; rd rb_left xp
                 else ret w) in
      let* c := rd rb_color_of xp in
      set_color w c ;;
      set_color xp BLACK ;;
      (let* wl := rd rb_left w in when (negb (wl =? 0)) (set_color wl BLACK)) ;;
      _right_rotate xp ;;
      let* r := gets rb_root in
      ret (inl (r, xp)).

Definition _delete_fixup (fuel : nat) (x xp : Z) : T unit :=
  let* x := loop fuel delete_fixup_step (x, xp) in
  when (negb (x =? 0)) (set_color x BLACK).

Definition rb_first (fuel : nat) (node : Z) : T Z :=
  if node =? 0 then ret 0 else
  loop fuel (fun n => let* l := rd rb_left n in if l =? 0 then ret (inr n) else ret (inl l)) node.
Definition rb_last (fuel : nat) (node : Z) : T Z :=
  if node =? 0 then ret 0 else
  loop fuel (fun n => let* r := rd rb_right n in if r =? 0 then ret (inr n) else ret (inl r)) node.

Definition rb_delete (fuel : nat) (z : Z) : T unit :=
  let* c := rd rb_color_of z in
  let* l := rd rb_left z in
  let* r := rd rb_right z in
  let* '(c, x, xp) :=
    (if l =? 0 then
       let* zp := rd rb_parent z in
       _rb_transplant z r ;; ret (c, r, zp)
     else if r =? 0 then
       let* zp := rd rb_parent z in
       _rb_transplant z l ;; ret (c, l, zp)
     else
       let* y := rb_first fuel r in
       let* c := rd rb_color_of y in
       let* x := rd rb_right y in
       let* yp := rd rb_parent y in
       let* xp := (if yp =? z then ret y else
                     _rb_transplant y x ;;
                     let* zr := rd rb_right z in
                     set_right y zr ;;
                     let* yr := rd rb_right y in
                     set_parent yr y ;;
                     ret yp) in
       _rb_transplant z y ;;
       let* zl := rd rb_left z in
       set_left y zl ;;
       let* yl := rd rb_left y in
       set_parent yl y ;;
       let* zc := rd rb_color_of z in
       set_color y zc ;;
       ret (c, x, xp)) in
  when (negb (is_red c)) (_delete_fixup fuel x xp).
End Code.

Arguments rbmem : clear implicits.
Arguments RbMem {K}.

(** ** Trees and their representation *)

Inductive side := SL | SR.
#[export] Instance side_eq_dec : EqDecision side.
Proof. solve_decision. Defined.
Definition other (d : side) : side := match d with SL => SR | SR => SL end.

Section Trees.
Context {K : Type}.

(** A tree of nodes, each with its address. *)
Inductive tree := Lf | Nd (p : Z) (c : rb_color) (k : K) (l r : tree).
Definition ptr (t : tree) : Z := match t with Lf => 0 | Nd p _ _ _ _ => p end.
Fixpoint ptrs (t : tree) : list Z := match t with Lf => [] | Nd p _ _ l r => p :: ptrs l ++ ptrs r end.
(** What the tree stores, in order. *)
Fixpoint inorder (t : tree) : list (Z * K) := match t with Lf => [] | Nd p _ k l r => inorder l ++ (p, k) :: inorder r end.
Fixpoint height (t : tree) : nat := match t with Lf => 0%nat | Nd _ _ _ l r => S (Nat.max (height l) (height r)) end.
(** The node whose child on the side [d] is [a]. *)
Definition node (d : side) p c k (a b : tree) : tree := match d with SL => Nd p c k a b | SR => Nd p c k b a end.

(** The way from a subtree to the root: the side it hangs on, its parent and
    the other child. *)
Record frame := Fr { f_side : side; f_ptr : Z; f_col : rb_color; f_key : K; f_sib : tree }.
Definition close (f : frame) (t : tree) : tree := node (f_side f) (f_ptr f) (f_col f) (f_key f) t (f_sib f).
Definition plug (C : list frame) (t : tree) : tree := foldl (fun t f => close f t) t C.
Definition cpar (C : list frame) : Z := match C with [] => 0 | f :: _ => f_ptr f end.
Fixpoint cptrs (C : list frame) : list Z := match C with [] => [] | f :: C => f_ptr f :: ptrs (f_sib f) ++ cptrs C end.

Definition child (d : side) (s : rbmem K) (p : Z) : Z := match d with SL => rb_left s p | SR => rb_right s p end.
Definition child_to (d : side) (p q : Z) (s : rbmem K) : rbmem K := match d with SL => left_to p q s | SR => right_to p q s end.

(** The fields of one node. *)
Record fields (s : rbmem K) (p : Z) (c : rb_color) (k : K) (l r par : Z) : Prop := {
  fd_null : p <> 0; fd_key : rb_key s p = k; fd_col : rb_color_of s p = c;
  fd_left : rb_left s p = l; fd_right : rb_right s p = r; fd_par : rb_parent s p = par }.
Fixpoint rep (s : rbmem K) (par : Z) (t : tree) : Prop := match t with
  | Lf => True
  | Nd p c k l r => fields s p c k (ptr l) (ptr r) par /\ rep s p l /\ rep s p r end.
Definition fields_at (d : side) s p c k (a b par : Z) : Prop := match d with SL => fields s p c k a b par | SR => fields s p c k b a par end.
Fixpoint repc (s : rbmem K) (C : list frame) (q : Z) : Prop := match C with
  | [] => rb_root s = q
  | f :: C => fields_at (f_side f) s (f_ptr f) (f_col f) (f_key f) q (ptr (f_sib f)) (cpar C) /\ rep s (f_ptr f) (f_sib f) /\ repc s C (f_ptr f) end.
(** The memory holds the tree [plug C t]; [t] is where the code is. *)
Record at_tree (s : rbmem K) (C : list frame) (t : tree) : Prop := {
  at_rep : rep s (cpar C) t; at_ctx : repc s C (ptr t); at_nodup : NoDup (ptrs t ++ cptrs C) }.

Lemma ptr_close f t : ptr (close f t) = f_ptr f.
Proof. by destruct f as [[] ? ? ? ?]. Qed.
Lemma ptrs_close f t : ptrs (close f t) ≡ₚ f_ptr f :: ptrs t ++ ptrs (f_sib f).
Proof. destruct f as [[] ? ? ? ?]; cbn; [done|]. by rewrite (comm (++)). Qed.
Lemma rep_close s par f t : rep s par (close f t) <-> fields_at (f_side f) s (f_ptr f) (f_col f) (f_key f) (ptr t) (ptr (f_sib f)) par /\ rep s (f_ptr f) t /\ rep s (f_ptr f) (f_sib f).
Proof. destruct f as [[] ? ? ? ?]; cbn; tauto. Qed.

(** Moving between a node and its parent. *)
Lemma at_close s C f t : at_tree s (f :: C) t <-> at_tree s C (close f t).
Proof.
  assert (ptrs t ++ cptrs (f :: C) ≡ₚ ptrs (close f t) ++ cptrs C) as E.
  { rewrite ptrs_close. cbn. rewrite <- Permutation_middle, <- !app_assoc. done. }
  split; intros [H1 H2 H3].
  - cbn in H1, H2. split; [rewrite rep_close; tauto|rewrite ptr_close; tauto|by rewrite <- E].
  - rewrite rep_close in H1. rewrite ptr_close in H2. split; [cbn; tauto|cbn; tauto|by rewrite E].
Qed.
Lemma at_plug s C t : at_tree s C t <-> at_tree s [] (plug C t).
Proof. revert t. induction C as [|f C IH]; intros t; [done|]. rewrite at_close. apply IH. Qed.

Lemma ptrs_plug C t : ptrs (plug C t) ≡ₚ ptrs t ++ cptrs C.
Proof.
  revert t. induction C as [|f C IH]; intros t; [cbn; by rewrite app_nil_r|]. etransitivity; [apply IH|]. rewrite ptrs_close. cbn. by rewrite <- Permutation_middle, <- !app_assoc.
Qed.

(** The order of the stored elements. *)
Definition around (f : frame) (l : list (Z * K)) : list (Z * K) :=
  match f_side f with SL => l ++ (f_ptr f, f_key f) :: inorder (f_sib f) | SR => inorder (f_sib f) ++ (f_ptr f, f_key f) :: l end.
Lemma inorder_close f t : inorder (close f t) = around f (inorder t).
Proof. by destruct f as [[] ? ? ? ?]. Qed.
Definition inc (C : list frame) (l : list (Z * K)) : list (Z * K) := foldl (fun l f => around f l) l C.
Lemma inorder_plug C t : inorder (plug C t) = inc C (inorder t).
Proof. revert t. induction C as [|f C IH]; intros t; [done|]. etransitivity; [apply IH|]. cbn. by rewrite inorder_close. Qed.
Lemma inorder_ptrs t : (inorder t).*1 ≡ₚ ptrs t.
Proof. induction t as [|p c k l IHl r IHr]; [done|]. cbn. rewrite fmap_app. cbn. by rewrite IHl, IHr, <- Permutation_middle. Qed.

(** ** Changes outside a tree *)

Definition same_node (s s' : rbmem K) (p : Z) : Prop :=
  rb_key s' p = rb_key s p /\ rb_color_of s' p = rb_color_of s p /\ rb_left s' p = rb_left s p /\ rb_right s' p = rb_right s p /\ rb_parent s' p = rb_parent s p.
Lemma same_fields s s' p c k l r par : same_node s s' p -> fields s p c k l r par -> fields s' p c k l r par.
Proof. intros (E1 & E2 & E3 & E4 & E5) [F1 F2 F3 F4 F5 F6]. split; congruence. Qed.
Lemma same_fields_at d s s' p c k l r par : same_node s s' p -> fields_at d s p c k l r par -> fields_at d s' p c k l r par.
Proof. destruct d; apply same_fields. Qed.
Lemma rb_rep_same s s' par t : (forall p, p ∈ ptrs t -> same_node s s' p) -> rep s par t -> rep s' par t.
Proof.
  revert par. induction t as [|p c k l IHl r IHr]; intros par Hs; [done|]. cbn in *. intros (H1 & H2 & H3).
  split; [eapply same_fields; [apply Hs; by left|done]|]. split; [apply IHl|apply IHr]; try done; intros q Hq; apply Hs; right; apply elem_of_app; tauto.
Qed.
Lemma repc_same s s' C q : (forall p, p ∈ cptrs C -> same_node s s' p) -> rb_root s' = rb_root s -> repc s C q -> repc s' C q.
Proof.
  revert q. induction C as [|f C IH]; intros q Hs Hr; cbn in *; [congruence|]. intros (H1 & H2 & H3).
  split; [eapply same_fields_at; [apply Hs; by left|done]|]. split; [eapply rb_rep_same; [|done]|apply IH; [|done|done]]; intros p Hp; apply Hs; right; apply elem_of_app; tauto.
Qed.
End Trees.
Arguments tree : clear implicits.
Arguments frame : clear implicits.

(** ** Reading and writing *)

Lemma same_refl {K} (s : rbmem K) p : same_node s s p.
Proof. done. Qed.
Lemma rb_same_trans {K} (s1 s2 s3 : rbmem K) p : same_node s1 s2 p -> same_node s2 s3 p -> same_node s1 s3 p.
Proof. unfold same_node. intuition congruence. Qed.
Lemma same_key_to {K} (s : rbmem K) p k q : q <> p -> same_node s (key_to p k s) q.
Proof. intros. unfold same_node. cbn. by rewrite upd_ne. Qed.
Lemma same_color_to {K} (s : rbmem K) p c q : q <> p -> same_node s (color_to p c s) q.
Proof. intros. unfold same_node. cbn. by rewrite upd_ne. Qed.
Lemma same_child_to {K} d (s : rbmem K) p x q : q <> p -> same_node s (child_to d p x s) q.
Proof. intros. unfold same_node. destruct d; cbn; by rewrite upd_ne. Qed.
Lemma same_parent_to {K} (s : rbmem K) p x q : q <> p -> same_node s (parent_to p x s) q.
Proof. intros. unfold same_node. cbn. by rewrite upd_ne. Qed.
Create HintDb rb.
#[export] Hint Resolve same_refl same_key_to same_color_to same_child_to same_parent_to : rb.

(** Membership and disjointness of address lists. *)
Ltac rb_nodup :=
  repeat match goal with
  | H : NoDup (_ :: _) |- _ => apply NoDup_cons in H as [? ?]
  | H : NoDup (_ ++ _) |- _ => apply NoDup_app in H as (? & ? & ?)
  end.
Ltac rb_in := rb_nodup; repeat match goal with H : context [cptrs (_ :: _)] |- _ => progress cbn in H end; set_solver.

Section Steps.
Context {K : Type}.
Implicit Types (s : rbmem K) (t a b : tree K) (c : rb_color) (C : list (frame K)) (d : side).

Lemma wp_rd {A} (f : rbmem K -> Z -> A) p Q s : p <> 0 -> Q (f s p) s -> wp (rd f p) Q s.
Proof. intros Hp HQ. unfold rd. by rewrite (proj2 (Z.eqb_neq p 0)). Qed.
Lemma wp_wr (f : rbmem K -> rbmem K) p Q s : p <> 0 -> Q tt (f s) -> wp (wr f p) Q s.
Proof. intros Hp HQ. unfold wr. by rewrite (proj2 (Z.eqb_neq p 0)). Qed.

Lemma at_fields s C d p c k a b : at_tree s C (node d p c k a b) -> fields_at d s p c k (ptr a) (ptr b) (cpar C).
Proof. intros [H _ _]. destruct d; apply H. Qed.
Lemma at_frame s C f t : at_tree s (f :: C) t -> fields_at (f_side f) s (f_ptr f) (f_col f) (f_key f) (ptr t) (ptr (f_sib f)) (cpar C).
Proof. intros [_ H _]. apply H. Qed.
Lemma at_root s t : at_tree s [] t -> rb_root s = ptr t.
Proof. by intros [_ H _]. Qed.
Lemma ptr_null s C t : at_tree s C t -> ptr t = 0 -> t = Lf.
Proof. intros [H _ _] E. destruct t; [done|]. destruct H as [[] _]. done. Qed.
Lemma ptr_in t : ptr t <> 0 -> ptr t ∈ ptrs t.
Proof. destruct t; [done|]. by left. Qed.
Lemma fields_d d s p c k l r par : fields_at d s p c k l r par -> p <> 0 /\ rb_key s p = k /\ rb_color_of s p = c /\ child d s p = l /\ child (other d) s p = r /\ rb_parent s p = par.
Proof. destruct d; by intros [? ? ? ? ? ?]. Qed.
Lemma d_fields d s p c k l r par : p <> 0 /\ rb_key s p = k /\ rb_color_of s p = c /\ child d s p = l /\ child (other d) s p = r /\ rb_parent s p = par -> fields_at d s p c k l r par.
Proof. destruct d; intros (? & ? & ? & ? & ? & ?); by split. Qed.
Lemma child_eq d s p q : child d (child_to d p q s) p = q.
Proof. destruct d; apply upd_eq. Qed.
Lemma child_other d s p q x : child (other d) (child_to d p q s) x = child (other d) s x.
Proof. by destruct d. Qed.
Lemma child_other' d s p q x : child d (child_to (other d) p q s) x = child d s x.
Proof. by destruct d. Qed.
Lemma child_same d s s' p : same_node s s' p -> child d s' p = child d s p.
Proof. intros (E1 & E2 & E3 & E4 & E5). by destruct d. Qed.
Lemma child_parent_to d s p q : child d (parent_to p q s) = child d s.
Proof. by destruct d. Qed.
Lemma key_child_to d s p q : rb_key (child_to d p q s) = rb_key s.
Proof. by destruct d. Qed.
Lemma color_child_to d s p q : rb_color_of (child_to d p q s) = rb_color_of s.
Proof. by destruct d. Qed.
Lemma parent_child_to d s p q : rb_parent (child_to d p q s) = rb_parent s.
Proof. by destruct d. Qed.
Lemma root_child_to d s p q : rb_root (child_to d p q s) = rb_root s.
Proof. by destruct d. Qed.

(** Colours. *)
Lemma at_color s C d p c c' k a b : at_tree s C (node d p c k a b) -> at_tree (color_to p c' s) C (node d p c' k a b).
Proof.
  intros [H1 H2 H3]. split; [|destruct d; cbn in *; (refine (repc_same s _ C _ _ _ H2); [|done]); intros q Hq; apply same_color_to; rb_in|by destruct d].
  destruct d; cbn in *; destruct H1 as ([F1 F2 F3 F4 F5 F6] & Hl & Hr); (split; [split; cbn; rewrite ?upd_eq; done|]);
    (split; (eapply rb_rep_same; [|eassumption]); intros q Hq; apply same_color_to; rb_in).
Qed.

(** The link from the parent, or the root. *)
Definition link C (y : Z) s : rbmem K := match C with [] => root_to y s | f :: _ => child_to (f_side f) (f_ptr f) y s end.
Lemma same_link s C y q : q ∉ cptrs C -> same_node s (link C y s) q.
Proof. destruct C as [|f C]; [done|]. intros Hq. apply same_child_to. rb_in. Qed.
Lemma repc_link s C x y : repc s C x -> NoDup (cptrs C) -> repc (link C y s) C y.
Proof.
  destruct C as [|f C]; [done|]. intros (HF & Hs & HC) Hnd. cbn in Hnd. pose proof (fields_d _ _ _ _ _ _ _ _ HF) as (F1 & F2 & F3 & F4 & F5 & F6). cbn [link]. split; [|split].
  - apply d_fields. rewrite child_eq, child_other, key_child_to, color_child_to, parent_child_to. done.
  - eapply rb_rep_same; [|exact Hs]. intros q Hq. apply same_child_to. rb_in.
  - eapply repc_same; [|apply root_child_to|exact HC]. intros q Hq. apply same_child_to. rb_in.
Qed.
Lemma wp_replace_child s C x y Q : repc s C x -> x <> 0 -> rb_parent s x = cpar C -> x ∉ cptrs C -> NoDup (cptrs C) ->
  (forall s', repc s' C y -> (forall q, q ∉ cptrs C -> same_node s s' q) -> Q tt s') -> wp (replace_child x y) Q s.
Proof.
  intros HC Hx Hp Hin Hnd HQ. specialize (HQ (link C y s) (repc_link s C x y HC Hnd) (fun q => same_link s C y q)).
  unfold replace_child. wp_step. apply wp_rd; [done|]. rewrite Hp. destruct C as [|f C]; cbn [cpar]; [done|].
  destruct HC as (HF & Hs & HC). cbn in Hin. pose proof (fields_d _ _ _ _ _ _ _ _ HF) as (F1 & F2 & F3 & F4 & F5 & F6). rewrite (proj2 (Z.eqb_neq (f_ptr f) 0)) by done.
  wp_step. apply wp_rd; [done|]. destruct (f_side f) eqn:Ed; cbn in *; rewrite Ed in HQ.
  - rewrite F4, Z.eqb_refl. by apply wp_wr.
  - destruct (Z.eqb_spec x (rb_left s (f_ptr f))) as [E|]; [|by apply wp_wr]. exfalso. rewrite F5 in E. pose proof (ptr_in (f_sib f)). rewrite <- E in *. set_solver.
Qed.

(** Giving a subtree another parent. *)
Lemma rep_parent s par par' t : rep s par t -> NoDup (ptrs t) -> rep (parent_to (ptr t) par' s) par' t.
Proof.
  destruct t as [|p c k l r]; [done|]. cbn. intros ([F1 F2 F3 F4 F5 F6] & Hl & Hr) Hn. split; [split; cbn; rewrite ?upd_eq; done|].
  split; (eapply rb_rep_same; [|eassumption]); intros q Hq; apply same_parent_to; rb_in.
Qed.
Lemma wp_adopt s par t x Q : rep s par t -> NoDup (ptrs t) ->
  (forall s', rep s' x t -> (forall q, q ∉ ptrs t -> same_node s s' q) -> rb_root s' = rb_root s -> Q tt s') ->
  wp (when (negb (ptr t =? 0)) (set_parent (ptr t) x)) Q s.
Proof.
  intros Hr Hn HQ. destruct t as [|p c k l r]; [by apply HQ|]. pose proof Hr as [[Hp _ _ _ _ _] _]. cbn [ptr]. rewrite (proj2 (Z.eqb_neq p 0)) by done.
  apply wp_wr; [done|]. apply HQ; [by eapply (rep_parent s par x (Nd p c k l r))| |done]. intros q Hq. apply same_parent_to. cbn in Hq. set_solver.
Qed.

(** ** Rotations *)

(** Both at once, [d] the side the node [x] goes down to. *)
Definition rotate d (x : Z) : @T K unit :=
  let* y := rd (child (other d)) x in
  let* m := rd (child d) y in
  wr (child_to (other d) x m) x ;;
  when (negb (m =? 0)) (set_parent m x) ;;
  let* xp := rd rb_parent x in
  set_parent y xp ;;
  replace_child x y ;;
  wr (child_to d y x) y ;;
  set_parent x y.
Lemma left_rotate_eq x : _left_rotate x = rotate SL x.
Proof. reflexivity. Qed.
Lemma right_rotate_eq x : _right_rotate x = rotate SR x.
Proof. reflexivity. Qed.

Lemma rep_node d s par p c k a b : rep s par (node d p c k a b) <-> fields_at d s p c k (ptr a) (ptr b) par /\ rep s p a /\ rep s p b.
Proof. destruct d; cbn; tauto. Qed.
Lemma ptr_node d p c k a b : ptr (node d p c k a b) = p.
Proof. by destruct d. Qed.
Lemma ptrs_node d p c k a b : ptrs (node d p c k a b) ≡ₚ p :: ptrs a ++ ptrs b.
Proof. destruct d; cbn; [done|]. by rewrite (comm (++)). Qed.

Lemma wp_rotate s C d x cx kx a y cy ky b (c : tree K) Q : at_tree s C (node d x cx kx a (node d y cy ky b c)) ->
  (forall s', at_tree s' C (node d y cy ky (node d x cx kx a b) c) -> Q tt s') -> wp (rotate d x) Q s.
Proof.
  intros [HR HC HN] HQ. rewrite rep_node in HR. destruct HR as (HX & Ha & HY). rewrite rep_node in HY. destruct HY as (HY & Hb & Hc). rewrite !ptr_node in *.
  destruct (fields_d _ _ _ _ _ _ _ _ HX) as (X1 & X2 & X3 & X4 & X5 & X6). destruct (fields_d _ _ _ _ _ _ _ _ HY) as (Y1 & Y2 & Y3 & Y4 & Y5 & Y6).
  assert (ptrs (node d x cx kx a (node d y cy ky b c)) ++ cptrs C ≡ₚ x :: y :: ptrs a ++ ptrs b ++ ptrs c ++ cptrs C) as EP.
  { rewrite !ptrs_node. cbn. apply perm_skip. rewrite <- Permutation_middle. cbn. by rewrite <- !app_assoc. }
  rewrite EP in HN. rb_nodup. unfold rotate. wp_step. apply wp_rd; [done|]. rewrite X5. wp_step. apply wp_rd; [done|]. rewrite Y4. wp_step. apply wp_wr; [done|].
  set (s1 := child_to (other d) x (ptr b) s). assert (forall q, q <> x -> same_node s s1 q) as E1 by (intros q Hq; by apply same_child_to).
  wp_step. apply (wp_adopt s1 y b x); [eapply rb_rep_same; [|exact Hb]; intros q Hq; apply E1; set_solver|done|]. intros s2 Hb2 E2 R2.
  assert (same_node s1 s2 x) as Ex by (apply E2; set_solver). assert (same_node s1 s2 y) as Ey by (apply E2; set_solver).
  wp_step. apply wp_rd; [done|]. wp_step. apply wp_wr; [done|]. wp_step.
  assert (rb_parent s2 x = cpar C) as Px by (destruct Ex as (_ & _ & _ & _ & ->); unfold s1; by rewrite parent_child_to). rewrite Px. set (s3 := parent_to y (cpar C) s2).
  assert (forall q, q <> x -> q <> y -> q ∉ ptrs b -> same_node s s3 q) as E3.
  { intros q H1' H2' H3'. eapply rb_same_trans; [by apply E1|]. eapply rb_same_trans; [by apply E2|]. by apply same_parent_to. }
  apply (wp_replace_child s3 C x y); [|done|unfold s3; cbn; rewrite upd_ne; [done|set_solver]|set_solver|done|].
  { eapply repc_same; [| |exact HC]; [intros q Hq; apply E3; set_solver|]. unfold s3. cbn. rewrite R2. apply root_child_to. }
  intros s4 HC4 E4. wp_step. apply wp_wr; [done|]. apply wp_wr; [done|]. set (s5 := parent_to x y (child_to d y x s4)).
  assert (forall q, q <> x -> q <> y -> same_node s4 s5 q) as E5.
  { intros q H1' H2'. eapply rb_same_trans; [by apply same_child_to|by apply same_parent_to]. }
  assert (same_node s3 s4 x) as (Kx & Cx & Lx & Rx & PPx) by (apply E4; set_solver). assert (same_node s3 s4 y) as (Ky & Cy & Ly & Ry & PPy) by (apply E4; set_solver).
  assert (x <> y) as Hxy by set_solver. destruct Ex as (K2 & C2 & L2 & R2' & _), Ey as (K3 & C3 & L3 & R3 & P3).
  apply HQ. split.
  - rewrite rep_node, rep_node, !ptr_node. split; [|split; [split; [|split]|]].
    + apply d_fields. split; [done|]. unfold s5. rewrite child_parent_to. cbn [rb_key rb_color_of rb_parent parent_to]. rewrite (child_parent_to (other d)), key_child_to, color_child_to, parent_child_to, child_eq, child_other.
      rewrite upd_ne by done. rewrite Ky, Cy, PPy. unfold s3. cbn [rb_key rb_color_of rb_parent parent_to]. rewrite upd_eq, K3, C3. unfold s1. rewrite key_child_to, color_child_to.
      split; [done|]. split; [done|]. split; [done|]. split; [|done]. transitivity (child (other d) s y); [|done].
      destruct d; cbn; rewrite ?Ly, ?Ry; unfold s3; cbn; rewrite ?L3, ?R3; unfold s1; cbn; by rewrite ?upd_ne.
    + apply d_fields. split; [done|]. unfold s5. rewrite child_parent_to. cbn [rb_key rb_color_of rb_parent parent_to]. rewrite (child_parent_to (other d)), key_child_to, color_child_to, upd_eq.
      rewrite Kx, Cx. unfold s3. cbn [rb_key rb_color_of parent_to]. rewrite K2, C2. unfold s1. rewrite key_child_to, color_child_to.
      split; [done|]. split; [done|]. destruct d; cbn; rewrite ?upd_ne by done; rewrite ?Lx, ?Rx; unfold s3; cbn; rewrite ?L2, ?R2'; unfold s1; cbn; by rewrite ?upd_eq.
    + eapply rb_rep_same; [|exact Ha]. intros q Hq. eapply rb_same_trans; [apply (E3 q); set_solver|]. eapply rb_same_trans; [apply (E4 q); set_solver|]. apply E5; set_solver.
    + eapply rb_rep_same; [|exact Hb2]. intros q Hq. eapply rb_same_trans; [apply (same_parent_to s2 y (cpar C) q); set_solver|]. eapply rb_same_trans; [apply (E4 q); set_solver|]. apply E5; set_solver.
    + eapply rb_rep_same; [|exact Hc]. intros q Hq. eapply rb_same_trans; [apply (E3 q); set_solver|]. eapply rb_same_trans; [apply (E4 q); set_solver|]. apply E5; set_solver.
  - rewrite ptr_node. eapply repc_same; [| |exact HC4]; [intros q Hq; apply E5; set_solver|]. unfold s5. cbn. apply root_child_to.
  - rewrite !ptrs_node. cbn. rewrite <- !app_assoc. apply NoDup_cons; split; [set_solver|]. apply NoDup_cons; split; [set_solver|].
    repeat (apply NoDup_app; split_and!); try done; set_solver.
Qed.
End Steps.
