(* ===== verification/RbInv.v ===== *)
(** * Balance of red-black trees (kernel/rbtree.cpp)

    The colour invariant, the repair after an insertion and after a deletion,
    and the theorem that a tree implements a sorted list of nodes. *)

From Stdlib Require Import ZArith Lia Sorted.
From stdpp Require Import list sorting.
From S2P Require Import Prelude RbTree.

(** Equality of concatenations. *)
Ltac app_norm := cbn; repeat (rewrite <- app_assoc; cbn); done.

Section Balance.
Context {K : Type}.
Implicit Types (s : rbmem K) (t a b : tree K) (c : rb_color) (C : list (frame K)) (d : side) (f : frame K).

(** ** The invariant *)

Definition col t : rb_color := match t with Lf => BLACK | Nd _ c _ _ _ => c end.
(** Every path down meets [n] black nodes. *)
Fixpoint bal (n : nat) t : Prop := match t with
  | Lf => n = 0%nat
  | Nd _ RED _ l r => bal n l /\ bal n r
  | Nd _ BLACK _ l r => match n with O => False | S m => bal m l /\ bal m r end end.
(** No red node has a red child. *)
Fixpoint nored t : Prop := match t with
  | Lf => True
  | Nd _ c _ l r => (c = RED -> col l = BLACK /\ col r = BLACK) /\ nored l /\ nored r end.
(** The same of the rest of the tree, for a subtree of black height [n]. *)
Definition up_height c (n : nat) : nat := match c with RED => n | BLACK => S n end.
Fixpoint balc (n : nat) C : Prop := match C with [] => True | f :: C => bal n (f_sib f) /\ balc (up_height (f_col f) n) C end.
(** The root of the tree has to be black, as if it hung on a red node. *)
Definition ctop C : rb_color := match C with [] => RED | f :: _ => f_col f end.
Fixpoint noredc C : Prop := match C with [] => True | f :: C => nored (f_sib f) /\ (f_col f = RED -> col (f_sib f) = BLACK /\ ctop C = BLACK) /\ noredc C end.
Record fits (n : nat) C t : Prop := {
  ft_bal : bal n t; ft_balc : balc n C; ft_red : nored t; ft_redc : noredc C; ft_top : col t = RED -> ctop C = BLACK }.
(** A red-black tree. *)
Definition rb_ok t : Prop := exists n, fits n [] t.

Lemma other_other d : other (other d) = d.
Proof. by destruct d. Qed.
Lemma node_other d p c k a b : node (other d) p c k b a = node d p c k a b.
Proof. by destruct d. Qed.
Lemma node_any d t : t <> Lf -> exists p c k a b, t = node d p c k a b.
Proof. destruct t as [|p c k l r]; [done|]. intros _. destruct d; [by exists p, c, k, l, r|by exists p, c, k, r, l]. Qed.
Lemma col_node d p c k a b : col (node d p c k a b) = c.
Proof. by destruct d. Qed.
Lemma bal_node n d p c k a b : bal n (node d p c k a b) <-> match c with RED => bal n a /\ bal n b | BLACK => match n with O => False | S m => bal m a /\ bal m b end end.
Proof. destruct d, c, n; cbn; tauto. Qed.
Lemma bal_up n d p c k a b : bal n a -> bal n b -> bal (up_height c n) (node d p c k a b).
Proof. intros. rewrite bal_node. by destruct c. Qed.
Lemma nored_node d p c k a b : nored (node d p c k a b) <-> (c = RED -> col a = BLACK /\ col b = BLACK) /\ nored a /\ nored b.
Proof. destruct d; cbn; tauto. Qed.
Lemma not_red c : c <> RED <-> c = BLACK.
Proof. by destruct c. Qed.
Lemma close_node f t : close f t = node (f_side f) (f_ptr f) (f_col f) (f_key f) t (f_sib f).
Proof. done. Qed.

Lemma fits_up n C f t : fits n (f :: C) t -> fits (up_height (f_col f) n) C (close f t).
Proof.
  intros [H1 [H2 H2'] H3 (H4 & H5 & H6) H7]. rewrite close_node. split; [by apply bal_up|done| |done|].
  - rewrite nored_node. split; [|done]. intros E. split; [|by apply H5]. apply not_red. intros Ht. specialize (H7 Ht). cbn in H7. congruence.
  - rewrite col_node. intros E. by apply H5.
Qed.
Lemma fits_down N C f t : fits N C (close f t) -> exists n, fits n (f :: C) t.
Proof.
  rewrite close_node. intros [H1 H2 H3 H4 H5]. rewrite bal_node in H1. rewrite nored_node in H3. rewrite col_node in H5. destruct H3 as (H3 & H3' & H3'').
  assert (exists n, N = up_height (f_col f) n /\ bal n t /\ bal n (f_sib f)) as (n & -> & Ht & Hs) by (destruct (f_col f); [by exists N|destruct N; [done|by exists N]]).
  exists n. split; [done|done|done| |].
  - split; [done|]. split; [|done]. intros E. split; [by apply H3|by apply H5].
  - intros E. cbn. apply not_red. intros Er. destruct (H3 Er) as [Hb _]. congruence.
Qed.
Lemma fits_plug n C t : fits n C t -> rb_ok (plug C t).
Proof. revert n t. induction C as [|f C IH]; intros n t H; [by exists n|]. by eapply IH, fits_up. Qed.

Lemma fits_unplug C t : rb_ok (plug C t) -> exists n, fits n C t.
Proof. revert t. induction C as [|f C IH]; intros t H; [done|]. destruct (IH _ H) as [n Hn]. by eapply fits_down. Qed.

(** The height is logarithmic. *)
Fixpoint size t : nat := match t with Lf => 0%nat | Nd _ _ _ l r => S (size l + size r) end.
Lemma size_inorder t : length (inorder t) = size t.
Proof. induction t as [|p c k l IHl r IHr]; [done|]. cbn. rewrite length_app. cbn. lia. Qed.
Lemma bal_height t : forall n, bal n t -> nored t -> (height t <= 2 * n + (if is_red (col t) then 1 else 0))%nat /\ (2 ^ n <= S (size t))%nat.
Proof.
  induction t as [|p c k l IHl r IHr]; intros n Hb Hr; cbn in *; [subst; cbn; lia|]. destruct Hr as (Hc & Hl & Hr). destruct c; cbn.
  - destruct Hb as [B1 B2], (Hc eq_refl) as [C1 C2]. destruct (IHl n B1 Hl) as [L1 L2], (IHr n B2 Hr) as [R1 R2]. rewrite C1 in L1. rewrite C2 in R1. cbn in *. lia.
  - destruct n as [|n]; [done|]. destruct Hb as [B1 B2]. destruct (IHl n B1 Hl) as [L1 L2], (IHr n B2 Hr) as [R1 R2].
    destruct (is_red (col l)), (is_red (col r)); cbn in *; lia.
Qed.
Lemma rb_height t : rb_ok t -> (height t <= 2 * Nat.log2 (S (length (inorder t))))%nat.
Proof.
  intros (n & [H1 _ H3 _ H5]). destruct (bal_height t n H1 H3) as [Hh Hs]. rewrite size_inorder. destruct (col t); [by specialize (H5 eq_refl)|]. cbn in Hh.
  assert (n <= Nat.log2 (S (size t)))%nat by (apply Nat.log2_le_pow2; lia). lia.
Qed.
Lemma height_node d p c k a b : height (node d p c k a b) = S (Nat.max (height a) (height b)).
Proof. destruct d; cbn; lia. Qed.
Lemma plug_height C t : (length C + height t <= height (plug C t))%nat.
Proof.
  revert t. induction C as [|f C IH]; intros t; [done|]. cbn [length]. specialize (IH (close f t)). rewrite close_node, height_node in IH. change (plug (f :: C) t) with (plug C (close f t)). rewrite close_node. lia.
Qed.

(** ** Rules *)

Lemma inc_close C f t : inc (f :: C) (inorder t) = inc C (inorder (close f t)).
Proof. by rewrite inorder_close. Qed.
Lemma wp_set_color s C d p c c' k a b Q : at_tree s C (node d p c k a b) -> (forall s', at_tree s' C (node d p c' k a b) -> Q tt s') -> wp (set_color p c') Q s.
Proof. intros H HQ. destruct (fields_d _ _ _ _ _ _ _ _ (at_fields _ _ _ _ _ _ _ _ H)) as [Hp _]. apply wp_wr; [done|]. apply HQ. by eapply at_color. Qed.
Lemma rep_col s par t : rep s par t -> ptr t <> 0 -> rb_color_of s (ptr t) = col t.
Proof. destruct t; [done|]. intros [[] _]. done. Qed.
Lemma rep_null s par t : rep s par t -> ptr t = 0 -> t = Lf.
Proof. destruct t; [done|]. intros [[] _]. done. Qed.
Lemma wp_red_node s par t Q : rep s par t -> Q (is_red (col t)) s -> wp (red_node (ptr t)) Q s.
Proof.
  intros H HQ. unfold red_node. destruct (Z.eqb_spec (ptr t) 0) as [E|E]; [by rewrite (rep_null s par t) in HQ|]. wp_step. apply wp_rd; [done|]. wp_step. by rewrite (rep_col s par t).
Qed.
Lemma wp_black_node s par t Q : rep s par t -> Q (negb (is_red (col t))) s -> wp (black_node (ptr t)) Q s.
Proof.
  intros H HQ. unfold black_node. destruct (Z.eqb_spec (ptr t) 0) as [E|E]; [by rewrite (rep_null s par t) in HQ|]. wp_step. apply wp_rd; [done|]. wp_step. by rewrite (rep_col s par t).
Qed.
Lemma at_sib s C f t : at_tree s (f :: C) t -> t <> Lf -> ptr t <> ptr (f_sib f).
Proof.
  intros [H1 _ H3] Ht E. assert (ptr t <> 0) as Hp by (intros E0; by apply Ht, (rep_null s (f_ptr f))). apply NoDup_app in H3 as (_ & H3 & _). apply (H3 (ptr t)); [by apply ptr_in|].
  cbn. right. apply elem_of_app. left. rewrite E. apply ptr_in. congruence.
Qed.
(** The comparison that tells the side. *)
Lemma at_side s C f t : at_tree s (f :: C) t -> t <> Lf -> (ptr t =? rb_left s (f_ptr f)) = match f_side f with SL => true | SR => false end.
Proof.
  intros H Ht. pose proof (at_frame _ _ _ _ H) as HF. pose proof (at_sib _ _ _ _ H Ht) as Hs. destruct (f_side f); destruct HF as [_ _ _ -> _ _]; [by rewrite Z.eqb_refl|by apply Z.eqb_neq].
Qed.
Lemma frame_rep s C f t : at_tree s (f :: C) t -> rep s (f_ptr f) (f_sib f).
Proof. intros [_ (_ & H & _) _]. done. Qed.
(** Both children of a node, one in focus. *)
Lemma at_node s C d p c k a b : at_tree s C (node d p c k a b) <-> at_tree s (Fr d p c k b :: C) a.
Proof. by rewrite at_close. Qed.
Lemma at_node' s C d p c k a b : at_tree s C (node d p c k a b) <-> at_tree s (Fr (other d) p c k a :: C) b.
Proof. rewrite at_close, close_node. cbn. by rewrite node_other. Qed.
Lemma col_leaf t : col t = RED -> t <> Lf.
Proof. by destruct t. Qed.
Lemma frame_child s C f t : at_tree s (f :: C) t -> child (other (f_side f)) s (f_ptr f) = ptr (f_sib f) /\ child (f_side f) s (f_ptr f) = ptr t /\ f_ptr f <> 0 /\ rb_parent s (f_ptr f) = cpar C.
Proof. intros H. destruct (fields_d _ _ _ _ _ _ _ _ (at_frame _ _ _ _ H)) as (? & _ & _ & ? & ? & ?). done. Qed.
Lemma at_parent s C t : at_tree s C t -> t <> Lf -> ptr t <> 0 /\ rb_parent s (ptr t) = cpar C.
Proof. intros [H _ _] Ht. destruct t; [done|]. by destruct H as [[] _]. Qed.

(** ** The repair after an insertion *)

(** Everything is right but that the parent of the red node [t] may be red. *)
Record inserted (n : nat) C t : Prop := {
  is_bal : bal n t; is_balc : balc n C; is_nored : nored t; is_noredc : noredc C; is_col : col t = RED }.

Definition insert_side d (z zp g : Z) : @T K (Z + unit) :=
  let* y := rd (child (other d)) g in
  let* yred := red_node y in
  if yred then
    set_color zp BLACK ;; set_color y BLACK ;; set_color g RED ;; ret (inl g)
  else
    let* zr := rd (child (other d)) zp in
    let* z := (if z =? zr then rotate d zp ;; ret zp else ret z) in
    let* zp := rd rb_parent z in
    set_color zp BLACK ;;
    let* g := rd rb_parent zp in
    set_color g RED ;;
    rotate (other d) g ;;
    ret (inl z).
Lemma insert_step_eq z : insert_fixup_step (K := K) z =
  (let* zp := rd rb_parent z in
   let* red := red_node zp in
   if negb red then ret (inr tt) else
   let* g := rd rb_parent zp in
   let* gl := rd rb_left g in
   if zp =? gl then insert_side SL z zp g else insert_side SR z zp g).
Proof. reflexivity. Qed.

(** What a round leaves: the repair goes on nearer to the root. *)
Definition moved (l : list (Z * K)) (m : nat) (z : Z) s : Prop := exists n C t,
  at_tree s C t /\ z = ptr t /\ inserted n C t /\ inc C (inorder t) = l /\ (length C < m)%nat.

Lemma insert_red_uncle s n C t d p kp dp sp g kg u : at_tree s (Fr dp p RED kp sp :: Fr d g BLACK kg u :: C) t -> inserted n (Fr dp p RED kp sp :: Fr d g BLACK kg u :: C) t -> col u = RED ->
  wp (set_color p BLACK ;; set_color (ptr u) BLACK ;; set_color g RED ;; ret (inl g : Z + unit)) (fun r s' => exists z, r = inl z /\
    moved (inc (Fr dp p RED kp sp :: Fr d g BLACK kg u :: C) (inorder t)) (S (S (length C))) z s') s.
Proof.
  intros H [I1 I2 I3 I4 I5] Hu. destruct u as [|pu cu ku ul ur]; [done|]. cbn in Hu. subst cu. destruct I2 as (B1 & B2 & B3), I4 as (N1 & N2 & N3 & N4 & N5). cbn in B1, B2, B3, N1, N2, N3, N4, N5.
  apply at_close in H. rewrite close_node in H. cbn in H. wp_step. eapply wp_set_color; [exact H|]. intros s1 H1.
  apply at_close in H1. rewrite close_node in H1. cbn [f_side f_ptr f_col f_key f_sib] in H1. rewrite at_node' in H1. wp_step. eapply (wp_set_color _ _ SL); [exact H1|]. intros s2 H2.
  rewrite <- at_node' in H2. wp_step. eapply wp_set_color; [exact H2|]. intros s3 H3. wp_step. exists g. split; [done|]. exists (S n), C, (node d g RED kg (node dp p BLACK kp t sp) (Nd pu BLACK ku ul ur)).
  split; [exact H3|]. split; [by rewrite ptr_node|]. split; [|split; [|lia]].
  - split; [|done| |done|by rewrite col_node].
    + rewrite bal_node, bal_node. cbn. tauto.
    + rewrite nored_node, nored_node, !col_node. cbn in N3 |- *. naive_solver.
  - rewrite !inc_close. f_equal. unfold close. cbn. destruct d, dp; done.
Qed.

(** The new node becomes the outer grandchild. *)
Lemma wp_outer s n C t d p kp dp sp g kg u (Q : Z -> rbmem K -> Prop) :
  at_tree s (Fr dp p RED kp sp :: Fr d g BLACK kg u :: C) t -> inserted n (Fr dp p RED kp sp :: Fr d g BLACK kg u :: C) t ->
  (forall s' q kq e t', at_tree s' (Fr d q RED kq e :: Fr d g BLACK kg u :: C) t' -> inserted n (Fr d q RED kq e :: Fr d g BLACK kg u :: C) t' ->
    inc (Fr d q RED kq e :: Fr d g BLACK kg u :: C) (inorder t') = inc (Fr dp p RED kp sp :: Fr d g BLACK kg u :: C) (inorder t) -> Q (ptr t') s') ->
  wp (let* zr := rd (child (other d)) p in if ptr t =? zr then rotate d p ;; ret p else ret (ptr t)) Q s.
Proof.
  intros H I HQ. destruct (frame_child _ _ _ _ H) as (F1 & F2 & F3 & _). cbn in F1, F2, F3. wp_step. apply wp_rd; [done|].
  pose proof (at_sib _ _ _ _ H (col_leaf t (is_col _ _ _ I))) as Hne. cbn in Hne.
  destruct (decide (dp = d)) as [->|Hd].
  { rewrite F1, (proj2 (Z.eqb_neq _ _)) by done. wp_step. by apply (HQ s p kp sp t). }
  assert (dp = other d) as -> by (destruct dp, d; done). rewrite F2, Z.eqb_refl. destruct I as [I1 I2 I3 I4 I5].
  destruct (node_any d t (col_leaf t I5)) as (z & cz & kz & b & e & ->). rewrite col_node in I5. subst cz.
  apply at_close in H. rewrite close_node in H. cbn [f_side f_ptr f_col f_key f_sib] in H. rewrite node_other in H. wp_step. eapply wp_rotate; [exact H|]. intros s1 H1. wp_step.
  rewrite at_node in H1. replace p with (ptr (node d p RED kp sp b)) at 1 by apply ptr_node. eapply HQ; [exact H1| |].
  - destruct I2 as (B1 & B2 & B3), I4 as (N1 & N2 & N3 & N4 & N5). cbn in B1, B2, B3, N1, N2, N3, N4, N5. rewrite bal_node in I1. rewrite nored_node in I3.
    split; [rewrite bal_node; tauto| | | |by rewrite col_node].
    + cbn. tauto.
    + rewrite nored_node. naive_solver.
    + cbn. naive_solver.
  - rewrite !inc_close. f_equal. unfold close. destruct d; app_norm.
Qed.

Lemma insert_side_spec s n C t d p kp dp sp g kg u : at_tree s (Fr dp p RED kp sp :: Fr d g BLACK kg u :: C) t -> inserted n (Fr dp p RED kp sp :: Fr d g BLACK kg u :: C) t ->
  wp (insert_side d (ptr t) p g) (fun r s' => exists z, r = inl z /\ moved (inc (Fr dp p RED kp sp :: Fr d g BLACK kg u :: C) (inorder t)) (S (S (length C))) z s') s.
Proof.
  intros H I. unfold insert_side. pose proof H as Hg. rewrite at_close in Hg. destruct (frame_child _ _ _ _ Hg) as (G1 & _ & G3 & _). cbn in G1, G3.
  wp_step. apply wp_rd; [done|]. rewrite G1. wp_step. eapply wp_red_node; [apply (frame_rep _ _ _ _ Hg)|]. cbn [f_sib].
  destruct (col u) eqn:Eu; cbn [is_red]; [by eapply insert_red_uncle|].
  assert (wp (let* z := (let* zr := rd (child (other d)) p in if ptr t =? zr then rotate d p ;; ret p else ret (ptr t)) in
    let* zp := rd rb_parent z in set_color zp BLACK ;; let* g := rd rb_parent zp in set_color g RED ;; rotate (other d) g ;; ret (inl z : Z + unit))
    (fun r s' => exists z, r = inl z /\ moved (inc (Fr dp p RED kp sp :: Fr d g BLACK kg u :: C) (inorder t)) (S (S (length C))) z s') s) as Hw; [|by rewrite bind_assoc in Hw].
  wp_step. eapply wp_outer; [exact H|exact I|]. clear H I Hg. intros s1 q kq e t1 H1 I1 <-. pose proof I1 as [J1 J2 J3 J4 J5].
  destruct (at_parent _ _ _ H1 (col_leaf t1 J5)) as [Z1 Z2]. wp_step. apply wp_rd; [done|]. rewrite Z2. cbn [cpar f_ptr].
  apply at_close in H1. rewrite close_node in H1. cbn [f_side f_ptr f_col f_key f_sib] in H1. wp_step. eapply wp_set_color; [exact H1|]. intros s2 H2.
  destruct (at_parent _ _ _ H2) as [Y1 Y2]; [by destruct d|]. rewrite ptr_node in Y1, Y2. wp_step. apply wp_rd; [done|]. rewrite Y2. cbn [cpar f_ptr].
  apply at_close in H2. rewrite close_node in H2. cbn [f_side f_ptr f_col f_key f_sib] in H2. wp_step. eapply wp_set_color; [exact H2|]. intros s3 H3.
  rewrite <- (node_other d), <- (node_other d q) in H3. wp_step. eapply wp_rotate; [exact H3|]. intros s4 H4. wp_step. exists (ptr t1). split; [done|].
  rewrite at_node' in H4. eexists n, _, t1. split; [exact H4|]. split; [done|]. destruct J2 as (B1 & B2 & B3), J4 as (N1 & N2 & N3 & N4 & N5). cbn in B1, B2, B3, N1, N2, N3, N4, N5.
  split; [|split; [|cbn; lia]].
  - split; [done| |done| |done]; cbn -[node]; rewrite ?bal_node, ?nored_node; naive_solver.
  - rewrite !inc_close. f_equal. unfold close. destruct d; app_norm.
Qed.

Lemma insert_step_spec s n C t : at_tree s C t -> inserted n C t ->
  wp (insert_fixup_step (ptr t)) (fun r s' => match r with
    | inl z => moved (inc C (inorder t)) (length C) z s'
    | inr _ => at_tree s' C t /\ (ctop C = RED -> C = []) end) s.
Proof.
  intros H I. rewrite insert_step_eq. destruct (at_parent _ _ _ H (col_leaf t (is_col _ _ _ I))) as [Z1 Z2]. wp_step. apply wp_rd; [done|]. rewrite Z2. wp_step.
  destruct C as [|[dp p [] kp sp] C]; cbn [cpar f_ptr].
  - apply wp_ret. apply wp_ret. done.
  - assert (ctop C = BLACK) as Hb by (destruct (is_noredc _ _ _ I) as (_ & N & _); by apply N). destruct C as [|[d g c kg u] C]; [done|]. cbn in Hb. subst c.
    pose proof H as Hp. rewrite at_close in Hp. assert (close (Fr dp p RED kp sp) t <> Lf) as Hn by by destruct dp. pose proof (ptr_close (Fr dp p RED kp sp) t) as Ep. cbn [f_ptr] in Ep.
    rewrite <- Ep at 1. eapply wp_red_node; [apply Hp|]. rewrite close_node, col_node. cbn. destruct (at_parent _ _ _ Hp Hn) as [P1 P2]. rewrite Ep in P1, P2. cbn in P2.
    wp_step. apply wp_rd; [done|]. rewrite P2. destruct (frame_child _ _ _ _ Hp) as (_ & _ & G3 & _). cbn in G3. wp_step. apply wp_rd; [done|].
    pose proof (at_side _ _ _ _ Hp Hn) as Hs. rewrite Ep in Hs. cbn in Hs. rewrite Hs.
    assert (wp (insert_side d (ptr t) p g) (fun r s' => match r with inl z => moved (inc (Fr dp p RED kp sp :: Fr d g BLACK kg u :: C) (inorder t)) (S (S (length C))) z s' | inr _ => at_tree s' (Fr dp p RED kp sp :: Fr d g BLACK kg u :: C) t /\ (RED = RED -> False) end) s) as Hw.
    { eapply wp_mono; [by eapply insert_side_spec|]. intros r s' (z & -> & Hm). done. }
    destruct d; (eapply wp_mono; [exact Hw|]); intros [z|[]] s'; [done| |done|]; intros [? Hf]; by destruct Hf.
  - pose proof H as Hp. rewrite at_close in Hp. pose proof (ptr_close (Fr dp p BLACK kp sp) t) as Ep. cbn [f_ptr] in Ep.
    rewrite <- Ep at 1. eapply wp_red_node; [apply Hp|]. rewrite close_node, col_node. apply wp_ret. done.
Qed.

Lemma ptr_plug C t : t <> Lf -> ptr (plug C t) <> 0 -> plug C t <> Lf.
Proof. intros _ Hp E. by rewrite E in Hp. Qed.
Lemma plug_node C t : t <> Lf -> plug C t <> Lf.
Proof. revert t. induction C as [|f C IH]; intros t Ht; [done|]. apply (IH (close f t)). rewrite close_node. by destruct (f_side f). Qed.

(** The colour of the root. *)
Definition blacken t : tree K := match t with Lf => Lf | Nd p _ k l r => Nd p BLACK k l r end.
Lemma wp_black_root s t Q : at_tree s [] t -> t <> Lf -> (forall s', at_tree s' [] (blacken t) -> Q tt s') -> wp (let* r := gets rb_root in set_color r BLACK) Q s.
Proof.
  intros H Ht HQ. wp_step. wp_step. rewrite (at_root s t) by done. destruct t as [|p c k l r]; [done|]. eapply (wp_set_color _ _ SL); [exact H|]. exact HQ.
Qed.
Lemma fits_blacken n t : bal n t -> nored t -> rb_ok (blacken t).
Proof. destruct t as [|p c k l r]; intros Hb Hr; [exists n; by split|]. destruct c; [exists (S n)|exists n]; split; try done; cbn in *; naive_solver. Qed.
Lemma inorder_blacken t : inorder (blacken t) = inorder t.
Proof. by destruct t. Qed.
Lemma fits_root n t : fits n [] t -> col t = BLACK.
Proof. intros [_ _ _ _ H]. destruct (col t); [by specialize (H eq_refl)|done]. Qed.
Lemma blacken_id t : col t = BLACK -> blacken t = t.
Proof. destruct t; [done|]. by intros [= ->]. Qed.

Lemma insert_fixup_spec fuel s n C t : at_tree s C t -> inserted n C t -> (length C < fuel)%nat ->
  wp (_insert_fixup fuel (ptr t)) (fun _ s' => exists t', at_tree s' [] t' /\ rb_ok t' /\ inorder t' = inc C (inorder t)) s.
Proof.
  intros H I Hf. unfold _insert_fixup. wp_step.
  assert (wp (loop fuel insert_fixup_step (ptr t)) (fun _ s' => exists n' C' t', at_tree s' C' t' /\ inserted n' C' t' /\ inc C' (inorder t') = inc C (inorder t) /\ (ctop C' = RED -> C' = [])) s) as Hl.
  { set (l := inc C (inorder t)). assert (inc C (inorder t) = l) as El by done. clearbody l. revert s n C t H I Hf El. induction fuel as [|fuel IH]; intros s n C t H I Hf El; [lia|]. cbn [loop]. wp_step.
    eapply wp_mono; [by eapply insert_step_spec|]. intros [z|[]] s1.
    - intros (n1 & C1 & t1 & H1 & -> & I1 & E1 & L1). apply (IH s1 n1 C1 t1); [done|done|lia|congruence].
    - intros [H1 Hc]. wp_step. by exists n, C, t. }
  eapply wp_mono; [exact Hl|]. intros _ s1 (n1 & C1 & t1 & H1 & [J1 J2 J3 J4 J5] & E1 & Hc). pose proof (col_leaf t1 J5) as Ht1.
  rewrite at_plug in H1. eapply wp_black_root; [exact H1|by apply plug_node|]. intros s2 H2. exists (blacken (plug C1 t1)). split; [done|]. rewrite inorder_blacken, inorder_plug. split; [|done].
  destruct C1 as [|f C1]; [by eapply fits_blacken|]. destruct (ctop (f :: C1)) eqn:Et; [by specialize (Hc eq_refl)|].
  destruct (fits_plug n1 (f :: C1) t1) as [m Hm]; [by split|]. rewrite blacken_id by by eapply fits_root. by exists m.
Qed.
End Balance.

(** ** The sorted list *)

Section Order.
Context {K : Type} (klt : K -> K -> bool).
Hypothesis klt_asym : forall a b, klt a b = true -> klt b a = false.
Hypothesis klt_cotrans : forall a b c, klt a c = true -> klt a b = true \/ klt b c = true.
Implicit Types (s : rbmem K) (t : tree K) (C : list (frame K)) (l : list (Z * K)).

Definition sorted l : Prop := StronglySorted (fun x y => klt y.2 x.2 = false) l.
(** Insertion behind the elements that are not greater. *)
Fixpoint ins (z : Z) (k : K) l : list (Z * K) := match l with
  | [] => [(z, k)]
  | x :: l => if klt k x.2 then (z, k) :: x :: l else x :: ins z k l end.
Definition del (z : Z) l : list (Z * K) := filter (fun x => x.1 <> z) l.

Lemma sorted_app l1 l2 : sorted (l1 ++ l2) -> sorted l1 /\ sorted l2.
Proof.
  unfold sorted. induction l1 as [|x l1 IH]; intros H; [split; [constructor|done]|]. cbn in H. apply StronglySorted_inv in H as [H Hf]. destruct (IH H) as [H1 H2]. split; [|done].
  constructor; [done|]. by apply Forall_app in Hf as [].
Qed.
Lemma sorted_before l1 x l2 y : sorted (l1 ++ x :: l2) -> y ∈ l1 -> klt x.2 y.2 = false.
Proof.
  induction l1 as [|w l1 IH]; intros H Hy; [by apply elem_of_nil in Hy|]. cbn in H. apply StronglySorted_inv in H as [H Hf]. apply elem_of_cons in Hy as [->|Hy]; [|by apply IH].
  rewrite Forall_forall in Hf. apply Hf. set_solver.
Qed.
Lemma ins_left z k l1 x l2 : klt k x.2 = true -> ins z k (l1 ++ x :: l2) = ins z k l1 ++ x :: l2.
Proof. intros Hk. induction l1 as [|y l1 IH]; cbn; [by rewrite Hk|]. destruct (klt k y.2); [done|]. by rewrite IH. Qed.
Lemma ins_right z k l1 x l2 : sorted (l1 ++ x :: l2) -> klt k x.2 = false -> ins z k (l1 ++ x :: l2) = l1 ++ x :: ins z k l2.
Proof.
  intros Hs Hk. induction l1 as [|y l1 IH]; cbn; [by rewrite Hk|]. pose proof (sorted_before (y :: l1) x l2 y Hs ltac:(by left)) as Hy.
  destruct (klt k y.2) eqn:E; [destruct (klt_cotrans k x.2 y.2 E); congruence|]. rewrite IH; [done|]. by apply (sorted_app [y]) in Hs as [_ ?].
Qed.
Lemma ins_forall (P : Z * K -> Prop) z k l : P (z, k) -> Forall P l -> Forall P (ins z k l).
Proof. intros Hz. induction 1 as [|x l Hx Hl IH]; cbn; [by repeat constructor|]. destruct (klt k x.2); by repeat constructor. Qed.
Lemma ins_sorted z k l : sorted l -> sorted (ins z k l).
Proof.
  unfold sorted. induction l as [|x l IH]; intros H; cbn; [repeat constructor|]. apply StronglySorted_inv in H as [H Hf]. destruct (klt k x.2) eqn:E.
  - constructor; [by constructor|]. constructor; [by apply klt_asym|]. eapply Forall_impl; [exact Hf|]. cbn. intros y Hy. destruct (klt y.2 k) eqn:Ey; [|done].
    destruct (klt_cotrans y.2 x.2 k Ey) as [Hx|Hx]; [congruence|]. by rewrite (klt_asym _ _ Hx) in E.
  - constructor; [by apply IH|]. by apply ins_forall.
Qed.
Lemma del_sorted z l : sorted l -> sorted (del z l).
Proof.
  unfold sorted, del. induction l as [|x l IH]; intros H; [constructor|]. apply StronglySorted_inv in H as [H Hf]. rewrite filter_cons. case_decide; [|by apply IH].
  constructor; [by apply IH|]. rewrite Forall_forall in Hf |- *. intros y Hy. apply list_elem_of_filter in Hy as [_ Hy]. by apply Hf.
Qed.
Lemma sorted_inc C l : sorted (inc C l) -> sorted l.
Proof.
  revert l. induction C as [|f C IH]; intros l H; [done|]. apply (IH (around f l)) in H. unfold around in H.
  destruct (f_side f); apply sorted_app in H as [H1 H2]; [done|]. by apply (sorted_app [_]) in H2 as [_ ?].
Qed.

(** ** rb_insert *)

(** The place found: the leaf [t] in [C], on the side the comparison says. *)
Record place (z : Z) (k : K) (L : list (Z * K)) C t s : Prop := {
  pc_at : at_tree s C t; pc_list : inc C (inorder t) = L; pc_ins : inc C (ins z k (inorder t)) = ins z k L;
  pc_side : forall f C', C = f :: C' -> f_side f = if klt k (f_key f) then SL else SR }.

Lemma search_step z k L C t s : z <> 0 -> rb_key s z = k -> sorted L -> place z k L C t s ->
  wp (insert_search klt z (cpar C, ptr t)) (fun r s' => s' = s /\ match r with
    | inl yx => exists f C' t', t <> Lf /\ yx = (cpar (f :: C), ptr t') /\ place z k L (f :: C) t' s /\ (height t' < height t)%nat /\ plug (f :: C) t' = plug C t /\ C' = C
    | inr y => y = cpar C /\ t = Lf end) s.
Proof.
  intros Hz Hk Hs [H HL HI HS]. unfold insert_search. destruct (Z.eqb_spec (ptr t) 0) as [E|E].
  { wp_step. split; [done|]. split; [done|]. by eapply ptr_null. }
  destruct t as [|p c kp l r]; [done|]. cbn [ptr]. pose proof (at_fields _ _ SL _ _ _ _ _ H) as [Hp Fk _ Fl Fr' _]. wp_step. apply wp_rd; [done|]. rewrite Hk. wp_step. apply wp_rd; [done|]. rewrite Fk.
  assert (sorted (inorder (Nd p c kp l r))) as Hst by (eapply (sorted_inc C); by rewrite HL). cbn in Hst.
  destruct (klt k kp) eqn:Ek; wp_step; (apply wp_rd; [done|]); wp_step; (split; [done|]); rewrite ?Fl, ?Fr'.
  - exists (Fr SL p c kp r), C, l. split; [done|]. split; [done|]. split; [|split; [cbn; lia|done]]. split; [by rewrite at_close|by rewrite <- HL| |by intros f C' [= <- <-]; cbn; rewrite Ek].
    rewrite <- HI. cbn [inorder]. rewrite ins_left by done. done.
  - exists (Fr SR p c kp l), C, r. split; [done|]. split; [done|]. split; [|split; [cbn; lia|done]]. split; [by rewrite at_close|by rewrite <- HL| |by intros f C' [= <- <-]; cbn; rewrite Ek].
    rewrite <- HI. cbn [inorder]. rewrite ins_right by done. done.
Qed.
Lemma search_spec fuel z k L s : forall C t, z <> 0 -> rb_key s z = k -> sorted L -> place z k L C t s -> (height t < fuel)%nat ->
  wp (loop fuel (insert_search klt z) (cpar C, ptr t)) (fun y s' => s' = s /\ exists C', y = cpar C' /\ place z k L C' Lf s /\ plug C' Lf = plug C t) s.
Proof.
  induction fuel as [|fuel IH]; intros C t Hz Hk Hs H Hf; [lia|]. cbn [loop]. wp_step. eapply wp_mono; [by eapply search_step|]. intros [yx|y] s1 [-> X].
  - destruct X as (f & C' & t' & _ & -> & H' & Hh & <- & _). apply IH; [done|done|done|done|lia].
  - destruct X as [-> ->]. wp_step. split; [done|]. by exists C.
Qed.

(** Hanging the new node in. *)
Lemma attach s C z k : at_tree s C Lf -> z <> 0 -> z ∉ cptrs C -> rb_key s z = k ->
  at_tree (color_to z RED (right_to z 0 (left_to z 0 (link C z (parent_to z (cpar C) s))))) C (Nd z RED k Lf Lf).
Proof.
  intros [_ HC HN] Hz Hin Hk. set (s1 := parent_to z (cpar C) s). set (s2 := link C z s1).
  assert (same_node s1 s2 z) as (E1 & E2 & E3 & E4 & E5) by by apply same_link.
  assert (repc s2 C z) as HC2. { apply (repc_link s1 C 0); [|done]. refine (repc_same s _ C _ _ _ HC); [|done]. intros q Hq. apply same_parent_to. set_solver. }
  split; cbn.
  - split; [|done]. split; cbn; rewrite ?upd_eq; try done; [rewrite E1; done|]. rewrite E5. cbn. by rewrite upd_eq.
  - refine (repc_same s2 _ C _ _ _ HC2); [|done]. intros q Hq. unfold same_node. cbn. assert (q <> z) by set_solver. by rewrite !upd_ne.
  - apply NoDup_cons. done.
Qed.

Lemma rb_insert_spec fuel s t z : at_tree s [] t -> rb_ok t -> sorted (inorder t) -> z <> 0 -> z ∉ ptrs t -> (height t < fuel)%nat ->
  wp (rb_insert klt fuel z) (fun _ s' => exists t', at_tree s' [] t' /\ rb_ok t' /\ inorder t' = ins z (rb_key s z) (inorder t)) s.
Proof.
  intros H [n0 Hok] Hs Hz Hin Hf. set (k := rb_key s z). unfold rb_insert. wp_step. wp_step. rewrite (at_root s t) by done. wp_step.
  eapply wp_mono; [apply (search_spec fuel z k (inorder t) s [] t); [done|done|done|by split|done]|]. cbn beta. intros y s1 (-> & C & -> & [HC HL HI HS] & Hpl).
  cbn in HL, HI. assert (z ∉ cptrs C) as HzC.
  { intros Hx. apply Hin. change (plug [] t) with t in Hpl. rewrite <- Hpl, ptrs_plug. by apply elem_of_app; right. }
  wp_step. apply wp_wr; [done|]. wp_step.
  assert (wp (if cpar C =? 0 then set_root z else let* kz := rd rb_key z in let* ky := rd rb_key (cpar C) in if klt kz ky then set_left (cpar C) z else set_right (cpar C) z)
    (fun _ s' => s' = link C z (parent_to z (cpar C) s)) (parent_to z (cpar C) s)) as Hlink.
  { destruct C as [|f C]; [done|]. cbn [cpar]. destruct (frame_child _ _ _ _ HC) as (_ & _ & Hp & _). rewrite (proj2 (Z.eqb_neq _ _)) by done. wp_step. apply wp_rd; [done|]. wp_step. apply wp_rd; [done|].
    destruct (fields_d _ _ _ _ _ _ _ _ (at_frame _ _ _ _ HC)) as (_ & Fk & _). specialize (HS f C eq_refl). cbn. rewrite Fk. fold k. rewrite HS. destruct (klt k (f_key f)); by apply wp_wr. }
  eapply wp_mono; [exact Hlink|]. intros [] s1 ->. wp_step. apply wp_wr; [done|]. wp_step. apply wp_wr; [done|]. wp_step. apply wp_wr; [done|].
  assert (fits 0 C Lf) as HF.
  { change (plug [] t) with t in Hpl. assert (rb_ok (plug C Lf)) as Hp by (rewrite Hpl; by exists n0). destruct (fits_unplug C Lf Hp) as [n Hn]. pose proof (ft_bal _ _ _ Hn) as E. cbn in E. by subst n. }
  eapply wp_mono; [apply (insert_fixup_spec fuel _ 0 C (Nd z RED k Lf Lf)); [by apply attach| |]|].
  - destruct HF as [F1 F2 F3 F4 F5]. by split.
  - pose proof (plug_height C Lf). change (plug [] t) with t in Hpl. rewrite Hpl in *. cbn in *. lia.
  - intros [] s2 (t' & H2 & Hok2 & E). exists t'. split; [done|]. split; [done|]. rewrite E. exact HI.
Qed.
End Order.
