(* ===== verification/RbDelete.v ===== *)
(** * Deletion from red-black trees (kernel/rbtree.cpp)

    The repair after a deletion, rb_first, rb_last, rb_delete, and the theorem
    about any sequence of operations. *)

From Stdlib Require Import ZArith Lia Sorted.
From stdpp Require Import list sorting.
From S2P Require Import Prelude RbTree RbInv.

Section Delete.
Context {K : Type}.
Implicit Types (s : rbmem K) (t a b : tree K) (c : rb_color) (C : list (frame K)) (d : side) (f : frame K).

(** ** The repair after a deletion *)

(** The subtree [t] lacks one black node. *)
Record deleted (n : nat) C t : Prop := {
  dl_bal : bal n t; dl_balc : balc (S n) C; dl_nored : nored (blacken t); dl_noredc : noredc C }.

(** The sibling [w] of the node in focus, black after its repair. *)
Definition black_sibling d (xp w : Z) : @T K Z :=
  let* wc := rd rb_color_of w in
  if is_red wc then set_color w BLACK ;; set_color xp RED ;; rotate d xp ;; rd (child (other d)) xp
  else ret w.
(** Its outer child red, if one is. *)
Definition red_outer d (xp w : Z) : @T K Z :=
  let* wr := rd (child (other d)) w in
  let* rb := black_node wr in
  if rb then
    (let* wl := rd (child d) w in when (negb (wl =? 0)) (set_color wl BLACK)) ;;
    set_color w RED ;; rotate (other d) w ;; rd (child (other d)) xp
  else ret w.
Definition last_rotation d (xp w : Z) : @T K (Z * Z + Z) :=
  let* c := rd rb_color_of xp in
  set_color w c ;;
  set_color xp BLACK ;;
  (let* wr := rd (child (other d)) w in when (negb (wr =? 0)) (set_color wr BLACK)) ;;
  rotate d xp ;;
  let* r := gets rb_root in
  ret (inl (r, xp)).
Definition delete_side d (xp : Z) : @T K (Z * Z + Z) :=
  let* w := rd (child (other d)) xp in
  let* w := black_sibling d xp w in
  let* wl := rd (child d) w in
  let* lb := black_node wl in
  let* both := (if lb then let* wr := rd (child (other d)) w in black_node wr else ret false) in
  if both then
    set_color w RED ;;
    let* xp' := rd rb_parent xp in
    ret (inl (xp, xp'))
  else
    let* w := red_outer d xp w in
    last_rotation d xp w.
Lemma delete_step_eq x xp : delete_fixup_step (K := K) (x, xp) =
  (let* r := gets rb_root in
   let* go := (if x =? r then ret false else black_node x) in
   if negb go then ret (inr x) else
   let* l := rd rb_left xp in
   if x =? l then delete_side SL xp else delete_side SR xp).
Proof.
  unfold delete_fixup_step. apply bind_ext. intros r. apply bind_ext. intros []; [|done]. cbn [negb]. apply bind_ext. intros l.
  destruct (x =? l); unfold delete_side, black_sibling, red_outer, last_rotation; apply bind_ext; intros w; rewrite bind_assoc; apply bind_ext; intros wc; apply bind_ext; intros w1; apply bind_ext; intros wl;
    apply bind_ext; intros lb; apply bind_ext; intros []; try done; symmetry; rewrite bind_assoc; apply bind_ext; intros wr; rewrite bind_assoc; done.
Qed.

Lemma bal_black n t : bal (S n) t -> col t = BLACK -> forall d, exists p k a b, t = node d p BLACK k a b /\ bal n a /\ bal n b.
Proof. destruct t as [|p c k l r]; [done|]. intros H Hc d. cbn in Hc. subst c. destruct d; [by exists p, k, l, r|]. exists p, k, r, l. destruct H. done. Qed.

(** Case 1. *)
Lemma wp_black_sibling s n C t d p c k w (Q : Z -> rbmem K -> Prop) : at_tree s (Fr d p c k w :: C) t -> deleted n (Fr d p c k w :: C) t ->
  (forall s' c' w' C', at_tree s' (Fr d p c' k w' :: C') t -> deleted n (Fr d p c' k w' :: C') t -> col w' = BLACK ->
    inc (Fr d p c' k w' :: C') (inorder t) = inc (Fr d p c k w :: C) (inorder t) -> c' = RED \/ C' = C -> Q (ptr w') s') ->
  wp (black_sibling d p (ptr w)) Q s.
Proof.
  intros H [D1 D2 D3 D4] HQ. cbn in D2, D4. destruct D2 as [Bw B]. destruct D4 as (Nw & Nc & N). unfold black_sibling.
  assert (w <> Lf) as Hw by by intros ->. pose proof (frame_rep _ _ _ _ H) as Hrw. cbn [f_sib f_ptr] in Hrw. assert (ptr w <> 0) as Hpw by (intros E; by apply Hw, (rep_null _ _ _ Hrw)).
  wp_step. apply wp_rd; [done|]. rewrite (rep_col _ _ _ Hrw Hpw). destruct (col w) eqn:Ew; cbn [is_red].
  2: { wp_step. apply (HQ s c w C); [done| |done|done|by right]. split; [done|done|done|]. cbn. by rewrite Ew. }
  destruct c; [by destruct (Nc eq_refl)|]. destruct (node_any d w Hw) as (pw & cw & kw & a & b & ->). rewrite col_node in Ew. subst cw. rewrite ptr_node.
  rewrite bal_node in Bw. rewrite nored_node in Nw. rewrite <- at_node, at_node' in H. wp_step. eapply wp_set_color; [exact H|]. intros s1 H1. rewrite <- at_node' in H1.
  wp_step. eapply wp_set_color; [exact H1|]. intros s2 H2. wp_step. eapply wp_rotate; [exact H2|]. intros s3 H3. rewrite !at_node in H3.
  destruct (frame_child _ _ _ _ H3) as (F1 & _ & F3 & _). cbn in F1, F3. apply wp_rd; [done|]. rewrite F1. eapply HQ; [exact H3| | | |by left].
  - split; [done| |done|]; cbn; naive_solver.
  - naive_solver.
  - rewrite !inc_close. f_equal. unfold close. destruct d; app_norm.
Qed.

Lemma col_bal n t : col t = RED -> bal n t -> nored t -> forall d, exists p k a b, t = node d p RED k a b /\ bal n a /\ bal n b /\ col a = BLACK /\ col b = BLACK /\ nored a /\ nored b.
Proof.
  intros Hc Hb Hr d. destruct (node_any d t (col_leaf t Hc)) as (p & c & k & a & b & ->). rewrite col_node in Hc. subst c. rewrite bal_node in Hb. rewrite nored_node in Hr. exists p, k, a, b. naive_solver.
Qed.

(** Case 3. *)
Lemma wp_red_outer s n C t d p c k pw kw a b (Q : Z -> rbmem K -> Prop) : at_tree s (Fr d p c k (node d pw BLACK kw a b) :: C) t ->
  bal n a -> bal n b -> nored a -> nored b -> (col b = BLACK -> col a = RED) ->
  (forall s' qw qk a' b', at_tree s' (Fr d p c k (node d qw BLACK qk a' b') :: C) t -> bal n a' -> bal n b' -> nored a' -> nored b' -> col b' = RED ->
    inc (Fr d p c k (node d qw BLACK qk a' b') :: C) (inorder t) = inc (Fr d p c k (node d pw BLACK kw a b) :: C) (inorder t) -> Q qw s') ->
  wp (red_outer d p pw) Q s.
Proof.
  intros H Ba Bb Na Nb Hab HQ. unfold red_outer. pose proof (frame_rep _ _ _ _ H) as Hw. cbn [f_sib f_ptr] in Hw. rewrite rep_node in Hw. destruct Hw as (Hf & Hra & Hrb). destruct (fields_d _ _ _ _ _ _ _ _ Hf) as (Hp & _ & _ & Ea & Eb & _).
  wp_step. apply wp_rd; [done|]. rewrite Eb. wp_step. eapply wp_black_node; [exact Hrb|]. destruct (col b) eqn:Ecb; cbn [is_red negb].
  { wp_step. by apply (HQ s pw kw a b). }
  destruct (col_bal n a (Hab eq_refl) Ba Na d) as (pa & ka & a1 & a2 & -> & B1 & B2 & C1 & C2 & N1 & N2). wp_step. wp_step. apply wp_rd; [done|]. rewrite Ea.
  assert (pa <> 0) as Hpa by (rewrite rep_node in Hra; by destruct (fields_d _ _ _ _ _ _ _ _ (proj1 Hra))). rewrite ptr_node, (proj2 (Z.eqb_neq pa 0)) by done. cbn [negb when].
  rewrite <- at_node, at_node', at_node in H. eapply wp_set_color; [exact H|]. intros s1 H1. rewrite <- at_node in H1. wp_step. eapply wp_set_color; [exact H1|]. intros s2 H2.
  rewrite <- (node_other d pw), <- (node_other d pa) in H2. wp_step. eapply wp_rotate; [exact H2|]. intros s3 H3. rewrite !node_other, <- at_node', at_node in H3.
  destruct (frame_child _ _ _ _ H3) as (F1 & _ & F3 & _). cbn in F1, F3. rewrite ptr_node in F1. apply wp_rd; [done|]. rewrite F1. eapply HQ; [exact H3|done| |done| |by rewrite col_node|].
  - by rewrite bal_node.
  - by rewrite nored_node.
  - rewrite !inc_close. f_equal. unfold close. destruct d; app_norm.
Qed.

(** Case 4. *)
Lemma last_rotation_spec s n C t d p c k pw kw a b : at_tree s (Fr d p c k (node d pw BLACK kw a b) :: C) t -> deleted n (Fr d p c k (node d pw BLACK kw a b) :: C) t -> col t = BLACK ->
  bal n a -> bal n b -> nored a -> nored b -> col b = RED ->
  wp (last_rotation d p pw) (fun r s' => exists t', at_tree s' [] t' /\ r = inl (ptr t', p) /\ rb_ok t' /\ inorder t' = inc (Fr d p c k (node d pw BLACK kw a b) :: C) (inorder t)) s.
Proof.
  intros H [D1 D2 D3 D4] Ht Ba Bb Na Nb Hb. rewrite blacken_id in D3 by done. cbn in D2, D4. destruct D2 as [_ B]. destruct D4 as (_ & Nc & N). unfold last_rotation.
  destruct (fields_d _ _ _ _ _ _ _ _ (at_frame _ _ _ _ H)) as (Hp & _ & Hc & _). cbn in Hp, Hc. wp_step. apply wp_rd; [done|]. rewrite Hc.
  destruct (col_bal n b Hb Bb Nb d) as (pb & kb & b1 & b2 & -> & B1 & B2 & _ & _ & N1 & N2).
  rewrite <- at_node, at_node' in H. wp_step. eapply wp_set_color; [exact H|]. intros s1 H1. rewrite <- at_node' in H1. wp_step. eapply wp_set_color; [exact H1|]. intros s2 H2.
  rewrite at_node' in H2. destruct (fields_d _ _ _ _ _ _ _ _ (at_fields _ _ _ _ _ _ _ _ H2)) as (Hpw & _ & _ & _ & Ew & _). rewrite ptr_node in Ew. wp_step. wp_step. apply wp_rd; [done|]. rewrite Ew.
  rewrite at_node' in H2. destruct (fields_d _ _ _ _ _ _ _ _ (at_fields _ _ _ _ _ _ _ _ H2)) as (Hpb & _). rewrite (proj2 (Z.eqb_neq pb 0)) by done. cbn [negb when].
  eapply wp_set_color; [exact H2|]. intros s3 H3. rewrite <- !at_node' in H3. wp_step. eapply wp_rotate; [exact H3|]. intros s4 H4. wp_step. wp_step. wp_step.
  rewrite at_plug in H4. eexists. split; [exact H4|]. rewrite (at_root _ _ H4). split; [done|]. split.
  - apply (fits_plug (up_height c (S n))). split; [|done| |done|rewrite col_node; by apply Nc].
    + apply bal_up; by rewrite bal_node.
    + rewrite !nored_node, !col_node. naive_solver.
  - rewrite inorder_plug, inc_close. f_equal. unfold close. destruct d; app_norm.
Qed.

(** What a round leaves: the repair goes on nearer to the root, or has only
    to blacken a node. *)
Definition pending (l : list (Z * K)) (m : nat) (x xp : Z) s : Prop := exists C t, at_tree s C t /\ x = ptr t /\ inc C (inorder t) = l /\
  (xp = cpar C /\ (length C < m)%nat /\ (exists n, deleted n C t) \/ (col t = RED \/ C = []) /\ rb_ok (plug C (blacken t))).

Lemma deleted_done n C t : deleted n C t -> col t = RED \/ C = [] -> rb_ok (plug C (blacken t)).
Proof.
  intros [D1 D2 D3 D4] [Hc| ->].
  - apply (fits_plug (S n)). destruct t as [|p c k l r]; [done|]. cbn in Hc. subst c. by split.
  - cbn. destruct t as [|p c k l r]; [exists n; by split|]. cbn in D3. destruct c; [exists (S n)|exists n]; split; try done; cbn; tauto.
Qed.

Lemma delete_side_spec s n C t d p c k w : at_tree s (Fr d p c k w :: C) t -> deleted n (Fr d p c k w :: C) t -> col t = BLACK ->
  wp (delete_side d p) (fun r s' => exists x xp, r = inl (x, xp) /\ pending (inc (Fr d p c k w :: C) (inorder t)) (S (length C)) x xp s') s.
Proof.
  intros H D Ht. destruct (frame_child _ _ _ _ H) as (F1 & _ & F3 & _). cbn in F1, F3. unfold delete_side. wp_step. apply wp_rd; [done|]. rewrite F1. wp_step.
  eapply wp_black_sibling; [exact H|exact D|]. clear H D F1. intros s1 c1 w1 C1 H1 D1 Hw1 <- Hc. pose proof D1 as [Bt [Bw B] Nt (Nw & Nc & N)]. cbn in Bw, B, Nw, Nc, N.
  destruct (bal_black n w1 Bw Hw1 d) as (pw & kw & a & b & -> & Ba & Bb). rewrite nored_node in Nw. destruct Nw as (_ & Na & Nb).
  pose proof (frame_rep _ _ _ _ H1) as Hw. cbn [f_sib f_ptr] in Hw. rewrite rep_node in Hw. destruct Hw as (Hf & Hra & Hrb). destruct (fields_d _ _ _ _ _ _ _ _ Hf) as (Hp & _ & _ & Ea & Eb & _). rewrite ptr_node.
  wp_step. apply wp_rd; [done|]. rewrite Ea. wp_step. eapply wp_black_node; [exact Hra|]. wp_step.
  assert (wp (if negb (is_red (col a)) then let* wr := rd (child (other d)) pw in black_node wr else ret false) (fun r s' => s' = s1 /\ r = negb (is_red (col a)) && negb (is_red (col b))) s1) as Hboth.
  { destruct (col a); cbn [is_red negb]; [done|]. wp_step. apply wp_rd; [done|]. rewrite Eb. by eapply wp_black_node. }
  eapply wp_mono; [exact Hboth|]. intros both s2 [-> ->]. destruct (negb (is_red (col a)) && negb (is_red (col b))) eqn:Eab.
  - assert (col a = BLACK /\ col b = BLACK) as [Ca Cb] by by destruct (col a), (col b). pose proof H1 as H2. rewrite <- at_node, at_node' in H2.
    wp_step. eapply wp_set_color; [exact H2|]. intros s2 H3. rewrite <- at_node' in H3. destruct (fields_d _ _ _ _ _ _ _ _ (at_fields _ _ _ _ _ _ _ _ H3)) as (_ & _ & _ & _ & _ & Hpar).
    wp_step. apply wp_rd; [done|]. wp_step. rewrite Hpar. exists p, (cpar C1). split; [done|]. exists C1, (node d p c1 k t (node d pw RED kw a b)). split; [done|]. split; [by rewrite ptr_node|].
    split; [rewrite inc_close; f_equal; unfold close; by destruct d|].
    assert (deleted (up_height c1 n) C1 (node d p c1 k t (node d pw RED kw a b))) as D2.
    { rewrite blacken_id in Nt by done. split; [|by destruct c1| |done].
      - apply bal_up; [done|]. by rewrite bal_node.
      - assert (blacken (node d p c1 k t (node d pw RED kw a b)) = node d p BLACK k t (node d pw RED kw a b)) as -> by by destruct d. rewrite !nored_node. naive_solver. }
    destruct Hc as [->| ->]; [right|left]; [|split; [done|]; split; [lia|by eexists]].
    assert (col (node d p RED k t (node d pw RED kw a b)) = RED \/ C1 = []) as Hd by (left; by rewrite col_node). split; [done|]. by eapply deleted_done.
  - assert (col b = BLACK -> col a = RED) as Hab by by destruct (col a), (col b). wp_step. eapply wp_red_outer; [exact H1|done|done|done|done|done|].
    intros s2 qw qk a' b' H2 Ba' Bb' Na' Nb' Cb' El. eapply wp_mono; [eapply (last_rotation_spec s2 n); try done|].
    + split; [done| |done|]; cbn; rewrite ?bal_node, ?nored_node, ?col_node; naive_solver.
    + intros r s3 (t' & H3 & -> & Hok & Et). exists (ptr t'), p. split; [done|]. exists [], t'. split; [done|]. split; [done|]. split; [exact (eq_trans Et El)|]. right. split; [by right|].
      destruct Hok as [m Hm]. cbn. rewrite blacken_id by by eapply fits_root. by exists m.
Qed.

Lemma delete_step_done s C t xp : at_tree s C t -> col t = RED \/ C = [] -> wp (delete_fixup_step (ptr t, xp)) (fun r s' => s' = s /\ r = inr (ptr t)) s.
Proof.
  intros H Hd. rewrite delete_step_eq. wp_step. wp_step. wp_step.
  assert (wp (if ptr t =? rb_root s then ret false else black_node (ptr t)) (fun r s' => s' = s /\ r = false) s) as Hg.
  { destruct (Z.eqb_spec (ptr t) (rb_root s)) as [|E]; [done|]. destruct Hd as [Hc| ->]; [|by destruct H as [_ Hr _]]. eapply wp_black_node; [apply H|]. by rewrite Hc. }
  eapply wp_mono; [exact Hg|]. intros r s' [-> ->]. done.
Qed.
Lemma root_in_ctx s f C q : repc s (f :: C) q -> rb_root s ∈ cptrs (f :: C).
Proof.
  revert f q. induction C as [|g C IH]; intros f q (_ & _ & H); [cbn in H |- *; rewrite H; by left|]. apply IH in H. cbn in H |- *. right. apply elem_of_app. by right.
Qed.
Lemma root_nonnull s C t : at_tree s C t -> C <> [] -> rb_root s <> 0.
Proof.
  revert t. induction C as [|f C IH]; intros t H Hn; [done|]. destruct C as [|g C]; [|rewrite at_close in H; by eapply IH].
  destruct H as [_ (HF & _ & HR) _]. cbn in HR. rewrite HR. by destruct (fields_d _ _ _ _ _ _ _ _ HF).
Qed.

Lemma delete_step_spec s n f C t : at_tree s (f :: C) t -> deleted n (f :: C) t -> col t = BLACK ->
  wp (delete_fixup_step (ptr t, f_ptr f)) (fun r s' => exists x xp, r = inl (x, xp) /\ pending (inc (f :: C) (inorder t)) (S (length C)) x xp s') s.
Proof.
  intros H D Ht. rewrite delete_step_eq. wp_step. wp_step. wp_step.
  assert ((ptr t =? rb_root s) = false) as ->.
  { apply Z.eqb_neq. intros E. pose proof (root_nonnull _ _ _ H ltac:(done)) as Hr. destruct H as [_ HC HN]. apply root_in_ctx in HC. apply NoDup_app in HN as (_ & HN & _).
    apply (HN (rb_root s)); [|done]. rewrite <- E. apply ptr_in. congruence. }
  eapply wp_black_node; [apply H|]. rewrite Ht. cbn [is_red negb]. destruct (frame_child _ _ _ _ H) as (_ & F2 & F3 & _). wp_step. apply wp_rd; [done|].
  assert ((ptr t =? rb_left s (f_ptr f)) = match f_side f with SL => true | SR => false end) as ->.
  { destruct t as [|p c k l r]; [|by eapply at_side]. cbn [ptr]. destruct (frame_child _ _ _ _ H) as (G1 & G2 & _). destruct (f_side f); cbn in G1, G2; [by rewrite G2|]. rewrite G1. apply Z.eqb_neq. intros E. symmetry in E.
    assert (f_sib f = Lf) as El by (eapply rep_null; [apply (frame_rep _ _ _ _ H)|done]). destruct (dl_balc _ _ _ D) as [Bs _]. by rewrite El in Bs. }
  destruct f as [d p c k w]. cbn [f_side f_ptr] in *. destruct d; by eapply delete_side_spec.
Qed.

Lemma delete_loop_done fuel s C t xp : at_tree s C t -> col t = RED \/ C = [] -> (0 < fuel)%nat -> wp (loop fuel delete_fixup_step (ptr t, xp)) (fun x s' => s' = s /\ x = ptr t) s.
Proof.
  intros H Hd Hf. destruct fuel as [|fuel]; [lia|]. cbn [loop]. wp_step. eapply wp_mono; [by eapply delete_step_done|]. intros r s' [-> ->]. by wp_step.
Qed.
Lemma delete_loop_spec fuel : forall s n C t, at_tree s C t -> deleted n C t -> (S (length C) < fuel)%nat ->
  wp (loop fuel delete_fixup_step (ptr t, cpar C)) (fun x s' => exists C' t', at_tree s' C' t' /\ x = ptr t' /\ inc C' (inorder t') = inc C (inorder t) /\ rb_ok (plug C' (blacken t'))) s.
Proof.
  induction fuel as [|fuel IH]; intros s n C t H D Hf; [lia|].
  assert (col t = RED \/ C = [] -> wp (loop (S fuel) delete_fixup_step (ptr t, cpar C)) (fun x s' => exists C' t', at_tree s' C' t' /\ x = ptr t' /\ inc C' (inorder t') = inc C (inorder t) /\ rb_ok (plug C' (blacken t'))) s) as Hdone.
  { intros Hd. eapply wp_mono; [eapply delete_loop_done; [exact H|done|lia]|]. intros x s' [-> ->]. exists C, t. split; [done|]. split; [done|]. split; [done|]. by eapply deleted_done. }
  destruct (col t) eqn:Ht; [apply Hdone; by left|]. destruct C as [|f C]; [apply Hdone; by right|]. clear Hdone. cbn [length] in Hf. cbn [loop cpar]. wp_step.
  eapply wp_mono; [by eapply delete_step_spec|]. intros r s1 (x & xp & -> & C1 & t1 & H1 & -> & <- & [(-> & Hl & n1 & D1)|[Hd Hok]]).
  - apply (IH s1 n1 C1 t1 H1 D1). lia.
  - eapply wp_mono; [eapply delete_loop_done; [exact H1|done|lia]|]. intros x s' [-> ->]. by exists C1, t1.
Qed.

Lemma at_blacken s C p c k l r : at_tree s C (Nd p c k l r) -> at_tree (color_to p BLACK s) C (Nd p BLACK k l r).
Proof. apply (at_color s C SL). Qed.
Lemma delete_fixup_spec fuel s n C t : at_tree s C t -> deleted n C t -> (S (length C) < fuel)%nat ->
  wp (_delete_fixup fuel (ptr t) (cpar C)) (fun _ s' => exists t', at_tree s' [] t' /\ rb_ok t' /\ inorder t' = inc C (inorder t)) s.
Proof.
  intros H D Hf. unfold _delete_fixup. wp_step. eapply wp_mono; [by eapply delete_loop_spec|]. intros x s1 (C1 & t1 & H1 & -> & <- & Hok).
  destruct t1 as [|p c k l r]; cbn [ptr].
  - rewrite Z.eqb_refl. apply wp_ret. exists (plug C1 Lf). rewrite <- at_plug, inorder_plug. done.
  - destruct (at_fields _ _ SL _ _ _ _ _ H1) as [Hp _ _ _ _ _]. rewrite (proj2 (Z.eqb_neq p 0)) by done. apply wp_wr; [done|]. apply at_blacken in H1.
    exists (plug C1 (Nd p BLACK k l r)). rewrite <- at_plug, inorder_plug. done.
Qed.
End Delete.
