(* ===== verification/RbMap.v ===== *)
(** * Red-black trees as sorted lists (kernel/rbtree.cpp)

    _rb_transplant, rb_first, rb_last and rb_delete, and the theorem about
    any sequence of insertions and deletions. *)

From Stdlib Require Import ZArith Lia Sorted.
From stdpp Require Import list sorting.
From S2P Require Import Prelude RbTree RbInv RbDelete.

Section Remove.
Context {K : Type}.
Implicit Types (s : rbmem K) (t a b : tree K) (c : rb_color) (C : list (frame K)) (d : side) (f : frame K).

(** ** The ends of a tree *)

Lemma first_loop fuel s : forall par t, rep s par t -> t <> Lf -> (height t <= fuel)%nat ->
  wp (loop fuel (fun n => let* l := rd rb_left n in if l =? 0 then ret (inr n) else ret (inl l)) (ptr t)) (fun y s' => s' = s /\
    exists C c k r, t = plug C (Nd y c k Lf r) /\ Forall (fun f => f_side f = SL) C) s.
Proof.
  induction fuel as [|fuel IH]; intros par t H Ht Hf; (destruct t as [|p c k l r]; [done|]); [cbn in Hf; lia|]. destruct H as ([Hp _ _ Fl _ _] & Hl & _). cbn [loop ptr]. wp_step. wp_step. apply wp_rd; [done|]. rewrite Fl.
  destruct (Z.eqb_spec (ptr l) 0) as [E|E].
  - wp_step. wp_step. split; [done|]. exists [], c, k, r. by rewrite (rep_null s p l Hl E).
  - wp_step. cbn in Hf. eapply wp_mono; [apply (IH p l); [done|by intros ->|lia]|]. intros y s' (-> & C & cy & ky & ry & -> & HC). split; [done|].
    exists (C ++ [Fr SL p c k r]), cy, ky, ry. split; [|apply Forall_app_2; [done|by constructor]]. unfold plug. by rewrite foldl_app.
Qed.
Lemma last_loop fuel s : forall par t, rep s par t -> t <> Lf -> (height t <= fuel)%nat ->
  wp (loop fuel (fun n => let* r := rd rb_right n in if r =? 0 then ret (inr n) else ret (inl r)) (ptr t)) (fun y s' => s' = s /\
    exists C c k l, t = plug C (Nd y c k l Lf) /\ Forall (fun f => f_side f = SR) C) s.
Proof.
  induction fuel as [|fuel IH]; intros par t H Ht Hf; (destruct t as [|p c k l r]; [done|]); [cbn in Hf; lia|]. destruct H as ([Hp _ _ _ Fr' _] & _ & Hr). cbn [loop ptr]. wp_step. wp_step. apply wp_rd; [done|]. rewrite Fr'.
  destruct (Z.eqb_spec (ptr r) 0) as [E|E].
  - wp_step. wp_step. split; [done|]. exists [], c, k, l. by rewrite (rep_null s p r Hr E).
  - wp_step. cbn in Hf. eapply wp_mono; [apply (IH p r); [done|by intros ->|lia]|]. intros y s' (-> & C & cy & ky & ly & -> & HC). split; [done|].
    exists (C ++ [Fr SR p c k l]), cy, ky, ly. split; [|apply Forall_app_2; [done|by constructor]]. unfold plug. by rewrite foldl_app.
Qed.
Lemma inc_left C x (l : list (Z * K)) : Forall (fun f => f_side f = SL) C -> inc C (x :: l) = x :: inc C l.
Proof. intros H. revert l. induction H as [|f C Hf _ IH]; intros l; [done|]. unfold inc. cbn. unfold around. rewrite Hf. apply IH. Qed.
Lemma inc_right C x (l : list (Z * K)) : Forall (fun f => f_side f = SR) C -> inc C (l ++ [x]) = inc C l ++ [x].
Proof. intros H. revert l. induction H as [|f C Hf _ IH]; intros l; [done|]. unfold inc. cbn. unfold around. rewrite Hf, !app_comm_cons, !app_assoc. apply IH. Qed.

Lemma rb_first_spec fuel s par t : rep s par t -> (height t <= fuel)%nat ->
  wp (rb_first fuel (ptr t)) (fun y s' => s' = s /\ y = match inorder t with [] => 0 | x :: _ => x.1 end) s.
Proof.
  intros H Hf. unfold rb_first. destruct (Z.eqb_spec (ptr t) 0) as [E|E]; [by rewrite (rep_null _ _ _ H E)|]. eapply wp_mono; [eapply first_loop; [exact H|by intros ->|done]|].
  intros y s' (-> & C & c & k & r & -> & HC). split; [done|]. rewrite inorder_plug. cbn [inorder app]. by rewrite inc_left.
Qed.
Lemma rb_last_spec fuel s par t : rep s par t -> (height t <= fuel)%nat ->
  wp (rb_last fuel (ptr t)) (fun y s' => s' = s /\ y = match last (inorder t) with None => 0 | Some x => x.1 end) s.
Proof.
  intros H Hf. unfold rb_last. destruct (Z.eqb_spec (ptr t) 0) as [E|E]; [by rewrite (rep_null _ _ _ H E)|]. eapply wp_mono; [eapply last_loop; [exact H|by intros ->|done]|].
  intros y s' (-> & C & c & k & l & -> & HC). split; [done|]. rewrite inorder_plug. cbn [inorder]. by rewrite inc_right, last_snoc.
Qed.

(** ** Taking a node out *)

Lemma at_app s C C' t : at_tree s (C ++ C') t <-> at_tree s C' (plug C t).
Proof. revert t. induction C as [|f C IH]; intros t; [done|]. cbn [app]. rewrite at_close. apply IH. Qed.
Lemma inc_app C C' (l : list (Z * K)) : inc (C ++ C') l = inc C' (inc C l).
Proof. apply foldl_app. Qed.
Lemma in_plug t z : z ∈ ptrs t -> exists C c k l r, t = plug C (Nd z c k l r).
Proof.
  induction t as [|p c k l IHl r IHr]; cbn; intros H; [by apply elem_of_nil in H|]. apply elem_of_cons in H as [->|H]; [by exists [], c, k, l, r|].
  apply elem_of_app in H as [H|H]; [destruct (IHl H) as (C & c' & k' & l' & r' & ->)|destruct (IHr H) as (C & c' & k' & l' & r' & ->)].
  - exists (C ++ [Fr SL p c k r]), c', k', l', r'. unfold plug. by rewrite foldl_app.
  - exists (C ++ [Fr SR p c k l]), c', k', l', r'. unfold plug. by rewrite foldl_app.
Qed.

Lemma wp_transplant s C u par v Q : repc s C u -> u <> 0 -> rb_parent s u = cpar C -> rep s par v -> NoDup (u :: ptrs v ++ cptrs C) ->
  (forall s', at_tree s' C v -> (forall q, q ∉ cptrs C -> q ∉ ptrs v -> same_node s s' q) -> Q tt s') -> wp (_rb_transplant u (ptr v)) Q s.
Proof.
  intros HC Hu Hp Hv HN HQ. apply NoDup_cons in HN as [Hin HN]. pose proof HN as HN'. apply NoDup_app in HN' as (N1 & N2 & N3).
  unfold _rb_transplant. wp_step. eapply wp_replace_child; [exact HC|done|done|set_solver|done|]. intros s1 HC1 E1.
  assert (rep s1 par v) as Hv1 by (eapply rb_rep_same; [|exact Hv]; intros q Hq; apply E1; by apply N2).
  assert (wp (when (negb (ptr v =? 0)) (set_parent (ptr v) (cpar C))) Q s1) as Hw.
  { eapply wp_adopt; [exact Hv1|done|]. intros s2 Hv2 E2 R2. apply HQ.
    - split; [done| |done]. refine (repc_same s1 _ C _ _ R2 HC1). intros q Hq. apply E2. intros Hqv. by apply (N2 q).
    - intros q H1 H2. eapply rb_same_trans; [by apply E1|by apply E2]. }
  destruct (negb (ptr v =? 0)); cbn [when] in *; [|exact Hw]. wp_step. apply wp_rd; [done|]. destruct (E1 u) as (_ & _ & _ & _ & ->); [set_solver|]. by rewrite Hp.
Qed.

(** The node [y], whose left child is free, takes the place of [z]. *)
Lemma wp_take_place {A} s C z cz l y cy ky r par (v : A) Q : repc s C z -> z <> 0 -> rb_left s z = ptr l -> rb_color_of s z = cz -> rb_parent s z = cpar C -> l <> Lf -> rep s z l ->
  rep s par (Nd y cy ky Lf r) -> NoDup (z :: y :: ptrs r ++ ptrs l ++ cptrs C) -> (forall s', at_tree s' C (Nd y cz ky l r) -> Q v s') ->
  wp (_rb_transplant z y ;; let* zl := rd rb_left z in set_left y zl ;; let* yl := rd rb_left y in set_parent yl y ;; let* zc := rd rb_color_of z in set_color y zc ;; ret v) Q s.
Proof.
  intros HC Hz Zl Zc Zp Hl Hrl Hry HN HQ. apply NoDup_cons in HN as [Nz HN]. apply NoDup_cons in HN as [Ny HN]. apply NoDup_app in HN as (N1 & N2 & HN). apply NoDup_app in HN as (N3 & N4 & N5).
  wp_step. apply (wp_transplant s C z par (Nd y cy ky Lf r)); [done|done|done|done| |].
  { cbn. apply NoDup_cons; split; [set_solver|]. apply NoDup_cons; split; [set_solver|]. apply NoDup_app; split_and!; [done|set_solver|done]. }
  intros s1 [H1 HC1 _] E1. cbn in H1. destruct H1 as ([Y1 Y2 Y3 Y4 Y5 Y6] & _ & Hr1).
  assert (forall q, q = z \/ q ∈ ptrs l -> same_node s s1 q) as E1'. { intros q Hq. apply E1; cbn; destruct Hq; set_solver. }
  destruct (E1' z ltac:(by left)) as (_ & Ec & El & _). wp_step. apply wp_rd; [done|]. rewrite El, Zl. wp_step. apply wp_wr; [done|]. wp_step. apply wp_rd; [done|]. cbn [rb_left left_to]. rewrite upd_eq.
  assert (rep s1 z l) as Hl1 by (eapply rb_rep_same; [|exact Hrl]; intros q Hq; apply E1'; by right).
  set (s2 := left_to y (ptr l) s1). assert (forall q, q <> y -> same_node s1 s2 q) as E2 by (intros q Hq; by apply (same_child_to SL)).
  assert (rep s2 z l) as Hl2 by (eapply rb_rep_same; [|exact Hl1]; intros q Hq; apply E2; set_solver).
  assert (ptr l <> 0) as Hpl by (intros E; by apply Hl, (rep_null _ _ _ Hrl)). assert (ptr l ∈ ptrs l) as Hpi by by apply ptr_in.
  wp_step. apply wp_wr; [done|]. set (s3 := parent_to (ptr l) y s2). assert (forall q, q <> ptr l -> same_node s2 s3 q) as E3 by (intros q Hq; by apply same_parent_to).
  wp_step. apply wp_rd; [done|]. assert (rb_color_of s3 z = cz) as -> by (cbn; by rewrite Ec). wp_step. apply wp_wr; [done|]. apply HQ.
  set (s4 := color_to y cz s3). assert (forall q, q <> y -> same_node s3 s4 q) as E4 by (intros q Hq; by apply same_color_to). split.
  - cbn. split; [|split].
    + assert (y <> ptr l) by set_solver. split; cbn; rewrite ?upd_eq, ?upd_ne by done; done.
    + eapply rb_rep_same; [|eapply (rep_parent s2 z y l); done]. intros q Hq. apply E4. set_solver.
    + eapply rb_rep_same; [|exact Hr1]. intros q Hq. eapply rb_same_trans; [apply E2; set_solver|]. eapply rb_same_trans; [apply E3; set_solver|]. apply E4. set_solver.
  - refine (repc_same s1 _ C _ _ _ HC1); [|done]. intros q Hq. eapply rb_same_trans; [apply E2; set_solver|]. eapply rb_same_trans; [apply E3; set_solver|]. apply E4. set_solver.
  - cbn. apply NoDup_cons; split; [set_solver|]. rewrite <- app_assoc. repeat (apply NoDup_app; split_and!); try done; set_solver.
Qed.

(** ** rb_delete *)

Lemma del_mid z k (l1 l2 : list (Z * K)) : z ∉ l1.*1 -> z ∉ l2.*1 -> del z (l1 ++ (z, k) :: l2) = l1 ++ l2.
Proof.
  assert (forall l : list (Z * K), z ∉ l.*1 -> del z l = l) as Hid.
  { intros l. unfold del. induction l as [|x l IH]; intros Hl; [done|]. cbn in Hl. apply not_elem_of_cons in Hl as [Hx Hl]. rewrite filter_cons_True by done. by rewrite IH. }
  intros H1 H2. unfold del. rewrite filter_app. f_equal; [by apply Hid|]. rewrite filter_cons_False by (cbn; tauto). by apply Hid.
Qed.
Lemma inc_split C : exists l1 l2, forall l : list (Z * K), inc C l = l1 ++ l ++ l2.
Proof.
  induction C as [|f C (l1 & l2 & IH)]; [exists [], []; intros l; by rewrite app_nil_r|]. change (exists m1 m2, forall l : list (Z * K), inc C (around f l) = m1 ++ l ++ m2).
  unfold around. destruct (f_side f).
  - exists l1, ((f_ptr f, f_key f) :: inorder (f_sib f) ++ l2). intros l. rewrite IH. by rewrite <- app_assoc.
  - exists (l1 ++ inorder (f_sib f) ++ [(f_ptr f, f_key f)]), l2. intros l. rewrite IH. app_norm.
Qed.
Lemma del_inc C z k (m1 m2 : list (Z * K)) : NoDup (inc C (m1 ++ (z, k) :: m2)).*1 -> del z (inc C (m1 ++ (z, k) :: m2)) = inc C (m1 ++ m2).
Proof.
  destruct (inc_split C) as (l1 & l2 & E). rewrite !E, <- !app_assoc. cbn [app]. rewrite app_assoc. intros HN. rewrite fmap_app in HN. cbn in HN. apply NoDup_app in HN as (_ & H1 & H2). apply NoDup_cons in H2 as [H2 _].
  rewrite del_mid; [app_norm| |done]. intros Hx. apply (H1 z Hx). by left.
Qed.

(** What is left after the node is taken out: a black one is missed. *)
Definition left_over c C t : Prop := match c with RED => exists n, fits n C t | BLACK => exists n, deleted n C t end.
Record spliced (L : list (Z * K)) (h : nat) c x xp s : Prop := {
  sp_ex : exists C t, at_tree s C t /\ x = ptr t /\ xp = cpar C /\ inc C (inorder t) = L /\ (S (length C) <= h)%nat /\ left_over c C t }.
Lemma spliced_fits n C d y c k v : fits n C (node d y c k Lf v) -> left_over c C v.
Proof.
  intros [H1 H2 H3 H4 H5]. rewrite bal_node in H1. rewrite nored_node in H3. rewrite col_node in H5. destruct H3 as (Hc & _ & Hv). destruct c; cbn.
  - destruct H1 as [E Hb]. cbn in E. subst n. destruct (Hc eq_refl) as [_ Hcv]. exists 0%nat. split; try done. congruence.
  - destruct n as [|n]; [done|]. destruct H1 as [_ Hb]. exists n. split; try done. destruct v; [done|]. cbn in *. naive_solver.
Qed.
(** The invariant of the rest of the tree does not depend on addresses. *)
Lemma swap_frame D C p p' c k k' (b : tree K) d : (forall n, balc n (D ++ Fr d p c k b :: C) -> balc n (D ++ Fr d p' c k' b :: C)) /\
  (noredc (D ++ Fr d p c k b :: C) -> noredc (D ++ Fr d p' c k' b :: C)) /\ ctop (D ++ Fr d p' c k' b :: C) = ctop (D ++ Fr d p c k b :: C).
Proof.
  induction D as [|f D (I1 & I2 & I3)]; [done|]. cbn. split; [|split; [|done]].
  - intros n [H1 H2]. split; [done|]. by apply I1.
  - intros (H1 & H2 & H3). split; [done|]. rewrite I3. split; [done|]. by apply I2.
Qed.
Lemma swap_left D C p p' c0 k k' (b t : tree K) d c : left_over c (D ++ Fr d p c0 k b :: C) t -> left_over c (D ++ Fr d p' c0 k' b :: C) t.
Proof.
  destruct (swap_frame D C p p' c0 k k' b d) as (I1 & I2 & I3). destruct c; intros [n [H1 H2 H3 H4]]; exists n.
  - split; try done; [by apply I1|by apply I2|by rewrite I3].
  - split; try done; [by apply I1|by apply I2].
Qed.

Lemma delete_one s n C d z c k v : at_tree s C (node d z c k Lf v) -> fits n C (node d z c k Lf v) ->
  wp (let* zp := rd rb_parent z in _rb_transplant z (ptr v) ;; ret (c, ptr v, zp)) (fun r s' => spliced (del z (inorder (plug C (node d z c k Lf v)))) (height (plug C (node d z c k Lf v))) r.1.1 r.1.2 r.2 s') s.
Proof.
  intros H HF. pose proof H as H0. rewrite at_plug in H0. pose proof H as [HR HC HN]. rewrite rep_node in HR. destruct HR as (Hf & _ & Hv). destruct (fields_d _ _ _ _ _ _ _ _ Hf) as (Hz & _ & _ & _ & _ & Hp). rewrite ptr_node in HC. rewrite ptrs_node in HN. cbn in HN.
  wp_step. apply wp_rd; [done|]. rewrite Hp. wp_step. eapply wp_transplant; [exact HC|done|done|exact Hv|done|]. intros s1 H1 _. wp_step. split. exists C, v. split; [done|]. split; [done|]. split; [done|]. split.
  - destruct H0 as [_ _ HN0]. cbn [cptrs] in HN0. rewrite app_nil_r, <- inorder_ptrs, inorder_plug in HN0. rewrite inorder_plug.
    assert (inorder (node d z c k Lf v) = match d with SL => [] | SR => inorder v end ++ (z, k) :: match d with SL => inorder v | SR => [] end) as E by by destruct d.
    rewrite E in *. rewrite del_inc by done. destruct d; cbn; [done|]. by rewrite app_nil_r.
  - split; [|by eapply spliced_fits]. pose proof (plug_height C (node d z c k Lf v)) as Hh. rewrite height_node in Hh. lia.
Qed.

(** The successor leaves its place and takes the right subtree over. *)
Lemma wp_cut {A} s C z c k l D y cy ky ry (v : A) Q : D <> [] -> at_tree s (D ++ Fr SR z c k l :: C) (Nd y cy ky Lf ry) -> NoDup (z :: y :: ptrs (plug D ry) ++ ptrs l ++ cptrs C) ->
  (forall s' par, repc s' C z -> rb_left s' z = ptr l -> rb_color_of s' z = c -> rb_parent s' z = cpar C -> rep s' z l -> rep s' par (Nd y cy ky Lf (plug D ry)) -> Q v s') ->
  wp (_rb_transplant y (ptr ry) ;; let* zr := rd rb_right z in set_right y zr ;; let* yr := rd rb_right y in set_parent yr y ;; ret v) Q s.
Proof.
  intros HD [[[Hy Yk Yc Yl Yr Yp] [_ Hry]] HC HN] HND HQ. wp_step. eapply wp_transplant; [exact HC|done|exact Yp|exact Hry|exact HN|]. intros s1 H1 E1.
  assert (same_node s s1 y) as (Sk & Sc & Sl & _ & _).
  { apply NoDup_cons in HN as [Hn _]. cbn in Hn. apply not_elem_of_app in Hn as [? ?]. by apply E1. }
  rewrite at_app in H1. set (r := plug D ry) in *. destruct (fields_d _ _ _ _ _ _ _ _ (at_frame _ _ _ _ H1)) as (Hz & _ & Zc & Zr & Zl & Zp). cbn in Zc, Zr, Zl, Zp. destruct H1 as [Hr (_ & Hl & HCz) _]. cbn [f_ptr f_sib] in Hr, Hl, HCz.
  assert (r <> Lf) as Hrl. { destruct D as [|g D]; [done|]. apply (plug_node D (close g ry)). rewrite close_node. by destruct (f_side g). }
  assert (ptr r <> 0) as Hr0 by (intros E; by apply Hrl, (rep_null _ _ _ Hr)). pose proof (ptr_in r Hr0) as Hri.
  apply NoDup_cons in HND as [Nz HND]. apply NoDup_cons in HND as [Ny HND]. apply NoDup_app in HND as (N1 & N2 & HND). apply NoDup_app in HND as (N3 & N4 & N5).
  wp_step. apply wp_rd; [done|]. rewrite Zr. wp_step. apply wp_wr; [done|]. wp_step. apply wp_rd; [done|]. cbn [rb_right right_to]. rewrite upd_eq. wp_step. apply wp_wr; [done|]. wp_step.
  set (s2 := right_to y (ptr r) s1). set (s3 := parent_to (ptr r) y s2).
  assert (forall q, q <> y -> same_node s1 s2 q) as E2 by (intros q Hq; by apply (same_child_to SR)).
  assert (forall q, q <> y -> q <> ptr r -> same_node s1 s3 q) as E3. { intros q H2 H3. eapply rb_same_trans; [by apply E2|]. by apply same_parent_to. }
  assert (same_node s1 s3 z) as (_ & Ec & El & _ & Ep) by (apply E3; set_solver). apply (HQ s3 (rb_parent s3 y)); [|congruence|congruence|congruence| |].
  - refine (repc_same s1 _ C _ _ _ HCz); [|done]. intros q Hq. apply E3; set_solver.
  - eapply rb_rep_same; [|exact Hl]. intros q Hq. apply E3; set_solver.
  - cbn [rep ptr]. split; [|split; [done|]].
    + cbn in Yl. split; cbn; rewrite ?upd_eq; congruence.
    + eapply (rep_parent s2 z y r); [|done]. eapply rb_rep_same; [|exact Hr]. intros q Hq. apply E2. set_solver.
Qed.

Lemma delete_two s n C z c k l r fuel : at_tree s C (Nd z c k l r) -> fits n C (Nd z c k l r) -> l <> Lf -> r <> Lf -> (height r <= fuel)%nat ->
  wp (let* y := rb_first fuel (ptr r) in
      let* c := rd rb_color_of y in
      let* x := rd rb_right y in
      let* yp := rd rb_parent y in
      let* xp := (if yp =? z then ret y else
                    _rb_transplant y x ;; let* zr := rd rb_right z in set_right y zr ;; let* yr := rd rb_right y in set_parent yr y ;; ret yp) in
      _rb_transplant z y ;; let* zl := rd rb_left z in set_left y zl ;; let* yl := rd rb_left y in set_parent yl y ;; let* zc := rd rb_color_of z in set_color y zc ;;
      ret (c, x, xp)) (fun v s' => spliced (del z (inorder (plug C (Nd z c k l r)))) (height (plug C (Nd z c k l r))) v.1.1 v.1.2 v.2 s') s.
Proof.
  intros H HF Hl Hr Hfu. pose proof H as [(Hf & Hrl & Hrr) HC HN]. pose proof Hf as [Hz _ Fc Fl Fr' Fp]. pose proof H as H0. rewrite at_plug in H0. destruct H0 as [_ _ HN0]. cbn [cptrs] in HN0. rewrite app_nil_r, <- inorder_ptrs, inorder_plug in HN0.
  unfold rb_first. destruct (Z.eqb_spec (ptr r) 0) as [E|_]; [by destruct Hr; apply (rep_null s z)|]. wp_step. eapply wp_mono; [by eapply first_loop|]. intros y s0 (-> & D & cy & ky & ry & -> & HD).
  change (Nd z c k l (plug D (Nd y cy ky Lf ry))) with (close (Fr SR z c k l) (plug D (Nd y cy ky Lf ry))) in H. rewrite <- at_close, <- at_app in H.
  set (F := D ++ Fr SR z c k l :: C) in *. pose proof (at_fields _ _ SL _ _ _ _ _ H) as [Hy _ Yc Yl Yr Yp]. wp_step. apply wp_rd; [done|]. rewrite Yc. wp_step. apply wp_rd; [done|]. rewrite Yr. wp_step. apply wp_rd; [done|]. rewrite Yp.
  (* what is needed of every final state *)
  assert (forall s' xp, at_tree s' C (Nd y c ky l (plug D ry)) -> xp = cpar (D ++ Fr SR y c ky l :: C) -> spliced (del z (inorder (plug C (Nd z c k l (plug D (Nd y cy ky Lf ry)))))) (height (plug C (Nd z c k l (plug D (Nd y cy ky Lf ry))))) cy (ptr ry) xp s') as Hfin.
  { intros s' xp H' ->. split. exists (D ++ Fr SR y c ky l :: C), ry. split; [by rewrite at_app, at_close|]. split; [done|]. split; [done|]. split; [|split].
    - rewrite inorder_plug. cbn [inorder] in HN0 |- *. rewrite del_inc by done. rewrite inc_app, inorder_plug. cbn [inorder app]. by rewrite inc_left.
    - pose proof (plug_height C (close (Fr SR z c k l) (plug D (Nd y cy ky Lf ry)))) as G1. pose proof (plug_height (D ++ [Fr SR z c k l]) (Nd y cy ky Lf ry)) as G2. unfold plug in G2 at 1. rewrite foldl_app in G2. cbn [foldl] in G2. fold (plug D (Nd y cy ky Lf ry)) in G2.
      rewrite length_app in G2 |- *. cbn [length height] in *. cbn [close node f_side f_ptr f_col f_key f_sib] in *. lia.
    - apply (swap_left D C z y c k ky l ry SR). change (plug C (Nd z c k l (plug D (Nd y cy ky Lf ry)))) with (plug (Fr SR z c k l :: C) (plug D (Nd y cy ky Lf ry))) in *.
      assert (rb_ok (plug F (Nd y cy ky Lf ry))) as Hok by (unfold F, plug; rewrite foldl_app; by apply (fits_plug n C)). apply fits_unplug in Hok as [m Hm]. by apply (spliced_fits m F SL y cy ky ry). }
  assert (NoDup (z :: y :: ptrs (plug D ry) ++ ptrs l ++ cptrs C)) as HND.
  { assert (ptrs l ++ ptrs (plug D (Nd y cy ky Lf ry)) ≡ₚ y :: ptrs (plug D ry) ++ ptrs l) as E by by rewrite Permutation_app_comm, !ptrs_plug.
    cbn [ptrs] in HN. rewrite E in HN. cbn in HN. by rewrite <- app_assoc in HN. }
  destruct D as [|g D].
  - cbn [cpar app F f_ptr] in *. unfold F. cbn [app cpar f_ptr]. rewrite Z.eqb_refl. wp_step. wp_step.
    eapply (wp_take_place s C z c l y cy ky ry z); [done|done|by rewrite Fl|done|done|done|done|exact Hrr|exact HND|]. intros s' H'. by apply Hfin.
  - assert (f_ptr g <> z) as Hgz.
    { intros E. destruct H as [_ _ HN1]. unfold F in HN1. rewrite <- E in HND. apply NoDup_cons in HND as [Hx _]. apply Hx. right. apply elem_of_app. left. rewrite ptrs_plug. apply elem_of_app. right. by left. }
    change (cpar F) with (f_ptr g). rewrite (proj2 (Z.eqb_neq _ _)) by done. wp_step.
    eapply (wp_cut s C z c k l (g :: D)); [done|exact H|exact HND|]. intros s1 par G1 G2 G3 G4 G5 G6.
    eapply (wp_take_place s1 C z c l y cy ky (plug (g :: D) ry) par); try done. intros s' H'. by apply Hfin.
Qed.

Lemma rb_delete_spec fuel s t z : at_tree s [] t -> rb_ok t -> z ∈ ptrs t -> (height t < fuel)%nat ->
  wp (rb_delete fuel z) (fun _ s' => exists t', at_tree s' [] t' /\ rb_ok t' /\ inorder t' = del z (inorder t)) s.
Proof.
  intros H Hok Hin Hf. destruct (in_plug t z Hin) as (C & c & k & l & r & ->). apply fits_unplug in Hok as [n HF]. rewrite <- at_plug in H.
  pose proof (at_fields _ _ SL _ _ _ _ _ H) as [Hz _ Fc Fl Fr' _]. pose proof H as [(_ & Hrl & Hrr) _ _]. unfold rb_delete. wp_step. apply wp_rd; [done|]. rewrite Fc. wp_step. apply wp_rd; [done|]. rewrite Fl. wp_step. apply wp_rd; [done|]. rewrite Fr'.
  set (T0 := plug C (Nd z c k l r)) in *. wp_step. eapply (wp_mono _ (fun v s' => spliced (del z (inorder T0)) (height T0) v.1.1 v.1.2 v.2 s')).
  - destruct (Z.eqb_spec (ptr l) 0) as [El|El].
    + assert (l = Lf) by (by eapply rep_null). subst l. by apply (delete_one s n C SL).
    + destruct (Z.eqb_spec (ptr r) 0) as [Er|Er].
      * assert (r = Lf) by (by eapply rep_null). subst r. by apply (delete_one s n C SR).
      * apply (delete_two s n C z c k l r); [done|done|by intros ->|by intros ->|]. pose proof (plug_height C (Nd z c k l r)) as Hh. cbn in Hh. unfold T0 in Hf. lia.
  - intros [[c' x] xp] s1 Hsp. cbn in Hsp. destruct Hsp as [(C1 & t1 & H1 & -> & -> & El & Hlen & Hlo)]. apply wp_when; intros Hc.
    + destruct c'; [done|]. destruct Hlo as [m Hm]. rewrite <- El. eapply delete_fixup_spec; [exact H1|exact Hm|lia].
    + destruct c'; [|done]. destruct Hlo as [m Hm]. exists (plug C1 t1). rewrite <- at_plug, inorder_plug. split; [done|]. split; [by eapply fits_plug|done].
Qed.
End Remove.

(** ** Any sequence of operations *)

Inductive rb_op (K : Type) := Insert (z : Z) (k : K) | Delete (z : Z).
Arguments Insert {K} z k.
Arguments Delete {K} z.

Section History.
Context {K : Type} (klt : K -> K -> bool).
Hypothesis klt_asym : forall a b, klt a b = true -> klt b a = false.
Hypothesis klt_cotrans : forall a b c, klt a c = true -> klt a b = true \/ klt b c = true.

(** A client: it sets the key of a node and inserts it, or deletes a node. *)
Definition run_op (fuel : nat) (o : rb_op K) : @T K unit := match o with
  | Insert z k => modify (key_to z k) ;; rb_insert klt fuel z
  | Delete z => rb_delete fuel z end.
Fixpoint run_ops (fuel : nat) (os : list (rb_op K)) : @T K unit := match os with [] => ret tt | o :: os => run_op fuel o ;; run_ops fuel os end.

(** The same on a sorted list of nodes and keys. *)
Definition list_op (L : list (Z * K)) (o : rb_op K) : list (Z * K) := match o with Insert z k => ins klt z k L | Delete z => del z L end.
(** A node is inserted when it is not in the tree and deleted when it is;
    there are never more than [cap]. *)
Definition op_ok (L : list (Z * K)) (o : rb_op K) : Prop := match o with Insert z _ => z <> 0 /\ z ∉ L.*1 | Delete z => z ∈ L.*1 end.
Fixpoint ops_ok (cap : nat) (L : list (Z * K)) (os : list (rb_op K)) : Prop := match os with
  | [] => True | o :: os => op_ok L o /\ (length (list_op L o) <= cap)%nat /\ ops_ok cap (list_op L o) os end.

(** The tree holds the list. *)
Definition holds (s : rbmem K) (L : list (Z * K)) : Prop := exists t, at_tree s [] t /\ rb_ok t /\ inorder t = L /\ sorted klt L.
Lemma holds_height L (t : tree K) cap : rb_ok t -> inorder t = L -> (length L <= cap)%nat -> (height t <= 2 * Nat.log2 (S cap))%nat.
Proof. intros H <- Hl. pose proof (rb_height t H). pose proof (Nat.log2_le_mono (S (length (inorder t))) (S cap) ltac:(lia)). lia. Qed.

Lemma run_op_spec fuel cap s L o : holds s L -> (length L <= cap)%nat -> op_ok L o -> (2 * Nat.log2 (S cap) < fuel)%nat -> wp (run_op fuel o) (fun _ s' => holds s' (list_op L o)) s.
Proof.
  intros (t & H & Hok & E & Hs) Hl Ho Hf. pose proof (holds_height L t cap Hok E Hl) as Hh. subst L. destruct o as [z k|z]; cbn in *.
  - destruct Ho as [Hz Hin]. rewrite inorder_ptrs in Hin. wp_step. wp_step.
    assert (at_tree (key_to z k s) [] t) as H1.
    { destruct H as [HR HC HN]. split; [|exact HC|done]. eapply rb_rep_same; [|exact HR]. intros q Hq. apply same_key_to. congruence. }
    eapply wp_mono; [apply (rb_insert_spec klt klt_asym klt_cotrans fuel _ t z H1); try done; lia|]. intros [] s' (t' & H2 & Hok2 & E2). exists t'. cbn in E2. rewrite upd_eq in E2.
    split; [done|]. split; [done|]. split; [done|]. by apply ins_sorted.
  - rewrite inorder_ptrs in Ho. eapply wp_mono; [apply (rb_delete_spec fuel s t z); try done; lia|]. intros [] s' (t' & H2 & Hok2 & E2). exists t'. split; [done|]. split; [done|]. split; [done|]. by apply del_sorted.
Qed.
Lemma run_ops_spec fuel cap os : (2 * Nat.log2 (S cap) < fuel)%nat -> forall s L, holds s L -> (length L <= cap)%nat -> ops_ok cap L os ->
  wp (run_ops fuel os) (fun _ s' => holds s' (foldl list_op L os) /\ (length (foldl list_op L os) <= cap)%nat) s.
Proof.
  intros Hf. induction os as [|o os IH]; intros s L H Hl Ho; [done|]. destruct Ho as (H1 & H2 & H3). cbn [run_ops]. wp_step. eapply wp_mono; [by eapply run_op_spec|]. intros [] s' H'. by apply IH.
Qed.
End History.

(** C8: A red-black tree is a sorted list of nodes.  Starting from an empty
    tree, let a client insert nodes that are not in the tree and delete nodes
    that are, in any order, with at most [cap] nodes at a time, and let the
    comparison of keys be a strict weak order.  Then no operation follows a
    null pointer, every loop ends within 2 log2(cap + 1) + 1 rounds, and the
    tree stays a red-black tree, with consistent parent pointers, whose nodes
    in order are those of the list kept by sorted insertion (behind equal
    keys) and deletion; rb_first and rb_last return its ends, null when it is
    empty. *)
Theorem rbtree_sorted_list {K} (klt : K -> K -> bool) fuel cap os (s : rbmem K) :
  (forall a b, klt a b = true -> klt b a = false) -> (forall a b c, klt a c = true -> klt a b = true \/ klt b c = true) ->
  rb_root s = 0 -> ops_ok klt cap [] os -> (2 * Nat.log2 (S cap) < fuel)%nat ->
  let L := foldl (list_op klt) [] os in
  wp (run_ops klt fuel os ;; let* r := gets rb_root in let* a := rb_first fuel r in let* b := rb_last fuel r in ret (a, b)) (fun v s' =>
    (exists t, at_tree s' [] t /\ rb_ok t /\ inorder t = L) /\ sorted klt L /\
    v = (match L with [] => 0 | x :: _ => x.1 end, match last L with None => 0 | Some x => x.1 end)) s.
Proof.
  intros Ha Hc Hr Ho Hf L. wp_step. eapply wp_mono; [apply (run_ops_spec klt Ha Hc fuel cap os Hf s [])|].
  - exists Lf. split; [split; [done|exact Hr|constructor]|]. split; [exists 0%nat; by split|]. split; [done|constructor].
  - cbn. lia.
  - done.
  - intros [] s1 [(t & H & Hok & E & Hs) Hl]. pose proof (holds_height L t cap Hok E Hl). fold L in E, Hs. wp_step. wp_step. rewrite (at_root s1 t H). wp_step. eapply wp_mono; [apply (rb_first_spec fuel s1 0 t); [apply H|lia]|].
    intros a s2 [-> ->]. wp_step. eapply wp_mono; [apply (rb_last_spec fuel s1 0 t); [apply H|lia]|]. intros b s3 [-> ->]. wp_step. rewrite E. split; [by exists t|done].
Qed.

Definition rb_empty : rbmem Z := RbMem 0 (fun _ => 0) (fun _ => BLACK) (fun _ => 0) (fun _ => 0) (fun _ => 0).
Definition some_ops : list (rb_op Z) := [Insert 1 50; Insert 2 20; Insert 3 70; Insert 4 20; Insert 5 10; Delete 1; Insert 6 30; Delete 2; Delete 5].
(** Six insertions, one of them of an equal key, and three deletions. *)
Lemma rbtree_sorted_list_witness : foldl (list_op Z.ltb) [] some_ops = [(4, 20); (6, 30); (3, 70)] /\
  wp (run_ops Z.ltb 6 some_ops ;; let* r := gets rb_root in let* a := rb_first 6 r in let* b := rb_last 6 r in ret (a, b)) (fun v s' =>
    (exists t, at_tree s' [] t /\ rb_ok t /\ inorder t = foldl (list_op Z.ltb) [] some_ops) /\ sorted Z.ltb (foldl (list_op Z.ltb) [] some_ops) /\
    v = (match foldl (list_op Z.ltb) [] some_ops with [] => 0 | x :: _ => x.1 end, match last (foldl (list_op Z.ltb) [] some_ops) with None => 0 | Some x => x.1 end)) rb_empty.
Proof.
  split; [by vm_compute|]. apply (rbtree_sorted_list Z.ltb 6 5 some_ops rb_empty).
  - intros a b Hab. lia.
  - intros a b c Hac. lia.
  - done.
  - unfold some_ops. cbn [ops_ok op_ok]. split_and!; try done; apply (bool_decide_unpack _); by vm_compute.
  - vm_compute. lia.
Defined.
