(* ===== verification/Spinlock.v ===== *)
(** * kernel/spinlock.c: spin locks on several CPUs

    The lock words and the per-CPU interrupt bookkeeping.  acquire and release
    are programs of atomic steps ([code]), written once and run in two ways:
    by one CPU of several, a step at a time between the steps of the others
    ([lock_step]), and by a CPU alone from beginning to end ([exec]).  The
    components of the kernel use the one-thread view of Prelude ([acquire],
    [release]); the last section shows that the code run alone implements it
    on any sequence of calls. *)

From S2P Require Import Prelude.

(** struct spinlock (without its debugging name) and the fields of struct cpu
    that push_off and pop_off keep, with the CPU's interrupt-enable bit. *)
Record slock := mkSlock { locked : bool; lcpu : option nat }.
Record pcpu := mkPcpu { noff : Z; intena : bool; sie : bool }.
Record smp := mkSmp { cpus : nat -> pcpu; locks : nat -> slock }.

Definition set_cpu (c : nat) (x : pcpu) (s : smp) : smp := mkSmp (upd (cpus s) c x) (locks s).
Definition set_lock (l : nat) (x : slock) (s : smp) : smp := mkSmp (cpus s) (upd (locks s) l x).

Definition initlock (l : nat) : M smp unit := modify (set_lock l (mkSlock false None)).

(** [c] is the CPU that runs the code: mycpu(). *)
Definition holding (c l : nat) (s : smp) : bool :=
  locked (locks s l) && bool_decide (lcpu (locks s l) = Some c).

Definition push_off (c : nat) : M smp unit :=
  let* old := gets (fun s => sie (cpus s c)) in
  modify (fun s => set_cpu c (mkPcpu (noff (cpus s c)) (intena (cpus s c)) false) s) ;;
  let* n := gets (fun s => noff (cpus s c)) in
  when (n =? 0) (modify (fun s => set_cpu c (mkPcpu (noff (cpus s c)) old (sie (cpus s c))) s)) ;;
  modify (fun s => set_cpu c (mkPcpu (noff (cpus s c) + 1) (intena (cpus s c)) (sie (cpus s c))) s).

Definition pop_off (c : nat) : M smp unit :=
  let* x := gets (fun s => cpus s c) in
  if sie x then panic "pop_off - interruptible" else
  if noff x <? 1 then panic "pop_off" else
  modify (fun s => set_cpu c (mkPcpu (noff (cpus s c) - 1) (intena (cpus s c)) (sie (cpus s c))) s) ;;
  let* x := gets (fun s => cpus s c) in
  when ((noff x =? 0) && intena x)
    (modify (fun s => set_cpu c (mkPcpu (noff (cpus s c)) (intena (cpus s c)) true) s)).

(** [__sync_lock_test_and_set(&lk->locked, 1)]: the old value. *)
Definition test_and_set (l : nat) : M smp bool :=
  let* old := gets (fun s => locked (locks s l)) in
  modify (fun s => set_lock l (mkSlock true (lcpu (locks s l))) s) ;;
  ret old.

(** ** acquire and release as programs of atomic steps

    [Act] is an action no other CPU can split (push_off and pop_off only touch
    the fields of their own CPU), [While m k] evaluates the condition [m], an
    action, again and again while it is true, and goes on with [k]. *)
Inductive code :=
| Done
| Act (m : M smp unit) (k : code)
| While (m : M smp bool) (k : code).

Definition spin_acquire (c l : nat) : code :=
  Act (push_off c) (
  Act (let* h := gets (holding c l) in if (h : bool) then panic "acquire" else ret tt) (
  While (test_and_set l) (
  Act (modify (fun s => set_lock l (mkSlock (locked (locks s l)) (Some c)) s))
  Done))).

Definition spin_release (c l : nat) : code :=
  Act (let* h := gets (holding c l) in if negb h then panic "release" else ret tt) (
  Act (modify (fun s => set_lock l (mkSlock (locked (locks s l)) None) s)) (
  Act (modify (fun s => set_lock l (mkSlock false (lcpu (locks s l))) s)) (
  Act (pop_off c)
  Done))).

(** The next step of a program, and the program that remains. *)
Definition step1 (p : code) : M smp code :=
  match p with
  | Done => ret Done
  | Act m k => m ;; ret k
  | While m k => let* b := m in ret (if (b : bool) then p else k)
  end.

(** The whole program on one CPU, the others at rest; [fuel] bounds the
    rounds of each spin. *)
Fixpoint exec (fuel : nat) (p : code) : M smp unit :=
  match p with
  | Done => ret tt
  | Act m k => m ;; exec fuel k
  | While m k =>
      loop fuel (fun _ : unit => let* b := m in ret (if (b : bool) then inl tt else inr tt)) tt ;;
      exec fuel k
  end.

(** ** Interleavings

    Each CPU is between lock calls, or inside acquire or release with the
    part of the code it has still to run.  [held c] are the locks whose
    acquire has returned on CPU [c] and whose release it has not called.  A
    CPU may acquire any lock it does not hold and release any it holds, in
    any order. *)
Inductive call := Idle | Acquiring (l : nat) (p : code) | Releasing (l : nat) (p : code).
Record conf := mkConf { hw : smp; calls : nat -> call; held : nat -> list nat }.

Definition rest_code (x : call) : code :=
  match x with Idle => Done | Acquiring _ p | Releasing _ p => p end.
Definition with_rest (x : call) (p : code) : call :=
  match x with Idle => Idle | Acquiring l _ => Acquiring l p | Releasing l _ => Releasing l p end.

Inductive lock_step : conf -> conf -> Prop :=
| step_acquire c l s p h :
    p c = Idle -> l ∉ h c ->
    lock_step (mkConf s p h) (mkConf s (upd p c (Acquiring l (spin_acquire c l))) h)
| step_release c l s p h :
    p c = Idle -> l ∈ h c ->
    lock_step (mkConf s p h)
      (mkConf s (upd p c (Releasing l (spin_release c l))) (upd h c (filter (fun x => x <> l) (h c))))
| step_run c s p h q s' :
    step1 (rest_code (p c)) s = Ret q s' ->
    lock_step (mkConf s p h) (mkConf s' (upd p c (with_rest (p c) q)) h)
| step_acquired c l s p h :
    p c = Acquiring l Done ->
    lock_step (mkConf s p h) (mkConf s (upd p c Idle) (upd h c (l :: h c)))
| step_released c l s p h :
    p c = Releasing l Done ->
    lock_step (mkConf s p h) (mkConf s (upd p c Idle) h).

(** All lock words clear, no CPU in a critical section. *)
Definition lock_init (x : conf) : Prop :=
  forall c l, calls x c = Idle /\ held x c = [] /\ noff (cpus (hw x) c) = 0 /\
            locked (locks (hw x) l) = false /\ lcpu (locks (hw x) l) = None.

(** ** Effects of the atomic actions *)

Lemma push_off_effect c s :
  exists s', push_off c s = Ret tt s' /\ locks s' = locks s /\
    cpus s' c = mkPcpu (noff (cpus s c) + 1)
                  (if noff (cpus s c) =? 0 then sie (cpus s c) else intena (cpus s c)) false /\
    forall c', c' <> c -> cpus s' c' = cpus s c'.
Proof.
  unfold push_off, bind, gets, modify, when, ret, set_cpu. cbn. rewrite !upd_eq. cbn.
  destruct (noff (cpus s c) =? 0); eexists; (split; [reflexivity|]); cbn; repeat (rewrite upd_eq; cbn);
    (split; [done|]; split; [done|]); intros c' Hc'; by rewrite !upd_ne.
Qed.

Lemma pop_off_effect c s :
  sie (cpus s c) = false -> 1 <= noff (cpus s c) ->
  exists s', pop_off c s = Ret tt s' /\ locks s' = locks s /\
    cpus s' c = mkPcpu (noff (cpus s c) - 1) (intena (cpus s c))
                  ((noff (cpus s c) =? 1) && intena (cpus s c)) /\
    forall c', c' <> c -> cpus s' c' = cpus s c'.
Proof.
  intros Hs Hn. unfold pop_off, bind, gets, modify, when, ret, set_cpu. cbn. rewrite Hs.
  rewrite (proj2 (Z.ltb_ge _ _)) by lia. rewrite !upd_eq. cbn.
  replace (noff (cpus s c) - 1 =? 0) with (noff (cpus s c) =? 1)
    by (destruct (Z.eqb_spec (noff (cpus s c)) 1), (Z.eqb_spec (noff (cpus s c) - 1) 0); first [done | lia]).
  destruct ((noff (cpus s c) =? 1) && intena (cpus s c)); eexists; (split; [reflexivity|]); cbn;
    repeat (rewrite upd_eq; cbn); rewrite ?Hs; (split; [done|]; split; [done|]); intros c' Hc'; by rewrite !upd_ne.
Qed.

Lemma test_and_set_effect l s b s' : test_and_set l s = Ret b s' ->
  b = locked (locks s l) /\ cpus s' = cpus s /\ locks s' = upd (locks s) l (mkSlock true (lcpu (locks s l))).
Proof. unfold test_and_set, bind, gets, modify, ret. cbn. intros E. injection E as <- <-. done. Qed.

#[local] Arguments push_off : simpl never.
#[local] Arguments pop_off : simpl never.
#[local] Arguments test_and_set : simpl never.

(** ** The invariant of the interleavings

    Where a CPU is in the code, with the program that remains there. *)
Inductive phase :=
| Run | Enter (l : nat) | Check (l : nat) | Spin (l : nat) | Won (l : nat) | Own (l : nat)
| Leave (l : nat) | Clear (l : nat) | Leaving (l : nat) | Popping (l : nat) | Left (l : nat).

Definition acquire_spin (c l : nat) : code :=
  While (test_and_set l) (Act (modify (fun s => set_lock l (mkSlock (locked (locks s l)) (Some c)) s)) Done).
Definition release_pop (c : nat) : code := Act (pop_off c) Done.
Definition release_unlock (c l : nat) : code :=
  Act (modify (fun s => set_lock l (mkSlock false (lcpu (locks s l))) s)) (release_pop c).

Definition call_at (c : nat) (p : phase) : call :=
  match p with
  | Run => Idle
  | Enter l => Acquiring l (spin_acquire c l)
  | Check l => Acquiring l
      (Act (let* h := gets (holding c l) in if (h : bool) then panic "acquire" else ret tt) (acquire_spin c l))
  | Spin l => Acquiring l (acquire_spin c l)
  | Won l => Acquiring l (Act (modify (fun s => set_lock l (mkSlock (locked (locks s l)) (Some c)) s)) Done)
  | Own l => Acquiring l Done
  | Leave l => Releasing l (spin_release c l)
  | Clear l => Releasing l
      (Act (modify (fun s => set_lock l (mkSlock (locked (locks s l)) None) s)) (release_unlock c l))
  | Leaving l => Releasing l (release_unlock c l)
  | Popping l => Releasing l (release_pop c)
  | Left l => Releasing l Done
  end.

(** The lock of the call; whether the CPU set its word; whether lk->cpu names
    it; the calls of push_off not yet matched. *)
Definition target (p : phase) : option nat :=
  match p with
  | Run => None
  | Enter l | Check l | Spin l | Won l | Own l | Leave l | Clear l | Leaving l | Popping l | Left l => Some l
  end.
Definition sets (p : phase) (l : nat) : Prop :=
  match p with Won k | Own k | Leave k | Clear k | Leaving k => k = l | _ => False end.
Definition names (p : phase) (l : nat) : Prop :=
  match p with Own k | Leave k | Clear k => k = l | _ => False end.
Definition depth (p : phase) : Z :=
  match p with Run | Enter _ | Left _ => 0 | _ => 1 end.

(** The lock words, for the CPUs that set them ([has]) and that they name
    ([marks]). *)
Record words_ok (L : nat -> slock) (has marks : nat -> nat -> Prop) : Prop := {
  wo_cpu : forall c l, lcpu (L l) = Some c <-> marks c l;
  wo_set : forall l, locked (L l) = true <-> exists c, has c l;
  wo_uniq : forall c c' l, has c l -> has c' l -> c = c';
  wo_sub : forall c l, marks c l -> has c l }.

(** One CPU, with the interrupt setting [b] it had outside. *)
Record cpu_ok (b : bool) (x : pcpu) (h : list nat) (p : phase) : Prop := {
  co_nodup : NoDup h;
  co_target : forall l, target p = Some l -> l ∉ h;
  co_noff : noff x = Z.of_nat (length h) + depth p;
  co_off : 0 < noff x -> sie x = false /\ intena x = b;
  co_on : noff x = 0 -> sie x = b }.

Definition has (P : nat -> phase) (h : nat -> list nat) (c l : nat) : Prop := l ∈ h c \/ sets (P c) l.
Definition marks (P : nat -> phase) (h : nat -> list nat) (c l : nat) : Prop := l ∈ h c \/ names (P c) l.

Definition lock_inv (b : nat -> bool) (x : conf) : Prop :=
  exists P, (forall c, calls x c = call_at c (P c)) /\
    words_ok (locks (hw x)) (has P (held x)) (marks P (held x)) /\
    forall c, cpu_ok (b c) (cpus (hw x) c) (held x c) (P c).

Lemma lock_inv_init x : lock_init x -> lock_inv (fun c => sie (cpus (hw x) c)) x.
Proof.
  intros Hi. exists (fun _ => Run). split; [intros c; apply (Hi c 0%nat)|]. split.
  - split; unfold has, marks; cbn.
    + intros c l. destruct (Hi c l) as (_ & -> & _ & _ & ->). rewrite elem_of_nil. naive_solver.
    + intros l. destruct (Hi 0%nat l) as (_ & _ & _ & -> & _). split; [done|].
      intros [c Hc]. destruct (Hi c l) as (_ & E & _). rewrite E, elem_of_nil in Hc. tauto.
    + intros c c' l Hc. destruct (Hi c l) as (_ & E & _). rewrite E, elem_of_nil in Hc. tauto.
    + tauto.
  - intros c. destruct (Hi c 0%nat) as (_ & -> & E & _). split; cbn; rewrite ?E; try done; constructor.
Qed.

(** Case analysis on whether a CPU, or a lock, is the one that moves. *)
Ltac upd_case i j :=
  let E := fresh "E" in
  destruct (decide (i = j)) as [E|E];
  [subst i; rewrite ?upd_eq in * | rewrite ?(upd_ne _ j i) in * by done]; cbn in *.

(** A step of CPU [c] that changes its phase, its own fields, the lock words
    and its list of locks keeps the invariant when the words and the CPU do. *)
Lemma inv_move b c P q s p h s' h' :
  (forall c', p c' = call_at c' (P c')) ->
  (forall c', cpu_ok (b c') (cpus s c') (h c') (P c')) ->
  (forall c', c' <> c -> cpus s' c' = cpus s c') ->
  cpu_ok (b c) (cpus s' c) h' q ->
  words_ok (locks s') (has (upd P c q) (upd h c h')) (marks (upd P c q) (upd h c h')) ->
  lock_inv b (mkConf s' (upd p c (call_at c q)) (upd h c h')).
Proof.
  intros Hp Hc Ho Hq Hw. exists (upd P c q). cbn. split; [|split; [done|]].
  - intros c'. upd_case c' c; [done|apply Hp].
  - intros c'. upd_case c' c; [done|]. rewrite Ho by done. apply Hc.
Qed.

Lemma words_iff L A B A' B' : words_ok L A B ->
  (forall c l, A c l <-> A' c l) -> (forall c l, B c l <-> B' c l) -> words_ok L A' B'.
Proof.
  intros [W1 W2 W3 W4] HA HB. split.
  - intros c l. by rewrite <- HB.
  - intros l. rewrite W2. split; intros [c Hc]; exists c; by apply HA.
  - intros c c' l H1 H2. apply (W3 c c' l); by apply HA.
  - intros c l Hm. by apply HA, W4, HB.
Qed.

(** The phases between which only the CPU's own fields, or the place where
    its lock is recorded, change. *)
Lemma words_same L P h c q h' : words_ok L (has P h) (marks P h) ->
  (forall l, l ∈ h c \/ sets (P c) l <-> l ∈ h' \/ sets q l) ->
  (forall l, l ∈ h c \/ names (P c) l <-> l ∈ h' \/ names q l) ->
  words_ok L (has (upd P c q) (upd h c h')) (marks (upd P c q) (upd h c h')).
Proof.
  intros Hw H1 H2. eapply words_iff; [done|..]; intros c' l; unfold has, marks; upd_case c' c; done || apply H1 || apply H2.
Qed.

(** The swap wins a free lock. *)
Lemma words_win L P h c l : words_ok L (has P h) (marks P h) -> P c = Spin l -> l ∉ h c ->
  locked (L l) = false ->
  words_ok (upd L l (mkSlock true (lcpu (L l)))) (has (upd P c (Won l)) h) (marks (upd P c (Won l)) h).
Proof.
  intros [W1 W2 W3 W4] Hp Hn Hf.
  assert (forall c', ~ has P h c' l) as Hno.
  { intros c' Hc. assert (locked (L l) = true) by (apply W2; by exists c'). congruence. }
  assert (forall c' k, has (upd P c (Won l)) h c' k <-> has P h c' k \/ (c' = c /\ k = l)) as Hh.
  { intros c' k. unfold has. upd_case c' c; [rewrite Hp; cbn|]; naive_solver. }
  assert (forall c' k, marks (upd P c (Won l)) h c' k <-> marks P h c' k) as Hm.
  { intros c' k. unfold marks. upd_case c' c; [rewrite Hp; cbn|]; naive_solver. }
  split.
  - intros c' k. rewrite Hm, <- W1. upd_case k l; done.
  - intros k. setoid_rewrite Hh. upd_case k l; [naive_solver|]. rewrite W2. naive_solver.
  - intros c1 c2 k. rewrite !Hh. naive_solver.
  - intros c' k. rewrite Hm, Hh. auto.
Qed.

(** lk->cpu is recorded. *)
Lemma words_own L P h c l : words_ok L (has P h) (marks P h) -> P c = Won l ->
  words_ok (upd L l (mkSlock (locked (L l)) (Some c))) (has (upd P c (Own l)) h) (marks (upd P c (Own l)) h).
Proof.
  intros [W1 W2 W3 W4] Hp.
  assert (has P h c l) as Hc by (right; by rewrite Hp).
  assert (forall c' k, has (upd P c (Own l)) h c' k <-> has P h c' k) as Hh.
  { intros c' k. unfold has. upd_case c' c; [rewrite Hp; cbn|]; naive_solver. }
  assert (forall c' k, marks (upd P c (Own l)) h c' k <-> marks P h c' k \/ (c' = c /\ k = l)) as Hm.
  { intros c' k. unfold marks. upd_case c' c; [rewrite Hp; cbn|]; naive_solver. }
  split.
  - intros c' k. rewrite Hm. upd_case k l; [|rewrite W1; naive_solver].
    split; [naive_solver|]. intros [Hx|[-> _]]; [|done]. f_equal. symmetry. eapply W3; [by apply W4|done].
  - intros k. setoid_rewrite Hh. rewrite <- W2. upd_case k l; done.
  - intros c1 c2 k. rewrite !Hh. apply W3.
  - intros c' k. rewrite Hm, Hh. intros [?|[-> ->]]; [by apply W4|done].
Qed.

(** lk->cpu is cleared. *)
Lemma words_clear L P h c l : words_ok L (has P h) (marks P h) -> P c = Clear l -> l ∉ h c ->
  words_ok (upd L l (mkSlock (locked (L l)) None)) (has (upd P c (Leaving l)) h) (marks (upd P c (Leaving l)) h).
Proof.
  intros [W1 W2 W3 W4] Hp Hn.
  assert (has P h c l) as Hc by (right; by rewrite Hp).
  assert (forall c' k, has (upd P c (Leaving l)) h c' k <-> has P h c' k) as Hh.
  { intros c' k. unfold has. upd_case c' c; [rewrite Hp; cbn|]; naive_solver. }
  assert (forall c' k, marks (upd P c (Leaving l)) h c' k <-> marks P h c' k /\ k <> l) as Hm.
  { intros c' k. unfold marks at 1. upd_case c' c.
    - unfold marks. rewrite Hp. cbn. split; [|naive_solver]. intros [Hx|[]]. split; [by left|naive_solver].
    - split; [|by intros [? _]]. intros Hx. split; [done|]. intros ->. apply E. eapply W3; [by apply W4|done]. }
  split.
  - intros c' k. rewrite Hm. upd_case k l; [naive_solver|]. rewrite W1. naive_solver.
  - intros k. setoid_rewrite Hh. rewrite <- W2. upd_case k l; done.
  - intros c1 c2 k. rewrite !Hh. apply W3.
  - intros c' k. rewrite Hm, Hh. intros [? _]. by apply W4.
Qed.

(** The word is cleared. *)
Lemma words_unlock L P h c l : words_ok L (has P h) (marks P h) -> P c = Leaving l -> l ∉ h c ->
  words_ok (upd L l (mkSlock false (lcpu (L l)))) (has (upd P c (Popping l)) h) (marks (upd P c (Popping l)) h).
Proof.
  intros [W1 W2 W3 W4] Hp Hn.
  assert (has P h c l) as Hc by (right; by rewrite Hp).
  assert (~ marks P h c l) as Hnm by (unfold marks; rewrite Hp; cbn; tauto).
  assert (forall c' k, has (upd P c (Popping l)) h c' k <-> has P h c' k /\ k <> l) as Hh.
  { intros c' k. unfold has at 1. upd_case c' c.
    - unfold has. rewrite Hp. cbn. split; [|naive_solver]. intros [Hx|[]]. split; [by left|naive_solver].
    - split; [|by intros [? _]]. intros Hx. split; [done|]. intros ->. apply E. by eapply W3. }
  assert (forall c' k, marks (upd P c (Popping l)) h c' k <-> marks P h c' k) as Hm.
  { intros c' k. unfold marks. upd_case c' c; [rewrite Hp; cbn|]; naive_solver. }
  split.
  - intros c' k. rewrite Hm, <- W1. upd_case k l; done.
  - intros k. setoid_rewrite Hh. upd_case k l; [naive_solver|]. rewrite W2. naive_solver.
  - intros c1 c2 k. rewrite !Hh. intros [? _] [? _]. by eapply W3.
  - intros c' k. rewrite Hm, Hh. intros Hx. split; [by apply W4|]. intros ->. apply Hnm.
    replace c with c'; [done|]. eapply W3; [by apply W4|done].
Qed.

(** The own fields of a CPU through push_off and pop_off. *)
Lemma cpu_push b x h l : cpu_ok b x h (Enter l) ->
  cpu_ok b (mkPcpu (noff x + 1) (if noff x =? 0 then sie x else intena x) false) h (Check l).
Proof.
  intros [C1 C2 C3 C4 C5]. cbn in *. split; cbn; try done; [lia| |lia].
  intros _. split; [done|]. destruct (Z.eqb_spec (noff x) 0); [by apply C5|apply C4; lia].
Qed.
Lemma cpu_pop b x h l : cpu_ok b x h (Popping l) ->
  cpu_ok b (mkPcpu (noff x - 1) (intena x) ((noff x =? 1) && intena x)) h (Left l).
Proof.
  intros [C1 C2 C3 C4 C5]. cbn in *. assert (0 < noff x) as Hpos by lia. destruct (C4 Hpos) as [S I].
  split; cbn; try done; [lia| |].
  - intros Hn. by rewrite (proj2 (Z.eqb_neq _ _)) by lia.
  - intros Hn. by rewrite (proj2 (Z.eqb_eq _ _)) by lia.
Qed.
Lemma cpu_phase b x h p q : cpu_ok b x h p -> target q = target p -> depth q = depth p -> cpu_ok b x h q.
Proof. intros [C1 C2 C3 C4 C5] Ht Hd. split; rewrite ?Ht, ?Hd; done. Qed.

Lemma held_length (h : list nat) (l : nat) : NoDup h -> l ∈ h -> length h = S (length (filter (fun x => x <> l) h)).
Proof.
  intros Hnd Hin. apply list_elem_of_split in Hin as (h1 & h2 & ->). rewrite filter_ne_mid by done.
  rewrite !length_app. cbn. lia.
Qed.

(** holding() on the CPU that runs. *)
Lemma holding_marks s P h c l : words_ok (locks s) (has P h) (marks P h) ->
  holding c l s = true <-> marks P h c l.
Proof.
  intros Hw. unfold holding. rewrite andb_true_iff, bool_decide_eq_true, (wo_cpu _ _ _ Hw).
  split; [by intros [_ ?]|]. intros Hm. split; [|done]. apply (wo_set _ _ _ Hw). exists c. by apply (wo_sub _ _ _ Hw).
Qed.

(** The next step of a CPU: it never panics, and it moves the CPU to a phase
    in which the invariant holds again. *)
Lemma run_step b c P s p h :
  (forall c, p c = call_at c (P c)) -> words_ok (locks s) (has P h) (marks P h) ->
  (forall c, cpu_ok (b c) (cpus s c) (h c) (P c)) ->
  exists q s', step1 (rest_code (p c)) s = Ret q s' /\ lock_inv b (mkConf s' (upd p c (with_rest (p c) q)) h).
Proof.
  intros Hp Hw Hc. pose proof (Hc c) as Hcc. rewrite Hp.
  assert (forall l, target (P c) = Some l -> l ∉ h c) as Hn by apply Hcc.
  assert (forall q s', (forall c', c' <> c -> cpus s' c' = cpus s c') -> cpu_ok (b c) (cpus s' c) (h c) q ->
    words_ok (locks s') (has (upd P c q) h) (marks (upd P c q) h) ->
    lock_inv b (mkConf s' (upd p c (call_at c q)) h)) as Hmove.
  { intros q s' Ho Hq Hw'. rewrite <- (upd_id h c) in Hw' |- *. by eapply inv_move. }
  assert (forall q, (forall l, sets (P c) l <-> sets q l) -> (forall l, names (P c) l <-> names q l) ->
    words_ok (locks s) (has (upd P c q) h) (marks (upd P c q) h)) as Hsame.
  { intros q H1 H2. rewrite <- (upd_id h c). apply words_same; [done|..]; intros l; rewrite ?H1, ?H2; done. }
  destruct (P c) as [|l|l|l|l|l|l|l|l|l|l] eqn:Ep; cbn [call_at rest_code with_rest] in *.
  - exists Done, s. split; [done|]. apply (Hmove Run); [done|done|]. by apply Hsame.
  - destruct (push_off_effect c s) as (s' & E & El & Ec & Eo). eexists _, s'. unfold spin_acquire, step1, bind.
    rewrite E. split; [done|]. apply (Hmove (Check l)); [done|rewrite Ec; by apply cpu_push|]. rewrite El. by apply Hsame.
  - assert (holding c l s = false) as Hh.
    { apply not_true_is_false. rewrite (holding_marks _ _ _ _ _ Hw). unfold marks. rewrite Ep. cbn.
      intros [Hx|[]]. by apply (Hn l). }
    eexists _, s. unfold step1, bind, gets. cbn [obind]. rewrite Hh. split; [done|].
    apply (Hmove (Spin l)); [done|by eapply cpu_phase|by apply Hsame].
  - unfold step1, acquire_spin, test_and_set, bind, gets, modify, ret. cbn [obind]. destruct (locked (locks s l)) eqn:El.
    + eexists _, _. split; [done|]. apply (Hmove (Spin l)); [done|done|]. cbn.
      replace (mkSlock true (lcpu (locks s l))) with (locks s l) by (destruct (locks s l); cbn in *; congruence).
      rewrite upd_id. by apply Hsame.
    + eexists _, _. split; [done|]. apply (Hmove (Won l)); [done|by eapply cpu_phase|]. cbn.
      by apply words_win; [|done|apply Hn|].
  - eexists _, _. split; [done|]. apply (Hmove (Own l)); [done|by eapply cpu_phase|]. cbn. by apply words_own.
  - exists Done, s. split; [done|]. apply (Hmove (Own l)); [done|done|]. by apply Hsame.
  - assert (holding c l s = true) as Hh.
    { rewrite (holding_marks _ _ _ _ _ Hw). unfold marks. rewrite Ep. by right. }
    eexists _, s. unfold step1, spin_release, bind, gets. cbn [obind]. rewrite Hh. split; [done|].
    apply (Hmove (Clear l)); [done|by eapply cpu_phase|by apply Hsame].
  - eexists _, _. split; [done|]. apply (Hmove (Leaving l)); [done|by eapply cpu_phase|]. cbn.
    by apply words_clear; [|done|apply Hn].
  - eexists _, _. split; [done|]. apply (Hmove (Popping l)); [done|by eapply cpu_phase|]. cbn.
    by apply words_unlock; [|done|apply Hn].
  - pose proof (co_noff _ _ _ _ Hcc) as Hd. cbn in Hd.
    destruct (pop_off_effect c s) as (s' & E & El & Ec & Eo);
      [apply (co_off _ _ _ _ Hcc); lia|lia|].
    eexists _, s'. unfold release_pop, step1, bind. rewrite E. split; [done|].
    apply (Hmove (Left l)); [done|rewrite Ec; by apply (cpu_pop _ _ _ l)|]. rewrite El. by apply Hsame.
  - exists Done, s. split; [done|]. apply (Hmove (Left l)); [done|done|]. by apply Hsame.
Qed.

Lemma lock_step_inv b x y : lock_inv b x -> lock_step x y -> lock_inv b y.
Proof.
  intros (P & Hp & Hw & Hc) Hs.
  destruct Hs as [c l s p h E Hl|c l s p h E Hl|c s p h q s' E|c l s p h E|c l s p h E]; cbn in *;
    pose proof (Hp c) as Hpc; try (rewrite E in Hpc; destruct (P c) eqn:Ep; try discriminate); pose proof (Hc c) as Hcc.
  - rewrite <- (upd_id h c). apply (inv_move b c P (Enter l) s p h s (h c)); try done.
    + rewrite Ep in Hcc. destruct Hcc as [C1 C2 C3 C4 C5]. split; try done. cbn. by intros ? [= <-].
    + apply words_same; [done|..]; intros k; rewrite Ep; done.
  - apply (inv_move b c P (Leave l) s p h s); try done.
    + rewrite Ep in Hcc. destruct Hcc as [C1 C2 C3 C4 C5]. rewrite (held_length (h c) l) in C3 by done. split; cbn in *; try done.
      * by apply NoDup_filter.
      * intros k [= <-]. rewrite list_elem_of_filter. naive_solver.
      * lia.
    + apply words_same; [done|..]; intros k; rewrite Ep; cbn; rewrite list_elem_of_filter;
        destruct (decide (k = l)); naive_solver.
  - destruct (run_step b c P s p h) as (q2 & s2 & E2 & Hi); [done..|]. rewrite E in E2. by simplify_eq.
  - injection Hpc as <-. apply (inv_move b c P Run s p h s); try done.
    + rewrite Ep in Hcc. destruct Hcc as [C1 C2 C3 C4 C5]. split; cbn in *; try done; [constructor; [by apply C2|done]|lia].
    + apply words_same; [done|..]; intros k; rewrite Ep; cbn; rewrite elem_of_cons; naive_solver.
  - rewrite <- (upd_id h c). apply (inv_move b c P Run s p h s (h c)); try done.
    + rewrite Ep in Hcc. destruct Hcc as [C1 C2 C3 C4 C5]. by split.
    + apply words_same; [done|..]; intros k; rewrite Ep; done.
Qed.

Lemma reachable_inv x y : lock_init x -> rtc lock_step x y -> lock_inv (fun c => sie (cpus (hw x) c)) y.
Proof.
  intros Hx Hr. apply lock_inv_init in Hx. revert Hx. generalize (fun c => sie (cpus (hw x) c)). intros b.
  induction Hr as [|x y z Hs Hr IH]; intros Hx; [done|]. apply IH. by eapply lock_step_inv.
Qed.

(** ** Properties *)

(** C9: mutual exclusion on every interleaving of the CPUs, each running the
    code of acquire() and release() a step at a time.  In every state the
    CPUs can reach from boot: the next step of no CPU panics; a lock is held
    by at most one CPU; holding() is true on a CPU that holds the lock, and
    between lock calls on no other; a CPU that holds a lock has interrupts
    off; one that holds none, between calls, has the interrupt setting it
    booted with; and once every CPU is between calls, the word of each lock
    is set exactly when a CPU holds it. *)
Theorem spinlock_mutual_exclusion x y :
  lock_init x -> rtc lock_step x y ->
  (forall c, exists q s', step1 (rest_code (calls y c)) (hw y) = Ret q s') /\
  (forall c c' l, l ∈ held y c -> l ∈ held y c' -> c = c') /\
  (forall c l, l ∈ held y c -> holding c l (hw y) = true /\ sie (cpus (hw y) c) = false) /\
  (forall c, calls y c = Idle ->
     (forall l, holding c l (hw y) = true -> l ∈ held y c) /\
     (held y c = [] -> noff (cpus (hw y) c) = 0 /\ sie (cpus (hw y) c) = sie (cpus (hw x) c))) /\
  ((forall c, calls y c = Idle) -> forall l, locked (locks (hw y) l) = true <-> exists c, l ∈ held y c).
Proof.
  intros Hx Hr. destruct (reachable_inv x y Hx Hr) as (P & Hp & Hw & Hc). destruct y as [s p h]. cbn in *.
  assert (forall c, p c = Idle -> P c = Run) as Hrun.
  { intros c E. rewrite Hp in E. by destruct (P c). }
  split; [|split; [|split; [|split]]].
  - intros c. destruct (run_step _ c P s p h Hp Hw Hc) as (q & s' & E & _). by exists q, s'.
  - intros c c' l H1 H2. apply (wo_uniq _ _ _ Hw c c' l); by left.
  - intros c l Hin. split; [apply (holding_marks _ _ _ _ _ Hw); by left|].
    destruct (Hc c) as [_ _ C3 C4 _]. apply C4. rewrite C3.
    destruct (h c); [by apply elem_of_nil in Hin|]. destruct (P c); cbn; lia.
  - intros c E. split.
    + intros l Hl. apply (holding_marks _ _ _ _ _ Hw) in Hl as [Hl|Hl]; [done|]. by rewrite (Hrun c E) in Hl.
    + intros Eh. destruct (Hc c) as [_ _ C3 _ C5]. rewrite (Hrun c E), Eh in C3. cbn in C3. auto.
  - intros Hall l. rewrite (wo_set _ _ _ Hw). split; intros [c Hl]; exists c; [|by left].
    destruct Hl as [Hl|Hl]; [done|]. by rewrite (Hrun c (Hall c)) in Hl.
Qed.

(** CPUs 0 and 1 compete for lock 7; CPU 0 wins and CPU 1 keeps spinning. *)
Definition idle : conf :=
  mkConf (mkSmp (fun _ => mkPcpu 0 false true) (fun _ => mkSlock false None)) (fun _ => Idle) (fun _ => []).
Lemma spinlock_mutual_exclusion_witness :
  exists y, rtc lock_step idle y /\ 7%nat ∈ held y 0 /\ calls y 1 = call_at 1 (Spin 7) /\
  ((forall c, exists q s', step1 (rest_code (calls y c)) (hw y) = Ret q s') /\
   (forall c c' l, l ∈ held y c -> l ∈ held y c' -> c = c') /\
   (forall c l, l ∈ held y c -> holding c l (hw y) = true /\ sie (cpus (hw y) c) = false) /\
   (forall c, calls y c = Idle ->
      (forall l, holding c l (hw y) = true -> l ∈ held y c) /\
      (held y c = [] -> noff (cpus (hw y) c) = 0 /\ sie (cpus (hw y) c) = sie (cpus (hw idle) c))) /\
   ((forall c, calls y c = Idle) -> forall l, locked (locks (hw y) l) = true <-> exists c, l ∈ held y c)).
Proof.
  assert (exists y, rtc lock_step idle y /\ 7%nat ∈ held y 0 /\ calls y 1 = call_at 1 (Spin 7)) as (y & Hr & H0 & H1).
  { eexists. split; [|split].
    - unfold idle. eapply rtc_l; [apply (step_acquire 0 7); [reflexivity|apply not_elem_of_nil]|].
      eapply rtc_l; [apply (step_acquire 1 7); [reflexivity|apply not_elem_of_nil]|].
      do 2 (eapply rtc_l; [apply (step_run 1); reflexivity|]).
      do 3 (eapply rtc_l; [apply (step_run 0); reflexivity|]).
      eapply rtc_l; [apply (step_run 1); reflexivity|].
      eapply rtc_l; [apply (step_run 0); reflexivity|].
      eapply rtc_l; [apply (step_acquired 0 7); reflexivity|]. apply rtc_refl.
    - cbn. apply list_elem_of_here.
    - reflexivity. }
  exists y. split; [done|]. split; [done|]. split; [done|].
  apply (spinlock_mutual_exclusion idle); [|exact Hr]. intros c l. done.
Defined.

(** ** The one-thread view *)

(** A client's sequence of calls, run by the code on CPU [c] and on the locks
    of Prelude, one boolean per lock. *)
Inductive lop := Acq (l : nat) | Rel (l : nat).
Definition lop_code (c : nat) (o : lop) : code :=
  match o with Acq l => spin_acquire c l | Rel l => spin_release c l end.
Fixpoint lops_exec (fuel c : nat) (os : list lop) : M smp unit :=
  match os with [] => ret tt | o :: os => exec fuel (lop_code c o) ;; lops_exec fuel c os end.

Definition view_lock (l : nat) : lens (nat -> spinlock) spinlock :=
  Lens (fun v => v l) (fun b v => upd v l b).
Fixpoint lops_view (os : list lop) : M (nat -> spinlock) unit :=
  match os with
  | [] => ret tt
  | Acq l :: os => acquire (view_lock l) ;; lops_view os
  | Rel l :: os => release (view_lock l) ;; lops_view os
  end.

(** CPU [c] alone holds the locks of [h], in a state reached from one where
    it held none, with nesting depth [n] and interrupt setting [b]. *)
Record alone (c : nat) (n : Z) (b : bool) (s : smp) (h : list nat) (v : nat -> spinlock) : Prop := {
  al_nodup : NoDup h;
  al_view : forall l, v l = bool_decide (l ∈ h);
  al_word : forall l, locked (locks s l) = v l;
  al_cpu : forall l, v l = true -> lcpu (locks s l) = Some c;
  al_noff : noff (cpus s c) = n + Z.of_nat (length h);
  al_off : 0 < noff (cpus s c) -> sie (cpus s c) = false;
  al_in : h <> [] -> n = 0 -> intena (cpus s c) = b;
  al_out : h = [] -> sie (cpus s c) = b;
  al_base : 0 < n -> b = false }.

Lemma alone_holding c n b s h v l : alone c n b s h v -> holding c l s = v l.
Proof.
  intros Ha. unfold holding. rewrite (al_word _ _ _ _ _ _ Ha). destruct (v l) eqn:E; [|done].
  rewrite (al_cpu _ _ _ _ _ _ Ha l E). by rewrite bool_decide_true.
Qed.

Lemma acquire_alone fuel c n b s h v l : alone c n b s h v -> 0 <= n -> v l = false ->
  exists s', exec (S fuel) (spin_acquire c l) s = Ret tt s' /\ alone c n b s' (l :: h) (upd v l true).
Proof.
  intros Ha Hn Hv. destruct (push_off_effect c s) as (s1 & Hp & El & Ec & _).
  eexists. split.
  - unfold exec, spin_acquire, bind at 1. rewrite Hp. cbn [obind]. unfold bind at 1, bind at 1, gets at 1. cbn [obind].
    replace (holding c l s1) with (holding c l s) by (unfold holding; by rewrite El).
    rewrite (alone_holding _ _ _ _ _ _ l Ha), Hv. cbn [obind ret].
    unfold loop, test_and_set, bind, gets, modify, ret. cbn [obind]. rewrite El, (al_word _ _ _ _ _ _ Ha), Hv. cbn [obind]. reflexivity.
  - assert (l ∉ h) as Hl by (by rewrite (al_view _ _ _ _ _ _ Ha), bool_decide_eq_false in Hv).
    destruct Ha as [A1 A2 A3 A4 A5 A6 A7 A8 A9]. split; cbn; rewrite ?Ec; cbn.
    + by constructor.
    + intros k. upd_case k l; [by rewrite bool_decide_true by by left|]. rewrite A2. apply bool_decide_ext.
      rewrite elem_of_cons. naive_solver.
    + intros k. upd_case k l; [done|]. by rewrite El.
    + intros k. upd_case k l; [done|]. rewrite El. apply A4.
    + lia.
    + done.
    + intros _ ->. destruct (Z.eqb_spec (noff (cpus s c)) 0); [|apply A7; [|done]]; [apply A8|];
        destruct h; cbn in *; (done || lia).
    + done.
    + done.
Qed.

Lemma release_alone fuel c n b s h v l : alone c n b s h v -> 0 <= n -> v l = true ->
  exists s', exec fuel (spin_release c l) s = Ret tt s' /\
    alone c n b s' (filter (fun x => x <> l) h) (upd v l false).
Proof.
  intros Ha Hn Hv. assert (l ∈ h) as Hl by (by rewrite (al_view _ _ _ _ _ _ Ha), bool_decide_eq_true in Hv).
  pose proof (alone_holding _ _ _ _ _ _ l Ha) as Hh. rewrite Hv in Hh.
  destruct Ha as [A1 A2 A3 A4 A5 A6 A7 A8 A9]. pose proof (held_length h l A1 Hl) as Hlen.
  set (s1 := set_lock l (mkSlock false None) s).
  destruct (pop_off_effect c s1) as (s' & Hp & El & Ec & _); [apply A6; cbn; lia|cbn; lia|].
  exists s'. split.
  - unfold exec, spin_release, bind, gets, modify, ret. cbn [obind]. rewrite Hh. cbn [obind negb].
    unfold set_lock at 1 2 3. cbn. rewrite !upd_eq, upd_upd. cbn. unfold s1, set_lock in Hp. by rewrite Hp.
  - cbn in *. split; rewrite ?El, ?Ec; cbn.
    + by apply NoDup_filter.
    + intros k. upd_case k l.
      * symmetry. apply bool_decide_eq_false. rewrite list_elem_of_filter. naive_solver.
      * rewrite A2. apply bool_decide_ext. rewrite list_elem_of_filter. naive_solver.
    + intros k. upd_case k l; [done|]. apply A3.
    + intros k. upd_case k l; [done|]. apply A4.
    + lia.
    + intros Hpos. by rewrite (proj2 (Z.eqb_neq _ _)) by lia.
    + intros _ En. apply A7; [|done]. intros ->. by apply elem_of_nil in Hl.
    + intros Ef. rewrite Ef in Hlen. cbn in Hlen.
      destruct (Z.eqb_spec (noff (cpus s c)) 1); [apply A7; [|lia]; intros ->; by apply elem_of_nil in Hl|].
      cbn. symmetry. apply A9. lia.
    + done.
Qed.

(** Every sequence of calls, from any state of the code that the view
    describes. *)
Lemma lops_alone fuel c n b os : forall s h v, 0 <= n -> alone c n b s h v ->
  match lops_view os v with
  | Ret _ v' => exists s' h', lops_exec (S fuel) c os s = Ret tt s' /\ alone c n b s' h' v'
  | Panic msg => lops_exec (S fuel) c os s = Panic msg
  | _ => False
  end.
Proof.
  induction os as [|[l|l] os IH]; intros s h v Hn Ha; cbn [lops_view lops_exec lop_code].
  - by exists s, h.
  - unfold acquire, bind, gets. cbn -[exec]. destruct (v l) eqn:Hv; cbn -[exec].
    + destruct (push_off_effect c s) as (s1 & Hp & El & _).
      unfold exec, spin_acquire, bind, gets. rewrite Hp. cbn [obind].
      replace (holding c l s1) with (holding c l s) by (unfold holding; by rewrite El).
      by rewrite (alone_holding _ _ _ _ _ _ l Ha), Hv.
    + destruct (acquire_alone fuel c n b s h v l Ha Hn Hv) as (s1 & -> & H1). cbn [obind]. by eapply IH.
  - unfold release, bind, gets. cbn -[exec]. destruct (v l) eqn:Hv; cbn -[exec].
    + destruct (release_alone (S fuel) c n b s h v l Ha Hn Hv) as (s1 & -> & H1). cbn [obind]. by eapply IH.
    + unfold exec, spin_release, bind, gets. cbn [obind]. by rewrite (alone_holding _ _ _ _ _ _ l Ha), Hv.
Qed.

(** C19: the lock code refines the locks the other components are modelled
    with.  From a state in which no lock is taken, any sequence of calls of
    acquire() and release() by a CPU, run by the code of kernel/spinlock.c,
    ends as the same sequence on the one-thread locks of Prelude does: it
    returns with holding() true exactly of the locks the view says are held,
    their words set and those of all others clear, the interrupt nesting
    grown by the number of locks held, interrupts off while there is one and
    as they were found when there is none; or it panics with the same message
    (acquiring a held lock again, releasing one that is not held). *)
Theorem spinlock_refines_view c os s :
  (forall l, locked (locks s l) = false) -> 0 <= noff (cpus s c) ->
  (0 < noff (cpus s c) -> sie (cpus s c) = false) ->
  match lops_view os (fun _ => false) with
  | Ret _ v => exists s' h, lops_exec 1 c os s = Ret tt s' /\
      (forall l, v l = holding c l s' /\ v l = locked (locks s' l) /\ (v l = true <-> l ∈ h)) /\ NoDup h /\
      noff (cpus s' c) = noff (cpus s c) + Z.of_nat (length h) /\
      sie (cpus s' c) = (if decide (h = []) then sie (cpus s c) else false)
  | Panic msg => lops_exec 1 c os s = Panic msg
  | _ => False
  end.
Proof.
  intros Hf Hn Hs. pose proof (lops_alone 0 c (noff (cpus s c)) (sie (cpus s c)) os s [] (fun _ => false) Hn) as H.
  assert (alone c (noff (cpus s c)) (sie (cpus s c)) s [] (fun _ => false)) as H0.
  { split; cbn; try done; [constructor|lia]. }
  specialize (H H0). destruct (lops_view os _) as [? v|msg| |]; try done.
  destruct H as (s' & h & E & Ha). exists s', h. split; [done|]. split; [|split; [apply Ha|split; [apply Ha|]]].
  - intros l. rewrite (alone_holding _ _ _ _ _ _ l Ha), (al_word _ _ _ _ _ _ Ha). split; [done|]. split; [done|].
    by rewrite (al_view _ _ _ _ _ _ Ha), bool_decide_eq_true.
  - case_decide as Eh; [by apply Ha|]. apply Ha. rewrite (al_noff _ _ _ _ _ _ Ha). destruct h; [done|]. cbn. lia.
Qed.

Lemma spinlock_refines_view_witness :
  match lops_view [Acq 3; Acq 5; Rel 3] (fun _ => false) with
  | Ret _ v => exists s' h, lops_exec 1 0 [Acq 3; Acq 5; Rel 3] (hw idle) = Ret tt s' /\
      (forall l, v l = holding 0 l s' /\ v l = locked (locks s' l) /\ (v l = true <-> l ∈ h)) /\ NoDup h /\
      noff (cpus s' 0%nat) = 0 + Z.of_nat (length h) /\
      sie (cpus s' 0%nat) = (if decide (h = []) then true else false)
  | Panic msg => lops_exec 1 0 [Acq 3; Acq 5; Rel 3] (hw idle) = Panic msg
  | _ => False
  end.
Proof. apply (spinlock_refines_view 0 [Acq 3; Acq 5; Rel 3] (hw idle)); [done|cbn; lia|done]. Defined.
