(* ===== verification/Sleeplock.v ===== *)
(** * kernel/sleeplock.c: long-term locks

    A sleep lock lives anywhere in the state of its component: the operations
    take the lens of the lock, the lens of the record of wakeups and the
    channel (the lock's address).  [pid] is myproc()->pid. *)

From S2P Require Import Prelude.

Record sleeplock := mkSleeplock { sl_locked : bool; sl_lk : spinlock; sl_pid : Z }.

Definition sl_lkL : lens sleeplock spinlock :=
  Lens sl_lk (fun b l => mkSleeplock (sl_locked l) b (sl_pid l)).
#[export] Instance sl_lkL_ok : LensOk sl_lkL.
Proof. by split; intros; cbn; try (destruct s). Qed.

Definition initsleeplock : sleeplock := mkSleeplock false false 0.

Section Ops.
Context {S : Type} (lk : lens S sleeplock) (w : lens S (list chan)) (ch : chan) (pid : Z).

Definition set_owner (b : bool) (p : Z) : M S unit :=
  modify (fun s => put lk (mkSleeplock b (sl_lk (view lk s)) p) s).

Definition acquiresleep (fuel : nat) : M S unit :=
  acquire (lcomp lk sl_lkL) ;;
  loop fuel (fun _ : unit =>
    let* busy := gets (fun s => sl_locked (view lk s)) in
    if (busy : bool) then sleep ch (lcomp lk sl_lkL) ;; ret (inl tt) else ret (inr tt)) tt ;;
  set_owner true pid ;;
  release (lcomp lk sl_lkL).

Definition releasesleep : M S unit :=
  acquire (lcomp lk sl_lkL) ;;
  set_owner false 0 ;;
  wakeup w ch ;;
  release (lcomp lk sl_lkL).

Definition holdingsleep : M S bool :=
  acquire (lcomp lk sl_lkL) ;;
  let* r := gets (fun s => sl_locked (view lk s) && (sl_pid (view lk s) =? pid)) in
  release (lcomp lk sl_lkL) ;;
  ret r.
End Ops.

#[global] Arguments acquiresleep : simpl never.
#[global] Arguments releasesleep : simpl never.
#[global] Arguments holdingsleep : simpl never.

(** Evaluate straight-line code over an abstract lens. *)
Ltac lens_run :=
  repeat (unfold acquire, release, sleep, suspend, wakeup, bind, gets, modify, set_owner, ret; cbn;
          rewrite ?sep_view_r, ?sep_view_l, ?view_put; cbn).

Section Specs.
Context {S : Type} (lk : lens S sleeplock) (w : lens S (list chan)) (ch : chan) (pid : Z).
Context `{!LensOk lk, !LensSep lk w}.

(** A free sleep lock is taken without waiting. *)
Lemma acquiresleep_free fuel s p :
  view lk s = mkSleeplock false false p ->
  acquiresleep lk ch pid (Datatypes.S fuel) s = Ret tt (put lk (mkSleeplock true false pid) s).
Proof.
  intros E. unfold acquiresleep. repeat (lens_run; rewrite ?E; cbn). by rewrite !put_put.
Qed.

(** A held one makes the process wait on the lock, with the inner spin lock
    free. *)
Lemma acquiresleep_busy fuel s p :
  view lk s = mkSleeplock true false p ->
  exists k, acquiresleep lk ch pid (Datatypes.S fuel) s = Sleep ch s k.
Proof.
  intros E. unfold acquiresleep. repeat (lens_run; rewrite ?E; cbn). rewrite !put_put.
  eexists. rewrite <- E, put_view. reflexivity.
Qed.

Lemma releasesleep_eq s b p :
  view lk s = mkSleeplock b false p ->
  releasesleep lk w ch s =
    Ret tt (put lk (mkSleeplock false false 0) (put w (view w s ++ [ch]) s)).
Proof.
  intros E. unfold releasesleep. repeat (lens_run; rewrite ?E; cbn). by rewrite !(sep_put (l:=lk) (k:=w)), !put_put.
Qed.

Lemma holdingsleep_eq s b p :
  view lk s = mkSleeplock b false p -> holdingsleep lk pid s = Ret (b && (p =? pid)) s.
Proof.
  intros E. unfold holdingsleep. repeat (lens_run; rewrite ?E; cbn). by rewrite !put_put, <- E, put_view.
Qed.
End Specs.
