(* ===== verification/Bio.v ===== *)
(** * kernel/bio.c: the buffer cache

    The cache is the array of buffers with the links of the LRU ring kept as
    in the code: a pointer to a buffer is its index, [bcache.head] is the
    entry after the last buffer.  The disk is the array of blocks that
    [virtio_disk_rw] reads and writes synchronously, with the sequence of
    completed writes kept for the crash argument of [Log]. *)

From Stdlib Require Import ZArith Lia.
From stdpp Require Import gmap.
From S2P Require Import Prelude Params Sleeplock.

Definition BSIZE : Z := 1024.

(** struct buf; [b->disk] belongs to the disk driver. *)
Record buf := mkBuf {
  b_valid : bool;
  b_dev : Z;
  b_blockno : Z;
  b_lock : sleeplock;
  b_refcnt : Z;
  b_prev : nat;
  b_next : nat;
  b_data : list Z;
}.

Record bio := mkBio {
  bcache_lock : spinlock;
  bufs : nat -> buf;
  disk : Z -> list Z;
  dwrites : list (Z * list Z);
  b_woken : list chan;
}.

Definition nbuf : nat := Z.to_nat NBUF.
Definition HEAD : nat := nbuf.

Definition bcache_lockL : lens bio spinlock :=
  Lens bcache_lock (fun b s => mkBio b (bufs s) (disk s) (dwrites s) (b_woken s)).
Definition b_wokenL : lens bio (list chan) :=
  Lens b_woken (fun w s => mkBio (bcache_lock s) (bufs s) (disk s) (dwrites s) w).
Definition set_bufs (f : nat -> buf) (s : bio) : bio :=
  mkBio (bcache_lock s) f (disk s) (dwrites s) (b_woken s).
Definition on_buf (i : nat) (f : buf -> buf) (s : bio) : bio :=
  set_bufs (upd (bufs s) i (f (bufs s i))) s.

Definition with_valid (v : bool) (b : buf) : buf :=
  mkBuf v (b_dev b) (b_blockno b) (b_lock b) (b_refcnt b) (b_prev b) (b_next b) (b_data b).
Definition with_lock (l : sleeplock) (b : buf) : buf :=
  mkBuf (b_valid b) (b_dev b) (b_blockno b) l (b_refcnt b) (b_prev b) (b_next b) (b_data b).
Definition with_refcnt (r : Z) (b : buf) : buf :=
  mkBuf (b_valid b) (b_dev b) (b_blockno b) (b_lock b) r (b_prev b) (b_next b) (b_data b).
Definition with_prev (p : nat) (b : buf) : buf :=
  mkBuf (b_valid b) (b_dev b) (b_blockno b) (b_lock b) (b_refcnt b) p (b_next b) (b_data b).
Definition with_next (p : nat) (b : buf) : buf :=
  mkBuf (b_valid b) (b_dev b) (b_blockno b) (b_lock b) (b_refcnt b) (b_prev b) p (b_data b).
Definition with_data (d : list Z) (b : buf) : buf :=
  mkBuf (b_valid b) (b_dev b) (b_blockno b) (b_lock b) (b_refcnt b) (b_prev b) (b_next b) d.

Definition b_lockL (i : nat) : lens bio sleeplock :=
  Lens (fun s => b_lock (bufs s i)) (fun l => on_buf i (with_lock l)).

(** The driver's contract: a request completes before the call returns. *)
Definition virtio_disk_rw (i : nat) (write : bool) : M bio unit :=
  modify (fun s =>
    let b := bufs s i in
    if write
    then mkBio (bcache_lock s) (bufs s) (upd (disk s) (b_blockno b) (b_data b))
               (dwrites s ++ [(b_blockno b, b_data b)]) (b_woken s)
    else on_buf i (with_data (disk s (b_blockno b))) s).

Section Ops.
Context (pid : Z).

(** Insert buffer [i] right after the head of the ring. *)
Definition link_front (i : nat) (f : nat -> buf) : nat -> buf :=
  let f := upd f i (with_next (b_next (f HEAD)) (f i)) in
  let f := upd f i (with_prev HEAD (f i)) in
  let h := b_next (f HEAD) in
  let f := upd f h (with_prev i (f h)) in
  upd f HEAD (with_next i (f HEAD)).

(** Take buffer [i] out of the ring. *)
Definition unlink (i : nat) (f : nat -> buf) : nat -> buf :=
  let n := b_next (f i) in
  let f := upd f n (with_prev (b_prev (f i)) (f n)) in
  let p := b_prev (f i) in
  upd f p (with_next (b_next (f i)) (f p)).

Definition binit_step (f : nat -> buf) (i : nat) : nat -> buf :=
  let f := upd f i (with_next (b_next (f HEAD)) (f i)) in
  let f := upd f i (with_prev HEAD (f i)) in
  let f := upd f i (with_lock initsleeplock (f i)) in
  let h := b_next (f HEAD) in
  let f := upd f h (with_prev i (f h)) in
  upd f HEAD (with_next i (f HEAD)).

Definition binit : M bio unit :=
  modify (put bcache_lockL false) ;;
  modify (on_buf HEAD (with_prev HEAD)) ;;
  modify (on_buf HEAD (with_next HEAD)) ;;
  modify (fun s => set_bufs (fold_left binit_step (seq 0 nbuf) (bufs s)) s).

(** The two scans of bget: from the most recently used buffer for the block,
    from the least recently used one for an unused buffer. *)
Definition find_cached (dev blockno : Z) (b : nat) : M bio (nat + option nat) :=
  if decide (b = HEAD) then ret (inr None) else
  let* x := gets (fun s => bufs s b) in
  if (b_dev x =? dev) && (b_blockno x =? blockno) then ret (inr (Some b))
  else ret (inl (b_next x)).

Definition find_unused (b : nat) : M bio (nat + option nat) :=
  if decide (b = HEAD) then ret (inr None) else
  let* x := gets (fun s => bufs s b) in
  if b_refcnt x =? 0 then ret (inr (Some b)) else ret (inl (b_prev x)).

(** The common tail of its two cases: claim the buffer, then wait for its
    lock. *)
Definition bget_claim (b : nat) (f : buf -> buf) : M bio nat :=
  modify (on_buf b f) ;;
  release bcache_lockL ;;
  acquiresleep (b_lockL b) (ChBufLock b) pid (S nbuf) ;;
  ret b.

Definition bget (dev blockno : Z) : M bio nat :=
  acquire bcache_lockL ;;
  let* first := gets (fun s => b_next (bufs s HEAD)) in
  let* hit := loop (S nbuf) (find_cached dev blockno) first in
  match hit with
  | Some b => bget_claim b (fun x => with_refcnt (u32 (b_refcnt x + 1)) x)
  | None =>
      let* lru := gets (fun s => b_prev (bufs s HEAD)) in
      let* free := loop (S nbuf) find_unused lru in
      match free with
      | Some b =>
          bget_claim b (fun x =>
            mkBuf false dev blockno (b_lock x) 1 (b_prev x) (b_next x) (b_data x))
      | None => panic "bget: no buffers"
      end
  end.

Definition bread (dev blockno : Z) : M bio nat :=
  let* b := bget dev blockno in
  let* v := gets (fun s => b_valid (bufs s b)) in
  when (negb v)
    (virtio_disk_rw b false ;; modify (on_buf b (with_valid true))) ;;
  ret b.

Definition bwrite (b : nat) : M bio unit :=
  let* h := holdingsleep (b_lockL b) pid in
  if negb h then panic "bwrite" else
  virtio_disk_rw b true.

Definition brelse (b : nat) : M bio unit :=
  let* h := holdingsleep (b_lockL b) pid in
  if negb h then panic "brelse" else
  releasesleep (b_lockL b) b_wokenL (ChBufLock b) ;;
  acquire bcache_lockL ;;
  modify (on_buf b (fun x => with_refcnt (u32 (b_refcnt x - 1)) x)) ;;
  let* r := gets (fun s => b_refcnt (bufs s b)) in
  when (r =? 0)
    (modify (fun s => set_bufs (link_front b (unlink b (bufs s))) s)) ;;
  release bcache_lockL.

Definition bpin (b : nat) : M bio unit :=
  acquire bcache_lockL ;;
  modify (on_buf b (fun x => with_refcnt (u32 (b_refcnt x + 1)) x)) ;;
  release bcache_lockL.

Definition bunpin (b : nat) : M bio unit :=
  acquire bcache_lockL ;;
  modify (on_buf b (fun x => with_refcnt (u32 (b_refcnt x - 1)) x)) ;;
  release bcache_lockL.
End Ops.

(** A client's access to the data of a buffer. *)
Definition get_data (b : nat) (s : bio) : list Z := b_data (bufs s b).
Definition set_data (b : nat) (d : list Z) : M bio unit := modify (on_buf b (with_data d)).


#[export] Instance b_lockL_ok i : LensOk (b_lockL i).
Proof.
  split; intros; cbn; unfold on_buf, set_bufs; cbn.
  - by rewrite upd_eq.
  - by rewrite upd_upd, upd_eq.
  - destruct s as [? f ? ? ?]. cbn. f_equal. replace (with_lock _ _) with (f i) by by destruct (f i).
    apply upd_id.
Qed.
#[export] Instance b_lockL_woken i : LensSep (b_lockL i) b_wokenL.
Proof. by split. Qed.

(** ** The LRU ring *)

(** From [a] the next pointers visit [l] and reach [z]; the prev pointers
    lead back. *)
Fixpoint chain (f : nat -> buf) (a : nat) (l : list nat) (z : nat) : Prop :=
  match l with
  | [] => b_next (f a) = z /\ b_prev (f z) = a
  | x :: l => b_next (f a) = x /\ b_prev (f x) = a /\ chain f x l z
  end.

Definition ring (f : nat -> buf) (l : list nat) : Prop :=
  chain f HEAD l HEAD /\ l ≡ₚ seq 0 nbuf.

Lemma chain_frame f f' l : forall a z,
  (forall x, x ∈ a :: l -> b_next (f' x) = b_next (f x)) ->
  (forall x, x ∈ l ++ [z] -> b_prev (f' x) = b_prev (f x)) ->
  chain f a l z -> chain f' a l z.
Proof.
  induction l as [|x l IH]; intros a z Hn Hp; cbn.
  - intros [H1 H2]. rewrite Hn, Hp by set_solver. done.
  - intros (H1 & H2 & H3). rewrite Hn, Hp by set_solver. split_and!; try done.
    apply IH; [| |done]; intros; [apply Hn|apply Hp]; set_solver.
Qed.

Lemma chain_app f l1 x l2 : forall a z,
  chain f a (l1 ++ x :: l2) z <-> chain f a l1 x /\ chain f x l2 z.
Proof. induction l1 as [|y l1 IH]; intros a z; cbn; [tauto|]. rewrite IH. tauto. Qed.

(** The neighbours of a chain's ends. *)
Lemma chain_first f a l z : chain f a l z -> b_next (f a) ∈ l ++ [z].
Proof. destruct l; cbn; intros Hc; [destruct Hc as [-> _]|destruct Hc as [-> _]]; set_solver. Qed.
Lemma chain_last f l : forall a z, chain f a l z -> b_prev (f z) ∈ a :: l.
Proof.
  induction l as [|x l IH]; intros a z; cbn.
  - intros [_ ->]. set_solver.
  - intros (_ & _ & H). apply IH in H. set_solver.
Qed.

(** [f'] is [f] with the pair of links between [p] and [n] closed. *)
Record joined (f f' : nat -> buf) (p n : nat) : Prop := {
  joined_next : b_next (f' p) = n;
  joined_prev : b_prev (f' n) = p;
  joined_next_ne : forall x, x <> p -> b_next (f' x) = b_next (f x);
  joined_prev_ne : forall x, x <> n -> b_prev (f' x) = b_prev (f x);
}.

Lemma chain_join f f' x l1 : forall a l2 z,
  chain f a (l1 ++ x :: l2) z -> NoDup (a :: l1 ++ x :: l2) -> z ∉ l1 ++ x :: l2 ->
  joined f f' (b_prev (f x)) (b_next (f x)) -> chain f' a (l1 ++ l2) z.
Proof.
  induction l1 as [|w l1 IH]; intros a l2 z Hc Hnd Hz [J1 J2 J3 J4]; cbn [app] in *.
  - destruct Hc as (Ha & Hx & Hc). rewrite Hx in *. destruct l2 as [|y l2]; cbn in *.
    + destruct Hc as [Hy _]. rewrite Hy in *. done.
    + destruct Hc as (Hy & Hy' & Hc). rewrite Hy in *. split_and!; try done.
      apply (chain_frame f); [| |done].
      * intros u Hu. apply J3. intros ->. apply NoDup_cons in Hnd as [Hnd _].
        apply Hnd. by apply list_elem_of_further.
      * intros u Hu. apply J4. intros ->.
        apply elem_of_app in Hu as [Hu|Hu]; [|clear -Hu Hz; set_solver].
        apply NoDup_cons in Hnd as [_ Hnd]. apply NoDup_cons in Hnd as [_ Hnd].
        apply NoDup_cons in Hnd as [Hnd _]. done.
  - destruct Hc as (Ha & Hw & Hc). apply NoDup_cons in Hnd as [Hna Hnd].
    pose proof (proj1 (chain_app f l1 x l2 w z) Hc) as [Hc1 Hc2].
    pose proof (chain_last _ _ _ _ Hc1) as Hp. pose proof (chain_first _ _ _ _ Hc2) as Hn.
    split_and!.
    + rewrite J3; [done|]. clear -Hna Hp. intros ->. set_solver.
    + rewrite J4; [done|]. intros Ew. apply NoDup_cons in Hnd as [Hnw _].
      clear -Hnw Hn Ew Hz. set_solver.
    + apply IH; [done|done|clear -Hz; set_solver|by split].
Qed.

Lemma unlink_joined f i : b_prev (f i) <> i -> b_next (f i) <> i ->
  joined f (unlink i f) (b_prev (f i)) (b_next (f i)).
Proof.
  intros Hp Hn. unfold unlink. cbv zeta. rewrite (upd_ne _ _ i) by congruence.
  split.
  - rewrite upd_eq. done.
  - unfold upd. repeat case_decide; simplify_eq; done.
  - intros x Hx. rewrite upd_ne by done. unfold upd. case_decide; by subst.
  - intros x Hx. unfold upd. repeat case_decide; simplify_eq; done.
Qed.

Lemma chain_push f i l z : chain f HEAD l z -> NoDup (HEAD :: i :: l) -> z ∉ i :: l ->
  chain (link_front i f) HEAD (i :: l) z.
Proof.
  intros Hc Hnd Hz. apply NoDup_cons in Hnd as [Hh Hnd]. apply NoDup_cons in Hnd as [Hi Hnd].
  assert (HEAD <> i) by (clear -Hh; set_solver).
  assert (b_next (f HEAD) <> i) as Hne.
  { pose proof (chain_first _ _ _ _ Hc) as Hf. intros E. rewrite E in Hf. clear -Hf Hi Hz. set_solver. }
  unfold link_front. cbv zeta.
  assert (forall x, x <> HEAD -> x <> i -> b_next (link_front i f x) = b_next (f x)) as Fn.
  { intros x H1 H2. unfold link_front, upd. repeat case_decide; simplify_eq; done. }
  assert (forall x, x <> i -> x <> b_next (f HEAD) -> b_prev (link_front i f x) = b_prev (f x)) as Fp.
  { intros x H1 H2. unfold link_front, upd. repeat case_decide; simplify_eq; try done. }
  assert (b_next (link_front i f HEAD) = i) as F1 by (unfold link_front; by rewrite upd_eq).
  assert (b_prev (link_front i f i) = HEAD) as F2.
  { unfold link_front, upd. repeat case_decide; simplify_eq; done. }
  assert (b_next (link_front i f i) = b_next (f HEAD)) as F3.
  { unfold link_front, upd. repeat case_decide; simplify_eq; done. }
  assert (b_prev (link_front i f (b_next (f HEAD))) = i) as F4.
  { unfold link_front, upd. repeat case_decide; simplify_eq; done. }
  fold (link_front i f). cbn [chain]. split; [done|]. split; [done|].
  destruct l as [|y l]; cbn in *.
  - destruct Hc as [Hz1 Hz2]. rewrite Hz1 in *. done.
  - destruct Hc as (Hy & Hy' & Hc). rewrite Hy in *. split_and!; [done|done|].
    apply NoDup_cons in Hnd as [Hny Hnd]. apply (chain_frame f); [| |done].
    + intros x Hx. apply Fn; clear -Hx Hh Hi; set_solver.
    + intros x Hx. apply Fp; clear -Hx Hi Hz Hny; set_solver.
Qed.

(** ** What the cache promises

    The logical state of the cache: the blocks in use, each with its buffer,
    its reference count, whether the running process holds its lock, and its
    contents; every other block has its contents on the disk. *)

Record hold := mkHold { h_idx : nat; h_ref : Z; h_locked : bool; h_data : list Z }.

Definition contents (C : gmap Z hold) (d : Z -> list Z) (n : Z) : list Z :=
  match C !! n with Some h => h_data h | None => d n end.

(** Everything in a buffer but its links. *)
Definition same_core (b b' : buf) : Prop :=
  b_valid b' = b_valid b /\ b_dev b' = b_dev b /\ b_blockno b' = b_blockno b /\
  b_lock b' = b_lock b /\ b_refcnt b' = b_refcnt b /\ b_data b' = b_data b.

Lemma same_core_refl b : same_core b b.
Proof. repeat split. Qed.
Lemma same_core_upd (f g : nat -> buf) i x : (forall j, same_core (f j) (g j)) -> same_core (g i) x ->
  forall j, same_core (f j) (upd g i x j).
Proof.
  intros Hg Hx j. unfold upd. case_decide as E; [subst|done]. specialize (Hg i).
  unfold same_core in *. intuition congruence.
Qed.
Lemma relink_core i f j : same_core (f j) (link_front i (unlink i f) j).
Proof.
  revert j. unfold link_front, unlink. cbv zeta.
  repeat (apply same_core_upd; [|repeat split]). intros; apply same_core_refl.
Qed.

Section Rep.
Context (pid : Z).

Record buf_holds (b : buf) (n : Z) (h : hold) : Prop := {
  bh_valid : b_valid b = true;
  bh_dev : b_dev b = ROOTDEV;
  bh_blockno : b_blockno b = n;
  bh_lock : b_lock b = mkSleeplock (h_locked h) false (if h_locked h then pid else 0);
  bh_ref : b_refcnt b = h_ref h;
  bh_pos : 0 < h_ref h < 2 ^ 32;
  bh_data : b_data b = h_data h;
}.

(** An unreferenced buffer: free, and clean if it caches a block. *)
Record buf_idle (d : Z -> list Z) (b : buf) : Prop := {
  bi_ref : b_refcnt b = 0;
  bi_lock : b_lock b = initsleeplock;
  bi_clean : b_valid b = true -> b_dev b = ROOTDEV -> b_data b = d (b_blockno b);
}.

Record cache_rep (C : gmap Z hold) (s : bio) : Prop := {
  cr_lock : bcache_lock s = false;
  cr_ring : exists l, ring (bufs s) l;
  cr_hold : forall n h, C !! n = Some h -> (h_idx h < nbuf)%nat /\ buf_holds (bufs s (h_idx h)) n h;
  cr_idle : forall i, (i < nbuf)%nat ->
    (exists n h, C !! n = Some h /\ h_idx h = i) \/ buf_idle (disk s) (bufs s i);
  cr_uniq : forall i j, (i < nbuf)%nat -> (j < nbuf)%nat -> b_dev (bufs s i) = ROOTDEV ->
    b_dev (bufs s j) = ROOTDEV -> b_blockno (bufs s i) = b_blockno (bufs s j) -> i = j;
}.

Lemma buf_holds_core b b' n h : same_core b b' -> buf_holds b n h -> buf_holds b' n h.
Proof.
  intros (E1 & E2 & E3 & E4 & E5 & E6) [].
  split; rewrite ?E1, ?E2, ?E3, ?E4, ?E5, ?E6; assumption.
Qed.
Lemma buf_idle_core d b b' : same_core b b' -> buf_idle d b -> buf_idle d b'.
Proof.
  intros (E1 & E2 & E3 & E4 & E5 & E6) [].
  split; rewrite ?E1, ?E2, ?E3, ?E4, ?E5, ?E6; assumption.
Qed.

Lemma hold_inj C s n n' h h' : cache_rep C s ->
  C !! n = Some h -> C !! n' = Some h' -> h_idx h = h_idx h' -> n = n'.
Proof.
  intros HC Hn Hn' E. apply (cr_hold _ _ HC) in Hn as [_ Hn], Hn' as [_ Hn'].
  rewrite E in Hn. rewrite <- (bh_blockno _ _ _ Hn), <- (bh_blockno _ _ _ Hn'). done.
Qed.

(** One buffer of the cache changes: the common part of the three cases. *)
Record cache_step (s s' : bio) (i : nat) (n : Z) : Prop := {
  cs_lock : bcache_lock s' = false;
  cs_ring : exists l, ring (bufs s') l;
  cs_other : forall j, j <> i -> (j < nbuf)%nat -> same_core (bufs s j) (bufs s' j);
  cs_disk : forall m, m <> n -> disk s' m = disk s m;
  cs_key : b_dev (bufs s' i) = ROOTDEV /\ b_blockno (bufs s' i) = n;
  cs_fresh : forall j, j <> i -> (j < nbuf)%nat -> b_dev (bufs s j) = ROOTDEV ->
    b_blockno (bufs s j) <> n;
}.

Lemma step_uniq C s s' i n : cache_rep C s -> cache_step s s' i n ->
  forall j k, (j < nbuf)%nat -> (k < nbuf)%nat -> b_dev (bufs s' j) = ROOTDEV ->
    b_dev (bufs s' k) = ROOTDEV -> b_blockno (bufs s' j) = b_blockno (bufs s' k) -> j = k.
Proof.
  intros HC [_ _ Ho _ [Hd Hb] Hf] j k Hj Hk Dj Dk E.
  destruct (decide (j = i)) as [->|Nj], (decide (k = i)) as [->|Nk]; [done| | |].
  - destruct (Ho k Nk Hk) as (_ & E2 & E3 & _). rewrite E2 in Dk. rewrite E3 in E. destruct (Hf k Nk Hk Dk). congruence.
  - destruct (Ho j Nj Hj) as (_ & E2 & E3 & _). rewrite E2 in Dj. rewrite E3 in E. destruct (Hf j Nj Hj Dj). congruence.
  - destruct (Ho k Nk Hk) as (_ & E2 & E3 & _), (Ho j Nj Hj) as (_ & E2' & E3' & _).
    rewrite E2, E2', E3, E3' in *. by eapply cr_uniq.
Qed.

(** Other idle buffers stay clean: none of them caches [n]. *)
Lemma step_idle s s' i n j : cache_step s s' i n -> j <> i -> (j < nbuf)%nat ->
  buf_idle (disk s) (bufs s j) -> buf_idle (disk s') (bufs s' j).
Proof.
  intros St Hne Hj Hi. apply (buf_idle_core _ _ _ (cs_other _ _ _ _ St j Hne Hj)).
  destruct Hi as [H1 H2 H3]. split; [done|done|]. intros Hv Hd. rewrite (cs_disk _ _ _ _ St); [by apply H3|].
  by apply (cs_fresh _ _ _ _ St).
Qed.

(** The changed buffer is in use afterwards. *)
Lemma cache_set C s s' n h : cache_rep C s -> cache_step s s' (h_idx h) n ->
  (h_idx h < nbuf)%nat -> buf_holds (bufs s' (h_idx h)) n h ->
  (forall m k, C !! m = Some k -> h_idx k = h_idx h -> m = n) ->
  (forall k, C !! n = Some k -> h_idx k = h_idx h) ->
  cache_rep (<[n := h]> C) s'.
Proof.
  intros HC St Hi Hh Hm Hn. split; try apply St.
  - intros m k Hk. destruct (decide (m = n)) as [->|Hne].
    { rewrite lookup_insert_eq in Hk. by simplify_eq. }
    rewrite lookup_insert_ne in Hk by done. destruct (cr_hold _ _ HC m k Hk) as [Hlt Hbh].
    split; [done|]. eapply buf_holds_core; [|done]. apply (cs_other _ _ _ _ St); [|done].
    intros E. apply Hne. by eapply Hm.
  - intros j Hj. destruct (decide (j = h_idx h)) as [->|Hne].
    { left. exists n, h. by rewrite lookup_insert_eq. }
    destruct (cr_idle _ _ HC j Hj) as [(m & k & Hk & <-)|Hid].
    + left. exists m, k. rewrite lookup_insert_ne; [done|]. intros <-. apply Hne. by apply Hn.
    + right. by eapply step_idle.
  - by eapply step_uniq.
Qed.

(** The changed buffer is idle afterwards. *)
Lemma cache_drop C s s' n h : cache_rep C s -> C !! n = Some h -> cache_step s s' (h_idx h) n ->
  buf_idle (disk s') (bufs s' (h_idx h)) -> cache_rep (delete n C) s'.
Proof.
  intros HC Hn St Hid. split; try apply St.
  - intros m k Hk. apply lookup_delete_Some in Hk as [Hne Hk].
    destruct (cr_hold _ _ HC m k Hk) as [Hlt Hbh]. split; [done|].
    eapply buf_holds_core; [|done]. apply (cs_other _ _ _ _ St); [|done].
    intros E. apply Hne. symmetry. by eapply hold_inj.
  - intros j Hj. destruct (decide (j = h_idx h)) as [->|Hne]; [by right|].
    destruct (cr_idle _ _ HC j Hj) as [(m & k & Hk & <-)|Hj'].
    + left. exists m, k. rewrite lookup_delete_ne; [done|]. intros <-. congruence.
    + right. by eapply step_idle.
  - by eapply step_uniq.
Qed.
End Rep.

(** ** The scans of bget *)

Definition is_block (f : nat -> buf) (dev n : Z) (i : nat) : bool :=
  (b_dev (f i) =? dev) && (b_blockno (f i) =? n).
Definition is_unused (f : nat -> buf) (i : nat) : bool := b_refcnt (f i) =? 0.

Lemma find_cached_run s dev n l : forall a fuel,
  chain (bufs s) a l HEAD -> HEAD ∉ l -> (length l < fuel)%nat ->
  loop fuel (find_cached dev n) (b_next (bufs s a)) s = Ret (List.find (is_block (bufs s) dev n) l) s.
Proof.
  induction l as [|x l IH]; intros a fuel Hc Hh Hf; (destruct fuel as [|fuel]; [cbn in Hf; lia|]).
  - destruct Hc as [-> _]. cbn [loop]. unfold bind, find_cached. by rewrite decide_True.
  - destruct Hc as (-> & _ & Hc). apply not_elem_of_cons in Hh as [Hx Hl]. cbn [loop length] in *.
    unfold bind at 1, find_cached at 1. rewrite decide_False by done. unfold bind, gets. cbn [obind List.find].
    unfold is_block at 1. destruct (_ && _); cbn [obind ret]; [done|]. apply IH; [done|done|lia].
Qed.

Lemma find_unused_run s l : forall z fuel,
  chain (bufs s) HEAD l z -> HEAD ∉ l -> (length l < fuel)%nat ->
  loop fuel find_unused (b_prev (bufs s z)) s = Ret (List.find (is_unused (bufs s)) (rev l)) s.
Proof.
  induction l as [|x l IH] using rev_ind; intros z fuel Hc Hh Hf;
    (destruct fuel as [|fuel]; [rewrite ?length_app in Hf; cbn in Hf; lia|]).
  - destruct Hc as [_ ->]. cbn [loop]. unfold bind, find_unused. by rewrite decide_True.
  - apply chain_app in Hc as [Hc [_ Hz]]. rewrite Hz. rewrite not_elem_of_app, not_elem_of_cons in Hh.
    destruct Hh as (Hl & Hx & _). rewrite length_app in Hf. cbn [length] in Hf. rewrite rev_app_distr.
    cbn [loop rev app List.find].
    unfold bind at 1, find_unused at 1. rewrite decide_False by done. unfold bind, gets. cbn [obind].
    unfold is_unused at 1. destruct (_ =? 0); cbn [obind ret]; [done|]. apply IH; [done|done|lia].
Qed.

Lemma ring_mem f l i : ring f l -> i ∈ l <-> (i < nbuf)%nat.
Proof.
  intros [_ Hp]. rewrite Hp, elem_of_seq. lia.
Qed.
Lemma ring_head f l : ring f l -> HEAD ∉ l.
Proof. intros Hr Hi. apply (ring_mem f) in Hi; [|done]. unfold HEAD in Hi. lia. Qed.
Lemma ring_length f l : ring f l -> length l = nbuf.
Proof. intros [_ Hp]. rewrite Hp. apply length_seq. Qed.
Lemma ring_nodup f l : ring f l -> NoDup l.
Proof. intros [_ Hp]. rewrite Hp. apply NoDup_seq. Qed.

(** Links only depend on the link fields. *)
Lemma ring_frame f f' l : ring f l ->
  (forall i, b_next (f' i) = b_next (f i) /\ b_prev (f' i) = b_prev (f i)) -> ring f' l.
Proof. intros [Hc Hp] E. split; [|done]. apply (chain_frame f); [| |done]; intros; apply E. Qed.

Lemma ring_move_front f l i : ring f l -> (i < nbuf)%nat ->
  ring (link_front i (unlink i f)) (i :: filter (fun x => x <> i) l).
Proof.
  intros Hr Hi. pose proof Hr as [Hc Hp]. pose proof (ring_head _ _ Hr) as Hh.
  pose proof (ring_nodup _ _ Hr) as Hnd.
  destruct (list_elem_of_split l i) as (l1 & l2 & ->); [by apply (ring_mem f)|].
  assert (NoDup (HEAD :: l1 ++ i :: l2)) as Hnd' by (by constructor).
  assert (b_prev (f i) <> i /\ b_next (f i) <> i) as [Hpi Hni].
  { apply chain_app in Hc as [Hc1 Hc2]. apply chain_last in Hc1. apply chain_first in Hc2.
    apply NoDup_app in Hnd as (_ & N1 & N2). apply NoDup_cons in N2 as [N2 _].
    split; intros E; rewrite E in *.
    - apply elem_of_cons in Hc1 as [->|Hc1]; [|apply (N1 i); [done|apply list_elem_of_here]].
      apply Hh, elem_of_app. right. apply list_elem_of_here.
    - apply elem_of_app in Hc2 as [Hc2|Hc2]; [done|]. apply list_elem_of_singleton in Hc2 as ->.
      apply Hh, elem_of_app. right. apply list_elem_of_here. }
  rewrite filter_ne_mid by done. assert (i :: l1 ++ l2 ≡ₚ seq 0 nbuf) as Hperm by (by rewrite Permutation_middle).
  split; [|done]. apply chain_push.
  - apply (chain_join f _ i); [done|done|done|by apply unlink_joined].
  - rewrite Permutation_middle. done.
  - by rewrite Permutation_middle.
Qed.

Section Specs.
Context (pid : Z).
Implicit Types (C : gmap Z hold) (s : bio).

(** A buffer is free for recycling unless the blocks in use fill the cache. *)
Lemma find_unused_some C s l : cache_rep pid C s -> ring (bufs s) l -> (size C < nbuf)%nat ->
  exists i, List.find (is_unused (bufs s)) (rev l) = Some i /\ (i < nbuf)%nat /\
            buf_idle (disk s) (bufs s i).
Proof.
  intros HC Hr Hsz. destruct (List.find _ _) as [i|] eqn:Hf.
  - apply find_some in Hf as [Hi Hu]. exists i. split; [done|].
    apply in_rev, list_elem_of_In in Hi. apply (ring_mem _ _ i Hr) in Hi. split; [done|].
    destruct (cr_idle _ _ _ HC i Hi) as [(n & h & Hn & <-)|]; [|done].
    apply (cr_hold _ _ _ HC) in Hn as [_ Hh]. unfold is_unused in Hu. apply Z.eqb_eq in Hu.
    pose proof (bh_pos _ _ _ _ Hh). pose proof (bh_ref _ _ _ _ Hh). lia.
  - exfalso. set (bs := (fun i => b_blockno (bufs s i)) <$> l).
    assert (forall i, i ∈ l -> exists h, C !! b_blockno (bufs s i) = Some h /\ b_dev (bufs s i) = ROOTDEV) as Hheld.
    { intros i Hi. pose proof (proj1 (ring_mem _ _ i Hr) Hi) as Hlt.
      destruct (cr_idle _ _ _ HC i Hlt) as [(n & h & Hn & <-)|[H0 _ _]].
      - exists h. pose proof (cr_hold _ _ _ HC n h Hn) as [_ Hh].
        rewrite (bh_blockno _ _ _ _ Hh). split; [done|]. apply Hh.
      - apply find_none with (x := i) in Hf; [|by apply in_rev, list_elem_of_In; rewrite rev_involutive].
        unfold is_unused in Hf. rewrite H0 in Hf. done. }
    assert (NoDup bs) as Hnd.
    { apply NoDup_fmap_2_strong; [|by eapply ring_nodup]. intros i j Hi Hj E.
      destruct (Hheld i Hi) as (? & _ & Di), (Hheld j Hj) as (? & _ & Dj).
      eapply cr_uniq; [done| | |done|done|done]; by apply (ring_mem _ _ _ Hr). }
    assert (bs ⊆+ (map_to_list C).*1) as Hsub.
    { apply NoDup_submseteq; [done|]. intros n Hn. apply list_elem_of_fmap in Hn as (i & -> & Hi).
      destruct (Hheld i Hi) as (h & Hh & _). apply list_elem_of_fmap. eexists (_, h). split; [done|].
      by apply elem_of_map_to_list. }
    apply submseteq_length in Hsub. unfold bs in Hsub. rewrite !length_fmap, (ring_length _ _ Hr) in Hsub.
    rewrite length_map_to_list in Hsub. lia.
Qed.

Lemma find_block_some C s l n i : cache_rep pid C s -> ring (bufs s) l ->
  List.find (is_block (bufs s) ROOTDEV n) l = Some i ->
  (i < nbuf)%nat /\ b_dev (bufs s i) = ROOTDEV /\ b_blockno (bufs s i) = n.
Proof.
  intros HC Hr Hf. apply find_some in Hf as [Hi Hu]. apply list_elem_of_In, (ring_mem _ _ i Hr) in Hi.
  unfold is_block in Hu. rewrite andb_true_iff, !Z.eqb_eq in Hu. tauto.
Qed.

Lemma find_block_none s l n i : ring (bufs s) l ->
  List.find (is_block (bufs s) ROOTDEV n) l = None -> (i < nbuf)%nat ->
  b_dev (bufs s i) = ROOTDEV -> b_blockno (bufs s i) <> n.
Proof.
  intros Hr Hf Hi Hd Hb. apply find_none with (x := i) in Hf.
  - unfold is_block in Hf. rewrite Hd, Hb, !Z.eqb_refl in Hf. done.
  - by apply list_elem_of_In, (ring_mem _ _ i Hr).
Qed.

(** bget is decided by the two scans. *)
Lemma bget_scan s l n : bcache_lock s = false -> ring (bufs s) l ->
  bget pid ROOTDEV n s =
  match List.find (is_block (bufs s) ROOTDEV n) l with
  | Some b => bget_claim pid b (fun x => with_refcnt (u32 (b_refcnt x + 1)) x) (put bcache_lockL true s)
  | None =>
      match List.find (is_unused (bufs s)) (rev l) with
      | Some b =>
          bget_claim pid b (fun x => mkBuf false ROOTDEV n (b_lock x) 1 (b_prev x) (b_next x) (b_data x))
            (put bcache_lockL true s)
      | None => Panic "bget: no buffers"
      end
  end.
Proof.
  intros Hl Hr. pose proof Hr as [Hc _]. unfold bget. unfold acquire, bind at 1, gets at 1.
  unfold bind at 1. cbn [view bcache_lockL obind]. rewrite Hl. cbn [obind modify]. unfold bind at 1, gets at 1.
  cbn [obind]. unfold bind at 1.
  set (s1 := put bcache_lockL true s).
  rewrite (find_cached_run s1 ROOTDEV n l HEAD (S nbuf) Hc (ring_head _ _ Hr))
    by (rewrite (ring_length _ _ Hr); lia).
  change (bufs s1) with (bufs s). cbn [obind]. destruct (List.find _ l) as [b|]; [done|].
  unfold bind at 1, gets at 1. cbn [obind].
  unfold bind at 1. change (bufs s) with (bufs s1) at 1.
  rewrite (find_unused_run s1 l HEAD (S nbuf) Hc (ring_head _ _ Hr))
    by (rewrite (ring_length _ _ Hr); lia).
  change (bufs s1) with (bufs s). cbn [obind]. by destruct (List.find _ (rev l)).
Qed.

Definition claimed (s : bio) (b : nat) (x : buf) : bio :=
  mkBio false (upd (bufs s) b (with_lock (mkSleeplock true false pid) x)) (disk s) (dwrites s) (b_woken s).

Lemma bget_claim_free s b f p : b_lock (f (bufs s b)) = mkSleeplock false false p ->
  bget_claim pid b f (put bcache_lockL true s) = Ret b (claimed s b (f (bufs s b))).
Proof.
  intros Hk. unfold bget_claim, release, bind, gets, modify, ret. cbn.
  rewrite (acquiresleep_free _ _ _ _ _ p); cbn; [|by rewrite upd_eq].
  unfold on_buf, set_bufs, claimed. cbn. by rewrite upd_upd, upd_eq.
Qed.

(** After bget, bread fills the buffer from the disk if it is not valid. *)
Lemma bread_claimed s n b x : bget pid ROOTDEV n s = Ret b (claimed s b x) ->
  bread pid ROOTDEV n s =
    Ret b (claimed s b (with_valid true (if b_valid x then x else with_data (disk s (b_blockno x)) x))).
Proof.
  intros E. unfold bread, bind at 1. rewrite E. cbn [obind]. unfold bind at 1, gets. cbn [obind].
  unfold claimed. cbn. rewrite upd_eq. cbn. destruct (b_valid x) eqn:Hv; cbn.
  - destruct x; cbn in *; subst. done.
  - unfold on_buf, set_bufs. cbn. by rewrite !upd_upd, !upd_eq.
Qed.

Lemma claimed_step C s b x n : cache_rep pid C s -> (b < nbuf)%nat ->
  b_dev x = ROOTDEV -> b_blockno x = n -> b_next x = b_next (bufs s b) -> b_prev x = b_prev (bufs s b) ->
  (forall j, j <> b -> (j < nbuf)%nat -> b_dev (bufs s j) = ROOTDEV -> b_blockno (bufs s j) <> n) ->
  cache_step s (claimed s b x) b n.
Proof.
  intros HC Hb Hd Hn Ex Ep Hf. split; cbn; try done.
  - destruct (cr_ring _ _ _ HC) as [l Hr]. exists l. apply (ring_frame (bufs s)); [done|].
    intros i. unfold upd. case_decide; subst; done.
  - intros j Hj _. rewrite upd_ne by done. apply same_core_refl.
  - by rewrite upd_eq.
Qed.

(** A buffer caches at most one block, a block has at most one buffer. *)
Lemma hold_fresh C s n h : cache_rep pid C s -> C !! n = Some h ->
  forall j, j <> h_idx h -> (j < nbuf)%nat -> b_dev (bufs s j) = ROOTDEV -> b_blockno (bufs s j) <> n.
Proof.
  intros HC Hn j Hj Hlt Hd Hb. apply Hj. destruct (cr_hold _ _ _ HC n h Hn) as [Hi Hh].
  eapply cr_uniq; [done|done|done|done|apply Hh|]. rewrite (bh_blockno _ _ _ _ Hh). done.
Qed.

Definition readable C (n : Z) : Prop :=
  match C !! n with
  | Some h => h_locked h = false /\ h_ref h + 1 < 2 ^ 32
  | None => (size C < nbuf)%nat
  end.
Definition refs C (n : Z) : Z := match C !! n with Some h => h_ref h | None => 0 end.

(** What stays when an operation does not write to the disk. *)
Definition disk_same (s s' : bio) : Prop := disk s' = disk s /\ dwrites s' = dwrites s.

Definition bread_post C s (n : Z) (b : nat) (s' : bio) : Prop :=
  (forall h, C !! n = Some h -> h_idx h = b) /\ (b < nbuf)%nat /\
  cache_rep pid (<[n := mkHold b (refs C n + 1) true (contents C (disk s) n)]> C) s' /\
  disk_same s s'.

(** bread of a block some process already references. *)
Lemma bread_held C s n h : cache_rep pid C s -> C !! n = Some h -> h_locked h = false ->
  h_ref h + 1 < 2 ^ 32 -> wp (bread pid ROOTDEV n) (bread_post C s n) s.
Proof.
  intros HC Hn Hul Hmax. destruct (cr_ring _ _ _ HC) as [l Hr]. pose proof (cr_lock _ _ _ HC) as Hl.
  unfold wp, bread_post, refs, contents. rewrite Hn.
  destruct (cr_hold _ _ _ HC n h Hn) as [Hi Hh]. pose proof Hh as [V D B L R P Dt]. rewrite Hul in L.
  assert (List.find (is_block (bufs s) ROOTDEV n) l = Some (h_idx h)) as Hf.
  { destruct (List.find _ l) as [i|] eqn:Hf.
    - destruct (find_block_some _ _ _ _ _ HC Hr Hf) as (Hlt & Di & Bi). f_equal.
      eapply cr_uniq; [done|done|done|done|done|congruence].
    - destruct (find_block_none s l n (h_idx h) Hr Hf Hi D B). }
  pose proof (bget_scan s l n Hl Hr) as Hb. rewrite Hf in Hb.
  rewrite (bget_claim_free s (h_idx h) _ 0) in Hb by done.
  rewrite (bread_claimed _ _ _ _ Hb). cbn [b_valid with_refcnt]. rewrite V.
  split; [congruence|]. split; [done|]. split; [|done].
  apply (cache_set pid C s); cbn [h_idx]; try done.
  - eapply claimed_step; try done. by apply hold_fresh with C.
  - unfold claimed. cbn. rewrite upd_eq. split; cbn; try done; [|lia].
    rewrite R, u32_small by lia. done.
  - intros m k Hm E. by eapply hold_inj.
  - congruence.
Qed.

(** bread of an unreferenced block that is still in a buffer. *)
Lemma bread_cached C s l n b : cache_rep pid C s -> C !! n = None -> ring (bufs s) l ->
  List.find (is_block (bufs s) ROOTDEV n) l = Some b ->
  wp (bread pid ROOTDEV n) (bread_post C s n) s.
Proof.
  intros HC Hn Hr Hf. pose proof (cr_lock _ _ _ HC) as Hl.
  unfold wp, bread_post, refs, contents. rewrite Hn.
  destruct (find_block_some _ _ _ _ _ HC Hr Hf) as (Hi & D & B).
  destruct (cr_idle _ _ _ HC b Hi) as [(m & h & Hm & <-)|[R0 L0 Cl]].
  { destruct (cr_hold _ _ _ HC m h Hm) as [_ Hh]. pose proof (bh_blockno _ _ _ _ Hh). congruence. }
  pose proof (bget_scan s l n Hl Hr) as Hb. rewrite Hf in Hb.
  rewrite (bget_claim_free s b _ 0) in Hb by done. rewrite (bread_claimed _ _ _ _ Hb). cbn [b_valid with_refcnt].
  split; [congruence|]. split; [done|]. split; [|done].
  apply (cache_set pid C s); cbn [h_idx]; try done.
  - eapply claimed_step; try done; try (by destruct (b_valid _)).
    intros j Hj Hlt Dj Bj. apply Hj. eapply cr_uniq; [done..|congruence].
  - unfold claimed. cbn. rewrite upd_eq. destruct (b_valid (bufs s b)) eqn:V; split; cbn; rewrite ?R0, ?B; try done.
    by rewrite Cl, B.
  - intros m k Hm E. apply (cr_hold _ _ _ HC) in Hm as [_ Hk]. rewrite E in Hk.
    pose proof (bh_blockno _ _ _ _ Hk). congruence.
  - congruence.
Qed.

(** bread of a block that is not cached: an unused buffer is recycled. *)
Lemma bread_recycle C s l n : cache_rep pid C s -> C !! n = None -> ring (bufs s) l ->
  List.find (is_block (bufs s) ROOTDEV n) l = None -> (size C < nbuf)%nat ->
  wp (bread pid ROOTDEV n) (bread_post C s n) s.
Proof.
  intros HC Hn Hr Hf Hsz. pose proof (cr_lock _ _ _ HC) as Hl.
  unfold wp, bread_post, refs, contents. rewrite Hn.
  destruct (find_unused_some C s l HC Hr Hsz) as (b & Hu & Hi & [R0 L0 _]).
  pose proof (bget_scan s l n Hl Hr) as Hb. rewrite Hf, Hu in Hb.
  rewrite (bget_claim_free s b _ 0) in Hb by done. rewrite (bread_claimed _ _ _ _ Hb). cbn [b_valid].
  split; [congruence|]. split; [done|]. split; [|done].
  apply (cache_set pid C s); cbn [h_idx]; try done.
  - eapply claimed_step; try done. intros j Hj Hlt. by eapply find_block_none.
  - unfold claimed. cbn. rewrite upd_eq. by split.
  - intros m k Hm E. apply (cr_hold _ _ _ HC) in Hm as [_ Hk]. rewrite E in Hk.
    pose proof (bh_ref _ _ _ _ Hk). pose proof (bh_pos _ _ _ _ Hk). lia.
  - congruence.
Qed.

Lemma bread_spec C s n : cache_rep pid C s -> readable C n ->
  wp (bread pid ROOTDEV n) (bread_post C s n) s.
Proof.
  intros HC Hread. unfold readable in Hread. destruct (C !! n) as [h|] eqn:Hn.
  - destruct Hread. by eapply bread_held.
  - destruct (cr_ring _ _ _ HC) as [l Hr]. destruct (List.find (is_block (bufs s) ROOTDEV n) l) eqn:Hf.
    + by eapply bread_cached.
    + by eapply bread_recycle.
Qed.

(** Changing the buffer of a block in use without touching links or keys. *)
Lemma held_step C s s' n h : cache_rep pid C s -> C !! n = Some h ->
  bcache_lock s' = false -> (exists l, ring (bufs s') l) ->
  (forall j, j <> h_idx h -> same_core (bufs s j) (bufs s' j)) ->
  (forall m, m <> n -> disk s' m = disk s m) ->
  b_dev (bufs s' (h_idx h)) = ROOTDEV -> b_blockno (bufs s' (h_idx h)) = n ->
  cache_step s s' (h_idx h) n.
Proof. intros HC Hn Hl Hr Ho Hd D B. split; auto. by apply hold_fresh with C. Qed.

Lemma ring_upd s l i x : ring (bufs s) l -> b_next x = b_next (bufs s i) ->
  b_prev x = b_prev (bufs s i) -> ring (upd (bufs s) i x) l.
Proof.
  intros Hr E1 E2. apply (ring_frame (bufs s)); [done|]. intros j. unfold upd. case_decide; by subst.
Qed.

Lemma upd_core (f : nat -> buf) i x j : j <> i -> same_core (f j) (upd f i x j).
Proof. intros. rewrite upd_ne by done. apply same_core_refl. Qed.

(** A change of the held buffer that keeps its key and links. *)
Lemma cache_on_buf C s n h h' g : cache_rep pid C s -> C !! n = Some h ->
  b_next (g (bufs s (h_idx h))) = b_next (bufs s (h_idx h)) ->
  b_prev (g (bufs s (h_idx h))) = b_prev (bufs s (h_idx h)) ->
  h_idx h' = h_idx h -> buf_holds pid (g (bufs s (h_idx h))) n h' ->
  cache_rep pid (<[n := h']> C) (on_buf (h_idx h) g s).
Proof.
  intros HC Hn E1 E2 Ei Hh. destruct (cr_ring _ _ _ HC) as [l Hr].
  destruct (cr_hold _ _ _ HC n h Hn) as [Hi _].
  apply (cache_set pid C s); rewrite ?Ei; try done.
  - eapply held_step; try done; cbn.
    + apply HC.
    + exists l. by apply ring_upd.
    + intros. by apply upd_core.
    + rewrite upd_eq. apply Hh.
    + rewrite upd_eq. apply Hh.
  - cbn. by rewrite upd_eq.
  - intros m k Hm E. eapply hold_inj; [done|done|done|congruence].
  - congruence.
Qed.

Lemma holdingsleep_held C s n h : cache_rep pid C s -> C !! n = Some h -> h_locked h = true ->
  holdingsleep (b_lockL (h_idx h)) pid s = Ret true s.
Proof.
  intros HC Hn Hlk. destruct (cr_hold _ _ _ HC n h Hn) as [_ Hh].
  pose proof (bh_lock _ _ _ _ Hh) as L. rewrite Hlk in L.
  rewrite (holdingsleep_eq _ _ _ true pid) by done. by rewrite Z.eqb_refl.
Qed.

Lemma set_data_spec C s n h d : cache_rep pid C s -> C !! n = Some h ->
  wp (set_data (h_idx h) d) (fun _ s' =>
    cache_rep pid (<[n := mkHold (h_idx h) (h_ref h) (h_locked h) d]> C) s' /\ disk_same s s') s.
Proof.
  intros HC Hn. unfold set_data. wp_step. split; [|done].
  apply (cache_on_buf C s n h); try done. destruct (cr_hold _ _ _ HC n h Hn) as [_ []]. by split.
Qed.

Lemma bwrite_spec C s n h : cache_rep pid C s -> C !! n = Some h -> h_locked h = true ->
  wp (bwrite pid (h_idx h)) (fun _ s' => cache_rep pid C s' /\
    disk s' = upd (disk s) n (h_data h) /\ dwrites s' = dwrites s ++ [(n, h_data h)]) s.
Proof.
  intros HC Hn Hlk. destruct (cr_hold _ _ _ HC n h Hn) as [Hi Hh].
  unfold wp, bwrite, bind. rewrite (holdingsleep_held C s n h HC Hn Hlk). cbn.
  rewrite (bh_blockno _ _ _ _ Hh), (bh_data _ _ _ _ Hh). split; [|done].
  rewrite <- (insert_id C n h Hn). apply (cache_set pid C s); try done.
  - apply (held_step C); try done; cbn; try apply Hh; try apply HC.
    intros m Hm. by rewrite upd_ne.
  - intros m k Hm E. by eapply hold_inj.
  - congruence.
Qed.

Lemma bpin_spec C s n h : cache_rep pid C s -> C !! n = Some h -> h_ref h + 1 < 2 ^ 32 ->
  wp (bpin (h_idx h)) (fun _ s' =>
    cache_rep pid (<[n := mkHold (h_idx h) (h_ref h + 1) (h_locked h) (h_data h)]> C) s' /\
    disk_same s s') s.
Proof.
  intros HC Hn Hmax. pose proof (cr_lock _ _ _ HC) as Hl. unfold bpin. wp_steps. split; [|done].
  destruct (cr_hold _ _ _ HC n h Hn) as [_ Hh]. destruct s as [lk f d w wk]; cbn in *; subst lk.
  apply (cache_on_buf C (mkBio false f d w wk) n h _
          (fun x => with_refcnt (u32 (b_refcnt x + 1)) x)); try done.
  destruct Hh. split; cbn; try done; [|lia]. rewrite u32_small by lia. lia.
Qed.

Lemma bunpin_spec C s n h : cache_rep pid C s -> C !! n = Some h -> 1 < h_ref h ->
  wp (bunpin (h_idx h)) (fun _ s' =>
    cache_rep pid (<[n := mkHold (h_idx h) (h_ref h - 1) (h_locked h) (h_data h)]> C) s' /\
    disk_same s s') s.
Proof.
  intros HC Hn Hmin. pose proof (cr_lock _ _ _ HC) as Hl. unfold bunpin. wp_steps. split; [|done].
  destruct (cr_hold _ _ _ HC n h Hn) as [_ Hh]. destruct s as [lk f d w wk]; cbn in *; subst lk.
  apply (cache_on_buf C (mkBio false f d w wk) n h _
          (fun x => with_refcnt (u32 (b_refcnt x - 1)) x)); try done.
  destruct Hh. split; cbn; try done; [|lia]. rewrite u32_small by lia. lia.
Qed.

(** brelse as a function of the state, once its lock check has passed. *)
Lemma brelse_run C s n h : cache_rep pid C s -> C !! n = Some h -> h_locked h = true ->
  let x := with_refcnt (h_ref h - 1) (with_lock initsleeplock (bufs s (h_idx h))) in
  let f := upd (bufs s) (h_idx h) x in
  brelse pid (h_idx h) s = Ret tt (mkBio false
    (if h_ref h =? 1 then link_front (h_idx h) (unlink (h_idx h) f) else f)
    (disk s) (dwrites s) (b_woken s ++ [ChBufLock (h_idx h)])).
Proof.
  intros HC Hn Hlk. destruct (cr_hold _ _ _ HC n h Hn) as [Hi Hh]. pose proof Hh as [V D B L R P Dt].
  pose proof (cr_lock _ _ _ HC) as Hl. rewrite Hlk in L.
  unfold brelse, bind at 1. rewrite (holdingsleep_held C s n h HC Hn Hlk). cbn [obind negb].
  unfold bind at 1. rewrite (releasesleep_eq _ _ _ _ true pid) by done. cbn [obind].
  unfold acquire, release, bind, gets, modify, when, ret. cbn. rewrite Hl. cbn.
  unfold on_buf, set_bufs. cbn. rewrite !upd_eq. cbn. rewrite upd_upd, R, u32_small by lia.
  destruct (Z.eqb_spec (h_ref h) 1); bsimp; done.
Qed.

Definition brelsed C (n : Z) (h : hold) : gmap Z hold :=
  if h_ref h =? 1 then delete n C
  else <[n := mkHold (h_idx h) (h_ref h - 1) false (h_data h)]> C.

Lemma brelse_spec C s n h : cache_rep pid C s -> C !! n = Some h -> h_locked h = true ->
  (h_ref h = 1 -> h_data h = disk s n) ->
  wp (brelse pid (h_idx h)) (fun _ s' => cache_rep pid (brelsed C n h) s' /\ disk_same s s') s.
Proof.
  intros HC Hn Hlk Hclean. destruct (cr_hold _ _ _ HC n h Hn) as [Hi Hh]. pose proof Hh as [V D B L R P Dt].
  destruct (cr_ring _ _ _ HC) as [l Hr]. pose proof (brelse_run C s n h HC Hn Hlk) as E. cbv zeta in E.
  unfold wp. rewrite E. clear E. split; [|done]. unfold brelsed.
  set (x := with_refcnt _ _).
  assert (ring (upd (bufs s) (h_idx h) x) l) as Hr' by (by apply ring_upd).
  destruct (Z.eqb_spec (h_ref h) 1) as [E1|E1].
  - destruct (ring_move_front _ _ (h_idx h) Hr' Hi) as [l' Hr2].
    pose proof (relink_core (h_idx h) (upd (bufs s) (h_idx h) x)) as Hcore.
    pose proof (Hcore (h_idx h)) as Hx. rewrite upd_eq in Hx. destruct Hx as (X1 & X2 & X3 & X4 & X5 & X6).
    apply (cache_drop pid C s _ n h); try done.
    + apply (held_step C); try done; cbn; [by eexists| |by rewrite X2|by rewrite X3].
      intros j Hj. specialize (Hcore j). by rewrite upd_ne in Hcore.
    + cbn. split; cbn.
      * rewrite X5. cbn. lia.
      * by rewrite X4.
      * intros _ _. rewrite X6, X3. cbn. rewrite Dt, B. auto.
  - apply (cache_set pid C s); cbn [h_idx]; try done.
    + apply (held_step C); try done; cbn; [by exists l|intros; by apply upd_core|by rewrite upd_eq..].
    + cbn. rewrite upd_eq. split; cbn; try done. lia.
    + intros m k Hm Ek. by eapply hold_inj.
    + congruence.
Qed.
End Specs.

(** ** Boot *)

(** struct buf in zeroed memory. *)
Definition zero_buf : buf := mkBuf false 0 0 initsleeplock 0 0 0 [].

Lemma binit_spec pid lk d w wk :
  wp binit (fun _ s' => cache_rep pid ∅ s' /\ disk s' = d /\ dwrites s' = w)
    (mkBio lk (fun _ => zero_buf) d w wk).
Proof.
  unfold binit. do 4 (wp_step; cbn [put bcache_lockL bcache_lock bufs disk dwrites b_woken set_bufs on_buf]).
  wp_step. split; [|done].
  set (f := fold_left binit_step _ _).
  assert (forall i, (i < nbuf)%nat -> b_refcnt (f i) = 0 /\ b_lock (f i) = initsleeplock /\
            b_valid (f i) = false /\ b_dev (f i) = 0) as Hf.
  { intros i Hi. unfold nbuf in Hi. do 30 (destruct i as [|i]; [by vm_compute|]). vm_compute in Hi. lia. }
  split; cbn; try done.
  - exists (rev (seq 0 nbuf)). split; [vm_compute; tauto|]. symmetry. apply Permutation_rev.
  - intros i Hi. right. destruct (Hf i Hi) as (H1 & H2 & H3 & H4). split; congruence.
  - intros i j Hi Hj D. destruct (Hf i Hi) as (_ & _ & _ & H4). rewrite H4 in D. done.
Qed.

(** ** The cache is transparent *)

(** Clients that use the interface as bio.c prescribes. *)
Inductive bop := BRead (n : Z) | BWrite (n : Z) (d : list Z).

Definition bop_run (pid : Z) (o : bop) : M bio (list Z) :=
  match o with
  | BRead n =>
      let* b := bread pid ROOTDEV n in
      let* d := gets (get_data b) in
      brelse pid b ;; ret d
  | BWrite n d =>
      let* b := bread pid ROOTDEV n in
      set_data b d ;; bwrite pid b ;; brelse pid b ;; ret d
  end.
Fixpoint bops_run (pid : Z) (os : list bop) : M bio (list (list Z)) :=
  match os with
  | [] => ret []
  | o :: os => let* d := bop_run pid o in let* ds := bops_run pid os in ret (d :: ds)
  end.

(** The abstract block store: no cache at all. *)
Definition bop_out (d : Z -> list Z) (o : bop) : list Z :=
  match o with BRead n => d n | BWrite _ x => x end.
Definition bop_store (d : Z -> list Z) (o : bop) : Z -> list Z :=
  match o with BRead _ => d | BWrite n x => upd d n x end.
Fixpoint bops_spec (d : Z -> list Z) (os : list bop) : list (list Z) * (Z -> list Z) :=
  match os with
  | [] => ([], d)
  | o :: os => let (outs, d') := bops_spec (bop_store d o) os in (bop_out d o :: outs, d')
  end.

Lemma get_data_held pid C s n h : cache_rep pid C s -> C !! n = Some h ->
  get_data (h_idx h) s = h_data h.
Proof. intros HC Hn. apply (cr_hold _ _ _ HC n h Hn). Qed.

Lemma readable_empty n : readable ∅ n.
Proof. unfold readable. rewrite lookup_empty, map_size_empty. unfold nbuf, NBUF, MAXOPBLOCKS. lia. Qed.

Lemma bop_run_spec pid s o : cache_rep pid ∅ s ->
  wp (bop_run pid o) (fun d s' => d = bop_out (disk s) o /\ cache_rep pid ∅ s' /\
    disk s' = bop_store (disk s) o) s.
Proof.
  intros HC. destruct o as [n|n d]; cbn [bop_run bop_out bop_store]; apply wp_bind;
    (eapply wp_mono; [apply (bread_spec pid ∅); [done|apply readable_empty]|]);
    intros b s1 (_ & Hb & H1 & E1 & W1); set (h := mkHold _ _ _ _) in H1.
  - wp_step. wp_step. wp_step. eapply wp_mono.
    { apply (brelse_spec pid _ _ n h H1); [by rewrite lookup_insert_eq|done|]. intros _. cbn. by rewrite E1. }
    intros [] s2 (H2 & E2 & _). wp_step.
    change b with (h_idx h). rewrite (get_data_held pid _ _ n h H1) by by rewrite lookup_insert_eq.
    split; [done|]. split; [|congruence]. unfold brelsed in H2. cbn in H2. by rewrite delete_insert_id in H2.
  - wp_step. eapply wp_mono.
    { apply (set_data_spec pid _ _ n h d H1). by rewrite lookup_insert_eq. }
    intros [] s2 (H2 & E2 & _). rewrite insert_insert_eq in H2. set (h2 := mkHold _ _ _ _) in H2.
    wp_step. eapply wp_mono; [apply (bwrite_spec pid _ _ n h2 H2); [by rewrite lookup_insert_eq|done]|].
    intros [] s3 (H3 & E3 & _). wp_step. eapply wp_mono.
    { apply (brelse_spec pid _ _ n h2 H3); [by rewrite lookup_insert_eq|done|]. intros _. rewrite E3. by rewrite upd_eq. }
    intros [] s4 (H4 & E4 & _). wp_step. split; [done|]. split.
    + unfold brelsed in H4. cbn in H4. by rewrite delete_insert_id in H4.
    + rewrite E4, E3, E2, E1. done.
Qed.

Lemma bops_run_spec pid os : forall s, cache_rep pid ∅ s ->
  wp (bops_run pid os) (fun outs s' => (outs, disk s') = bops_spec (disk s) os /\ cache_rep pid ∅ s') s.
Proof.
  induction os as [|o os IH]; intros s HC; cbn [bops_run bops_spec].
  - by wp_step.
  - wp_step. eapply wp_mono; [by apply bop_run_spec|]. intros d s1 (-> & H1 & E1).
    wp_step. eapply wp_mono; [by apply IH|]. intros ds s2 [E2 H2]. wp_step.
    rewrite <- E1, <- E2. done.
Qed.

(** C11: the buffer cache is transparent.  From boot (zeroed cache, binit),
    any sequence of reads (bread, brelse) and writes (bread, change the data,
    bwrite, brelse) of any blocks terminates without a panic or a wait, each
    read returns what an uncached block store would return, however often
    buffers were recycled in between, and the disk ends with the store's
    contents. *)
Theorem bcache_transparent pid lk d w wk os :
  wp (binit ;; bops_run pid os)
    (fun outs s' => (outs, disk s') = bops_spec d os /\ cache_rep pid ∅ s')
    (mkBio lk (fun _ => zero_buf) d w wk).
Proof.
  wp_step. eapply wp_mono; [apply (binit_spec pid)|]. intros [] s1 (H1 & E1 & _).
  rewrite <- E1. by apply bops_run_spec.
Qed.

(** A machine just after binit, and what it serves. *)
Definition boot_bio (d : Z -> list Z) : bio := mkBio false (fun _ => zero_buf) d [] [].
Definition booted : bio :=
  match binit (boot_bio (fun n => [n])) with Ret _ s => s | _ => boot_bio (fun n => [n]) end.

Lemma booted_rep pid : cache_rep pid ∅ booted.
Proof.
  pose proof (binit_spec pid false (fun n => [n]) [] []) as H. unfold wp in H.
  unfold booted, boot_bio. destruct (binit _) eqn:E; [|done..]. apply H.
Qed.

Example bops_example :
  match bops_run 1 ([BWrite 7 [70]] ++ (BRead <$> seqZ 100 40) ++ [BRead 7]) booted with
  | Ret outs s => (last outs, disk s 7) = (Some [70], [70])
  | _ => False
  end.
Proof. vm_compute. reflexivity. Qed.
