(* ===== verification/BioLru.v ===== *)
(** * The replacement policy of the buffer cache

    bio.c never stores when a buffer was used: the order of the ring stands
    for it.  Here the releases that leave a buffer unreferenced are recorded
    beside the code, and the ring is shown to keep the buffers in the order of
    their last one, so that the buffer bget recycles is the least recently
    used. *)

From Stdlib Require Import ZArith Lia Sorting.Sorted.
From stdpp Require Import gmap.
From S2P Require Import Prelude Params Sleeplock Bio.

(** ** The order of last use

    [h] lists the buffers in the order they became unreferenced, newest
    first; [last_use h b] is the position in time of the last entry of [b], 0
    for a buffer that was never released. *)
Fixpoint last_use (h : list nat) (b : nat) : nat :=
  match h with [] => 0 | x :: h => if decide (x = b) then S (length h) else last_use h b end.

(** [x] was used after [y]; buffers never used count in the order binit
    linked them, the last one in front. *)
Definition used_after (h : list nat) (x y : nat) : Prop :=
  (last_use h y < last_use h x)%nat \/ (last_use h x = 0%nat /\ last_use h y = 0%nat /\ (y < x)%nat).

(** The buffers from the most to the least recently used. *)
Fixpoint recency (h : list nat) : list nat :=
  match h with [] => rev (seq 0 nbuf) | b :: h => b :: filter (fun x => x <> b) (recency h) end.

Lemma last_use_bound h b : (last_use h b <= length h)%nat.
Proof. induction h as [|x h IH]; cbn; [done|]. case_decide; lia. Qed.

Lemma sorted_mono (R T : nat -> nat -> Prop) l : (forall x y, x ∈ l -> y ∈ l -> R x y -> T x y) ->
  StronglySorted R l -> StronglySorted T l.
Proof.
  induction l as [|x l IH]; intros HRT Hs; [constructor|]. apply StronglySorted_inv in Hs as [Hs Hf].
  constructor; [apply IH; [set_solver|done]|]. rewrite Forall_forall in *. intros y Hy.
  apply HRT; [set_solver|set_solver|by apply Hf].
Qed.
Lemma sorted_filter (R : nat -> nat -> Prop) b l : StronglySorted R l -> StronglySorted R (filter (fun x => x <> b) l).
Proof.
  induction l as [|x l IH]; intros Hs; [constructor|]. apply StronglySorted_inv in Hs as [Hs Hf].
  rewrite filter_cons. case_decide; [|by apply IH]. constructor; [by apply IH|].
  rewrite Forall_forall in *. intros y Hy. apply list_elem_of_filter in Hy as [_ Hy]. by apply Hf.
Qed.

Lemma rev_seq_sorted n : StronglySorted (fun x y : nat => (y < x)%nat) (rev (seq 0 n)).
Proof.
  induction n as [|n IH]; [constructor|]. rewrite seq_S, rev_app_distr. cbn. constructor; [done|].
  apply Forall_forall. intros x Hx. apply list_elem_of_In, in_rev, in_seq in Hx. lia.
Qed.

Lemma recency_sorted h : StronglySorted (used_after h) (recency h).
Proof.
  induction h as [|b h IH]; cbn [recency].
  - eapply sorted_mono; [|apply rev_seq_sorted]. intros x y _ _ Hxy. by right.
  - constructor.
    + eapply sorted_mono; [|by apply sorted_filter]. intros x y Hx Hy Hxy. unfold used_after in *. cbn.
      apply list_elem_of_filter in Hx as [Hx _], Hy as [Hy _]. by rewrite !decide_False.
    + apply Forall_forall. intros y Hy. apply list_elem_of_filter in Hy as [Hy _]. left. cbn.
      rewrite decide_False, decide_True by congruence. pose proof (last_use_bound h y). lia.
Qed.

(** ** Histories of the cache *)

Section Lru.
Context (pid : Z).

(** Another reference to any buffer fits its counter. *)
Definition counts_ok (s : bio) : Prop := forall i, (i < nbuf)%nat -> b_refcnt (bufs s i) + 1 < 2 ^ 32.

(** What the cache has been through since binit on a machine with zeroed
    memory: any calls of its routines that returned, and changes of the data
    of buffers; a pin is only given back on top of a reference. *)
Inductive cache_hist : list nat -> bio -> Prop :=
| ch_boot lk d w wk s : binit (mkBio lk (fun _ => zero_buf) d w wk) = Ret tt s -> cache_hist [] s
| ch_read h s n b s' : cache_hist h s -> counts_ok s -> bread pid ROOTDEV n s = Ret b s' -> cache_hist h s'
| ch_data h s b x s' : cache_hist h s -> set_data b x s = Ret tt s' -> cache_hist h s'
| ch_write h s b s' : cache_hist h s -> bwrite pid b s = Ret tt s' -> cache_hist h s'
| ch_pin h s b s' : cache_hist h s -> counts_ok s -> (b < nbuf)%nat -> bpin b s = Ret tt s' -> cache_hist h s'
| ch_unpin h s b s' : cache_hist h s -> 1 < b_refcnt (bufs s b) -> bunpin b s = Ret tt s' -> cache_hist h s'
| ch_release h s b s' : cache_hist h s -> (b < nbuf)%nat -> brelse pid b s = Ret tt s' ->
    cache_hist (if b_refcnt (bufs s' b) =? 0 then b :: h else h) s'.

Record buf_free (x : buf) : Prop := {
  bf_spin : sl_lk (b_lock x) = false;
  bf_count : 0 <= b_refcnt x < 2 ^ 32;
  bf_unlocked : b_refcnt x = 0 -> sl_locked (b_lock x) = false }.

Record lru_inv (h : list nat) (s : bio) : Prop := {
  lr_lock : bcache_lock s = false;
  lr_ring : ring (bufs s) (recency h);
  lr_bufs : forall i, buf_free (bufs s i) }.

(** A change of one buffer that keeps its links. *)
Lemma lru_one h s s' b x : lru_inv h s -> bcache_lock s' = false -> bufs s' = upd (bufs s) b x ->
  b_next x = b_next (bufs s b) -> b_prev x = b_prev (bufs s b) -> buf_free x -> lru_inv h s'.
Proof.
  intros [L R B] Hl E En Ep Hx. split; [done| |]; rewrite E.
  - by apply ring_upd.
  - intros i. unfold upd. case_decide; [done|apply B].
Qed.

(** Taking the sleep lock of a buffer, or finding it busy. *)
Lemma bget_claim_cases h s b f : lru_inv h s -> b_lock (f (bufs s b)) = b_lock (bufs s b) ->
  (sl_locked (b_lock (bufs s b)) = false /\
     bget_claim pid b f (put bcache_lockL true s) = Ret b (claimed pid s b (f (bufs s b)))) \/
  (exists c s' k, bget_claim pid b f (put bcache_lockL true s) = Sleep c s' k).
Proof.
  intros Hi Ef. pose proof (bf_spin _ (lr_bufs _ _ Hi b)) as Hsp. destruct (b_lock (bufs s b)) as [lk sp p] eqn:El. cbn in Hsp. subst sp.
  destruct lk; [right|left; split; [done|by apply (bget_claim_free pid s b f p)]].
  unfold bget_claim, release, bind, gets, modify. cbn -[acquiresleep].
  match goal with |- context [acquiresleep ?l ?c ?q ?n ?s] =>
    destruct (acquiresleep_busy l c q (n - 1) s p) as [k E]; [cbn; by rewrite upd_eq, Ef, ?El|] end.
  cbn [Nat.sub] in E. rewrite Nat.sub_0_r in E. rewrite E. cbn. by do 3 eexists.
Qed.

Lemma bread_bget s n b s' : bread pid ROOTDEV n s = Ret b s' -> exists s1, bget pid ROOTDEV n s = Ret b s1.
Proof.
  unfold bread, bind. destruct (bget pid ROOTDEV n s) as [c s1| | |]; cbn; try done.
  destruct (b_valid (bufs s1 c)); cbn; intros E; injection E as -> _; by exists s1.
Qed.

Lemma lru_read h s n b s' : lru_inv h s -> counts_ok s -> bread pid ROOTDEV n s = Ret b s' -> lru_inv h s'.
Proof.
  intros Hi Hc E. pose proof Hi as [L R B]. destruct (bread_bget _ _ _ _ E) as [s1 Eg].
  assert (exists x, s1 = claimed pid s b x /\ b_next x = b_next (bufs s b) /\
    b_prev x = b_prev (bufs s b) /\ 0 < b_refcnt x < 2 ^ 32) as (x & -> & En & Ep & Hx).
  { rewrite (bget_scan pid s _ n L R) in Eg.
    destruct (List.find (is_block _ _ _) _) as [i|] eqn:Ef; [|destruct (List.find (is_unused _) _) as [i|]; [|done]];
      match type of Eg with bget_claim _ _ ?f _ = _ =>
        destruct (bget_claim_cases h s i f Hi eq_refl) as [[Hl Ec]|(c & s2 & k & Ec)] end;
      rewrite Ec in Eg; try done; injection Eg as -> <-; eexists; (split; [done|]); cbn; (split; [done|]); (split; [done|]); [|done].
    apply find_some in Ef as [Hin _]. apply list_elem_of_In, (ring_mem _ _ _ R) in Hin.
    pose proof (Hc b Hin). pose proof (bf_count _ (B b)). rewrite u32_small by lia. lia. }
  rewrite (bread_claimed pid s n b x Eg) in E. injection E as <-.
  eapply (lru_one h s _ b); [done|done|done|..]; [by destruct (b_valid x)..|].
  split; cbn; [done|destruct (b_valid x); cbn; lia|destruct (b_valid x); cbn; lia].
Qed.

(** bpin and bunpin. *)
Lemma lru_count h s b (f : Z -> Z) s' : lru_inv h s -> 0 < f (b_refcnt (bufs s b)) < 2 ^ 32 ->
  (acquire bcache_lockL ;;
   modify (on_buf b (fun x => with_refcnt (f (b_refcnt x)) x)) ;;
   release bcache_lockL) s = Ret tt s' -> lru_inv h s'.
Proof.
  intros Hi Hf E. pose proof Hi as [L R B]. unfold acquire, release, bind, gets, modify in E. cbn in E. rewrite L in E.
  injection E as <-. eapply (lru_one h s _ b); [done|done|done|done|done|]. split; cbn; [apply B|lia|lia].
Qed.

Lemma brelse_eq h s b s' : lru_inv h s -> brelse pid b s = Ret tt s' ->
  let x := with_refcnt (u32 (b_refcnt (bufs s b) - 1)) (with_lock initsleeplock (bufs s b)) in
  let f := upd (bufs s) b x in
  bcache_lock s' = false /\ bufs s' = (if b_refcnt x =? 0 then link_front b (unlink b f) else f).
Proof.
  intros [L R B] E. cbv zeta. pose proof (bf_spin _ (B b)) as Hsp.
  destruct (b_lock (bufs s b)) as [lk sp p] eqn:El. cbn in Hsp. subst sp.
  unfold brelse, bind at 1 in E. rewrite (holdingsleep_eq (b_lockL b) pid s lk p El) in E. cbn [obind] in E.
  destruct (negb _); [done|]. unfold bind at 1 in E. rewrite (releasesleep_eq (b_lockL b) b_wokenL (ChBufLock b) s lk p El) in E. cbn [obind] in E.
  unfold acquire, release, bind, gets, modify, when, ret in E. cbn in E. rewrite L in E. cbn in E.
  rewrite upd_eq in E. cbn in E. unfold on_buf, set_bufs in E. cbn in E. rewrite !upd_eq, upd_upd in E. cbn in E |- *.
  destruct (u32 _ =? 0); cbn in E; injection E as <-; done.
Qed.

Lemma core_free x y : same_core x y -> buf_free x -> buf_free y.
Proof. intros (_ & _ & _ & E4 & E5 & _) [B1 B2 B3]. split; rewrite ?E4, ?E5; done. Qed.

Lemma lru_release h s b s' : lru_inv h s -> (b < nbuf)%nat -> brelse pid b s = Ret tt s' ->
  lru_inv (if b_refcnt (bufs s' b) =? 0 then b :: h else h) s'.
Proof.
  intros Hi Hb E. destruct (brelse_eq h s b s' Hi E) as [El Ef]. pose proof Hi as [L R B].
  set (x := with_refcnt _ _) in Ef. set (f := upd (bufs s) b x) in Ef.
  assert (buf_free x) as Hx by (split; cbn; [done|apply u32_range|done]).
  assert (forall i, buf_free (f i)) as Hf by (intros i; unfold f, upd; case_decide; [done|apply B]).
  assert (ring f (recency h)) as Rf by (by apply ring_upd).
  assert (b_refcnt (bufs s' b) = b_refcnt x) as ->.
  { rewrite Ef. assert (b_refcnt (f b) = b_refcnt x) as Efb by (unfold f; by rewrite upd_eq).
    destruct (_ =? 0); [|done]. by destruct (relink_core b f b) as (_ & _ & _ & _ & -> & _). }
  destruct (b_refcnt x =? 0); split; rewrite ?Ef; try done.
  - cbn [recency]. by apply ring_move_front.
  - intros i. eapply core_free; [apply relink_core|done].
Qed.

Lemma lru_boot lk d w wk s : binit (mkBio lk (fun _ => zero_buf) d w wk) = Ret tt s -> lru_inv [] s.
Proof.
  unfold binit, bind, modify. cbn [obind]. intros E. injection E as <-. split; [done| |].
  - split; [vm_compute; tauto|]. symmetry. apply Permutation_rev.
  - assert (forall l f, (forall i, buf_free (f i)) -> forall i, buf_free (fold_left binit_step l f i)) as Hfold.
    { induction l as [|j l IH]; intros f Hf; [done|]. cbn. apply IH. intros i.
      unfold binit_step. cbv zeta. unfold upd. repeat case_decide; subst; try apply Hf; split; cbn; try done; apply Hf. }
    intros i. refine (Hfold (seq 0 nbuf) _ _ i). intros k. cbn. unfold upd. repeat case_decide; by split.
Qed.

Lemma cache_hist_inv h s : cache_hist h s -> lru_inv h s.
Proof.
  induction 1 as [|h s n b s' _ IH Hc E|h s b x s' _ IH E|h s b s' _ IH E|h s b s' _ IH Hc Hb E|h s b s' _ IH Hc E|h s b s' _ IH Hb E].
  - by eapply lru_boot.
  - by eapply lru_read.
  - injection E as <-. eapply (lru_one h s _ b); [done|apply IH|done|done|done|]. destruct (lr_bufs _ _ IH b). by split.
  - pose proof (bf_spin _ (lr_bufs _ _ IH b)) as Hsp. destruct (b_lock (bufs s b)) as [lk sp p] eqn:El. cbn in Hsp. subst sp.
    unfold bwrite, bind in E. rewrite (holdingsleep_eq (b_lockL b) pid s lk p El) in E. cbn in E. destruct (negb _); [done|].
    injection E as <-. by destruct IH.
  - pose proof (Hc b Hb). pose proof (bf_count _ (lr_bufs _ _ IH b)). eapply (lru_count h s b (fun r => u32 (r + 1))); [done| |exact E].
    cbn. rewrite u32_small by lia. lia.
  - pose proof (bf_count _ (lr_bufs _ _ IH b)). eapply (lru_count h s b (fun r => u32 (r - 1))); [done| |exact E].
    cbn. rewrite u32_small by lia. lia.
  - by apply lru_release with s.
Qed.

(** ** The choice of bget *)

(** The last buffer of a sorted ring that satisfies a test is after all the
    others that do. *)
Lemma find_rev_sorted (R : nat -> nat -> Prop) p l b : StronglySorted R l -> List.find p (rev l) = Some b ->
  b ∈ l /\ p b = true /\ forall i, i ∈ l -> p i = true -> i <> b -> R i b.
Proof.
  induction l as [|x l IH]; intros Hs Hf; [done|]. apply StronglySorted_inv in Hs as [Hs Hx]. cbn in Hf.
  rewrite find_app in Hf. destruct (List.find p (rev l)) as [c|] eqn:E.
  - injection Hf as ->. destruct (IH Hs eq_refl) as (H1 & H2 & H3). split; [by apply list_elem_of_further|]. split; [done|].
    intros i Hi Hp Hne. apply elem_of_cons in Hi as [->|Hi]; [|by apply H3]. rewrite Forall_forall in Hx. by apply Hx.
  - cbn in Hf. destruct (p x) eqn:Ex; [|done]. injection Hf as ->. split; [apply list_elem_of_here|]. split; [done|].
    intros i Hi Hp Hne. apply elem_of_cons in Hi as [->|Hi]; [done|]. exfalso.
    apply find_none with (x := i) in E; [congruence|]. by apply in_rev; rewrite rev_involutive; apply list_elem_of_In.
Qed.
End Lru.

Definition is_cached (s : bio) (n : Z) (i : nat) : Prop :=
  (i < nbuf)%nat /\ b_dev (bufs s i) = ROOTDEV /\ b_blockno (bufs s i) = n.
Definition is_spare (s : bio) (i : nat) : Prop := (i < nbuf)%nat /\ b_refcnt (bufs s i) = 0.

(** C20: the replacement policy.  After any history of the cache, with [h]
    the releases that left a buffer unreferenced, bget panics exactly when
    the block is not cached and every buffer is referenced.  When the block is
    not cached and some buffer is unreferenced, bget returns one of these,
    claimed for the block, and it is the one least recently used: every other
    unreferenced buffer was released for the last time after it.  When the
    block is cached, a buffer that holds it is all bget can return. *)
Theorem bget_lru pid h s n : cache_hist pid h s ->
  (bget pid ROOTDEV n s = Panic "bget: no buffers" <->
     (forall i, ~ is_cached s n i) /\ (forall i, ~ is_spare s i)) /\
  ((forall i, ~ is_cached s n i) -> (exists i, is_spare s i) ->
     exists b s', bget pid ROOTDEV n s = Ret b s' /\ is_spare s b /\
       (forall i, is_spare s i -> i <> b -> used_after h i b) /\
       is_cached s' n b /\ b_refcnt (bufs s' b) = 1) /\
  ((exists i, is_cached s n i) -> forall b s', bget pid ROOTDEV n s = Ret b s' -> is_cached s n b).
Proof.
  intros Hh. apply cache_hist_inv in Hh as Hi. pose proof Hi as [L R B].
  rewrite (bget_scan pid s _ n L R).
  destruct (List.find (is_block (bufs s) ROOTDEV n) (recency h)) as [c|] eqn:Ec.
  - assert (is_cached s n c) as Hc.
    { apply find_some in Ec as [Hin Hu]. apply list_elem_of_In, (ring_mem _ _ c R) in Hin.
      unfold is_block in Hu. rewrite andb_true_iff, !Z.eqb_eq in Hu. by split. }
    destruct (bget_claim_cases pid h s c (fun x => with_refcnt (u32 (b_refcnt x + 1)) x) Hi eq_refl)
      as [[_ ->]|(ch & s1 & k & ->)]; (split; [split; [done|intros [Hno _]; by destruct (Hno c)]|]);
      (split; [intros Hno; by destruct (Hno c)|]); intros _ b s'; [by intros [= <- _]|done].
  - assert (forall i, ~ is_cached s n i) as Hno.
    { intros i (Hlt & Hd & Hb). by apply (find_block_none s _ n i R Ec Hlt Hd). }
    assert (forall i, is_spare s i <-> i ∈ recency h /\ is_unused (bufs s) i = true) as Hsp.
    { intros i. unfold is_spare, is_unused. by rewrite (ring_mem _ _ i R), Z.eqb_eq. }
    destruct (List.find (is_unused (bufs s)) (rev (recency h))) as [b|] eqn:Eu.
    + destruct (find_rev_sorted _ _ _ _ (recency_sorted h) Eu) as (Hb & Hub & Hold).
      assert (is_spare s b) as Hbs by (by apply Hsp).
      assert (sl_locked (b_lock (bufs s b)) = false) as Hul by (apply (B b), Hbs).
      match goal with |- context [bget_claim pid b ?f _] => 
        destruct (bget_claim_cases pid h s b f Hi eq_refl) as [[_ E]|(ch & s1 & k & E)] end; rewrite E.
      * split; [split; [done|intros [_ Hn]; by destruct (Hn b)]|]. split; [|intros [i Hx]; by destruct (Hno i)].
        intros _ _. eexists b, _. split; [done|]. split; [done|]. split.
        { intros i Hx Hne. apply Hsp in Hx as [Hx1 Hx2]. by apply Hold. }
        unfold is_cached, claimed. cbn. rewrite upd_eq. split; [|done]. split; [apply Hbs|done].
      * exfalso. pose proof (bf_spin _ (B b)) as Hs. destruct (b_lock (bufs s b)) as [lk sp p] eqn:El. cbn in Hul, Hs. subst lk sp.
        rewrite (bget_claim_free pid s b _ p) in E; done.
    + assert (forall i, ~ is_spare s i) as Hns.
      { intros i Hx. apply Hsp in Hx as [Hx1 Hx2]. apply find_none with (x := i) in Eu; [congruence|].
        by apply in_rev; rewrite rev_involutive; apply list_elem_of_In. }
      split; [done|]. split; [intros _ [i Hx]; by destruct (Hns i)|intros [i Hx]; by destruct (Hno i)].
Qed.

(** ** A history

    Blocks 100 to 129 fill the cache, 100 is read again, and block 200 takes
    the buffer of 101. *)
Example lru_example :
  match bops_run 1 ((BRead <$> seqZ 100 30) ++ [BRead 100]) Bio.booted with
  | Ret _ s => match bget 1 ROOTDEV 200 s with Ret b _ => b_blockno (bufs s b) | _ => 0 end
  | _ => 0
  end = 101.
Proof. vm_compute. reflexivity. Qed.

(** Two buffers in use at once, released in the other order. *)
Module LruWitness.
Definition s0 : bio := state_or (boot_bio (fun n => [n])) (binit (boot_bio (fun n => [n]))).
Definition s1 : bio := state_or s0 (bread 1 ROOTDEV 5 s0).
Definition s2 : bio := state_or s0 (bread 1 ROOTDEV 6 s1).
Definition s3 : bio := state_or s0 (brelse 1 1 s2).
Definition s4 : bio := state_or s0 (brelse 1 0 s3).

Lemma ret_val {S A} (d : S) (o : outcome S A) a :
  match o with Ret b _ => b = a | _ => False end -> o = Ret a (state_or d o).
Proof. destruct o; cbn; congruence || done. Qed.

Lemma counts s : forallb (fun i => b_refcnt (bufs s i) <? 9) (seq 0 nbuf) = true -> counts_ok s.
Proof.
  intros H i Hi. rewrite forallb_forall in H. specialize (H i). rewrite in_seq, Z.ltb_lt in H.
  specialize (H ltac:(lia)). lia.
Qed.

Lemma hist4 : cache_hist 1 [0; 1]%nat s4.
Proof.
  assert (cache_hist 1 [] s2) as H2.
  { apply (ch_read 1 [] s1 6 1); [|apply counts; vm_compute; reflexivity|apply ret_val; vm_compute; reflexivity].
    apply (ch_read 1 [] s0 5 0); [|apply counts; vm_compute; reflexivity|apply ret_val; vm_compute; reflexivity].
    apply (ch_boot 1 false (fun n => [n]) [] []). apply ret_eta. vm_compute. reflexivity. }
  assert (cache_hist 1 [1]%nat s3) as H3.
  { refine (ch_release 1 [] s2 1 s3 H2 _ _); [vm_compute; lia|apply ret_eta; vm_compute; reflexivity]. }
  refine (ch_release 1 [1]%nat s3 0 s4 H3 _ _); [vm_compute; lia|apply ret_eta; vm_compute; reflexivity].
Qed.

Lemma bget_lru_witness :
  (bget 1 ROOTDEV 9 s4 = Panic "bget: no buffers" <->
     (forall i, ~ is_cached s4 9 i) /\ (forall i, ~ is_spare s4 i)) /\
  ((forall i, ~ is_cached s4 9 i) -> (exists i, is_spare s4 i) ->
     exists b s', bget 1 ROOTDEV 9 s4 = Ret b s' /\ is_spare s4 b /\
       (forall i, is_spare s4 i -> i <> b -> used_after [0; 1]%nat i b) /\
       is_cached s' 9 b /\ b_refcnt (bufs s' b) = 1) /\
  ((exists i, is_cached s4 9 i) -> forall b s', bget 1 ROOTDEV 9 s4 = Ret b s' -> is_cached s4 9 b).
Proof. apply (bget_lru 1 [0; 1]%nat s4 9). exact hist4. Defined.
End LruWitness.
