(* ===== verification/Log.v ===== *)
(** * kernel/log.c: the write-ahead log

    The in-memory log, the routines of log.c on top of the buffer cache, and
    the crash argument: a crash leaves on the disk a prefix of the completed
    block writes, and recovery turns any such disk into the one before or the
    one after the transaction. *)

From Stdlib Require Import ZArith Lia FunctionalExtensionality.
From stdpp Require Import gmap.
From S2P Require Import Prelude Mem Params Sleeplock Bio.

(** struct log with the in-memory header; [lh_block] is the array
    [lh.block], whose indices below LOGBLOCKS the code stays within. *)
Record log := mkLog {
  log_lock : spinlock;
  log_start : Z;
  log_outstanding : Z;
  log_committing : bool;
  log_dev : Z;
  lh_n : Z;
  lh_block : Z -> Z;
  lbio : bio;
}.

Definition log_lockL : lens log spinlock :=
  Lens log_lock (fun b s => mkLog b (log_start s) (log_outstanding s) (log_committing s)
                                  (log_dev s) (lh_n s) (lh_block s) (lbio s)).
Definition lbioL : lens log bio :=
  Lens lbio (fun b s => mkLog (log_lock s) (log_start s) (log_outstanding s) (log_committing s)
                              (log_dev s) (lh_n s) (lh_block s) b).
Definition l_wokenL : lens log (list chan) := lcomp lbioL b_wokenL.
Definition set_outstanding (x : Z) (s : log) : log :=
  mkLog (log_lock s) (log_start s) x (log_committing s) (log_dev s) (lh_n s) (lh_block s) (lbio s).
Definition set_committing (x : bool) (s : log) : log :=
  mkLog (log_lock s) (log_start s) (log_outstanding s) x (log_dev s) (lh_n s) (lh_block s) (lbio s).
Definition set_lh_n (x : Z) (s : log) : log :=
  mkLog (log_lock s) (log_start s) (log_outstanding s) (log_committing s) (log_dev s) x (lh_block s) (lbio s).
Definition set_lh_block (i x : Z) (s : log) : log :=
  mkLog (log_lock s) (log_start s) (log_outstanding s) (log_committing s) (log_dev s) (lh_n s)
        (upd (lh_block s) i x) (lbio s).

(** struct logheader in a block: the count, then the block numbers. *)
Definition sizeof_logheader : Z := 4 + 4 * LOGBLOCKS.
Definition hdr_n (d : list Z) : Z := i32 (getf 4 0 d).
Definition hdr_block (i : Z) (d : list Z) : Z := i32 (getf 4 (Z.to_nat (4 + 4 * i)) d).
Definition put_hdr_n (v : Z) (d : list Z) : list Z := putf 4 0 v d.
Definition put_hdr_block (i v : Z) (d : list Z) : list Z := putf 4 (Z.to_nat (4 + 4 * i)) v d.

Section Ops.
Context (pid : Z).

Definition cached {A} (m : M bio A) : M log A := zoom lbioL m.
Definition lbread (blockno : log -> Z) : M log nat :=
  let* dev := gets (fun s => u32 (log_dev s)) in
  let* b := gets blockno in
  cached (bread pid dev b).

(** One iteration of install_trans. *)
Definition install_step (recovering : bool) (tail : Z) : M log unit :=
  let* lbuf := lbread (fun s => u32 (log_start s + tail + 1)) in
  let* dbuf := lbread (fun s => u32 (lh_block s tail)) in
  let* d := gets (fun s => get_data lbuf (lbio s)) in
  cached (set_data dbuf d) ;;
  cached (bwrite pid dbuf) ;;
  when (negb recovering) (cached (bunpin dbuf)) ;;
  cached (brelse pid lbuf) ;;
  cached (brelse pid dbuf).

Definition install_trans (recovering : bool) : M log unit :=
  let* n := gets lh_n in
  for_range (Z.to_nat n) 0 (install_step recovering).

Definition read_head : M log unit :=
  let* buf := lbread (fun s => u32 (log_start s)) in
  let* d := gets (fun s => get_data buf (lbio s)) in
  modify (set_lh_n (hdr_n d)) ;;
  let* n := gets lh_n in
  for_range (Z.to_nat n) 0 (fun i => modify (set_lh_block i (hdr_block i d))) ;;
  cached (brelse pid buf).

Definition put_data (buf : nat) (f : list Z -> list Z) : M bio unit :=
  let* d := gets (get_data buf) in set_data buf (f d).

Definition write_head : M log unit :=
  let* buf := lbread (fun s => u32 (log_start s)) in
  let* n := gets lh_n in
  cached (put_data buf (put_hdr_n n)) ;;
  for_range (Z.to_nat n) 0 (fun i =>
    let* b := gets (fun s => lh_block s i) in
    cached (put_data buf (put_hdr_block i b))) ;;
  cached (bwrite pid buf) ;;
  cached (brelse pid buf).

Definition recover_from_log : M log unit :=
  read_head ;;
  install_trans true ;;
  modify (set_lh_n 0) ;;
  write_head.

(** [sb] is the superblock's logstart field. *)
Definition initlog (dev sb_logstart : Z) : M log unit :=
  if BSIZE <=? sizeof_logheader then panic "initlog: too big logheader" else
  modify (put log_lockL false) ;;
  modify (fun s => mkLog (log_lock s) sb_logstart (log_outstanding s) (log_committing s)
                         dev (lh_n s) (lh_block s) (lbio s)) ;;
  recover_from_log.

(** [fuel]: how often the caller is woken before it gets its turn. *)
Definition begin_op (fuel : nat) : M log unit :=
  acquire log_lockL ;;
  loop fuel (fun _ : unit =>
    let* s := gets id in
    if log_committing s then sleep ChLog log_lockL ;; ret (inl tt)
    else if LOGBLOCKS <? lh_n s + (log_outstanding s + 1) * MAXOPBLOCKS
    then sleep ChLog log_lockL ;; ret (inl tt)
    else
      modify (set_outstanding (log_outstanding s + 1)) ;;
      release log_lockL ;;
      ret (inr tt)) tt.

Definition write_log_step (tail : Z) : M log unit :=
  let* to := lbread (fun s => u32 (log_start s + tail + 1)) in
  let* from := lbread (fun s => u32 (lh_block s tail)) in
  let* d := gets (fun s => get_data from (lbio s)) in
  cached (set_data to d) ;;
  cached (bwrite pid to) ;;
  cached (brelse pid from) ;;
  cached (brelse pid to).

Definition write_log : M log unit :=
  let* n := gets lh_n in
  for_range (Z.to_nat n) 0 write_log_step.

Definition commit : M log unit :=
  let* n := gets lh_n in
  when (0 <? n)
    (write_log ;;
     write_head ;;
     install_trans false ;;
     modify (set_lh_n 0) ;;
     write_head).

Definition end_op : M log unit :=
  acquire log_lockL ;;
  modify (fun s => set_outstanding (log_outstanding s - 1) s) ;;
  let* s := gets id in
  if log_committing s then panic "log.committing" else
  let do_commit := log_outstanding s =? 0 in
  (if do_commit then modify (set_committing true) else wakeup l_wokenL ChLog) ;;
  release log_lockL ;;
  when do_commit
    (commit ;;
     acquire log_lockL ;;
     modify (set_committing false) ;;
     wakeup l_wokenL ChLog ;;
     release log_lockL).

(** The index at which log_write records the block: that of the block if it
    is already in the transaction, else the first free one. *)
Fixpoint log_slot (block : Z -> Z) (blockno : Z) (i : Z) (n : nat) : Z :=
  match n with
  | O => i
  | S n => if u32 (block i) =? blockno then i else log_slot block blockno (i + 1) n
  end.

Definition log_write (b : nat) : M log unit :=
  acquire log_lockL ;;
  let* s := gets id in
  if LOGBLOCKS <=? lh_n s then panic "too big a transaction" else
  if log_outstanding s <? 1 then panic "log_write outside of trans" else
  let blockno := b_blockno (bufs (lbio s) b) in
  let i := log_slot (lh_block s) blockno 0 (Z.to_nat (lh_n s)) in
  modify (set_lh_block i (i32 blockno)) ;;
  when (i =? lh_n s)
    (cached (bpin b) ;; modify (fun s => set_lh_n (lh_n s + 1) s)) ;;
  release log_lockL.
End Ops.

(** ** Steps of the proofs about the cache *)

Section Steps.
Context (pid : Z).
Implicit Types (C : gmap Z hold) (s : log).

Lemma cache_rep_eq C C' c : cache_rep pid C c -> C = C' -> cache_rep pid C' c.
Proof. by intros ? <-. Qed.

Lemma cache_rep_woken C c w : cache_rep pid C c -> cache_rep pid C (put b_wokenL w c).
Proof. intros []. by split. Qed.

(** [s'] is [s] with another state of the block layer. *)
Definition bio_to s c : log := put lbioL c s.

Lemma wp_cached {A} (m : M bio A) Q s :
  wp m (fun a c => Q a (bio_to s c)) (lbio s) -> wp (cached m) Q s.
Proof. apply wp_zoom. Qed.

Lemma wp_lbread f Q s C : log_dev s = ROOTDEV -> cache_rep pid C (lbio s) -> readable C (f s) ->
  (forall b c, bread_post pid C (lbio s) (f s) b c -> Q b (bio_to s c)) ->
  wp (lbread pid f) Q s.
Proof.
  intros Hd HC Hr HQ. unfold lbread. wp_step. wp_step. wp_step. wp_step. rewrite Hd.
  apply wp_cached. eapply wp_mono; [by apply bread_spec|]. auto.
Qed.

Lemma wp_get_data {A} C s n h b (k : list Z -> M log A) Q : cache_rep pid C (lbio s) -> C !! n = Some h ->
  h_idx h = b -> wp (k (h_data h)) Q s ->
  wp (let* d := gets (fun s => get_data b (lbio s)) in k d) Q s.
Proof.
  intros HC Hn <- HQ. wp_step. wp_step. by rewrite (get_data_held pid C _ n).
Qed.

Lemma wp_set_data C s n h b d Q : cache_rep pid C (lbio s) -> C !! n = Some h -> h_idx h = b ->
  (forall c, cache_rep pid (<[n := mkHold b (h_ref h) (h_locked h) d]> C) c ->
     disk_same (lbio s) c -> Q tt (bio_to s c)) ->
  wp (cached (set_data b d)) Q s.
Proof.
  intros HC Hn <- HQ. apply wp_cached. eapply wp_mono; [by eapply set_data_spec|]. intros [] c []. auto.
Qed.

Lemma wp_bwrite C s n h b Q : cache_rep pid C (lbio s) -> C !! n = Some h -> h_idx h = b ->
  h_locked h = true ->
  (forall c, cache_rep pid C c -> disk c = upd (disk (lbio s)) n (h_data h) ->
     dwrites c = dwrites (lbio s) ++ [(n, h_data h)] -> Q tt (bio_to s c)) ->
  wp (cached (bwrite pid b)) Q s.
Proof.
  intros HC Hn <- Hl HQ. apply wp_cached. eapply wp_mono; [by eapply bwrite_spec|].
  intros [] c (? & ? & ?). auto.
Qed.

Lemma wp_brelse C s n h b Q : cache_rep pid C (lbio s) -> C !! n = Some h -> h_idx h = b ->
  h_locked h = true -> (h_ref h = 1 -> h_data h = disk (lbio s) n) ->
  (forall c, cache_rep pid (brelsed C n h) c -> disk_same (lbio s) c -> Q tt (bio_to s c)) ->
  wp (cached (brelse pid b)) Q s.
Proof.
  intros HC Hn <- Hl Hd HQ. apply wp_cached. eapply wp_mono; [by eapply brelse_spec|]. intros [] c []. auto.
Qed.

Lemma wp_bpin C s n h b Q : cache_rep pid C (lbio s) -> C !! n = Some h -> h_idx h = b ->
  h_ref h + 1 < 2 ^ 32 ->
  (forall c, cache_rep pid (<[n := mkHold b (h_ref h + 1) (h_locked h) (h_data h)]> C) c ->
     disk_same (lbio s) c -> Q tt (bio_to s c)) ->
  wp (cached (bpin b)) Q s.
Proof.
  intros HC Hn <- Hl HQ. apply wp_cached. eapply wp_mono; [by eapply bpin_spec|]. intros [] c []. auto.
Qed.

Lemma wp_bunpin C s n h b Q : cache_rep pid C (lbio s) -> C !! n = Some h -> h_idx h = b -> 1 < h_ref h ->
  (forall c, cache_rep pid (<[n := mkHold b (h_ref h - 1) (h_locked h) (h_data h)]> C) c ->
     disk_same (lbio s) c -> Q tt (bio_to s c)) ->
  wp (cached (bunpin b)) Q s.
Proof.
  intros HC Hn <- Hl HQ. apply wp_cached. eapply wp_mono; [by eapply bunpin_spec|]. intros [] c []. auto.
Qed.
Lemma wp_put_data C s n h b f Q : cache_rep pid C (lbio s) -> C !! n = Some h -> h_idx h = b ->
  (forall c, cache_rep pid (<[n := mkHold b (h_ref h) (h_locked h) (f (h_data h))]> C) c ->
     disk_same (lbio s) c -> Q tt (bio_to s c)) ->
  wp (cached (put_data b f)) Q s.
Proof.
  intros HC Hn <- HQ. apply wp_cached. unfold put_data. wp_step. wp_step.
  rewrite (get_data_held pid C _ n) by done.
  eapply wp_mono; [by eapply set_data_spec|]. intros [] c []. auto.
Qed.
End Steps.

(** Equality of maps built from one another by a few updates, and lookups
    in such maps. *)
Ltac map_tac :=
  apply map_eq; intros ?;
  repeat (rewrite lookup_insert || rewrite lookup_delete); repeat case_decide; subst; try congruence; auto.
Ltac map_look :=
  repeat first [rewrite lookup_insert_eq | rewrite lookup_insert_ne by congruence
               | rewrite lookup_delete_ne by congruence]; first [done | eassumption].
Ltac log_simp := cbn [bio_to lbioL put lbio h_data h_idx h_ref h_locked log_dev log_start lh_block lh_n].

(** One step of a proof about a sequence of cache operations: the side
    conditions are lookups in the logical cache. *)
Ltac cache_op rule n :=
  try wp_step; eapply (rule _ _ _ n); log_simp; [eassumption|map_look|reflexivity|..]; log_simp.
Ltac cache_get n :=
  eapply (wp_get_data _ _ _ n); log_simp; [eassumption|map_look|reflexivity|]; log_simp.

Section Loops.
Context (pid : Z).
Implicit Types (C : gmap Z hold) (s : log).

Definition blk_ok (n : Z) : Prop := 0 <= n < 2 ^ 31.

Lemma blk_u32 n : blk_ok n -> u32 n = n.
Proof. unfold blk_ok. intros. apply u32_small. lia. Qed.

(** A block that is in the cache, not locked, referenced at least by the
    log's pin. *)
Definition pinned C (n : Z) (h : hold) : Prop :=
  C !! n = Some h /\ h_locked h = false /\ h_ref h + 1 < 2 ^ 32.

Lemma write_log_step_spec C s tail L n h :
  log_dev s = ROOTDEV -> cache_rep pid C (lbio s) -> (size C < nbuf)%nat ->
  log_start s + tail + 1 = L -> blk_ok L -> C !! L = None ->
  lh_block s tail = n -> blk_ok n -> pinned C n h ->
  wp (write_log_step pid tail) (fun _ s' => exists c, s' = bio_to s c /\ cache_rep pid C c /\
    disk c = upd (disk (lbio s)) L (h_data h) /\
    dwrites c = dwrites (lbio s) ++ [(L, h_data h)]) s.
Proof.
  intros Hdev HC Hsz HL BL NL Hn Bn (Pn & Pl & Pr). assert (0 < h_ref h) as Pos.
  { apply (cr_hold _ _ _ HC) in Pn as [_ Hh]. apply Hh. }
  assert (L <> n) as Hne by congruence.
  unfold write_log_step. apply wp_bind. apply (wp_lbread pid _ _ _ C); [done|done| |].
  { rewrite HL, blk_u32 by done. unfold readable. by rewrite NL. }
  rewrite HL, blk_u32 by done. unfold bread_post, refs, contents. rewrite NL.
  intros to c1 (_ & _ & H1 & D1 & W1).
  assert (<[L:=mkHold to (0 + 1) true (disk (lbio s) L)]> C !! n = Some h) as E1 by map_look.
  apply wp_bind. eapply (wp_lbread pid); [done|exact H1| |]; log_simp; rewrite Hn, blk_u32 by done;
    unfold readable, bread_post, refs, contents; rewrite E1; [done|].
  intros from c2 (Hf & _ & H2 & D2 & W2). specialize (Hf h eq_refl). subst from.
  cache_get n.
  cache_op wp_set_data L. intros c3 H3 [D3 W3].
  cache_op wp_bwrite L; [done|]. intros c4 H4 D4 W4.
  cache_op wp_brelse n; [done|lia|]. unfold brelsed. log_simp. bsimp. intros c5 H5 [D5 W5].
  cache_op wp_brelse L; [done| |]; log_simp.
  { intros _. rewrite D5, D4. by rewrite upd_eq. }
  unfold brelsed. log_simp. bsimp. intros c6 H6 [D6 W6].
  exists c6. split; [done|]. split.
  - eapply cache_rep_eq; [exact H6|]. map_tac. replace (h_ref h + 1 - 1) with (h_ref h) by lia.
    rewrite Pn, <- Pl. by destruct h.
  - rewrite D6, D5, D4, D3, D2, D1, W6, W5, W4, W3, W2, W1. done.
Qed.

Definition unpinned C (n : Z) (h : hold) : gmap Z hold :=
  if h_ref h =? 1 then delete n C else <[n := mkHold (h_idx h) (h_ref h - 1) false (h_data h)]> C.

(** Installing a block of the transaction that is being committed. *)
Lemma install_step_commit C s tail L n h :
  log_dev s = ROOTDEV -> cache_rep pid C (lbio s) -> (size C < nbuf)%nat ->
  log_start s + tail + 1 = L -> blk_ok L -> C !! L = None ->
  lh_block s tail = n -> blk_ok n -> pinned C n h -> disk (lbio s) L = h_data h ->
  wp (install_step pid false tail) (fun _ s' => exists c, s' = bio_to s c /\
    cache_rep pid (unpinned C n h) c /\ disk c = upd (disk (lbio s)) n (h_data h) /\
    dwrites c = dwrites (lbio s) ++ [(n, h_data h)]) s.
Proof.
  intros Hdev HC Hsz HL BL NL Hn Bn (Pn & Pl & Pr) HD. assert (0 < h_ref h) as Pos.
  { apply (cr_hold _ _ _ HC) in Pn as [_ Hh]. apply Hh. }
  assert (L <> n) as Hne by congruence.
  unfold install_step. apply wp_bind. apply (wp_lbread pid _ _ _ C); [done|done| |].
  { rewrite HL, blk_u32 by done. unfold readable. by rewrite NL. }
  rewrite HL, blk_u32 by done. unfold bread_post, refs, contents. rewrite NL.
  intros lb c1 (_ & _ & H1 & D1 & W1).
  assert (<[L:=mkHold lb (0 + 1) true (disk (lbio s) L)]> C !! n = Some h) as E1 by map_look.
  apply wp_bind. eapply (wp_lbread pid); [done|exact H1| |]; log_simp; rewrite Hn, blk_u32 by done;
    unfold readable, bread_post, refs, contents; rewrite E1; [done|].
  intros db c2 (Hf & _ & H2 & D2 & W2). specialize (Hf h eq_refl). subst db.
  cache_get L. rewrite HD.
  cache_op wp_set_data n. intros c3 H3 [D3 W3].
  cache_op wp_bwrite n; [done|]. intros c4 H4 D4 W4.
  wp_step. apply wp_when; [intros _|done].
  cache_op wp_bunpin n; [lia|]. intros c5 H5 [D5 W5].
  cache_op wp_brelse L; [done| |]; log_simp.
  { intros _. rewrite D5, D4, D3, D2, D1, HD. by rewrite upd_ne. }
  unfold brelsed at 1. log_simp. bsimp. intros c6 H6 [D6 W6].
  cache_op wp_brelse n; [done| |]; log_simp.
  { intros _. rewrite D6, D5, D4. by rewrite upd_eq. }
  unfold brelsed. log_simp. intros c7 H7 [D7 W7].
  exists c7. split; [done|]. split.
  - eapply cache_rep_eq; [exact H7|]. unfold unpinned. replace (h_ref h + 1 - 1) with (h_ref h) by lia.
    destruct (h_ref h =? 1); map_tac.
  - rewrite D7, D6, D5, D4, D3, D2, D1, W7, W6, W5, W4, W3, W2, W1. done.
Qed.

(** Installing a block during recovery: nothing is pinned. *)
Lemma install_step_recover C s tail L n :
  log_dev s = ROOTDEV -> cache_rep pid C (lbio s) -> (size C + 1 < nbuf)%nat ->
  log_start s + tail + 1 = L -> blk_ok L -> C !! L = None ->
  lh_block s tail = n -> blk_ok n -> C !! n = None -> L <> n ->
  wp (install_step pid true tail) (fun _ s' => exists c, s' = bio_to s c /\
    cache_rep pid C c /\ disk c = upd (disk (lbio s)) n (disk (lbio s) L)) s.
Proof.
  intros Hdev HC Hsz HL BL NL Hn Bn Nn Hne.
  unfold install_step. apply wp_bind. apply (wp_lbread pid _ _ _ C); [done|done| |].
  { rewrite HL, blk_u32 by done. unfold readable. rewrite NL. lia. }
  rewrite HL, blk_u32 by done. unfold bread_post, refs, contents. rewrite NL.
  intros lb c1 (_ & _ & H1 & D1 & W1).
  assert (<[L:=mkHold lb (0 + 1) true (disk (lbio s) L)]> C !! n = None) as E1 by map_look.
  apply wp_bind. eapply (wp_lbread pid); [done|exact H1| |]; log_simp; rewrite Hn, blk_u32 by done;
    unfold readable, bread_post, refs, contents; rewrite E1.
  { rewrite map_size_insert_None by done. lia. }
  intros db c2 (_ & _ & H2 & D2 & W2).
  cache_get L.
  cache_op wp_set_data n. intros c3 H3 [D3 W3].
  cache_op wp_bwrite n; [done|]. intros c4 H4 D4 W4.
  wp_step. apply wp_when; [done|intros _].
  cache_op wp_brelse L; [done| |]; log_simp.
  { intros _. rewrite D4, D3, D2, D1. by rewrite upd_ne. }
  unfold brelsed at 1. log_simp. bsimp. intros c6 H6 [D6 W6].
  cache_op wp_brelse n; [done| |]; log_simp.
  { intros _. rewrite D6, D4. by rewrite upd_eq. }
  unfold brelsed. log_simp. bsimp. intros c7 H7 [D7 W7].
  exists c7. split; [done|]. split.
  - eapply cache_rep_eq; [exact H7|]. map_tac.
  - rewrite D7, D6, D4, D3, D2, D1. done.
Qed.

(** The header block write_head produces from the old one. *)
Fixpoint enc_blocks (blk : Z -> Z) (d : list Z) (k : nat) : list Z :=
  match k with
  | O => d
  | S k => put_hdr_block (Z.of_nat k) (blk (Z.of_nat k)) (enc_blocks blk d k)
  end.
Definition enc_head (n : Z) (blk : Z -> Z) (d : list Z) : list Z :=
  enc_blocks blk (put_hdr_n n d) (Z.to_nat n).

Lemma write_head_spec C s H :
  log_dev s = ROOTDEV -> cache_rep pid C (lbio s) -> (size C < nbuf)%nat ->
  log_start s = H -> blk_ok H -> C !! H = None -> 0 <= lh_n s ->
  let d := enc_head (lh_n s) (lh_block s) (disk (lbio s) H) in
  wp (write_head pid) (fun _ s' => exists c, s' = bio_to s c /\ cache_rep pid C c /\
    disk c = upd (disk (lbio s)) H d /\ dwrites c = dwrites (lbio s) ++ [(H, d)]) s.
Proof.
  intros Hdev HC Hsz HL BL NL Hn d. unfold write_head. apply wp_bind.
  apply (wp_lbread pid _ _ _ C); [done|done| |]; rewrite HL, blk_u32 by done.
  { unfold readable. by rewrite NL. }
  unfold bread_post, refs, contents. rewrite NL. intros b c1 (_ & _ & H1 & D1 & W1).
  wp_step. wp_step. cache_op wp_put_data H. intros c2 H2 [D2 W2]. rewrite insert_insert_eq in H2.
  wp_step. eapply wp_mono.
  { eapply (wp_for_range (fun i s' => exists c, s' = bio_to s c /\
      cache_rep pid (<[H := mkHold b 1 true (enc_blocks (lh_block s)
        (put_hdr_n (lh_n s) (disk (lbio s) H)) (Z.to_nat i))]> C) c /\ disk_same (lbio s) c)).
    - exists c2. split; [done|]. split; [done|]. split; congruence.
    - intros j s' Hj (c & -> & Hc & Dc & Wc). wp_step. wp_step. cache_op wp_put_data H.
      intros c' Hc' [Dc' Wc']. exists c'. split; [done|]. rewrite insert_insert_eq in Hc'. split.
      + replace (Z.to_nat (j + 1)) with (S (Z.to_nat j)) by lia. cbn [enc_blocks].
        rewrite Z2Nat.id by lia. done.
      + split; congruence. }
  cbn beta. intros [] s' (c3 & -> & H3 & D3 & W3).
  replace (Z.to_nat (0 + Z.of_nat (Z.to_nat (lh_n s)))) with (Z.to_nat (lh_n s)) in H3 by lia.
  cache_op wp_bwrite H; [done|]. intros c4 H4 D4 W4.
  cache_op wp_brelse H; [done| |]; log_simp.
  { intros _. rewrite D4. by rewrite upd_eq. }
  unfold brelsed. log_simp. bsimp. intros c5 H5 [D5 W5].
  exists c5. split; [done|]. split.
  - eapply cache_rep_eq; [exact H5|]. map_tac.
  - rewrite D5, D4, D3, W5, W4, W3. done.
Qed.
End Loops.

(** ** Disks and sequences of block writes *)

Definition apply_writes (d : Z -> list Z) (ws : list (Z * list Z)) : Z -> list Z :=
  foldl (fun d w => upd d w.1 w.2) d ws.

Lemma apply_writes_app d ws ws' : apply_writes d (ws ++ ws') = apply_writes (apply_writes d ws) ws'.
Proof. apply foldl_app. Qed.
Lemma apply_writes_notin ws : forall d n, n ∉ ws.*1 -> apply_writes d ws n = d n.
Proof.
  induction ws as [|w ws IH]; intros d n Hn; [done|]. cbn in *. apply not_elem_of_cons in Hn as [H1 H2].
  rewrite IH by done. by rewrite upd_ne.
Qed.
Lemma apply_writes_in ws : forall d i n x, NoDup ws.*1 -> ws !! i = Some (n, x) -> apply_writes d ws n = x.
Proof.
  induction ws as [|w ws IH]; intros d i n x Hnd Hi; [done|]. cbn in *. apply NoDup_cons in Hnd as [Hw Hnd].
  destruct i as [|i]; cbn in Hi; [|by eapply IH]. simplify_eq. cbn in *.
  rewrite apply_writes_notin by done. by rewrite upd_eq.
Qed.

(** The log block of the [i]-th block of a transaction, and the writes that
    fill the log and that install it. *)
Definition slot (start : Z) (i : nat) : Z := start + Z.of_nat i + 1.
Definition log_writes (start : Z) (f : Z -> list Z) (bs : list Z) : list (Z * list Z) :=
  imap (fun i b => (slot start i, f b)) bs.
Definition home_writes (f : Z -> list Z) (bs : list Z) : list (Z * list Z) := (fun b => (b, f b)) <$> bs.

Definition in_log (start n : Z) : Prop := start <= n <= start + LOGBLOCKS.

Record txn_ok (start : Z) (bs : list Z) : Prop := {
  tx_start : 0 <= start /\ start + LOGBLOCKS < 2 ^ 31;
  tx_len : Z.of_nat (length bs) <= LOGBLOCKS;
  tx_blk : forall b, b ∈ bs -> blk_ok b /\ ~ in_log start b;
  tx_nodup : NoDup bs;
}.

Section Pure.
Context (start : Z) (f : Z -> list Z) (bs : list Z) (Hok : txn_ok start bs).

Lemma slot_in_log i : (i < length bs)%nat -> in_log start (slot start i) /\ slot start i <> start.
Proof. pose proof (tx_len _ _ Hok). unfold in_log, slot. lia. Qed.
Lemma slot_ok i : (i < length bs)%nat -> blk_ok (slot start i).
Proof. intros Hi. pose proof (tx_start _ _ Hok). pose proof (tx_len _ _ Hok). unfold blk_ok, slot. lia. Qed.
Lemma start_ok : blk_ok start.
Proof. pose proof (tx_start _ _ Hok). unfold blk_ok, LOGBLOCKS, MAXOPBLOCKS in *. lia. Qed.

Lemma log_writes_keys : (log_writes start f bs).*1 = slot start <$> seq 0 (length bs).
Proof.
  unfold log_writes. apply list_eq. intros i. rewrite !list_lookup_fmap, list_lookup_imap.
  destruct (decide (i < length bs)%nat) as [Hi|Hi].
  - destruct (lookup_lt_is_Some_2 bs i Hi) as [b ->]. cbn. by rewrite lookup_seq_lt.
  - rewrite (lookup_ge_None_2 bs), lookup_seq_ge by lia. done.
Qed.
Lemma log_writes_in_log n : n ∈ (log_writes start f bs).*1 -> in_log start n /\ n <> start.
Proof.
  rewrite log_writes_keys. intros Hn. apply list_elem_of_fmap in Hn as (i & -> & Hi).
  apply elem_of_seq in Hi. apply slot_in_log. lia.
Qed.
Lemma log_writes_slot d i b : bs !! i = Some b ->
  apply_writes d (log_writes start f bs) (slot start i) = f b.
Proof.
  intros Hi. eapply (apply_writes_in _ _ i).
  - rewrite log_writes_keys. apply NoDup_fmap_2; [|apply NoDup_seq]. intros x y. unfold slot. lia.
  - unfold log_writes. by rewrite list_lookup_imap, Hi.
Qed.
Lemma home_writes_keys : (home_writes f bs).*1 = bs.
Proof. unfold home_writes. rewrite <- list_fmap_compose. apply list_fmap_id. Qed.
Lemma home_writes_in d b : b ∈ bs -> apply_writes d (home_writes f bs) b = f b.
Proof.
  intros Hb. apply list_elem_of_lookup in Hb as [i Hi]. eapply (apply_writes_in _ _ i).
  - rewrite home_writes_keys. apply Hok.
  - unfold home_writes. by rewrite list_lookup_fmap, Hi.
Qed.
Lemma home_writes_out d n : n ∉ bs -> apply_writes d (home_writes f bs) n = d n.
Proof. intros. apply apply_writes_notin. by rewrite home_writes_keys. Qed.
End Pure.

(** ** The header round trip *)

Lemma length_enc_blocks blk d k : (4 + 4 * k <= length d)%nat -> length (enc_blocks blk d k) = length d.
Proof.
  induction k as [|k IH]; intros Hk; [done|]. cbn [enc_blocks]. unfold put_hdr_block.
  rewrite length_putf; rewrite IH; lia.
Qed.

Lemma enc_blocks_n blk d k : (4 + 4 * k <= length d)%nat -> hdr_n (enc_blocks blk d k) = hdr_n d.
Proof.
  induction k as [|k IH]; intros Hk; [done|]. cbn [enc_blocks]. rewrite <- IH by lia.
  unfold hdr_n, put_hdr_block. rewrite getf_putf_other; [done| |lia]. rewrite length_enc_blocks; lia.
Qed.

Lemma enc_blocks_block blk d k : (4 + 4 * k <= length d)%nat ->
  forall i, (i < k)%nat -> blk_ok (blk (Z.of_nat i)) ->
  hdr_block (Z.of_nat i) (enc_blocks blk d k) = blk (Z.of_nat i).
Proof.
  induction k as [|k IH]; intros Hk i Hi Hb; [lia|]. cbn [enc_blocks].
  assert (length (enc_blocks blk d k) = length d) as Hl by (apply length_enc_blocks; lia).
  unfold hdr_block, put_hdr_block. destruct (decide (i = k)) as [->|Hne].
  - rewrite getf_putf_same by lia. unfold blk_ok in Hb. rewrite Z.mod_small by (cbn; lia).
    apply i32_small. lia.
  - rewrite getf_putf_other by lia. apply IH; [lia|lia|done].
Qed.

Lemma enc_head_n n blk d : 0 <= n <= LOGBLOCKS -> length d = Z.to_nat BSIZE -> hdr_n (enc_head n blk d) = n.
Proof.
  unfold LOGBLOCKS, MAXOPBLOCKS, BSIZE. intros Hn Hd. unfold enc_head, put_hdr_n.
  rewrite enc_blocks_n by (rewrite length_putf; lia). unfold hdr_n.
  rewrite getf_putf_same by lia. rewrite Z.mod_small by (cbn; lia). apply i32_small. lia.
Qed.

Lemma enc_head_block n blk d i : 0 <= n <= LOGBLOCKS -> length d = Z.to_nat BSIZE ->
  (Z.of_nat i < n) -> blk_ok (blk (Z.of_nat i)) ->
  hdr_block (Z.of_nat i) (enc_head n blk d) = blk (Z.of_nat i).
Proof.
  unfold LOGBLOCKS, MAXOPBLOCKS, BSIZE. intros Hn Hd Hi Hb. unfold enc_head, put_hdr_n.
  apply enc_blocks_block; [rewrite length_putf; lia|lia|done].
Qed.

Lemma length_enc_head n blk d : 0 <= n <= LOGBLOCKS -> length d = Z.to_nat BSIZE ->
  length (enc_head n blk d) = Z.to_nat BSIZE.
Proof.
  unfold LOGBLOCKS, MAXOPBLOCKS, BSIZE. intros Hn Hd. unfold enc_head, put_hdr_n.
  rewrite length_enc_blocks; rewrite length_putf; lia.
Qed.

(** ** The loops *)

(** ** Whole blocks *)

(** A whole block of bytes. *)
Definition block_ok (d : list Z) : Prop := length d = Z.to_nat BSIZE /\ Forall byte_ok d.
Lemma putf_ok n off v d : (off + n <= Z.to_nat BSIZE)%nat -> block_ok d -> block_ok (putf n off v d).
Proof. intros Ho [Hl Hb]. split; [by rewrite length_putf by lia|by apply putf_bytes]. Qed.
Lemma enc_head_ok n blk d : 0 <= n <= LOGBLOCKS -> block_ok d -> block_ok (enc_head n blk d).
Proof.
  intros Hn Hd. split; [apply length_enc_head; [done|apply Hd]|]. unfold enc_head. generalize (Z.to_nat n) as k.
  induction k as [|k IH]; cbn [enc_blocks]; [|by apply putf_bytes]. unfold put_hdr_n. apply putf_bytes, Hd.
Qed.
Lemma apply_writes_ok ws : forall d, (forall n, block_ok (d n)) -> Forall (fun w => block_ok w.2) ws -> forall n, block_ok (apply_writes d ws n).
Proof.
  induction ws as [|w ws IH]; intros d Hd Hw; [done|]. apply Forall_cons in Hw as [Hw Hws]. cbn. apply IH; [|done].
  intros n. unfold upd. by case_decide.
Qed.

Section Commit.
Context (pid : Z) (start : Z) (bs : list Z) (Hok : txn_ok start bs).
Implicit Types (C : gmap Z hold) (s : log).

(** The in-memory header lists the blocks [bs]. *)
Record hdr_lists s : Prop := {
  hl_dev : log_dev s = ROOTDEV;
  hl_start : log_start s = start;
  hl_n : lh_n s = Z.of_nat (length bs);
  hl_block : forall i b, bs !! i = Some b -> lh_block s (Z.of_nat i) = b;
}.

Lemma hdr_bio_to s c : hdr_lists s -> hdr_lists (bio_to s c).
Proof. by intros []. Qed.

Lemma take_log_writes f j b : bs !! j = Some b ->
  take (S j) (log_writes start f bs) = take j (log_writes start f bs) ++ [(slot start j, f b)].
Proof. intros Hj. apply take_S_r. unfold log_writes. by rewrite list_lookup_imap, Hj. Qed.
Lemma take_home_writes f j b : bs !! j = Some b ->
  take (S j) (home_writes f bs) = take j (home_writes f bs) ++ [(b, f b)].
Proof. intros Hj. apply take_S_r. unfold home_writes. by rewrite list_lookup_fmap, Hj. Qed.

(** No cached block is a block of the log. *)
Definition log_uncached C : Prop := forall n, in_log start n -> C !! n = None.
Definition all_pinned C : Prop := forall b, b ∈ bs -> exists h, pinned C b h.

Lemma write_log_spec C s : hdr_lists s -> cache_rep pid C (lbio s) -> (size C < nbuf)%nat ->
  log_uncached C -> all_pinned C ->
  let ws := log_writes start (contents C (disk (lbio s))) bs in
  wp (write_log pid) (fun _ s' => exists c, s' = bio_to s c /\ cache_rep pid C c /\
    disk c = apply_writes (disk (lbio s)) ws /\ dwrites c = dwrites (lbio s) ++ ws) s.
Proof.
  intros Hh HC Hsz Hu Hp ws. unfold write_log. wp_step. wp_step. rewrite (hl_n _ Hh), Nat2Z.id.
  eapply wp_mono.
  { eapply (wp_for_range (fun j s' => exists c, s' = bio_to s c /\ cache_rep pid C c /\
      disk c = apply_writes (disk (lbio s)) (take (Z.to_nat j) ws) /\
      dwrites c = dwrites (lbio s) ++ take (Z.to_nat j) ws)).
    - exists (lbio s). split; [by destruct s|]. split; [done|]. split; [done|]. by rewrite app_nil_r.
    - intros j s' Hj (c & -> & Hc & Dc & Wc).
      destruct (lookup_lt_is_Some_2 bs (Z.to_nat j)) as [b Hb]; [lia|].
      destruct (Hp b) as [h Hpin]; [by apply list_elem_of_lookup_2 with (Z.to_nat j)|].
      eapply wp_mono.
      { apply (write_log_step_spec pid C (bio_to s c) j (slot start (Z.to_nat j)) b h); try done; log_simp.
        - apply Hh.
        - rewrite (hl_start _ Hh). unfold slot. lia.
        - by apply (slot_ok start bs Hok); lia.
        - apply Hu. apply (slot_in_log start bs Hok). lia.
        - rewrite <- (Z2Nat.id j) by lia. by apply (hl_block _ Hh).
        - apply (tx_blk _ _ Hok). by apply list_elem_of_lookup_2 with (Z.to_nat j). }
      intros [] s' (c' & -> & Hc' & Dc' & Wc'). log_simp. exists c'. split; [done|]. split; [done|].
      assert (contents C (disk (lbio s)) b = h_data h) as E by (unfold contents; by rewrite (proj1 Hpin)).
      replace (Z.to_nat (j + 1)) with (S (Z.to_nat j)) by lia. unfold ws.
      rewrite (take_log_writes _ _ b Hb), E, apply_writes_app. cbn in Dc', Wc'. rewrite Dc', Wc', Dc, Wc.
      split; [done|]. by rewrite app_assoc. }
  cbn beta. intros [] s' (c & -> & Hc & Dc & Wc). exists c. split; [done|]. split; [done|].
  assert (take (Z.to_nat (0 + Z.of_nat (length bs))) ws = ws) as E.
  { apply take_ge. unfold ws, log_writes. rewrite length_imap. lia. }
  by rewrite E in Dc, Wc.
Qed.

Definition unpin1 C (b : Z) : gmap Z hold :=
  match C !! b with Some h => unpinned C b h | None => C end.
Definition unpin C (l : list Z) : gmap Z hold := foldl unpin1 C l.

Lemma unpin1_ne C b n : n <> b -> unpin1 C b !! n = C !! n.
Proof.
  intros. unfold unpin1, unpinned. destruct (C !! b); [|done]. destruct (_ =? 1).
  - by rewrite lookup_delete_ne.
  - by rewrite lookup_insert_ne.
Qed.
Lemma unpin_notin l : forall C n, n ∉ l -> unpin C l !! n = C !! n.
Proof.
  induction l as [|b l IH]; intros C n Hn; [done|]. cbn. apply not_elem_of_cons in Hn as [H1 H2].
  unfold unpin in IH. rewrite IH by done. by apply unpin1_ne.
Qed.
Lemma unpin1_size C b : (size (unpin1 C b) <= size C)%nat.
Proof.
  unfold unpin1, unpinned. destruct (C !! b) as [h|] eqn:E; [|done]. destruct (_ =? 1).
  - rewrite map_size_delete, E. lia.
  - rewrite map_size_insert, E. done.
Qed.
Lemma unpin_size l : forall C, (size (unpin C l) <= size C)%nat.
Proof.
  induction l as [|b l IH]; intros C; [done|]. cbn. etransitivity; [apply IH|]. apply unpin1_size.
Qed.
Lemma unpin_take C j b h : bs !! j = Some b -> C !! b = Some h ->
  unpin C (take (S j) bs) = unpinned (unpin C (take j bs)) b h /\ unpin C (take j bs) !! b = Some h.
Proof.
  intros Hj Hb. assert (unpin C (take j bs) !! b = Some h) as E.
  { rewrite unpin_notin; [done|]. intros Hin. apply list_elem_of_lookup in Hin as [i Hi].
    apply lookup_take_Some in Hi as [Hi Hlt].
    pose proof (NoDup_lookup bs i j b (tx_nodup _ _ Hok) Hi Hj). lia. }
  split; [|done]. rewrite (take_S_r _ _ _ Hj). unfold unpin. rewrite foldl_app. cbn.
  fold (unpin C (take j bs)). unfold unpin1. by rewrite E.
Qed.

Lemma install_commit_spec C s (g : Z -> list Z) : hdr_lists s -> cache_rep pid C (lbio s) -> (size C < nbuf)%nat ->
  log_uncached C -> all_pinned C ->
  (forall b h, b ∈ bs -> C !! b = Some h -> h_data h = g b) ->
  (forall i b, bs !! i = Some b -> disk (lbio s) (slot start i) = g b) ->
  let ws := home_writes g bs in
  wp (install_trans pid false) (fun _ s' => exists c, s' = bio_to s c /\ cache_rep pid (unpin C bs) c /\
    disk c = apply_writes (disk (lbio s)) ws /\ dwrites c = dwrites (lbio s) ++ ws) s.
Proof.
  intros Hh HC Hsz Hu Hp Hg Hd ws. unfold install_trans. wp_step. wp_step. rewrite (hl_n _ Hh), Nat2Z.id.
  eapply wp_mono.
  { eapply (wp_for_range (fun j s' => exists c, s' = bio_to s c /\
      cache_rep pid (unpin C (take (Z.to_nat j) bs)) c /\
      disk c = apply_writes (disk (lbio s)) (take (Z.to_nat j) ws) /\
      dwrites c = dwrites (lbio s) ++ take (Z.to_nat j) ws)).
    - exists (lbio s). split; [by destruct s|]. split; [done|]. split; [done|]. by rewrite app_nil_r.
    - intros j s' Hj (c & -> & Hc & Dc & Wc).
      destruct (lookup_lt_is_Some_2 bs (Z.to_nat j)) as [b Hb]; [lia|].
      assert (b ∈ bs) as Hbin by (by apply list_elem_of_lookup_2 with (Z.to_nat j)).
      destruct (Hp b Hbin) as [h (P1 & P2 & P3)]. pose proof (Hg b h Hbin P1) as Eg.
      destruct (unpin_take C _ b h Hb P1) as [Eu Eb].
      destruct (slot_in_log start bs Hok (Z.to_nat j)) as [Hin _]; [lia|].
      eapply wp_mono.
      { apply (install_step_commit pid (unpin C (take (Z.to_nat j) bs)) (bio_to s c) j
                 (slot start (Z.to_nat j)) b h); try done; log_simp.
        - apply Hh.
        - pose proof (unpin_size (take (Z.to_nat j) bs) C). lia.
        - rewrite (hl_start _ Hh). unfold slot. lia.
        - by apply (slot_ok start bs Hok); lia.
        - rewrite unpin_notin; [by apply Hu|]. intros Hx. apply elem_of_take in Hx as (i & Hi & _).
          apply list_elem_of_lookup_2, (tx_blk _ _ Hok) in Hi. tauto.
        - rewrite <- (Z2Nat.id j) by lia. by apply (hl_block _ Hh).
        - by apply (tx_blk _ _ Hok).
        - rewrite Dc, apply_writes_notin; [by rewrite (Hd _ b)|]. intros Hx.
          apply list_elem_of_fmap in Hx as ([n x] & E & Hx). cbn in E. subst n.
          apply elem_of_take in Hx as (i & Hi & _).
          unfold ws, home_writes in Hi. rewrite list_lookup_fmap in Hi.
          destruct (bs !! i) as [b'|] eqn:Hi'; cbn in Hi; simplify_eq.
          apply list_elem_of_lookup_2, (tx_blk _ _ Hok) in Hi'. tauto. }
      intros [] s' (c' & -> & Hc' & Dc' & Wc'). log_simp. exists c'. split; [done|].
      replace (Z.to_nat (j + 1)) with (S (Z.to_nat j)) by lia. unfold ws.
      rewrite Eu, (take_home_writes _ _ b Hb), <- Eg, apply_writes_app. split; [done|].
      cbn in Dc', Wc'. rewrite Dc', Wc', Dc, Wc. split; [done|]. by rewrite app_assoc. }
  cbn beta. intros [] s' (c & -> & Hc & Dc & Wc). exists c. split; [done|].
  assert (take (Z.to_nat (0 + Z.of_nat (length bs))) ws = ws) as E.
  { apply take_ge. unfold ws, home_writes. rewrite length_fmap. lia. }
  rewrite E in Dc, Wc. rewrite take_ge in Hc by lia. done.
Qed.

(** The disk writes of a commit: the log blocks, the header that commits, the
    home blocks, the header that erases the transaction. *)
Definition commit_writes (g : Z -> list Z) (blk : Z -> Z) (hd : list Z) : list (Z * list Z) :=
  if decide (bs = []) then [] else
  let h1 := enc_head (Z.of_nat (length bs)) blk hd in
  log_writes start g bs ++ [(start, h1)] ++ home_writes g bs ++ [(start, enc_head 0 blk h1)].

Lemma in_log_start : in_log start start.
Proof. unfold in_log, LOGBLOCKS, MAXOPBLOCKS. lia. Qed.

Lemma bs_not_start : start ∉ bs.
Proof. intros Hx. apply (tx_blk _ _ Hok) in Hx as [_ Hx]. apply Hx, in_log_start. Qed.

Lemma commit_spec C s : hdr_lists s -> cache_rep pid C (lbio s) -> (size C < nbuf)%nat ->
  log_uncached C -> all_pinned C ->
  let ws := commit_writes (contents C (disk (lbio s))) (lh_block s) (disk (lbio s) start) in
  wp (commit pid) (fun _ s' => exists c, s' = set_lh_n 0 (bio_to s c) /\ cache_rep pid (unpin C bs) c /\
    disk c = apply_writes (disk (lbio s)) ws /\ dwrites c = dwrites (lbio s) ++ ws) s.
Proof.
  intros Hh HC Hsz Hu Hp. set (d := disk (lbio s)). set (g := contents C d). cbv zeta.
  unfold commit, commit_writes. wp_step. wp_step. rewrite (hl_n _ Hh). apply wp_when.
  2: { intros E. apply Z.ltb_ge in E. destruct (decide (bs = [])) as [E0|E0].
       2: { destruct bs; [done|cbn in E; lia]. }
       exists (lbio s). assert (unpin C bs = C) as -> by (by rewrite E0). split; [|split; [done|]].
       - pose proof (hl_n _ Hh) as En. rewrite E0 in En. cbn in En. destruct s. cbn in *. by rewrite En.
       - split; [done|]. by rewrite app_nil_r. }
  intros E. apply Z.ltb_lt in E. rewrite decide_False by (intros ->; done).
  wp_step. eapply wp_mono; [by apply (write_log_spec C)|]. fold d. fold g.
  intros [] s1 (c1 & -> & H1 & D1 & W1).
  assert (disk c1 start = d start) as Es.
  { rewrite D1, apply_writes_notin; [done|]. intros Hx. by apply (log_writes_in_log start g bs Hok) in Hx as [_ Hx]. }
  wp_step. eapply wp_mono.
  { apply (write_head_spec pid C (bio_to s c1) start); log_simp; try done; try apply Hh.
    - apply (start_ok start bs Hok).
    - apply Hu, in_log_start.
    - rewrite (hl_n _ Hh). lia. }
  change (lbio (bio_to s c1)) with c1. change (lh_n (bio_to s c1)) with (lh_n s).
  change (lh_block (bio_to s c1)) with (lh_block s). rewrite Es, (hl_n _ Hh).
  intros [] s2 (c2 & -> & H2 & D2 & W2). set (h1 := enc_head _ _ _) in *.
  wp_step. eapply wp_mono.
  { apply (install_commit_spec C (bio_to (bio_to s c1) c2) g); log_simp; try done.
    - apply (hdr_bio_to (bio_to s c1) c2), (hdr_bio_to s c1), Hh.
    - intros b h Hb Hbh. unfold g, contents. by rewrite Hbh.
    - intros i b Hi. destruct (slot_in_log start bs Hok i) as [_ Hne]; [by apply lookup_lt_Some in Hi|].
      rewrite D2, D1, upd_ne by done. by apply log_writes_slot. }
  cbn [bio_to lbioL put lbio]. intros [] s3 (c3 & -> & H3 & D3 & W3).
  wp_step. wp_step. change (set_lh_n 0 (bio_to (bio_to (bio_to s c1) c2) c3)) with (set_lh_n 0 (bio_to s c3)).
  eapply wp_mono.
  { apply (write_head_spec pid (unpin C bs) (set_lh_n 0 (bio_to s c3)) start); log_simp; try done; try apply Hh.
    - pose proof (unpin_size bs C). lia.
    - apply (start_ok start bs Hok).
    - rewrite unpin_notin by apply bs_not_start. apply Hu, in_log_start. }
  assert (disk c3 start = h1) as Eh.
  { rewrite D3, (home_writes_out g bs) by apply bs_not_start. rewrite D2. by rewrite upd_eq. }
  change (lbio (set_lh_n 0 (bio_to s c3))) with c3. rewrite Eh.
  intros [] s4 (c4 & -> & H4 & D4 & W4). exists c4. split; [done|]. split; [done|].
  cbn in D4, W4. rewrite D4, D3, D2, D1, W4, W3, W2, W1, !apply_writes_app. split; [done|].
  by rewrite <- !app_assoc.
Qed.
End Commit.

(** ** Recovery *)

Section Recover.
Context (pid : Z) (start : Z) (bs : list Z) (Hok : txn_ok start bs).
Implicit Types (s : log).

(** The writes that install a committed log found on disk [d]. *)
Definition recover_writes (d : Z -> list Z) : list (Z * list Z) :=
  imap (fun i b => (b, d (slot start i))) bs.

Lemma recover_writes_keys d : (recover_writes d).*1 = bs.
Proof.
  unfold recover_writes. apply list_eq. intros i. rewrite list_lookup_fmap, list_lookup_imap.
  by destruct (bs !! i).
Qed.
Lemma recover_writes_in d i b : bs !! i = Some b ->
  apply_writes d (recover_writes d) b = d (slot start i).
Proof.
  intros Hi. eapply (apply_writes_in _ _ i); [rewrite recover_writes_keys; apply Hok|].
  unfold recover_writes. by rewrite list_lookup_imap, Hi.
Qed.
Lemma take_keys {A B} (ws : list (A * B)) j : (take j ws).*1 = take j ws.*1.
Proof. apply fmap_take. Qed.

Lemma install_recover_spec s : hdr_lists start bs s -> cache_rep pid ∅ (lbio s) ->
  wp (install_trans pid true) (fun _ s' => exists c, s' = bio_to s c /\ cache_rep pid ∅ c /\
    disk c = apply_writes (disk (lbio s)) (recover_writes (disk (lbio s)))) s.
Proof.
  intros Hh HC. unfold install_trans. wp_step. wp_step. rewrite (hl_n _ _ _ Hh), Nat2Z.id.
  set (d := disk (lbio s)). set (ws := recover_writes d). eapply wp_mono.
  { eapply (wp_for_range (fun j s' => exists c, s' = bio_to s c /\ cache_rep pid ∅ c /\
      disk c = apply_writes d (take (Z.to_nat j) ws))).
    - exists (lbio s). split; [by destruct s|done].
    - intros j s' Hj (c & -> & Hc & Dc).
      destruct (lookup_lt_is_Some_2 bs (Z.to_nat j)) as [b Hb]; [lia|].
      assert (b ∈ bs) as Hbin by (by apply list_elem_of_lookup_2 with (Z.to_nat j)).
      pose proof (tx_blk _ _ Hok b Hbin) as [Bb Nb].
      destruct (slot_in_log start bs Hok (Z.to_nat j)) as [Hin _]; [lia|].
      eapply wp_mono.
      { apply (install_step_recover pid ∅ (bio_to s c) j (slot start (Z.to_nat j)) b); try done; log_simp.
        - apply Hh.
        - rewrite map_size_empty. unfold nbuf, NBUF, MAXOPBLOCKS. lia.
        - rewrite (hl_start _ _ _ Hh). unfold slot. lia.
        - by apply (slot_ok start bs Hok); lia.
        - rewrite <- (Z2Nat.id j) by lia. by apply (hl_block _ _ _ Hh).
        - intros <-. done. }
      intros [] s' (c' & -> & Hc' & Dc'). cbn in Dc'. exists c'. split; [done|]. split; [done|].
      assert (disk c (slot start (Z.to_nat j)) = d (slot start (Z.to_nat j))) as Es.
      { rewrite Dc, apply_writes_notin; [done|]. unfold ws. rewrite take_keys, recover_writes_keys.
        intros Hx. apply elem_of_take in Hx as (i & Hi & _).
        apply list_elem_of_lookup_2, (tx_blk _ _ Hok) in Hi. tauto. }
      replace (Z.to_nat (j + 1)) with (S (Z.to_nat j)) by lia.
      rewrite (take_S_r ws _ (b, d (slot start (Z.to_nat j)))), apply_writes_app.
      + rewrite Dc', Es, Dc. done.
      + unfold ws, recover_writes. by rewrite list_lookup_imap, Hb. }
  cbn beta. intros [] s' (c & -> & Hc & Dc). exists c. split; [done|]. split; [done|].
  rewrite Dc, take_ge; [done|]. unfold ws, recover_writes. rewrite length_imap. lia.
Qed.

(** read_head leaves the decoded header in memory. *)
Lemma read_head_spec s d : log_dev s = ROOTDEV -> log_start s = start -> cache_rep pid ∅ (lbio s) ->
  disk (lbio s) start = d -> hdr_n d = Z.of_nat (length bs) ->
  (forall i b, bs !! i = Some b -> hdr_block (Z.of_nat i) d = b) ->
  wp (read_head pid) (fun _ s' => hdr_lists start bs s' /\ cache_rep pid ∅ (lbio s') /\
    disk (lbio s') = disk (lbio s) /\ log_lock s' = log_lock s /\
    log_outstanding s' = log_outstanding s /\ log_committing s' = log_committing s) s.
Proof.
  intros Hdev Hst HC Hd Hn Hb. unfold read_head. apply wp_bind.
  apply (wp_lbread pid _ _ _ ∅); [done|done|apply readable_empty|].
  rewrite Hst, blk_u32 by apply (start_ok start bs Hok). unfold bread_post, refs, contents. rewrite lookup_empty.
  intros b c1 (_ & _ & H1 & D1 & _). cache_get start. rewrite Hd.
  wp_step. wp_step. wp_step. wp_step. cbn [set_lh_n lh_n]. rewrite Hn, Nat2Z.id.
  wp_step. eapply wp_mono.
  { eapply (wp_for_range (fun j s' => log_dev s' = ROOTDEV /\ log_start s' = start /\
      lh_n s' = Z.of_nat (length bs) /\ lbio s' = c1 /\ log_lock s' = log_lock s /\
      log_outstanding s' = log_outstanding s /\ log_committing s' = log_committing s /\
      forall i b, bs !! i = Some b -> Z.of_nat i < j -> lh_block s' (Z.of_nat i) = b)).
    - split_and!; try done. intros. lia.
    - intros j s' Hj (E1 & E2 & E3 & E4 & E5 & E6 & E7 & E8). wp_step. split_and!; try done.
      intros i b' Hi Hlt. cbn. destruct (decide (Z.of_nat i = j)) as [<-|Hne].
      + rewrite upd_eq. by apply Hb.
      + rewrite upd_ne by done. apply E8; [done|lia]. }
  cbn beta. intros [] s' (E1 & E2 & E3 & E4 & E5 & E6 & E7 & E8).
  eapply (wp_brelse _ _ _ start); [rewrite E4; exact H1|map_look|reflexivity|done| |]; log_simp.
  { intros _. rewrite E4, D1. done. }
  rewrite E4. unfold brelsed. log_simp. bsimp. intros c2 H2 [D2 _]. cbn. split; [|split_and!; try done].
  - split; try done. cbn. intros i b' Hi. apply E8; [done|]. apply lookup_lt_Some in Hi. lia.
  - eapply cache_rep_eq; [exact H2|]. by rewrite delete_insert_id.
  - congruence.
Qed.

(** recover_from_log on a disk whose header names the blocks [bs]. *)
Lemma recover_spec s d : log_dev s = ROOTDEV -> log_start s = start -> cache_rep pid ∅ (lbio s) ->
  disk (lbio s) start = d -> length d = Z.to_nat BSIZE -> hdr_n d = Z.of_nat (length bs) ->
  (forall i b, bs !! i = Some b -> hdr_block (Z.of_nat i) d = b) ->
  wp (recover_from_log pid) (fun _ s' =>
    hdr_lists start [] s' /\ cache_rep pid ∅ (lbio s') /\
    (forall n, n <> start -> disk (lbio s') n =
       apply_writes (disk (lbio s)) (recover_writes (disk (lbio s))) n) /\
    hdr_n (disk (lbio s') start) = 0 /\ length (disk (lbio s') start) = Z.to_nat BSIZE /\
    ((forall n, block_ok (disk (lbio s) n)) -> forall n, block_ok (disk (lbio s') n)) /\
    log_lock s' = log_lock s /\
    log_outstanding s' = log_outstanding s /\ log_committing s' = log_committing s) s.
Proof.
  intros Hdev Hst HC Hd Hlen Hn Hb. unfold recover_from_log. wp_step.
  eapply wp_mono; [by eapply read_head_spec|]. intros [] s1 (Hh & H1 & D1 & L1 & O1 & K1).
  wp_step. eapply wp_mono; [by apply install_recover_spec|]. intros [] s2 (c & -> & H2 & D2).
  wp_step. wp_step. rewrite D1 in D2.
  assert (disk c start = d) as Es.
  { rewrite D2, apply_writes_notin, Hd; [done|]. rewrite recover_writes_keys. by apply bs_not_start. }
  eapply wp_mono.
  { apply (write_head_spec pid ∅ (set_lh_n 0 (bio_to s1 c)) start); log_simp; try done; try apply Hh.
    - rewrite map_size_empty. unfold nbuf, NBUF, MAXOPBLOCKS. lia.
    - apply (start_ok start bs Hok). }
  intros [] s3 (c3 & -> & H3 & D3 & _). cbn [lbio bio_to set_lh_n lh_n lh_block lbioL put] in *.
  rewrite Es in D3. split; [|split_and!; try done].
  - split; try done; apply Hh.
  - intros n Hne. rewrite D3, upd_ne by done. by rewrite D2.
  - rewrite D3, upd_eq. apply enc_head_n; [done|done].
  - rewrite D3, upd_eq. by apply length_enc_head.
  - intros Hok' n. rewrite D3. unfold upd. case_decide; [apply enc_head_ok; [done|]; rewrite <- Hd; apply Hok'|]. rewrite D2. apply apply_writes_ok; [done|].
    apply Forall_lookup_2. intros k w Hw. unfold recover_writes in Hw. rewrite list_lookup_imap in Hw. destruct (bs !! k); cbn in Hw; [|done]. injection Hw as <-. apply Hok'.
Qed.
End Recover.

(** ** Crashes *)

Section Crash.
Context (start : Z) (bs : list Z) (Hok : txn_ok start bs).
Context (d : Z -> list Z) (g : Z -> list Z) (blk : Z -> Z).
Hypothesis Hclean : hdr_n (d start) = 0.
Hypothesis Hlen : length (d start) = Z.to_nat BSIZE.
Hypothesis Hblk : forall i b, bs !! i = Some b -> blk (Z.of_nat i) = b.

(** The disk after the transaction. *)
Definition after (n : Z) : list Z := if decide (n ∈ bs) then g n else d n.
Definition outside_log (x y : Z -> list Z) : Prop := forall n, ~ in_log start n -> x n = y n.

(** What a crashed disk looks like: the log is empty and the disk is the old
    or the new one, or the log holds the whole transaction. *)
Definition log_empty (x : Z -> list Z) : Prop :=
  hdr_n (x start) = 0 /\ length (x start) = Z.to_nat BSIZE.
Definition log_full (x : Z -> list Z) : Prop :=
  length (x start) = Z.to_nat BSIZE /\ hdr_n (x start) = Z.of_nat (length bs) /\
  (forall i b, bs !! i = Some b -> hdr_block (Z.of_nat i) (x start) = b /\ x (slot start i) = g b) /\
  (forall n, ~ in_log start n -> n ∉ bs -> x n = d n).

Let h1 := enc_head (Z.of_nat (length bs)) blk (d start).

Lemma h1_hdr : length h1 = Z.to_nat BSIZE /\ hdr_n h1 = Z.of_nat (length bs) /\
  forall i b, bs !! i = Some b -> hdr_block (Z.of_nat i) h1 = b.
Proof.
  pose proof (tx_len _ _ Hok). split; [apply length_enc_head; [lia|done]|].
  split; [apply enc_head_n; [lia|done]|]. intros i b Hi. pose proof (lookup_lt_Some _ _ _ Hi).
  unfold h1. rewrite enc_head_block; [by apply Hblk|lia|done|lia|]. rewrite (Hblk _ _ Hi).
  apply (tx_blk _ _ Hok). by eapply list_elem_of_lookup_2.
Qed.

(** During the log phase. *)
Lemma crash_log_phase k : let x := apply_writes d (take k (log_writes start g bs)) in
  log_empty x /\ outside_log x d.
Proof.
  assert (forall n, n ∈ (take k (log_writes start g bs)).*1 -> in_log start n /\ n <> start) as Hk.
  { intros n Hn. rewrite take_keys in Hn. apply elem_of_take in Hn as (i & Hi & _).
    eapply log_writes_in_log; [done|]. by eapply list_elem_of_lookup_2. }
  cbv zeta. split; [|intros n Hn; apply apply_writes_notin; intros Hx; by apply Hk in Hx as [Hx _]].
  unfold log_empty. rewrite !apply_writes_notin by (intros Hx; by apply Hk in Hx as [_ Hx]). done.
Qed.

(** After the committing header write, with some home blocks installed. *)
Lemma crash_install_phase j :
  log_full (apply_writes d (log_writes start g bs ++ [(start, h1)] ++ take j (home_writes g bs))).
Proof.
  rewrite !apply_writes_app. set (y := apply_writes d (log_writes start g bs)). cbn.
  assert (forall n, n ∈ (take j (home_writes g bs)).*1 -> n ∈ bs) as Hk.
  { intros n Hn. rewrite take_keys, home_writes_keys in Hn. apply elem_of_take in Hn as (i & Hi & _).
    by eapply list_elem_of_lookup_2. }
  assert (forall n, in_log start n -> n ∉ (take j (home_writes g bs)).*1) as Hl.
  { intros n Hn Hx. apply Hk, (tx_blk _ _ Hok) in Hx. tauto. }
  destruct h1_hdr as (L1 & N1 & B1). unfold log_full.
  rewrite (apply_writes_notin _ _ start) by apply Hl, in_log_start. rewrite upd_eq. split; [done|]. split; [done|].
  split.
  - intros i b Hi. split; [by apply B1|]. pose proof (lookup_lt_Some _ _ _ Hi) as Hlt.
    destruct (slot_in_log start bs Hok i Hlt) as [Hin Hne].
    rewrite apply_writes_notin by by apply Hl. rewrite upd_ne by done. by apply log_writes_slot.
  - intros n Hn Hnb. rewrite apply_writes_notin by (intros Hx; by apply Hk in Hx).
    rewrite upd_ne by (intros ->; apply Hn, in_log_start). apply apply_writes_notin.
    intros Hx. by apply (log_writes_in_log start g bs Hok) in Hx as [Hx _].
Qed.

(** After the header is erased. *)
Lemma crash_done_phase : bs <> [] -> let x := apply_writes d (commit_writes start bs g blk (d start)) in
  log_empty x /\ outside_log x after.
Proof.
  intros Hne. unfold commit_writes. rewrite decide_False by done. cbv zeta. fold h1.
  rewrite !apply_writes_app. cbn. set (y := apply_writes d (log_writes start g bs)).
  destruct h1_hdr as (L1 & _ & _). split.
  - unfold log_empty. rewrite upd_eq. split.
    + by apply enc_head_n.
    + by apply length_enc_head.
  - intros n Hn. assert (n <> start) as Hns by (intros ->; apply Hn, in_log_start).
    rewrite upd_ne by done. unfold after. case_decide as Hb.
    + by apply (home_writes_in start g bs Hok).
    + rewrite (home_writes_out g bs) by done. rewrite upd_ne by done. apply apply_writes_notin.
      intros Hx. by apply (log_writes_in_log start g bs Hok) in Hx as [Hx _].
Qed.

Lemma crash_cases k : let x := apply_writes d (take k (commit_writes start bs g blk (d start))) in
  (log_empty x /\ outside_log x d /\ ((k <= length bs)%nat \/ bs = [])) \/
  (log_full x /\ (length bs < k)%nat) \/
  (log_empty x /\ outside_log x after /\ (length bs < k)%nat).
Proof.
  cbv zeta. unfold commit_writes. destruct (decide (bs = [])) as [E|Hne].
  { left. rewrite take_nil. split; [done|]. split; [done|by right]. }
  set (A := log_writes start g bs). assert (length A = length bs) as LA by apply length_imap.
  destruct (decide (k <= length bs)%nat) as [Hk|Hk].
  { left. rewrite take_app_le by lia. destruct (crash_log_phase k). auto. }
  right. rewrite take_app_ge by lia. rewrite LA.
  destruct (k - length bs)%nat as [|j] eqn:Ej; [lia|]. cbn [app take].
  assert (length (home_writes g bs) = length bs) as LH by apply length_fmap.
  destruct (decide (j <= length bs)%nat) as [Hj|Hj].
  - left. rewrite take_app_le by lia. split; [apply (crash_install_phase j)|lia].
  - right. rewrite take_ge by (rewrite length_app; cbn; lia).
    pose proof (crash_done_phase Hne) as Hd. cbv zeta in Hd. unfold commit_writes in Hd.
    rewrite decide_False in Hd by done. destruct Hd. split; [done|]. split; [done|lia].
Qed.
End Crash.

(** ** Transactions *)

Section Txn.
Context (pid : Z) (start : Z).
Implicit Types (C : gmap Z hold) (s : log).

Definition layout_ok : Prop := 0 <= start /\ start + LOGBLOCKS < 2 ^ 31.

(** The log between transactions: nothing outstanding, nothing cached in use,
    an empty header on the disk. *)
Record log_idle s : Prop := {
  li_lock : log_lock s = false;
  li_out : log_outstanding s = 0;
  li_com : log_committing s = false;
  li_hdr : hdr_lists start [] s;
  li_rep : cache_rep pid ∅ (lbio s);
  li_disk : log_empty start (disk (lbio s));
  li_layout : layout_ok;
}.

(** The kernel after a reboot: zeroed log, a cache just initialised. *)
Definition rebooted (c : bio) : log := mkLog false 0 0 false 0 0 (fun _ => 0) c.

Lemma txn_nil : layout_ok -> txn_ok start [].
Proof. intros H. split; [done|done|set_solver|constructor]. Qed.

Lemma initlog_spec c bs : txn_ok start bs -> cache_rep pid ∅ c ->
  length (disk c start) = Z.to_nat BSIZE -> hdr_n (disk c start) = Z.of_nat (length bs) ->
  (forall i b, bs !! i = Some b -> hdr_block (Z.of_nat i) (disk c start) = b) ->
  wp (initlog pid ROOTDEV start) (fun _ s' => log_idle s' /\
    (forall n, n <> start -> disk (lbio s') n = apply_writes (disk c) (recover_writes start bs (disk c)) n) /\
    ((forall n, block_ok (disk c n)) -> forall n, block_ok (disk (lbio s') n)))
    (rebooted c).
Proof.
  intros Hok HC Hlen Hn Hb. unfold initlog.
  assert (BSIZE <=? sizeof_logheader = false) as -> by done. wp_step. wp_step. wp_step. wp_step.
  eapply wp_mono; [by apply (recover_spec pid start bs Hok _ (disk c start))|].
  intros [] s' (H1 & H2 & H3 & H4 & H5 & H6 & H7 & H8 & H9). split; [|done].
  split; try done. apply Hok.
Qed.

(** Recovery of a disk left by a crash during a commit of [bs]: the old disk
    up to the committing header write, the new one from there on. *)
Lemma recover_crash bs d g blk k c :
  txn_ok start bs -> log_empty start d -> (forall i b, bs !! i = Some b -> blk (Z.of_nat i) = b) ->
  cache_rep pid ∅ c -> disk c = apply_writes d (take k (commit_writes start bs g blk (d start))) ->
  wp (initlog pid ROOTDEV start) (fun _ s' => log_idle s' /\
    outside_log start (disk (lbio s')) (if decide (length bs < k)%nat then after bs d g else d) /\
    ((forall n, block_ok (disk c n)) -> forall n, block_ok (disk (lbio s') n))) (rebooted c).
Proof.
  intros Hok [He1 He2] Hblk HC Hc. assert layout_ok as Hlay by apply Hok.
  assert (forall n, ~ in_log start n -> n <> start) as Hns by (intros n Hn ->; apply Hn, in_log_start).
  assert (forall y, log_empty start (disk c) -> outside_log start (disk c) y ->
    wp (initlog pid ROOTDEV start) (fun _ s' => log_idle s' /\ outside_log start (disk (lbio s')) y /\
      ((forall n, block_ok (disk c n)) -> forall n, block_ok (disk (lbio s') n))) (rebooted c)) as Hempty.
  { intros y [H1 H2] Hy. eapply wp_mono.
    - apply (initlog_spec c []); [by apply txn_nil|done|done|done|done].
    - intros [] s' (Hi & Hd & Hw). split; [done|]. split; [|done]. intros n Hn. rewrite Hd by auto. by apply Hy. }
  destruct (crash_cases start bs Hok d g blk He1 He2 Hblk k) as [(H1 & H2 & H3)|[[H1 H2]|(H1 & H2 & H3)]];
    rewrite <- Hc in *.
  - apply Hempty; [done|]. case_decide; [|done]. destruct H3 as [|E]; [lia|]. intros n Hn.
    unfold after. rewrite decide_False by (rewrite E; set_solver). by apply H2.
  - destruct H1 as (L1 & N1 & B1 & O1). rewrite decide_True by done. eapply wp_mono.
    + apply (initlog_spec c bs); [done|done|done|done|]. intros i b Hi. by apply B1.
    + intros [] s' (Hi & Hd & Hw). split; [done|]. split; [|done]. intros n Hn. rewrite Hd by auto. unfold after. case_decide as Hb.
      * apply list_elem_of_lookup in Hb as [i Hb]. rewrite (recover_writes_in start bs Hok _ i) by done.
        by apply B1.
      * rewrite apply_writes_notin by by rewrite recover_writes_keys. by apply O1.
  - rewrite decide_True by done. by apply Hempty.
Qed.

(** One update of a transaction, as the file system does it. *)
Definition txn_write (u : Z * list Z) : M log unit :=
  let* b := lbread pid (fun _ => u.1) in
  cached (set_data b u.2) ;;
  log_write b ;;
  cached (brelse pid b).
Fixpoint txn_writes (us : list (Z * list Z)) : M log unit :=
  match us with [] => ret tt | u :: us => txn_write u ;; txn_writes us end.
Definition txn (us : list (Z * list Z)) : M log unit :=
  begin_op 1 ;; txn_writes us ;; end_op pid.

(** In the middle of a transaction that has logged the blocks [bs], starting
    from the disk [d]: exactly those are in use, each with the log's pin. *)
Record txn_inv (d : Z -> list Z) (bs : list Z) C s : Prop := {
  ti_lock : log_lock s = false;
  ti_out : log_outstanding s = 1;
  ti_com : log_committing s = false;
  ti_ok : txn_ok start bs;
  ti_hdr : hdr_lists start bs s;
  ti_rep : cache_rep pid C (lbio s);
  ti_dom : forall n, is_Some (C !! n) <-> n ∈ bs;
  ti_pin : forall n h, C !! n = Some h -> h_ref h = 1 /\ h_locked h = false;
  ti_disk : disk (lbio s) = d;
}.

Lemma log_slot_spec blk n l : forall k, (forall i b, l !! i = Some b -> u32 (blk (k + Z.of_nat i)) = b) ->
  match list_find (eq n) l with
  | Some (i, _) => log_slot blk n k (length l) = k + Z.of_nat i
  | None => log_slot blk n k (length l) = k + Z.of_nat (length l)
  end.
Proof.
  induction l as [|x l IH]; intros k Hl; cbn [list_find length log_slot]; [lia|].
  pose proof (Hl 0%nat x eq_refl) as Hx. rewrite Z.add_0_r in Hx. rewrite Hx.
  destruct (decide (n = x)) as [->|Hne]; [rewrite Z.eqb_refl; lia|]. rewrite (proj2 (Z.eqb_neq x n)) by done.
  specialize (IH (k + 1)). destruct (list_find (eq n) l) as [[i y]|]; cbn; rewrite IH; try lia;
    intros j b Hj; rewrite <- (Hl (S j) b Hj); do 2 f_equal; lia.
Qed.

Lemma txn_size d bs C s : txn_inv d bs C s -> size C = length bs.
Proof.
  intros H. rewrite <- size_dom. replace (dom C) with (list_to_set bs : gset Z).
  - apply size_list_to_set, H.
  - apply set_eq. intros n. rewrite elem_of_list_to_set, elem_of_dom. symmetry. apply H.
Qed.

(** The header after log_write: the block is listed once. *)
Definition add_block (bs : list Z) (n : Z) : list Z := if decide (n ∈ bs) then bs else bs ++ [n].

Lemma add_block_in bs n m : m ∈ add_block bs n <-> m = n \/ m ∈ bs.
Proof.
  unfold add_block. case_decide as E; [|rewrite elem_of_app, list_elem_of_singleton; tauto].
  split; [by right|intros [->|]; done].
Qed.

Lemma add_block_ok bs n : txn_ok start bs -> blk_ok n -> ~ in_log start n ->
  Z.of_nat (length (add_block bs n)) <= LOGBLOCKS -> txn_ok start (add_block bs n).
Proof.
  intros [H1 H2 H3 H4] Hn Hl Hlen. split; [done|done| |].
  - intros b Hb. apply add_block_in in Hb as [->|Hb]; auto.
  - unfold add_block. case_decide; [done|]. apply NoDup_app. split_and!; [done| |apply NoDup_singleton].
    intros x Hx Hy. apply list_elem_of_singleton in Hy. by subst.
Qed.

(** log_write of a buffer the caller holds: absorbed if the block is already
    in the transaction, else appended and pinned. *)
Lemma log_write_spec s bs C n h b :
  log_lock s = false -> 1 <= log_outstanding s -> txn_ok start bs -> hdr_lists start bs s ->
  cache_rep pid C (lbio s) -> C !! n = Some h -> h_idx h = b -> blk_ok n ->
  Z.of_nat (length bs) < LOGBLOCKS -> h_ref h + 1 < 2 ^ 32 ->
  wp (log_write b) (fun _ s' => log_lock s' = false /\ log_outstanding s' = log_outstanding s /\
    log_committing s' = log_committing s /\ hdr_lists start (add_block bs n) s' /\
    disk (lbio s') = disk (lbio s) /\ dwrites (lbio s') = dwrites (lbio s) /\
    cache_rep pid (if decide (n ∈ bs) then C
                   else <[n := mkHold b (h_ref h + 1) (h_locked h) (h_data h)]> C) (lbio s')) s.
Proof.
  intros Hl Ho Hok Hh HC Hn Hb Bn Hlen Hr. unfold log_write.
  wp_step. wp_step. wp_step. wp_step. cbn [id log_lockL put lh_n log_outstanding lbio lh_block].
  pose proof (hl_n _ _ _ Hh) as En. rewrite En. bsimp.
  assert (b_blockno (bufs (lbio s) b) = n) as ->.
  { destruct (cr_hold _ _ _ HC n h Hn) as [_ Hbh]. rewrite Hb in Hbh. apply Hbh. }
  pose proof (log_slot_spec (lh_block s) n bs 0) as Hs. rewrite Nat2Z.id.
  assert (forall i x, bs !! i = Some x -> u32 (lh_block s (0 + Z.of_nat i)) = x) as Hu.
  { intros i x Hi. rewrite Z.add_0_l, (hl_block _ _ _ Hh i x Hi). apply blk_u32, (tx_blk _ _ Hok).
    by eapply list_elem_of_lookup_2. }
  specialize (Hs Hu). assert (i32 n = n) as -> by (apply i32_small; unfold blk_ok in Bn; lia).
  unfold add_block. destruct (list_find (eq n) bs) as [[i y]|] eqn:Hf; rewrite Hs, Z.add_0_l.
  - apply list_find_Some in Hf as (Hi & <- & _). rewrite decide_True by (by eapply list_elem_of_lookup_2).
    pose proof (lookup_lt_Some _ _ _ Hi). wp_step. wp_step. wp_step. apply wp_when; [intros E; apply Z.eqb_eq in E; lia|].
    intros _. wp_step. cbn. rewrite (decide_True (P := n ∈ bs)) by (by eapply list_elem_of_lookup_2).
    split_and!; try done. split; cbn; [apply Hh|apply Hh|done|]. intros j x Hj. destruct (decide (j = i)) as [->|Hne].
    + rewrite upd_eq. congruence.
    + rewrite upd_ne by lia. by apply (hl_block _ _ _ Hh).
  - assert (n ∉ bs) as Hni.
    { intros Hx. apply list_find_None in Hf. rewrite Forall_forall in Hf. by apply (Hf n Hx). }
    rewrite !(decide_False (P := n ∈ bs)) by done.
    wp_step. wp_step. wp_step. apply wp_when; [intros _|intros E; apply Z.eqb_neq in E; lia].
    wp_step. eapply (wp_bpin pid C _ n h); try done. intros c Hc [Dc Wc].
    wp_step. wp_step. cbn. split_and!; try done. split; cbn; [apply Hh|apply Hh| |].
    + rewrite length_app. cbn. lia.
    + intros j x Hj. apply lookup_app_Some in Hj as [Hj|[Hj1 Hj2]].
      * pose proof (lookup_lt_Some _ _ _ Hj). rewrite upd_ne by lia. by apply (hl_block _ _ _ Hh).
      * apply list_lookup_singleton_Some in Hj2 as [E <-]. replace (Z.of_nat j) with (Z.of_nat (length bs)) by lia.
        by rewrite upd_eq.
Qed.

Lemma txn_write_spec d bs C s n x : txn_inv d bs C s -> blk_ok n -> ~ in_log start n ->
  Z.of_nat (length bs) < NBUF ->
  wp (txn_write (n, x)) (fun _ s' => exists C', txn_inv d (add_block bs n) C' s' /\
    dwrites (lbio s') = dwrites (lbio s) /\
    contents C' d = upd (contents C d) n x) s.
Proof.
  intros H Bn Nn Hlen'. pose proof H as [L O K Ok Hh HC Hdom Hpin Hd]. pose proof (txn_size _ _ _ _ H) as Hsz.
  assert (Z.of_nat (length (add_block bs n)) <= NBUF) as Hlen.
  { unfold add_block. case_decide; [lia|]. rewrite length_app. cbn. lia. }
  unfold txn_write. apply wp_bind. apply (wp_lbread pid _ _ _ C); [apply Hh|done| |]; cbn [fst].
  { unfold readable. destruct (C !! n) as [h|] eqn:E; [|unfold nbuf; lia].
    destruct (Hpin n h E) as [-> ->]. done. }
  intros b c1 (_ & _ & H1 & D1 & W1). cbn [snd].
  assert (refs C n = if decide (n ∈ bs) then 1 else 0) as Er.
  { unfold refs. case_decide as E; destruct (C !! n) as [h|] eqn:Ec; try done.
    - by destruct (Hpin n h Ec).
    - apply Hdom in E. rewrite Ec in E. by destruct E.
    - exfalso. apply E, Hdom. by eexists. }
  cache_op wp_set_data n. intros c2 H2 [D2 W2]. rewrite insert_insert_eq in H2.
  wp_step. eapply wp_mono.
  { apply (log_write_spec _ bs (<[n := mkHold b (refs C n + 1) true x]> C) n (mkHold b (refs C n + 1) true x) b);
      log_simp; try done.
    - cbn. rewrite O. lia.
    - by destruct Hh.
    - by rewrite lookup_insert_eq.
    - rewrite Er. case_decide; lia. }
  log_simp. cbn [bio_to lbioL put lbio]. intros [] s3 (L3 & O3 & K3 & H3 & D3 & W3 & R3).
  set (C3 := if decide (n ∈ bs) then _ else _) in R3.
  assert (C3 = <[n := mkHold b 2 true x]> C) as E3.
  { unfold C3. rewrite Er. case_decide; [done|]. by rewrite insert_insert_eq. }
  rewrite E3 in R3. clear C3 E3.
  eapply (wp_brelse _ _ _ n); log_simp; [exact R3|map_look|reflexivity|done|done|]. unfold brelsed. log_simp. bsimp.
  intros c4 H4 [D4 W4]. rewrite insert_insert_eq in H4. exists (<[n := mkHold b 1 false x]> C).
  split; [|split].
  - split; cbn; try done.
    + rewrite O3. exact O.
    + rewrite K3. exact K.
    + by apply add_block_ok.
    + by destruct H3.
    + intros m. rewrite add_block_in, lookup_insert_is_Some, <- Hdom.
      destruct (decide (n = m)); naive_solver.
    + intros m h Hm. apply lookup_insert_Some in Hm as [[_ <-]|[_ Hm]]; [done|]. by eapply Hpin.
    + congruence.
  - cbn. congruence.
  - apply functional_extensionality. intros m. unfold contents, upd. rewrite lookup_insert.
    repeat case_decide; subst; done.
Qed.

Lemma length_sub_dups (bs l : list Z) : NoDup bs -> (forall b, b ∈ bs -> b ∈ l) ->
  (length bs <= length (remove_dups l))%nat.
Proof.
  intros Hnd Hsub. apply submseteq_length, NoDup_submseteq; [done|].
  intros y Hy. apply elem_of_remove_dups. auto.
Qed.

Lemma txn_writes_spec d us : forall bs C s l, txn_inv d bs C s ->
  (forall n, n ∈ l -> blk_ok n /\ ~ in_log start n) ->
  (forall n, n ∈ bs -> n ∈ l) -> (forall n, n ∈ us.*1 -> n ∈ l) ->
  Z.of_nat (length (remove_dups l)) < NBUF ->
  wp (txn_writes us) (fun _ s' => exists bs' C', txn_inv d bs' C' s' /\
    dwrites (lbio s') = dwrites (lbio s) /\ contents C' d = apply_writes (contents C d) us /\
    (length bs' <= length (remove_dups l))%nat) s.
Proof.
  induction us as [|[n x] us IH]; intros bs C s l H Hok Hbs Hus Hlen; cbn [txn_writes].
  - wp_step. exists bs, C. split_and!; try done. apply length_sub_dups; [apply H|done].
  - assert (n ∈ l) as Hn by (apply Hus; cbn; apply list_elem_of_here).
    destruct (Hok n Hn) as [Bn Nn]. wp_step. eapply wp_mono.
    { apply (txn_write_spec d bs C); try done. pose proof (length_sub_dups bs l (tx_nodup _ _ (ti_ok _ _ _ _ H)) Hbs). lia. }
    intros [] s1 (C1 & H1 & W1 & E1). eapply wp_mono.
    { apply (IH _ C1 s1 l H1 Hok); [| |done].
      - intros m Hm. apply add_block_in in Hm as [->|Hm]; auto.
      - intros m Hm. apply Hus. cbn. by apply list_elem_of_further. }
    intros [] s2 (bs2 & C2 & H2 & W2 & E2 & L2). exists bs2, C2. split_and!; try done; [congruence|].
    rewrite E2, E1. done.
Qed.

Lemma unpin_all d bs C s : txn_inv d bs C s -> unpin C bs = ∅.
Proof.
  intros H. apply map_empty. intros n. destruct (decide (n ∈ bs)) as [Hn|Hn].
  - destruct (list_elem_of_split bs n Hn) as (l1 & l2 & E).
    pose proof (tx_nodup _ _ (ti_ok _ _ _ _ H)) as Hnd. rewrite E in Hnd.
    apply NoDup_app in Hnd as (_ & N1 & N2). apply NoDup_cons in N2 as [N2 _].
    rewrite E. unfold unpin. rewrite foldl_app. cbn. fold (unpin C l1).
    rewrite (unpin_notin l2) by done. unfold unpin1.
    rewrite unpin_notin by (intros Hx; apply (N1 n Hx), list_elem_of_here).
    destruct (proj2 (ti_dom _ _ _ _ H n) Hn) as [h Hh]. rewrite Hh. unfold unpinned.
    destruct (ti_pin _ _ _ _ H n h Hh) as [-> _]. cbn. by rewrite lookup_delete_eq.
  - rewrite unpin_notin by done. destruct (C !! n) eqn:E; [|done]. exfalso.
    apply Hn, (ti_dom _ _ _ _ H). by eexists.
Qed.

Lemma begin_op_idle s fuel : log_idle s ->
  wp (begin_op (S fuel)) (fun _ s' => txn_inv (disk (lbio s)) [] ∅ s' /\ lbio s' = lbio s) s.
Proof.
  intros [L O K Hh HC Hd Hl]. pose proof (hl_n _ _ _ Hh) as En. cbn in En. unfold begin_op.
  wp_step. wp_step. cbn [loop].
  wp_step. wp_step. wp_step. cbn [id log_lockL put log_committing lh_n log_outstanding]. rewrite K, En, O. cbn.
  wp_steps. split; [|done]. split; cbn; try done.
  - by apply txn_nil.
  - by destruct Hh.
  - intros n. rewrite lookup_empty. split; [by intros [? ?]|]. intros Hx. by apply not_elem_of_nil in Hx.
Qed.

(** end_op of the only operation: commit. *)
Lemma end_op_spec d bs C s : txn_inv d bs C s -> log_empty start d -> Z.of_nat (length bs) < NBUF ->
  wp (end_op pid) (fun _ s' => exists blk, log_idle s' /\ (forall i b, bs !! i = Some b -> blk (Z.of_nat i) = b) /\
    let ws := commit_writes start bs (contents C d) blk (d start) in
    dwrites (lbio s') = dwrites (lbio s) ++ ws /\ disk (lbio s') = apply_writes d ws) s.
Proof.
  intros H He Hlen. pose proof H as [L O K Ok Hh HC Hdom Hpin Hd]. pose proof (txn_size _ _ _ _ H) as Hsz.
  unfold end_op. wp_step. wp_step. wp_step. wp_step. wp_step. wp_step.
  cbn [id log_lockL put log_committing set_outstanding log_outstanding]. rewrite K, O.
  change (1 - 1 =? 0) with true. cbv zeta iota.
  wp_step. wp_step. wp_step. wp_step. apply wp_when; [intros _|done].
  wp_step. eapply wp_mono.
  { eapply (commit_spec pid start bs Ok C); try done.
    - by destruct Hh.
    - unfold nbuf. lia.
    - intros n Hn. destruct (C !! n) eqn:E; [|done]. exfalso.
      assert (n ∈ bs) as Hb by (apply Hdom; by eexists). apply (tx_blk _ _ Ok) in Hb. tauto.
    - intros b Hb. destruct (proj2 (Hdom b) Hb) as [h E]. exists h. destruct (Hpin b h E) as [E1 E2].
      split; [done|]. rewrite E1, E2. done. }
  cbn [lbio lh_block set_committing put log_lockL set_outstanding]. rewrite (unpin_all d bs C s H), Hd.
  intros [] s1 (c & -> & H1 & D1 & W1). wp_steps.
  assert (log_empty start (disk c)) as Hemp.
  { rewrite D1. destruct (decide (bs = [])) as [E|E].
    - unfold commit_writes. by rewrite decide_True.
    - eapply (crash_done_phase start bs Ok); try done; try apply He; apply Hh. }
  exists (lh_block s). split; [|split; [apply Hh|done]]. destruct Hh.
  split; try done; [by apply (cache_rep_woken pid ∅ c)|apply Ok].
Qed.
End Txn.

Lemma after_contents pid start d bs C s n : txn_inv pid start d bs C s -> after bs d (contents C d) n = contents C d n.
Proof.
  intros H. unfold after. case_decide as E; [done|]. unfold contents. destruct (C !! n) eqn:Ec; [|done].
  exfalso. apply E, (ti_dom _ _ _ _ _ _ H). by eexists.
Qed.

(** The disk after the commit of a transaction. *)
Lemma commit_done pid start d bs C s blk m : txn_inv pid start d bs C s -> log_empty start d ->
  (forall i b, bs !! i = Some b -> blk (Z.of_nat i) = b) -> ~ in_log start m ->
  apply_writes d (commit_writes start bs (contents C d) blk (d start)) m = contents C d m.
Proof.
  intros H He Hb Hm. rewrite <- (after_contents pid start d bs C s) by done. destruct (decide (bs = [])) as [E|E].
  - unfold commit_writes. rewrite decide_True by done. cbn. unfold after. rewrite decide_False; [done|].
    rewrite E. apply not_elem_of_nil.
  - eapply (crash_done_phase start bs (ti_ok _ _ _ _ _ _ H) d (contents C d) blk); try done; apply He.
Qed.

(** C1: a transaction is atomic and durable.  From an idle log, a transaction
    (begin_op, any sequence of block updates by bread, change, log_write,
    brelse on at most MAXOPBLOCKS distinct blocks, end_op) terminates without
    a panic or a wait; the disk outside the log then holds the updates and
    the log is idle again.  If the machine stops after any number [k] of its
    disk writes and reboots with an empty cache, initlog terminates with an
    idle log and the disk outside the log is the one before the transaction
    or the one after it, never a mixture. *)
Theorem txn_atomic pid start s us :
  log_idle pid start s ->
  (forall n, n ∈ us.*1 -> blk_ok n /\ ~ in_log start n) ->
  Z.of_nat (length (remove_dups us.*1)) <= MAXOPBLOCKS ->
  wp (txn pid us) (fun _ s' =>
    log_idle pid start s' /\
    outside_log start (disk (lbio s')) (apply_writes (disk (lbio s)) us) /\
    exists ws, dwrites (lbio s') = dwrites (lbio s) ++ ws /\
      forall k c, cache_rep pid ∅ c -> disk c = apply_writes (disk (lbio s)) (take k ws) ->
        wp (initlog pid ROOTDEV start) (fun _ s2 => log_idle pid start s2 /\
          (outside_log start (disk (lbio s2)) (disk (lbio s)) \/
           outside_log start (disk (lbio s2)) (apply_writes (disk (lbio s)) us)))
          (rebooted c)) s.
Proof.
  intros Hi Hus Hlen. set (d := disk (lbio s)). pose proof (li_disk _ _ _ Hi) as He. fold d in He.
  assert (Z.of_nat (length (remove_dups us.*1)) < NBUF) as Hn by (unfold NBUF, MAXOPBLOCKS in *; lia).
  unfold txn. wp_step. eapply wp_mono; [by apply begin_op_idle|]. fold d. intros [] s1 [H1 E1].
  wp_step. eapply wp_mono; [apply (txn_writes_spec pid start d us [] ∅ s1 us.*1); try done; set_solver|].
  intros [] s2 (bs & C & H2 & W2 & E2 & L2). pose proof (ti_ok _ _ _ _ _ _ H2) as Ok.
  assert (contents C d = apply_writes d us) as Ec by (rewrite E2; done).
  assert (forall n, after bs d (contents C d) n = apply_writes d us n) as Ea.
  { intros n. rewrite (after_contents pid start d bs C s2) by done. by rewrite Ec. }
  eapply wp_mono; [apply (end_op_spec pid start d bs C); [done|done|lia]|].
  intros [] s3 (blk & H3 & Hb & W3 & D3). split; [done|]. split.
  - intros n Hno. rewrite D3, <- Ec. by apply (commit_done pid start d bs C s2).
  - eexists. split; [rewrite W3, W2, E1; reflexivity|]. intros k c Hc Dc.
    eapply wp_mono; [by eapply (recover_crash pid start bs d (contents C d) blk k c)|].
    cbn beta. intros [] s4 (H4 & O4 & _). split; [done|]. destruct (decide (length bs < k)%nat); [|by left].
    right. intros n Hno. rewrite O4 by done. apply Ea.
Qed.

(** ** A small disk *)

Module ToyDisk.
Definition zero_block : list Z := replicate (Z.to_nat BSIZE) 0.
Definition d0 : Z -> list Z := fun _ => zero_block.
Definition bio0 : bio :=
  match binit (boot_bio d0) with Ret _ c => c | _ => boot_bio d0 end.
(** The log at block 2, as mkfs lays it out. *)
Definition log0 : log := mkLog false 2 0 false ROOTDEV 0 (fun _ => 0) bio0.
Definition us : list (Z * list Z) :=
  [(50, replicate (Z.to_nat BSIZE) 7); (60, replicate (Z.to_nat BSIZE) 8)].

Lemma bio0_rep pid : cache_rep pid ∅ bio0 /\ disk bio0 = d0.
Proof.
  pose proof (binit_spec pid false d0 [] []) as H. unfold wp in H.
  unfold bio0, boot_bio. destruct (binit _) eqn:E; [|done..]. split; apply H.
Qed.

Lemma log0_idle pid : log_idle pid 2 log0.
Proof.
  destruct (bio0_rep pid) as [H1 H2]. by split.
Qed.

Lemma txn_atomic_witness :
  wp (txn 1 us) (fun _ s' =>
    log_idle 1 2 s' /\
    outside_log 2 (disk (lbio s')) (apply_writes (disk (lbio log0)) us) /\
    exists ws, dwrites (lbio s') = dwrites (lbio log0) ++ ws /\
      forall k c, cache_rep 1 ∅ c -> disk c = apply_writes (disk (lbio log0)) (take k ws) ->
        wp (initlog 1 ROOTDEV 2) (fun _ s2 => log_idle 1 2 s2 /\
          (outside_log 2 (disk (lbio s2)) (disk (lbio log0)) \/
           outside_log 2 (disk (lbio s2)) (apply_writes (disk (lbio log0)) us)))
          (rebooted c)) log0.
Proof.
  apply (txn_atomic 1 2 log0 us).
  - apply log0_idle.
  - intros n Hn. unfold blk_ok, in_log, LOGBLOCKS, MAXOPBLOCKS. unfold us in Hn. cbn in Hn.
    rewrite !elem_of_cons, elem_of_nil in Hn. lia.
  - vm_compute. discriminate.
Defined.
End ToyDisk.
