(* ===== verification/LogFull.v ===== *)
(** * The capacity of the log and of the buffer cache

    begin_op admits as many operations as have a full reservation of log
    blocks, and the blocks of the log stay pinned in the cache until the
    commit.  Since param.h gives the cache as many buffers as the log has
    blocks, the commit of a full log has no buffer to read the log with. *)

From Stdlib Require Import ZArith Lia.
From stdpp Require Import gmap.
From S2P Require Import Prelude Mem Params Sleeplock Bio Log.

Section Full.
Context (pid : Z).
Implicit Types (C : gmap Z hold).

(** When the blocks in use fill the cache each buffer holds one of them. *)
Lemma full_held C s i : cache_rep pid C s -> size C = nbuf -> (i < nbuf)%nat ->
  exists n h, C !! n = Some h /\ h_idx h = i.
Proof.
  intros HC Hsz Hi. set (used := (fun p : Z * hold => h_idx p.2) <$> map_to_list C).
  assert (NoDup used) as Hnd.
  { apply NoDup_fmap_2_strong; [|apply NoDup_map_to_list]. intros [n h] [m k] Hn Hm E. cbn in E.
    apply elem_of_map_to_list in Hn, Hm. pose proof (hold_inj pid C s n m h k HC Hn Hm E). congruence. }
  assert (used ≡ₚ seq 0 nbuf) as Hp.
  { apply submseteq_length_Permutation.
    - apply NoDup_submseteq; [done|]. intros j Hj. apply list_elem_of_fmap in Hj as ([n h] & -> & Hn).
      apply elem_of_map_to_list in Hn. destruct (cr_hold _ _ _ HC n h Hn) as [Hlt _]. apply elem_of_seq. cbn. lia.
    - unfold used. rewrite length_fmap, length_map_to_list, length_seq. lia. }
  assert (i ∈ used) as Hin by (rewrite Hp; apply elem_of_seq; lia).
  apply list_elem_of_fmap in Hin as ([n h] & -> & Hn). apply elem_of_map_to_list in Hn. by exists n, h.
Qed.

Lemma bread_full C s n : cache_rep pid C s -> size C = nbuf -> C !! n = None ->
  bread pid ROOTDEV n s = Panic "bget: no buffers".
Proof.
  intros HC Hsz Hn. destruct (cr_ring _ _ _ HC) as [l Hr]. unfold bread, bind.
  rewrite (bget_scan pid s l n (cr_lock _ _ _ HC) Hr).
  destruct (List.find (is_block (bufs s) ROOTDEV n) l) as [i|] eqn:Ef.
  - destruct (find_block_some _ _ _ _ _ _ HC Hr Ef) as (Hi & _ & B).
    destruct (full_held C s i HC Hsz Hi) as (m & h & Hm & <-). destruct (cr_hold _ _ _ HC m h Hm) as [_ Hh].
    pose proof (bh_blockno _ _ _ _ Hh). congruence.
  - destruct (List.find (is_unused (bufs s)) (rev l)) as [i|] eqn:Eu; [|done].
    apply find_some in Eu as [Hi Hu]. apply in_rev, list_elem_of_In, (ring_mem _ _ i Hr) in Hi.
    destruct (full_held C s i HC Hsz Hi) as (m & h & Hm & <-). destruct (cr_hold _ _ _ HC m h Hm) as [_ Hh].
    unfold is_unused in Hu. apply Z.eqb_eq in Hu.
    pose proof (bh_ref _ _ _ _ Hh). pose proof (bh_pos _ _ _ _ Hh). lia.
Qed.

Lemma lbread_full f C s : log_dev s = ROOTDEV -> cache_rep pid C (lbio s) -> size C = nbuf ->
  C !! f s = None -> lbread pid f s = Panic "bget: no buffers".
Proof.
  intros Hd HC Hsz Hn. unfold lbread, cached, zoom, bind, gets. cbn [obind view lbioL]. rewrite Hd.
  change (u32 ROOTDEV) with ROOTDEV. by rewrite (bread_full C).
Qed.

(** ** The number of operations under way

    Between begin_op and end_op an operation's code reads the count of
    operations only to see that it is positive. *)
Definition any_out {A} (m : M log A) : Prop := forall k s, 1 <= k -> 1 <= log_outstanding s ->
  match m s with
  | Ret a s' => m (set_outstanding k s) = Ret a (set_outstanding k s') /\ log_outstanding s' = log_outstanding s
  | Panic msg => m (set_outstanding k s) = Panic msg
  | _ => True
  end.

Lemma any_out_bind {A B} (m : M log A) (f : A -> M log B) :
  any_out m -> (forall a, any_out (f a)) -> any_out (bind m f).
Proof.
  intros Hm Hf k s Hk Hs. unfold bind. specialize (Hm k s Hk Hs). destruct (m s) as [a s'| | |]; cbn; [|by rewrite Hm|done..].
  destruct Hm as [-> E]. cbn. rewrite <- E in Hs |- *. apply (Hf a k s' Hk Hs).
Qed.
Lemma any_out_ret {A} (a : A) : any_out (ret a).
Proof. by intros k s. Qed.
Lemma any_out_gets {A} (f : log -> A) : (forall k s, f (set_outstanding k s) = f s) -> any_out (gets f).
Proof. intros E k s Hk Hs. cbn. unfold gets. by rewrite E. Qed.
Lemma any_out_modify (f : log -> log) : (forall k s, f (set_outstanding k s) = set_outstanding k (f s)) ->
  (forall s, log_outstanding (f s) = log_outstanding s) -> any_out (modify f).
Proof. intros E1 E2 k s Hk Hs. cbn. unfold modify. by rewrite E1, E2. Qed.
Lemma any_out_cached {A} (m : M bio A) : any_out (cached m).
Proof. intros k s Hk Hs. unfold cached, zoom. cbn. by destruct (m (lbio s)). Qed.
Lemma any_out_lbread n : any_out (lbread pid (fun _ => n)).
Proof.
  unfold lbread. apply any_out_bind; [by apply any_out_gets|]. intros dev.
  apply any_out_bind; [by apply any_out_gets|]. intros b. apply any_out_cached.
Qed.
Lemma any_out_acquire : any_out (acquire log_lockL).
Proof. intros k s Hk Hs. unfold acquire, bind, gets. cbn. by destruct (log_lock s). Qed.
Lemma any_out_release : any_out (release log_lockL).
Proof. intros k s Hk Hs. unfold release, bind, gets. cbn. by destruct (log_lock s). Qed.
Lemma any_out_when b (m : M log unit) : any_out m -> any_out (when b m).
Proof. intros Hm. destruct b; [exact Hm|apply any_out_ret]. Qed.

Lemma any_out_state {A} (F : log -> M log A) :
  (forall k s, 1 <= k -> 1 <= log_outstanding s -> F (set_outstanding k s) = F s) ->
  (forall s, 1 <= log_outstanding s -> any_out (F s)) -> any_out (let* s := gets id in F s).
Proof.
  intros E HF k s Hk Hs. unfold bind, gets. cbn [obind id]. rewrite (E k s Hk Hs). by apply HF.
Qed.

Lemma any_out_log_write b : any_out (log_write b).
Proof.
  unfold log_write. apply any_out_bind; [apply any_out_acquire|]. intros []. apply any_out_state.
  - intros k s Hk Hs. cbn [lh_n log_outstanding lbio lh_block set_outstanding]. by bsimp.
  - intros s Hs. destruct (LOGBLOCKS <=? lh_n s); [by intros k s'|]. bsimp.
    apply any_out_bind; [by apply any_out_modify|]. intros []. apply any_out_bind; [|intros []; apply any_out_release].
    apply any_out_when, any_out_bind; [apply any_out_cached|]. intros []. by apply any_out_modify.
Qed.

Lemma any_out_writes us : any_out (txn_writes pid us).
Proof.
  induction us as [|u us IH]; cbn [txn_writes]; [apply any_out_ret|]. apply any_out_bind; [|done].
  unfold txn_write. apply any_out_bind; [apply any_out_lbread|]. intros b.
  repeat (apply any_out_bind; [first [apply any_out_cached|apply any_out_log_write]|]; intros []).
  apply any_out_cached.
Qed.

(** ** begin_op and end_op among other operations *)

Lemma begin_op_admits fuel s : log_lock s = false -> log_committing s = false ->
  lh_n s + (log_outstanding s + 1) * MAXOPBLOCKS <= LOGBLOCKS ->
  begin_op (S fuel) s = Ret tt (set_outstanding (log_outstanding s + 1) s).
Proof.
  intros Hl Hc Hn. destruct s as [lk st o cm dv n blk c]. cbn in *. subst.
  unfold begin_op, acquire, release, bind, gets, modify, ret. cbn. rewrite (proj2 (Z.ltb_ge _ _)) by done. done.
Qed.

Definition woken_log (s : log) : log := bio_to s (put b_wokenL (b_woken (lbio s) ++ [ChLog]) (lbio s)).

Lemma end_op_more s : log_lock s = false -> log_committing s = false -> 1 < log_outstanding s ->
  end_op pid s = Ret tt (woken_log (set_outstanding (log_outstanding s - 1) s)).
Proof.
  intros Hl Hc Ho. destruct s as [lk st o cm dv n blk c]. cbn in *. subst.
  unfold end_op, acquire, release, wakeup, bind, gets, modify, when, ret. cbn. bsimp. done.
Qed.

Lemma txn_inv_woken start d bs C s : txn_inv pid start d bs C s -> txn_inv pid start d bs C (woken_log s).
Proof. intros [L O K Ok [] HC Hdom Hpin Hd]. split; try done. by apply cache_rep_woken. Qed.

(** ** A full log *)

Section Txn.
Context (start : Z).

Lemma full_size d bs C s : txn_inv pid start d bs C s -> Z.of_nat (length bs) = NBUF -> size C = nbuf.
Proof. intros H Hlen. rewrite (txn_size pid start _ _ _ _ H). unfold nbuf. lia. Qed.

(** Another write panics: in log_write if the block is in the log, in bget
    if it is not. *)
Lemma txn_write_full d bs C s n x : txn_inv pid start d bs C s -> Z.of_nat (length bs) = NBUF ->
  exists msg, txn_write pid (n, x) s = Panic msg.
Proof.
  intros H Hlen. pose proof H as [L O K Ok Hh HC Hdom Hpin Hd]. pose proof (full_size _ _ _ _ H Hlen) as Hsz.
  unfold txn_write. cbn [fst snd]. destruct (C !! n) as [h|] eqn:Ec.
  - destruct (Hpin n h Ec) as [E1 E2].
    assert (wp (let* b := lbread pid (fun _ => n) in cached (set_data b x) ;; ret b)
      (fun _ s' => log_lock s' = false /\ lh_n s' = lh_n s) s) as Hw.
    { wp_step. eapply (wp_lbread pid _ _ _ C); [apply Hh|done|unfold readable; rewrite Ec, E1, E2; done|].
      intros b c (Hb & _ & H1 & _). apply wp_bind. eapply (wp_set_data pid _ _ n); log_simp; [exact H1|map_look|done|].
      intros c2 _ _. by wp_step. }
    unfold wp in Hw. unfold bind in Hw |- *. destruct (lbread pid _ s) as [b s1| | |]; try done. cbn [obind] in *.
    destruct (cached (set_data b x) s1) as [[] s2| | |]; try done. cbn [obind ret] in *. destruct Hw as [Hl Hn].
    exists "too big a transaction". unfold log_write, acquire, bind, gets. cbn. rewrite Hl. cbn. rewrite Hn, (hl_n _ _ _ Hh).
    rewrite (proj2 (Z.leb_le _ _)); [done|]. unfold LOGBLOCKS, NBUF in *. lia.
  - eexists. unfold bind at 1. rewrite (lbread_full _ C); [done|apply Hh|done|done|done].
Qed.

(** Writes that fill the log with distinct blocks succeed; other sequences
    that touch as many blocks panic on the way. *)
Definition blocks_of (bs : list Z) (us : list (Z * list Z)) : gset Z := list_to_set (bs ++ us.*1).

Lemma blocks_add bs n x us : blocks_of (add_block bs n) us = blocks_of bs ((n, x) :: us).
Proof.
  unfold blocks_of. apply set_eq. intros m. rewrite !elem_of_list_to_set, !elem_of_app, add_block_in. cbn.
  rewrite elem_of_cons. tauto.
Qed.
Lemma blocks_nil bs : NoDup bs -> size (blocks_of bs []) = length bs.
Proof. intros Hnd. unfold blocks_of. cbn. rewrite app_nil_r. by apply size_list_to_set. Qed.
Lemma distinct_size (l : list Z) : length (remove_dups l) = size (list_to_set l : gset Z).
Proof.
  rewrite <- (size_list_to_set (C := gset Z) (remove_dups l)) by apply NoDup_remove_dups. f_equal.
  apply set_eq. intros m. by rewrite !elem_of_list_to_set, elem_of_remove_dups.
Qed.

Lemma writes_fill d us : forall bs C s, txn_inv pid start d bs C s -> Z.of_nat (length bs) <= NBUF ->
  (forall n, n ∈ us.*1 -> blk_ok n /\ ~ in_log start n) -> Z.of_nat (size (blocks_of bs us)) = NBUF ->
  match txn_writes pid us s with
  | Ret _ s' => exists bs' C', txn_inv pid start d bs' C' s' /\ Z.of_nat (length bs') = NBUF
  | Panic _ => ~ NoDup (bs ++ us.*1)
  | _ => False
  end.
Proof.
  induction us as [|[n x] us IH]; intros bs C s H Hle Hok Hsz; cbn [txn_writes].
  - exists bs, C. split; [done|]. rewrite blocks_nil in Hsz; [done|]. apply (ti_ok _ _ _ _ _ _ H).
  - destruct (decide (Z.of_nat (length bs) = NBUF)) as [Hf|Hf].
    + destruct (txn_write_full d bs C s n x H Hf) as [msg E]. unfold bind. rewrite E. cbn [obind].
      intros Hnd. pose proof (size_list_to_set (C := gset Z) _ Hnd) as Es. unfold blocks_of in Hsz.
      rewrite Es, length_app in Hsz. cbn in Hsz. lia.
    + destruct (Hok n) as [Bn Nn]; [cbn; apply list_elem_of_here|].
      pose proof (txn_write_spec pid start d bs C s n x H Bn Nn ltac:(lia)) as Hw. unfold wp in Hw. unfold bind.
      destruct (txn_write pid (n, x) s) as [[] s1| | |]; try done. cbn [obind]. destruct Hw as (C1 & H1 & _).
      assert (Z.of_nat (length (add_block bs n)) <= NBUF) as Hle'.
      { unfold add_block. case_decide; [done|]. rewrite length_app. cbn. lia. }
      specialize (IH _ C1 s1 H1 Hle'). rewrite blocks_add with (x := x) in IH.
      specialize (IH (fun m Hm => Hok m (list_elem_of_further _ _ _ Hm)) Hsz).
      destruct (txn_writes pid us s1); try done. intros Hnd. apply IH. unfold add_block. case_decide as Hin.
      * apply NoDup_app in Hnd as (_ & Hx & _). exfalso. apply (Hx n Hin). cbn. apply list_elem_of_here.
      * rewrite <- app_assoc. exact Hnd.
Qed.

(** The commit of a full log reads its first log block. *)
Lemma commit_full bs C s : txn_ok start bs -> hdr_lists start bs s -> cache_rep pid C (lbio s) ->
  (forall n, is_Some (C !! n) -> n ∈ bs) -> size C = nbuf -> Z.of_nat (length bs) = NBUF ->
  commit pid s = Panic "bget: no buffers".
Proof.
  intros Ok [Hdev Hst Hn Hb] HC Hdom Hsz Hlen. destruct Ok as [Hs _ Hblk _]. unfold NBUF, LOGBLOCKS, MAXOPBLOCKS in *.
  unfold commit, bind at 1, gets at 1. cbn [obind]. rewrite Hn, (proj2 (Z.ltb_lt 0 _)) by lia. cbn [when].
  unfold bind at 1, write_log, bind at 1, gets at 1. cbn [obind]. rewrite Hn, Nat2Z.id.
  destruct (length bs) eqn:El; [lia|]. cbn [for_range]. unfold bind at 1, write_log_step, bind at 1.
  rewrite (lbread_full _ C); try done. rewrite Hst, u32_small by lia.
  destruct (C !! (start + 0 + 1)) eqn:E; [|done]. exfalso.
  assert (start + 0 + 1 ∈ bs) as Hin by (apply Hdom; by eexists).
  apply Hblk in Hin as [_ Hnot]. apply Hnot. unfold in_log, LOGBLOCKS, MAXOPBLOCKS. lia.
Qed.

Lemma end_op_full d bs C s : txn_inv pid start d bs C s -> Z.of_nat (length bs) = NBUF ->
  end_op pid s = Panic "bget: no buffers".
Proof.
  intros H Hlen. pose proof H as [L O K Ok Hh HC Hdom Hpin Hd]. pose proof (full_size _ _ _ _ H Hlen) as Hsz.
  destruct s as [lk st o cm dv n blk c]. cbn in *. subst lk o cm.
  unfold end_op, acquire, release, bind, gets, modify, when. cbn -[commit]. change (1 - 1 =? 0) with true. cbn -[commit].
  rewrite (commit_full bs C); [done|done|by destruct Hh|done|intros m; by apply Hdom|done|done].
Qed.

(** ** Three operations at once *)

Definition three_ops (us : list (Z * list Z)) : M log unit :=
  begin_op 1 ;; begin_op 1 ;; begin_op 1 ;; txn_writes pid us ;; end_op pid ;; end_op pid ;; end_op pid.

(** Up to the last end_op the state is that of a single operation, with two
    more wakeups. *)
Lemma three_begin s : log_idle pid start s ->
  exists s1, txn_inv pid start (disk (lbio s)) [] ∅ s1 /\ dwrites (lbio s1) = dwrites (lbio s) /\
    forall us, three_ops us s =
      (txn_writes pid us ;; end_op pid ;; end_op pid ;; end_op pid) (set_outstanding 3 s1).
Proof.
  intros Hi. pose proof (begin_op_idle pid start s 0 Hi) as Hw. pose proof Hi as [L O K Hh _ _ _].
  pose proof (hl_n _ _ _ Hh) as En. cbn in En.
  assert (begin_op 1 s = Ret tt (set_outstanding 1 s)) as E1.
  { rewrite begin_op_admits, O; try done. rewrite En, O. done. }
  unfold wp in Hw. rewrite E1 in Hw. destruct Hw as [Hinv Hb]. exists (set_outstanding 1 s).
  split; [done|]. split; [by rewrite Hb|]. intros us. unfold three_ops. unfold bind at 1. rewrite E1. cbn [obind].
  unfold bind at 1. rewrite begin_op_admits; cbn [obind]; [|done|done|cbn; rewrite En; done].
  unfold bind at 1. rewrite begin_op_admits; cbn [obind]; [|done|done|cbn; rewrite En; done]. done.
Qed.

Lemma three_end d bs C s : txn_inv pid start d bs C s ->
  exists s1, txn_inv pid start d bs C s1 /\ dwrites (lbio s1) = dwrites (lbio s) /\
    (end_op pid ;; end_op pid ;; end_op pid) (set_outstanding 3 s) = end_op pid s1.
Proof.
  intros H. pose proof H as [L O K Ok Hh HC Hdom Hpin Hd].
  exists (woken_log (woken_log s)). split; [by do 2 apply txn_inv_woken|]. split; [done|].
  unfold bind. rewrite end_op_more by done. cbn [obind]. rewrite end_op_more by done. cbn [obind].
  f_equal. destruct s. cbn in *. by subst.
Qed.
End Txn.
End Full.

(** C18: what three concurrent operations may write.  begin_op admits three
    operations at once, since each reserves MAXOPBLOCKS of the LOGBLOCKS log
    blocks.  From an idle log on any disk, let them make any sequence of
    updates of blocks outside the log.  If these are fewer than NBUF distinct
    blocks the operations return, the last end_op having committed them all.
    If they are as many as the reservations allow, 3 * MAXOPBLOCKS, which is
    NBUF, the kernel panics, the log having pinned every buffer; when no
    block is written twice it is the commit that panics, in bget, as it reads
    the first log block. *)
Theorem full_log_commit_panics pid start s us :
  log_idle pid start s ->
  (forall n, n ∈ us.*1 -> blk_ok n /\ ~ in_log start n) ->
  let n := Z.of_nat (length (remove_dups us.*1)) in
  (n < NBUF -> wp (three_ops pid us) (fun _ s' => log_idle pid start s' /\
     outside_log start (disk (lbio s')) (apply_writes (disk (lbio s)) us)) s) /\
  (n = 3 * MAXOPBLOCKS -> exists msg, three_ops pid us s = Panic msg /\
     (NoDup us.*1 -> msg = "bget: no buffers"%string)).
Proof.
  intros Hi Hok n. set (d := disk (lbio s)). pose proof (li_disk _ _ _ Hi) as He. fold d in He.
  destruct (three_begin pid start s Hi) as (s1 & H1 & _ & E1). fold d in H1.
  pose proof (any_out_writes pid us 3 s1 ltac:(lia)) as Hout. rewrite (ti_out _ _ _ _ _ _ H1) in Hout. specialize (Hout ltac:(lia)).
  split; intros Hn.
  - pose proof (txn_writes_spec pid start d us [] ∅ s1 us.*1 H1 Hok ltac:(set_solver) ltac:(done) Hn) as Hw.
    unfold wp in Hw |- *. destruct (txn_writes pid us s1) as [[] s2| | |] eqn:Ew; try done. destruct Hw as (bs & C & H2 & _ & E2 & L2).
    destruct (three_end pid start d bs C s2 H2) as (s3 & H3 & _ & E3).
    rewrite E1. unfold bind at 1. rewrite (proj1 Hout). cbn [obind]. rewrite E3.
    fold (wp (end_op pid) (fun _ s' => log_idle pid start s' /\ outside_log start (disk (lbio s')) (apply_writes d us)) s3).
    eapply wp_mono; [apply (end_op_spec pid start d bs C); [done|done|lia]|].
    intros [] s4 (blk & H4 & Hb & _ & D4). split; [done|]. assert (contents C d = apply_writes d us) as Ec by (rewrite E2; done).
    intros m Hm. rewrite D4, <- Ec. by apply (commit_done pid start d bs C s3).
  - pose proof (writes_fill pid start d us [] ∅ s1 H1) as Hw. unfold blocks_of in Hw. cbn [app length] in Hw.
    rewrite <- distinct_size in Hw. specialize (Hw ltac:(done) Hok Hn). rewrite E1. unfold bind at 1.
    destruct (txn_writes pid us s1) as [[] s2|msg| |] eqn:Ew; try done.
    + destruct Hw as (bs & C & H2 & Hlen). destruct (three_end pid start d bs C s2 H2) as (s3 & H3 & _ & E3).
      rewrite (proj1 Hout). cbn [obind]. rewrite E3. rewrite (end_op_full pid start d bs C s3 H3 Hlen). by eexists.
    + rewrite Hout. exists msg. done.
Qed.

(** Three operations of ten blocks each on the small disk. *)
Definition ten (k : Z) : list (Z * list Z) := (fun i => (i, ToyDisk.zero_block)) <$> seqZ k 10.
Example ten_each_panics : three_ops 1 (ten 100 ++ ten 110 ++ ten 120) ToyDisk.log0 = Panic "bget: no buffers".
Proof. vm_compute. reflexivity. Qed.

Lemma full_log_commit_panics_witness :
  let us := ten 100 ++ ten 110 ++ ten 120 in
  Z.of_nat (length (remove_dups us.*1)) = 3 * MAXOPBLOCKS /\
  let n := Z.of_nat (length (remove_dups us.*1)) in
  (n < NBUF -> wp (three_ops 1 us) (fun _ s' => log_idle 1 2 s' /\
     outside_log 2 (disk (lbio s')) (apply_writes (disk (lbio ToyDisk.log0)) us)) ToyDisk.log0) /\
  (n = 3 * MAXOPBLOCKS -> exists msg, three_ops 1 us ToyDisk.log0 = Panic msg /\
     (NoDup us.*1 -> msg = "bget: no buffers"%string)).
Proof.
  split; [vm_compute; reflexivity|]. apply (full_log_commit_panics 1 2 ToyDisk.log0).
  - apply ToyDisk.log0_idle.
  - intros n Hn. change ((ten 100 ++ ten 110 ++ ten 120).*1) with (seqZ 100 30) in Hn. apply elem_of_seqZ in Hn.
    unfold blk_ok, in_log, LOGBLOCKS, MAXOPBLOCKS. lia.
Defined.
