(* ===== verification/Fs.v ===== *)
(** * kernel/fs.c: blocks, inodes, directories and path names

    Every routine of fs.c on top of the log and the buffer cache.  A pointer
    to an in-memory inode is its index in [itable.inode]; a kernel-side buffer
    is a byte list; a C string is the list of its bytes before the NUL.  User
    memory is reached through the interface [UserMem]. *)

From Stdlib Require Import ZArith Lia.
From stdpp Require Import gmap.
From S2P Require Import Prelude Mem StringC Params Env Sleeplock Bio Log.

Definition ROOTINO : Z := 1.
Definition FSMAGIC : Z := 0x10203040.
Definition NDIRECT : Z := 12.
Definition NINDIRECT : Z := BSIZE / 4.
Definition MAXFILE : Z := NDIRECT + NINDIRECT.
Definition sizeof_dinode : Z := 64.
Definition IPB : Z := BSIZE / sizeof_dinode.
Definition BPB : Z := BSIZE * 8.
Definition DIRSIZ : Z := 14.
Definition sizeof_dirent : Z := 16.
Definition T_DIR : Z := 1.
Definition T_FILE : Z := 2.
Definition T_DEVICE : Z := 3.

Record superblock := mkSb {
  sb_magic : Z; sb_size : Z; sb_nblocks : Z; sb_ninodes : Z;
  sb_nlog : Z; sb_logstart : Z; sb_inodestart : Z; sb_bmapstart : Z;
}.
Definition IBLOCK (i : Z) (sb : superblock) : Z := u32 (i / IPB + sb_inodestart sb).
Definition BBLOCK (b : Z) (sb : superblock) : Z := u32 (b / BPB + sb_bmapstart sb).

(** struct inode; the fields below [i_valid] are the copy of the disk inode. *)
Record inode := mkInode {
  i_dev : Z; i_inum : Z; i_ref : Z; i_lock : sleeplock; i_valid : bool;
  i_type : Z; i_major : Z; i_minor : Z; i_nlink : Z; i_size : Z; i_addrs : Z -> Z;
}.
Definition ninode : nat := Z.to_nat NINODE.

(** struct dinode in a block, at byte offset [o]. *)
Definition dinode_off (inum : Z) : nat := Z.to_nat (sizeof_dinode * (inum mod IPB)).
Definition d_type (o : nat) (d : list Z) : Z := i16 (getf 2 o d).
Definition d_major (o : nat) (d : list Z) : Z := i16 (getf 2 (o + 2) d).
Definition d_minor (o : nat) (d : list Z) : Z := i16 (getf 2 (o + 4) d).
Definition d_nlink (o : nat) (d : list Z) : Z := i16 (getf 2 (o + 6) d).
Definition d_size (o : nat) (d : list Z) : Z := getf 4 (o + 8) d.
Definition d_addr (o : nat) (i : Z) (d : list Z) : Z := getf 4 (o + 12 + 4 * Z.to_nat i) d.

Record fs (W : Type) := mkFs {
  fs_log : log;
  fs_sb : superblock;
  itable_lock : spinlock;
  inodes : nat -> inode;
  fs_user : W;
}.
Arguments mkFs {W}.
Arguments fs_log {W}. Arguments fs_sb {W}. Arguments itable_lock {W}.
Arguments inodes {W}. Arguments fs_user {W}.

Section Lenses.
Context {W : Type}.
Definition fs_logL : lens (fs W) log :=
  Lens fs_log (fun l s => mkFs l (fs_sb s) (itable_lock s) (inodes s) (fs_user s)).
Definition itable_lockL : lens (fs W) spinlock :=
  Lens itable_lock (fun l s => mkFs (fs_log s) (fs_sb s) l (inodes s) (fs_user s)).
Definition fs_userL : lens (fs W) W :=
  Lens fs_user (fun u s => mkFs (fs_log s) (fs_sb s) (itable_lock s) (inodes s) u).
Definition fs_bioL : lens (fs W) bio := lcomp fs_logL lbioL.
Definition fs_wokenL : lens (fs W) (list chan) := lcomp fs_bioL b_wokenL.
Definition set_sb (b : superblock) (s : fs W) : fs W :=
  mkFs (fs_log s) b (itable_lock s) (inodes s) (fs_user s).
Definition on_inode (ip : nat) (f : inode -> inode) (s : fs W) : fs W :=
  mkFs (fs_log s) (fs_sb s) (itable_lock s) (upd (inodes s) ip (f (inodes s ip))) (fs_user s).
Definition i_lockL (ip : nat) : lens (fs W) sleeplock :=
  Lens (fun s => i_lock (inodes s ip))
       (fun l => on_inode ip (fun i => mkInode (i_dev i) (i_inum i) (i_ref i) l (i_valid i)
          (i_type i) (i_major i) (i_minor i) (i_nlink i) (i_size i) (i_addrs i))).
End Lenses.

Definition with_ref (r : Z) (i : inode) : inode :=
  mkInode (i_dev i) (i_inum i) r (i_lock i) (i_valid i)
    (i_type i) (i_major i) (i_minor i) (i_nlink i) (i_size i) (i_addrs i).
Definition with_ivalid (v : bool) (i : inode) : inode :=
  mkInode (i_dev i) (i_inum i) (i_ref i) (i_lock i) v
    (i_type i) (i_major i) (i_minor i) (i_nlink i) (i_size i) (i_addrs i).
Definition with_type (t : Z) (i : inode) : inode :=
  mkInode (i_dev i) (i_inum i) (i_ref i) (i_lock i) (i_valid i)
    t (i_major i) (i_minor i) (i_nlink i) (i_size i) (i_addrs i).
Definition with_size (n : Z) (i : inode) : inode :=
  mkInode (i_dev i) (i_inum i) (i_ref i) (i_lock i) (i_valid i)
    (i_type i) (i_major i) (i_minor i) (i_nlink i) n (i_addrs i).
Definition with_addr (k a : Z) (i : inode) : inode :=
  mkInode (i_dev i) (i_inum i) (i_ref i) (i_lock i) (i_valid i)
    (i_type i) (i_major i) (i_minor i) (i_nlink i) (i_size i) (upd (i_addrs i) k a).
Definition with_nlink (n : Z) (i : inode) : inode :=
  mkInode (i_dev i) (i_inum i) (i_ref i) (i_lock i) (i_valid i)
    (i_type i) (i_major i) (i_minor i) n (i_size i) (i_addrs i).
Definition with_dev_ids (ma mi nl : Z) (i : inode) : inode :=
  mkInode (i_dev i) (i_inum i) (i_ref i) (i_lock i) (i_valid i)
    (i_type i) ma mi nl (i_size i) (i_addrs i).

(** The bytes of an inode's fields written over a disk inode. *)
Fixpoint put_addrs (a : Z -> Z) (o k : nat) (d : list Z) : list Z :=
  match k with
  | O => d
  | S k => putf 4 (o + 12 + 4 * k) (a (Z.of_nat k)) (put_addrs a o k d)
  end.
Definition put_dinode (o : nat) (i : inode) (d : list Z) : list Z :=
  let d := putf 2 o (i_type i) d in
  let d := putf 2 (o + 2) (i_major i) d in
  let d := putf 2 (o + 4) (i_minor i) d in
  let d := putf 2 (o + 6) (i_nlink i) d in
  let d := putf 4 (o + 8) (i_size i) d in
  put_addrs (i_addrs i) o (Z.to_nat (NDIRECT + 1)) d.
Definition get_dinode (o : nat) (d : list Z) (i : inode) : inode :=
  mkInode (i_dev i) (i_inum i) (i_ref i) (i_lock i) (i_valid i)
    (d_type o d) (d_major o d) (d_minor o d) (d_nlink o d) (d_size o d) (fun k => d_addr o k d).

(** The super block in a block. *)
Definition get_sb (d : list Z) : superblock :=
  mkSb (getf 4 0 d) (getf 4 4 d) (getf 4 8 d) (getf 4 12 d) (getf 4 16 d) (getf 4 20 d) (getf 4 24 d) (getf 4 28 d).

(** Bitmap access: bit [bi] of a block of the free map. *)
Definition bit_set (d : list Z) (bi : Z) : bool :=
  negb (Z.land (nth (Z.to_nat (bi / 8)) d 0) (Z.shiftl 1 (bi mod 8)) =? 0).
Definition mark_bit (d : list Z) (bi : Z) : list Z :=
  let k := Z.to_nat (bi / 8) in <[k := Z.lor (nth k d 0) (Z.shiftl 1 (bi mod 8))]> d.
Definition clear_bit (d : list Z) (bi : Z) : list Z :=
  let k := Z.to_nat (bi / 8) in
  <[k := Z.land (nth k d 0) (u8 (Z.lnot (Z.shiftl 1 (bi mod 8))))]> d.

(** The inner loop of balloc: the first clear bit of the block. *)
Fixpoint free_bit (d : list Z) (limit bi : Z) (n : nat) : option Z :=
  match n with
  | O => None
  | S n =>
      if limit <=? bi then None
      else if negb (bit_set d bi) then Some bi
      else free_bit d limit (bi + 1) n
  end.

(** Where readi and writei copy to and from. *)
Inductive iodst := UserDst (va : Z) | KernDst.
Inductive iosrc := UserSrc (va : Z) | KernSrc (bytes : list Z).

Definition mem_of (s t : list Z) : mem := mwrite (mwrite (fun _ => 0) 0 s) 1024 t.
(** strncmp on two byte buffers. *)
Definition namecmp (s t : list Z) : Z := strncmp (mem_of s t) 0 1024 DIRSIZ.

(** The directory entry in 16 bytes. *)
Definition de_inum (de : list Z) : Z := getf 2 0 de.
Definition de_name (de : list Z) : list Z := take (Z.to_nat DIRSIZ) (drop 2 de).
Definition mk_dirent (inum : Z) (name : list Z) : list Z :=
  le_enc 2 inum ++ mread (strncpy (mem_of name []) 2048 0 DIRSIZ) 2048 (Z.to_nat DIRSIZ).

(** skipelem on a path: the rest of the path and the name buffer. *)
Definition slash : Z := 47.
Fixpoint skip_slashes (path : list Z) : list Z :=
  match path with c :: p => if c =? slash then skip_slashes p else path | [] => [] end.
Fixpoint take_elem (path : list Z) : list Z * list Z :=
  match path with
  | [] => ([], [])
  | c :: p => if c =? slash then ([], path) else let (e, r) := take_elem p in (c :: e, r)
  end.
Definition skipelem (path name : list Z) : option (list Z * list Z) :=
  let path := skip_slashes path in
  match path with
  | [] => None
  | _ =>
      let (s, path) := take_elem path in
      let len := Z.of_nat (length s) in
      let name := if DIRSIZ <=? len then splice name 0 (take (Z.to_nat DIRSIZ) s)
                  else splice (splice name 0 s) (length s) [0] in
      Some (skip_slashes path, name)
  end.

Section Ops.
Context {W : Type} `{UserMem W}.
(** The running process (its pid and its slot in the process table), and how
    many wakeups its waits are observed for. *)
Context (pid : Z) (me : nat) (fuel : nat).
Notation F := (M (fs W)).

Definition fbread (dev n : Z) : F nat := zoom fs_bioL (bread pid (u32 dev) (u32 n)).
Definition fbrelse (b : nat) : F unit := zoom fs_bioL (brelse pid b).
Definition fdata (b : nat) : F (list Z) := gets (fun s => get_data b (view fs_bioL s)).
Definition fset_data (b : nat) (d : list Z) : F unit := zoom fs_bioL (set_data b d).
Definition flog_write (b : nat) : F unit := zoom fs_logL (log_write b).
Definition get_inode (ip : nat) : F inode := gets (fun s => inodes s ip).
Definition set_inode (ip : nat) (f : inode -> inode) : F unit := modify (on_inode ip f).

Definition readsb (dev : Z) : F unit :=
  let* bp := fbread dev 1 in
  let* d := fdata bp in
  modify (set_sb (get_sb d)) ;;
  fbrelse bp.

Definition bzero (dev bno : Z) : F unit :=
  let* bp := fbread dev bno in
  fset_data bp (replicate (Z.to_nat BSIZE) 0) ;;
  flog_write bp ;;
  fbrelse bp.

(** One iteration of balloc's outer loop. *)
Definition balloc_step (dev b : Z) : F (Z + Z) :=
  let* sb := gets fs_sb in
  if sb_size sb <=? b then ret (inr 0) else
  let* bp := fbread dev (BBLOCK b sb) in
  let* d := fdata bp in
  match free_bit d (sb_size sb - b) 0 (Z.to_nat BPB) with
  | Some bi =>
      fset_data bp (mark_bit d bi) ;;
      flog_write bp ;;
      fbrelse bp ;;
      bzero dev (b + bi) ;;
      ret (inr (b + bi))
  | None => fbrelse bp ;; ret (inl (b + BPB))
  end.
Definition balloc (dev : Z) : F Z :=
  let* sb := gets fs_sb in
  loop (S (S (Z.to_nat (sb_size sb / BPB)))) (balloc_step dev) 0.

Definition bfree (dev b : Z) : F unit :=
  let* sb := gets fs_sb in
  let* bp := fbread dev (BBLOCK b sb) in
  let bi := b mod BPB in
  let* d := fdata bp in
  if negb (bit_set d bi) then panic "freeing free block" else
  fset_data bp (clear_bit d bi) ;;
  flog_write bp ;;
  fbrelse bp.

Definition iinit : F unit :=
  modify (put itable_lockL false) ;;
  for_range ninode 0 (fun i => modify (put (i_lockL (Z.to_nat i)) initsleeplock)).

(** The scan of iget: the entry of the inode, or the first free one. *)
Definition is_inode (f : nat -> inode) (dev inum : Z) (i : nat) : bool :=
  (0 <? i_ref (f i)) && (i_dev (f i) =? dev) && (i_inum (f i) =? inum).
Definition is_empty (f : nat -> inode) (i : nat) : bool := i_ref (f i) =? 0.

Definition iget (dev inum : Z) : F nat :=
  acquire itable_lockL ;;
  let* f := gets inodes in
  match List.find (is_inode f dev inum) (seq 0 ninode) with
  | Some ip =>
      set_inode ip (fun i => with_ref (i32 (i_ref i + 1)) i) ;;
      release itable_lockL ;;
      ret ip
  | None =>
      match List.find (is_empty f) (seq 0 ninode) with
      | None => panic "iget: no inodes"
      | Some ip =>
          set_inode ip (fun i => mkInode dev inum 1 (i_lock i) false (i_type i) (i_major i)
                                   (i_minor i) (i_nlink i) (i_size i) (i_addrs i)) ;;
          release itable_lockL ;;
          ret ip
      end
  end.

Definition ialloc_step (dev type inum : Z) : F (Z + option nat) :=
  let* sb := gets fs_sb in
  if sb_ninodes sb <=? inum then ret (inr None) else
  let* bp := fbread dev (IBLOCK inum sb) in
  let* d := fdata bp in
  let o := dinode_off inum in
  if d_type o d =? 0 then
    fset_data bp (putf 2 o type (splice d o (replicate (Z.to_nat sizeof_dinode) 0))) ;;
    flog_write bp ;;
    fbrelse bp ;;
    let* ip := iget dev inum in
    ret (inr (Some ip))
  else fbrelse bp ;; ret (inl (inum + 1)).
Definition ialloc (dev type : Z) : F (option nat) :=
  let* sb := gets fs_sb in
  loop (S (Z.to_nat (sb_ninodes sb))) (ialloc_step dev type) 1.

Definition iupdate (ip : nat) : F unit :=
  let* i := get_inode ip in
  let* sb := gets fs_sb in
  let* bp := fbread (i_dev i) (IBLOCK (i_inum i) sb) in
  let* d := fdata bp in
  fset_data bp (put_dinode (dinode_off (i_inum i)) i d) ;;
  flog_write bp ;;
  fbrelse bp.

Definition idup (ip : nat) : F nat :=
  acquire itable_lockL ;;
  set_inode ip (fun i => with_ref (i32 (i_ref i + 1)) i) ;;
  release itable_lockL ;;
  ret ip.

Definition ilock (ip : option nat) : F unit :=
  match ip with
  | None => panic "ilock"
  | Some ip =>
      let* i := get_inode ip in
      if i_ref i <? 1 then panic "ilock" else
      acquiresleep (i_lockL ip) (ChInodeLock ip) pid fuel ;;
      let* i := get_inode ip in
      when (negb (i_valid i))
        (let* sb := gets fs_sb in
         let* bp := fbread (i_dev i) (IBLOCK (i_inum i) sb) in
         let* d := fdata bp in
         set_inode ip (get_dinode (dinode_off (i_inum i)) d) ;;
         fbrelse bp ;;
         set_inode ip (with_ivalid true) ;;
         let* i := get_inode ip in
         if i_type i =? 0 then panic "ilock: no type" else ret tt)
  end.

Definition iunlock (ip : option nat) : F unit :=
  match ip with
  | None => panic "iunlock"
  | Some ip =>
      let* held := holdingsleep (i_lockL ip) pid in
      let* i := get_inode ip in
      if negb held || (i_ref i <? 1) then panic "iunlock" else
      releasesleep (i_lockL ip) fs_wokenL (ChInodeLock ip)
  end.

(** One slot of the direct blocks, and one of an indirect block. *)
Definition itrunc_direct (ip : nat) (k : Z) : F unit :=
  let* i := get_inode ip in
  when (negb (i_addrs i k =? 0))
    (bfree (i_dev i) (i_addrs i k) ;; set_inode ip (with_addr k 0)).
Definition itrunc_indirect (ip : nat) (bp : nat) (j : Z) : F unit :=
  let* i := get_inode ip in
  let* d := fdata bp in
  let a := getf 4 (4 * Z.to_nat j) d in
  when (negb (a =? 0)) (bfree (i_dev i) a).

Definition itrunc (ip : nat) : F unit :=
  for_range (Z.to_nat NDIRECT) 0 (itrunc_direct ip) ;;
  let* i := get_inode ip in
  when (negb (i_addrs i NDIRECT =? 0))
    (let* bp := fbread (i_dev i) (i_addrs i NDIRECT) in
     for_range (Z.to_nat NINDIRECT) 0 (itrunc_indirect ip bp) ;;
     fbrelse bp ;;
     bfree (i_dev i) (i_addrs i NDIRECT) ;;
     set_inode ip (with_addr NDIRECT 0)) ;;
  set_inode ip (with_size 0) ;;
  iupdate ip.

Definition iput (ip : nat) : F unit :=
  acquire itable_lockL ;;
  let* i := get_inode ip in
  when ((i_ref i =? 1) && i_valid i && (i_nlink i =? 0))
    (acquiresleep (i_lockL ip) (ChInodeLock ip) pid fuel ;;
     release itable_lockL ;;
     itrunc ip ;;
     set_inode ip (with_type 0) ;;
     iupdate ip ;;
     set_inode ip (with_ivalid false) ;;
     releasesleep (i_lockL ip) fs_wokenL (ChInodeLock ip) ;;
     acquire itable_lockL) ;;
  set_inode ip (fun i => with_ref (i32 (i_ref i - 1)) i) ;;
  release itable_lockL.

Definition iunlockput (ip : nat) : F unit := iunlock (Some ip) ;; iput ip.

Definition ireclaim_step (dev inum : Z) : F unit :=
  let* sb := gets fs_sb in
  let* bp := fbread dev (IBLOCK inum sb) in
  let* d := fdata bp in
  let o := dinode_off inum in
  let* ip := (if negb (d_type o d =? 0) && (d_nlink o d =? 0)
              then let* ip := iget dev inum in ret (Some ip) else ret None) in
  fbrelse bp ;;
  match ip with
  | None => ret tt
  | Some ip =>
      zoom fs_logL (begin_op fuel) ;;
      ilock (Some ip) ;;
      iunlock (Some ip) ;;
      iput ip ;;
      zoom fs_logL (end_op pid)
  end.
Definition ireclaim (dev : Z) : F unit :=
  let* sb := gets fs_sb in
  for_range (Z.to_nat (sb_ninodes sb - 1)) 1 (ireclaim_step dev).

Definition fsinit (dev : Z) : F unit :=
  readsb dev ;;
  let* sb := gets fs_sb in
  if negb (sb_magic sb =? FSMAGIC) then panic "invalid file system" else
  zoom fs_logL (initlog pid dev (sb_logstart sb)) ;;
  ireclaim dev.

(** ** Inode contents *)

Definition bmap (ip : nat) (bn : Z) : F Z :=
  let* i := get_inode ip in
  if bn <? NDIRECT then
    if i_addrs i bn =? 0 then
      let* addr := balloc (i_dev i) in
      if addr =? 0 then ret 0 else
      set_inode ip (with_addr bn addr) ;; ret addr
    else ret (i_addrs i bn)
  else
    let bn := bn - NDIRECT in
    if bn <? NINDIRECT then
      let* addr := (if i_addrs i NDIRECT =? 0 then
                      let* addr := balloc (i_dev i) in
                      when (negb (addr =? 0)) (set_inode ip (with_addr NDIRECT addr)) ;;
                      ret addr
                    else ret (i_addrs i NDIRECT)) in
      if addr =? 0 then ret 0 else
      let* bp := fbread (i_dev i) addr in
      let* a := fdata bp in
      let addr := getf 4 (4 * Z.to_nat bn) a in
      let* addr := (if addr =? 0 then
                      let* addr := balloc (i_dev i) in
                      when (negb (addr =? 0))
                        (fset_data bp (putf 4 (4 * Z.to_nat bn) addr a) ;; flog_write bp) ;;
                      ret addr
                    else ret addr) in
      fbrelse bp ;;
      ret addr
    else panic "bmap: out of range".

Definition stati (ip : nat) : F (Z * Z * Z * Z * Z) :=
  let* i := get_inode ip in
  ret (i32 (i_dev i), i_inum i, i_type i, i_nlink i, i_size i).

(** either_copyout and either_copyin, the kernel side being a byte list. *)
Definition copy_to (dst : iodst) (tot : Z) (bytes : list Z) : F Z :=
  match dst with
  | UserDst va => zoom fs_userL (u_copyout me (u64 (va + tot)) bytes)
  | KernDst => ret 0
  end.
Definition copy_from (src : iosrc) (tot m : Z) : F (Z * list Z) :=
  match src with
  | UserSrc va => zoom fs_userL (u_copyin me (u64 (va + tot)) m)
  | KernSrc bytes => ret (0, take (Z.to_nat m) (drop (Z.to_nat tot) bytes))
  end.

(** Loop variables: [tot], [off] and the bytes delivered so far. *)
Definition readi_step (ip : nat) (dst : iodst) (n : Z) (st : Z * Z * list Z)
    : F (Z * Z * list Z + Z * list Z) :=
  let '(tot, off, acc) := st in
  if n <=? tot then ret (inr (tot, acc)) else
  let* addr := bmap ip (off / BSIZE) in
  if addr =? 0 then ret (inr (tot, acc)) else
  let* i := get_inode ip in
  let* bp := fbread (i_dev i) addr in
  let m := Z.min (n - tot) (BSIZE - off mod BSIZE) in
  let* d := fdata bp in
  let bytes := take (Z.to_nat m) (drop (Z.to_nat (off mod BSIZE)) d) in
  let* r := copy_to dst tot bytes in
  fbrelse bp ;;
  if r =? -1 then ret (inr (-1, acc))
  else ret (inl (tot + m, u32 (off + m), acc ++ bytes)).

(** The result is the C return value and, for a kernel destination, the
    bytes stored there. *)
Definition readi (ip : nat) (dst : iodst) (off n : Z) : F (Z * list Z) :=
  let* i := get_inode ip in
  if (i_size i <? off) || (u32 (off + n) <? off) then ret (0, []) else
  let n := if i_size i <? u32 (off + n) then i_size i - off else n in
  loop (S (Z.to_nat n)) (readi_step ip dst n) (0, off, []).

Definition writei_step (ip : nat) (src : iosrc) (n : Z) (st : Z * Z) : F (Z * Z + Z * Z) :=
  let '(tot, off) := st in
  if n <=? tot then ret (inr (tot, off)) else
  let* addr := bmap ip (off / BSIZE) in
  if addr =? 0 then ret (inr (tot, off)) else
  let* i := get_inode ip in
  let* bp := fbread (i_dev i) addr in
  let m := Z.min (n - tot) (BSIZE - off mod BSIZE) in
  let* r := copy_from src tot m in
  let* d := fdata bp in
  fset_data bp (splice d (Z.to_nat (off mod BSIZE)) r.2) ;;
  if r.1 =? -1 then fbrelse bp ;; ret (inr (tot, off)) else
  flog_write bp ;;
  fbrelse bp ;;
  ret (inl (tot + m, u32 (off + m))).

Definition writei (ip : nat) (src : iosrc) (off n : Z) : F Z :=
  let* i := get_inode ip in
  if (i_size i <? off) || (u32 (off + n) <? off) then ret (-1) else
  if MAXFILE * BSIZE <? u32 (off + n) then ret (-1) else
  let* r := loop (S (Z.to_nat n)) (writei_step ip src n) (0, off) in
  let* i := get_inode ip in
  when (i_size i <? r.2) (set_inode ip (with_size r.2)) ;;
  iupdate ip ;;
  ret r.1.

(** ** Directories *)

Definition dirlookup_step (dp : nat) (name : list Z) (off : Z) : F (Z + option (nat * Z)) :=
  let* i := get_inode dp in
  if i_size i <=? off then ret (inr None) else
  let* r := readi dp KernDst off sizeof_dirent in
  if negb (r.1 =? sizeof_dirent) then panic "dirlookup read" else
  let de := r.2 in
  if de_inum de =? 0 then ret (inl (u32 (off + sizeof_dirent))) else
  if namecmp name (de_name de) =? 0 then
    let* ip := iget (i_dev i) (de_inum de) in
    ret (inr (Some (ip, off)))
  else ret (inl (u32 (off + sizeof_dirent))).

(** The inode found and the offset of its entry ([*poff]). *)
Definition dirlookup (dp : nat) (name : list Z) : F (option (nat * Z)) :=
  let* i := get_inode dp in
  if negb (i_type i =? T_DIR) then panic "dirlookup not DIR" else
  loop (S (S (Z.to_nat (i_size i / sizeof_dirent)))) (dirlookup_step dp name) 0.

Definition dirlink_step (dp : nat) (off : Z) : F (Z + Z) :=
  let* i := get_inode dp in
  if i_size i <=? off then ret (inr off) else
  let* r := readi dp KernDst off sizeof_dirent in
  if negb (r.1 =? sizeof_dirent) then panic "dirlink read" else
  if de_inum r.2 =? 0 then ret (inr off) else ret (inl (off + sizeof_dirent)).

Definition dirlink (dp : nat) (name : list Z) (inum : Z) : F Z :=
  let* found := dirlookup dp name in
  match found with
  | Some (ip, _) => iput ip ;; ret (-1)
  | None =>
      let* i := get_inode dp in
      let* off := loop (S (S (Z.to_nat (i_size i / sizeof_dirent)))) (dirlink_step dp) 0 in
      let* r := writei dp (KernSrc (mk_dirent inum name)) off sizeof_dirent in
      ret (if negb (r =? sizeof_dirent) then -1 else 0)
  end.

(** ** Path names *)

(** Loop variables of namex: the current inode, the path left, the name
    buffer.  The result: the inode and the name buffer. *)
Definition namex_step (nameiparent : bool) (st : nat * list Z * list Z)
    : F (nat * list Z * list Z + option (nat * list Z)) :=
  let '(ip, path, name) := st in
  match skipelem path name with
  | None =>
      if nameiparent then iput ip ;; ret (inr None) else ret (inr (Some (ip, name)))
  | Some (path, name) =>
      ilock (Some ip) ;;
      let* i := get_inode ip in
      if negb (i_type i =? T_DIR) then iunlockput ip ;; ret (inr None) else
      if nameiparent && bool_decide (path = []) then iunlock (Some ip) ;; ret (inr (Some (ip, name))) else
      let* next := dirlookup ip name in
      match next with
      | None => iunlockput ip ;; ret (inr None)
      | Some (next, _) => iunlockput ip ;; ret (inl (next, path, name))
      end
  end.

(** [cwd] is myproc()->cwd. *)
Definition namex (cwd : nat) (path : list Z) (nameiparent : bool) (name : list Z)
    : F (option (nat * list Z)) :=
  let* ip := (match path with
              | c :: _ => if c =? slash then iget ROOTDEV ROOTINO else idup cwd
              | [] => idup cwd
              end) in
  loop (S (length path)) (namex_step nameiparent) (ip, path, name).

Definition namei (cwd : nat) (path : list Z) : F (option nat) :=
  let* r := namex cwd path false (replicate (Z.to_nat DIRSIZ) 0) in
  ret (fst <$> r).
Definition nameiparent (cwd : nat) (path name : list Z) : F (option (nat * list Z)) :=
  namex cwd path true name.
End Ops.
