(* ===== verification/FsPure.v ===== *)
(** * kernel/fs.c: the byte-level layer

    What the routines of fs.c do to bytes, independent of disk and locks:
    splitting path names, the free-map bits, the on-disk inode format and the
    directory entry format. *)

From Stdlib Require Import ZArith Lia.
From stdpp Require Import gmap.
From S2P Require Import Prelude Mem StringC Params Sleeplock Bio Log Fs.

(** ** Path names *)

Lemma skip_slashes_spec p : exists n,
  p = replicate n slash ++ skip_slashes p /\ head (skip_slashes p) <> Some slash.
Proof.
  induction p as [|c p [n [E H]]]; [by exists 0%nat|]. cbn. destruct (Z.eqb_spec c slash) as [->|Hc].
  - exists (S n). cbn. split; [by f_equal|done].
  - exists 0%nat. cbn. split; [done|]. intros [= ?]. done.
Qed.

Lemma skip_slashes_replicate n p : skip_slashes (replicate n slash ++ p) = skip_slashes p.
Proof. induction n as [|n IH]; [done|]. cbn. done. Qed.

Lemma take_elem_spec p : let (e, r) := take_elem p in
  p = e ++ r /\ slash ∉ e /\ (r = [] \/ head r = Some slash).
Proof.
  induction p as [|c p IH]; cbn; [split_and!; [done|set_solver|by left]|].
  destruct (Z.eqb_spec c slash) as [->|Hc].
  - split_and!; [done|set_solver|by right].
  - destruct (take_elem p) as [e r]. destruct IH as (-> & H1 & H2). split_and!; [done| |done].
    apply not_elem_of_cons. done.
Qed.

Lemma take_elem_app e r : slash ∉ e -> r = [] \/ head r = Some slash -> take_elem (e ++ r) = (e, r).
Proof.
  intros He Hr. induction e as [|c e IH]; cbn.
  - destruct Hr as [->|Hr]; [done|]. destruct r as [|c r]; [done|]. cbn in *. simplify_eq. done.
  - apply not_elem_of_cons in He as [Hc He]. rewrite (proj2 (Z.eqb_neq c slash)) by done. by rewrite IH.
Qed.

(** The name buffer holds the element: its first DIRSIZ bytes, with a NUL
    after it when it is shorter. *)
Definition holds_name (buf elem : list Z) : Prop :=
  if decide (length elem < Z.to_nat DIRSIZ)%nat
  then take (S (length elem)) buf = elem ++ [0]
  else buf = take (Z.to_nat DIRSIZ) elem.

Lemma skipelem_name s name : length name = Z.to_nat DIRSIZ ->
  let buf := if DIRSIZ <=? Z.of_nat (length s) then splice name 0 (take (Z.to_nat DIRSIZ) s)
             else splice (splice name 0 s) (length s) [0] in
  length buf = Z.to_nat DIRSIZ /\ holds_name buf s.
Proof.
  intros Hn. assert (Z.to_nat DIRSIZ = 14%nat) as E14 by done. cbv zeta. unfold holds_name.
  destruct (Z.leb_spec DIRSIZ (Z.of_nat (length s))) as [Hle|Hlt]; unfold DIRSIZ in *.
  - rewrite decide_False by lia. assert (length (take 14 s) = 14%nat) as Et by (rewrite length_take; lia).
    change (Z.to_nat 14) with 14%nat in *. unfold splice. cbn [take app]. rewrite drop_ge by lia. rewrite app_nil_r. done.
  - rewrite decide_True by lia. assert (length (splice name 0 s) = 14%nat) as E1 by (rewrite length_splice; lia).
    split; [rewrite length_splice; [lia|cbn; lia]|].
    apply list_eq. intros i. destruct (decide (i < length s)%nat); [|destruct (decide (i = length s)) as [->|]].
    + rewrite lookup_take_lt, lookup_splice_out by (cbn; lia). rewrite lookup_splice_in by lia.
      rewrite lookup_app_l by lia. f_equal. lia.
    + rewrite lookup_take_lt, lookup_splice_in by (cbn; lia). rewrite lookup_app_r, Nat.sub_diag by lia. done.
    + rewrite lookup_take_ge by lia. symmetry. apply lookup_ge_None_2. rewrite length_app. cbn. lia.
Qed.

Lemma skipelem_split n e m r name : length name = Z.to_nat DIRSIZ -> e <> [] -> slash ∉ e ->
  (m = 0%nat -> r = []) -> head r <> Some slash ->
  exists buf, skipelem (replicate n slash ++ e ++ replicate m slash ++ r) name = Some (r, buf) /\
              length buf = Z.to_nat DIRSIZ /\ holds_name buf e.
Proof.
  intros Hname He Hs Hm Hr. unfold skipelem. rewrite skip_slashes_replicate.
  assert (skip_slashes (e ++ replicate m slash ++ r) = e ++ replicate m slash ++ r) as ->.
  { destruct e as [|c e]; [done|]. apply not_elem_of_cons in Hs as [Hc _]. cbn.
    by rewrite (proj2 (Z.eqb_neq c slash)). }
  rewrite take_elem_app; [|done|].
  2: { destruct m; [left; by rewrite Hm|by right]. }
  destruct (e ++ replicate m slash ++ r) eqn:E; [by destruct e|]. clear E.
  destruct (skipelem_name e name Hname) as [H1 H2]. eexists. split; [|split; [exact H1|exact H2]].
  f_equal. f_equal. rewrite skip_slashes_replicate. destruct r as [|c r]; [done|]. cbn.
  rewrite (proj2 (Z.eqb_neq c slash)); [done|]. intros ->. done.
Qed.

(** skipelem splits off the first element of a path.  It returns 0
    exactly on paths made of slashes only; otherwise, for a path that is
    slashes, a non-empty element without slashes, and a rest separated by
    slashes, it returns the rest without its leading slashes and leaves the
    element in the name buffer, cut at DIRSIZ bytes and NUL-terminated when
    it is shorter. *)
Theorem skipelem_splits path name :
  length name = Z.to_nat DIRSIZ ->
  (skipelem path name = None <-> exists n, path = replicate n slash) /\
  (forall n e m r, path = replicate n slash ++ e ++ replicate m slash ++ r -> e <> [] -> slash ∉ e ->
     (m = 0%nat -> r = []) -> head r <> Some slash ->
     exists buf, skipelem path name = Some (r, buf) /\
                 length buf = Z.to_nat DIRSIZ /\ holds_name buf e).
Proof.
  intros Hn. split; [split|].
  - unfold skipelem. destruct (skip_slashes_spec path) as (n & E & _).
    destruct (skip_slashes path) as [|c p]; [|by destruct (take_elem (c :: p))].
    intros _. exists n. by rewrite app_nil_r in E.
  - intros [n ->]. unfold skipelem.
    rewrite <- (app_nil_r (replicate n slash)), skip_slashes_replicate. done.
  - intros n e m r ->. by apply skipelem_split.
Qed.

Lemma skipelem_splits_witness :
  (skipelem [47; 97; 47; 98] (replicate 14 0) = None <-> exists n, [47; 97; 47; 98] = replicate n slash) /\
  (forall n e m r, [47; 97; 47; 98] = replicate n slash ++ e ++ replicate m slash ++ r -> e <> [] ->
     slash ∉ e -> (m = 0%nat -> r = []) -> head r <> Some slash ->
     exists buf, skipelem [47; 97; 47; 98] (replicate 14 0) = Some (r, buf) /\
                 length buf = Z.to_nat DIRSIZ /\ holds_name buf e).
Proof. apply (skipelem_splits [47; 97; 47; 98] (replicate 14 0)). reflexivity. Defined.

(** ** Disk inodes *)

(** The contents of a disk inode, and the part of an in-memory inode that is
    kept on disk. *)
Definition addr_slots : list Z := seqZ 0 (NDIRECT + 1).
Definition dinode_of (o : nat) (d : list Z) : Z * Z * Z * Z * Z * list Z :=
  (d_type o d, d_major o d, d_minor o d, d_nlink o d, d_size o d,
   (fun k => d_addr o k d) <$> addr_slots).
Definition inode_disk (i : inode) : Z * Z * Z * Z * Z * list Z :=
  (i_type i, i_major i, i_minor i, i_nlink i, i_size i, i_addrs i <$> addr_slots).

Definition i16_ok (x : Z) : Prop := -32768 <= x < 32768.
Definition u32_ok (x : Z) : Prop := 0 <= x < 2 ^ 32.
Record inode_ok (i : inode) : Prop := {
  io_type : i16_ok (i_type i); io_major : i16_ok (i_major i); io_minor : i16_ok (i_minor i);
  io_nlink : i16_ok (i_nlink i); io_size : u32_ok (i_size i);
  io_addrs : forall k, u32_ok (i_addrs i k);
}.

Lemma length_put_addrs a o k d : (o + 12 + 4 * k <= length d)%nat -> length (put_addrs a o k d) = length d.
Proof.
  induction k as [|k IH]; intros Hk; [done|]. cbn [put_addrs]. rewrite length_putf; rewrite IH; lia.
Qed.

(** Fields outside the addresses written are unchanged. *)
Lemma getf_put_addrs n off a o k d : (o + 12 + 4 * k <= length d)%nat ->
  (off + n <= o + 12 \/ o + 12 + 4 * k <= off)%nat -> getf n off (put_addrs a o k d) = getf n off d.
Proof.
  induction k as [|k IH]; intros Hk Ho; [done|]. cbn [put_addrs].
  rewrite getf_putf_other; [apply IH; lia| |lia]. rewrite length_put_addrs; lia.
Qed.

Lemma getf_put_addr a o k d j : (o + 12 + 4 * k <= length d)%nat -> (j < k)%nat ->
  u32_ok (a (Z.of_nat j)) -> getf 4 (o + 12 + 4 * j) (put_addrs a o k d) = a (Z.of_nat j).
Proof.
  induction k as [|k IH]; intros Hk Hj Ha; [lia|]. cbn [put_addrs].
  assert (length (put_addrs a o k d) = length d) as Hl by (apply length_put_addrs; lia).
  destruct (decide (j = k)) as [->|Hne].
  - rewrite getf_putf_same by lia. apply Z.mod_small. exact Ha.
  - rewrite getf_putf_other by lia. apply IH; [lia|lia|done].
Qed.

Section Dinode.
Context (o : nat) (i : inode) (d : list Z).
Hypothesis Hlen : (o + 64 <= length d)%nat.

(** Lengths through a sequence of field writes. *)
Ltac putf_len := first [lia | rewrite length_putf; [putf_len | putf_len]].

(** The five scalar fields are written one after the other, the addresses
    last. *)
Ltac through :=
  repeat first [rewrite getf_putf_same by putf_len | rewrite getf_putf_other by putf_len].

Lemma length_put_dinode : length (put_dinode o i d) = length d.
Proof.
  unfold put_dinode. change (Z.to_nat (NDIRECT + 1)) with 13%nat.
  rewrite length_put_addrs; putf_len.
Qed.

Lemma getf_put_dinode_other n off : (off + n <= o \/ o + 64 <= off)%nat ->
  getf n off (put_dinode o i d) = getf n off d.
Proof.
  intros Ho. unfold put_dinode. change (Z.to_nat (NDIRECT + 1)) with 13%nat.
  rewrite getf_put_addrs by putf_len. through. done.
Qed.

Lemma dinode_of_put : inode_ok i -> dinode_of o (put_dinode o i d) = inode_disk i.
Proof.
  intros [H1 H2 H3 H4 H5 H6]. unfold dinode_of, inode_disk, d_type, d_major, d_minor, d_nlink, d_size.
  unfold i16_ok, u32_ok in *. assert (forall x, -32768 <= x < 32768 -> i16 (x mod 2 ^ (8 * Z.of_nat 2)) = x) as Hs.
  { intros x Hx. unfold i16. change (2 ^ (8 * Z.of_nat 2)) with (2 ^ 16).
    rewrite Z.add_mod_idemp_l by done. rewrite Z.mod_small; lia. }
  apply f_equal2; [do 4 (try apply f_equal2)|];
    try (unfold put_dinode; change (Z.to_nat (NDIRECT + 1)) with 13%nat;
    rewrite getf_put_addrs by putf_len; through; first [by apply Hs | by apply Z.mod_small]).
  apply list_fmap_ext. intros _ k Hk%list_elem_of_lookup_2. unfold addr_slots in Hk.
  apply elem_of_seqZ in Hk. unfold NDIRECT in Hk. unfold d_addr, put_dinode.
  change (Z.to_nat (NDIRECT + 1)) with 13%nat.
  rewrite getf_put_addr; rewrite ?Z2Nat.id by lia; [done|putf_len|lia|apply H6].
Qed.
End Dinode.

Lemma dinode_off_bound inum : 0 <= inum -> (dinode_off inum + 64 <= Z.to_nat BSIZE)%nat.
Proof.
  intros H. unfold dinode_off, sizeof_dinode, IPB, BSIZE, sizeof_dinode.
  pose proof (Z.mod_pos_bound inum (1024 / 64)). change (1024 / 64) with 16 in *. lia.
Qed.

Lemma dinode_off_apart a b : 0 <= a -> 0 <= b -> a mod IPB <> b mod IPB ->
  (dinode_off a + 64 <= dinode_off b \/ dinode_off b + 64 <= dinode_off a)%nat.
Proof.
  intros Ha Hb Hne. unfold dinode_off, sizeof_dinode.
  pose proof (Z.mod_pos_bound a IPB ltac:(done)). pose proof (Z.mod_pos_bound b IPB ltac:(done)). lia.
Qed.

(** The other inodes of a block. *)
Lemma dinode_of_other a b i d : 0 <= a -> 0 <= b -> length d = Z.to_nat BSIZE -> a mod IPB <> b mod IPB ->
  dinode_of (dinode_off a) (put_dinode (dinode_off b) i d) = dinode_of (dinode_off a) d.
Proof.
  intros Ha Hb Hd Hne. pose proof (dinode_off_apart a b Ha Hb Hne). pose proof (dinode_off_bound a Ha). pose proof (dinode_off_bound b Hb).
  unfold dinode_of, d_type, d_major, d_minor, d_nlink, d_size. rewrite !getf_put_dinode_other by lia. f_equal. apply list_fmap_ext.
  intros _ k Hk%list_elem_of_lookup_2. apply elem_of_seqZ in Hk. unfold NDIRECT in Hk. unfold d_addr. apply getf_put_dinode_other; lia.
Qed.

(** Inodes survive the disk format.  What iupdate stores for an inode in
    its block is what ilock reads back, for every field and all NDIRECT+1
    addresses; the other inodes of the block are unchanged and the block
    keeps its size. *)
Theorem dinode_roundtrip inum i d :
  0 <= inum -> length d = Z.to_nat BSIZE -> inode_ok i ->
  let d' := put_dinode (dinode_off inum) i d in
  (forall j, inode_disk (get_dinode (dinode_off inum) d' j) = inode_disk i) /\
  (forall inum' j, 0 <= inum' -> inum' mod IPB <> inum mod IPB ->
     inode_disk (get_dinode (dinode_off inum') d' j) = inode_disk (get_dinode (dinode_off inum') d j)) /\
  length d' = Z.to_nat BSIZE.
Proof.
  intros Hi Hd Hok. pose proof (dinode_off_bound inum Hi) as Hb. cbv zeta. split; [|split].
  - intros j. exact (dinode_of_put (dinode_off inum) i d ltac:(lia) Hok).
  - intros inum' j Hi' Hne. exact (dinode_of_other inum' inum i d Hi' Hi Hd Hne).
  - rewrite length_put_dinode; lia.
Qed.

Definition toy_inode : inode :=
  mkInode 1 5 1 initsleeplock true T_FILE 0 0 1 1000 (fun k => 100 + k mod 13).
Lemma dinode_roundtrip_witness :
  let d := replicate (Z.to_nat BSIZE) 255 in
  let d' := put_dinode (dinode_off 5) toy_inode d in
  (forall j, inode_disk (get_dinode (dinode_off 5) d' j) = inode_disk toy_inode) /\
  (forall inum' j, 0 <= inum' -> inum' mod IPB <> 5 mod IPB ->
     inode_disk (get_dinode (dinode_off inum') d' j) = inode_disk (get_dinode (dinode_off inum') d j)) /\
  length d' = Z.to_nat BSIZE.
Proof.
  cbv zeta. apply (dinode_roundtrip 5 toy_inode (replicate (Z.to_nat BSIZE) 255)).
  - lia.
  - reflexivity.
  - unfold toy_inode. split; unfold i16_ok, u32_ok; cbn [i_type i_major i_minor i_nlink i_size i_addrs]; unfold T_FILE; try lia.
    intros k. pose proof (Z.mod_pos_bound k 13). lia.
Defined.
