(* ===== verification/FsTxn.v ===== *)
(** * The file system inside a transaction

    What kernel/fs.c sees of the log and the buffer cache while one operation
    runs: a logical disk [V] (what reading a block gives), the blocks [bs]
    the operation has logged, and the buffers [L] it holds.  One rule per
    access, used by every theorem about fs.c. *)

From Stdlib Require Import ZArith Lia FunctionalExtensionality.
From stdpp Require Import gmap.
From S2P Require Import Prelude Mem StringC Params Env Sleeplock Bio Log Fs FsPure.

(** What the log knows of an operation: the disk and the writes it began
    with, the process that runs it, the first block of the log and the number
    of transactions under way, which is 0 when the operation only reads. *)
Record txn_env := mkTxn { tn_pid : Z; tn_start : Z; tn_disk : Z -> list Z; tn_writes : list (Z * list Z); tn_out : Z }.
(** The operation is inside a transaction and may write. *)
Class Writing (T : txn_env) : Prop := writing : tn_out T = 1.
#[export] Instance writing_txn pid start d w : Writing (mkTxn pid start d w 1).
Proof. done. Qed.

Section Txn.
Context (T : txn_env).
Implicit Types (V : Z -> list Z) (bs : list Z) (L : gmap Z nat) (C : gmap Z hold).

(** The references of a block: the log's pin and the operation's own. *)
Definition pins bs L (n : Z) : Z :=
  (if decide (n ∈ bs) then 1 else 0) + (if decide (is_Some (L !! n)) then 1 else 0).

Record cached_txn bs L V C (l : log) : Prop := {
  ct_lock : log_lock l = false;
  ct_out : log_outstanding l = tn_out T;
  ct_com : log_committing l = false;
  ct_ok : txn_ok (tn_start T) bs;
  ct_hdr : hdr_lists (tn_start T) bs l;
  ct_rep : cache_rep (tn_pid T) C (lbio l);
  ct_disk : disk (lbio l) = tn_disk T;
  ct_writes : dwrites (lbio l) = tn_writes T;
  ct_view : forall n, V n = contents C (tn_disk T) n;
  ct_dom : forall n, is_Some (C !! n) <-> n ∈ bs \/ is_Some (L !! n);
  ct_hold : forall n h, C !! n = Some h -> h_ref h = pins bs L n /\
    h_locked h = bool_decide (is_Some (L !! n)) /\ forall b, L !! n = Some b -> h_idx h = b;
  ct_clean : forall n, n ∉ bs -> V n = tn_disk T n;
}.
Definition in_txn bs L V (l : log) : Prop := exists C, cached_txn bs L V C l.

(** A block an operation may log: outside the log, small enough to be a
    block number of the header. *)
Definition loggable (n : Z) : Prop := blk_ok n /\ ~ in_log (tn_start T) n.

Lemma pins_range bs L n : 0 <= pins bs L n <= 2.
Proof. unfold pins. repeat case_decide; lia. Qed.

Lemma cached_size bs L V C l : cached_txn bs L V C l -> (size C <= length bs + size L)%nat.
Proof.
  intros H. rewrite <- !size_dom. etrans; [apply (subseteq_size (dom C) (list_to_set bs ∪ dom L))|].
  - intros n Hn. apply elem_of_dom, (ct_dom _ _ _ _ _ H) in Hn. rewrite elem_of_union, elem_of_list_to_set, elem_of_dom. tauto.
  - rewrite size_union_alt. pose proof (subseteq_size (dom L ∖ list_to_set bs) (dom L) ltac:(set_solver)).
    pose proof (ct_ok _ _ _ _ _ H) as Hok. rewrite (size_list_to_set (C := gset Z) bs) by apply Hok. lia.
Qed.

(** bread: the block is locked and its buffer returned. *)
Lemma txn_bread bs L V l n : in_txn bs L V l -> L !! n = None -> (length bs + size L < nbuf)%nat ->
  wp (cached (bread (tn_pid T) ROOTDEV n)) (fun b l' => in_txn bs (<[n := b]> L) V l') l.
Proof.
  intros [C H] Hn Hsz. pose proof (cached_size _ _ _ _ _ H). pose proof H as [? ? ? ? Hh HC Hd Hw HV HD HH Hcl].
  assert (refs C n = pins bs L n) as Er.
  { unfold refs, pins. rewrite Hn. rewrite (decide_False (P := is_Some None)) by (by intros [? ?]).
    destruct (C !! n) as [h|] eqn:E; [|rewrite decide_False; [done|]; intros Hb; destruct (proj2 (HD n) (or_introl Hb)); congruence].
    destruct (HH n h E) as [-> _]. unfold pins. rewrite Hn. by rewrite (decide_False (P := is_Some None)) by (by intros [? ?]). }
  apply wp_cached. eapply wp_mono; [apply bread_spec; [exact HC|]|].
  - unfold readable. destruct (C !! n) as [h|] eqn:E; [|lia]. destruct (HH n h E) as (-> & -> & _).
    rewrite Hn. split; [by rewrite bool_decide_eq_false_2 by (by intros [? ?])|]. pose proof (pins_range bs L n). lia.
  - intros b c (Hb & Hlt & Hc & D & W). exists (<[n := mkHold b (refs C n + 1) true (contents C (disk (lbio l)) n)]> C).
    split; cbn; try done.
    + by destruct Hh.
    + congruence.
    + congruence.
    + intros m. rewrite HV. unfold contents. rewrite lookup_insert. case_decide; subst; [|done]. cbn. by rewrite Hd.
    + intros m. rewrite !lookup_insert_is_Some. specialize (HD m). destruct (decide (n = m)); naive_solver.
    + intros m h. rewrite !lookup_insert. unfold pins. case_decide as E.
      * subst m. intros [= <-]. cbn. rewrite Er. unfold pins. rewrite Hn. rewrite lookup_insert_eq.
        rewrite (decide_False (P := is_Some None)) by (by intros [? ?]). rewrite (decide_True (P := is_Some (Some b))) by by eexists.
        split; [lia|]. split; [done|]. by intros ? [= ->].
      * intros Hm. rewrite lookup_insert_ne by done. by apply HH.
Qed.

Lemma txn_data bs L V l n b : in_txn bs L V l -> L !! n = Some b -> get_data b (lbio l) = V n.
Proof.
  intros [C H] Hn. destruct (proj2 (ct_dom _ _ _ _ _ H n) (or_intror (mk_is_Some _ _ Hn))) as [h Hh].
  destruct (ct_hold _ _ _ _ _ H n h Hh) as (_ & _ & Hb). rewrite <- (Hb b Hn).
  rewrite (get_data_held (tn_pid T) C _ n h); [|apply H|done]. rewrite (ct_view _ _ _ _ _ H). unfold contents. by rewrite Hh.
Qed.

(** A locked buffer is modified and logged. *)
Lemma txn_put `{!Writing T} bs L V l n b x : in_txn bs L V l -> L !! n = Some b -> loggable n -> Z.of_nat (length bs) < LOGBLOCKS ->
  Z.of_nat (length (add_block bs n)) <= LOGBLOCKS ->
  wp (cached (set_data b x) ;; log_write b) (fun _ l' => in_txn (add_block bs n) L (upd V n x) l') l.
Proof.
  intros [C H] Hn [Hbn Hlg] Hlen Hlen'. pose proof (writing : tn_out T = 1) as Hout. pose proof H as [Hl Ho Hk Hok Hh HC Hd Hw HV HD HH Hcl].
  destruct (proj2 (HD n) (or_intror (mk_is_Some _ _ Hn))) as [h Ch]. destruct (HH n h Ch) as (Er & El & Eb). specialize (Eb b Hn).
  assert (pins bs L n = if decide (n ∈ bs) then 2 else 1) as Ep.
  { unfold pins. rewrite Hn. rewrite (decide_True (P := is_Some (Some b))) by by eexists. case_decide; lia. }
  rewrite Hn, bool_decide_eq_true_2 in El by by eexists.
  wp_step. eapply (wp_set_data _ C _ n h); [done|done|done|]. intros c2 H2 [D2 W2].
  eapply wp_mono.
  { eapply (log_write_spec (tn_pid T) (tn_start T) _ bs _ n (mkHold b (h_ref h) (h_locked h) x) b); log_simp; try done.
    - cbn. lia.
    - by destruct Hh.
    - by rewrite lookup_insert_eq.
    - pose proof (pins_range bs L n). lia. }
  log_simp. cbn [bio_to lbioL put lbio]. intros [] s3 (L3 & O3 & K3 & H3 & D3 & W3 & R3).
  eexists. split; [done|..|exact R3| | | | | |]; cbn.
  - rewrite O3. exact Ho.
  - rewrite K3. exact Hk.
  - by apply add_block_ok.
  - by destruct H3.
  - congruence.
  - congruence.
  - intros m. unfold contents. specialize (HV m). unfold contents in HV. destruct (decide (m = n)) as [->|Em].
    + rewrite upd_eq. case_decide; by rewrite lookup_insert_eq.
    + rewrite upd_ne by done. case_decide; rewrite ?lookup_insert_ne by done; exact HV.
  - intros m. rewrite add_block_in. specialize (HD m). case_decide; rewrite ?lookup_insert_is_Some; destruct (decide (n = m)); subst; naive_solver.
  - intros m k. assert (pins (add_block bs n) L m = if decide (m = n) then 2 else pins bs L m) as ->.
    { unfold pins. destruct (decide (m = n)) as [->|E].
      - rewrite decide_True by (apply add_block_in; tauto). rewrite Hn. by rewrite decide_True by by eexists.
      - f_equal. apply decide_ext. rewrite add_block_in. tauto. }
    intros Hm. destruct (decide (m = n)) as [->|Hne].
    + assert (k = mkHold b 2 true x) as ->.
      { revert Hm. rewrite Er, El, Ep. case_decide; rewrite ?insert_insert_eq, lookup_insert_eq; by intros [= <-]. }
      cbn. rewrite Hn. split; [done|]. split; [done|]. by intros ? [= ->].
    + apply HH. rewrite <- Hm. case_decide; by rewrite ?lookup_insert_ne by done.
  - intros m Hm. rewrite add_block_in in Hm. rewrite upd_ne by tauto. apply Hcl. tauto.
Qed.

Lemma txn_brelse bs L V l n b : in_txn bs L V l -> L !! n = Some b ->
  wp (cached (brelse (tn_pid T) b)) (fun _ l' => in_txn bs (delete n L) V l') l.
Proof.
  intros [C H] Hn. pose proof H as [Hl Ho Hk Hok Hh HC Hd Hw HV HD HH Hcl].
  destruct (proj2 (HD n) (or_intror (mk_is_Some _ _ Hn))) as [h Ch]. destruct (HH n h Ch) as (Er & El & Eb). specialize (Eb b Hn).
  assert (pins bs L n = if decide (n ∈ bs) then 2 else 1) as Ep.
  { unfold pins. rewrite Hn. rewrite (decide_True (P := is_Some (Some b))) by by eexists. case_decide; lia. }
  rewrite Hn, bool_decide_eq_true_2 in El by by eexists.
  assert (h_data h = V n) as Ed by (rewrite HV; unfold contents; by rewrite Ch).
  apply (wp_brelse _ C _ n h); try done.
  { rewrite Er, Ep. case_decide as E; [done|]. intros _. rewrite Ed, Hd. by apply Hcl. }
  unfold brelsed. rewrite Er, Ep. intros c Hc [Dc Wc].
  eexists. split; [done|done|done|done|..|exact Hc| | | | | |exact Hcl]; cbn.
  - by destruct Hh.
  - congruence.
  - congruence.
  - intros m. rewrite HV. unfold contents. repeat case_decide; cbn; rewrite ?lookup_insert, ?lookup_delete; case_decide; subst; rewrite ?Ch; cbn; try done.
    by rewrite Ed; apply Hcl.
  - intros m. destruct (decide (n = m)) as [<-|Hne].
    + rewrite lookup_delete_eq. case_decide; cbn; rewrite ?lookup_insert_eq, ?lookup_delete_eq; split; naive_solver.
    + rewrite lookup_delete_ne by done. rewrite <- HD. case_decide; cbn; by rewrite ?lookup_insert_ne, ?lookup_delete_ne by done.
  - intros m k. destruct (decide (n = m)) as [<-|Hne].
    + unfold pins. rewrite lookup_delete_eq. rewrite (decide_False (P := is_Some None)) by by intros [? ?].
      case_decide; cbn; rewrite ?lookup_insert_eq, ?lookup_delete_eq; [|done]. intros [= <-]. cbn.
      by split.
    + unfold pins. rewrite lookup_delete_ne by done. intros Hm. apply HH. revert Hm.
      case_decide; cbn; by rewrite ?lookup_insert_ne, ?lookup_delete_ne by done.
Qed.
End Txn.

(** ** Beginning and ending *)

(** A commit writes whole blocks. *)
Lemma commit_writes_ok start bs g blk hd : Z.of_nat (length bs) <= LOGBLOCKS -> (forall b, block_ok (g b)) -> block_ok hd ->
  Forall (fun w => block_ok w.2) (commit_writes start bs g blk hd).
Proof.
  intros Hn Hg Hh. unfold commit_writes. case_decide; [done|]. assert (block_ok (enc_head (Z.of_nat (length bs)) blk hd)) by (apply enc_head_ok; [lia|done]).
  repeat apply Forall_app_2; repeat apply Forall_cons_2; try apply Forall_nil_2; cbn; try done.
  - apply Forall_lookup_2. intros k w Hw. unfold log_writes in Hw. rewrite list_lookup_imap in Hw. destruct (bs !! k); cbn in Hw; [|done].
    injection Hw as <-. apply Hg.
  - unfold home_writes. apply Forall_fmap, Forall_forall. intros b _. apply Hg.
  - apply enc_head_ok; [unfold LOGBLOCKS, MAXOPBLOCKS; lia|done].
Qed.
(** Recovery from the disk [x] gives a disk with [P]; a sequence of writes
    is safe for [P] if it does after every prefix. *)
Definition recovers (pid start : Z) (x : Z -> list Z) (P : (Z -> list Z) -> Prop) : Prop := forall c, cache_rep pid ∅ c -> disk c = x ->
  wp (initlog pid ROOTDEV start) (fun _ l => log_idle pid start l /\ P (disk (lbio l))) (rebooted c).
(** It leaves whole blocks where they were. *)
Definition whole (d x : Z -> list Z) : Prop := (forall n, block_ok (d n)) -> forall n, block_ok (x n).
Definition crash_safe (start : Z) (d : Z -> list Z) (ws : list (Z * list Z)) (P : (Z -> list Z) -> Prop) : Prop :=
  forall pid k, recovers pid start (apply_writes d (take k ws)) P.

Lemma crash_mono start d ws (P Q : (Z -> list Z) -> Prop) : (forall x, P x -> Q x) -> crash_safe start d ws P -> crash_safe start d ws Q.
Proof. intros HPQ H pid k c HC Hd. eapply wp_mono; [by apply (H pid k)|]. intros [] l [? ?]. auto. Qed.
Lemma crash_app start d ws ws' P : crash_safe start d ws P -> crash_safe start (apply_writes d ws) ws' P -> crash_safe start d (ws ++ ws') P.
Proof.
  intros H1 H2 pid k. rewrite take_app. destruct (decide (k <= length ws)%nat).
  - replace (k - length ws)%nat with 0%nat by lia. rewrite take_0, app_nil_r. apply H1.
  - rewrite (take_ge ws) by lia. rewrite apply_writes_app. apply H2.
Qed.
(** Without a write nothing is lost. *)
Lemma crash_none start d P : layout_ok start -> log_empty start d -> (forall x, outside_log start x d -> whole d x -> P x) -> crash_safe start d [] P.
Proof.
  intros Hl He HP pid k c HC Hd. eapply wp_mono; [apply (recover_crash pid start [] d d (fun _ => 0) 0 c); [by apply txn_nil|done|done|done|]|].
  - rewrite Hd. by destruct k.
  - intros [] l (Hi & Ho & Hb). split; [done|]. apply HP; [intros n Hn; rewrite Ho by done; by case_decide|]. rewrite Hd in Hb. intros Hx. apply Hb. by destruct k.
Qed.

(** Writes that leave the blocks in front of the log, the super block among
    them, as they are. *)
Definition spares (start : Z) (d : Z -> list Z) (ws : list (Z * list Z)) : Prop := Forall (fun w => w.1 < start -> w.2 = d w.1) ws.
Lemma spares_all start ws : forall d, spares start d ws -> forall n, n < start -> apply_writes d ws n = d n.
Proof.
  induction ws as [|[m x] ws IH]; intros d Hw n Hn; [done|]. apply Forall_cons in Hw as [Hm Hw]. cbn in Hm. cbn.
  assert (forall k, k < start -> upd d m x k = d k) as Hu by (intros k Hk; unfold upd; case_decide as E; [subst; by apply Hm|done]).
  rewrite IH; [by apply Hu| |done]. eapply Forall_impl; [exact Hw|]. cbn. intros w Hx Hlt. rewrite Hu by done. by apply Hx.
Qed.
Lemma spares_take start d ws k n : spares start d ws -> n < start -> apply_writes d (take k ws) n = d n.
Proof. intros H. apply spares_all. by apply Forall_take. Qed.
Lemma spares_app start d ws ws' : spares start d ws -> spares start (apply_writes d ws) ws' -> spares start d (ws ++ ws').
Proof.
  intros H H'. apply Forall_app_2; [exact H|]. eapply Forall_impl; [exact H'|]. cbn. intros w Hx Hlt. rewrite Hx by done. by apply spares_all with start.
Qed.
Lemma spares_commit start bs g blk d : txn_ok start bs -> (forall n, n < start -> g n = d n) -> spares start d (commit_writes start bs g blk (d start)).
Proof.
  intros Hok Hg. unfold commit_writes. case_decide; [by apply Forall_nil_2|]. repeat apply Forall_app_2; repeat apply Forall_cons_2; try apply Forall_nil_2; cbn; try lia.
  - apply Forall_forall. intros w Hw Hlt. destruct (log_writes_in_log start g bs Hok w.1) as [Hin _]; [by apply list_elem_of_fmap_2|]. unfold in_log in Hin. lia.
  - unfold home_writes. apply Forall_fmap, Forall_forall. intros b _. cbn. apply Hg.
Qed.

Section Ends.
Context (T : txn_env) `{!Writing T}.

Lemma cached_txn_inv bs V C l : cached_txn T bs ∅ V C l <->
  txn_inv (tn_pid T) (tn_start T) (tn_disk T) bs C l /\ dwrites (lbio l) = tn_writes T /\ (forall n, V n = contents C (tn_disk T) n).
Proof.
  split.
  - intros [Hl Ho Hk Hok Hh HC Hd Hw HV HD HH Hcl]. rewrite (writing : tn_out T = 1) in Ho. split; [|done]. split; try done.
    + intros n. rewrite HD, lookup_empty. split; [|tauto]. intros [?|[? ?]]; done.
    + intros n h Hn. destruct (HH n h Hn) as (-> & -> & _). split; [|done]. unfold pins. rewrite lookup_empty.
      rewrite (decide_False (P := is_Some None)) by by intros [? ?]. rewrite decide_True; [done|].
      destruct (proj1 (HD n) (mk_is_Some _ _ Hn)) as [|Hx]; [done|]. rewrite lookup_empty in Hx. by destruct Hx.
  - intros ([Hl Ho Hk Hok Hh HC HD HP Hd] & Hw & HV). rewrite <- (writing : tn_out T = 1) in Ho. split; try done.
    + intros n. rewrite HD, lookup_empty. split; [tauto|]. intros [?|[? ?]]; done.
    + intros n h Hn. destruct (HP n h Hn) as [-> ->]. unfold pins. rewrite lookup_empty.
      rewrite (decide_False (P := is_Some None)) by by intros [? ?]. rewrite decide_True by (apply HD; by eexists). done.
    + intros n Hn. rewrite HV. unfold contents. destruct (C !! n) eqn:E; [|done]. exfalso. apply Hn, HD. by eexists.
Qed.

(** A transaction starts with what is on the disk. *)
Lemma txn_begin l fuel : tn_disk T = disk (lbio l) -> tn_writes T = dwrites (lbio l) -> log_idle (tn_pid T) (tn_start T) l ->
  wp (begin_op (S fuel)) (fun _ l' => in_txn T [] ∅ (tn_disk T) l') l.
Proof.
  intros Ed Ew Hi. eapply wp_mono; [by apply begin_op_idle|]. intros [] l' [Hinv El]. exists ∅. apply cached_txn_inv. rewrite Ed.
  split; [done|]. rewrite El, Ew. done.
Qed.

(** Its end makes the logical disk the real one, by writes after any prefix
    of which recovery gives the disk before or after. *)
Lemma txn_end bs V l : in_txn T bs ∅ V l -> log_empty (tn_start T) (tn_disk T) -> Z.of_nat (length bs) < NBUF ->
  wp (end_op (tn_pid T)) (fun _ l' => log_idle (tn_pid T) (tn_start T) l' /\ outside_log (tn_start T) (disk (lbio l')) V /\
    ((forall n, block_ok (tn_disk T n)) -> (forall n, block_ok (V n)) -> forall n, block_ok (disk (lbio l') n)) /\
    exists ws, dwrites (lbio l') = tn_writes T ++ ws /\ disk (lbio l') = apply_writes (tn_disk T) ws /\
      ((forall n, n < tn_start T -> V n = tn_disk T n) -> spares (tn_start T) (tn_disk T) ws) /\
      crash_safe (tn_start T) (tn_disk T) ws (fun x =>
        (outside_log (tn_start T) x (tn_disk T) \/ outside_log (tn_start T) x V) /\ ((forall n, block_ok (V n)) -> whole (tn_disk T) x))) l.
Proof.
  intros [C H] He Hlen. apply cached_txn_inv in H as (Hinv & Hw & HV).
  assert (contents C (tn_disk T) = V) as Ec by (extensionality n; by rewrite HV).
  assert (forall n, after bs (tn_disk T) V n = V n) as Ha.
  { intros n. rewrite <- Ec. by eapply after_contents. }
  eapply wp_mono; [by eapply end_op_spec|]. intros [] l' (blk & Hi & Hblk & Hws & Hd). cbv zeta in *. rewrite Ec in Hws, Hd.
  split; [done|]. pose proof (ti_ok _ _ _ _ _ _ Hinv) as Hok. split; [|split].
  - intros n Hn. rewrite Hd, <- Ha. destruct (decide (bs = [])) as [E|E].
    + unfold commit_writes, after. rewrite decide_True, E by done. cbn. by rewrite decide_False by apply not_elem_of_nil.
    + eapply (crash_done_phase (tn_start T) bs Hok (tn_disk T) V blk); try done; apply He.
  - intros B1 B2. rewrite Hd. apply apply_writes_ok; [done|]. apply commit_writes_ok; [apply (tx_len _ _ Hok)|done|done].
  - eexists. split; [rewrite Hws, Hw; done|]. split; [done|]. split; [by intros; apply spares_commit|]. intros pid k c HC Hdc.
    eapply wp_mono; [by eapply (recover_crash _ _ bs (tn_disk T) V blk k)|]. cbn beta. intros [] l'' (Hi'' & Ho & Hb). split; [done|]. split.
    + case_decide; [right|by left]. intros n Hn. rewrite Ho by done. apply Ha.
    + intros B2 B1. apply Hb. rewrite Hdc. apply apply_writes_ok; [done|]. apply Forall_take, commit_writes_ok; [apply (tx_len _ _ Hok)|done|apply B1].
Qed.
End Ends.

(** An operation that only reads needs no transaction. *)
Section Reads.
Context (T : txn_env) (Hr : tn_out T = 0).
Lemma read_begin l : tn_disk T = disk (lbio l) -> tn_writes T = dwrites (lbio l) -> log_idle (tn_pid T) (tn_start T) l -> in_txn T [] ∅ (tn_disk T) l.
Proof.
  intros Ed Ew [Hl Ho Hk Hh HC Hd Hlay]. exists ∅. split; try done.
  - congruence.
  - by apply txn_nil.
  - intros n. rewrite lookup_empty. split; [by intros [? ?]|]. intros [Hn|[? ?]]; [by apply elem_of_nil in Hn|done].
Qed.
Lemma read_end V l : in_txn T [] ∅ V l -> log_empty (tn_start T) (tn_disk T) -> log_idle (tn_pid T) (tn_start T) l /\ disk (lbio l) = tn_disk T /\ dwrites (lbio l) = tn_writes T.
Proof.
  intros [C [Hl Ho Hk Hok Hh HC Hd Hw HV HD HH Hcl]] He. assert (C = ∅) as ->.
  { apply map_empty. intros n. destruct (C !! n) as [h|] eqn:E; [|done]. destruct (proj1 (HD n)) as [Hn|Hn]; [by eexists|by apply elem_of_nil in Hn|].
    rewrite lookup_empty in Hn. by destruct Hn. }
  split; [|done]. split; try done; [congruence|congruence|apply Hok].
Qed.
End Reads.

(** ** The rules at the level of fs.c *)

Section Rules.
Context {W : Type} (T : txn_env).
Implicit Types (V : Z -> list Z) (bs : list Z) (L : gmap Z nat).

(** Everything in the state of fs.c but the log. *)
Definition ctl (s : fs W) : superblock * spinlock * (nat -> inode) * W := (fs_sb s, itable_lock s, inodes s, fs_user s).
Notation control := (superblock * spinlock * (nat -> inode) * W)%type.

Record fs_at (c : control) bs L V (s : fs W) : Prop := {
  fa_ctl : ctl s = c;
  fa_txn : in_txn T bs L V (fs_log s);
}.

Lemma wp_bind_inv {S A B} (m : M S A) (k : A -> M S B) Q s :
  wp (bind m k) Q s -> wp m (fun a s' => wp (k a) Q s') s.
Proof. unfold wp, bind. destruct (m s); done. Qed.

Lemma fs_at_log c bs L V s l bs' L' V' : fs_at c bs L V s -> in_txn T bs' L' V' l -> fs_at c bs' L' V' (put fs_logL l s).
Proof. intros [<- _] Hl. by split. Qed.

Lemma fs_at_room c bs L V s : fs_at c bs L V s -> Z.of_nat (length bs) <= LOGBLOCKS.
Proof. intros [_ [C H]]. apply (tx_len _ _ (ct_ok _ _ _ _ _ _ H)). Qed.
Lemma fs_at_view c bs L V V' s : fs_at c bs L V s -> (forall n, V n = V' n) -> fs_at c bs L V' s.
Proof. intros H E. by replace V' with V by by extensionality n. Qed.

Lemma wp_zoom_comp {S C D A} (l : lens S C) (k : lens C D) (m : M D A) P Q s :
  wp (zoom k m) P (view l s) -> (forall a c, P a c -> Q a (put l c s)) -> wp (zoom (lcomp l k) m) Q s.
Proof. unfold wp, zoom. cbn. destruct (m _) as [a d| | |]; cbn; try done. intros Hp HQ. apply (HQ a _ Hp). Qed.

Lemma wp_fbread c bs L V s n Q : fs_at c bs L V s -> blk_ok n -> L !! n = None -> (length bs + size L < nbuf)%nat ->
  (forall b s', fs_at c bs (<[n := b]> L) V s' -> Q b s') -> wp (fbread (tn_pid T) ROOTDEV n) Q s.
Proof.
  intros H Hn HL Hs HQ. unfold fbread. rewrite (blk_u32 n) by done. change (u32 ROOTDEV) with ROOTDEV.
  pose proof (txn_bread T bs L V (fs_log s) n (fa_txn _ _ _ _ _ H) HL Hs) as Hw.
  eapply wp_zoom_comp; [exact Hw|]. intros b l Hl. apply HQ. by eapply (fs_at_log c bs L V).
Qed.
Lemma wp_fdata {A} c bs L V s n b (k : list Z -> M (fs W) A) Q : fs_at c bs L V s -> L !! n = Some b ->
  wp (k (V n)) Q s -> wp (let* d := fdata b in k d) Q s.
Proof.
  intros H HL HQ. unfold fdata. wp_step. wp_step. cbn. by rewrite (txn_data T bs L V _ n b (fa_txn _ _ _ _ _ H) HL).
Qed.
Lemma wp_fput {A} `{!Writing T} c bs L V s n b x (k : M (fs W) A) Q : fs_at c bs L V s -> L !! n = Some b -> loggable T n ->
  Z.of_nat (length bs) < LOGBLOCKS ->
  (forall s', fs_at c (add_block bs n) L (upd V n x) s' -> wp k Q s') -> wp (fset_data b x ;; flog_write b ;; k) Q s.
Proof.
  intros H HL Hn Hb HQ. assert (Z.of_nat (length (add_block bs n)) <= LOGBLOCKS) as Hb'.
  { unfold add_block. case_decide; [lia|]. rewrite length_app. cbn. lia. }
  pose proof (txn_put T bs L V (fs_log s) n b x (fa_txn _ _ _ _ _ H) HL Hn Hb Hb') as Hw.
  apply wp_bind_inv in Hw. wp_step. eapply wp_zoom_comp; [exact Hw|]. intros [] l Hl. wp_step. unfold flog_write. wp_step.
  eapply wp_mono; [exact Hl|]. intros [] l' Hl'. apply HQ. exact (fs_at_log c bs L V s l' _ _ _ H Hl').
Qed.
Lemma wp_fbrelse c bs L V s n b Q : fs_at c bs L V s -> L !! n = Some b ->
  (forall s', fs_at c bs (delete n L) V s' -> Q tt s') -> wp (fbrelse (tn_pid T) b) Q s.
Proof.
  intros H HL HQ. pose proof (txn_brelse T bs L V (fs_log s) n b (fa_txn _ _ _ _ _ H) HL) as Hw.
  eapply wp_zoom_comp; [exact Hw|]. intros [] l Hl. apply HQ. by eapply (fs_at_log c bs L V).
Qed.
Lemma wp_get_inode {A} c bs L V s ip (k : inode -> M (fs W) A) Q : fs_at c bs L V s ->
  wp (k (c.1.2 ip)) Q s -> wp (let* i := get_inode ip in k i) Q s.
Proof. intros [<- _] HQ. unfold get_inode. wp_step. by wp_step. Qed.
Lemma wp_get_sb {A} c bs L V s (k : superblock -> M (fs W) A) Q : fs_at c bs L V s ->
  wp (k c.1.1.1) Q s -> wp (let* sb := gets fs_sb in k sb) Q s.
Proof. intros [<- _] HQ. wp_step. by wp_step. Qed.

(** The control part with one inode changed. *)
Definition on_ctl (ip : nat) (f : inode -> inode) (c : control) : control :=
  (c.1.1.1, c.1.1.2, upd c.1.2 ip (f (c.1.2 ip)), c.2).
Lemma wp_set_inode c bs L V s ip f Q : fs_at c bs L V s ->
  (forall s', fs_at (on_ctl ip f c) bs L V s' -> Q tt s') -> wp (set_inode ip f) Q s.
Proof. intros [<- H] HQ. unfold set_inode. wp_step. apply HQ. by split. Qed.
End Rules.
Arguments ctl {W}. Arguments fs_at {W}. Arguments on_ctl {W}.
Notation control W := (superblock * spinlock * (nat -> inode) * W)%type.

(** How the list of logged blocks grows: by at most [k] blocks. *)
Record grown (k : nat) (bs bs' : list Z) : Prop := {
  gr_len : (length bs' <= length bs + k)%nat;
  gr_in : forall n, n ∈ bs -> n ∈ bs';
}.
Lemma grown_refl bs : grown 0 bs bs.
Proof. split; [lia|done]. Qed.
Lemma grown_add bs n : grown 1 bs (add_block bs n).
Proof. split; [|intros; apply add_block_in; tauto]. unfold add_block. case_decide; [|rewrite length_app; cbn]; lia. Qed.
Lemma grown_absorb bs n : n ∈ bs -> add_block bs n = bs.
Proof. intros. unfold add_block. by rewrite decide_True. Qed.
Lemma grown_trans j k bs bs1 bs2 : grown j bs bs1 -> grown k bs1 bs2 -> grown (j + k) bs bs2.
Proof. intros [] []. split; [lia|auto]. Qed.
Lemma grown_le j k bs bs' : (j <= k)%nat -> grown j bs bs' -> grown k bs bs'.
Proof. intros ? []. split; [lia|done]. Qed.
#[export] Hint Resolve grown_refl grown_add : xv6.
