(* ===== verification/FsAlloc.v ===== *)
(** * The block allocator of kernel/fs.c

    The free map as a set of bits, and what balloc, bzero and bfree do to
    it inside a transaction. *)

From Stdlib Require Import ZArith Lia.
From stdpp Require Import gmap.
From S2P Require Import Prelude Mem StringC Params Env Sleeplock Bio Log Fs FsPure FsTxn.

(** ** Bits of a block *)

Definition zeroes : list Z := replicate (Z.to_nat BSIZE) 0.

Lemma zeroes_ok : block_ok zeroes.
Proof. split; [apply length_replicate|]. apply Forall_replicate. unfold byte_ok. lia. Qed.
Lemma block_nth d k : block_ok d -> byte_ok (nth k d 0).
Proof.
  intros [_ H]. rewrite nth_lookup. destruct (d !! k) as [x|] eqn:E; cbn; [|unfold byte_ok; lia].
  rewrite Forall_lookup in H. by eapply H.
Qed.
Lemma block_insert d k x : block_ok d -> byte_ok x -> block_ok (<[k := x]> d).
Proof. intros [Hl Hb] Hx. split; [by rewrite length_insert|by apply Forall_insert]. Qed.

Lemma shiftl1_testbit k j : 0 <= k -> 0 <= j -> Z.testbit (Z.shiftl 1 k) j = (k =? j).
Proof. intros Hk Hj. rewrite Z.shiftl_1_l. by rewrite Z.pow2_bits_eqb. Qed.

Lemma bit_set_testbit d i : bit_set d i = Z.testbit (nth (Z.to_nat (i / 8)) d 0) (i mod 8).
Proof.
  unfold bit_set. set (x := nth _ d 0). pose proof (Z.mod_pos_bound i 8 ltac:(lia)) as Hm.
  destruct (Z.testbit x (i mod 8)) eqn:E.
  - apply negb_true_iff, Z.eqb_neq. intros H0. assert (Z.testbit (Z.land x (Z.shiftl 1 (i mod 8))) (i mod 8) = true) as Ht.
    { rewrite Z.land_spec, E, shiftl1_testbit by lia. by rewrite Z.eqb_refl. }
    by rewrite H0, Z.bits_0 in Ht.
  - apply negb_false_iff, Z.eqb_eq. apply Z.bits_inj_0. intros j. destruct (Z.ltb_spec j 0).
    { by apply Z.testbit_neg_r. }
    rewrite Z.land_spec, shiftl1_testbit by lia. destruct (Z.eqb_spec (i mod 8) j) as [<-|]; [by rewrite E|by rewrite andb_false_r].
Qed.

Lemma byte_index i j : 0 <= i -> 0 <= j -> Z.to_nat (i / 8) = Z.to_nat (j / 8) -> i mod 8 = j mod 8 -> i = j.
Proof. intros Hi Hj H1 H2. rewrite (Z.div_mod i 8), (Z.div_mod j 8) by lia. pose proof (Z.div_pos i 8). pose proof (Z.div_pos j 8). lia. Qed.
Lemma bit_in_block i d : block_ok d -> 0 <= i < BPB -> (Z.to_nat (i / 8) < length d)%nat.
Proof.
  intros [-> _] [H1 H2]. unfold BPB in H2. pose proof (Z.div_pos i 8 H1 ltac:(lia)).
  pose proof (Z.div_lt_upper_bound i 8 BSIZE ltac:(lia) ltac:(lia)). lia.
Qed.
Lemma byte_lor x k : byte_ok x -> 0 <= k < 8 -> byte_ok (Z.lor x (Z.shiftl 1 k)).
Proof.
  intros Hx Hk. unfold byte_ok in *. rewrite Z.shiftl_1_l. assert (0 <= 2 ^ k < 2 ^ 8) as Hp by (split; [lia|apply Z.pow_lt_mono_r; lia]).
  split; [apply Z.lor_nonneg; lia|]. destruct (Z.eq_dec (Z.lor x (2 ^ k)) 0) as [->|Hne]; [lia|].
  assert (0 <= Z.lor x (2 ^ k)) by (apply Z.lor_nonneg; lia). change 256 with (2 ^ 8). apply Z.log2_lt_pow2; [lia|].
  rewrite Z.log2_lor by lia. apply Z.max_lub_lt; [|rewrite Z.log2_pow2; lia].
  destruct (Z.eq_dec x 0) as [->|]; [cbn; lia|]. apply Z.log2_lt_pow2; [lia|]. change (2 ^ 8) with 256. lia.
Qed.
Lemma byte_land x y : byte_ok x -> 0 <= y -> byte_ok (Z.land x y).
Proof.
  intros Hx Hy. unfold byte_ok in *. assert (0 <= Z.land x y) by (apply Z.land_nonneg; lia). split; [done|].
  destruct (Z.eq_dec (Z.land x y) 0) as [->|]; [lia|]. assert (x <> 0) by (intros ->; by rewrite Z.land_0_l in *).
  change 256 with (2 ^ 8). apply Z.log2_lt_pow2; [lia|]. eapply Z.le_lt_trans; [apply Z.log2_land; lia|].
  eapply Z.le_lt_trans; [apply Z.le_min_l|]. apply Z.log2_lt_pow2; [lia|]. change (2 ^ 8) with 256. lia.
Qed.

Lemma mark_bit_ok d i : block_ok d -> block_ok (mark_bit d i).
Proof.
  intros Hd. unfold mark_bit. apply block_insert; [done|]. apply byte_lor; [by apply block_nth|apply Z.mod_pos_bound; lia].
Qed.
Lemma clear_bit_ok d i : block_ok d -> block_ok (clear_bit d i).
Proof. intros Hd. unfold clear_bit. apply block_insert; [done|]. apply byte_land; [by apply block_nth|apply u8_range]. Qed.

Lemma nth_insert (d : list Z) k x j : (k < length d)%nat -> nth j (<[k := x]> d) 0 = if decide (j = k) then x else nth j d 0.
Proof.
  intros Hk. rewrite !nth_lookup. case_decide as E; [subst; by rewrite list_lookup_insert_eq|]. by rewrite list_lookup_insert_ne.
Qed.

Lemma mark_bit_spec d i j : block_ok d -> 0 <= i < BPB -> 0 <= j -> bit_set (mark_bit d i) j = bit_set d j || (i =? j).
Proof.
  intros Hd Hi Hj. rewrite !bit_set_testbit. unfold mark_bit. rewrite nth_insert by by apply bit_in_block.
  pose proof (Z.mod_pos_bound i 8 ltac:(lia)). pose proof (Z.mod_pos_bound j 8 ltac:(lia)). case_decide as E.
  - rewrite Z.lor_spec, shiftl1_testbit, E by lia. f_equal. destruct (Z.eqb_spec (i mod 8) (j mod 8)), (Z.eqb_spec i j); subst; try done.
    exfalso. apply n. apply byte_index; [lia|lia|done|done].
  - destruct (Z.eqb_spec i j) as [->|]; [done|]. by rewrite orb_false_r.
Qed.
Lemma clear_bit_spec d i j : block_ok d -> 0 <= i < BPB -> 0 <= j -> bit_set (clear_bit d i) j = bit_set d j && negb (i =? j).
Proof.
  intros Hd Hi Hj. rewrite !bit_set_testbit. unfold clear_bit. rewrite nth_insert by by apply bit_in_block.
  pose proof (Z.mod_pos_bound i 8 ltac:(lia)). pose proof (Z.mod_pos_bound j 8 ltac:(lia)). case_decide as E.
  - rewrite Z.land_spec, E. f_equal. unfold u8. change 256 with (2 ^ 8). rewrite Z.mod_pow2_bits_low, Z.lnot_spec, shiftl1_testbit by lia. f_equal.
    destruct (Z.eqb_spec (i mod 8) (j mod 8)), (Z.eqb_spec i j); subst; try done. exfalso. apply n. apply byte_index; [lia|lia|done|done].
  - destruct (Z.eqb_spec i j) as [->|]; [done|]. by rewrite andb_true_r.
Qed.

(** The first clear bit. *)
Lemma free_bit_spec d limit n : forall i, match free_bit d limit i n with
  | Some k => i <= k < limit /\ k < i + Z.of_nat n /\ bit_set d k = false
  | None => forall j, i <= j < limit -> j < i + Z.of_nat n -> bit_set d j = true
  end.
Proof.
  induction n as [|n IH]; intros i; cbn [free_bit]; [intros; lia|]. destruct (Z.leb_spec limit i); [intros; lia|].
  destruct (bit_set d i) eqn:Ei; cbn [negb]; [|split; [lia|split; [lia|done]]]. specialize (IH (i + 1)).
  destruct (free_bit d limit (i + 1) n) as [k|].
  - destruct IH as (? & ? & ?). split; [lia|]. split; [lia|done].
  - intros j H1 H2. destruct (Z.eq_dec j i) as [->|]; [done|]. apply IH; lia.
Qed.

(** ** The free map *)

Section Alloc.
Context {W : Type} (T : txn_env) `{!Writing T} (sb : superblock).
Implicit Types (V : Z -> list Z) (bs : list Z) (L : gmap Z nat) (c : control W).

(** The parts of the disk, in order: log, inodes, free map, data. *)
Definition datastart : Z := sb_bmapstart sb + sb_size sb / BPB + 1.
Record layout : Prop := {
  ly_start : 0 <= tn_start T;
  ly_inodes : tn_start T + LOGBLOCKS < sb_inodestart sb;
  ly_ninodes : 0 <= sb_ninodes sb;
  ly_bmap : sb_inodestart sb + sb_ninodes sb / IPB < sb_bmapstart sb;
  ly_data : datastart <= sb_size sb;
  ly_size : sb_size sb < 2 ^ 31;
}.
Definition data_block (b : Z) : Prop := datastart <= b < sb_size sb.

(** Whether block [b] is marked in use. *)
Definition used V (b : Z) : bool := bit_set (V (BBLOCK b sb)) (b mod BPB).

(** A well-formed disk: whole blocks of bytes, the metadata marked in use. *)
Record disk_ok V : Prop := {
  do_block : forall n, block_ok (V n);
  do_meta : forall b, 0 <= b < datastart -> used V b = true;
}.

Lemma BPB_pos : 0 < BPB.
Proof. done. Qed.
Lemma LOGBLOCKS_pos : 0 < LOGBLOCKS.
Proof. done. Qed.

Section WithLayout.
Hypothesis Hly : layout.

Lemma sizes : 0 <= sb_ninodes sb / IPB /\ 0 <= sb_size sb / BPB /\ 0 <= datastart.
Proof.
  pose proof LOGBLOCKS_pos. destruct Hly as [Y1 Y2 Y3 Y4 Y5 Y6]. unfold datastart in *. pose proof (Z.div_pos (sb_ninodes sb) IPB Y3 ltac:(done)).
  split; [done|]. destruct (Z.leb_spec 0 (sb_size sb)).
  - pose proof (Z.div_pos (sb_size sb) BPB ltac:(lia) BPB_pos). lia.
  - exfalso. pose proof (Z.div_mod (sb_size sb) BPB ltac:(done)). pose proof (Z.mod_pos_bound (sb_size sb) BPB BPB_pos). unfold BPB, BSIZE in *. lia.
Qed.
Lemma starts : sb_inodestart sb < sb_bmapstart sb /\ sb_bmapstart sb < datastart.
Proof.
  pose proof sizes. destruct Hly as [Y1 Y2 Y3 Y4 Y5 Y6]. unfold datastart in *. lia.
Qed.
Lemma size_range : 0 < sb_size sb < 2 ^ 31.
Proof. pose proof sizes. pose proof LOGBLOCKS_pos. destruct Hly as [Y1 Y2 Y3 Y4 Y5 Y6]. unfold datastart in *. lia. Qed.

Lemma BBLOCK_eq b : 0 <= b < sb_size sb -> BBLOCK b sb = b / BPB + sb_bmapstart sb /\ sb_bmapstart sb <= BBLOCK b sb < datastart.
Proof.
  intros Hb. pose proof sizes. pose proof size_range. pose proof (Z.div_pos b BPB ltac:(lia) BPB_pos).
  pose proof (Z.div_le_mono b (sb_size sb) BPB BPB_pos ltac:(lia)). pose proof LOGBLOCKS_pos. destruct Hly as [Y1 Y2 Y3 Y4 Y5 Y6]. unfold datastart in *.
  unfold BBLOCK. rewrite u32_small by lia. lia.
Qed.
Lemma bmap_loggable b : 0 <= b < sb_size sb -> loggable T (BBLOCK b sb).
Proof.
  intros Hb. destruct (BBLOCK_eq b Hb) as [_ H]. pose proof sizes. pose proof LOGBLOCKS_pos. destruct Hly as [Y1 Y2 Y3 Y4 Y5 Y6]. unfold loggable, blk_ok, in_log.
  split; lia.
Qed.
Lemma data_loggable b : data_block b -> loggable T b.
Proof.
  intros Hb. pose proof sizes. pose proof LOGBLOCKS_pos. destruct Hly as [Y1 Y2 Y3 Y4 Y5 Y6]. unfold loggable, blk_ok, in_log, data_block, datastart in *. split; lia.
Qed.
Lemma data_not_bmap b b' : data_block b -> 0 <= b' < sb_size sb -> BBLOCK b' sb <> b.
Proof. intros Hb Hb'. destruct (BBLOCK_eq b' Hb') as [_ H]. unfold data_block in Hb. lia. Qed.

(** Marking or clearing a bit. *)
Lemma used_mark V b x j : 0 <= b < sb_size sb -> 0 <= j < sb_size sb ->
  (forall k, 0 <= k < BPB -> bit_set x k = if k =? b mod BPB then bit_set x k else bit_set (V (BBLOCK b sb)) k) ->
  used (upd V (BBLOCK b sb) x) j = if j =? b then bit_set x (b mod BPB) else used V j.
Proof.
  intros Hb Hj Hx. unfold used. destruct (Z.eqb_spec j b) as [->|Hne]; [by rewrite upd_eq|].
  destruct (Z.eq_dec (BBLOCK j sb) (BBLOCK b sb)) as [E|E]; [|by rewrite upd_ne]. rewrite E, upd_eq.
  rewrite Hx by (apply Z.mod_pos_bound; done). destruct (Z.eqb_spec (j mod BPB) (b mod BPB)) as [Em|]; [|done].
  exfalso. apply Hne. destruct (BBLOCK_eq b Hb) as [E1 _], (BBLOCK_eq j Hj) as [E2 _].
  rewrite (Z.div_mod j BPB), (Z.div_mod b BPB), Em by done. f_equal. f_equal. lia.
Qed.
Lemma used_upd_data V b x j : data_block b -> 0 <= j < sb_size sb -> used (upd V b x) j = used V j.
Proof. intros Hb Hj. unfold used. rewrite upd_ne; [done|]. by apply data_not_bmap. Qed.

(** The disk after balloc returned [a], after bfree of [a]. *)
Definition allocated V (a : Z) : Z -> list Z := upd (upd V (BBLOCK a sb) (mark_bit (V (BBLOCK a sb)) (a mod BPB))) a zeroes.
Definition freed V (a : Z) : Z -> list Z := upd V (BBLOCK a sb) (clear_bit (V (BBLOCK a sb)) (a mod BPB)).

Lemma used_allocated V a j : disk_ok V -> data_block a -> 0 <= j < sb_size sb -> used (allocated V a) j = used V j || (j =? a).
Proof.
  intros HV Ha Hj. pose proof sizes. assert (0 <= a < sb_size sb) as Ha' by (unfold data_block in Ha; lia).
  pose proof (Z.mod_pos_bound a BPB BPB_pos). unfold allocated. rewrite used_upd_data by done. rewrite used_mark; [|done|done|].
  - destruct (Z.eqb_spec j a) as [->|]; [|by rewrite orb_false_r]. rewrite mark_bit_spec by (try apply HV; lia). by rewrite Z.eqb_refl, !orb_true_r.
  - intros k Hk. destruct (Z.eqb_spec k (a mod BPB)) as [|Hne]; [done|]. rewrite mark_bit_spec by (try apply HV; lia).
    rewrite (proj2 (Z.eqb_neq _ _)) by lia. by rewrite orb_false_r.
Qed.
Lemma used_freed V a j : disk_ok V -> data_block a -> 0 <= j < sb_size sb -> used (freed V a) j = used V j && negb (j =? a).
Proof.
  intros HV Ha Hj. pose proof sizes. assert (0 <= a < sb_size sb) as Ha' by (unfold data_block in Ha; lia).
  pose proof (Z.mod_pos_bound a BPB BPB_pos). unfold freed. rewrite used_mark; [|done|done|].
  - destruct (Z.eqb_spec j a) as [->|]; [|by rewrite andb_true_r]. rewrite clear_bit_spec by (try apply HV; lia). by rewrite Z.eqb_refl, !andb_false_r.
  - intros k Hk. destruct (Z.eqb_spec k (a mod BPB)) as [|Hne]; [done|]. rewrite clear_bit_spec by (try apply HV; lia).
    rewrite (proj2 (Z.eqb_neq _ _)) by lia. by rewrite andb_true_r.
Qed.
Lemma allocated_ok V a : disk_ok V -> data_block a -> disk_ok (allocated V a).
Proof.
  intros HV Ha. split.
  - intros n. unfold allocated, upd. repeat case_decide; [apply zeroes_ok|apply mark_bit_ok, HV|apply HV].
  - intros b Hb. pose proof (ly_data Hly). rewrite used_allocated by (done || lia). by rewrite (do_meta _ HV).
Qed.
Lemma freed_ok V a : disk_ok V -> data_block a -> disk_ok (freed V a).
Proof.
  intros HV Ha. split.
  - intros n. unfold freed, upd. case_decide; [apply clear_bit_ok, HV|apply HV].
  - intros b Hb. pose proof (ly_data Hly). rewrite used_freed by (done || lia). rewrite (do_meta _ HV) by done.
    unfold data_block in Ha. by rewrite (proj2 (Z.eqb_neq b a)) by lia.
Qed.
Lemma data_upd_ok V b x : disk_ok V -> data_block b -> block_ok x -> disk_ok (upd V b x).
Proof.
  intros HV Hb Hx. split; [intros n; unfold upd; case_decide; [done|apply HV]|]. intros j Hj.
  pose proof (ly_data Hly). rewrite used_upd_data by (done || lia). by apply HV.
Qed.

(** ** balloc and bfree *)

(** Buffers an operation may hold meanwhile: data blocks in use. *)
Definition held_data V L : Prop := forall n, is_Some (L !! n) -> data_block n /\ used V n = true.

Lemma held_none V L n : held_data V L -> ~ data_block n \/ used V n = false -> L !! n = None.
Proof. intros HL Hn. destruct (L !! n) eqn:E; [|done]. destruct (HL n) as [? ?]; [by eexists|]. destruct Hn; [done|congruence]. Qed.
Lemma bmap_not_held V L b : held_data V L -> 0 <= b < sb_size sb -> L !! BBLOCK b sb = None.
Proof. intros HL Hb. eapply held_none; [done|left]. destruct (BBLOCK_eq b Hb) as [_ H]. unfold data_block. lia. Qed.

Lemma wp_bzero c bs L V s b Q : fs_at T c bs L V s -> loggable T b -> L !! b = None ->
  (length bs + size L < nbuf)%nat ->
  (forall s', fs_at T c (add_block bs b) L (upd V b zeroes) s' -> Q tt s') -> wp (bzero (tn_pid T) ROOTDEV b) Q s.
Proof.
  intros H Hb HL Hs HQ. unfold bzero. wp_step. eapply wp_fbread; [done|apply Hb|done|done|]. intros bp s1 H1.
  assert (Z.of_nat (length bs) < LOGBLOCKS) by (unfold nbuf, NBUF, LOGBLOCKS in *; lia).
  eapply (wp_fput T); [exact H1|by rewrite lookup_insert_eq|done|done|]. intros s2 H2.
  eapply wp_fbrelse; [exact H2|by rewrite lookup_insert_eq|]. intros s3 H3. rewrite delete_insert_id in H3 by done. by apply HQ.
Qed.

Definition balloc_post c bs L V (a : Z) (s : fs W) : Prop :=
  (a = 0 /\ (forall j, 0 <= j < sb_size sb -> used V j = true) /\ fs_at T c bs L V s) \/
  (data_block a /\ used V a = false /\ fs_at T c (add_block (add_block bs (BBLOCK a sb)) a) L (allocated V a) s).

Lemma balloc_step_spec c bs L V s b : c.1.1.1 = sb -> fs_at T c bs L V s -> disk_ok V -> held_data V L ->
  (length bs + size L + 1 < nbuf)%nat -> 0 <= b -> b mod BPB = 0 -> (forall j, 0 <= j < b -> j < sb_size sb -> used V j = true) ->
  wp (balloc_step (tn_pid T) ROOTDEV b) (fun r s' => match r with
    | inl b' => b < sb_size sb /\ b' = b + BPB /\ fs_at T c bs L V s' /\ (forall j, 0 <= j < b' -> j < sb_size sb -> used V j = true)
    | inr a => balloc_post c bs L V a s' end) s.
Proof.
  intros Hsb H HV HL Hs Hb Hm Hu. pose proof size_range as Hsz. unfold balloc_step. eapply wp_get_sb; [exact H|]. rewrite Hsb.
  destruct (Z.leb_spec (sb_size sb) b) as [Hle|Hlt].
  { wp_step. left. split; [done|]. split; [|done]. intros j Hj. apply Hu; lia. }
  destruct (bmap_loggable b ltac:(lia)) as [Hbk Hlg]. wp_step.
  eapply wp_fbread; [exact H|done|by eapply bmap_not_held|lia|]. intros bp s1 H1.
  eapply wp_fdata; [exact H1|by rewrite lookup_insert_eq|]. pose proof (free_bit_spec (V (BBLOCK b sb)) (sb_size sb - b) (Z.to_nat BPB) 0) as Hf.
  assert (forall k, 0 <= k < BPB -> BBLOCK (b + k) sb = BBLOCK b sb /\ (b + k) mod BPB = k /\ (b + k) / BPB = b / BPB) as Hk.
  { intros k Hk. assert ((b + k) / BPB = b / BPB) as E.
    { rewrite (Z.div_mod b BPB) at 1 by done. rewrite Hm, Z.add_0_r, Z.mul_comm, Z.div_add_l by done. rewrite (Z.div_small k) by done. lia. }
    split; [unfold BBLOCK; by rewrite E|]. split; [|done]. rewrite Z.add_mod, Hm, Z.add_0_l, Z.mod_mod by done. by apply Z.mod_small. }
  destruct (free_bit (V (BBLOCK b sb)) (sb_size sb - b) 0 (Z.to_nat BPB)) as [bi|].
  - destruct Hf as (Hr & Hr' & Hbit). rewrite Z2Nat.id, Z.add_0_l in Hr' by done. destruct (Hk bi ltac:(lia)) as (E1 & E2 & _).
    assert (used V (b + bi) = false) as Hfree by (unfold used; by rewrite E1, E2).
    assert (data_block (b + bi)) as Hd.
    { unfold data_block. split; [|lia]. apply Z.nlt_ge. intros Hx. rewrite (do_meta _ HV) in Hfree by lia. done. }
    eapply (wp_fput T); [exact H1|by rewrite lookup_insert_eq|done|unfold nbuf, NBUF, LOGBLOCKS in *; lia|]. intros s2 H2.
    wp_step. eapply wp_fbrelse; [exact H2|by rewrite lookup_insert_eq|]. intros s3 H3. rewrite delete_insert_id in H3 by (by eapply bmap_not_held).
    wp_step. eapply wp_bzero; [exact H3|by apply data_loggable|by eapply held_none; [done|right]| |].
    { pose proof (gr_len _ _ _ (grown_add bs (BBLOCK b sb))). lia. }
    intros s4 H4. wp_step. right. split; [done|]. split; [done|]. unfold allocated. rewrite E1, E2. exact H4.
  - wp_step. eapply wp_fbrelse; [exact H1|by rewrite lookup_insert_eq|]. intros s2 H2. rewrite delete_insert_id in H2 by (by eapply bmap_not_held).
    wp_step. split; [lia|]. split; [done|]. split; [done|]. intros j Hj Hj'. destruct (Z.ltb_spec j b) as [|Hge]; [apply Hu; lia|].
    replace j with (b + (j - b)) by lia. destruct (Hk (j - b) ltac:(lia)) as (E1 & E2 & _). unfold used. rewrite E1, E2. apply Hf; [lia|]. rewrite Z2Nat.id by done. lia.
Qed.

Lemma wp_balloc c bs L V s Q : c.1.1.1 = sb -> fs_at T c bs L V s -> disk_ok V -> held_data V L ->
  (length bs + size L + 1 < nbuf)%nat -> (forall a s', balloc_post c bs L V a s' -> Q a s') -> wp (balloc (tn_pid T) ROOTDEV) Q s.
Proof.
  intros Hsb H HV HL Hs HQ. unfold balloc. eapply wp_get_sb; [exact H|]. rewrite Hsb. pose proof size_range as Hsz.
  eapply wp_mono; [|intros a s'; apply HQ].
  apply (wp_loop (fun b s => 0 <= b /\ b mod BPB = 0 /\ fs_at T c bs L V s /\ (forall j, 0 <= j < b -> j < sb_size sb -> used V j = true))
    (fun b _ => Z.to_nat ((sb_size sb + BPB - 1 - b) / BPB))).
  - intros b s1 (Hb & Hm & H1 & Hu). eapply wp_mono; [by eapply balloc_step_spec|]. intros [b'|a] s2; [|done].
    intros (Hlt & -> & H2 & Hu'). split.
    + split; [pose proof BPB_pos; lia|]. split; [|done]. rewrite Z.add_mod, Hm by done. done.
    + replace (sb_size sb + BPB - 1 - (b + BPB)) with (sb_size sb + BPB - 1 - b + (-1) * BPB) by lia. rewrite Z.div_add by done.
      assert (1 <= (sb_size sb + BPB - 1 - b) / BPB) by (apply Z.div_le_lower_bound; [done|lia]). lia.
  - split; [lia|]. split; [done|]. split; [done|]. intros; lia.
  - pose proof BPB_pos. assert ((sb_size sb + BPB - 1 - 0) / BPB <= sb_size sb / BPB + 1).
    { rewrite <- (Z.div_add (sb_size sb) 1 BPB) by done. apply Z.div_le_mono; lia. }
    pose proof (Z.div_pos (sb_size sb) BPB ltac:(lia) BPB_pos). lia.
Qed.

(** bfree of a block in use. *)
Lemma wp_bfree c bs L V s b Q : c.1.1.1 = sb -> fs_at T c bs L V s -> disk_ok V -> held_data V L -> data_block b -> used V b = true ->
  (length bs + size L < nbuf)%nat ->
  (forall s', fs_at T c (add_block bs (BBLOCK b sb)) L (freed V b) s' -> Q tt s') -> wp (bfree (tn_pid T) ROOTDEV b) Q s.
Proof.
  intros Hsb H HV HL Hd Hu Hs HQ. pose proof sizes. assert (0 <= b < sb_size sb) as Hb by (unfold data_block in Hd; lia).
  unfold bfree. eapply wp_get_sb; [exact H|]. rewrite Hsb. destruct (bmap_loggable b Hb) as [Hbk Hlg]. wp_step.
  eapply wp_fbread; [exact H|done|by eapply bmap_not_held|done|]. intros bp s1 H1. cbv zeta.
  eapply wp_fdata; [exact H1|by rewrite lookup_insert_eq|]. fold (used V b). rewrite Hu. cbn [negb].
  eapply (wp_fput T); [exact H1|by rewrite lookup_insert_eq|done|unfold nbuf, NBUF, LOGBLOCKS in *; lia|]. intros s2 H2.
  eapply wp_fbrelse; [exact H2|by rewrite lookup_insert_eq|]. intros s3 H3. rewrite delete_insert_id in H3 by (by eapply bmap_not_held). by apply HQ.
Qed.

(** A double free is detected. *)
Lemma bfree_panics c bs L V s b : c.1.1.1 = sb -> fs_at T c bs L V s -> held_data V L -> 0 <= b < sb_size sb -> used V b = false ->
  (length bs + size L < nbuf)%nat -> bfree (tn_pid T) ROOTDEV b s = Panic "freeing free block".
Proof.
  intros Hsb H HL Hb Hu Hs. destruct (bmap_loggable b Hb) as [Hbk _].
  assert (wp (fbread (tn_pid T) ROOTDEV (BBLOCK b sb)) (fun bp s1 => fs_at T c bs (<[BBLOCK b sb := bp]> L) V s1) s) as Hr.
  { eapply wp_fbread; [exact H|done|by eapply bmap_not_held|done|auto]. }
  pose proof (f_equal (fun c => c.1.1.1) (fa_ctl _ _ _ _ _ _ H)) as Es. cbn in Es.
  unfold bfree, bind at 1, gets. cbn [obind]. rewrite Es, Hsb. unfold bind at 1. unfold wp in Hr.
  destruct (fbread _ _ _ s) as [bp s1| | |]; [|done..]. cbn [obind]. unfold fdata, bind, gets. cbn [obind view fs_bioL lcomp fs_logL lbioL].
  rewrite (txn_data T bs _ V _ (BBLOCK b sb) bp (fa_txn _ _ _ _ _ _ Hr)) by by rewrite lookup_insert_eq. fold (used V b). by rewrite Hu.
Qed.
End WithLayout.
End Alloc.
