(* ===== verification/FsInode.v ===== *)
(** * The contents of inodes (kernel/fs.c: bmap, readi, writei, iupdate)

    An inode of the disk as a byte array.  Inside a transaction, reading and
    writing through an inode implement reading and overwriting the array;
    blocks it gains come from the free map and nothing else on the disk
    changes. *)

From Stdlib Require Import ZArith Lia.
From stdpp Require Import gmap.
From S2P Require Import Prelude Mem StringC Params Env Sleeplock Bio Log Fs FsPure FsTxn FsAlloc.

(** ** The blocks of an inode

    Slots 0..MAXFILE-1 are the blocks of the contents, slot MAXFILE is the
    indirect block; 0 is no block. *)
Definition slot_of (V : Z -> list Z) (i : inode) (k : Z) : Z :=
  if k <? NDIRECT then i_addrs i k
  else if k =? MAXFILE then i_addrs i NDIRECT
  else if i_addrs i NDIRECT =? 0 then 0
  else getf 4 (4 * Z.to_nat (k - NDIRECT)) (V (i_addrs i NDIRECT)).

Definition same_fields (i i' : inode) : Prop :=
  i_dev i' = i_dev i /\ i_inum i' = i_inum i /\ i_ref i' = i_ref i /\ i_lock i' = i_lock i /\ i_valid i' = i_valid i /\
  i_type i' = i_type i /\ i_major i' = i_major i /\ i_minor i' = i_minor i /\ i_nlink i' = i_nlink i.

Section Inode.
Context {W : Type} (T : txn_env) `{!Writing T} (sb : superblock).
Implicit Types (V : Z -> list Z) (bs : list Z) (c : control W) (i : inode).

Definition in_slots (k : Z) : Prop := 0 <= k <= MAXFILE.
Definition owns V i (n : Z) : Prop := n <> 0 /\ exists k, in_slots k /\ slot_of V i k = n.
Definition bitmap (n : Z) : Prop := sb_bmapstart sb <= n < datastart sb.

(** An inode whose blocks are distinct data blocks marked in use, with a
    block below every byte of its size. *)
Record inode_rep V i : Prop := {
  ir_dev : i_dev i = ROOTDEV;
  ir_inum : 0 <= i_inum i < sb_ninodes sb;
  ir_ok : inode_ok i;
  ir_slot : forall k, in_slots k -> slot_of V i k = 0 \/ data_block sb (slot_of V i k) /\ used sb V (slot_of V i k) = true;
  ir_inj : forall j k, in_slots j -> in_slots k -> slot_of V i j <> 0 -> slot_of V i j = slot_of V i k -> j = k;
  ir_size : 0 <= i_size i <= MAXFILE * BSIZE;
  ir_full : forall k, 0 <= k -> k * BSIZE < i_size i -> slot_of V i k <> 0;
}.

(** What operations on one inode do to the disk: blocks are only added, a
    block becomes marked exactly when the inode gets it, and no block
    changes but the free map and the inode's own. *)
Record evolves V i V' i' : Prop := {
  ev_fields : same_fields i i';
  ev_keep : forall k, in_slots k -> slot_of V i k <> 0 -> slot_of V' i' k = slot_of V i k;
  ev_used : forall j, 0 <= j < sb_size sb -> used sb V' j = true <-> used sb V j = true \/ owns V' i' j;
  ev_frame : forall n, ~ bitmap n -> ~ owns V' i' n -> V' n = V n;
  ev_new : forall n, owns V' i' n -> owns V i n \/ 0 <= n < sb_size sb /\ used sb V n = false;
}.

Lemma same_fields_refl i : same_fields i i.
Proof. unfold same_fields. tauto. Qed.
Lemma same_fields_trans i j k : same_fields i j -> same_fields j k -> same_fields i k.
Proof. unfold same_fields. intuition congruence. Qed.

Lemma owns_keep V i V' i' n : evolves V i V' i' -> owns V i n -> owns V' i' n.
Proof. intros [_ Hk _ _ _] [Hn (k & Hi & E)]. split; [done|]. exists k. split; [done|]. rewrite Hk; congruence. Qed.
Lemma evolves_trans V i V1 i1 V2 i2 : evolves V i V1 i1 -> evolves V1 i1 V2 i2 -> evolves V i V2 i2.
Proof.
  intros H1 H2. pose proof H1 as [F1 K1 U1 R1 N1]. pose proof H2 as [F2 K2 U2 R2 N2]. split.
  - by eapply same_fields_trans.
  - intros k Hk Hn. rewrite K2; rewrite ?K1; done.
  - intros j Hj. rewrite U2, U1 by done. split; [|tauto]. intros [[|Ho]|]; [tauto| |tauto]. right. by eapply owns_keep.
  - intros n Hn Ho. rewrite R2 by done. apply R1; [done|]. intros Hx. apply Ho. by eapply owns_keep.
  - intros n Ho. destruct (N2 n Ho) as [Ho1|[Hr Hu]]; [by apply N1|right]. split; [done|]. destruct (used sb V n) eqn:E; [|done].
    exfalso. assert (used sb V1 n = true) by (apply U1; [done|by left]). congruence.
Qed.
Lemma evolves_refl V i : inode_rep V i -> evolves V i V i.
Proof.
  intros H. split; [apply same_fields_refl|done| |done|by left]. intros j Hj. split; [tauto|]. intros [|[Hn (k & Hk & E)]]; [done|].
  destruct (ir_slot _ _ H k Hk) as [|[_ Hu]]; congruence.
Qed.

Section WithLayout.
Hypothesis Hly : layout T sb.

Lemma datastart_pos : 0 < datastart sb.
Proof. pose proof (sizes T sb Hly). pose proof LOGBLOCKS_pos. destruct Hly. unfold datastart. lia. Qed.
Lemma data_not_bitmap n : data_block sb n -> ~ bitmap n.
Proof. unfold data_block, bitmap. lia. Qed.
Lemma data_nonzero n : data_block sb n -> n <> 0.
Proof. pose proof datastart_pos. unfold data_block. lia. Qed.

(** ** Gaining a block *)

Record gains V i (k0 a : Z) V' i' : Prop := {
  ga_fields : same_fields i i' /\ i_size i' = i_size i;
  ga_ok : inode_ok i';
  ga_slot : in_slots k0 /\ slot_of V i k0 = 0;
  ga_new : data_block sb a /\ used sb V a = false;
  ga_slots : forall k, in_slots k -> slot_of V' i' k = if k =? k0 then a else slot_of V i k;
  ga_used : forall j, 0 <= j < sb_size sb -> used sb V' j = used sb V j || (j =? a);
  ga_frame : forall n, ~ bitmap n -> n <> a -> n <> slot_of V i MAXFILE \/ n = 0 -> V' n = V n;
}.

Lemma gains_rep V i k0 a V' i' : inode_rep V i -> gains V i k0 a V' i' -> inode_rep V' i' /\ evolves V i V' i'.
Proof.
  intros H [[F Es] Ho [Hk0 Hz] [Ha Hau] HS HU HF]. pose proof F as (E1 & E2 & _). pose proof (data_nonzero a Ha) as Ha0.
  assert (forall k, in_slots k -> slot_of V i k <> 0 -> slot_of V' i' k = slot_of V i k) as Hkeep.
  { intros k Hk Hn. rewrite HS by done. destruct (Z.eqb_spec k k0) as [->|]; congruence. }
  assert (owns V' i' a) as Hown by (split; [done|]; exists k0; split; [done|]; by rewrite HS, Z.eqb_refl).
  split; split.
  - by rewrite E1, (ir_dev _ _ H).
  - rewrite E2. apply H.
  - done.
  - intros k Hk. rewrite HS by done. assert (forall b, data_block sb b -> used sb V' b = used sb V b || (b =? a)) as HU'.
    { intros b Hb. apply HU. pose proof datastart_pos. unfold data_block in Hb. lia. }
    destruct (Z.eqb_spec k k0) as [|Hne]; [right; split; [done|]; rewrite HU' by done; by rewrite Z.eqb_refl, orb_true_r|].
    destruct (ir_slot _ _ H k Hk) as [|[Hd Hu]]; [by left|right]. split; [done|]. rewrite HU' by done. by rewrite Hu.
  - intros j k Hj Hk. rewrite !HS by done.
    assert (forall m, in_slots m -> slot_of V i m <> a) as Hna.
    { intros m Hm E. destruct (ir_slot _ _ H m Hm) as [|[_ Hu]]; [congruence|]. rewrite E in Hu. congruence. }
    destruct (Z.eqb_spec j k0) as [->|], (Z.eqb_spec k k0) as [->|]; try done.
    + intros _ E. by destruct (Hna k Hk).
    + intros _ E. by destruct (Hna j Hj).
    + by apply H.
  - rewrite Es. apply H.
  - intros k Hk Hlt. rewrite Es in Hlt. pose proof (ir_size _ _ H). assert (in_slots k) by (unfold in_slots, BSIZE in *; lia).
    rewrite Hkeep; [|done|]; by apply H.
  - done.
  - done.
  - intros j Hj. rewrite HU by done. rewrite orb_true_iff, Z.eqb_eq. split; [|intros [|[Hn (k & Hk & E)]]].
    + intros [| ->]; [by left|by right].
    + tauto.
    + revert E. rewrite HS by done. destruct (Z.eqb_spec k k0); [intros ->; tauto|]. intros E. left.
      destruct (ir_slot _ _ H k Hk) as [|[_ Hu]]; congruence.
  - intros n Hn Ho'. apply HF; [done|congruence|]. destruct (Z.eq_dec n 0) as [|Hn0]; [by right|left]. intros ->. apply Ho'. split; [done|].
    exists MAXFILE. split; [unfold in_slots; by vm_compute|]. apply Hkeep; [unfold in_slots; by vm_compute|done].
  - intros n [Hn (k & Hk & E)]. rewrite HS in E by done. destruct (Z.eqb_spec k k0) as [->|].
    + right. subst n. pose proof datastart_pos. unfold data_block in Ha. split; [lia|done].
    + left. split; [done|]. by exists k.
Qed.
Lemma data_u32 a : data_block sb a -> u32_ok a.
Proof. intros Ha. pose proof datastart_pos. pose proof (size_range T sb Hly). unfold data_block, u32_ok in *. lia. Qed.
Lemma allocated_other V a n : ~ bitmap n -> n <> a -> data_block sb a -> allocated sb V a n = V n.
Proof.
  intros Hn Ha Hd. unfold allocated. rewrite upd_ne by done. rewrite upd_ne; [done|]. intros ->. apply Hn.
  pose proof datastart_pos. apply (BBLOCK_eq T sb Hly). unfold data_block in Hd. lia.
Qed.
Lemma allocated_new V a : allocated sb V a a = zeroes.
Proof. unfold allocated. by rewrite upd_eq. Qed.
Lemma used_data V a j : disk_ok sb V -> data_block sb a -> 0 <= j < sb_size sb -> used sb (allocated sb V a) j = used sb V j || (j =? a).
Proof. by apply (used_allocated T sb Hly). Qed.
Lemma with_addr_ok i k a : inode_ok i -> u32_ok a -> inode_ok (with_addr k a i).
Proof. intros [] Ha. split; cbn; try done. intros j. unfold upd. case_decide; auto. Qed.
Lemma getf_zeroes n o : getf n o zeroes = 0.
Proof.
  unfold getf, zeroes. rewrite drop_replicate, take_replicate. generalize (n `min` (Z.to_nat BSIZE - o))%nat. intros m.
  induction m as [|m IH]; cbn; [done|]. by rewrite IH.
Qed.

(** The indirect block of an inode, when there is one. *)
Lemma indirect_block V i : inode_rep V i -> i_addrs i NDIRECT <> 0 ->
  data_block sb (i_addrs i NDIRECT) /\ used sb V (i_addrs i NDIRECT) = true.
Proof. intros H Hn. destruct (ir_slot _ _ H MAXFILE) as [Hx|Hx]; [unfold in_slots; by vm_compute|done|done]. Qed.
Lemma slot_indirect V i : slot_of V i MAXFILE = i_addrs i NDIRECT.
Proof. done. Qed.

Section Gain.
Context (V : Z -> list Z) (i : inode) (a : Z).
Hypotheses (HV : disk_ok sb V) (H : inode_rep V i) (Ha : data_block sb a) (Hu : used sb V a = false).

Lemma indirect_ne : i_addrs i NDIRECT <> a.
Proof. intros E. destruct (indirect_block V i H) as [_ Hx]; [rewrite E; by apply data_nonzero|congruence]. Qed.

Lemma gain_direct k0 : 0 <= k0 < NDIRECT -> i_addrs i k0 = 0 -> gains V i k0 a (allocated sb V a) (with_addr k0 a i).
Proof.
  intros Hk Hz. split; cbn [with_addr i_size].
  - split; [unfold same_fields; cbn; tauto|done].
  - apply with_addr_ok; [apply H|by apply data_u32].
  - unfold in_slots, MAXFILE, slot_of in *. rewrite (proj2 (Z.ltb_lt _ _)) by lia. split; [|done]. assert (0 <= NINDIRECT) by by vm_compute. lia.
  - done.
  - intros k [Hk1 Hk2]. unfold slot_of. cbn [with_addr i_addrs]. rewrite (upd_ne _ k0 NDIRECT) by lia. destruct (Z.ltb_spec k NDIRECT).
    + unfold upd. case_decide as E; destruct (Z.eqb_spec k k0); subst; try done.
    + rewrite (proj2 (Z.eqb_neq k k0)) by lia. destruct (k =? MAXFILE); [done|]. destruct (Z.eqb_spec (i_addrs i NDIRECT) 0) as [|Hn]; [done|].
      rewrite allocated_other; [done| |apply indirect_ne|done]. apply data_not_bitmap. by apply (indirect_block V i).
  - intros j Hj. by apply used_data.
  - intros n Hb Hn _. by apply allocated_other.
Qed.

Lemma gain_indirect : i_addrs i NDIRECT = 0 -> gains V i MAXFILE a (allocated sb V a) (with_addr NDIRECT a i).
Proof.
  intros Hz. split; cbn [with_addr i_size].
  - split; [unfold same_fields; cbn; tauto|done].
  - apply with_addr_ok; [apply H|by apply data_u32].
  - split; [unfold in_slots; by vm_compute|]. by rewrite slot_indirect.
  - done.
  - intros k [Hk1 Hk2]. unfold slot_of. cbn [with_addr i_addrs]. rewrite upd_eq, Hz. destruct (Z.ltb_spec k NDIRECT).
    + rewrite upd_ne by lia. assert (NDIRECT < MAXFILE) by by vm_compute. by rewrite (proj2 (Z.eqb_neq k MAXFILE)) by lia.
    + destruct (k =? MAXFILE); [done|]. rewrite (proj2 (Z.eqb_neq a 0)) by by apply data_nonzero. by rewrite allocated_new, getf_zeroes.
  - intros j Hj. by apply used_data.
  - intros n Hb Hn _. by apply allocated_other.
Qed.

Lemma gain_entry k0 : NDIRECT <= k0 < MAXFILE -> i_addrs i NDIRECT <> 0 -> slot_of V i k0 = 0 ->
  gains V i k0 a (upd (allocated sb V a) (i_addrs i NDIRECT) (putf 4 (4 * Z.to_nat (k0 - NDIRECT)) a (V (i_addrs i NDIRECT)))) i.
Proof.
  intros Hk Hn Hz. destruct (indirect_block V i H Hn) as [Hd Hdu]. pose proof (do_block _ _ HV (i_addrs i NDIRECT)) as [Hlen _].
  assert (forall k, NDIRECT <= k < MAXFILE -> (4 * Z.to_nat (k - NDIRECT) + 4 <= length (V (i_addrs i NDIRECT)))%nat) as Hoff.
  { intros k Hk'. rewrite Hlen. unfold MAXFILE, NINDIRECT in Hk'. change (BSIZE / 4) with 256 in Hk'. unfold BSIZE. lia. }
  split.
  - by split; [apply same_fields_refl|].
  - apply H.
  - split; [|done]. unfold in_slots. assert (0 < NDIRECT) by done. lia.
  - done.
  - intros k [Hk1 Hk2]. unfold slot_of. rewrite upd_eq. destruct (Z.ltb_spec k NDIRECT).
    + by rewrite (proj2 (Z.eqb_neq k k0)) by lia.
    + destruct (Z.eqb_spec k MAXFILE) as [->|]; [by rewrite (proj2 (Z.eqb_neq MAXFILE k0)) by lia|].
      rewrite (proj2 (Z.eqb_neq (i_addrs i NDIRECT) 0)) by done. destruct (Z.eqb_spec k k0) as [->|].
      * rewrite getf_putf_same by (apply Hoff; lia). apply Z.mod_small. by apply data_u32.
      * rewrite getf_putf_other; [done|by apply Hoff|lia].
  - intros j Hj. rewrite (used_upd_data T sb Hly) by done. by apply used_data.
  - intros n Hb Hna Hni. rewrite slot_indirect in Hni. rewrite upd_ne by (destruct Hni as [| ->]; congruence). by apply allocated_other.
Qed.

Lemma gain_entry_ok k0 : NDIRECT <= k0 < MAXFILE -> i_addrs i NDIRECT <> 0 ->
  disk_ok sb (upd (allocated sb V a) (i_addrs i NDIRECT) (putf 4 (4 * Z.to_nat (k0 - NDIRECT)) a (V (i_addrs i NDIRECT)))).
Proof.
  intros Hk Hn. destruct (indirect_block V i H Hn) as [Hd Hdu]. pose proof (do_block _ _ HV (i_addrs i NDIRECT)) as [Hlen Hb].
  apply (data_upd_ok T sb Hly); [by apply (allocated_ok T sb Hly)|done|]. split; [|by apply putf_bytes]. rewrite length_putf; [done|].
  rewrite Hlen. unfold MAXFILE, NINDIRECT in Hk. change (BSIZE / 4) with 256 in Hk. unfold BSIZE. lia.
Qed.
End Gain.
(** ** bmap *)

(** The inode and the disk with more blocks, the contents as before. *)
Record grows V i V' i' : Prop := {
  gw_disk : disk_ok sb V';
  gw_rep : inode_rep V' i';
  gw_ev : evolves V i V' i';
  gw_size : i_size i' = i_size i;
  gw_data : forall k, 0 <= k < MAXFILE -> slot_of V i k <> 0 -> V' (slot_of V i k) = V (slot_of V i k);
}.
Lemma grows_refl V i : disk_ok sb V -> inode_rep V i -> grows V i V i.
Proof. intros. split; try done. by apply evolves_refl. Qed.
Lemma grows_trans V i V1 i1 V2 i2 : grows V i V1 i1 -> grows V1 i1 V2 i2 -> grows V i V2 i2.
Proof.
  intros [D1 R1 E1 S1 K1] [D2 R2 E2 S2 K2]. split; [done|done|by eapply evolves_trans|congruence|]. intros k Hk Hn.
  assert (slot_of V1 i1 k = slot_of V i k) as Es by (apply E1; [unfold in_slots; lia|done]). rewrite <- K1 by done. rewrite <- Es. apply K2; congruence.
Qed.
Lemma gains_grows V i k0 a V' i' : disk_ok sb V' -> inode_rep V i -> gains V i k0 a V' i' -> grows V i V' i'.
Proof.
  intros HV' H G. destruct (gains_rep V i k0 a V' i' H G) as [HR HE]. pose proof G as [[_ Es] _ _ [_ Hau] _ _ HF]. split; try done.
  intros k Hk Hn. assert (in_slots k) as Hk' by (unfold in_slots; lia). destruct (ir_slot _ _ H k Hk') as [|[Hd Hu]]; [done|]. apply HF.
  - by apply data_not_bitmap.
  - congruence.
  - left. intros E. assert (k = MAXFILE); [|lia]. eapply (ir_inj _ _ H); try done.
Qed.

Definition set_ctl (ip : nat) (i : inode) c : control W := on_ctl ip (fun _ => i) c.
Lemma set_ctl_id ip c : set_ctl ip (c.1.2 ip) c = c.
Proof. destruct c as [[[? ?] ?] ?]. unfold set_ctl, on_ctl. cbn. by rewrite upd_id. Qed.
Lemma set_ctl_set ip i j c : set_ctl ip i (set_ctl ip j c) = set_ctl ip i c.
Proof. unfold set_ctl, on_ctl. cbn. by rewrite upd_upd. Qed.
Lemma set_ctl_inode ip i c : (set_ctl ip i c).1.2 ip = i.
Proof. cbn. by rewrite upd_eq. Qed.

Lemma wp_set_inode' c bs L V s ip f Q : fs_at T c bs L V s ->
  (forall s', fs_at T (set_ctl ip (f (c.1.2 ip)) c) bs L V s' -> Q tt s') -> wp (set_inode ip f) Q s.
Proof. intros Hs HQ. eapply wp_set_inode; [exact Hs|exact HQ]. Qed.

Definition disk_full V : Prop := forall j, 0 <= j < sb_size sb -> used sb V j = true.

(** The state in which a routine leaves the inode [ip], having logged at most
    [n] more blocks. *)
Definition left_at (n : nat) c ip bs V i (P : (Z -> list Z) -> inode -> Prop) (s : fs W) : Prop :=
  exists V' i' bs', fs_at T (set_ctl ip i' c) bs' ∅ V' s /\ grown n bs bs' /\ grows V i V' i' /\ P V' i'.

Section Bmap.
Context (c : control W) (ip : nat) (bs : list Z) (V : Z -> list Z) (i : inode).
Hypotheses (Hsb : c.1.1.1 = sb) (Hi : c.1.2 ip = i) (HV : disk_ok sb V) (H : inode_rep V i).

Lemma set_ctl_here : set_ctl ip i c = c.
Proof. rewrite <- Hi. apply set_ctl_id. Qed.
Lemma no_held V' : held_data sb V' ∅.
Proof. intros n. rewrite lookup_empty. by intros [? ?]. Qed.

(** A block for a direct slot. *)
Lemma bmap_direct s bn : fs_at T c bs ∅ V s -> (length bs + 5 < nbuf)%nat -> 0 <= bn < NDIRECT ->
  wp (bmap (tn_pid T) ip bn) (fun a => left_at 5 c ip bs V i (fun V' i' => a = slot_of V' i' bn /\ (a = 0 -> disk_full V'))) s.
Proof.
  intros Hs Hr Hb. unfold bmap. eapply wp_get_inode; [exact Hs|]. rewrite Hi, (proj2 (Z.ltb_lt _ _)) by lia.
  assert (forall V' j, slot_of V' j bn = i_addrs j bn) as Es by (intros; unfold slot_of; by rewrite (proj2 (Z.ltb_lt _ _)) by lia).
  destruct (Z.eqb_spec (i_addrs i bn) 0) as [Hz|Hnz].
  - wp_step. rewrite (ir_dev _ _ H). eapply (wp_balloc T sb Hly); [done|exact Hs|done|apply no_held|rewrite map_size_empty; lia|].
    intros a s1 [(-> & Hfull & H1)|(Ha & Hu & H1)].
    + cbn. exists V, i, bs. rewrite set_ctl_here. split; [done|]. split; [by eapply grown_le, grown_refl; lia|]. split; [by apply grows_refl|].
      by rewrite Es.
    + rewrite (proj2 (Z.eqb_neq a 0)) by by apply data_nonzero. wp_step. eapply wp_set_inode'; [exact H1|]. rewrite Hi. intros s2 H2. wp_step.
      pose proof (gain_direct V i a HV H Ha Hu bn Hb Hz) as G. exists (allocated sb V a), (with_addr bn a i), (add_block (add_block bs (BBLOCK a sb)) a).
      split; [done|]. split; [eapply grown_le; [|eapply grown_trans; apply grown_add]; lia|].
      split; [apply (gains_grows _ _ bn a); [by apply (allocated_ok T sb Hly)|done|done]|]. rewrite Es. cbn. rewrite upd_eq. split; [done|].
      intros ->. by apply data_nonzero in Ha.
  - wp_step. exists V, i, bs. rewrite set_ctl_here. split; [done|]. split; [by eapply grown_le, grown_refl; lia|]. split; [by apply grows_refl|]. by rewrite Es.
Qed.

(** The indirect block. *)
Lemma bmap_ind s : fs_at T c bs ∅ V s -> (length bs + 5 < nbuf)%nat ->
  wp (if i_addrs i NDIRECT =? 0 then
        let* addr := balloc (tn_pid T) ROOTDEV in when (negb (addr =? 0)) (set_inode ip (with_addr NDIRECT addr)) ;; ret addr
      else ret (i_addrs i NDIRECT))
    (fun a => left_at 2 c ip bs V i (fun V' i' => a = i_addrs i' NDIRECT /\ (a = 0 -> disk_full V'))) s.
Proof.
  intros Hs Hr. destruct (Z.eqb_spec (i_addrs i NDIRECT) 0) as [Hz|Hnz].
  - wp_step. eapply (wp_balloc T sb Hly); [done|exact Hs|done|apply no_held|rewrite map_size_empty; lia|].
    intros a s1 [(-> & Hfull & H1)|(Ha & Hu & H1)].
    + cbn. exists V, i, bs. rewrite set_ctl_here. split; [done|]. split; [by eapply grown_le, grown_refl; lia|]. by split; [apply grows_refl|].
    + rewrite (proj2 (Z.eqb_neq a 0)) by by apply data_nonzero. cbn [negb when]. wp_step. eapply wp_set_inode'; [exact H1|]. rewrite Hi. intros s2 H2. wp_step.
      pose proof (gain_indirect V i a HV H Ha Hu Hz) as G. exists (allocated sb V a), (with_addr NDIRECT a i), (add_block (add_block bs (BBLOCK a sb)) a).
      split; [done|]. split; [apply (grown_trans 1 1 _ _ _ (grown_add _ _) (grown_add _ _))|].
      split; [apply (gains_grows _ _ MAXFILE a); [by apply (allocated_ok T sb Hly)|done|done]|]. cbn. rewrite upd_eq. split; [done|].
      intros ->. by apply data_nonzero in Ha.
  - wp_step. exists V, i, bs. rewrite set_ctl_here. split; [done|]. split; [by eapply grown_le, grown_refl; lia|]. by split; [apply grows_refl|].
Qed.

(** The entry of the indirect block. *)
Lemma bmap_entry s bn : fs_at T c bs ∅ V s -> (length bs + 3 < nbuf)%nat -> NDIRECT <= bn < MAXFILE -> i_addrs i NDIRECT <> 0 ->
  wp (let* bp := fbread (tn_pid T) ROOTDEV (i_addrs i NDIRECT) in
      let* a := fdata bp in
      let addr := getf 4 (4 * Z.to_nat (bn - NDIRECT)) a in
      let* addr := (if addr =? 0 then
                      let* addr := balloc (tn_pid T) ROOTDEV in
                      when (negb (addr =? 0)) (fset_data bp (putf 4 (4 * Z.to_nat (bn - NDIRECT)) addr a) ;; flog_write bp) ;;
                      ret addr
                    else ret addr) in
      fbrelse (tn_pid T) bp ;; ret addr)
    (fun a => left_at 3 c ip bs V i (fun V' i' => a = slot_of V' i' bn /\ (a = 0 -> disk_full V'))) s.
Proof.
  intros Hs Hr Hb Hn. destruct (indirect_block V i H Hn) as [Hd Hu]. destruct (data_loggable T sb Hly _ Hd) as [Hok _].
  set (ind := i_addrs i NDIRECT) in *. assert (in_slots bn) as Hin by (unfold in_slots; assert (0 < NDIRECT) by done; lia).
  assert (slot_of V i bn = getf 4 (4 * Z.to_nat (bn - NDIRECT)) (V ind)) as Es.
  { unfold slot_of. fold ind. by rewrite (proj2 (Z.ltb_ge bn NDIRECT)), (proj2 (Z.eqb_neq bn MAXFILE)), (proj2 (Z.eqb_neq ind 0)) by lia. }
  wp_step. eapply wp_fbread; [exact Hs|done|apply lookup_empty|rewrite map_size_empty; lia|]. intros bp s1 H1.
  eapply wp_fdata; [exact H1|by rewrite lookup_insert_eq|]. cbv zeta. rewrite <- Es.
  assert (delete ind (<[ind := bp]> (∅ : gmap Z nat)) = ∅) as Ed by by rewrite delete_insert_id by apply lookup_empty.
  destruct (Z.eqb_spec (slot_of V i bn) 0) as [Hz|Hnz].
  - wp_step. wp_step. eapply (wp_balloc T sb Hly); [done|exact H1|done| | |].
    { intros n [b Hx]. apply lookup_insert_Some in Hx as [[<- _]|[_ Hx]]; [done|]. by rewrite lookup_empty in Hx. }
    { rewrite insert_empty, map_size_singleton. lia. }
    intros a s2 [(-> & Hfull & H2)|(Ha & Hua & H2)].
    + cbn [Z.eqb negb when]. wp_step. wp_step. wp_step. wp_step. eapply wp_fbrelse; [exact H2|by rewrite lookup_insert_eq|]. rewrite Ed. intros s3 H3. wp_step.
      exists V, i, bs. rewrite set_ctl_here. split; [done|]. split; [by eapply grown_le, grown_refl; lia|]. by split; [apply grows_refl|].
    + rewrite (proj2 (Z.eqb_neq a 0)) by by apply data_nonzero. cbn [negb when]. rewrite bind_assoc.
      pose proof (grown_trans 1 1 _ _ _ (grown_add bs (BBLOCK a sb)) (grown_add _ a)) as Hg.
      eapply (wp_fput T); [exact H2|by rewrite lookup_insert_eq|by apply (data_loggable T sb Hly)|pose proof (gr_len _ _ _ Hg); unfold nbuf, NBUF, LOGBLOCKS in *; lia|].
      intros s3 H3. wp_step. wp_step. eapply wp_fbrelse; [exact H3|by rewrite lookup_insert_eq|]. rewrite Ed. intros s4 H4. wp_step.
      pose proof (gain_entry V i a HV H Ha Hua bn Hb Hn Hz) as G. pose proof (gain_entry_ok V i a HV H Ha bn Hb Hn) as HV'. fold ind in G, HV'.
      eexists _, i, _. rewrite set_ctl_here. split; [exact H4|]. split; [apply (grown_trans 2 1 _ _ _ Hg (grown_add _ _))|].
      split; [by apply (gains_grows _ _ bn a)|]. rewrite (ga_slots _ _ _ _ _ _ G bn Hin), Z.eqb_refl. split; [done|]. intros ->. by apply data_nonzero in Ha.
  - wp_step. wp_step. wp_step. eapply wp_fbrelse; [exact H1|by rewrite lookup_insert_eq|]. rewrite Ed. intros s2 H2. wp_step.
    exists V, i, bs. rewrite set_ctl_here. split; [done|]. split; [by eapply grown_le, grown_refl; lia|]. by split; [apply grows_refl|].
Qed.
End Bmap.

Lemma left_at_trans j k c ip bs V i V1 i1 bs1 P s : grown j bs bs1 -> grows V i V1 i1 ->
  left_at k (set_ctl ip i1 c) ip bs1 V1 i1 P s -> left_at (j + k) c ip bs V i P s.
Proof.
  intros Hg Hw (V' & i' & bs' & Hs & Hg' & Hw' & HP). rewrite set_ctl_set in Hs. exists V', i', bs'.
  split; [done|]. split; [by eapply grown_trans|]. split; [by eapply grows_trans|done].
Qed.
Lemma left_at_mono j k c ip bs V i (P P' : (Z -> list Z) -> inode -> Prop) s : (j <= k)%nat ->
  (forall V' i', grows V i V' i' -> P V' i' -> P' V' i') -> left_at j c ip bs V i P s -> left_at k c ip bs V i P' s.
Proof.
  intros Hjk HP (V' & i' & bs' & Hs & Hg & Hw & HP'). exists V', i', bs'. split; [done|]. split; [by eapply grown_le|]. split; auto.
Qed.

(** bmap gives the block of a slot, allocating it when there is none. *)
Lemma wp_bmap c ip bs V i s bn : c.1.1.1 = sb -> c.1.2 ip = i -> disk_ok sb V -> inode_rep V i -> fs_at T c bs ∅ V s ->
  (length bs + 5 < nbuf)%nat -> 0 <= bn < MAXFILE ->
  wp (bmap (tn_pid T) ip bn) (fun a => left_at 5 c ip bs V i (fun V' i' => a = slot_of V' i' bn /\ (a = 0 -> disk_full V'))) s.
Proof.
  intros Hsb Hi HV H Hs Hr Hb. destruct (Z.ltb_spec bn NDIRECT) as [Hlt|Hge]; [apply bmap_direct; (done || lia)|].
  unfold bmap. eapply wp_get_inode; [exact Hs|]. rewrite Hi, (proj2 (Z.ltb_ge _ _)) by lia. cbv zeta.
  rewrite (proj2 (Z.ltb_lt (bn - NDIRECT) NINDIRECT)) by (unfold MAXFILE in Hb; lia). rewrite (ir_dev _ _ H). wp_step.
  eapply wp_mono; [by apply (bmap_ind c ip bs V i)|]. intros a s1 (V1 & i1 & bs1 & H1 & G1 & W1 & -> & Hf1).
  pose proof (gr_len _ _ _ G1). destruct (Z.eqb_spec (i_addrs i1 NDIRECT) 0) as [Hz|Hn].
  - wp_step. exists V1, i1, bs1. split; [done|]. split; [by eapply grown_le; [|exact G1]; lia|]. split; [done|]. split; [|auto].
    unfold slot_of. by rewrite (proj2 (Z.ltb_ge bn NDIRECT)), (proj2 (Z.eqb_neq bn MAXFILE)), Hz by lia.
  - eapply wp_mono.
    + apply (bmap_entry (set_ctl ip i1 c) ip bs1 V1 i1); [done|apply set_ctl_inode|apply W1|apply W1|done|lia|lia|done].
    + intros a s2. by apply (left_at_trans 2 3).
Qed.

(** A slot that has a block is only read. *)
Lemma wp_bmap_mapped c ip bs V i s bn Q : c.1.2 ip = i -> disk_ok sb V -> inode_rep V i -> fs_at T c bs ∅ V s ->
  (length bs < nbuf)%nat -> 0 <= bn < MAXFILE -> slot_of V i bn <> 0 ->
  (forall s', fs_at T c bs ∅ V s' -> Q (slot_of V i bn) s') -> wp (bmap (tn_pid T) ip bn) Q s.
Proof.
  intros Hi HV H Hs Hr Hb Hn HQ. unfold bmap. eapply wp_get_inode; [exact Hs|]. rewrite Hi. revert Hn HQ. unfold slot_of.
  destruct (Z.ltb_spec bn NDIRECT) as [Hlt|Hge].
  - intros Hn HQ. rewrite (proj2 (Z.eqb_neq _ _)) by done. wp_step. by apply HQ.
  - rewrite (proj2 (Z.eqb_neq bn MAXFILE)) by lia. destruct (Z.eqb_spec (i_addrs i NDIRECT) 0) as [|Hni]; [done|]. intros Hn HQ. cbv zeta.
    rewrite (proj2 (Z.ltb_lt (bn - NDIRECT) NINDIRECT)) by (unfold MAXFILE in Hb; lia). rewrite (ir_dev _ _ H). wp_step. wp_step.
    rewrite (proj2 (Z.eqb_neq (i_addrs i NDIRECT) 0)) by done. destruct (indirect_block V i H Hni) as [Hd _].
    destruct (data_loggable T sb Hly _ Hd) as [Hok _]. wp_step.
    eapply wp_fbread; [exact Hs|done|apply lookup_empty|rewrite map_size_empty; lia|]. intros bp s1 H1.
    eapply wp_fdata; [exact H1|by rewrite lookup_insert_eq|]. rewrite (proj2 (Z.eqb_neq _ _)) by done. wp_step. wp_step. wp_step.
    eapply wp_fbrelse; [exact H1|by rewrite lookup_insert_eq|]. rewrite delete_insert_id by apply lookup_empty. intros s2 H2. wp_step. by apply HQ.
Qed.
End WithLayout.
End Inode.
