(* ===== verification/FsFile.v ===== *)
(** * Reading and writing files (kernel/fs.c: readi, writei, iupdate)

    The contents of an inode as a byte list: readi returns a piece of it,
    writei overwrites a piece or extends it, and files that share no block
    with it are untouched. *)

From Stdlib Require Import ZArith Lia.
From stdpp Require Import gmap.
From S2P Require Import Prelude Mem StringC Params Env Sleeplock Bio Log Fs FsPure FsTxn FsAlloc FsInode.

(** ** The bytes of an inode *)

Definition fbyte (V : Z -> list Z) (i : inode) (p : Z) : Z := nth (Z.to_nat (p mod BSIZE)) (V (slot_of V i (p / BSIZE))) 0.
Definition frange (V : Z -> list Z) (i : inode) (off n : Z) : list Z := fbyte V i <$> seqZ off n.
Definition fcontent (V : Z -> list Z) (i : inode) : list Z := frange V i 0 (i_size i).

Lemma BSIZE_pos : 0 < BSIZE.
Proof. done. Qed.
Lemma max_bytes : MAXFILE * BSIZE = 274432.
Proof. done. Qed.

Lemma length_frange V i off n : length (frange V i off n) = Z.to_nat n.
Proof. unfold frange. by rewrite length_fmap, length_seqZ. Qed.
Lemma lookup_frange V i off n k : (k < Z.to_nat n)%nat -> frange V i off n !! k = Some (fbyte V i (off + Z.of_nat k)).
Proof. intros Hk. unfold frange. rewrite list_lookup_fmap, lookup_seqZ_lt by lia. done. Qed.
Lemma frange_app V i off n m : 0 <= n -> 0 <= m -> frange V i off (n + m) = frange V i off n ++ frange V i (off + n) m.
Proof. intros. unfold frange. by rewrite seqZ_app, fmap_app by done. Qed.
Lemma frange_content V i off n : 0 <= off -> 0 <= n -> off + n <= i_size i ->
  frange V i off n = take (Z.to_nat n) (drop (Z.to_nat off) (fcontent V i)).
Proof.
  intros. apply list_eq. intros k. destruct (decide (k < Z.to_nat n)%nat).
  - rewrite lookup_take_lt, lookup_drop by done. unfold fcontent. rewrite !lookup_frange by lia. do 2 f_equal. lia.
  - rewrite lookup_take_ge by lia. apply lookup_ge_None. rewrite length_frange. lia.
Qed.

(** The bytes of one block. *)
Lemma block_index q o : 0 <= o < BSIZE -> (q * BSIZE + o) / BSIZE = q /\ (q * BSIZE + o) mod BSIZE = o.
Proof.
  intros Ho. split; [rewrite Z.div_add_l by done; rewrite Z.div_small by done; lia|].
  rewrite Z.add_comm, Z.mod_add by done. by apply Z.mod_small.
Qed.
Lemma block_piece V i off m : length (V (slot_of V i (off / BSIZE))) = Z.to_nat BSIZE -> 0 <= m -> off mod BSIZE + m <= BSIZE ->
  take (Z.to_nat m) (drop (Z.to_nat (off mod BSIZE)) (V (slot_of V i (off / BSIZE)))) = frange V i off m.
Proof.
  intros Hl Hm Ho. pose proof (Z.mod_pos_bound off BSIZE BSIZE_pos). apply list_eq. intros k. destruct (decide (k < Z.to_nat m)%nat) as [Hk|].
  - rewrite lookup_take_lt, lookup_drop by done. rewrite lookup_frange by done. unfold fbyte.
    assert (off + Z.of_nat k = off / BSIZE * BSIZE + (off mod BSIZE + Z.of_nat k)) as E by (pose proof (Z.div_mod off BSIZE ltac:(done)); lia).
    rewrite E. destruct (block_index (off / BSIZE) (off mod BSIZE + Z.of_nat k)) as [-> ->]; [lia|].
    rewrite (nth_lookup_Z _ (Z.to_nat (off mod BSIZE) + k) 0) by lia. do 2 f_equal. lia.
  - rewrite lookup_take_ge by lia. symmetry. apply lookup_ge_None. rewrite length_frange. lia.
Qed.

Section File.
Context {W : Type} `{UserMem W} (T : txn_env) (sb : superblock) (me : nat).
Implicit Types (V : Z -> list Z) (bs : list Z) (c : control W) (i : inode).
Hypothesis Hly : layout T sb.

Lemma slot_range p : 0 <= p < MAXFILE * BSIZE -> 0 <= p / BSIZE < MAXFILE.
Proof. intros Hp. split; [apply Z.div_pos; [lia|done]|apply Z.div_lt_upper_bound; [done|lia]]. Qed.
Lemma slot_present V i p : inode_rep sb V i -> 0 <= p < i_size i -> 0 <= p / BSIZE < MAXFILE /\ slot_of V i (p / BSIZE) <> 0.
Proof.
  intros Hr Hp. pose proof (ir_size _ _ _ Hr). split; [apply slot_range; lia|]. apply (ir_full _ _ _ Hr); [apply Z.div_pos; [lia|done]|].
  pose proof (Z.mul_div_le p BSIZE BSIZE_pos). lia.
Qed.

(** The control part with another state of user memory. *)
Definition with_user (u : W) c : control W := (c.1, u).
(** A destination of [n] bytes that takes what is copied to it: [J acc] says
    what user memory holds once [acc] was copied. *)
Definition dst_takes (dst : iodst) (n : Z) (J : list Z -> W -> Prop) : Prop := forall acc bytes c bs L V s,
  J acc c.2 -> Z.of_nat (length (acc ++ bytes)) <= n -> Forall byte_ok bytes -> fs_at T c bs L V s ->
  wp (copy_to me dst (Z.of_nat (length acc)) bytes) (fun r s' => r <> -1 /\ exists u, J (acc ++ bytes) u /\ fs_at T (with_user u c) bs L V s') s.
(** A source that holds [data], while user memory satisfies [I]. *)
Definition src_gives (src : iosrc) (data : list Z) (I : W -> Prop) : Prop := forall tot m c bs L V s,
  I c.2 -> 0 <= tot -> 0 <= m -> tot + m <= Z.of_nat (length data) -> fs_at T c bs L V s ->
  wp (copy_from me src tot m) (fun r s' => r.1 <> -1 /\ r.2 = take (Z.to_nat m) (drop (Z.to_nat tot) data) /\
    exists u, I u /\ fs_at T (with_user u c) bs L V s') s.

Lemma with_user_id c : with_user c.2 c = c.
Proof. by destruct c. Qed.
Lemma with_user_twice u w c : with_user u (with_user w c) = with_user u c.
Proof. done. Qed.
Lemma with_user_inode u c ip : (with_user u c).1.2 ip = c.1.2 ip.
Proof. done. Qed.

Lemma kern_dst_takes n u : dst_takes KernDst n (fun _ w => w = u).
Proof. intros acc bytes c bs L V s Hu _ _ Hs. cbn [copy_to]. wp_step. split; [done|]. exists u. split; [done|]. by rewrite <- Hu, with_user_id. Qed.
Lemma kern_src_gives data u : src_gives (KernSrc data) data (fun w => w = u).
Proof.
  intros tot m c bs L V s Hu _ _ _ Hs. cbn [copy_from]. wp_step. split; [done|]. split; [done|]. exists u. split; [done|]. by rewrite <- Hu, with_user_id.
Qed.

Lemma frange_bytes V i off n : disk_ok sb V -> Forall byte_ok (frange V i off n).
Proof. intros HV. apply Forall_fmap, Forall_forall. intros p _. apply block_nth, HV. Qed.

(** ** readi *)

Lemma readi_step_spec dst J c ip bs V i off n tot s : dst_takes dst n J -> J (frange V i off tot) c.2 -> c.1.2 ip = i -> disk_ok sb V -> inode_rep sb V i ->
  (length bs + 1 < nbuf)%nat -> fs_at T c bs ∅ V s -> 0 <= off -> 0 <= tot <= n -> off + n <= i_size i ->
  wp (readi_step (tn_pid T) me ip dst n (tot, off + tot, frange V i off tot)) (fun r s' => exists u, fs_at T (with_user u c) bs ∅ V s' /\
    match r with
    | inl (tot', off', acc) => tot < tot' <= n /\ off' = off + tot' /\ acc = frange V i off tot' /\ J acc u
    | inr r => r = (n, frange V i off n) /\ J r.2 u end) s.
Proof.
  intros Hdst HJ Hi HV HR Hb Hs Ho Ht Hn. unfold readi_step. pose proof (ir_size _ _ _ HR) as Hsz.
  destruct (Z.leb_spec n tot).
  { wp_step. exists c.2. rewrite with_user_id. split; [done|]. replace tot with n in * by lia. done. }
  destruct (slot_present V i (off + tot) HR ltac:(lia)) as [Hk Hnz]. wp_step.
  eapply (wp_bmap_mapped T sb Hly); [exact Hi|done|done|exact Hs|lia|done|done|]. intros s1 H1.
  rewrite (proj2 (Z.eqb_neq _ 0)) by done. eapply wp_get_inode; [exact H1|]. rewrite Hi, (ir_dev _ _ _ HR).
  assert (in_slots ((off + tot) / BSIZE)) as Hin by (unfold in_slots; lia).
  destruct (ir_slot _ _ _ HR _ Hin) as [|[Hd _]]; [done|]. destruct (data_loggable T sb Hly _ Hd) as [Hok _]. wp_step.
  eapply wp_fbread; [exact H1|done|apply lookup_empty|rewrite map_size_empty; lia|]. intros bp s2 H2. cbv zeta.
  eapply wp_fdata; [exact H2|by rewrite lookup_insert_eq|]. pose proof (Z.mod_pos_bound (off + tot) BSIZE BSIZE_pos).
  rewrite (block_piece V i) by (try apply HV; lia). set (m := Z.min _ _). assert (tot = Z.of_nat (length (frange V i off tot))) as Et by (rewrite length_frange; lia).
  pose proof (fun a b => Hdst (frange V i off tot) (frange V i (off + tot) m) c bs _ V s2 HJ a b H2) as Hc. rewrite <- Et in Hc.
  wp_step. eapply wp_mono; [apply Hc; [rewrite length_app, !length_frange; lia|by eapply frange_bytes]|].
  intros r s3 (Hr & u & HJ' & Hs3).
  wp_step. eapply wp_fbrelse; [exact Hs3|by rewrite lookup_insert_eq|]. rewrite delete_insert_id by apply lookup_empty. intros s4 H4.
  rewrite (proj2 (Z.eqb_neq r (-1))) by done. wp_step. exists u. split; [done|].
  rewrite <- frange_app in * by lia. split; [lia|]. split; [|done]. rewrite u32_small; [lia|]. rewrite max_bytes in Hsz. lia.
Qed.

(** readi returns the bytes of the file from [off] on, at most [n]. *)
Lemma wp_readi dst J c ip bs V i off n s Q : dst_takes dst (Z.min n (i_size i - off)) J -> J [] c.2 -> c.1.2 ip = i -> disk_ok sb V -> inode_rep sb V i ->
  (length bs + 1 < nbuf)%nat -> fs_at T c bs ∅ V s -> 0 <= off <= i_size i -> 0 <= n -> off + n < 2 ^ 32 ->
  (forall u s', fs_at T (with_user u c) bs ∅ V s' -> let k := Z.min n (i_size i - off) in J (frange V i off k) u -> Q (k, frange V i off k) s') ->
  wp (readi (tn_pid T) me ip dst off n) Q s.
Proof.
  intros Hdst HJ Hi HV HR Hb Hs Ho Hn Hov HQ. unfold readi. eapply wp_get_inode; [exact Hs|]. rewrite Hi. rewrite u32_small by lia.
  rewrite (proj2 (Z.ltb_ge (i_size i) off)), (proj2 (Z.ltb_ge (off + n) off)) by lia. cbn [orb]. cbv zeta.
  assert ((if i_size i <? off + n then i_size i - off else n) = Z.min n (i_size i - off)) as ->.
  { destruct (Z.ltb_spec (i_size i) (off + n)); lia. }
  set (k := Z.min n (i_size i - off)) in *. assert (0 <= k) by lia.
  eapply wp_mono with (P := fun r s' => exists u, fs_at T (with_user u c) bs ∅ V s' /\ r = (k, frange V i off k) /\ J r.2 u).
  2: { intros r s' (u & H1 & -> & HJ'). by apply (HQ u). }
  apply (wp_loop (fun st s' => exists u, fs_at T (with_user u c) bs ∅ V s' /\ exists tot, 0 <= tot <= k /\ st = (tot, off + tot, frange V i off tot) /\ J (frange V i off tot) u)
    (fun st _ => Z.to_nat (k - st.1.1))).
  - intros st s1 (u & H1 & tot & Ht & -> & HJ1). eapply wp_mono; [by apply (readi_step_spec dst J (with_user u c) ip bs V i off k tot); (done || lia)|].
    intros r s2 (u' & H2 & Hr). rewrite with_user_twice in H2. destruct r as [[[tot' off'] acc]|r].
    + destruct Hr as (Ht' & -> & -> & HJ2). split; [|cbn; lia]. exists u'. split; [done|]. exists tot'. split; [lia|done].
    + destruct Hr as [-> HJ2]. by exists u'.
  - exists c.2. rewrite with_user_id. split; [done|]. exists 0. split; [lia|]. by rewrite Z.add_0_r.
  - cbn. lia.
Qed.
Lemma readi_outside dst c ip bs V i off n s Q : c.1.2 ip = i -> fs_at T c bs ∅ V s -> i_size i < off \/ u32 (off + n) < off ->
  Q (0, []) s -> wp (readi (tn_pid T) me ip dst off n) Q s.
Proof.
  intros Hi Hs Ho HQ. unfold readi. eapply wp_get_inode; [exact Hs|]. rewrite Hi.
  assert ((i_size i <? off) || (u32 (off + n) <? off) = true) as -> by (rewrite orb_true_iff, !Z.ltb_lt; tauto). by wp_step.
Qed.
End File.
