(* ===== verification/FsWrite.v ===== *)
(** * Writing files (kernel/fs.c: writei, iupdate)

    writei overwrites or extends the bytes of a file and stores the inode;
    other files are untouched. *)

From Stdlib Require Import ZArith Lia.
From stdpp Require Import gmap.
From S2P Require Import Prelude Mem StringC Params Env Sleeplock Bio Log Fs FsPure FsTxn FsAlloc FsInode FsFile.

(** How many blocks [n] bytes at [off] touch. *)
Definition blocks (off n : Z) : nat := if n =? 0 then 0%nat else Z.to_nat ((off + n + BSIZE - 1) / BSIZE - off / BSIZE).

Lemma blocks_mono off n m : 0 <= n <= m -> (blocks off n <= blocks off m)%nat.
Proof.
  intros Hn. unfold blocks. destruct (Z.eqb_spec n 0); [lia|]. rewrite (proj2 (Z.eqb_neq m 0)) by lia.
  pose proof (Z.div_le_mono (off + n + BSIZE - 1) (off + m + BSIZE - 1) BSIZE BSIZE_pos ltac:(lia)). lia.
Qed.
(** One chunk of the loop is one more block. *)
Lemma blocks_step off tot n : 0 <= off -> 0 <= tot < n -> tot = 0 \/ (off + tot) mod BSIZE = 0 ->
  let m := Z.min (n - tot) (BSIZE - (off + tot) mod BSIZE) in blocks off (tot + m) = S (blocks off tot).
Proof.
  intros Ho Ht Ha m. pose proof BSIZE_pos. pose proof (Z.mod_pos_bound (off + tot) BSIZE BSIZE_pos) as Hm.
  pose proof (Z.div_mod (off + tot) BSIZE ltac:(done)) as Hd. assert (1 <= m <= BSIZE - (off + tot) mod BSIZE) as Hmb by lia.
  assert ((off + (tot + m) + BSIZE - 1) / BSIZE = (off + tot) / BSIZE + 1) as E1.
  { symmetry. apply Z.div_unique with ((off + tot) mod BSIZE + m - 1); lia. }
  unfold blocks. rewrite (proj2 (Z.eqb_neq (tot + m) 0)), E1 by lia. destruct (Z.eqb_spec tot 0) as [->|Hne].
  - rewrite Z.add_0_r. lia.
  - destruct Ha as [|Ha]; [done|]. assert ((off + tot + BSIZE - 1) / BSIZE = (off + tot) / BSIZE) as ->.
    { symmetry. apply Z.div_unique with (BSIZE - 1); lia. }
    pose proof (Z.div_le_mono off (off + tot) BSIZE BSIZE_pos ltac:(lia)). lia.
Qed.

Section Write.
Context {W : Type} `{UserMem W} (T : txn_env) `{!Writing T} (sb : superblock) (me : nat).
Implicit Types (V : Z -> list Z) (bs : list Z) (c : control W) (i : inode).
Hypothesis Hly : layout T sb.

(** ** Overwriting one block of the contents *)

Section Put.
Context (V : Z -> list Z) (i : inode) (k0 : Z) (x : list Z).
Hypotheses (HV : disk_ok sb V) (HR : inode_rep sb V i) (Hk0 : 0 <= k0 < MAXFILE) (Hn : slot_of V i k0 <> 0) (Hx : block_ok x).
Let V' := upd V (slot_of V i k0) x.

Lemma put_in k : 0 <= k < MAXFILE -> in_slots k.
Proof. unfold in_slots. lia. Qed.
Lemma put_data_block : data_block sb (slot_of V i k0) /\ used sb V (slot_of V i k0) = true.
Proof. destruct (ir_slot _ _ _ HR k0 (put_in k0 Hk0)); [done|done]. Qed.
Lemma put_slot k : slot_of V' i k = slot_of V i k.
Proof.
  unfold slot_of at 1. destruct (Z.ltb_spec k NDIRECT) as [Hlt|Hge]; [unfold slot_of; by rewrite (proj2 (Z.ltb_lt _ _)) by lia|].
  unfold slot_of. rewrite (proj2 (Z.ltb_ge _ _)) by lia. destruct (k =? MAXFILE); [done|]. destruct (Z.eqb_spec (i_addrs i NDIRECT) 0) as [|Hz]; [done|].
  unfold V'. rewrite upd_ne; [done|]. intros E. rewrite <- slot_indirect with (V := V) in E. assert (MAXFILE = k0); [|lia].
  apply (ir_inj _ _ _ HR); [unfold in_slots; by vm_compute|by apply put_in|by rewrite slot_indirect|done].
Qed.
Lemma put_used j : 0 <= j < sb_size sb -> used sb V' j = used sb V j.
Proof. intros Hj. unfold V'. apply (used_upd_data T sb Hly); [apply put_data_block|done]. Qed.
Lemma put_disk : disk_ok sb V'.
Proof. apply (data_upd_ok T sb Hly); [done|apply put_data_block|done]. Qed.
Lemma put_rep : inode_rep sb V' i.
Proof.
  destruct HR as [R1 R2 R3 R4 R5 R6 R7]. split; try done.
  - intros k Hk. rewrite put_slot. destruct (R4 k Hk) as [|[Hd Hu]]; [by left|right]. split; [done|].
    rewrite put_used; [done|]. pose proof (datastart_pos T sb Hly). unfold data_block in Hd. lia.
  - intros j k Hj Hk. rewrite !put_slot. by apply R5.
  - intros k Hk Hlt. rewrite put_slot. by apply R7.
Qed.
Lemma put_evolves V0 i0 : evolves sb V0 i0 V i -> evolves sb V0 i0 V' i.
Proof.
  intros [E1 E2 E3 E4 E5]. assert (forall n, owns V' i n <-> owns V i n) as Ho.
  { intros n. unfold owns. by setoid_rewrite put_slot. }
  split; [done| | | |intros n; rewrite Ho; apply E5].
  - intros k Hk Hz. rewrite put_slot. by apply E2.
  - intros j Hj. rewrite put_used, Ho by done. by apply E3.
  - intros n Hb Hno. rewrite Ho in Hno. unfold V'. rewrite upd_ne; [by apply E4|]. intros ->. apply Hno. split; [done|]. exists k0. split; [by apply put_in|done].
Qed.
Lemma put_fbyte p : 0 <= p < MAXFILE * BSIZE ->
  fbyte V' i p = if p / BSIZE =? k0 then nth (Z.to_nat (p mod BSIZE)) x 0 else fbyte V i p.
Proof.
  intros Hp. unfold fbyte. rewrite put_slot. destruct (Z.eqb_spec (p / BSIZE) k0) as [->|Hne]; [unfold V'; by rewrite upd_eq|].
  unfold V'. rewrite upd_ne; [done|]. intros E. apply Hne. apply (ir_inj _ _ _ HR); [by apply put_in, slot_range|by apply put_in|congruence|done].
Qed.
End Put.

(** ** The loop of writei *)

Record wrote V i (off : Z) (data : list Z) (tot : Z) V' i' : Prop := {
  wt_disk : disk_ok sb V';
  wt_rep : inode_rep sb V' i';
  wt_ev : evolves sb V i V' i';
  wt_size : i_size i' = i_size i;
  wt_slots : forall k, off / BSIZE <= k -> k * BSIZE < off + tot -> slot_of V' i' k <> 0;
  wt_new : forall p, off <= p < off + tot -> fbyte V' i' p = nth (Z.to_nat (p - off)) data 0;
  wt_old : forall p, 0 <= p < MAXFILE * BSIZE -> ~ (off <= p < off + tot) -> slot_of V i (p / BSIZE) <> 0 -> fbyte V' i' p = fbyte V i p;
}.

Lemma wrote_start V i off data : disk_ok sb V -> inode_rep sb V i -> 0 <= off <= i_size i -> wrote V i off data 0 V i.
Proof.
  intros HV HR Ho. split; try done; [by apply evolves_refl| |intros; lia]. intros k Hk Hlt.
  pose proof (Z.div_pos off BSIZE ltac:(lia) BSIZE_pos). apply (ir_full _ _ _ HR); lia.
Qed.
Lemma wrote_grow V i off data tot V1 i1 V2 i2 : wrote V i off data tot V1 i1 -> grows sb V1 i1 V2 i2 -> 0 <= off -> off + tot <= MAXFILE * BSIZE ->
  wrote V i off data tot V2 i2.
Proof.
  intros [W1 W2 W3 W4 W5 W6 W7] [G1 G2 G3 G4 G5] Ho Hmax.
  assert (forall p, 0 <= p < MAXFILE * BSIZE -> slot_of V1 i1 (p / BSIZE) <> 0 -> fbyte V2 i2 p = fbyte V1 i1 p) as Hb.
  { intros p Hp Hz. pose proof (slot_range p Hp). unfold fbyte. rewrite (ev_keep _ _ _ _ _ G3) by (done || (unfold in_slots; lia)). by rewrite G5. }
  split; [done|done|by eapply evolves_trans|congruence|..].
  - intros k Hk Hlt. specialize (W5 k Hk Hlt). rewrite (ev_keep _ _ _ _ _ G3); [done| |done].
    pose proof (Z.div_pos off BSIZE Ho BSIZE_pos). unfold in_slots. pose proof BSIZE_pos. nia.
  - intros p Hp. rewrite Hb; [by apply W6|lia|]. apply W5; [apply Z.div_le_mono; [done|lia]|]. pose proof (Z.mul_div_le p BSIZE BSIZE_pos). lia.
  - intros p Hp Hno Hz. rewrite Hb; [by apply W7|done|]. rewrite (ev_keep _ _ _ _ _ W3); [done| |done]. pose proof (slot_range p Hp). unfold in_slots. lia.
Qed.
(** Storing the next chunk. *)
Lemma wrote_put V i off data tot V1 i1 m : wrote V i off data tot V1 i1 -> 0 <= off -> 0 <= tot -> 0 < m ->
  (off + tot) mod BSIZE + m <= BSIZE -> tot + m <= Z.of_nat (length data) -> off + tot + m <= MAXFILE * BSIZE -> Forall byte_ok data ->
  slot_of V1 i1 ((off + tot) / BSIZE) <> 0 ->
  let a := slot_of V1 i1 ((off + tot) / BSIZE) in
  wrote V i off data (tot + m) (upd V1 a (splice (V1 a) (Z.to_nat ((off + tot) mod BSIZE)) (take (Z.to_nat m) (drop (Z.to_nat tot) data)))) i1.
Proof.
  intros Hw Ho Ht Hm Hfit Hlen Hmax Hbytes Hz a. pose proof Hw as [W1 W2 W3 W4 W5 W6 W7].
  set (pos := off + tot) in *. set (o := pos mod BSIZE) in *. pose proof (Z.mod_pos_bound pos BSIZE BSIZE_pos) as Hob. fold o in Hob.
  set (x := splice _ _ _). pose proof (do_block _ _ W1 a) as [La Ba]. assert (length (take (Z.to_nat m) (drop (Z.to_nat tot) data)) = Z.to_nat m) as Lp.
  { rewrite length_take, length_drop. lia. }
  assert (0 <= pos / BSIZE < MAXFILE) as Hk by (apply slot_range; lia).
  assert (block_ok x) as Hx.
  { split; [unfold x; rewrite length_splice; [done|lia]|]. unfold x, splice. repeat apply Forall_app_2; auto using Forall_take, Forall_drop. }
  assert (forall p, 0 <= p < MAXFILE * BSIZE -> p / BSIZE = pos / BSIZE -> pos <= p < pos + m -> nth (Z.to_nat (p mod BSIZE)) x 0 = nth (Z.to_nat (p - off)) data 0) as Hin.
  { intros p Hp E Hr. pose proof (Z.div_mod p BSIZE ltac:(done)). pose proof (Z.div_mod pos BSIZE ltac:(done)). fold o in H1. rewrite E in H0.
    rewrite !nth_lookup. unfold x. rewrite lookup_splice_in by lia. rewrite lookup_take_lt, lookup_drop by lia. do 2 f_equal. lia. }
  assert (forall p, 0 <= p < MAXFILE * BSIZE -> p / BSIZE = pos / BSIZE -> ~ (pos <= p < pos + m) -> nth (Z.to_nat (p mod BSIZE)) x 0 = fbyte V1 i1 p) as Hout.
  { intros p Hp E Hr. pose proof (Z.div_mod p BSIZE ltac:(done)). pose proof (Z.div_mod pos BSIZE ltac:(done)). fold o in H1. rewrite E in H0.
    pose proof (Z.mod_pos_bound p BSIZE BSIZE_pos). unfold fbyte. rewrite E. fold a. rewrite !nth_lookup. unfold x. rewrite lookup_splice_out by lia. done. }
  split.
  - by apply put_disk.
  - by apply put_rep.
  - by apply put_evolves.
  - done.
  - intros k Hk1 Hk2. rewrite (put_slot V1 i1 _ x W2 Hk). destruct (Z.ltb_spec (k * BSIZE) pos); [by apply W5|].
    replace k with (pos / BSIZE); [done|]. pose proof (Z.div_mod pos BSIZE ltac:(done)) as E. fold o in E. pose proof BSIZE_pos. nia.
  - intros p Hp. rewrite (put_fbyte V1 i1 _ x W2 Hk) by lia. destruct (Z.eqb_spec (p / BSIZE) (pos / BSIZE)) as [E|Hne].
    + destruct (Z.ltb_spec p pos); [|apply Hin; lia]. rewrite Hout by lia. apply W6. lia.
    + apply W6. split; [lia|]. apply Z.nle_gt. intros Hge. apply Hne. pose proof (Z.div_mod pos BSIZE ltac:(done)) as E. fold o in E.
      symmetry. apply Z.div_unique with (o + (p - pos)); lia.
  - intros p Hp Hno Hs0. rewrite (put_fbyte V1 i1 _ x W2 Hk) by lia. destruct (Z.eqb_spec (p / BSIZE) (pos / BSIZE)) as [E|Hne]; [rewrite Hout by lia|];
      apply W7; (done || lia).
Qed.

(** The logged blocks after [tot] bytes. *)
Definition wlogged (off tot : Z) bs bs' : Prop := grown (6 * blocks off tot) bs bs'.

Lemma writei_step_spec src data (I : W -> Prop) c ip bs V i off n tot s : src_gives T me src data I -> c.1.1.1 = sb -> c.1.2 ip = i ->
  0 <= off <= i_size i -> 0 <= tot <= n -> n = Z.of_nat (length data) -> off + n <= MAXFILE * BSIZE -> Forall byte_ok data ->
  (length bs + 6 * blocks off n < nbuf)%nat -> tot = 0 \/ (off + tot) mod BSIZE = 0 \/ tot = n ->
  forall u V1 i1 bs1, I u -> fs_at T (with_user u (set_ctl ip i1 c)) bs1 ∅ V1 s -> wlogged off tot bs bs1 -> wrote V i off data tot V1 i1 ->
  wp (writei_step (tn_pid T) me ip src n (tot, off + tot)) (fun r s' => exists u V2 i2 bs2, I u /\ fs_at T (with_user u (set_ctl ip i2 c)) bs2 ∅ V2 s' /\
    match r with
    | inl (tot', off') => tot < tot' <= n /\ off' = off + tot' /\ ((off + tot') mod BSIZE = 0 \/ tot' = n) /\ wlogged off tot' bs bs2 /\ wrote V i off data tot' V2 i2
    | inr (tot', off') => tot' = tot /\ off' = off + tot /\ (tot = n \/ disk_full sb V2) /\ wlogged off n bs bs2 /\ wrote V i off data tot V2 i2 end) s.
Proof.
  intros Hsrc Hsb Hi Ho Ht Hn Hmax Hbytes Hroom Hal u V1 i1 bs1 HI Hs Hg Hw. unfold writei_step. pose proof max_bytes as MB.
  destruct (Z.leb_spec n tot) as [Hle|Hlt].
  { wp_step. exists u, V1, i1, bs1. replace tot with n in * by lia. split; [done|]. split; [done|]. split; [lia|]. split; [lia|]. split; [by left|done]. }
  pose proof (blocks_step off tot n ltac:(lia) ltac:(lia) ltac:(destruct Hal as [?|[?|?]]; [by left|by right|lia])) as Hbl. cbv zeta in Hbl.
  set (m := Z.min (n - tot) (BSIZE - (off + tot) mod BSIZE)) in *. pose proof (Z.mod_pos_bound (off + tot) BSIZE BSIZE_pos) as Hmb.
  pose proof (blocks_mono off (tot + m) n ltac:(lia)) as Hbm. unfold wlogged in Hg. pose proof (gr_len _ _ _ Hg) as Hgl.
  assert (0 <= (off + tot) / BSIZE < MAXFILE) as Hk by (apply slot_range; lia). wp_step.
  eapply wp_mono; [apply (wp_bmap T sb Hly (with_user u (set_ctl ip i1 c)) ip bs1 V1 i1); [done| |apply Hw|apply Hw|exact Hs|lia|done]|].
  { rewrite with_user_inode. apply set_ctl_inode. }
  intros a s1 (V2 & i2 & bs2 & H2 & G2 & W2 & -> & Hfull). pose proof (gr_len _ _ _ G2) as Hg2l.
  assert (fs_at T (with_user u (set_ctl ip i2 c)) bs2 ∅ V2 s1) as H2'.
  { replace (with_user u (set_ctl ip i2 c)) with (set_ctl ip i2 (with_user u (set_ctl ip i1 c))); [done|]. rewrite <- (set_ctl_set ip i2 i1 c). done. }
  pose proof (wrote_grow V i off data tot V1 i1 V2 i2 Hw W2 ltac:(lia) ltac:(lia)) as Hw2.
  pose proof (grown_trans _ _ _ _ _ Hg G2) as Hg2.
  destruct (Z.eqb_spec (slot_of V2 i2 ((off + tot) / BSIZE)) 0) as [Hz|Hz].
  { wp_step. exists u, V2, i2, bs2. split; [done|]. split; [done|]. split; [done|]. split; [done|]. split; [right; by apply Hfull|]. split; [|done].
    eapply grown_le; [|exact Hg2]. lia. }
  eapply wp_get_inode; [exact H2'|]. rewrite with_user_inode, set_ctl_inode, (ir_dev _ _ _ (wt_rep _ _ _ _ _ _ _ Hw2)).
  destruct (put_data_block V2 i2 _ (wt_rep _ _ _ _ _ _ _ Hw2) Hk Hz) as [Hd _]. pose proof (data_loggable T sb Hly _ Hd) as Hlg.
  set (a := slot_of V2 i2 ((off + tot) / BSIZE)) in *. wp_step.
  eapply wp_fbread; [exact H2'|apply Hlg|apply lookup_empty|rewrite map_size_empty; lia|]. intros bp s2 H3. cbv zeta. fold m. wp_step.
  eapply wp_mono; [apply (Hsrc tot m (with_user u (set_ctl ip i2 c))); [exact HI|lia|lia|lia|exact H3]|]. intros r s3 (Hr & -> & u' & HI' & H4).
  rewrite with_user_twice in H4. eapply wp_fdata; [exact H4|by rewrite lookup_insert_eq|]. rewrite (proj2 (Z.eqb_neq r.1 (-1))) by done.
  eapply (wp_fput T); [exact H4|by rewrite lookup_insert_eq|done|unfold nbuf, NBUF, LOGBLOCKS in *; lia|]. intros s4 H5. wp_step.
  eapply wp_fbrelse; [exact H5|by rewrite lookup_insert_eq|]. rewrite delete_insert_id by apply lookup_empty. intros s5 H6. wp_step.
  eexists u', _, i2, _. split; [done|]. split; [exact H6|]. split; [lia|]. split; [rewrite u32_small by lia; lia|]. split; [|split].
  - destruct (Z.leb_spec (n - tot) (BSIZE - (off + tot) mod BSIZE)); [right; lia|left].
    replace (off + (tot + m)) with ((off + tot) / BSIZE * BSIZE + BSIZE) by (pose proof (Z.div_mod (off + tot) BSIZE ltac:(done)); lia).
    replace ((off + tot) / BSIZE * BSIZE + BSIZE) with (((off + tot) / BSIZE + 1) * BSIZE) by lia. by rewrite Z.mod_mul.
  - unfold wlogged. rewrite Hbl. eapply grown_le; [|eapply grown_trans; [exact Hg2|apply grown_add]]. lia.
  - apply (wrote_put V i off data tot V2 i2 m); (done || lia).
Qed.

Lemma writei_loop src data (I : W -> Prop) c ip bs V i off s : src_gives T me src data I -> I c.2 -> c.1.1.1 = sb -> c.1.2 ip = i -> fs_at T c bs ∅ V s ->
  disk_ok sb V -> inode_rep sb V i -> 0 <= off <= i_size i -> off + Z.of_nat (length data) <= MAXFILE * BSIZE -> Forall byte_ok data ->
  (length bs + 6 * blocks off (Z.of_nat (length data)) < nbuf)%nat ->
  wp (loop (S (length data)) (writei_step (tn_pid T) me ip src (Z.of_nat (length data))) (0, off))
    (fun r s' => exists u V' i' bs' tot, I u /\ fs_at T (with_user u (set_ctl ip i' c)) bs' ∅ V' s' /\ r = (tot, off + tot) /\
      0 <= tot <= Z.of_nat (length data) /\ (tot = Z.of_nat (length data) \/ disk_full sb V' /\ (tot = 0 \/ (off + tot) mod BSIZE = 0)) /\
      wlogged off (Z.of_nat (length data)) bs bs' /\ wrote V i off data tot V' i') s.
Proof.
  intros Hsrc HI Hsb Hi Hs HV HR Ho Hmax Hb Hroom. set (n := Z.of_nat (length data)) in *.
  apply (wp_loop (fun st s' => exists tot u V1 i1 bs1, I u /\ st = (tot, off + tot) /\ 0 <= tot <= n /\ (tot = 0 \/ (off + tot) mod BSIZE = 0 \/ tot = n) /\
      fs_at T (with_user u (set_ctl ip i1 c)) bs1 ∅ V1 s' /\ wlogged off tot bs bs1 /\ wrote V i off data tot V1 i1) (fun st _ => Z.to_nat (n - st.1))).
  - intros st s1 (tot & u & V1 & i1 & bs1 & HI1 & -> & Ht & Ha & H1 & Hg & Hw).
    eapply wp_mono; [by eapply (writei_step_spec src data I c ip bs V i off n tot)|]. cbn beta. intros r s2 (u2 & V2 & i2 & bs2 & HI2 & H2 & Hr).
    destruct r as [[tot' off']|[tot' off']].
    + destruct Hr as (Ht' & -> & Ha' & Hg' & Hw'). split; [|cbn; lia]. exists tot', u2, V2, i2, bs2. split; [done|]. split; [done|]. split; [lia|]. split; [by right|done].
    + destruct Hr as (-> & -> & Hf & Hg' & Hw'). exists u2, V2, i2, bs2, tot. split; [done|]. split; [done|]. split; [done|]. split; [done|].
      split; [|done]. destruct (decide (tot = n)); [by left|]. destruct Hf; [by left|right; tauto].
  - exists 0, c.2, V, i, bs. rewrite Z.add_0_r. split; [done|]. split; [done|]. split; [lia|]. split; [by left|].
    rewrite <- Hi, set_ctl_id, with_user_id, Hi. split; [done|]. split; [by apply grown_refl|]. by apply wrote_start.
  - cbn. lia.
Qed.

(** ** iupdate *)

Definition dinode_at V (inum : Z) : Z * Z * Z * Z * Z * list Z := dinode_of (dinode_off inum) (V (IBLOCK inum sb)).

(** What a routine that changes one inode and stores it does to the disk. *)
Record updates V i V' i' : Prop := {
  up_disk : disk_ok sb V';
  up_rep : inode_rep sb V' i';
  up_fields : same_fields i i';
  up_self : dinode_at V' (i_inum i) = inode_disk i';
  up_inodes : forall inum, 0 <= inum < sb_ninodes sb -> inum <> i_inum i -> dinode_at V' inum = dinode_at V inum;
  up_used : forall j, 0 <= j < sb_size sb -> used sb V' j = true <-> used sb V j = true \/ owns V' i' j;
  up_owns : forall n, owns V i n -> owns V' i' n;
  up_low : forall n, n < sb_inodestart sb -> V' n = V n;
  up_data : forall n, data_block sb n -> ~ owns V' i' n -> V' n = V n;
  up_new : forall n, owns V' i' n -> owns V i n \/ 0 <= n < sb_size sb /\ used sb V n = false;
}.

Lemma IBLOCK_eq inum : 0 <= inum < sb_ninodes sb -> IBLOCK inum sb = inum / IPB + sb_inodestart sb /\
  loggable T (IBLOCK inum sb) /\ ~ bitmap sb (IBLOCK inum sb) /\ ~ data_block sb (IBLOCK inum sb) /\ IBLOCK inum sb <> 0.
Proof.
  intros Hn. pose proof (sizes T sb Hly). pose proof (size_range T sb Hly). pose proof LOGBLOCKS_pos. destruct Hly as [Y1 Y2 Y3 Y4 Y5 Y6].
  assert (0 < IPB) as Hp by done. pose proof (Z.div_pos inum IPB ltac:(lia) Hp). pose proof (Z.div_le_mono inum (sb_ninodes sb) IPB Hp ltac:(lia)).
  unfold datastart in *. assert (IBLOCK inum sb = inum / IPB + sb_inodestart sb) as ->.
  { unfold IBLOCK. apply u32_small. lia. }
  unfold loggable, blk_ok, in_log, bitmap, data_block, datastart. split_and!; try done; lia.
Qed.

Lemma wp_iupdate c ip bs V i s Q : c.1.1.1 = sb -> c.1.2 ip = i -> i_dev i = ROOTDEV -> 0 <= i_inum i < sb_ninodes sb -> fs_at T c bs ∅ V s ->
  (length bs < nbuf)%nat ->
  (forall s', fs_at T c (add_block bs (IBLOCK (i_inum i) sb)) ∅
     (upd V (IBLOCK (i_inum i) sb) (put_dinode (dinode_off (i_inum i)) i (V (IBLOCK (i_inum i) sb)))) s' -> Q tt s') ->
  wp (iupdate (tn_pid T) ip) Q s.
Proof.
  intros Hsb Hi Hdev Hin Hs Hroom HQ. destruct (IBLOCK_eq _ Hin) as (_ & Hl & _). unfold iupdate.
  eapply wp_get_inode; [exact Hs|]. eapply wp_get_sb; [exact Hs|]. rewrite Hi, Hsb, Hdev. wp_step.
  eapply wp_fbread; [exact Hs|apply Hl|apply lookup_empty|rewrite map_size_empty; lia|]. intros bp s1 H1.
  eapply wp_fdata; [exact H1|by rewrite lookup_insert_eq|].
  eapply (wp_fput T); [exact H1|by rewrite lookup_insert_eq|done|unfold nbuf, NBUF, LOGBLOCKS in *; lia|]. intros s2 H2.
  eapply wp_fbrelse; [exact H2|by rewrite lookup_insert_eq|]. rewrite delete_insert_id by apply lookup_empty. intros s3 H3. by apply HQ.
Qed.

(** Storing an inode: the inode block changes, nothing the inode owns does. *)
Section Flush.
Context (V : Z -> list Z) (i : inode).
Hypotheses (HV : disk_ok sb V) (HR : inode_rep sb V i).
Let ib := IBLOCK (i_inum i) sb.
Let V' := upd V ib (put_dinode (dinode_off (i_inum i)) i (V ib)).

Lemma flush_other n : n <> ib -> V' n = V n.
Proof. intros Hn. unfold V'. by rewrite upd_ne. Qed.
Lemma ib_bitmap : ~ bitmap sb ib.
Proof. apply (IBLOCK_eq (i_inum i) (ir_inum _ _ _ HR)). Qed.
Lemma ib_data : ~ data_block sb ib.
Proof. apply (IBLOCK_eq (i_inum i) (ir_inum _ _ _ HR)). Qed.
Lemma ib_zero : ib <> 0.
Proof. apply (IBLOCK_eq (i_inum i) (ir_inum _ _ _ HR)). Qed.
Lemma flush_slot k : slot_of V' i k = slot_of V i k.
Proof.
  unfold slot_of. destruct (k <? NDIRECT); [done|]. destruct (k =? MAXFILE); [done|]. destruct (Z.eqb_spec (i_addrs i NDIRECT) 0) as [|Hz]; [done|].
  rewrite flush_other; [done|]. intros E. destruct (indirect_block sb V i HR Hz) as [Hd _]. rewrite E in Hd. by apply ib_data.
Qed.
Lemma flush_used j : 0 <= j < sb_size sb -> used sb V' j = used sb V j.
Proof.
  intros Hj. unfold used. rewrite flush_other; [done|]. intros E. destruct (BBLOCK_eq T sb Hly j Hj) as [_ Hb]. rewrite E in Hb. by apply ib_bitmap.
Qed.
Lemma flush_disk : disk_ok sb V'.
Proof.
  split.
  - intros n. unfold V', upd. case_decide; [|apply HV]. subst n. destruct (do_block _ _ HV ib) as [Hl Hb].
    pose proof (dinode_off_bound (i_inum i) ltac:(apply HR)). split; [rewrite length_put_dinode; [done|lia]|].
    unfold put_dinode. generalize (i_addrs i), (Z.to_nat (NDIRECT + 1)). intros a k. induction k as [|k IH]; cbn [put_addrs]; by repeat apply putf_bytes.
  - intros j Hj. pose proof (ly_data _ _ Hly). rewrite flush_used by lia. by apply HV.
Qed.
Lemma flush_rep : inode_rep sb V' i.
Proof.
  destruct HR as [R1 R2 R3 R4 R5 R6 R7]. split; try done.
  - intros k Hk. rewrite flush_slot. destruct (R4 k Hk) as [|[Hd Hu]]; [by left|right]. split; [done|].
    rewrite flush_used; [done|]. pose proof (datastart_pos T sb Hly). unfold data_block in Hd. lia.
  - intros j k Hj Hk. rewrite !flush_slot. by apply R5.
  - intros k Hk Hlt. rewrite flush_slot. by apply R7.
Qed.
Lemma flush_fbyte p : 0 <= p < MAXFILE * BSIZE -> fbyte V' i p = fbyte V i p.
Proof.
  intros Hp. unfold fbyte. rewrite flush_slot, flush_other; [done|]. pose proof (slot_range p Hp).
  destruct (ir_slot _ _ _ HR (p / BSIZE)) as [->|[Hd _]]; [unfold in_slots; lia|intros E; symmetry in E; by apply ib_zero|].
  intros E. rewrite E in Hd. by apply ib_data.
Qed.
Lemma flush_updates V0 i0 : same_fields i0 i -> (forall n, ~ bitmap sb n -> ~ owns V i n -> V n = V0 n) ->
  (forall j, 0 <= j < sb_size sb -> used sb V j = true <-> used sb V0 j = true \/ owns V i j) -> (forall n, owns V0 i0 n -> owns V i n) ->
  (forall n, owns V i n -> owns V0 i0 n \/ 0 <= n < sb_size sb /\ used sb V0 n = false) -> updates V0 i0 V' i.
Proof.
  intros Hf Hfr Hu Ho Hnew. assert (forall n, owns V' i n <-> owns V i n) as Ho' by (intros n; unfold owns; by setoid_rewrite flush_slot).
  assert (i_inum i0 = i_inum i) as Ei by (symmetry; apply Hf). pose proof (ir_inum _ _ _ HR) as Hin.
  assert (forall inum, 0 <= inum < sb_ninodes sb -> ~ owns V i (IBLOCK inum sb)) as Hno.
  { intros inum Hr [Hn0 (k & Hk & E)]. destruct (IBLOCK_eq inum Hr) as (_ & _ & _ & Hnd & _). destruct (ir_slot _ _ _ HR k Hk) as [|[Hd _]]; congruence. }
  split; [apply flush_disk|apply flush_rep|done|..].
  - rewrite Ei. unfold dinode_at. fold ib. unfold V'. rewrite upd_eq. destruct (do_block _ _ HV ib) as [Hl _].
    pose proof (dinode_off_bound (i_inum i) ltac:(lia)). apply dinode_of_put; [lia|apply HR].
  - intros inum Hr Hne. rewrite Ei in Hne. unfold dinode_at. rewrite <- (Hfr (IBLOCK inum sb)); [|apply (IBLOCK_eq inum Hr)|by apply Hno].
    destruct (Z.eq_dec (IBLOCK inum sb) ib) as [E|E]; [|by rewrite flush_other]. rewrite E. unfold V'. rewrite upd_eq.
    apply dinode_of_other; [lia|lia|apply (do_block _ _ HV)|]. intros Em. apply Hne. destruct (IBLOCK_eq inum Hr) as [E1 _], (IBLOCK_eq _ Hin) as [E2 _]. unfold ib in E. rewrite E1, E2 in E.
    rewrite (Z.div_mod inum IPB), (Z.div_mod (i_inum i) IPB), Em by done. f_equal. f_equal. lia.
  - intros j Hj. rewrite flush_used, Ho' by done. by apply Hu.
  - intros n Hn. apply Ho'. by apply Ho.
  - intros n Hn. destruct (starts T sb Hly) as [L1 L2].
    destruct (IBLOCK_eq _ Hin) as (Eb & _). pose proof (Z.div_pos (i_inum i) IPB ltac:(lia) ltac:(done)).
    rewrite flush_other by (unfold ib; lia). apply Hfr; [unfold bitmap; lia|]. intros [Hn0 (k & Hk & E)].
    destruct (ir_slot _ _ _ HR k Hk) as [|[Hd _]]; [congruence|]. rewrite E in Hd. unfold data_block in Hd. lia.
  - intros n Hd Hn. rewrite Ho' in Hn. rewrite flush_other; [apply Hfr; [by apply (data_not_bitmap sb)|done]|]. intros ->. by apply ib_data.
  - intros n. rewrite Ho'. apply Hnew.
Qed.
End Flush.

(** ** writei *)

(** The inode with the size after [tot] bytes at [off]. *)
Definition sized (off tot : Z) i : inode := if i_size i <? off + tot then with_size (off + tot) i else i.

Lemma sized_size off tot i : i_size (sized off tot i) = Z.max (i_size i) (off + tot).
Proof. unfold sized. destruct (Z.ltb_spec (i_size i) (off + tot)); cbn; lia. Qed.
Lemma sized_addrs off tot i : i_addrs (sized off tot i) = i_addrs i.
Proof. unfold sized. by destruct (_ <? _). Qed.
Lemma sized_fields off tot i : same_fields i (sized off tot i).
Proof. unfold sized. destruct (_ <? _); unfold same_fields; cbn; tauto. Qed.
Lemma sized_slot V off tot i k : slot_of V (sized off tot i) k = slot_of V i k.
Proof. unfold slot_of. by rewrite sized_addrs. Qed.
Lemma sized_ok off tot i : inode_ok i -> 0 <= off + tot < 2 ^ 32 -> inode_ok (sized off tot i).
Proof. intros Hi Ho. unfold sized. destruct (Z.ltb_spec (i_size i) (off + tot)); [|done]. destruct Hi. by split. Qed.

Lemma sized_rep V i off data tot V1 i1 : inode_rep sb V i -> wrote V i off data tot V1 i1 -> 0 <= off <= i_size i -> 0 <= tot -> off + tot <= MAXFILE * BSIZE ->
  inode_rep sb V1 (sized off tot i1).
Proof.
  intros HR [W1 W2 W3 W4 W5 W6 W7] Ho Ht Hmax. pose proof max_bytes. destruct (sized_fields off tot i1) as (E1 & E2 & _). pose proof (ir_size _ _ _ HR). split.
  - rewrite E1. apply W2.
  - rewrite E2. apply W2.
  - apply sized_ok; [apply W2|lia].
  - intros k Hk. rewrite sized_slot. by apply W2.
  - intros j k Hj Hk. rewrite !sized_slot. by apply W2.
  - rewrite sized_size, W4. lia.
  - intros k Hk Hlt. rewrite sized_slot. rewrite sized_size, W4 in Hlt. destruct (Z.ltb_spec (k * BSIZE) (i_size i)).
    + rewrite (ev_keep _ _ _ _ _ W3); [by apply (ir_full _ _ _ HR)| |by apply (ir_full _ _ _ HR)]. unfold in_slots. pose proof BSIZE_pos. nia.
    + apply W5; [|lia]. pose proof (Z.div_mod off BSIZE ltac:(done)). pose proof (Z.mod_pos_bound off BSIZE BSIZE_pos). pose proof BSIZE_pos. nia.
Qed.

Lemma wrote_content V i off data tot V1 i1 : inode_rep sb V i -> wrote V i off data tot V1 i1 -> 0 <= off <= i_size i ->
  0 <= tot <= Z.of_nat (length data) -> off + tot <= MAXFILE * BSIZE ->
  fcontent V1 (sized off tot i1) = splice (fcontent V i) (Z.to_nat off) (take (Z.to_nat tot) data).
Proof.
  intros HR [W1 W2 W3 W4 W5 W6 W7] Ho Ht Hmax. pose proof (ir_size _ _ _ HR). apply list_eq. intros k.
  assert (length (take (Z.to_nat tot) data) = Z.to_nat tot) as Lt by (rewrite length_take; lia).
  assert (length (fcontent V i) = Z.to_nat (i_size i)) as Lf by apply length_frange.
  assert (forall p, 0 <= p -> fbyte V1 (sized off tot i1) p = fbyte V1 i1 p) as Ef by (intros p Hp; unfold fbyte; by rewrite sized_slot).
  unfold fcontent at 1. rewrite sized_size, W4. unfold splice.
  destruct (decide (k < Z.to_nat (Z.max (i_size i) (off + tot)))%nat) as [Hk|Hk].
  - rewrite lookup_frange, Ef by lia. rewrite Z.add_0_l. destruct (decide (k < Z.to_nat off)%nat) as [Hlt|Hge].
    + rewrite lookup_app_l by (rewrite length_take; lia). rewrite lookup_take_lt by done. unfold fcontent. rewrite lookup_frange by lia.
      f_equal. apply W7; [lia|lia|]. eapply slot_present; [exact HR|lia].
    + rewrite lookup_app_r by (rewrite length_take; lia). rewrite length_take, Lf. replace (Z.to_nat off `min` Z.to_nat (i_size i))%nat with (Z.to_nat off) by lia.
      destruct (decide (k < Z.to_nat (off + tot))%nat) as [Hin|Hin].
      * rewrite lookup_app_l by lia. rewrite lookup_take_lt by lia. rewrite W6 by lia. rewrite (nth_lookup_Z data (k - Z.to_nat off) 0) by lia. do 2 f_equal. lia.
      * rewrite lookup_app_r by lia. rewrite lookup_drop, Lt. unfold fcontent. rewrite lookup_frange by lia. replace (0 + Z.of_nat (Z.to_nat off + Z.to_nat tot + (k - Z.to_nat off - Z.to_nat tot))) with (Z.of_nat k) by lia.
        f_equal. apply W7; [lia|lia|]. eapply slot_present; [exact HR|lia].
  - rewrite !(lookup_ge_None_2 _ k); [done| |rewrite length_frange; lia].
    rewrite !length_app, length_take, length_drop, Lt, Lf. lia.
Qed.

(** The result of writei. *)
Definition written (I : W -> Prop) c ip bs V i (off : Z) (data : list Z) (r : Z) (s : fs W) : Prop :=
  exists u V' i' bs', I u /\ fs_at T (with_user u (set_ctl ip i' c)) bs' ∅ V' s /\ (length bs' <= length bs + 6 * blocks off (Z.of_nat (length data)) + 1)%nat /\
    0 <= r <= Z.of_nat (length data) /\ (r = Z.of_nat (length data) \/ disk_full sb V' /\ (r = 0 \/ (off + r) mod BSIZE = 0)) /\
    i_size i' = Z.max (i_size i) (off + r) /\ fcontent V' i' = splice (fcontent V i) (Z.to_nat off) (take (Z.to_nat r) data) /\ updates V i V' i'.

Lemma wp_writei src data (I : W -> Prop) c ip bs V i off s : src_gives T me src data I -> I c.2 -> c.1.1.1 = sb -> c.1.2 ip = i -> fs_at T c bs ∅ V s ->
  disk_ok sb V -> inode_rep sb V i -> 0 <= off <= i_size i -> off + Z.of_nat (length data) <= MAXFILE * BSIZE -> Forall byte_ok data ->
  (length bs + 6 * blocks off (Z.of_nat (length data)) < nbuf)%nat ->
  wp (writei (tn_pid T) me ip src off (Z.of_nat (length data))) (written I c ip bs V i off data) s.
Proof.
  intros Hsrc HI Hsb Hi Hs HV HR Ho Hmax Hb Hroom. unfold writei. pose proof max_bytes as MB. pose proof (ir_size _ _ _ HR) as Hsz.
  eapply wp_get_inode; [exact Hs|]. rewrite Hi. set (n := Z.of_nat (length data)) in *. rewrite u32_small by lia.
  rewrite (proj2 (Z.ltb_ge (i_size i) off)), (proj2 (Z.ltb_ge (off + n) off)), (proj2 (Z.ltb_ge (MAXFILE * BSIZE) (off + n))) by lia. cbn [orb].
  wp_step. replace (Z.to_nat n) with (length data) by (unfold n; lia). eapply wp_mono; [by apply (writei_loop src data I c ip bs V i off)|].
  intros r s1 (u & V1 & i1 & bs1 & tot & HI1 & H1 & -> & Ht & Hf & Hg & Hw). fold n in Ht, Hf, Hg. cbn [fst snd].
  eapply wp_get_inode; [exact H1|]. rewrite with_user_inode, set_ctl_inode. set (i2 := sized off tot i1).
  pose proof (gr_len _ _ _ Hg) as Hgl. pose proof (sized_rep V i off data tot V1 i1 HR Hw Ho ltac:(lia) ltac:(lia)) as HR2. fold i2 in HR2.
  assert (wp (when (i_size i1 <? off + tot) (set_inode ip (with_size (off + tot)))) (fun _ s' => fs_at T (with_user u (set_ctl ip i2 c)) bs1 ∅ V1 s') s1) as Hset.
  { unfold i2, sized. destruct (i_size i1 <? off + tot); cbn [when]; [|by wp_step]. eapply wp_set_inode'; [exact H1|]. intros s2 H2.
    rewrite with_user_inode, set_ctl_inode in H2. rewrite <- (set_ctl_set ip (with_size (off + tot) i1) i1 c). exact H2. }
  wp_step. eapply wp_mono; [exact Hset|]. intros [] s2 H2. wp_step.
  eapply wp_iupdate; [|by rewrite with_user_inode; apply set_ctl_inode|apply HR2|apply HR2|exact H2|unfold n in *; lia|].
  { cbn. exact Hsb. }
  intros s3 H3. wp_step. eexists u, _, i2, _. split; [done|]. split; [exact H3|]. split; [pose proof (gr_len _ _ _ (grown_add bs1 (IBLOCK (i_inum i2) sb))); unfold n in *; lia|].
  split; [done|]. assert (forall j, 0 <= j < sb_size sb -> used sb (upd V1 (IBLOCK (i_inum i2) sb) (put_dinode (dinode_off (i_inum i2)) i2 (V1 (IBLOCK (i_inum i2) sb)))) j = used sb V1 j) as Hu.
  { intros j Hj. by apply flush_used. }
  split; [destruct Hf as [|[Hf Hal]]; [by left|right; split; [|done]; intros j Hj; rewrite Hu by done; by apply Hf]|].
  split; [unfold i2; rewrite sized_size; by rewrite (wt_size _ _ _ _ _ _ _ Hw)|]. split.
  - rewrite <- (wrote_content V i off data tot V1 i1) by (done || lia). fold i2. unfold fcontent, frange. apply list_fmap_ext. intros k p Hp.
    apply list_elem_of_lookup_2, elem_of_seqZ in Hp. apply flush_fbyte; [done|]. pose proof (ir_size _ _ _ HR2). lia.
  - pose proof (wt_ev _ _ _ _ _ _ _ Hw) as Hev. assert (forall m, owns V1 i2 m <-> owns V1 i1 m) as Ho2.
    { intros m. unfold owns, i2. by setoid_rewrite sized_slot. }
    apply flush_updates; [apply Hw|done|..].
    + eapply same_fields_trans; [apply Hev|apply sized_fields].
    + intros m Hm1 Hm2. rewrite Ho2 in Hm2. by apply Hev.
    + intros j Hj. rewrite Ho2. by apply Hev.
    + intros m Hm. apply Ho2. by eapply owns_keep.
    + intros m. rewrite Ho2. apply Hev.
Qed.

(** The calls writei refuses. *)
Lemma writei_refuses src c ip bs V i off n s Q : c.1.2 ip = i -> fs_at T c bs ∅ V s ->
  i_size i < off \/ u32 (off + n) < off \/ MAXFILE * BSIZE < u32 (off + n) -> Q (-1) s -> wp (writei (tn_pid T) me ip src off n) Q s.
Proof.
  intros Hi Hs Hbad HQ. unfold writei. eapply wp_get_inode; [exact Hs|]. rewrite Hi.
  destruct (Z.ltb_spec (i_size i) off); cbn [orb]; [by wp_step|]. destruct (Z.ltb_spec (u32 (off + n)) off); [by wp_step|].
  rewrite (proj2 (Z.ltb_lt _ _)) by (destruct Hbad as [?|[?|?]]; [lia|lia|done]). by wp_step.
Qed.

(** ** Other files *)

Definition apart V i j : Prop := forall n, owns V i n -> owns V j n -> False.
(** A file that shares no block with the one written keeps its contents. *)
Lemma other_file V i V' i' j : disk_ok sb V -> updates V i V' i' -> inode_rep sb V j -> apart V i j ->
  inode_rep sb V' j /\ fcontent V' j = fcontent V j /\ apart V' i' j.
Proof.
  intros HV HU HJ Ha. pose proof (datastart_pos T sb Hly) as Hds.
  assert (forall n, owns V j n -> data_block sb n /\ used sb V n = true) as Hj.
  { intros n [Hn (k & Hk & E)]. destruct (ir_slot _ _ _ HJ k Hk) as [|Hd]; [congruence|by rewrite E in Hd]. }
  assert (forall n, owns V j n -> V' n = V n /\ ~ owns V' i' n) as Hsame.
  { intros n Hn. destruct (Hj n Hn) as [Hd Hu]. assert (~ owns V' i' n) as Hno; [|split; [by apply (up_data _ _ _ _ HU)|done]].
    intros Ho. destruct (up_new _ _ _ _ HU n Ho) as [Ho'|[_ Hu']]; [by eapply Ha|congruence]. }
  assert (forall k, slot_of V' j k = slot_of V j k) as Hs.
  { intros k. unfold slot_of. destruct (k <? NDIRECT); [done|]. destruct (k =? MAXFILE); [done|]. destruct (Z.eqb_spec (i_addrs j NDIRECT) 0) as [|Hz]; [done|].
    destruct (Hsame (i_addrs j NDIRECT)) as [-> _]; [|done]. split; [done|]. exists MAXFILE. split; [unfold in_slots; by vm_compute|done]. }
  split; [|split].
  - destruct HJ as [R1 R2 R3 R4 R5 R6 R7]. split; try done.
    + intros k Hk. rewrite Hs. destruct (R4 k Hk) as [|[Hd Hu]]; [by left|right]. split; [done|]. apply (up_used _ _ _ _ HU); [unfold data_block in Hd; lia|by left].
    + intros k l Hk Hl. rewrite !Hs. by apply R5.
    + intros k Hk Hlt. rewrite Hs. by apply R7.
  - unfold fcontent, frange. apply list_fmap_ext. intros x p Hp. apply list_elem_of_lookup_2, elem_of_seqZ in Hp.
    destruct (slot_present sb V j p HJ ltac:(lia)) as [Hk Hz]. unfold fbyte. rewrite Hs. destruct (Hsame (slot_of V j (p / BSIZE))) as [-> _]; [|done].
    split; [done|]. exists (p / BSIZE). split; [unfold in_slots; lia|done].
  - intros n Hi [Hn (k & Hk & E)]. rewrite Hs in E. destruct (Hsame n) as [_ Hno]; [split; [done|by exists k]|done].
Qed.
End Write.
