(* ===== verification/FsLock.v ===== *)
(** * Locked inodes (kernel/fs.c: ilock, iunlock) and what is on the disk

    ilock reads an inode that is not valid from the disk; iunlock gives its
    sleep lock back.  Two disks that differ only inside the log hold the same
    inodes and the same contents: this joins consecutive transactions. *)

From Stdlib Require Import ZArith Lia FunctionalExtensionality.
From stdpp Require Import gmap.
From S2P Require Import Prelude Mem StringC Params Env Sleeplock Bio Log Fs FsPure FsTxn FsAlloc FsInode FsFile FsWrite.

(** An inode with another state of its sleep lock. *)
Definition with_ilock (l : sleeplock) (i : inode) : inode :=
  mkInode (i_dev i) (i_inum i) (i_ref i) l (i_valid i) (i_type i) (i_major i) (i_minor i) (i_nlink i) (i_size i) (i_addrs i).
Definition held_by (pid : Z) : sleeplock := mkSleeplock true false pid.

(** Whatever the bytes of a block, the fields read from it are in range. *)
Lemma getf_bound n o d : block_ok d -> 0 <= getf n o d < 2 ^ (8 * Z.of_nat n).
Proof.
  intros [_ Hb]. unfold getf. pose proof (le_dec_bound (take n (drop o d)) (Forall_take _ _ _ (Forall_drop _ _ _ Hb))) as H.
  rewrite length_take in H. split; [lia|]. eapply Z.lt_le_trans; [apply H|]. apply Z.pow_le_mono_r; lia.
Qed.
Lemma i16_ok_i16 x : i16_ok (i16 x).
Proof. unfold i16_ok, i16. pose proof (Z.mod_pos_bound (x + 2 ^ 15) (2 ^ 16) ltac:(lia)). lia. Qed.
Lemma get_dinode_ok o d i : block_ok d -> inode_ok (get_dinode o d i).
Proof.
  intros Hd. split; cbn; try apply i16_ok_i16; [|intros k]; apply (getf_bound 4); done.
Qed.

Section Disk.
Context (T : txn_env) (sb : superblock).
Implicit Types (V : Z -> list Z) (i : inode).
Hypothesis Hly : layout T sb.

(** ** Disks that agree outside the log *)

Definition same_fs (x V : Z -> list Z) : Prop := forall n, sb_inodestart sb <= n -> x n = V n.
Lemma outside_same x V : outside_log (tn_start T) x V -> same_fs x V.
Proof. intros H n Hn. apply H. unfold in_log. pose proof (ly_inodes _ _ Hly). lia. Qed.
Lemma same_sym x V : same_fs x V -> same_fs V x.
Proof. intros H n Hn. by rewrite H. Qed.
Lemma same_fs_trans x y V : same_fs x y -> same_fs y V -> same_fs x V.
Proof. intros H1 H2 n Hn. by rewrite H1, H2. Qed.

Lemma same_used x V j : same_fs x V -> 0 <= j < sb_size sb -> used sb x j = used sb V j.
Proof. intros H Hj. unfold used. rewrite H; [done|]. destruct (BBLOCK_eq T sb Hly j Hj) as [_ ?]. pose proof (starts T sb Hly). lia. Qed.
Lemma same_dinode x V inum : same_fs x V -> 0 <= inum < sb_ninodes sb -> dinode_at sb x inum = dinode_at sb V inum.
Proof.
  intros H Hi. unfold dinode_at. rewrite H; [done|]. destruct (IBLOCK_eq T sb Hly inum Hi) as [-> _].
  pose proof (Z.div_pos inum IPB ltac:(lia) ltac:(done)). lia.
Qed.
Lemma same_disk x V : same_fs x V -> (forall n, block_ok (x n)) -> disk_ok sb V -> disk_ok sb x.
Proof.
  intros H Hx HV. split; [done|]. intros b Hb. rewrite (same_used x V); [by apply HV|done|]. pose proof (ly_data _ _ Hly). lia.
Qed.
Lemma same_slot x V i k : same_fs x V -> inode_rep sb V i -> slot_of x i k = slot_of V i k.
Proof.
  intros H HR. unfold slot_of. destruct (k <? NDIRECT); [done|]. destruct (k =? MAXFILE); [done|]. destruct (Z.eqb_spec (i_addrs i NDIRECT) 0) as [|Hz]; [done|].
  rewrite H; [done|]. destruct (indirect_block sb V i HR Hz) as [Hd _]. unfold data_block in Hd. pose proof (starts T sb Hly). lia.
Qed.
Lemma same_owns x V i n : same_fs x V -> inode_rep sb V i -> owns x i n <-> owns V i n.
Proof. intros H HR. unfold owns. by setoid_rewrite (fun k => same_slot x V i k H HR). Qed.
Lemma same_rep x V i : same_fs x V -> inode_rep sb V i -> inode_rep sb x i.
Proof.
  intros H HR. pose proof (fun k => same_slot x V i k H HR) as Hs. destruct HR as [R1 R2 R3 R4 R5 R6 R7]. split; try done.
  - intros k Hk. rewrite Hs. destruct (R4 k Hk) as [|[Hd Hu]]; [by left|right]. split; [done|]. rewrite (same_used x V); [done|done|].
    unfold data_block in Hd. pose proof (datastart_pos T sb Hly). lia.
  - intros j k Hj Hk. rewrite !Hs. by apply R5.
  - intros k Hk Hlt. rewrite Hs. by apply R7.
Qed.
Lemma same_content x V i : same_fs x V -> inode_rep sb V i -> fcontent x i = fcontent V i.
Proof.
  intros H HR. unfold fcontent, frange. apply list_fmap_ext. intros k p Hp. apply list_elem_of_lookup_2, elem_of_seqZ in Hp.
  destruct (slot_present sb V i p HR ltac:(lia)) as [Hk Hz]. unfold fbyte. rewrite (same_slot x V) by done. rewrite H; [done|].
  destruct (ir_slot _ _ _ HR (p / BSIZE)) as [|[Hd _]]; [unfold in_slots; lia|done|]. unfold data_block in Hd. pose proof (starts T sb Hly). lia.
Qed.
Lemma same_full x V : same_fs x V -> disk_full sb V -> disk_full sb x.
Proof. intros H Hf j Hj. rewrite (same_used x V) by done. by apply Hf. Qed.

(** ** Inodes in memory and on the disk

    An inode's representation does not depend on its lock or on the fields
    that are not on the disk. *)
Lemma ilock_rep V l i : inode_rep sb V i -> inode_rep sb V (with_ilock l i).
Proof. intros [R1 R2 [K1 K2 K3 K4 K5 K6] R4 R5 R6 R7]. by split. Qed.
Lemma ilock_content V l i : fcontent V (with_ilock l i) = fcontent V i.
Proof. done. Qed.
Lemma ilock_updates V i l i' V' : updates sb V (with_ilock l i) V' i' -> updates sb V i V' (with_ilock (i_lock i) i').
Proof.
  intros [U1 U2 U3 U4 U5 U6 U7 U8 U9 U10]. split; try done; [by apply ilock_rep|].
  destruct U3 as (F1 & F2 & F3 & F4 & F5 & F6 & F7 & F8 & F9). unfold same_fields. by split_and!.
Qed.

(** The inode ilock finds: the one in memory, or the one on the disk. *)
Definition loaded V i : inode :=
  if i_valid i then i else with_ivalid true (get_dinode (dinode_off (i_inum i)) (V (IBLOCK (i_inum i) sb)) i).
Lemma loaded_same V i : i_dev (loaded V i) = i_dev i /\ i_inum (loaded V i) = i_inum i /\ i_ref (loaded V i) = i_ref i /\
  i_lock (loaded V i) = i_lock i /\ i_valid (loaded V i) = true.
Proof. unfold loaded. by destruct (i_valid i) eqn:E. Qed.
Lemma loaded_valid V i : i_valid i = true -> loaded V i = i.
Proof. unfold loaded. by intros ->. Qed.
Lemma loaded_ok V i : disk_ok sb V -> (i_valid i = true -> inode_ok i) -> inode_ok (loaded V i).
Proof.
  intros HV Hi. unfold loaded. destruct (i_valid i); [by apply Hi|]. destruct (get_dinode_ok (dinode_off (i_inum i)) (V (IBLOCK (i_inum i) sb)) i (do_block _ _ HV _)). by split.
Qed.
Lemma loaded_disk V i : i_valid i = false -> inode_disk (loaded V i) = dinode_at sb V (i_inum i).
Proof. unfold loaded. by intros ->. Qed.
End Disk.

(** ** ilock and iunlock *)

Section Lock.
Context {W : Type} (T : txn_env) (sb : superblock).
Implicit Types (V : Z -> list Z) (bs : list Z) (L : gmap Z nat) (c : control W) (i : inode).
Hypothesis Hly : layout T sb.

#[local] Instance i_lockL_ok ip : LensOk (@i_lockL W ip).
Proof.
  split.
  - intros a s. cbn. by rewrite upd_eq.
  - intros a b s. cbn. unfold on_inode. cbn. by rewrite upd_eq, upd_upd.
  - intros [l b t f u]. cbn. unfold on_inode. cbn. f_equal. transitivity (upd f ip (f ip)); [|apply upd_id]. f_equal. by destruct (f ip).
Qed.
#[local] Instance i_lock_woken ip : LensSep (@i_lockL W ip) fs_wokenL.
Proof. by split. Qed.

Lemma fs_at_ilock c bs L V s ip l : fs_at T c bs L V s ->
  fs_at T (set_ctl ip (with_ilock l (c.1.2 ip)) c) bs L V (put (i_lockL ip) l s).
Proof. intros [<- H]. by split. Qed.
Lemma fs_at_woken c bs L V s w : fs_at T c bs L V s -> fs_at T c bs L V (put fs_wokenL w s).
Proof.
  intros [<- [C H]]. split; [done|]. exists C. destruct H as [H1 H2 H3 H4 H5 H6 H7 H8 H9 H10 H11 H12]. split; try done.
  - by destruct H5.
  - cbn. by apply cache_rep_woken.
Qed.

(** Reading an inode that is not valid. *)
Lemma ilock_load c ip bs V i s Q : c.1.1.1 = sb -> c.1.2 ip = i -> i_dev i = ROOTDEV -> 0 <= i_inum i < sb_ninodes sb ->
  fs_at T c bs ∅ V s -> (length bs < nbuf)%nat -> i_valid i = false -> i_type (loaded sb V i) <> 0 ->
  (forall s', fs_at T (set_ctl ip (loaded sb V i) c) bs ∅ V s' -> Q tt s') ->
  wp (let* sb := gets fs_sb in
      let* bp := fbread (tn_pid T) (i_dev i) (IBLOCK (i_inum i) sb) in
      let* d := fdata bp in
      set_inode ip (get_dinode (dinode_off (i_inum i)) d) ;;
      fbrelse (tn_pid T) bp ;;
      set_inode ip (with_ivalid true) ;;
      let* i := get_inode ip in
      if i_type i =? 0 then panic "ilock: no type" else ret tt) Q s.
Proof.
  intros Hsb Hi Hdev Hin Hs Hroom Hv Hty HQ. destruct (IBLOCK_eq T sb Hly _ Hin) as (_ & [Hok _] & _).
  eapply wp_get_sb; [exact Hs|]. rewrite Hsb, Hdev. wp_step.
  eapply wp_fbread; [exact Hs|exact Hok|apply lookup_empty|rewrite map_size_empty; lia|]. intros b s1 H1.
  eapply wp_fdata; [exact H1|by rewrite lookup_insert_eq|]. wp_step. eapply wp_set_inode'; [exact H1|]. intros s2 H2. wp_step.
  eapply wp_fbrelse; [exact H2|by rewrite lookup_insert_eq|]. rewrite delete_insert_id by apply lookup_empty. intros s3 H3. wp_step.
  eapply wp_set_inode'; [exact H3|]. intros s4 H4. rewrite set_ctl_set, set_ctl_inode, Hi in H4.
  assert (with_ivalid true (get_dinode (dinode_off (i_inum i)) (V (IBLOCK (i_inum i) sb)) i) = loaded sb V i) as E by (unfold loaded; by rewrite Hv).
  rewrite E in H4. eapply wp_get_inode; [exact H4|]. rewrite set_ctl_inode, (proj2 (Z.eqb_neq _ 0)) by done. wp_step. by apply HQ.
Qed.

Lemma wp_ilock fuel c ip bs V i p s Q : c.1.1.1 = sb -> c.1.2 ip = i -> i_dev i = ROOTDEV -> 0 <= i_inum i < sb_ninodes sb ->
  1 <= i_ref i -> i_lock i = mkSleeplock false false p -> fs_at T c bs ∅ V s -> (length bs < nbuf)%nat ->
  (i_valid i = false -> i_type (loaded sb V i) <> 0) ->
  (forall s', fs_at T (set_ctl ip (with_ilock (held_by (tn_pid T)) (loaded sb V i)) c) bs ∅ V s' -> Q tt s') ->
  wp (ilock (tn_pid T) (S fuel) (Some ip)) Q s.
Proof.
  intros Hsb Hi Hdev Hin Href Hlk Hs Hroom Hty HQ. unfold ilock. eapply wp_get_inode; [exact Hs|]. rewrite Hi.
  rewrite (proj2 (Z.ltb_ge (i_ref i) 1)) by lia. wp_step.
  assert (view (i_lockL ip) s = mkSleeplock false false p) as Hl by (rewrite <- Hlk, <- Hi; by destruct Hs as [<- _]).
  unfold wp at 1. rewrite (acquiresleep_free _ _ _ fuel _ p Hl). pose proof (fs_at_ilock c bs ∅ V s ip (held_by (tn_pid T)) Hs) as H1. rewrite Hi in H1.
  eapply wp_get_inode; [exact H1|]. rewrite set_ctl_inode. change (i_valid (with_ilock _ i)) with (i_valid i).
  apply wp_when; intros Hv.
  - apply negb_true_iff in Hv. eapply (ilock_load (set_ctl ip (with_ilock (held_by (tn_pid T)) i) c) ip bs V (with_ilock (held_by (tn_pid T)) i)); [done|by apply set_ctl_inode|done|done|exact H1|done|done|..].
    + specialize (Hty Hv). unfold loaded in *. cbn. by rewrite Hv in *.
    + intros s' H'. rewrite set_ctl_set in H'. apply HQ. unfold loaded in *. cbn in H'. by rewrite Hv in *.
  - apply negb_false_iff in Hv. apply HQ. by rewrite loaded_valid.
Qed.

Lemma wp_iunlock c ip bs L V i s Q : c.1.2 ip = i -> 1 <= i_ref i -> i_lock i = held_by (tn_pid T) -> fs_at T c bs L V s ->
  (forall s', fs_at T (set_ctl ip (with_ilock initsleeplock i) c) bs L V s' -> Q tt s') ->
  wp (iunlock (tn_pid T) (Some ip)) Q s.
Proof.
  intros Hi Href Hlk Hs HQ. unfold iunlock. wp_step.
  assert (view (i_lockL ip) s = held_by (tn_pid T)) as Hl by (rewrite <- Hlk, <- Hi; by destruct Hs as [<- _]).
  unfold wp at 1. rewrite (holdingsleep_eq _ (tn_pid T) _ true (tn_pid T)) by exact Hl. rewrite Z.eqb_refl. cbn [andb negb orb].
  eapply wp_get_inode; [exact Hs|]. rewrite Hi, (proj2 (Z.ltb_ge (i_ref i) 1)) by lia. cbn [orb].
  unfold wp. rewrite (releasesleep_eq _ _ _ _ true (tn_pid T)) by exact Hl. apply HQ. rewrite <- Hi.
  by apply fs_at_ilock, fs_at_woken.
Qed.
End Lock.
