(* ===== verification/SmallDisk.v ===== *)
(** * A small disk

    A concrete file system of 100 blocks on which the theorems about fs.c and
    file.c are applied: the super block in block 1, the log from block 2, inode blocks 33 and 34, free map
    35, data from 36.  Inode 1 is an empty file, inode 2 a directory in block
    36 with the names "." and "f". *)

From Stdlib Require Import ZArith Lia.
From stdpp Require Import gmap.
From S2P Require Import Prelude Mem StringC Params Env Sleeplock Bio Log Fs FsPure FsTxn FsAlloc FsInode FsFile FsWrite FsLock.

Definition sb1 : superblock := mkSb FSMAGIC 100 64 16 LOGBLOCKS 2 33 35.
Definition empty_file : inode := mkInode ROOTDEV 1 1 initsleeplock false T_FILE 0 0 1 0 (fun _ => 0).
Definition small_dir : inode := mkInode ROOTDEV 2 1 (held_by 1) true T_DIR 0 0 1 32 (fun k => if k =? 0 then 36 else 0).
Definition free_map : list Z := replicate 4 255 ++ [31] ++ replicate 1019 0.
Definition entries : list Z := splice zeroes 0 (mk_dirent 2 [46] ++ mk_dirent 1 [102]).
Definition inode_block : list Z := put_dinode (dinode_off 2) small_dir (put_dinode (dinode_off 1) empty_file zeroes).
Definition super_block : list Z := putf 4 28 35 (putf 4 24 33 (putf 4 20 2 (putf 4 16 LOGBLOCKS (putf 4 12 16 (putf 4 8 64 (putf 4 4 100 (putf 4 0 FSMAGIC zeroes))))))).
Definition disk1 : Z -> list Z := upd (upd (upd (upd (fun _ => zeroes) 35 free_map) 33 inode_block) 36 entries) 1 super_block.
Example super_block_read : get_sb (disk1 1) = sb1.
Proof. by vm_compute. Qed.
Definition bio1 : bio := match binit (boot_bio disk1) with Ret _ c => c | _ => boot_bio disk1 end.
Definition log1 : log := mkLog false 2 0 false ROOTDEV 0 (fun _ => 0) bio1.

Lemma bio1_rep pid : cache_rep pid ∅ bio1 /\ disk bio1 = disk1 /\ dwrites bio1 = [].
Proof.
  pose proof (binit_spec pid false disk1 [] []) as H. unfold wp in H. unfold bio1, boot_bio. destruct (binit _) eqn:E; [|done..]. split; apply H.
Qed.
Lemma layout1 pid d w out : layout (mkTxn pid 2 d w out) sb1.
Proof. split; vm_compute; try split; congruence. Qed.
Lemma log1_idle pid : log_idle pid 2 log1.
Proof. destruct (bio1_rep pid) as (H1 & H2 & H3). by split. Qed.

(** Inside a transaction. *)
Definition txn1 : txn_env := mkTxn 1 2 disk1 [] 1.
Definition log2 : log := state_or log1 (begin_op 1 log1).
Lemma log2_txn : in_txn txn1 [] ∅ disk1 log2.
Proof.
  destruct (bio1_rep 1) as (_ & Hd & Hw). pose proof (txn_begin txn1 log1 0 (eq_sym Hd) (eq_sym Hw) (log1_idle 1)) as H.
  unfold wp in H. unfold log2, state_or. destruct (begin_op 1 log1); [exact H|done..].
Qed.

Lemma disk1_ok : disk_ok sb1 disk1.
Proof.
  split.
  - intros n. unfold disk1, upd. repeat case_decide; (split; [by vm_compute|]); apply (bool_decide_unpack (Forall byte_ok _)); by vm_compute.
  - intros b Hb. change (datastart sb1) with 36 in Hb. assert (Forall (fun b => used sb1 disk1 b = true) (seqZ 0 36)) as Hf.
    { apply (bool_decide_unpack (Forall (fun b => used sb1 disk1 b = true) (seqZ 0 36))). by vm_compute. }
    rewrite Forall_forall in Hf. apply Hf, elem_of_seqZ. lia.
Qed.

(** An inode without blocks. *)
Lemma empty_rep sb V i : i_dev i = ROOTDEV -> 0 <= i_inum i < sb_ninodes sb -> inode_ok i -> i_size i = 0 -> (forall k, 0 <= k <= NDIRECT -> i_addrs i k = 0) -> inode_rep sb V i.
Proof.
  intros Hd Hn Ho Hs Ha. assert (forall k, in_slots k -> slot_of V i k = 0) as Hz.
  { intros k Hk. unfold in_slots in Hk. unfold slot_of. destruct (Z.ltb_spec k NDIRECT); [apply Ha; lia|]. rewrite Ha by (unfold NDIRECT; lia). by destruct (k =? MAXFILE). }
  split; try done.
  - intros k Hk. left. by apply Hz.
  - intros j k Hj _ Hne. by destruct Hne; apply Hz.
  - rewrite Hs. done.
  - intros k Hk Hlt. rewrite Hs in Hlt. unfold BSIZE in Hlt. lia.
Qed.
Lemma file1_rep : inode_rep sb1 disk1 (loaded sb1 disk1 empty_file).
Proof.
  apply empty_rep; try done.
  - apply loaded_ok; [exact disk1_ok|discriminate].
  - intros k Hk. assert (Forall (fun k => i_addrs (loaded sb1 disk1 empty_file) k = 0) (seqZ 0 13)) as Hf.
    { apply (bool_decide_unpack (Forall (fun k => i_addrs (loaded sb1 disk1 empty_file) k = 0) (seqZ 0 13))). by vm_compute. }
    rewrite Forall_forall in Hf. apply Hf, elem_of_seqZ. unfold NDIRECT in Hk. lia.
Qed.
Lemma dir1_rep : inode_rep sb1 disk1 small_dir.
Proof.
  assert (forall k, in_slots k -> slot_of disk1 small_dir k = if k =? 0 then 36 else 0) as Hs.
  { intros k Hk. unfold in_slots in Hk. unfold slot_of. cbn [i_addrs small_dir]. destruct (Z.ltb_spec k NDIRECT); [done|].
    rewrite (proj2 (Z.eqb_neq k 0)) by (unfold NDIRECT in *; lia). by destruct (k =? MAXFILE). }
  split; try done.
  - split; unfold i16_ok, u32_ok; cbn; unfold T_DIR; try lia. intros k. destruct (k =? 0); lia.
  - intros k Hk. rewrite Hs by done. destruct (k =? 0); [right|by left]. split; [split; by vm_compute|by vm_compute].
  - intros j k Hj Hk. rewrite !Hs by done. destruct (Z.eqb_spec j 0), (Z.eqb_spec k 0); lia.
  - intros k Hk Hlt. cbn in Hlt. unfold BSIZE in Hlt. assert (k = 0) as -> by lia. done.
Qed.
