(* ===== verification/FsDir.v ===== *)
(** * Directories (kernel/fs.c: dirlookup, dirlink, iget)

    A directory is a finite map from names to inode numbers: the entries of
    its contents with a number other than 0, the first one winning.
    dirlookup is the map's lookup and dirlink its insertion. *)

From Stdlib Require Import ZArith Lia.
From stdpp Require Import gmap.
From S2P Require Import Prelude Mem StringC Params Env Sleeplock Bio Log Fs FsPure FsTxn FsAlloc FsInode FsFile FsWrite FsLock SmallDisk.

(** ** Names

    A name is what strncmp sees of a buffer: the bytes before the first NUL,
    at most DIRSIZ. *)
Fixpoint upto_nul (n : nat) (l : list Z) : list Z :=
  match n, l with
  | S n, x :: l => if x =? 0 then [] else x :: upto_nul n l
  | _, _ => []
  end.
Definition cname (l : list Z) : list Z := upto_nul (Z.to_nat DIRSIZ) l.

Lemma upto_nul_nil n : upto_nul n [] = [].
Proof. by destruct n. Qed.
Lemma upto_nul_eq n : forall s t, upto_nul n s = upto_nul n t <->
  forall i, (i < n)%nat -> (forall j, (j < i)%nat -> nth j s 0 <> 0) -> nth i s 0 = nth i t 0.
Proof.
  assert (forall n x l, upto_nul (S n) (x :: l) = if x =? 0 then [] else x :: upto_nul n l) as E by done.
  assert (forall n (l : list Z), upto_nul (S n) l = if nth 0 l 0 =? 0 then [] else nth 0 l 0 :: upto_nul n (tail l)) as Hs by (intros k [|x l]; done).
  induction n as [|n IH]; intros s t; [split; [lia|done]|]. rewrite !Hs. destruct (Z.eqb_spec (nth 0 s 0) 0) as [Es|Es], (Z.eqb_spec (nth 0 t 0) 0) as [Et|Et].
  - split; [|done]. intros _ [|i] Hi Hj; [congruence|]. exfalso. apply (Hj 0%nat); [lia|done].
  - split; [done|]. intros H. destruct Et. rewrite <- (H 0%nat); [done|lia|lia].
  - split; [done|]. intros H. destruct Es. rewrite (H 0%nat); [done|lia|lia].
  - assert (forall l i, nth i (tail l) 0 = nth (S i) l 0) as Ht by (intros [|x l] i; [by destruct i|done]).
    split.
    + intros [= E0 Ee]. rewrite IH in Ee. intros [|i] Hi Hj; [done|]. rewrite <- !Ht. apply Ee; [lia|]. intros j Hlt. rewrite Ht. apply Hj. lia.
    + intros H. f_equal; [apply H; lia|]. apply IH. intros i Hi Hj. rewrite !Ht. apply H; [lia|]. intros [|j] Hlt; [done|]. rewrite <- Ht. apply Hj. lia.
Qed.

Lemma mem_of_at s t i : (length s <= 1024)%nat -> 0 <= i < 1024 -> mem_of s t i = nth (Z.to_nat i) s 0.
Proof.
  intros Hs Hi. unfold mem_of. rewrite mwrite_out by lia. destruct (decide (i < Z.of_nat (length s))).
  - rewrite mwrite_in by lia. f_equal. lia.
  - rewrite mwrite_out, nth_overflow by lia. done.
Qed.
Lemma mem_of_at' s t i : (length s <= 1024)%nat -> 0 <= i -> mem_of s t (1024 + i) = nth (Z.to_nat i) t 0.
Proof.
  intros Hs Hi. unfold mem_of. destruct (decide (i < Z.of_nat (length t))).
  - rewrite mwrite_in by lia. f_equal. lia.
  - rewrite !mwrite_out, nth_overflow by lia. done.
Qed.
Lemma namecmp_0 s t : (length s <= 1024)%nat -> namecmp s t = 0 <-> cname s = cname t.
Proof.
  intros Hs. unfold namecmp. destruct (comparisons_decide (mem_of s t) 0 1024 DIRSIZ ltac:(done)) as [_ ->]. unfold cname. rewrite upto_nul_eq.
  change (Z.to_nat DIRSIZ) with 14%nat. unfold DIRSIZ. split; intros H.
  - intros i Hi Hj. specialize (H (Z.of_nat i) ltac:(lia)). rewrite Z.add_0_l, mem_of_at, mem_of_at', !Nat2Z.id in H by lia. apply H.
    intros j Hlt. rewrite Z.add_0_l, mem_of_at by lia. apply Hj. lia.
  - intros i Hi Hj. rewrite Z.add_0_l, mem_of_at, mem_of_at' by lia. apply H; [lia|]. intros j Hlt. specialize (Hj (Z.of_nat j) ltac:(lia)).
    by rewrite Z.add_0_l, mem_of_at, Nat2Z.id in Hj by lia.
Qed.

(** ** Entries *)

Lemma upto_nul_prefix m n : forall t, prefix_len m t (Z.of_nat n) (Z.of_nat (length (upto_nul n (mread m t n)))).
Proof.
  induction n as [|n IH]; intros t; cbn [mread upto_nul]; [split_and!; cbn; lia|]. destruct (Z.eqb_spec (m t) 0) as [E|E]; cbn [length].
  - split_and!; [lia|lia|lia|]. intros _. by rewrite Z.add_0_r.
  - destruct (IH (t + 1)) as (H1 & H2 & H3). split_and!; [lia|lia| |].
    + intros i Hi. destruct (decide (i = 0)) as [->|]; [by rewrite Z.add_0_r|]. replace (t + i) with (t + 1 + (i - 1)) by lia. apply H2. lia.
    + intros Hlt. replace (t + Z.of_nat (S (length (upto_nul n (mread m (t + 1) n))))) with (t + 1 + Z.of_nat (length (upto_nul n (mread m (t + 1) n)))) by lia. apply H3. lia.
Qed.

Lemma length_mk_dirent inum name : length (mk_dirent inum name) = 16%nat.
Proof. unfold mk_dirent. by rewrite length_app, length_le_enc, length_mread. Qed.
Lemma mk_dirent_inum inum name : 0 <= inum < 65536 -> de_inum (mk_dirent inum name) = inum.
Proof.
  intros Hi. unfold de_inum, mk_dirent, getf. rewrite drop_0, take_app_length' by by rewrite length_le_enc. rewrite le_dec_enc. by apply Z.mod_small.
Qed.
Lemma mk_dirent_name inum name : (length name <= 1024)%nat -> cname (de_name (mk_dirent inum name)) = cname name.
Proof.
  intros Hn. unfold de_name, mk_dirent. rewrite drop_app_length' by by rewrite length_le_enc. rewrite take_ge by by rewrite length_mread.
  unfold cname. change (Z.to_nat DIRSIZ) with 14%nat. apply upto_nul_eq. pose proof (upto_nul_prefix (mem_of name []) 14 0) as Hp.
  set (k := Z.of_nat (length (upto_nul 14 (mread (mem_of name []) 0 14)))) in *. intros i Hi Hj. rewrite nth_mread by done.
  assert (forall j, (j < 14)%nat -> strncpy (mem_of name []) 2048 0 DIRSIZ (2048 + Z.of_nat j) = if Z.of_nat j <? k then nth j name 0 else 0) as Hc.
  { intros j Hlt. unfold DIRSIZ. rewrite (strncpy_at _ _ _ _ k) by (try exact Hp; lia). bsimp. replace (2048 + Z.of_nat j - 2048) with (Z.of_nat j) by lia.
    destruct (Z.of_nat j <? k); [|done]. rewrite Z.add_0_l, mem_of_at by lia. by rewrite Nat2Z.id. }
  rewrite Hc by done. destruct (Z.ltb_spec (Z.of_nat i) k); [done|]. assert (Z.of_nat i = k) as E.
  { destruct (decide (Z.of_nat i = k)); [done|]. exfalso. apply (Hj (Z.to_nat k)); [lia|]. rewrite nth_mread by lia. rewrite Hc by lia. by rewrite (proj2 (Z.ltb_ge _ _)) by lia. }
  destruct Hp as (_ & _ & H3). specialize (H3 ltac:(lia)). rewrite Z.add_0_l, <- E, mem_of_at, Nat2Z.id in H3 by lia. done.
Qed.

(** The map of a list of entries. *)
Fixpoint dmap (es : list (list Z)) : gmap (list Z) Z :=
  match es with
  | [] => ∅
  | e :: es => if de_inum e =? 0 then dmap es else <[cname (de_name e) := de_inum e]> (dmap es)
  end.
Definition other (x e : list Z) : Prop := de_inum e = 0 \/ cname (de_name e) <> x.

Lemma dmap_skip es k x : (k <= length es)%nat -> Forall (other x) (take k es) -> dmap es !! x = dmap (drop k es) !! x.
Proof.
  revert es. induction k as [|k IH]; intros [|e es] Hk Hf; cbn in *; [done|done|lia|]. apply Forall_cons in Hf as [He Hf]. rewrite <- IH by (done || lia).
  destruct (Z.eqb_spec (de_inum e) 0) as [|Hn]; [done|]. destruct He as [|He]; [done|]. by rewrite lookup_insert_ne.
Qed.
Lemma dmap_none es x : dmap es !! x = None -> Forall (other x) es.
Proof.
  induction es as [|e es IH]; cbn; [done|]. destruct (Z.eqb_spec (de_inum e) 0) as [|Hn]; intros H.
  - apply Forall_cons. split; [by left|auto].
  - apply lookup_insert_None in H as [H He]. apply Forall_cons. split; [by right|auto].
Qed.
Lemma dmap_put es k e0 e x : es !! k = Some e0 -> de_inum e0 = 0 -> dmap es !! x = None -> de_inum e <> 0 -> cname (de_name e) = x ->
  dmap (<[k := e]> es) = <[x := de_inum e]> (dmap es).
Proof.
  revert k. induction es as [|a es IH]; intros [|k] Hk H0 Hn He Hx; try done.
  - injection Hk as ->. cbn in *. rewrite (proj2 (Z.eqb_eq _ _) H0) in *. rewrite (proj2 (Z.eqb_neq _ 0)) by done. by rewrite Hx.
  - change (<[S k := e]> (a :: es)) with (a :: <[k := e]> es). cbn [dmap] in *. destruct (Z.eqb_spec (de_inum a) 0) as [|Ha]; [by apply IH|].
    apply lookup_insert_None in Hn as [Hn Hne]. rewrite (IH k) by done. by apply insert_insert_ne.
Qed.
Lemma dmap_app es e x : dmap es !! x = None -> de_inum e <> 0 -> cname (de_name e) = x -> dmap (es ++ [e]) = <[x := de_inum e]> (dmap es).
Proof.
  intros Hn He Hx. induction es as [|a es IH]; cbn in *.
  - by rewrite (proj2 (Z.eqb_neq _ 0)), Hx.
  - destruct (Z.eqb_spec (de_inum a) 0) as [|Ha]; [by apply IH|]. apply lookup_insert_None in Hn as [Hn Hne].
    rewrite IH by done. by apply insert_insert_ne.
Qed.

(** ** References to inodes (iget, iput) *)

Section Refs.
Context {W : Type} (T : txn_env).
Implicit Types (V : Z -> list Z) (bs : list Z) (L : gmap Z nat) (c : control W) (i : inode).

(** The table can take a reference to [inum]. *)
Definition iroom (f : nat -> inode) (inum : Z) : Prop :=
  exists j, (j < ninode)%nat /\ (is_inode f ROOTDEV inum j = true \/ is_empty f j = true).
(** The entry iget returns, and what it makes of it. *)
Definition igot (f : nat -> inode) (inum : Z) (ip : nat) i' : Prop :=
  (ip < ninode)%nat /\ i_dev i' = ROOTDEV /\ i_inum i' = inum /\ i_lock i' = i_lock (f ip) /\
  (0 < i_ref (f ip) /\ i_dev (f ip) = ROOTDEV /\ i_inum (f ip) = inum /\ i' = with_ref (i_ref (f ip) + 1) (f ip) \/
   i_ref (f ip) = 0 /\ (forall j, (j < ninode)%nat -> is_inode f ROOTDEV inum j = false) /\ i_ref i' = 1 /\ i_valid i' = false).

Lemma find_elem {A} (P : A -> bool) l x : List.find P l = Some x -> x ∈ l /\ P x = true.
Proof. intros H. apply List.find_some in H as [H1 H2]. split; [by apply list_elem_of_In|done]. Qed.

Lemma fs_at_itable c bs L V s b : c.1.1.2 = false -> fs_at T c bs L V s -> fs_at T c bs L V (put itable_lockL false (put itable_lockL b s)).
Proof. intros Hc [<- Hs]. split; [|done]. unfold ctl in *. cbn in *. by rewrite Hc. Qed.

Lemma wp_iget c bs L V s inum Q : c.1.1.2 = false -> fs_at T c bs L V s -> iroom c.1.2 inum -> (forall j, (j < ninode)%nat -> i_ref (c.1.2 j) < 2 ^ 31 - 1) ->
  (forall ip i' s', igot c.1.2 inum ip i' -> fs_at T (set_ctl ip i' c) bs L V s' -> Q ip s') -> wp (iget ROOTDEV inum) Q s.
Proof.
  intros Hlk Hs Hroom Hlt HQ. pose proof Hs as [<- Hl]. cbn [ctl fst snd] in *. unfold iget. wp_step. apply wp_acquire; [exact Hlk|]. wp_step. wp_step.
  cbn [inodes put itable_lockL]. destruct (List.find (is_inode (inodes s) ROOTDEV inum) (seq 0 ninode)) as [ip|] eqn:E1.
  - apply find_elem in E1 as [Hin Hp]. apply elem_of_seq in Hin. assert (ip < ninode)%nat as Hip by lia. specialize (Hlt ip Hip).
    unfold is_inode in Hp. apply andb_prop in Hp as [Hp Hn]. apply andb_prop in Hp as [Hr Hd]. apply Z.ltb_lt in Hr. apply Z.eqb_eq in Hd, Hn.
    unfold set_inode. wp_step. wp_step. wp_step. apply wp_release; [done|]. wp_step. eapply (HQ ip (with_ref (i_ref (inodes s ip) + 1) (inodes s ip))).
    + split; [done|]. split; [done|]. split; [done|]. split; [done|]. by left.
    + split; [|exact Hl]. unfold ctl. cbn in *. rewrite Hlk, i32_small by lia. done.
  - assert (forall j, (j < ninode)%nat -> is_inode (inodes s) ROOTDEV inum j = false) as Hnone.
    { intros j Hj. apply (List.find_none _ _ E1). apply list_elem_of_In, elem_of_seq. lia. }
    destruct (List.find (is_empty (inodes s)) (seq 0 ninode)) as [ip|] eqn:E2.
    + apply find_elem in E2 as [Hin Hp]. apply elem_of_seq in Hin. unfold is_empty in Hp. apply Z.eqb_eq in Hp.
      unfold set_inode. wp_step. wp_step. wp_step. apply wp_release; [done|]. wp_step.
      eapply (HQ ip (mkInode ROOTDEV inum 1 (i_lock (inodes s ip)) false (i_type (inodes s ip)) (i_major (inodes s ip)) (i_minor (inodes s ip)) (i_nlink (inodes s ip)) (i_size (inodes s ip)) (i_addrs (inodes s ip)))).
      * split; [lia|]. split; [done|]. split; [done|]. split; [done|]. right. done.
      * split; [|exact Hl]. unfold ctl. cbn in *. by rewrite Hlk.
    + exfalso. destruct Hroom as (j & Hj & [Hx|Hx]); [by rewrite Hnone in Hx|]. rewrite (List.find_none _ _ E2 j) in Hx; [done|]. apply list_elem_of_In, elem_of_seq. lia.
Qed.

(** iput of a reference that is not the last one to a deleted file. *)
Lemma wp_iput fuel c bs L V s ip i Q : c.1.1.2 = false -> c.1.2 ip = i -> fs_at T c bs L V s -> 1 <= i_ref i < 2 ^ 31 ->
  (i_ref i = 1 -> i_valid i = false \/ i_nlink i <> 0) ->
  (forall s', fs_at T (set_ctl ip (with_ref (i_ref i - 1) i) c) bs L V s' -> Q tt s') -> wp (iput (tn_pid T) fuel ip) Q s.
Proof.
  intros Hlk <- Hs Hr Hlast HQ. pose proof Hs as [<- Hl]. cbn [ctl fst snd] in *. unfold iput. wp_step. apply wp_acquire; [exact Hlk|]. wp_step.
  unfold get_inode. wp_step. cbn [inodes put itable_lockL].
  assert ((i_ref (inodes s ip) =? 1) && i_valid (inodes s ip) && (i_nlink (inodes s ip) =? 0) = false) as ->.
  { destruct (Z.eqb_spec (i_ref (inodes s ip)) 1) as [E|E]; [|done]. destruct (Hlast E) as [->|Hn]; [done|]. rewrite (proj2 (Z.eqb_neq _ 0)) by done. apply andb_false_r. }
  cbn [when]. wp_step. wp_step. unfold set_inode. wp_step. wp_step. apply wp_release; [done|]. apply HQ. split; [|exact Hl]. unfold ctl. cbn in *. rewrite Hlk, i32_small by lia. done.
Qed.

(** Getting a reference and giving it back leaves every inode in use as it
    was. *)
Definition calm c c' : Prop := c'.1.1 = c.1.1 /\ c'.2 = c.2 /\ forall j, 0 < i_ref (c.1.2 j) -> c'.1.2 j = c.1.2 j.
Lemma calm_ref c inum ip i' : igot c.1.2 inum ip i' -> 1 <= i_ref i' /\ (i_ref i' = 1 -> i_valid i' = false) /\ calm c (set_ctl ip (with_ref (i_ref i' - 1) i') c).
Proof.
  destruct c as [[[b l] f] u]. cbn. intros (_ & _ & _ & _ & [(Hr & _ & _ & ->)|(Hr & _ & Hr1 & Hv)]).
  - cbn. split; [lia|]. split; [lia|]. split; [done|]. split; [done|]. intros j Hj. unfold set_ctl, on_ctl. cbn. unfold upd. case_decide as E; [|done]. subst j.
    destruct (f ip). unfold with_ref. cbn. f_equal. lia.
  - split; [lia|]. split; [done|]. split; [done|]. split; [done|]. intros j Hj. unfold set_ctl, on_ctl. cbn. unfold upd. case_decide as E; [|done]. subst j. cbn in Hj. lia.
Qed.
End Refs.

(** ** The entries of a directory on the disk *)

Section Dir.
Context {W : Type} `{UserMem W} (T : txn_env) (sb : superblock) (me : nat).
Implicit Types (V : Z -> list Z) (bs : list Z) (c : control W) (i : inode).
Hypothesis Hly : layout T sb.

Definition dents V i : list (list Z) := (fun k => frange V i (16 * k) 16) <$> seqZ 0 (i_size i / 16).
Definition dir_map V i : gmap (list Z) Z := dmap (dents V i).
Record dir_rep V i : Prop := {
  dr_rep : inode_rep sb V i;
  dr_type : i_type i = T_DIR;
  dr_size : i_size i mod 16 = 0;
}.

Lemma length_dents V i : length (dents V i) = Z.to_nat (i_size i / 16).
Proof. unfold dents. by rewrite length_fmap, length_seqZ. Qed.
Lemma lookup_dents V i k : 0 <= k < i_size i / 16 -> dents V i !! Z.to_nat k = Some (frange V i (16 * k) 16).
Proof. intros Hk. unfold dents. rewrite list_lookup_fmap, lookup_seqZ_lt by lia. cbn. do 3 f_equal. lia. Qed.
(** The entries are the contents in pieces. *)
Lemma dents_content V i k : 0 <= k < i_size i / 16 -> dents V i !! Z.to_nat k = Some (take 16 (drop (Z.to_nat (16 * k)) (fcontent V i))).
Proof.
  intros Hk. rewrite lookup_dents by done. f_equal. apply (frange_content V i (16 * k) 16); [lia|lia|]. Z.div_mod_to_equations. lia.
Qed.

(** Reading one entry. *)
Lemma wp_read_dirent c dp bs V i off s Q : c.1.2 dp = i -> disk_ok sb V -> inode_rep sb V i -> (length bs + 1 < nbuf)%nat -> fs_at T c bs ∅ V s ->
  0 <= off -> off + 16 <= i_size i -> (forall s', fs_at T c bs ∅ V s' -> Q (16, frange V i off 16) s') ->
  wp (readi (tn_pid T) me dp KernDst off sizeof_dirent) Q s.
Proof.
  intros Hi HV HR Hb Hs Ho Hmax HQ. pose proof (ir_size _ _ _ HR) as Hsz. pose proof max_bytes as HM. unfold sizeof_dirent.
  eapply (wp_readi T sb me Hly KernDst (fun _ w => w = c.2)); [apply kern_dst_takes|done|exact Hi|done|done|done|exact Hs|lia|lia|lia|].
  intros u s' Hs'. cbv zeta. rewrite Z.min_l by lia. intros ->. rewrite with_user_id in Hs'. by apply HQ.
Qed.

Lemma dirlookup_step_spec c dp bs V i name k s Q : c.1.2 dp = i -> disk_ok sb V -> dir_rep V i -> (length name <= 1024)%nat -> (length bs + 1 < nbuf)%nat ->
  fs_at T c bs ∅ V s -> 0 <= k <= i_size i / 16 -> Forall (other (cname name)) (take (Z.to_nat k) (dents V i)) ->
  (forall s', fs_at T c bs ∅ V s' -> k = i_size i / 16 -> Q (inr None) s') ->
  (forall s', fs_at T c bs ∅ V s' -> k < i_size i / 16 -> Forall (other (cname name)) (take (Z.to_nat (k + 1)) (dents V i)) -> Q (inl (16 * (k + 1))) s') ->
  (forall s' inum, fs_at T c bs ∅ V s' -> dir_map V i !! cname name = Some inum -> k < i_size i / 16 ->
     wp (iget ROOTDEV inum) (fun ip => Q (inr (Some (ip, 16 * k)))) s') ->
  wp (dirlookup_step (tn_pid T) me dp name (16 * k)) Q s.
Proof.
  intros Hi HV [HR Hty Hsz] Hnm Hb Hs Hk Ho HNone HNext HFound. pose proof (ir_size _ _ _ HR) as Hmx. pose proof max_bytes as HM.
  assert (16 * (i_size i / 16) = i_size i) as Hdiv by (pose proof (Z.div_mod (i_size i) 16); lia).
  unfold dirlookup_step. eapply wp_get_inode; [exact Hs|]. rewrite Hi. destruct (Z.leb_spec (i_size i) (16 * k)).
  { wp_step. apply HNone; [done|lia]. }
  wp_step. eapply wp_read_dirent; [exact Hi|done|done|done|exact Hs|lia|lia|]. intros s1 H1. cbn [fst snd]. change (16 =? sizeof_dirent) with true. cbn [negb].
  assert (dents V i !! Z.to_nat k = Some (frange V i (16 * k) 16)) as Hl by (apply lookup_dents; lia). set (e := frange V i (16 * k) 16) in *.
  assert (take (Z.to_nat (k + 1)) (dents V i) = take (Z.to_nat k) (dents V i) ++ [e]) as Et.
  { replace (Z.to_nat (k + 1)) with (S (Z.to_nat k)) by lia. by apply take_S_r. }
  assert (u32 (16 * k + sizeof_dirent) = 16 * (k + 1)) as Eu by (unfold sizeof_dirent; rewrite u32_small; lia).
  destruct (Z.eqb_spec (de_inum e) 0) as [E0|E0].
  { wp_step. rewrite Eu. apply HNext; [done|lia|]. rewrite Et. apply Forall_app. split; [done|]. apply Forall_singleton. by left. }
  destruct (Z.eqb_spec (namecmp name (de_name e)) 0) as [En|En].
  - rewrite (ir_dev _ _ _ HR). apply namecmp_0 in En; [|done]. wp_step. eapply wp_mono; [apply (HFound s1 (de_inum e)); [done| |lia]|].
    + unfold dir_map. rewrite (dmap_skip _ (Z.to_nat k)) by (rewrite ?length_dents; (done || lia)). rewrite (drop_S _ e (Z.to_nat k)) by done. cbn.
      rewrite (proj2 (Z.eqb_neq _ 0)) by done. by rewrite En, lookup_insert_eq.
    + intros ip s2 Hq. wp_step. exact Hq.
  - wp_step. rewrite Eu. apply HNext; [done|lia|]. rewrite Et. apply Forall_app. split; [done|]. apply Forall_singleton. right.
    intros En'. apply En, namecmp_0; [done|]. by symmetry.
Qed.

(** dirlookup is the lookup of the map, followed by iget. *)
Lemma wp_dirlookup c dp bs V i name s Q : c.1.2 dp = i -> disk_ok sb V -> dir_rep V i -> (length name <= 1024)%nat -> (length bs + 1 < nbuf)%nat ->
  fs_at T c bs ∅ V s ->
  (forall s', fs_at T c bs ∅ V s' -> dir_map V i !! cname name = None -> Q None s') ->
  (forall s' inum off, fs_at T c bs ∅ V s' -> dir_map V i !! cname name = Some inum -> 0 <= off < i_size i -> wp (iget ROOTDEV inum) (fun ip => Q (Some (ip, off))) s') ->
  wp (dirlookup (tn_pid T) me dp name) Q s.
Proof.
  intros Hi HV HD Hnm Hb Hs HNone HFound. pose proof HD as [HR Hty Hsz]. pose proof (ir_size _ _ _ HR) as Hmx.
  assert (16 * (i_size i / 16) = i_size i) as Hdiv by (pose proof (Z.div_mod (i_size i) 16); lia).
  unfold dirlookup. eapply wp_get_inode; [exact Hs|]. rewrite Hi, Hty. change (T_DIR =? T_DIR) with true. cbn [negb]. change sizeof_dirent with 16.
  apply (wp_loop (fun off s' => fs_at T c bs ∅ V s' /\ exists k, off = 16 * k /\ 0 <= k <= i_size i / 16 /\ Forall (other (cname name)) (take (Z.to_nat k) (dents V i)))
    (fun off _ => Z.to_nat ((i_size i - off) / 16))).
  - intros off s1 (H1 & k & -> & Hk & Ho). eapply (dirlookup_step_spec c dp bs V i name k); try done.
    + intros s' Hs' ->. apply HNone; [done|]. unfold dir_map. rewrite (dmap_skip _ (Z.to_nat (i_size i / 16))) by (rewrite ?length_dents; (done || lia)).
      rewrite drop_ge by (rewrite length_dents; lia). done.
    + intros s' Hs' Hlt Ho'. split; [split; [done|]; exists (k + 1); split; [done|]; split; [lia|done]|].
      replace (i_size i - 16 * (k + 1)) with ((i_size i / 16 - (k + 1)) * 16) by lia. replace (i_size i - 16 * k) with ((i_size i / 16 - k) * 16) by lia.
      rewrite !Z.div_mul by done. lia.
    + intros s' inum Hs' Hm Hlt. apply HFound; [done|done|lia].
  - split; [done|]. exists 0. split; [done|]. split; [lia|]. by rewrite take_0.
  - rewrite Z.sub_0_r. lia.
Qed.

(** *** Adding an entry *)

Lemma fcontent_length V i : length (fcontent V i) = Z.to_nat (i_size i).
Proof. apply length_frange. Qed.
Lemma dents_lookup V i k : dents V i !! k = if decide (k < Z.to_nat (i_size i / 16))%nat then Some (take 16 (drop (16 * k) (fcontent V i))) else None.
Proof.
  case_decide as Hk.
  - pose proof (dents_content V i (Z.of_nat k) ltac:(lia)) as E. rewrite Nat2Z.id in E. rewrite E. do 3 f_equal. lia.
  - apply lookup_ge_None. rewrite length_dents. lia.
Qed.

(** Pieces of a list in which one piece is replaced or added. *)
Lemma piece_same {A} (l e : list A) k : (16 * k <= length l)%nat -> length e = 16%nat -> take 16 (drop (16 * k) (splice l (16 * k) e)) = e.
Proof.
  intros Hk He. unfold splice. assert (length (take (16 * k) l) = (16 * k)%nat) as Lt by (rewrite length_take; lia).
  rewrite drop_app_ge, Lt, Nat.sub_diag, drop_0 by lia. by rewrite take_app_length' by lia.
Qed.
Lemma piece_other {A} (l e : list A) k j : (16 * k <= length l)%nat -> length e = 16%nat -> j <> k -> (16 * j + 16 <= length l)%nat ->
  take 16 (drop (16 * j) (splice l (16 * k) e)) = take 16 (drop (16 * j) l).
Proof.
  intros Hk He Hj Hl. unfold splice. assert (length (take (16 * k) l) = (16 * k)%nat) as Lt by (rewrite length_take; lia). destruct (decide (j < k)%nat).
  - rewrite drop_app_le by lia. rewrite take_app_le by (rewrite length_drop; lia). rewrite skipn_firstn_comm, take_take. f_equal. lia.
  - rewrite drop_app_ge, Lt by lia. rewrite drop_app_ge by lia. rewrite drop_drop. do 2 f_equal. lia.
Qed.

Lemma dents_set V i V' i' k e : i_size i mod 16 = 0 -> 0 <= i_size i -> (k < Z.to_nat (i_size i / 16))%nat -> length e = 16%nat -> i_size i' = i_size i ->
  fcontent V' i' = splice (fcontent V i) (16 * k) e -> dents V' i' = <[k := e]> (dents V i).
Proof.
  intros Hm Hs Hk He Es Ec. apply list_eq. intros j. assert (Z.of_nat (length (fcontent V i)) = 16 * (i_size i / 16)) as Hl.
  { rewrite fcontent_length. Z.div_mod_to_equations. lia. }
  rewrite dents_lookup, Es, Ec. destruct (decide (j = k)) as [->|Hne].
  - rewrite decide_True, list_lookup_insert_eq by (rewrite ?length_dents; done). rewrite piece_same by lia. done.
  - rewrite list_lookup_insert_ne by done. rewrite dents_lookup. case_decide; [|done]. by rewrite piece_other by lia.
Qed.
Lemma dents_add V i V' i' e : i_size i mod 16 = 0 -> 0 <= i_size i -> length e = 16%nat -> i_size i' = i_size i + 16 ->
  fcontent V' i' = splice (fcontent V i) (16 * Z.to_nat (i_size i / 16)) e -> dents V' i' = dents V i ++ [e].
Proof.
  intros Hm Hs He Es Ec. apply list_eq. intros j. assert (Z.of_nat (length (fcontent V i)) = 16 * (i_size i / 16)) as Hl.
  { rewrite fcontent_length. Z.div_mod_to_equations. lia. }
  assert ((i_size i + 16) / 16 = i_size i / 16 + 1) as Ed by (replace (i_size i + 16) with (i_size i + 1 * 16) by lia; by rewrite Z.div_add).
  rewrite dents_lookup, Es, Ec, Ed. destruct (decide (j < Z.to_nat (i_size i / 16))%nat) as [Hj|Hj].
  - rewrite decide_True by lia. rewrite lookup_app_l by (rewrite length_dents; lia). rewrite dents_lookup, decide_True by done. by rewrite piece_other by lia.
  - rewrite lookup_app_r, length_dents by (rewrite length_dents; lia). case_decide as Hj'.
    + assert (j = Z.to_nat (i_size i / 16)) as -> by lia. rewrite Nat.sub_diag. cbn [lookup list_lookup]. rewrite piece_same by lia. done.
    + symmetry. apply lookup_ge_None. cbn. lia.
Qed.

Lemma splice_nil {A} (l : list A) o : splice l o [] = l.
Proof. unfold splice. cbn. rewrite Nat.add_0_r. apply take_drop. Qed.
Lemma dirent_bytes inum name : (length name <= 1024)%nat -> Forall byte_ok name -> Forall byte_ok (mk_dirent inum name).
Proof.
  intros Hn Hb. unfold mk_dirent. apply Forall_app. split; [apply le_enc_bytes|]. apply mread_bytes. intros a.
  assert (mem_ok (mem_of name [])) as Hm by (unfold mem_of; repeat apply mwrite_ok; try done; intros x; unfold byte_ok; lia).
  unfold DIRSIZ. rewrite (strncpy_at (mem_of name []) 2048 0 14 _ a ltac:(lia) (upto_nul_prefix (mem_of name []) 14 0)) by lia.
  case_match; [case_match; [apply Hm|unfold byte_ok; lia]|apply Hm].
Qed.

(** The slot dirlink uses: the first free entry, or the end. *)
Definition free_slot V i (k : Z) : Prop :=
  k = i_size i / 16 \/ 0 <= k < i_size i / 16 /\ exists e, dents V i !! Z.to_nat k = Some e /\ de_inum e = 0.
Lemma dirlink_scan c dp bs V i s Q : c.1.2 dp = i -> disk_ok sb V -> dir_rep V i -> (length bs + 1 < nbuf)%nat -> fs_at T c bs ∅ V s ->
  (forall s' k, fs_at T c bs ∅ V s' -> free_slot V i k -> Q (16 * k) s') ->
  wp (loop (S (S (Z.to_nat (i_size i / 16)))) (dirlink_step (tn_pid T) me dp) 0) Q s.
Proof.
  intros Hi HV [HR Hty Hsz] Hb Hs HQ. pose proof (ir_size _ _ _ HR) as Hmx.
  assert (16 * (i_size i / 16) = i_size i) as Hdiv by (pose proof (Z.div_mod (i_size i) 16); lia).
  apply (wp_loop (fun off s' => fs_at T c bs ∅ V s' /\ exists k, off = 16 * k /\ 0 <= k <= i_size i / 16) (fun off _ => Z.to_nat ((i_size i - off) / 16))).
  - intros off s1 (H1 & k & -> & Hk). unfold dirlink_step. eapply wp_get_inode; [exact H1|]. rewrite Hi. destruct (Z.leb_spec (i_size i) (16 * k)).
    { wp_step. apply HQ; [done|]. left. lia. }
    wp_step. eapply wp_read_dirent; [exact Hi|done|done|done|exact H1|lia|lia|]. intros s2 H2. cbn [fst snd]. change (16 =? sizeof_dirent) with true. cbn [negb].
    destruct (Z.eqb_spec (de_inum (frange V i (16 * k) 16)) 0) as [E|E]; wp_step.
    + apply HQ; [done|]. right. split; [lia|]. eexists. split; [apply lookup_dents; lia|done].
    + change (16 * k + sizeof_dirent) with (16 * k + 16). split; [split; [done|]; exists (k + 1); split; lia|].
      replace (i_size i - (16 * k + 16)) with ((i_size i / 16 - (k + 1)) * 16) by lia. replace (i_size i - 16 * k) with ((i_size i / 16 - k) * 16) by lia.
      rewrite !Z.div_mul by done. lia.
  - split; [done|]. exists 0. split; [done|lia].
  - rewrite Z.sub_0_r. lia.
Qed.

(** Where the entry goes, the map gains it. *)
Lemma link_map V i V' i' k inum name : inode_rep sb V i -> i_size i mod 16 = 0 -> free_slot V i k -> (length name <= 1024)%nat -> 0 < inum < 65536 ->
  dir_map V i !! cname name = None -> i_size i' = Z.max (i_size i) (16 * k + 16) ->
  fcontent V' i' = splice (fcontent V i) (Z.to_nat (16 * k)) (mk_dirent inum name) -> dir_map V' i' = <[cname name := inum]> (dir_map V i) /\ i_size i' mod 16 = 0.
Proof.
  intros HR Hm Hk Hn Hin Hnone Es Ec. pose proof (ir_size _ _ _ HR) as Hsz. pose proof (length_mk_dirent inum name) as Hl. unfold dir_map in *.
  assert (16 * (i_size i / 16) = i_size i) as Hdiv by (pose proof (Z.div_mod (i_size i) 16); lia).
  pose proof (mk_dirent_inum inum name ltac:(lia)) as E1. pose proof (mk_dirent_name inum name Hn) as E2.
  destruct Hk as [->|(Hk & e & He & H0)].
  - rewrite (dents_add V i V' i' (mk_dirent inum name)); [|done|lia|done|lia|rewrite Ec; f_equal; lia].
    rewrite (dmap_app _ _ (cname name)), E1 by (try rewrite E1; (done || lia)). split; [done|]. rewrite Es, Z.max_r by lia. Z.div_mod_to_equations. lia.
  - rewrite (dents_set V i V' i' (Z.to_nat k) (mk_dirent inum name)); [|done|lia|lia|done|lia|rewrite Ec; f_equal; lia].
    rewrite (dmap_put _ _ e _ (cname name)), E1 by (try rewrite E1; (done || lia)). split; [done|]. rewrite Es, Z.max_l by lia. done.
Qed.

(** The state after dirlink stored the entry, or could not. *)
Definition linked c (dp : nat) bs V i (P : (Z -> list Z) -> inode -> Prop) (s : fs W) : Prop := exists V' i' bs',
  fs_at T (set_ctl dp i' c) bs' ∅ V' s /\ (length bs' <= length bs + 7)%nat /\ updates sb V i V' i' /\ dir_rep V' i' /\ P V' i'.

Lemma dents_same V i V' i' : i_size i' = i_size i -> fcontent V' i' = fcontent V i -> dents V' i' = dents V i.
Proof. intros Es Ec. apply list_eq. intros k. by rewrite !dents_lookup, Es, Ec. Qed.

Lemma link_write `{!Writing T} c (dp : nat) bs V i k name inum s : c.1.1.1 = sb -> c.1.2 dp = i -> disk_ok sb V -> dir_rep V i -> (length bs + 6 < nbuf)%nat ->
  fs_at T c bs ∅ V s -> (length name <= 1024)%nat -> Forall byte_ok name -> 0 < inum < 65536 -> i_size i + 16 <= MAXFILE * BSIZE -> free_slot V i k ->
  dir_map V i !! cname name = None ->
  wp (writei (tn_pid T) me dp (KernSrc (mk_dirent inum name)) (16 * k) sizeof_dirent) (fun r s' =>
    r = 16 /\ linked c dp bs V i (fun V' i' => dir_map V' i' = <[cname name := inum]> (dir_map V i)) s' \/
    r = 0 /\ linked c dp bs V i (fun V' i' => dir_map V' i' = dir_map V i /\ disk_full sb V') s') s.
Proof.
  intros Hsb Hi HV [HR Hty Hsz] Hb Hs Hn Hnb Hin Hmax Hk Hnone. pose proof (ir_size _ _ _ HR) as Hmx. set (data := mk_dirent inum name).
  assert (length data = 16%nat) as Hl by apply length_mk_dirent. assert (0 <= 16 * k <= i_size i) as Hoff by (destruct Hk as [->|[Hk _]]; Z.div_mod_to_equations; lia).
  assert (blocks (16 * k) 16 <= 1)%nat as Hbl.
  { unfold blocks, BSIZE. change (16 =? 0) with false. cbv iota. Z.div_mod_to_equations. lia. }
  change sizeof_dirent with (Z.of_nat 16). rewrite <- Hl. eapply wp_mono.
  { apply (wp_writei T sb me Hly (KernSrc data) data (fun w => w = c.2) c dp bs V i (16 * k)); try done; try lia.
    - apply kern_src_gives.
    - by apply dirent_bytes.
    - rewrite Hl. change (Z.of_nat 16) with 16. lia. }
  intros r s' (u & V' & i' & bs' & -> & H1 & Hlen & Hr & Hf & Es & Ec & HU). rewrite Hl in *. change (Z.of_nat 16) with 16 in *.
  change (with_user c.2 (set_ctl dp i' c)) with (set_ctl dp i' c) in H1. destruct (up_fields _ _ _ _ _ HU) as (_ & _ & _ & _ & _ & F6 & _).
  assert (r = 16 \/ r = 0 /\ disk_full sb V') as [->|[-> Hfull]].
  { destruct Hf as [|[Hf [|Ha]]]; [by left|by right|]. destruct (decide (r = 0)); [by right|left]. unfold BSIZE in Ha. Z.div_mod_to_equations. lia. }
  - left. split; [done|]. rewrite take_ge in Ec by lia. destruct (link_map V i V' i' k inum name) as [Hm Hm']; [done..|].
    exists V', i', bs'. split; [done|]. split; [lia|]. split; [done|]. split; [|done]. split; [apply (up_rep _ _ _ _ _ HU)|by rewrite F6|done].
  - right. split; [done|]. rewrite take_0, splice_nil in Ec. exists V', i', bs'. split; [done|]. split; [lia|]. split; [done|].
    assert (i_size i' = i_size i) as Es' by lia. split; [split; [apply (up_rep _ _ _ _ _ HU)|by rewrite F6|by rewrite Es']|]. split; [|done].
    unfold dir_map. by rewrite (dents_same V i V' i').
Qed.

(** dirlink is the insertion of an absent name; a name that is present is
    refused. *)
Lemma wp_dirlink `{!Writing T} fuel c (dp : nat) bs V i name inum s : c.1.1.1 = sb -> c.1.1.2 = false -> c.1.2 dp = i -> disk_ok sb V -> dir_rep V i ->
  (length bs + 6 < nbuf)%nat -> fs_at T c bs ∅ V s -> (length name <= 1024)%nat -> Forall byte_ok name -> 0 < inum < 65536 -> i_size i + 16 <= MAXFILE * BSIZE ->
  (forall j, (j < ninode)%nat -> 0 <= i_ref (c.1.2 j) < 2 ^ 31 - 1) -> (forall x, dir_map V i !! cname name = Some x -> iroom c.1.2 x) ->
  wp (dirlink (tn_pid T) me fuel dp name inum) (fun r s' => match dir_map V i !! cname name with
    | Some _ => r = -1 /\ exists c', calm c c' /\ fs_at T c' bs ∅ V s'
    | None => r = 0 /\ linked c dp bs V i (fun V' i' => dir_map V' i' = <[cname name := inum]> (dir_map V i)) s' \/
              r = -1 /\ linked c dp bs V i (fun V' i' => dir_map V' i' = dir_map V i /\ disk_full sb V') s' end) s.
Proof.
  intros Hsb Hlk Hi HV HD Hb Hs Hn Hnb Hin Hmax Hrefs Hroom. unfold dirlink. wp_step.
  eapply (wp_dirlookup c dp bs V i name); [exact Hi|done|done|done|lia|exact Hs|..].
  - intros s1 H1 Hnone. eapply wp_get_inode; [exact H1|]. rewrite Hi, Hnone. change sizeof_dirent with 16 at 1. wp_step.
    eapply (dirlink_scan c dp bs V i); [exact Hi|done|done|lia|exact H1|]. intros s2 k H2 Hk. wp_step.
    eapply wp_mono; [by apply (link_write c dp bs V i k name inum)|]. intros r s3 [[-> H3]|[-> H3]]; change sizeof_dirent with 16; cbn [Z.eqb negb]; wp_step; auto.
  - intros s1 x off H1 Hx Hoff. rewrite Hx. eapply wp_iget; [exact Hlk|exact H1|by apply Hroom|intros j Hj; apply Hrefs; done|].
    intros ip i' s2 Hg H2. destruct (calm_ref c x ip i' Hg) as (Hr1 & Hv1 & Hcalm). wp_step.
    eapply (wp_iput T fuel (set_ctl ip i' c)); [exact Hlk|by apply set_ctl_inode|exact H2| |intros E; left; by apply Hv1|].
    + split; [done|]. destruct Hg as (Hip & _ & _ & _ & [(_ & _ & _ & ->)|(_ & _ & -> & _)]); [|lia]. cbn. specialize (Hrefs ip Hip). lia.
    + intros s3 H3. rewrite set_ctl_set in H3. wp_step. split; [done|]. by eexists.
Qed.
End Dir.

(** C5: A directory is a finite map from names to inode numbers.  Within a
    transaction, on a locked directory, dirlookup takes a reference to the
    inode that the map gives for the name (names compared up to their NUL or
    DIRSIZ bytes) and finds nothing for the other names; dirlink of a name that is
    present fails and leaves every inode in use as it was; dirlink of
    an absent name inserts it in the map, reusing a free entry or extending
    the directory, or fails with the disk full and the map unchanged.  Blocks
    of other files and all other inodes stay as they are ([updates]). *)
Theorem directory_is_map {W} `{UserMem W} T `{!Writing T} sb me fuel (c : control W) (dp : nat) bs V i name inum s : layout T sb ->
  c.1.1.1 = sb -> c.1.1.2 = false -> c.1.2 dp = i -> disk_ok sb V -> dir_rep sb V i -> (length bs + 6 < nbuf)%nat -> fs_at T c bs ∅ V s ->
  (length name <= 1024)%nat -> Forall byte_ok name -> 0 < inum < 65536 -> i_size i + 16 <= MAXFILE * BSIZE ->
  (forall j, (j < ninode)%nat -> 0 <= i_ref (c.1.2 j) < 2 ^ 31 - 1) -> (forall x, dir_map V i !! cname name = Some x -> iroom c.1.2 x) ->
  wp (dirlookup (tn_pid T) me dp name) (fun r s' => match dir_map V i !! cname name with
    | Some x => exists ip off i', r = Some (ip, off) /\ igot c.1.2 x ip i' /\ fs_at T (set_ctl ip i' c) bs ∅ V s'
    | None => r = None /\ fs_at T c bs ∅ V s' end) s /\
  wp (dirlink (tn_pid T) me fuel dp name inum) (fun r s' => match dir_map V i !! cname name with
    | Some _ => r = -1 /\ exists c', calm c c' /\ fs_at T c' bs ∅ V s'
    | None => r = 0 /\ linked T sb c dp bs V i (fun V' i' => dir_map V' i' = <[cname name := inum]> (dir_map V i)) s' \/
              r = -1 /\ linked T sb c dp bs V i (fun V' i' => dir_map V' i' = dir_map V i /\ disk_full sb V') s' end) s.
Proof.
  intros Hly Hsb Hlk Hi HV HD Hb Hs Hn Hnb Hin Hmax Hrefs Hroom. split; [|by apply wp_dirlink].
  eapply (wp_dirlookup T sb me Hly c dp bs V i name); [exact Hi|done|done|done|lia|exact Hs|..].
  - intros s1 H1 Hnone. by rewrite Hnone.
  - intros s1 x off H1 Hx Hoff. rewrite Hx. eapply wp_iget; [exact Hlk|exact H1|by apply Hroom|intros j Hj; apply Hrefs; done|].
    intros ip i' s2 Hg H2. by exists ip, off, i'.
Qed.

Module DirWitness.
#[export] Instance no_user : UserMem unit := {
  u_copyout _ _ _ := ret (-1); u_copyin _ _ _ := ret (-1, []); u_killed _ _ := false }.
Definition fs2 : fs unit := mkFs log2 sb1 false (fun i => match i with O => small_dir | _ => empty_file end) tt.
Lemma fs2_at : fs_at txn1 (ctl fs2) [] ∅ disk1 fs2.
Proof. split; [done|exact log2_txn]. Qed.
Example small_dir_map : dir_map disk1 small_dir = {[ [46] := 2; [102] := 1 ]}.
Proof. vm_compute. reflexivity. Qed.

(** Adding the name "g" for inode 1. *)
Lemma directory_is_map_witness : let i := small_dir in let name := [103] in let c := ctl fs2 in
  wp (dirlookup 1 0 0 name) (fun r s' => match dir_map disk1 i !! cname name with
    | Some x => exists ip off i', r = Some (ip, off) /\ igot c.1.2 x ip i' /\ fs_at txn1 (set_ctl ip i' c) [] ∅ disk1 s'
    | None => r = None /\ fs_at txn1 c [] ∅ disk1 s' end) fs2 /\
  wp (dirlink 1 0 1 0 name 1) (fun r s' => match dir_map disk1 i !! cname name with
    | Some _ => r = -1 /\ exists c', calm c c' /\ fs_at txn1 c' [] ∅ disk1 s'
    | None => r = 0 /\ linked txn1 sb1 c 0 [] disk1 i (fun V' i' => dir_map V' i' = <[cname name := 1]> (dir_map disk1 i)) s' \/
              r = -1 /\ linked txn1 sb1 c 0 [] disk1 i (fun V' i' => dir_map V' i' = dir_map disk1 i /\ disk_full sb1 V') s' end) fs2.
Proof.
  cbv zeta. apply (directory_is_map txn1 sb1 0 1 (ctl fs2) 0 [] disk1 small_dir [103] 1 fs2); try reflexivity.
  - apply layout1.
  - exact disk1_ok.
  - split; [exact dir1_rep|reflexivity|reflexivity].
  - unfold nbuf, NBUF, MAXOPBLOCKS. cbn. lia.
  - exact fs2_at.
  - cbn. lia.
  - repeat constructor; unfold byte_ok; lia.
  - lia.
  - rewrite max_bytes. cbn. lia.
  - intros [|j] _; cbn; lia.
  - intros x. rewrite small_dir_map. vm_compute. discriminate.
Defined.
End DirWitness.
