(* ===== verification/FsPath.v ===== *)
(** * Path names (kernel/fs.c: namex, namei, nameiparent)

    The directories of a disk as a graph whose edges are the maps of
    [FsDir]; resolving a path is a walk along its elements.  namei follows
    the walk through the table of inodes in memory, reading from disk what is
    not there, and leaves every reference count as it was but for the
    reference it returns. *)

From Stdlib Require Import ZArith Lia.
From stdpp Require Import gmap.
From S2P Require Import Prelude Mem StringC Params Env Sleeplock Bio Log Fs FsPure FsTxn FsAlloc FsInode FsFile FsWrite FsLock SmallDisk FsDir.

(** ** The elements of a path *)

Fixpoint split_slash (p : list Z) : list (list Z) :=
  match p with
  | [] => [[]]
  | x :: p => if x =? slash then [] :: split_slash p
              else match split_slash p with e :: es => (x :: e) :: es | [] => [[x]] end
  end.
Definition path_elems (p : list Z) : list (list Z) := List.filter (fun e => bool_decide (e <> [])) (split_slash p).

Lemma split_app e r : slash ∉ e -> r = [] \/ head r = Some slash -> split_slash (e ++ r) = e :: tail (split_slash r).
Proof.
  intros He Hr. induction e as [|x e IH]; cbn.
  - destruct Hr as [->|Hr]; [done|]. destruct r as [|y r]; [done|]. cbn in *. injection Hr as ->. done.
  - apply not_elem_of_cons in He as [Hx He]. rewrite (proj2 (Z.eqb_neq x slash)) by done. by rewrite IH.
Qed.
Lemma elems_slashes p : path_elems (skip_slashes p) = path_elems p.
Proof. induction p as [|x p IH]; [done|]. cbn [skip_slashes]. destruct (Z.eqb_spec x slash) as [->|]; [rewrite IH; done|done]. Qed.

Lemma upto_nul_app n e r : (length e < n)%nat -> upto_nul n (e ++ 0 :: r) = upto_nul n e.
Proof.
  revert n. induction e as [|x e IH]; intros [|n] Hn; cbn in *; try lia; [done|]. destruct (x =? 0); [done|]. f_equal. apply IH. lia.
Qed.
Lemma upto_nul_take n e : upto_nul n (take n e) = upto_nul n e.
Proof. revert e. induction n as [|n IH]; intros [|x e]; cbn; [done..|]. destruct (x =? 0); [done|]. f_equal. apply IH. Qed.
Lemma holds_cname buf e : holds_name buf e -> cname buf = cname e.
Proof.
  unfold holds_name, cname. case_decide as Hl; intros Hb.
  - rewrite <- (take_drop (S (length e)) buf), Hb, <- app_assoc. cbn. by apply upto_nul_app.
  - rewrite Hb. apply upto_nul_take.
Qed.

(** skipelem takes the elements off one by one. *)
Lemma skipelem_elems path name : length name = Z.to_nat DIRSIZ ->
  match path_elems path with
  | [] => skipelem path name = None
  | e :: es => exists rest buf, skipelem path name = Some (rest, buf) /\ length buf = Z.to_nat DIRSIZ /\ cname buf = cname e /\
      path_elems rest = es /\ (length rest < length path)%nat /\ (es = [] -> rest = [])
  end.
Proof.
  intros Hn. assert (forall q, path_elems q = [] -> head q <> Some slash -> q = []) as Hnil.
  { intros [|x q] Hq Hx; [done|]. exfalso. unfold path_elems in Hq. cbn in Hq, Hx. rewrite (proj2 (Z.eqb_neq x slash)) in Hq by congruence. by destruct (split_slash q). } destruct (skip_slashes_spec path) as (n & E & Hh). rewrite <- elems_slashes. set (p := skip_slashes path) in *. destruct p as [|x p'] eqn:Ep.
  { cbn. apply (skipelem_splits path name Hn). exists n. by rewrite E, app_nil_r. }
  pose proof (take_elem_spec (x :: p')) as Ht. destruct (take_elem (x :: p')) as [e r] eqn:Et. destruct Ht as (Hp & He & Hr).
  assert (e <> []) as Hne by (intros ->; cbn in Hp; subst r; destruct Hr as [|Hr]; [done|by apply Hh]).
  destruct (skip_slashes_spec r) as (m & Er & Hhr).
  assert (m = 0%nat -> skip_slashes r = []) as Hm.
  { intros ->. cbn in Er. destruct Hr as [->|Hr]; [done|]. rewrite <- Er in Hhr. done. }
  destruct (proj2 (skipelem_splits path name Hn) n e m (skip_slashes r)) as (buf & Hs & Hlb & Hb); [by rewrite E, Hp, <- Er|done|done|done|done|].
  assert (path_elems (x :: p') = e :: path_elems (skip_slashes r)) as ->.
  { rewrite elems_slashes, Hp. unfold path_elems. rewrite split_app by done. cbn [List.filter]. rewrite bool_decide_eq_true_2 by done. f_equal.
    destruct Hr as [->|Hr]; [done|]. destruct r as [|y r]; [done|]. cbn in Hr. injection Hr as ->. cbn [split_slash]. by rewrite Z.eqb_refl. }
  exists (skip_slashes r), buf. split; [done|]. split; [done|]. split; [by apply holds_cname|]. split; [done|]. split; [|intros Hq; by apply Hnil].
  pose proof (f_equal length E) as L1. pose proof (f_equal length Hp) as L2. pose proof (f_equal length Er) as L3. rewrite length_app in L1, L2, L3.
  destruct e; [done|]. cbn in *. lia.
Qed.

(** ** The table of inodes as counts of references *)

Definition cnt (n : Z) (i : inode) : Z := if bool_decide (0 < i_ref i /\ i_inum i = n) then i_ref i else 0.
Fixpoint csum (f : nat -> inode) (n : Z) (l : list nat) : Z :=
  match l with [] => 0 | j :: l => cnt n (f j) + csum f n l end.
(** The references to inode [n]. *)
Definition rcount (f : nat -> inode) (n : Z) : Z := csum f n (seq 0 ninode).
(** The inodes in use. *)
Definition in_use (f : nat -> inode) : gset Z := list_to_set ((fun j => i_inum (f j)) <$> List.filter (fun j => 0 <? i_ref (f j)) (seq 0 ninode)).

Lemma cnt_nonneg n i : 0 <= cnt n i.
Proof. unfold cnt. case_bool_decide; lia. Qed.
Lemma csum_nonneg f n l : 0 <= csum f n l.
Proof. induction l as [|j l IH]; cbn; [lia|]. pose proof (cnt_nonneg n (f j)). lia. Qed.
Lemma csum_out f n l ip i : ip ∉ l -> csum (upd f ip i) n l = csum f n l.
Proof.
  induction l as [|j l IH]; intros Hn; [done|]. cbn. apply not_elem_of_cons in Hn as [Hj Hn]. rewrite IH by done. by rewrite upd_ne.
Qed.
Lemma csum_upd f n l ip i : NoDup l -> ip ∈ l -> csum (upd f ip i) n l = csum f n l - cnt n (f ip) + cnt n i.
Proof.
  induction l as [|j l IH]; intros Hd Hin; [by apply elem_of_nil in Hin|]. apply NoDup_cons in Hd as [Hj Hd]. cbn.
  apply elem_of_cons in Hin as [->|Hin]; [rewrite csum_out, upd_eq by done; lia|]. rewrite IH, upd_ne by (done || by intros ->). lia.
Qed.
Lemma rcount_upd f n ip i : (ip < ninode)%nat -> rcount (upd f ip i) n = rcount f n - cnt n (f ip) + cnt n i.
Proof. intros Hip. apply csum_upd; [apply NoDup_seq|]. apply elem_of_seq. lia. Qed.
Lemma rcount_ge f n j : (j < ninode)%nat -> cnt n (f j) <= rcount f n.
Proof.
  intros Hj. assert (j ∈ seq 0 ninode) as Hin by (apply elem_of_seq; lia). unfold rcount. induction (seq 0 ninode) as [|k l IH]; [by apply elem_of_nil in Hin|].
  cbn. pose proof (csum_nonneg f n l). pose proof (cnt_nonneg n (f k)). apply elem_of_cons in Hin as [->|Hin]; [lia|]. specialize (IH Hin). lia.
Qed.
Lemma rcount_pos f n : 0 < rcount f n <-> exists j, (j < ninode)%nat /\ 0 < i_ref (f j) /\ i_inum (f j) = n.
Proof.
  split.
  - unfold rcount. intros Hr. assert (forall l, 0 < csum f n l -> exists j, j ∈ l /\ 0 < i_ref (f j) /\ i_inum (f j) = n) as Hx.
    { induction l as [|k l IH]; cbn; [lia|]. intros Hp. unfold cnt in Hp. case_bool_decide as Hb.
      - exists k. split; [apply list_elem_of_here|done].
      - destruct IH as (j & ? & ?); [lia|]. exists j. split; [by apply list_elem_of_further|done]. }
    destruct (Hx _ Hr) as (j & Hj & ?). exists j. apply elem_of_seq in Hj. split; [lia|done].
  - intros (j & Hj & Hr & Hn). pose proof (rcount_ge f n j Hj) as Hg. unfold cnt in Hg. rewrite bool_decide_eq_true_2 in Hg by done. lia.
Qed.
Lemma in_use_count f n : n ∈ in_use f <-> 0 < rcount f n.
Proof.
  rewrite rcount_pos. unfold in_use. rewrite elem_of_list_to_set, list_elem_of_fmap. split.
  - intros (j & -> & Hj). apply list_elem_of_In, List.filter_In in Hj as [Hj Hr]. apply list_elem_of_In, elem_of_seq in Hj. exists j. split; [lia|]. split; [lia|done].
  - intros (j & Hj & Hr & <-). exists j. split; [done|]. apply list_elem_of_In, List.filter_In. split; [apply list_elem_of_In, elem_of_seq; lia|lia].
Qed.

Lemma size_union_le (X Y : gset Z) : (size (X ∪ Y) <= size X + size Y)%nat.
Proof. rewrite size_union_alt. pose proof (subseteq_size (Y ∖ X) Y ltac:(set_solver)). lia. Qed.
Lemma size_list_le (l : list Z) : (size (list_to_set l : gset Z) <= length l)%nat.
Proof.
  induction l as [|x l IH]; cbn; [done|]. pose proof (size_union_le {[x]} (list_to_set l)). rewrite size_singleton in *. lia.
Qed.

(** Fewer inodes in use than entries: there is room for another. *)
Lemma room f x : (forall j, (j < ninode)%nat -> 0 <= i_ref (f j)) -> (forall j k, (j < ninode)%nat -> (k < ninode)%nat -> 0 < i_ref (f j) -> 0 < i_ref (f k) -> i_inum (f j) = i_inum (f k) -> j = k) ->
  (size (in_use f) < ninode)%nat -> iroom f x.
Proof.
  intros Hr Hu Hs. destruct (decide (Exists (fun j => i_ref (f j) = 0) (seq 0 ninode))) as [He|He].
  - apply Exists_exists in He as (j & Hj & E). apply elem_of_seq in Hj. exists j. split; [lia|]. right. unfold is_empty. by apply Z.eqb_eq.
  - exfalso. assert (forall j, (j < ninode)%nat -> 0 < i_ref (f j)) as Hp.
    { intros j Hj. specialize (Hr j Hj). destruct (decide (i_ref (f j) = 0)) as [E|]; [|lia]. exfalso. apply He, Exists_exists. exists j. split; [apply elem_of_seq; lia|done]. }
    assert (List.filter (fun j => 0 <? i_ref (f j)) (seq 0 ninode) = seq 0 ninode) as Ef.
    { assert (forall l, (forall j, j ∈ l -> 0 < i_ref (f j)) -> List.filter (fun j => 0 <? i_ref (f j)) l = l) as Hl.
      { induction l as [|k l IH]; intros Hk; [done|]. cbn. rewrite (proj2 (Z.ltb_lt _ _)) by (apply Hk, list_elem_of_here). f_equal. apply IH. intros j Hj. by apply Hk, list_elem_of_further. }
      apply Hl. intros j Hj. apply elem_of_seq in Hj. apply Hp. lia. }
    unfold in_use in Hs. rewrite Ef, size_list_to_set, length_fmap, length_seq in Hs; [lia|].
    apply NoDup_alt. intros a b n Ha Hb. rewrite list_lookup_fmap in Ha, Hb.
    destruct (seq 0 ninode !! a) as [ja|] eqn:Ea; [|done]. destruct (seq 0 ninode !! b) as [jb|] eqn:Eb; [|done]. cbn in Ha, Hb.
    apply lookup_seq in Ea as [-> La], Eb as [-> Lb]. cbn in *. apply Hu; [lia|lia|apply Hp; lia|apply Hp; lia|congruence].
Qed.

(** ** Inodes as the disk has them *)

Section Path.
Context {W : Type} `{UserMem W} (T : txn_env) (sb : superblock) (me fuel : nat).
Implicit Types (V : Z -> list Z) (bs : list Z) (c : control W) (i : inode).
Hypothesis Hly : layout T sb.

Definition disk_inode V (inum : Z) : inode :=
  get_dinode (dinode_off inum) (V (IBLOCK inum sb)) (mkInode ROOTDEV inum 0 initsleeplock true 0 0 0 0 0 (fun _ => 0)).
Definition inum_ok (n : Z) : Prop := 0 <= n < sb_ninodes sb.

(** The graph of directories: a directory names allocated inodes only, and
    no inode without a name is in use. *)
Record tree_ok V : Prop := {
  to_disk : disk_ok sb V;
  to_dir : forall n, inum_ok n -> i_type (disk_inode V n) = T_DIR -> dir_rep sb V (disk_inode V n);
  to_name : forall n e x, inum_ok n -> i_type (disk_inode V n) = T_DIR -> dir_map V (disk_inode V n) !! e = Some x -> inum_ok x /\ i_type (disk_inode V x) <> 0;
  to_link : forall n, inum_ok n -> i_type (disk_inode V n) <> 0 -> i_nlink (disk_inode V n) <> 0;
}.

(** The walk. *)
Fixpoint resolve V (n : Z) (es : list (list Z)) : option Z :=
  match es with
  | [] => Some n
  | e :: es => if i_type (disk_inode V n) =? T_DIR
      then match dir_map V (disk_inode V n) !! cname e with Some x => resolve V x es | None => None end
      else None
  end.
(** ... up to the directory of the last element. *)
Fixpoint resolve_parent V (n : Z) (es : list (list Z)) : option (Z * list Z) :=
  match es with
  | [] => None
  | e :: es => if i_type (disk_inode V n) =? T_DIR
      then match es with
           | [] => Some (n, cname e)
           | _ => match dir_map V (disk_inode V n) !! cname e with Some x => resolve_parent V x es | None => None end
           end
      else None
  end.

(** An entry of the table in use. *)
Record live V i : Prop := {
  lv_dev : i_dev i = ROOTDEV;
  lv_inum : inum_ok (i_inum i);
  lv_ok : i_valid i = true -> inode_ok i;
  lv_sync : i_valid i = true -> inode_disk i = dinode_at sb V (i_inum i);
  lv_type : i_type (disk_inode V (i_inum i)) <> 0;
}.

Lemma disk_inode_disk V n : inode_disk (disk_inode V n) = dinode_at sb V n.
Proof. done. Qed.
Lemma inode_disk_eq i j : inode_disk i = inode_disk j -> i_type i = i_type j /\ i_nlink i = i_nlink j /\ i_size i = i_size j /\ forall k, 0 <= k <= NDIRECT -> i_addrs i k = i_addrs j k.
Proof.
  intros E. split; [exact (f_equal (fun x => x.1.1.1.1.1) E)|]. split; [exact (f_equal (fun x => x.1.1.2) E)|]. split; [exact (f_equal (fun x => x.1.2) E)|]. intros k Hk.
  pose proof (f_equal (fun x => x.2 !! Z.to_nat k) E) as Ek. unfold inode_disk, addr_slots in Ek. cbn [snd] in Ek.
  rewrite !list_lookup_fmap, lookup_seqZ_lt in Ek by (unfold NDIRECT in *; lia). apply (inj Some) in Ek. by rewrite Z.add_0_l, Z2Nat.id in Ek by lia.
Qed.
(** Two inodes with the same disk fields are the same directory. *)
Lemma same_dir V i j : inode_disk i = inode_disk j -> i_dev i = i_dev j -> i_inum i = i_inum j -> inode_ok i -> dir_rep sb V j -> dir_rep sb V i /\ dir_map V i = dir_map V j.
Proof.
  intros E Ed En Hok [HR Hty Hsz]. destruct (inode_disk_eq i j E) as (Et & _ & Es & Ea).
  assert (forall k, in_slots k -> slot_of V i k = slot_of V j k) as Hs.
  { intros k Hk. unfold in_slots in Hk. unfold slot_of. rewrite (Ea NDIRECT) by (unfold NDIRECT; lia). destruct (Z.ltb_spec k NDIRECT); [apply Ea; lia|done]. }
  split.
  - destruct HR as [R1 R2 R3 R4 R5 R6 R7]. split; [|congruence|congruence]. split; [congruence|congruence|done|..].
    + intros k Hk. rewrite Hs by done. by apply R4.
    + intros a b Ha Hb. rewrite !Hs by done. by apply R5.
    + by rewrite Es.
    + intros k Hk Hlt. rewrite Es in Hlt. rewrite Hs; [by apply R7|]. unfold in_slots. rewrite max_bytes in R6. unfold BSIZE in *. unfold MAXFILE, NDIRECT, NINDIRECT, BSIZE. change (1024 / 4) with 256. lia.
  - unfold dir_map. f_equal. unfold dents. rewrite Es. apply list_fmap_ext. intros a k Hk. apply list_elem_of_lookup_2, elem_of_seqZ in Hk.
    unfold frange. apply list_fmap_ext. intros b p Hp. apply list_elem_of_lookup_2, elem_of_seqZ in Hp. pose proof (ir_size _ _ _ HR). unfold fbyte. rewrite Hs; [done|].
    assert (0 <= p < MAXFILE * BSIZE) as Hr by (Z.div_mod_to_equations; lia). pose proof (slot_range p Hr). unfold in_slots. lia.
Qed.

Lemma live_loaded V i : tree_ok V -> live V i -> inode_disk (loaded sb V i) = inode_disk (disk_inode V (i_inum i)) /\ inode_ok (loaded sb V i) /\ live V (loaded sb V i).
Proof.
  intros HT [L1 L2 L3 L4 L5]. pose proof (loaded_same sb V i) as (E1 & E2 & E3 & E4 & E5).
  assert (inode_disk (loaded sb V i) = inode_disk (disk_inode V (i_inum i))) as E.
  { destruct (i_valid i) eqn:Ev; [rewrite loaded_valid by done; by apply L4|by apply loaded_disk]. }
  assert (inode_ok (loaded sb V i)) as Hok by (apply loaded_ok; [apply HT|done]).
  split; [done|]. split; [done|]. split; [by rewrite E1|by rewrite E2|by intros _| |by rewrite E2]. intros _. by rewrite E2.
Qed.

(** ** The table during a walk *)

Record table_ok V (lk : option nat) (f : nat -> inode) : Prop := {
  tb_ref : forall j, (j < ninode)%nat -> 0 <= i_ref (f j);
  tb_live : forall j, (j < ninode)%nat -> 0 < i_ref (f j) -> live V (f j);
  tb_lock : forall j, (j < ninode)%nat -> lk <> Some j -> exists p, i_lock (f j) = mkSleeplock false false p;
  tb_held : forall j, lk = Some j -> i_lock (f j) = held_by (tn_pid T);
  tb_uniq : forall j k, (j < ninode)%nat -> (k < ninode)%nat -> 0 < i_ref (f j) -> 0 < i_ref (f k) -> i_inum (f j) = i_inum (f k) -> j = k;
}.
(** How often [n] occurs among the references taken. *)
Fixpoint occ (n : Z) (l : list Z) : Z := match l with [] => 0 | x :: l => (if x =? n then 1 else 0) + occ n l end.
(** The state of the walk: beside the references [l] the table is as it was. *)
Record walking c0 V (lk : option nat) (l : list Z) c : Prop := {
  wk_ctl : c.1.1 = c0.1.1 /\ c.2 = c0.2;
  wk_table : table_ok V lk c.1.2;
  wk_count : forall n, rcount c.1.2 n = rcount c0.1.2 n + occ n l;
}.

(** One entry changes. *)
Lemma table_set V lk lk' f ip i : table_ok V lk f -> (ip < ninode)%nat -> 0 <= i_ref i -> (0 < i_ref i -> live V i) ->
  (0 < i_ref i -> forall k, (k < ninode)%nat -> k <> ip -> 0 < i_ref (f k) -> i_inum (f k) <> i_inum i) ->
  (lk' <> Some ip -> exists p, i_lock i = mkSleeplock false false p) -> (lk' = Some ip -> i_lock i = held_by (tn_pid T)) ->
  (forall j, j <> ip -> lk = Some j <-> lk' = Some j) -> table_ok V lk' (upd f ip i).
Proof.
  intros [T1 T2 T3 T4 T5] Hip Hr Hl Hu Hf Hh Hk. split.
  - intros j Hj. unfold upd. case_decide; [done|by apply T1].
  - intros j Hj. unfold upd. case_decide; [done|by apply T2].
  - intros j Hj Hn. unfold upd. case_decide as E; [subst j; by apply Hf|]. apply T3; [done|]. rewrite Hk; done.
  - intros j Hj. unfold upd. case_decide as E; [subst j; by apply Hh|]. apply T4. by apply Hk.
  - intros j k Hj Hk'. unfold upd. case_decide as E1; case_decide as E2; subst; try done.
    + intros H1 H2 E. exfalso. by apply (Hu H1 k).
    + intros H1 H2 E. exfalso. by apply (Hu H2 j).
    + by apply T5.
Qed.

Section Walk.
Context (c0 : control W) (V : Z -> list Z) (bs : list Z).
Hypotheses (Hsb : c0.1.1.1 = sb) (Hlk0 : c0.1.1.2 = false) (HT : tree_ok V) (Hbs : (length bs + 1 < nbuf)%nat).
Hypotheses (Hcount : forall n, rcount c0.1.2 n < 2 ^ 31 - 4) (Hroom : (size (in_use c0.1.2) + 2 <= ninode)%nat).

Lemma occ_nonneg n l : 0 <= occ n l.
Proof. induction l as [|x l IH]; cbn; [lia|]. destruct (x =? n); lia. Qed.
Lemma occ_le n l : occ n l <= Z.of_nat (length l).
Proof. induction l as [|x l IH]; cbn; [lia|]. destruct (x =? n); lia. Qed.
Lemma occ_in n l : 0 < occ n l -> n ∈ l.
Proof. induction l as [|x l IH]; cbn; [lia|]. rewrite elem_of_cons. destruct (Z.eqb_spec x n); [by left|]. intros. right. apply IH. lia. Qed.

Lemma walking_ctl lk l c : walking c0 V lk l c -> c.1.1.1 = sb /\ c.1.1.2 = false.
Proof. intros [[-> _] _ _]. done. Qed.
Lemma walking_ref lk l c j : walking c0 V lk l c -> (length l <= 2)%nat -> (j < ninode)%nat -> i_ref (c.1.2 j) < 2 ^ 31 - 1.
Proof.
  intros [_ Ht Hc] Hl Hj. pose proof (rcount_ge c.1.2 (i_inum (c.1.2 j)) j Hj) as Hg. rewrite Hc in Hg. pose proof (Hcount (i_inum (c.1.2 j))).
  pose proof (occ_le (i_inum (c.1.2 j)) l). unfold cnt in Hg. case_bool_decide as Hb; [lia|]. pose proof (tb_ref _ _ _ Ht j Hj). destruct (decide (0 < i_ref (c.1.2 j))); [tauto|lia].
Qed.
Lemma walking_room lk l c x : walking c0 V lk l c -> (length l <= 1)%nat -> iroom c.1.2 x.
Proof.
  intros [_ Ht Hc] Hl. apply room; [apply Ht|apply Ht|]. assert (in_use c.1.2 ⊆ list_to_set l ∪ in_use c0.1.2) as Hsub.
  { intros n Hn. apply in_use_count in Hn. rewrite Hc in Hn. rewrite elem_of_union, elem_of_list_to_set, in_use_count.
    destruct (decide (0 < rcount c0.1.2 n)); [by right|left]. apply occ_in. pose proof (csum_nonneg c0.1.2 n (seq 0 ninode)). unfold rcount in *. lia. }
  apply subseteq_size in Hsub. pose proof (size_union_le (list_to_set l) (in_use c0.1.2)). pose proof (size_list_le l). lia.
Qed.

(** The entry [ip] is [i] now, with [d] more references. *)
Lemma walking_set lk lk' l l' c ip i : walking c0 V lk l c -> table_ok V lk' (upd c.1.2 ip i) -> (ip < ninode)%nat ->
  (forall n, cnt n i - cnt n (c.1.2 ip) = occ n l' - occ n l) -> walking c0 V lk' l' (set_ctl ip i c).
Proof.
  intros [[H1 H2] Ht Hc] Ht' Hip Hn. split; [|done|].
  - destruct c as [[[b k] f] u]. done.
  - intros n. change ((set_ctl ip i c).1.2) with (upd c.1.2 ip i). rewrite rcount_upd by done. specialize (Hn n). rewrite Hc. lia.
Qed.
Lemma cnt_ref n i : 0 < i_ref i -> cnt n i = if i_inum i =? n then i_ref i else 0.
Proof. intros Hr. unfold cnt. case_bool_decide as Hb; destruct (Z.eqb_spec (i_inum i) n); try done; tauto. Qed.
Lemma cnt_none n i : i_ref i = 0 -> cnt n i = 0.
Proof. intros Hr. unfold cnt. case_bool_decide; [lia|done]. Qed.

(** An entry the walk holds is at most given one more reference. *)
Definition more_refs (i i' : inode) : Prop := i' = i \/ i' = with_ref (i_ref i + 1) i.

Lemma walk_iget lk l c s x Q : walking c0 V lk l c -> (length l <= 1)%nat -> inum_ok x -> i_type (disk_inode V x) <> 0 -> fs_at T c bs ∅ V s ->
  (forall ip c' s', fs_at T c' bs ∅ V s' -> walking c0 V lk (x :: l) c' -> (ip < ninode)%nat -> 0 < i_ref (c'.1.2 ip) -> i_inum (c'.1.2 ip) = x ->
     (forall j, 0 < i_ref (c.1.2 j) -> more_refs (c.1.2 j) (c'.1.2 j)) -> Q ip s') -> wp (iget ROOTDEV x) Q s.
Proof.
  intros Hw Hl Hx Hty Hs HQ. destruct (walking_ctl _ _ _ Hw) as [_ Hlk]. pose proof Hw as [_ Ht Hc].
  eapply wp_iget; [exact Hlk|exact Hs|by apply (walking_room lk l)|intros j Hj; apply (walking_ref lk l c j Hw); [lia|done]|].
  intros ip i' s' (Hip & Hd & Hn & Hk & Hg) H'. assert (forall j, set_ctl ip i' c = set_ctl ip i' c -> (set_ctl ip i' c).1.2 j = if decide (j = ip) then i' else c.1.2 j) as Ej by done.
  apply (HQ ip (set_ctl ip i' c)); [done| |done|rewrite set_ctl_inode; destruct Hg as [(? & _ & _ & ->)|(_ & _ & -> & _)]; cbn; lia|by rewrite set_ctl_inode|].
  - assert (0 < i_ref i') as Hr' by (destruct Hg as [(? & _ & _ & ->)|(_ & _ & -> & _)]; cbn; lia).
    eapply walking_set; [exact Hw| |done|].
    + eapply (table_set V lk lk); [exact Ht|done|lia|..].
      * intros _. destruct Hg as [(Hr & Hdev & Hnum & ->)|(_ & _ & _ & Hv)].
        -- destruct (tb_live _ _ _ Ht ip Hip Hr) as [L1 L2 L3 L4 L5]. split; try done. intros Hv. destruct (L3 Hv). by split.
        -- split; [done|by rewrite Hn|congruence|congruence|by rewrite Hn].
      * intros _ k Hkn Hne Hrk E. rewrite Hn in E. destruct Hg as [(Hr & Hdev & Hnum & _)|(_ & Hnone & _)].
        -- apply Hne. apply (tb_uniq _ _ _ Ht); [done|done|done|done|congruence].
        -- specialize (Hnone k Hkn). unfold is_inode in Hnone. destruct (tb_live _ _ _ Ht k Hkn Hrk) as [Ed _ _ _ _].
           rewrite (proj2 (Z.ltb_lt _ _) Hrk), Ed, E, !Z.eqb_refl in Hnone. done.
      * intros Hne. rewrite Hk. by apply (tb_lock _ _ _ Ht).
      * intros E. rewrite Hk. by apply (tb_held _ _ _ Ht).
      * done.
    + intros n. rewrite (cnt_ref n i') by done. rewrite Hn. cbn [occ]. destruct Hg as [(Hr & Hdev & Hnum & ->)|(Hr & _ & Hr1 & _)].
      * rewrite (cnt_ref n (c.1.2 ip)), Hnum by done. cbn [i_ref with_ref]. destruct (x =? n); lia.
      * rewrite (cnt_none n (c.1.2 ip)), Hr1 by done. destruct (x =? n); lia.
  - intros j Hj. rewrite Ej by done. case_decide as E; [|by left]. subst j. destruct Hg as [(_ & _ & _ & ->)|(Hr & _)]; [by right|lia].
Qed.

Lemma walk_ilock l c s ip i Q : walking c0 V None l c -> fs_at T c bs ∅ V s -> (ip < ninode)%nat -> c.1.2 ip = i -> 0 < i_ref i ->
  (forall s', let c' := set_ctl ip (with_ilock (held_by (tn_pid T)) (loaded sb V i)) c in fs_at T c' bs ∅ V s' -> walking c0 V (Some ip) l c' -> Q tt s') ->
  wp (ilock (tn_pid T) (S fuel) (Some ip)) Q s.
Proof.
  intros Hw Hs Hip Hi Hr HQ. destruct (walking_ctl _ _ _ Hw) as [Hsb' _]. pose proof Hw as [_ Ht Hc]. pose proof (tb_live _ _ _ Ht ip Hip) as Hl. rewrite Hi in Hl. specialize (Hl Hr).
  destruct (tb_lock _ _ _ Ht ip Hip) as [p Hp]; [done|]. rewrite Hi in Hp. destruct (live_loaded V i HT Hl) as (E & Hok & Hl'). pose proof (loaded_same sb V i) as (E1 & E2 & E3 & E4 & E5).
  eapply (wp_ilock T sb Hly fuel); [exact Hsb'|exact Hi|apply Hl|apply Hl|lia|exact Hp|exact Hs|lia| |].
  - intros _. destruct (inode_disk_eq _ _ E) as (-> & _). apply Hl.
  - intros s' Hs'. apply HQ; [done|]. eapply walking_set; [exact Hw| |done|].
    + eapply (table_set V None (Some ip)); [exact Ht|done|cbn; lia| | |done|done|].
      * intros _. destruct Hl' as [L1 L2 L3 L4 L5]. split; try done. intros Hv. destruct (L3 Hv). by split.
      * intros _ k Hk Hne Hrk Ek. cbn in Ek. rewrite E2 in Ek. apply Hne. apply (tb_uniq _ _ _ Ht); [done|done|done|by rewrite Hi|by rewrite Hi].
      * intros j Hj. split; [done|]. intros [= E']. done.
    + intros n. unfold cnt. cbn [i_ref i_inum with_ilock]. rewrite Hi, E2, E3. lia.
Qed.

Lemma walk_iunlock l c s ip i Q : walking c0 V (Some ip) l c -> fs_at T c bs ∅ V s -> (ip < ninode)%nat -> c.1.2 ip = i -> 0 < i_ref i ->
  (forall s', let c' := set_ctl ip (with_ilock initsleeplock i) c in fs_at T c' bs ∅ V s' -> walking c0 V None l c' -> Q tt s') ->
  wp (iunlock (tn_pid T) (Some ip)) Q s.
Proof.
  intros Hw Hs Hip Hi Hr HQ. pose proof Hw as [_ Ht Hc]. pose proof (tb_held _ _ _ Ht ip eq_refl) as Hh. rewrite Hi in Hh.
  eapply (wp_iunlock T c ip bs ∅ V i); [exact Hi|lia|exact Hh|exact Hs|]. intros s' Hs'. apply HQ; [done|]. eapply walking_set; [exact Hw| |done|].
  - eapply (table_set V (Some ip) None); [exact Ht|done|cbn; lia| | |by exists 0|done|].
    + intros _. pose proof (tb_live _ _ _ Ht ip Hip) as Hl. rewrite Hi in Hl. destruct (Hl Hr) as [L1 L2 L3 L4 L5]. split; try done. intros Hv. destruct (L3 Hv). by split.
    + intros _ k Hk Hne Hrk Ek. apply Hne. apply (tb_uniq _ _ _ Ht); [done|done|done|by rewrite Hi|by rewrite Hi].
    + intros j Hj. split; [intros [= E']; done|done].
  - intros n. unfold cnt. cbn [i_ref i_inum with_ilock]. rewrite Hi. lia.
Qed.

Lemma walk_iput l l' c s ip i Q : walking c0 V None l c -> fs_at T c bs ∅ V s -> (ip < ninode)%nat -> c.1.2 ip = i -> 0 < i_ref i -> (length l <= 2)%nat ->
  (forall n, occ n l = (if i_inum i =? n then 1 else 0) + occ n l') ->
  (forall s', let c' := set_ctl ip (with_ref (i_ref i - 1) i) c in fs_at T c' bs ∅ V s' -> walking c0 V None l' c' -> Q tt s') ->
  wp (iput (tn_pid T) (S fuel) ip) Q s.
Proof.
  intros Hw Hs Hip Hi Hr Hl Ho HQ. destruct (walking_ctl _ _ _ Hw) as [_ Hlk]. pose proof Hw as [_ Ht Hc]. pose proof (walking_ref _ _ c ip Hw Hl Hip) as Hub. rewrite Hi in Hub.
  pose proof (tb_live _ _ _ Ht ip Hip) as Hlv. rewrite Hi in Hlv. specialize (Hlv Hr). destruct Hlv as [L1 L2 L3 L4 L5].
  eapply (wp_iput T (S fuel) c); [exact Hlk|exact Hi|exact Hs|lia| |].
  - intros _. destruct (i_valid i) eqn:Ev; [right|by left]. specialize (L4 eq_refl). rewrite <- (disk_inode_disk V) in L4. destruct (inode_disk_eq _ _ L4) as (_ & -> & _). by apply (to_link V HT).
  - intros s' Hs'. apply HQ; [done|]. eapply walking_set; [exact Hw| |done|].
    + eapply (table_set V None None); [exact Ht|done|cbn; lia| | | |done|done].
      * intros _. split; try done. intros Hv. destruct (L3 Hv). by split.
      * intros _ k Hk Hne Hrk Ek. apply Hne. apply (tb_uniq _ _ _ Ht); [done|done|done|by rewrite Hi|by rewrite Hi].
      * intros _. destruct (tb_lock _ _ _ Ht ip Hip) as [p Hp]; [done|]. rewrite Hi in Hp. by exists p.
    + intros n. rewrite Hi, (cnt_ref n i), Ho by done. destruct (decide (i_ref i = 1)) as [E1|E1].
      * rewrite cnt_none by (cbn; lia). destruct (i_inum i =? n); lia.
      * rewrite cnt_ref by (cbn; lia). cbn [i_inum with_ref i_ref]. destruct (i_inum i =? n); lia.
Qed.

Lemma walk_iunlockput l l' c s ip Q : walking c0 V (Some ip) l c -> fs_at T c bs ∅ V s -> (ip < ninode)%nat -> 0 < i_ref (c.1.2 ip) -> (length l <= 2)%nat ->
  (forall n, occ n l = (if i_inum (c.1.2 ip) =? n then 1 else 0) + occ n l') ->
  (forall c' s', fs_at T c' bs ∅ V s' -> walking c0 V None l' c' -> (forall j, j <> ip -> c'.1.2 j = c.1.2 j) -> i_inum (c'.1.2 ip) = i_inum (c.1.2 ip) -> Q tt s') ->
  wp (iunlockput (tn_pid T) (S fuel) ip) Q s.
Proof.
  intros Hw Hs Hip Hr Hl Ho HQ. unfold iunlockput. wp_step. eapply (walk_iunlock l c s ip); [done|done|done|done|done|]. cbv zeta. intros s1 H1 Hw1.
  eapply (walk_iput l l' _ s1 ip); [exact Hw1|exact H1|done|by rewrite set_ctl_inode|done|done|done|]. cbv zeta. intros s2 H2 Hw2. eapply HQ; [exact H2|exact Hw2|..].
  - intros j Hj. unfold set_ctl, on_ctl. cbn. by rewrite !upd_ne.
  - by rewrite set_ctl_inode.
Qed.

(** The entry that was looked up is still there when the directory was let
    go. *)
Lemma still_held l c c' ip nx x : walking c0 V (Some ip) l c -> walking c0 V None [x] c' -> (ip < ninode)%nat -> 0 < i_ref (c.1.2 ip) ->
  (forall j, j <> ip -> c'.1.2 j = c.1.2 j) -> i_inum (c'.1.2 ip) = i_inum (c.1.2 ip) -> (nx < ninode)%nat -> 0 < i_ref (c.1.2 nx) -> i_inum (c.1.2 nx) = x ->
  0 < i_ref (c'.1.2 nx) /\ i_inum (c'.1.2 nx) = x.
Proof.
  intros [_ Ht _] [_ _ Hc'] Hip Hr Hsame Hipn Hnx Hrn Hn. specialize (Hc' x). cbn in Hc'. rewrite Z.eqb_refl in Hc'. pose proof (csum_nonneg c0.1.2 x (seq 0 ninode)).
  assert (0 < rcount c'.1.2 x) as Hp by (unfold rcount in *; lia). apply rcount_pos in Hp as (j & Hj & Hrj & Hnj).
  assert (j = nx) as ->; [|done]. destruct (decide (j = ip)) as [->|Hne].
  - apply (tb_uniq _ _ _ Ht); [done|done|done|done|congruence].
  - rewrite Hsame in Hrj, Hnj by done. apply (tb_uniq _ _ _ Ht); [done|done|done|done|congruence].
Qed.

(** Where the walk is: at [ip], the inode [n], with the elements [es] left. *)
Definition walk_at (ip : nat) (n : Z) (s : fs W) : Prop := exists c,
  fs_at T c bs ∅ V s /\ walking c0 V None [n] c /\ (ip < ninode)%nat /\ 0 < i_ref (c.1.2 ip) /\ i_inum (c.1.2 ip) = n.
(** The walk failed: all references were given back. *)
Definition walk_over (s : fs W) : Prop := exists c, fs_at T c bs ∅ V s /\ walking c0 V None [] c.

(** The lookup of one element in the directory that is locked. *)
Lemma walk_lookup {A} ip n c i s buf (kN : M (fs W) A) (kS : nat -> M (fs W) A) Q : fs_at T c bs ∅ V s -> walking c0 V (Some ip) [n] c -> (ip < ninode)%nat -> c.1.2 ip = i -> 0 < i_ref i -> i_inum i = n -> i_valid i = true ->
  i_type i = T_DIR -> length buf = Z.to_nat DIRSIZ ->
  (forall s', dir_map V (disk_inode V n) !! cname buf = None -> walk_over s' -> wp kN Q s') ->
  (forall x nx s', dir_map V (disk_inode V n) !! cname buf = Some x -> walk_at nx x s' -> wp (kS nx) Q s') ->
  wp (let* next := dirlookup (tn_pid T) me ip buf in
      match next with
      | None => iunlockput (tn_pid T) (S fuel) ip ;; kN
      | Some (nx, _) => iunlockput (tn_pid T) (S fuel) ip ;; kS nx
      end) Q s.
Proof.
  intros Hs Hw Hip Hi Hr Hn Hv Hty Hlb HN HF. pose proof Hw as [_ Ht _]. pose proof (tb_live _ _ _ Ht ip Hip) as Hl. rewrite Hi in Hl. destruct (Hl Hr) as [L1 L2 L3 L4 L5].
  rewrite Hn in L2, L5. specialize (L4 Hv). rewrite Hn in L4. assert (i_type (disk_inode V n) = T_DIR) as Hdt.
  { destruct (inode_disk_eq i (disk_inode V n) L4) as (<- & _). done. }
  destruct (same_dir V i (disk_inode V n) L4 L1 Hn (L3 Hv) (to_dir V HT n L2 Hdt)) as [Hdr Hdm]. wp_step.
  eapply (wp_dirlookup T sb me Hly c ip bs V i buf); [exact Hi|apply HT|done|rewrite Hlb; unfold DIRSIZ; lia|lia|exact Hs|..].
  - intros s1 H1 Hnone. rewrite Hdm in Hnone. wp_step. eapply (walk_iunlockput [n] [] c s1 ip); [done|done|done|by rewrite Hi|cbn; lia|by rewrite Hi, Hn|].
    intros c' s2 H2 Hw2 _ _. apply HN; [done|]. by exists c'.
  - intros s1 x off H1 Hx Hoff. rewrite Hdm in Hx. destruct (to_name V HT n _ x L2 Hdt Hx) as [Hxo Hxt].
    eapply (walk_iget (Some ip) [n] c s1 x); [done|cbn; lia|done|done|done|]. intros nx c2 s2 H2 Hw2 Hnx Hrn Hnn Hmore.
    assert (0 < i_ref (c2.1.2 ip) /\ i_inum (c2.1.2 ip) = n) as [Hr2 Hn2].
    { destruct (Hmore ip) as [E|E]; [by rewrite Hi|by rewrite E, Hi|rewrite E, Hi; cbn; split; [lia|done]]. }
    wp_step. eapply (walk_iunlockput [x; n] [x] c2 s2 ip); [done|done|done|done|cbn; lia|intros k; cbn; rewrite Hn2; lia|].
    intros c3 s3 H3 Hw3 Hsame Hinum. apply (HF x); [done|]. exists c3. split; [done|]. split; [done|]. split; [done|]. by eapply still_held.
Qed.

(** What namex is to return from [n] with the elements [es] left. *)
Definition target (parent : bool) (n : Z) (es : list (list Z)) : option (Z * list Z) :=
  if parent then resolve_parent V n es else (fun x => (x, [])) <$> resolve V n es.
Definition arrived (parent : bool) (r : option (nat * list Z)) (t : option (Z * list Z)) (s : fs W) : Prop :=
  match t with
  | Some (x, e) => exists ip buf, r = Some (ip, buf) /\ walk_at ip x s /\ (parent = true -> cname buf = e)
  | None => r = None /\ walk_over s
  end.

Lemma namex_step_spec parent ip n path name s : walk_at ip n s -> length name = Z.to_nat DIRSIZ ->
  wp (namex_step (tn_pid T) me (S fuel) parent (ip, path, name)) (fun v s' => match v with
    | inl (ip', path', name') => exists n', walk_at ip' n' s' /\ length name' = Z.to_nat DIRSIZ /\ (length path' < length path)%nat /\
        target parent n' (path_elems path') = target parent n (path_elems path)
    | inr r => arrived parent r (target parent n (path_elems path)) s' end) s.
Proof.
  intros (c & Hs & Hw & Hip & Hr & Hn) Hlen. unfold namex_step. pose proof (skipelem_elems path name Hlen) as Hsk. destruct (path_elems path) as [|e es].
  - rewrite Hsk. unfold target, arrived. destruct parent; cbn [resolve resolve_parent fmap option_fmap option_map].
    + wp_step. eapply (walk_iput [n] [] c s ip); [done|done|done|reflexivity|done|cbn; lia|intros k; cbn; by rewrite Hn|]. cbv zeta. intros s1 H1 Hw1. wp_step. split; [done|]. by eexists.
    + wp_step. exists ip, name. split; [done|]. split; [by exists c|done].
  - destruct Hsk as (rest & buf & -> & Hlb & Hcb & <- & Hlt & Hnil). wp_step.
    eapply (walk_ilock [n] c s ip); [done|done|done|reflexivity|done|]. cbv zeta. set (i := c.1.2 ip) in *. set (i1 := with_ilock _ _). intros s1 H1 Hw1.
    set (c1 := set_ctl ip i1 c) in *. assert (c1.1.2 ip = i1) as Ei by apply set_ctl_inode. clearbody c1.
    pose proof Hw as [_ Ht _]. pose proof (tb_live _ _ _ Ht ip Hip Hr) as Hl. destruct (live_loaded V _ HT Hl) as (Ed & _ & _). pose proof (loaded_same sb V i) as (_ & E2 & E3 & _ & E5).
    change (c.1.2 ip) with i in Ed. rewrite Hn in Ed. destruct (inode_disk_eq _ _ Ed) as (Ety & _). eapply wp_get_inode; [exact H1|]. rewrite Ei. change (i_type i1) with (i_type (loaded sb V i)).
    assert (0 < i_ref i1) as Hr1 by (change (i_ref i1) with (i_ref (loaded sb V i)); lia). assert (i_inum i1 = n) as Hn1 by (change (i_inum i1) with (i_inum (loaded sb V i)); congruence).
    unfold target. cbn [resolve resolve_parent]. rewrite Ety. destruct (Z.eqb_spec (i_type (disk_inode V n)) T_DIR) as [Hd|Hd]; cbn [negb].
    2: { wp_step. eapply (walk_iunlockput [n] [] c1 s1 ip); [done|done|done|by rewrite Ei|cbn; lia|intros k; cbn; by rewrite Ei, Hn1|]. intros c2 s2 H2 Hw2 _ _. wp_step.
         assert (walk_over s2) by by exists c2. by destruct parent. }
    destruct (parent && bool_decide (rest = [])) eqn:Ep.
    { apply andb_prop in Ep as [-> Ep]. apply bool_decide_eq_true in Ep as ->. cbn [path_elems]. wp_step. eapply (walk_iunlock [n] c1 s1 ip); [done|done|done|exact Ei|done|].
      cbv zeta. intros s2 H2 Hw2. wp_step. exists ip, buf. split; [done|]. split; [|done]. eexists. split; [exact H2|]. rewrite set_ctl_inode. by split. }
    eapply (walk_lookup ip n c1 i1 s1 buf); [done|done|done|exact Ei|done|done|exact E5|by change (i_type i1) with (i_type (loaded sb V i)); rewrite Ety|done|..].
    + intros s2 Hnone Hover. wp_step. rewrite Hcb in Hnone. rewrite Hnone. destruct parent; [|done]. destruct (path_elems rest) eqn:Er; [|done].
      rewrite Hnil in Ep by done. cbn in Ep. done.
    + intros x nx s2 Hx Hat. wp_step. exists x. split; [done|]. split; [done|]. split; [done|]. rewrite Hcb in Hx. rewrite Hx. destruct parent; [|done].
      destruct (path_elems rest) eqn:Er; [|done]. rewrite Hnil in Ep by done. cbn in Ep. done.
Qed.

Lemma namex_loop parent ip n path name s : walk_at ip n s -> length name = Z.to_nat DIRSIZ ->
  wp (loop (S (length path)) (namex_step (tn_pid T) me (S fuel) parent) (ip, path, name)) (fun r s' => arrived parent r (target parent n (path_elems path)) s') s.
Proof.
  intros Hat Hlen. apply (wp_loop (fun st s' => exists n', walk_at st.1.1 n' s' /\ length st.2 = Z.to_nat DIRSIZ /\ target parent n' (path_elems st.1.2) = target parent n (path_elems path))
    (fun st _ => length st.1.2)).
  - intros [[ip1 path1] name1] s1 (n1 & H1 & Hl1 & Et). cbn [fst snd] in *. eapply wp_mono; [by apply (namex_step_spec parent ip1 n1)|].
    intros [[[ip2 path2] name2]|r] s2; cbn [fst snd].
    + intros (n2 & H2 & Hl2 & Hlt & Et2). split; [|done]. exists n2. split; [done|]. split; [done|congruence].
    + by rewrite Et.
  - by exists n.
  - cbn. lia.
Qed.

(** The first inode of the walk. *)
Definition start (cwd : nat) (path : list Z) : Z := if bool_decide (head path = Some slash) then ROOTINO else i_inum (c0.1.2 cwd).

Lemma walk_idup ip s Q : table_ok V None c0.1.2 -> fs_at T c0 bs ∅ V s -> (ip < ninode)%nat -> 0 < i_ref (c0.1.2 ip) ->
  (forall s', walk_at ip (i_inum (c0.1.2 ip)) s' -> Q ip s') -> wp (idup ip) Q s.
Proof.
  intros Ht Hs Hip Hr HQ. assert (walking c0 V None [] c0) as Hw by (split; [done|done|intros n; cbn; lia]).
  pose proof (walking_ref _ _ c0 ip Hw (Nat.le_0_l 2) Hip) as Hub. destruct (tb_live _ _ _ Ht ip Hip Hr) as [L1 L2 L3 L4 L5].
  pose proof Hs as [Ec Hl]. unfold idup. wp_step. apply wp_acquire; [by rewrite <- Ec in Hlk0|]. unfold set_inode. wp_step. wp_step. wp_step. apply wp_release; [done|]. wp_step.
  set (i' := with_ref (i_ref (c0.1.2 ip) + 1) (c0.1.2 ip)). apply HQ. exists (set_ctl ip i' c0). split; [|split; [|rewrite set_ctl_inode; cbn; split; [done|split; [lia|done]]]].
  - split; [|exact Hl]. rewrite <- Ec in Hlk0 |- *. unfold i'. rewrite <- Ec. unfold ctl. cbn. cbn in Hlk0. rewrite Hlk0, i32_small; [done|]. rewrite <- Ec in Hr, Hub. cbn in Hr, Hub. lia.
  - eapply walking_set; [exact Hw| |done|].
    + eapply (table_set V None None); [exact Ht|done|cbn; lia| | | |done|done].
      * intros _. split; try done. intros Hv. destruct (L3 Hv). by split.
      * intros _ k Hk Hne Hrk Ek. apply Hne. by apply (tb_uniq _ _ _ Ht).
      * intros _. by apply (tb_lock _ _ _ Ht).
    + intros n. rewrite !cnt_ref by (cbn; lia). cbn. destruct (i_inum (c0.1.2 ip) =? n); lia.
Qed.

Lemma namex_spec cwd path parent name s : table_ok V None c0.1.2 -> fs_at T c0 bs ∅ V s -> (cwd < ninode)%nat -> 0 < i_ref (c0.1.2 cwd) ->
  inum_ok ROOTINO -> i_type (disk_inode V ROOTINO) <> 0 -> length name = Z.to_nat DIRSIZ ->
  wp (namex (tn_pid T) me (S fuel) cwd path parent name) (fun r s' => arrived parent r (target parent (start cwd path) (path_elems path)) s') s.
Proof.
  intros Ht Hs Hcwd Hr Hroot Hrt Hlen. unfold namex, start. wp_step.
  assert (wp (idup cwd) (fun ip s' => wp (loop (S (length path)) (namex_step (tn_pid T) me (S fuel) parent) (ip, path, name))
    (fun r s'' => arrived parent r (target parent (i_inum (c0.1.2 cwd)) (path_elems path)) s'') s') s) as Hd.
  { apply walk_idup; [done|done|done|done|]. intros s' H'. by apply namex_loop. }
  destruct path as [|x path]; [exact Hd|]. cbn [head]. destruct (Z.eqb_spec x slash) as [->|Hx].
  - rewrite bool_decide_eq_true_2 by done. eapply (walk_iget None [] c0 s ROOTINO); [split; [done|done|intros n; cbn; lia]|cbn; lia|done|done|done|].
    intros ip c' s' H' Hw' Hip Hri Hn _. apply namex_loop; [|done]. exists c'. split; [done|]. split; [done|]. split; [done|]. by split.
  - rewrite bool_decide_eq_false_2 by (intros [= ?]; done). exact Hd.
Qed.
End Walk.
End Path.

(** C6: namei and nameiparent are the walk along the elements of the path:
    from the root when the path begins with a slash and from the current
    directory otherwise, each element looked up in the map of the directory
    reached so far.  namei returns the inode the walk ends at, nameiparent
    the directory of the last element and that element's name; they fail
    exactly when an element is missing or a component is no directory.  Of
    all reference counts only that of the inode returned has grown, by one,
    and none when there is none; no inode stays locked and the disk's blocks
    are as before. *)
Theorem namei_walks {W} `{UserMem W} (T : txn_env) sb me fuel (c : control W) (V : Z -> list Z) (bs : list Z) (cwd : nat) (path name : list Z) (s : fs W) :
  layout T sb -> c.1.1 = (sb, false) -> tree_ok sb V -> (length bs + 1 < nbuf)%nat ->
  table_ok T sb V None c.1.2 -> (forall n, rcount c.1.2 n < 2 ^ 31 - 4) -> (size (in_use c.1.2) + 2 <= ninode)%nat ->
  inum_ok sb ROOTINO -> i_type (disk_inode sb V ROOTINO) <> 0 ->
  (cwd < ninode)%nat -> 0 < i_ref (c.1.2 cwd) -> length name = Z.to_nat DIRSIZ -> fs_at T c bs ∅ V s ->
  wp (namei (tn_pid T) me (S fuel) cwd path) (fun r s' => match resolve sb V (start c cwd path) (path_elems path) with
    | Some x => exists ip, r = Some ip /\ walk_at T sb c V bs ip x s'
    | None => r = None /\ walk_over T sb c V bs s' end) s /\
  wp (nameiparent (tn_pid T) me (S fuel) cwd path name) (fun r s' => match resolve_parent sb V (start c cwd path) (path_elems path) with
    | Some (x, e) => exists ip buf, r = Some (ip, buf) /\ cname buf = e /\ walk_at T sb c V bs ip x s'
    | None => r = None /\ walk_over T sb c V bs s' end) s.
Proof.
  intros Hly Hc HT Hbs Ht Hcount Hroom Hroot Hrt Hcwd Hr Hlen Hs. set (n := start c cwd path). set (es := path_elems path).
  assert (c.1.1.1 = sb) as Hsb by by rewrite Hc. assert (c.1.1.2 = false) as Hlk by by rewrite Hc. split.
  - unfold namei. wp_step. eapply wp_mono; [eapply (namex_spec T sb me fuel Hly c V bs); try done; by rewrite length_replicate|].
    cbn beta. fold n es. unfold target. intros r s' Ha. wp_step. destruct (resolve sb V n es); cbn in Ha.
    + destruct Ha as (ip & buf & -> & Hw & _). by exists ip.
    + destruct Ha as [-> Hw]. done.
  - unfold nameiparent. eapply wp_mono; [by eapply (namex_spec T sb me fuel Hly c V bs)|].
    cbn beta. fold n es. unfold target. intros r s' Ha. destruct (resolve_parent sb V n es) as [[x e]|]; [|exact Ha].
    destruct Ha as (ip & buf & -> & Hw & Hb). exists ip, buf. by rewrite Hb.
Qed.

(** ** On the small disk *)
Module WalkWitness.
Import DirWitness.
Definition no_inode : inode := mkInode 0 0 0 initsleeplock false 0 0 0 0 0 (fun _ => 0).
(** The directory is the current one, nothing else is in use. *)
Definition fs3 : fs unit := mkFs log2 sb1 false (fun i => match i with O => with_ilock initsleeplock small_dir | _ => no_inode end) tt.
Lemma fs3_at : fs_at txn1 (ctl fs3) [] ∅ disk1 fs3.
Proof. split; [done|exact log2_txn]. Qed.

Lemma types1 n : inum_ok sb1 n -> n = 1 \/ n = 2 \/ i_type (disk_inode sb1 disk1 n) = 0.
Proof.
  intros Hn. assert (Forall (fun n => n = 1 \/ n = 2 \/ i_type (disk_inode sb1 disk1 n) = 0) (seqZ 0 16)) as Hf.
  { apply (bool_decide_unpack (Forall (fun n => n = 1 \/ n = 2 \/ i_type (disk_inode sb1 disk1 n) = 0) (seqZ 0 16))). by vm_compute. }
  rewrite Forall_forall in Hf. apply Hf, elem_of_seqZ. unfold inum_ok in Hn. cbn in Hn. lia.
Qed.
Lemma dir2 : dir_rep sb1 disk1 (disk_inode sb1 disk1 2) /\ dir_map disk1 (disk_inode sb1 disk1 2) = {[ [46] := 2; [102] := 1 ]}.
Proof.
  rewrite <- small_dir_map. apply (same_dir sb1 disk1 (disk_inode sb1 disk1 2) small_dir); [by vm_compute|done|done| |].
  - apply get_dinode_ok. apply disk1_ok.
  - split; [exact dir1_rep|reflexivity|reflexivity].
Qed.
Lemma tree1 : tree_ok sb1 disk1.
Proof.
  split; [exact disk1_ok|..].
  - intros n Hn Ht. destruct (types1 n Hn) as [->|[->|E]]; [by vm_compute in Ht|apply dir2|by rewrite E in Ht].
  - intros n e x Hn Ht. destruct (types1 n Hn) as [->|[->|E]]; [by vm_compute in Ht| |by rewrite E in Ht]. rewrite (proj2 dir2). intros Hx.
    apply lookup_insert_Some in Hx as [[_ <-]|[_ Hx]]; [|apply lookup_singleton_Some in Hx as [_ <-]]; (split; [split; by vm_compute|by vm_compute]).
  - intros n Hn Ht. destruct (types1 n Hn) as [->|[->|E]]; [by vm_compute|by vm_compute|done].
Qed.
Lemma table3 : table_ok txn1 sb1 disk1 None (inodes fs3).
Proof.
  split.
  - intros [|j] _; cbn; lia.
  - intros [|j] _ Hr; [|cbn in Hr; lia]. split; [done|split; by vm_compute|intros _; destruct (ir_ok _ _ _ dir1_rep); by split|intros _; by vm_compute|by vm_compute].
  - intros [|j] _ _; by exists 0.
  - done.
  - intros [|j] [|k] _ _ Hj Hk; [done|cbn in *; lia..].
Qed.

(** "./f" from the directory: the file 1; its parent is the directory
    itself. *)
Lemma namei_walks_witness : let path := [46; 47; 102] in
  wp (namei 1 0 1 0 path) (fun r s' => match resolve sb1 disk1 2 (path_elems path) with
    | Some x => exists ip, r = Some ip /\ walk_at txn1 sb1 (ctl fs3) disk1 [] ip x s'
    | None => r = None /\ walk_over txn1 sb1 (ctl fs3) disk1 [] s' end) fs3 /\
  wp (nameiparent 1 0 1 0 path (replicate 14 0)) (fun r s' => match resolve_parent sb1 disk1 2 (path_elems path) with
    | Some (x, e) => exists ip buf, r = Some (ip, buf) /\ cname buf = e /\ walk_at txn1 sb1 (ctl fs3) disk1 [] ip x s'
    | None => r = None /\ walk_over txn1 sb1 (ctl fs3) disk1 [] s' end) fs3.
Proof.
  cbv zeta. apply (namei_walks txn1 sb1 0 0 (ctl fs3) disk1 [] 0 [46; 47; 102] (replicate 14 0) fs3); try reflexivity.
  - apply layout1.
  - exact tree1.
  - unfold nbuf, NBUF, MAXOPBLOCKS. cbn. lia.
  - exact table3.
  - intros n. change (rcount (inodes fs3) n < 2 ^ 31 - 4). unfold rcount. change (seq 0 ninode) with (0 :: seq 1 49)%nat. cbn [csum].
    assert (forall l, Forall (fun j => j <> 0%nat) l -> csum (inodes fs3) n l = 0) as E.
    { induction 1 as [|[|j] l Hj _ IH]; [done|done|]. cbn [csum]. rewrite IH. done. }
    rewrite E by (apply Forall_seq; lia). unfold cnt. case_bool_decide; cbn; lia.
  - apply Nat.leb_le. by vm_compute.
  - split; by vm_compute.
  - by vm_compute.
  - unfold ninode, NINODE. cbn. lia.
  - exact fs3_at.
Defined.
Example resolves : resolve sb1 disk1 2 (path_elems [46; 47; 102]) = Some 1 /\ resolve_parent sb1 disk1 2 (path_elems [46; 47; 102]) = Some (2, [102]).
Proof. split; vm_compute; reflexivity. Qed.
End WalkWitness.
