(* ===== verification/Mkfs.v ===== *)
(** * mkfs/mkfs.c: the first disk image

    mkfs runs on the build host and writes the image the kernel boots from.
    Its state is the image, a host file of blocks, and its global counters;
    a failed assertion and die() are panics.  What the host returns for the
    files it copies is an argument.  The host is little endian, as the
    targets of the build are. *)

From Stdlib Require Import ZArith Lia String.
From stdpp Require Import gmap.
From S2P Require Import Prelude Mem StringC Params Env Sleeplock Bio Log Fs.

Definition NINODES : Z := 200.
Definition nbitmap : Z := FSSIZE / BPB + 1.
Definition ninodeblocks : Z := NINODES / IPB + 1.
Definition nlog : Z := LOGBLOCKS + 1.
Definition nmeta : Z := 2 + nlog + ninodeblocks + nbitmap.
Definition nblocks : Z := FSSIZE - nmeta.

(** Integers in the byte order of the image, read as the host reads them. *)
Definition xshort (x : Z) : Z := le_dec [u8 x; u8 (Z.shiftr x 8)].
Definition xint (x : Z) : Z := le_dec [u8 x; u8 (Z.shiftr x 8); u8 (Z.shiftr x 16); u8 (Z.shiftr x 24)].

(** The image as blocks, [nsect] of them written so far; sb, freeinode and
    freeblock of mkfs.c. *)
Record mkfs := mkMkfs { img : Z -> list Z; nsect : Z; mk_sb : superblock; freeinode : Z; freeblock : Z }.
Definition on_img (f : Z -> list Z) (n : Z) (s : mkfs) : mkfs := mkMkfs f n (mk_sb s) (freeinode s) (freeblock s).
Definition set_freeinode (x : Z) (s : mkfs) : mkfs := mkMkfs (img s) (nsect s) (mk_sb s) x (freeblock s).
Definition set_freeblock (x : Z) (s : mkfs) : mkfs := mkMkfs (img s) (nsect s) (mk_sb s) (freeinode s) x.
Definition set_mk_sb (b : superblock) (s : mkfs) : mkfs := mkMkfs (img s) (nsect s) b (freeinode s) (freeblock s).
(** The start of the program: the image was truncated. *)
Definition mkfs0 : mkfs := mkMkfs (fun _ => replicate (Z.to_nat BSIZE) 0) 0 (mkSb 0 0 0 0 0 0 0 0) 1 0.

Local Notation K := (M mkfs).
Definition assert (b : bool) : K unit := if b then ret tt else panic "assert".
Definition die {A} : K A := panic "die".

(** A sector is addressed by its byte offset, a uint. *)
Definition sector (sec : Z) : Z := u32 (sec * BSIZE) / BSIZE.
Definition wsect (sec : Z) (buf : list Z) : K unit :=
  modify (fun s => on_img (upd (img s) (sector sec) buf) (Z.max (nsect s) (sector sec + 1)) s).
Definition rsect (sec : Z) : K (list Z) :=
  let* s := gets (fun s => s) in
  if sector sec <? nsect s then ret (img s (sector sec)) else die.

(** struct dinode: the disk part of [inode]. *)
Definition no_dinode (inum : Z) : inode := mkInode ROOTDEV inum 0 initsleeplock true 0 0 0 0 0 (fun _ => 0).
Definition winode (inum : Z) (ip : inode) : K unit :=
  let* sb := gets mk_sb in
  let* buf := rsect (IBLOCK inum sb) in
  wsect (IBLOCK inum sb) (put_dinode (dinode_off inum) ip buf).
Definition rinode (inum : Z) : K inode :=
  let* sb := gets mk_sb in
  let* buf := rsect (IBLOCK inum sb) in
  ret (get_dinode (dinode_off inum) buf (no_dinode inum)).

Definition mk_ialloc (type : Z) : K Z :=
  let* inum := gets freeinode in
  modify (set_freeinode (u32 (inum + 1))) ;;
  let din := with_type (i16 (xshort type)) (with_nlink (i16 (xshort 1)) (no_dinode inum)) in
  winode inum (with_size (xint 0) din) ;;
  ret inum.

Fixpoint mark_upto (n : nat) (buf : list Z) : list Z :=
  match n with O => buf | S n => mark_bit (mark_upto n buf) (Z.of_nat n) end.
Definition mk_balloc (used : Z) : K unit :=
  assert (used <? BPB) ;;
  let* sb := gets mk_sb in
  wsect (sb_bmapstart sb) (mark_upto (Z.to_nat used) (replicate (Z.to_nat BSIZE) 0)).

(** freeblock++ *)
Definition next_block : K Z :=
  let* b := gets freeblock in
  modify (set_freeblock (u32 (b + 1))) ;;
  ret b.
(** The block of the direct or indirect slot [k] of [din], a new one when
    there is none. *)
Definition take_addr (k : Z) (din : inode) : K inode :=
  if xint (i_addrs din k) =? 0 then
    let* b := next_block in
    ret (with_addr k (xint b) din)
  else ret din.

(** The block number [x] for block [fbn] of the contents, in iappend. *)
Definition iappend_addr (din : inode) (fbn : Z) : K (inode * Z) :=
  if fbn <? NDIRECT then
    let* din := take_addr fbn din in
    ret (din, xint (i_addrs din fbn))
  else
    let e := (4 * Z.to_nat (fbn - NDIRECT))%nat in
    let* din := take_addr NDIRECT din in
    let* indirect := rsect (xint (i_addrs din NDIRECT)) in
    let* indirect := (if getf 4 e indirect =? 0 then
                        let* b := next_block in
                        let indirect := putf 4 e (xint b) indirect in
                        wsect (xint (i_addrs din NDIRECT)) indirect ;;
                        ret indirect
                      else ret indirect) in
    ret (din, xint (getf 4 e indirect)).
(** One iteration of iappend's loop: din, off and what is left of [xp]. *)
Definition iappend_step (st : inode * Z * list Z) : K (inode * Z * list Z + inode * Z) :=
  let '(din, off, p) := st in
  if Z.of_nat (length p) <=? 0 then ret (inr (din, off)) else
  let fbn := off / BSIZE in
  assert (fbn <? MAXFILE) ;;
  let* r := iappend_addr din fbn in
  let n1 := Z.min (Z.of_nat (length p)) ((fbn + 1) * BSIZE - off) in
  let* buf := rsect r.2 in
  wsect r.2 (splice buf (Z.to_nat (off - fbn * BSIZE)) (take (Z.to_nat n1) p)) ;;
  ret (inl (r.1, u32 (off + n1), drop (Z.to_nat n1) p)).

Definition iappend (inum : Z) (xp : list Z) : K unit :=
  let* din := rinode inum in
  let* r := loop (S (length xp)) iappend_step (din, xint (i_size din), xp) in
  winode inum (with_size (xint r.2) r.1).

(** An argument of the program and what the host gives for it: nothing when
    it cannot be opened, otherwise what the calls of read return before the
    one that returns 0 or fails. *)
Record hostfile := mkHost { hf_name : list Z; hf_reads : option (list (list Z)) }.
Definition user_dir : list Z := [117; 115; 101; 114; 47]. (* "user/" *)
Definition shortname (arg : list Z) : list Z :=
  if bool_decide (take 5 arg = user_dir) then drop 5 arg else arg.
Definition skip_underscore (name : list Z) : list Z :=
  match name with c :: r => if c =? 95 then r else name | [] => [] end.

Fixpoint append_reads (inum : Z) (rs : list (list Z)) : K unit :=
  match rs with
  | [] => ret tt
  | buf :: rs => iappend inum buf ;; append_reads inum rs
  end.
Definition add_file (f : hostfile) : K unit :=
  let name := shortname (hf_name f) in
  assert (bool_decide (slash ∉ name)) ;;
  match hf_reads f with
  | None => die
  | Some rs =>
      let name := skip_underscore name in
      assert (Z.of_nat (length name) <=? DIRSIZ) ;;
      let* inum := mk_ialloc T_FILE in
      iappend ROOTINO (mk_dirent (xshort inum) name) ;;
      append_reads inum rs
  end.
Fixpoint add_files (fs : list hostfile) : K unit :=
  match fs with
  | [] => ret tt
  | f :: fs => add_file f ;; add_files fs
  end.

Definition new_sb : superblock :=
  mkSb FSMAGIC (xint FSSIZE) (xint nblocks) (xint NINODES) (xint nlog) (xint 2) (xint (2 + nlog)) (xint (2 + nlog + ninodeblocks)).
(** The super block as bytes. *)
Definition put_sb (sb : superblock) (d : list Z) : list Z :=
  putf 4 28 (sb_bmapstart sb) (putf 4 24 (sb_inodestart sb) (putf 4 20 (sb_logstart sb) (putf 4 16 (sb_nlog sb)
    (putf 4 12 (sb_ninodes sb) (putf 4 8 (sb_nblocks sb) (putf 4 4 (sb_size sb) (putf 4 0 (sb_magic sb) d))))))).

(** The end of main: the size of the root directory becomes whole blocks. *)
Definition round_root : K unit :=
  let* din := rinode ROOTINO in
  let off := xint (i_size din) in
  winode ROOTINO (with_size (xint (u32 ((off / BSIZE + 1) * BSIZE))) din).

(** [args]: argv after the program's name. *)
Definition main (args : list hostfile) : K unit :=
  match args with
  | [] => panic "Usage: mkfs fs.img files..."
  | image :: files =>
      match hf_reads image with
      | None => die
      | Some _ =>
          modify (set_mk_sb new_sb) ;;
          modify (set_freeblock nmeta) ;;
          for_range (Z.to_nat FSSIZE) 0 (fun i => wsect i (replicate (Z.to_nat BSIZE) 0)) ;;
          wsect 1 (put_sb new_sb (replicate (Z.to_nat BSIZE) 0)) ;;
          let* rootino := mk_ialloc T_DIR in
          assert (rootino =? ROOTINO) ;;
          iappend rootino (mk_dirent (xshort rootino) [46]) ;;
          iappend rootino (mk_dirent (xshort rootino) [46; 46]) ;;
          add_files files ;;
          round_root ;;
          let* b := gets freeblock in
          mk_balloc b
      end
  end.
