(* ===== verification/MkfsImage.v ===== *)
(** * The image mkfs builds is a file system of the kernel

    While it copies files mkfs keeps the blocks of all inodes apart and the
    blocks it has not handed out zero.  At the end the image satisfies what
    the theorems about fs.c assume of a disk, its root directory holds the
    names of the files and every file its bytes. *)

From Stdlib Require Import ZArith Lia.
From stdpp Require Import gmap.
From S2P Require Import Prelude Mem StringC Params Env Sleeplock Bio Log Fs FsPure FsTxn FsAlloc FsInode FsFile FsWrite FsLock SmallDisk FsDir FsPath Mkfs.

Ltac consts := change nmeta with 47 in *; change FSSIZE with 2000 in *; change BSIZE with 1024 in *; change MAXFILE with 268 in *; change NDIRECT with 12 in *.

(** ** Numbers *)

Lemma xint_id x : 0 <= x < 2 ^ 32 -> xint x = x.
Proof.
  intros Hx. assert (xint x = le_dec (le_enc 4 x)) as ->; [|rewrite le_dec_enc; by apply Z.mod_small].
  change (le_enc 4 x) with [x mod 256; x / 256 mod 256; x / 256 / 256 mod 256; x / 256 / 256 / 256 mod 256].
  unfold xint, u8. rewrite !Z.shiftr_div_pow2, !Z.div_div by lia. done.
Qed.
Lemma xshort_id x : 0 <= x < 2 ^ 16 -> xshort x = x.
Proof.
  intros Hx. assert (xshort x = le_dec (le_enc 2 x)) as ->; [|rewrite le_dec_enc; by apply Z.mod_small].
  unfold xshort, u8. rewrite !Z.shiftr_div_pow2 by lia. done.
Qed.
Lemma sector_id b : 0 <= b < 2 ^ 22 -> sector b = b.
Proof. intros Hb. unfold sector. change BSIZE with 1024. rewrite u32_small by lia. by apply Z.div_mul. Qed.
Lemma new_sb_eq : new_sb = mkSb 0x10203040 2000 1953 200 31 2 33 46.
Proof. by vm_compute. Qed.
Lemma new_layout pid d w out : layout (mkTxn pid 2 d w out) new_sb.
Proof. split; vm_compute; try split; congruence. Qed.
Lemma inode_block_eq n : 0 <= n < NINODES -> IBLOCK n new_sb = n / 16 + 33 /\ 33 <= IBLOCK n new_sb < 46.
Proof.
  intros Hn. unfold NINODES in Hn. unfold IBLOCK. change IPB with 16. change (sb_inodestart new_sb) with 33.
  assert (0 <= n / 16 <= 12) by (Z.div_mod_to_equations; lia). rewrite u32_small by lia. lia.
Qed.

(** The blocks a file of [e] bytes takes. *)
Definition nblk (e : Z) : Z := (e + 1023) / 1024 + (if 12288 <? e then 1 else 0).

(** ** Blocks and who has them

    [S n k]: the block in slot [k] of inode [n]. *)
Notation slots := (Z -> Z -> Z).
Definition upd2 (S : slots) (n k a : Z) : slots := fun m j => if bool_decide (m = n /\ j = k) then a else S m j.

Record place (V : Z -> list Z) (fb : Z) (S : slots) (N : Z) : Prop := {
  pl_ok : forall b, block_ok (V b);
  pl_fb : nmeta <= fb <= FSSIZE;
  pl_range : forall n k, 1 <= n < N -> in_slots k -> S n k = 0 \/ nmeta <= S n k < fb;
  pl_inj : forall n m j k, 1 <= n < N -> 1 <= m < N -> in_slots j -> in_slots k -> S n j <> 0 -> S n j = S m k -> n = m /\ j = k;
  pl_zero : forall b, fb <= b -> V b = zeroes;
  pl_onto : forall b, nmeta <= b < fb -> exists n k, 1 <= n < N /\ in_slots k /\ S n k = b;
}.
(** Inode [n] has the slots [S n]. *)
Definition real (V : Z -> list Z) (S : slots) (n : Z) (i : inode) : Prop := forall k, in_slots k -> slot_of V i k = S n k.
(** It has blocks for [e] bytes. *)
Record room_for (S : slots) (n e : Z) : Prop := {
  rf_data : forall k, 0 <= k < MAXFILE -> S n k <> 0 <-> k * BSIZE < e;
  rf_ind : S n MAXFILE <> 0 <-> NDIRECT * BSIZE < e;
}.
(** Its bytes are [data] and then zeroes. *)
Definition bytes_are (V : Z -> list Z) (S : slots) (n : Z) (data : list Z) : Prop := forall p,
  0 <= p < MAXFILE * BSIZE -> S n (p / BSIZE) <> 0 -> nth (Z.to_nat (p mod BSIZE)) (V (S n (p / BSIZE))) 0 = nth (Z.to_nat p) data 0.

Lemma upd2_eq S n k a : upd2 S n k a n k = a.
Proof. unfold upd2. by rewrite bool_decide_eq_true_2. Qed.
Lemma upd2_ne S n k a m j : ~ (m = n /\ j = k) -> upd2 S n k a m j = S m j.
Proof. intros Hn. unfold upd2. by rewrite bool_decide_eq_false_2. Qed.
Lemma in_slots_max : in_slots MAXFILE.
Proof. unfold in_slots. consts. lia. Qed.
Lemma byte_slot p : 0 <= p < MAXFILE * BSIZE -> in_slots (p / BSIZE) /\ 0 <= p / BSIZE < MAXFILE.
Proof. intros Hp. pose proof (slot_range p Hp). unfold in_slots. split; lia. Qed.
Lemma nth_zeroes k : nth k zeroes 0 = 0.
Proof. unfold zeroes. generalize (Z.to_nat BSIZE). intros n. revert k. induction n as [|n IH]; intros [|k]; cbn; auto. Qed.

(** A block changes that is no slot of [n]: nothing changes for [n]. *)
Lemma bytes_frame V V' S n data : (forall k, 0 <= k < MAXFILE -> S n k <> 0 -> V' (S n k) = V (S n k)) -> bytes_are V S n data -> bytes_are V' S n data.
Proof. intros HV Hb p Hp Hs. rewrite HV; [by apply Hb|by apply byte_slot|done]. Qed.
Lemma real_frame V V' S n i : (S n MAXFILE <> 0 -> V' (S n MAXFILE) = V (S n MAXFILE)) -> real V S n i -> real V' S n i.
Proof.
  intros HV Hr k Hk. rewrite <- Hr by done. pose proof (Hr MAXFILE in_slots_max) as Em. rewrite slot_indirect in Em.
  unfold slot_of. destruct (k <? NDIRECT); [done|]. destruct (k =? MAXFILE); [done|]. rewrite Em. destruct (Z.eqb_spec (S n MAXFILE) 0) as [|Hz]; [done|]. by rewrite HV.
Qed.

(** ** A new block *)

Section Gain.
Context (V : Z -> list Z) (fb : Z) (S : slots) (N n k0 : Z).
Hypotheses (HP : place V fb S N) (Hn : 1 <= n < N) (Hk0 : in_slots k0) (Hz : S n k0 = 0) (Hfb : fb < FSSIZE).
Let S' := upd2 S n k0 fb.

Lemma gain_place V' : (forall b, block_ok (V' b)) -> (forall b, fb < b -> V' b = V b) -> place V' (fb + 1) S' N.
Proof.
  intros Hok Hz'. destruct HP as [P1 P2 P3 P4 P5 P6]. assert (forall m k, 1 <= m < N -> in_slots k -> S m k <> fb) as Hnew.
  { intros m k Hm Hk. destruct (P3 m k Hm Hk); consts; lia. }
  split; [done|consts; lia|..].
  - intros m k Hm Hk. unfold S', upd2. case_bool_decide; [right; consts; lia|]. destruct (P3 m k Hm Hk); [by left|right; lia].
  - intros m1 m2 j k H1 H2 Hj Hk. unfold S', upd2. case_bool_decide as B1; case_bool_decide as B2.
    + intros _ _. destruct B1 as [-> ->], B2 as [-> ->]. done.
    + intros _ E. symmetry in E. by apply Hnew in E.
    + intros _ E. by apply Hnew in E.
    + by apply P4.
  - intros b Hb. rewrite Hz' by lia. apply P5. lia.
  - intros b Hb. destruct (Z.eq_dec b fb) as [->|Hne]; [exists n, k0; unfold S'; by rewrite upd2_eq|]. destruct (P6 b ltac:(lia)) as (m & k & Hm & Hk & E).
    exists m, k. split; [done|]. split; [done|]. unfold S'. rewrite upd2_ne; [done|]. intros [-> ->]. rewrite Hz in E. consts. lia.
Qed.
Lemma gain_same : place V (fb + 1) S' N.
Proof. apply gain_place; [apply HP|done]. Qed.

(** The other inodes have what they had. *)
Lemma gain_slot_other m k : m <> n -> S' m k = S m k.
Proof. intros Hm. apply upd2_ne. tauto. Qed.
Lemma fb_zero : V fb = zeroes.
Proof. apply (pl_zero _ _ _ _ HP). lia. Qed.
Lemma fb_pos : fb <> 0.
Proof. pose proof (pl_fb _ _ _ _ HP). consts. lia. Qed.

(** The new block adds zeroes behind the data. *)
Lemma gain_bytes V' data : (k0 < MAXFILE -> Z.of_nat (length data) <= k0 * BSIZE) -> V' fb = zeroes -> bytes_are V' S n data -> bytes_are V' S' n data.
Proof.
  intros Hlen Hf Hb p Hp Hs. destruct (byte_slot p Hp) as [_ Hk]. destruct (decide (p / BSIZE = k0)) as [E|E].
  - unfold S' in *. rewrite E, upd2_eq in *. rewrite Hf, nth_zeroes. symmetry. apply nth_overflow.
    specialize (Hlen ltac:(lia)). pose proof (Z.mul_div_le p BSIZE BSIZE_pos). lia.
  - unfold S' in *. rewrite upd2_ne in * by tauto. by apply Hb.
Qed.

(** A direct block; the indirect block; an entry of the indirect block. *)
Lemma gain_direct_real i : 0 <= k0 < NDIRECT -> real V S n i -> real V S' n (with_addr k0 fb i).
Proof.
  intros Hk Hr k Hin. unfold slot_of. cbn [with_addr i_addrs]. rewrite (upd_ne _ k0 NDIRECT) by lia. destruct (Z.ltb_spec k NDIRECT) as [Hlt|Hge].
  - unfold upd. case_decide as E; [subst; by unfold S'; rewrite upd2_eq|]. unfold S'. rewrite upd2_ne by (intros [_ ->]; done). rewrite <- Hr by done.
    unfold slot_of. by rewrite (proj2 (Z.ltb_lt _ _)) by done.
  - unfold S'. rewrite upd2_ne by lia. rewrite <- Hr by done. unfold slot_of. by rewrite (proj2 (Z.ltb_ge k NDIRECT)) by lia.
Qed.
Lemma gain_indirect_real i : k0 = MAXFILE -> real V S n i -> real V S' n (with_addr NDIRECT fb i).
Proof.
  intros E Hr k Hin. unfold slot_of. cbn [with_addr i_addrs]. rewrite upd_eq. pose proof (Hr MAXFILE in_slots_max) as Em. rewrite slot_indirect in Em. rewrite <- E, Hz in Em.
  destruct (Z.ltb_spec k NDIRECT) as [Hlt|Hge].
  - rewrite upd_ne by lia. unfold S'. rewrite upd2_ne by (consts; lia). rewrite <- Hr by done. unfold slot_of. by rewrite (proj2 (Z.ltb_lt _ _)) by done.
  - destruct (Z.eqb_spec k MAXFILE) as [->|Hne]; [unfold S'; by rewrite E, upd2_eq|]. rewrite (proj2 (Z.eqb_neq fb 0)) by apply fb_pos. rewrite fb_zero, getf_zeroes.
    unfold S'. rewrite upd2_ne by lia. rewrite <- Hr by done. unfold slot_of. rewrite (proj2 (Z.ltb_ge k NDIRECT)), (proj2 (Z.eqb_neq k MAXFILE)) by done. by rewrite Em.
Qed.

Lemma gain_entry_real i : NDIRECT <= k0 < MAXFILE -> S n MAXFILE <> 0 -> real V S n i ->
  let V' := upd V (S n MAXFILE) (putf 4 (4 * Z.to_nat (k0 - NDIRECT)) fb (V (S n MAXFILE))) in
  real V' S' n i /\ place V' (fb + 1) S' N.
Proof.
  intros Hk Hi Hr V'. pose proof (pl_range _ _ _ _ HP n MAXFILE Hn in_slots_max) as [|Hri]; [done|]. pose proof (pl_ok _ _ _ _ HP (S n MAXFILE)) as Hok.
  pose proof (proj1 Hok) as Hlen. pose proof (pl_fb _ _ _ _ HP) as Hfr. assert (forall k, NDIRECT <= k < MAXFILE -> (4 * Z.to_nat (k - NDIRECT) + 4 <= length (V (S n MAXFILE)))%nat) as Hoff.
  { intros k Hk'. rewrite Hlen. consts. lia. }
  split.
  - intros k Hin. pose proof (Hr k Hin) as Ek. pose proof (Hr MAXFILE in_slots_max) as Em. rewrite slot_indirect in Em. unfold slot_of in *. rewrite Em in *.
    destruct (Z.ltb_spec k NDIRECT); [unfold S'; by rewrite upd2_ne by lia|]. destruct (Z.eqb_spec k MAXFILE) as [->|Hne]; [unfold S'; by rewrite upd2_ne by lia|].
    rewrite (proj2 (Z.eqb_neq _ 0)) in * by done. unfold V'. rewrite upd_eq. destruct (decide (k = k0)) as [->|Hne0].
    + unfold S'. rewrite upd2_eq. rewrite getf_putf_same by (apply Hoff; lia). apply Z.mod_small. consts. lia.
    + unfold S'. rewrite upd2_ne by tauto. rewrite getf_putf_other; [done|by apply Hoff|]. unfold in_slots in Hin. consts. lia.
  - apply gain_place.
    + intros b. unfold V', upd. case_decide; [|apply HP]. apply putf_ok; [rewrite <- Hlen; by apply Hoff|done].
    + intros b Hb. unfold V'. apply upd_ne. lia.
Qed.
End Gain.

(** ** Writing a block *)

Section Put.
Context (V : Z -> list Z) (fb : Z) (S : slots) (N n k : Z) (o : nat) (piece : list Z).
Hypotheses (HP : place V fb S N) (Hn : 1 <= n < N) (Hk : 0 <= k < MAXFILE) (Hs : S n k <> 0).
Hypotheses (Ho : (o + length piece <= Z.to_nat BSIZE)%nat) (Hb : Forall byte_ok piece).
Let x := S n k.
Let V' := upd V x (splice (V x) o piece).

Lemma place_in : in_slots k.
Proof. unfold in_slots. lia. Qed.
Lemma put_x : nmeta <= x < fb.
Proof. destruct (pl_range _ _ _ _ HP n k Hn place_in); [done|]. done. Qed.
Lemma put_other m j : 1 <= m < N -> in_slots j -> ~ (m = n /\ j = k) -> S m j <> x.
Proof. intros Hm Hj Hne E. destruct Hne. destruct (pl_inj _ _ _ _ HP n m k j Hn Hm place_in Hj Hs (eq_sym E)) as [-> ->]. done. Qed.
Lemma put_place : place V' fb S N.
Proof.
  pose proof put_x. destruct HP as [P1 P2 P3 P4 P5 P6]. split; try done.
  - intros b. unfold V', upd. case_decide; [|done]. destruct (P1 x) as [Hl Hf]. split; [by rewrite length_splice; rewrite Hl|].
    unfold splice. repeat apply Forall_app_2; [by apply Forall_take|done|by apply Forall_drop].
  - intros b Hb'. unfold V'. rewrite upd_ne by lia. by apply P5.
Qed.
Lemma put_real m i : 1 <= m < N -> real V S m i -> real V' S m i.
Proof.
  intros Hm. apply real_frame. intros _. unfold V'. apply upd_ne. apply put_other; [done|apply in_slots_max|consts; lia].
Qed.
Lemma put_bytes_other m data : 1 <= m < N -> m <> n -> bytes_are V S m data -> bytes_are V' S m data.
Proof. intros Hm Hne. apply bytes_frame. intros j Hj _. unfold V'. apply upd_ne. apply put_other; [done|unfold in_slots; lia|tauto]. Qed.
Lemma put_bytes data : Z.of_nat (length data) = k * BSIZE + Z.of_nat o -> bytes_are V S n data -> bytes_are V' S n (data ++ piece).
Proof.
  intros Hl Hby p Hp Hsp. destruct (byte_slot p Hp) as [Hin Hr]. pose proof (Z.mod_pos_bound p BSIZE BSIZE_pos) as Hm. pose proof (Z.div_mod p BSIZE ltac:(done)) as Hd.
  pose proof (proj1 (pl_ok _ _ _ _ HP x)) as Lx. specialize (Hby p Hp Hsp). unfold V'. destruct (decide (p / BSIZE = k)) as [E|E].
  - rewrite E in *. fold x. fold x in Hby. rewrite upd_eq, nth_lookup. destruct (decide (o <= Z.to_nat (p mod BSIZE) < o + length piece)%nat) as [Hi|Hi].
    + rewrite lookup_splice_in, <- nth_lookup by lia. rewrite app_nth2 by lia. f_equal. lia.
    + rewrite lookup_splice_out, <- nth_lookup by lia. rewrite Hby. destruct (decide (Z.to_nat (p mod BSIZE) < o)%nat).
      * rewrite app_nth1 by lia. done.
      * rewrite !nth_overflow; [done|rewrite length_app; lia|lia].
  - rewrite upd_ne by (apply put_other; [done|done|tauto]). rewrite Hby. destruct (decide (Z.to_nat p < length data)%nat).
    + by rewrite app_nth1 by lia.
    + assert (k < p / BSIZE) by (consts; lia). rewrite !nth_overflow; [done|rewrite length_app; consts; lia|lia].
Qed.
End Put.

(** ** The files of an image

    Inode [m] is [I m] and its bytes are [D m]; it has blocks for [E m]. *)

Record files (V : Z -> list Z) (fb : Z) (S : slots) (N : Z) (I : Z -> inode) (D : Z -> list Z) : Prop := {
  fl_place : place V fb S N;
  fl_real : forall m, 1 <= m < N -> real V S m (I m);
  fl_bytes : forall m, 1 <= m < N -> bytes_are V S m (D m);
  fl_ok : forall m, 1 <= m < N -> inode_ok (I m);
}.
Definition roomy (S : slots) (N : Z) (E : Z -> Z) : Prop := forall m, 1 <= m < N -> room_for S m (E m).
Definition zupd {A} (f : Z -> A) (n : Z) (x : A) : Z -> A := fun m => if bool_decide (m = n) then x else f m.

Lemma zupd_eq {A} (f : Z -> A) n x : zupd f n x n = x.
Proof. unfold zupd. by rewrite bool_decide_eq_true_2. Qed.
Lemma zupd_ne {A} (f : Z -> A) n x m : m <> n -> zupd f n x m = f m.
Proof. intros Hm. unfold zupd. by rewrite bool_decide_eq_false_2. Qed.

(** A block for slot [k0] of inode [n], which may rewrite its indirect
    block. *)
Lemma files_gain V fb S N I D n k0 V' i' : files V fb S N I D -> 1 <= n < N -> in_slots k0 -> S n k0 = 0 -> (k0 < MAXFILE -> Z.of_nat (length (D n)) <= k0 * BSIZE) ->
  fb < FSSIZE -> place V' (fb + 1) (upd2 S n k0 fb) N -> (forall b, S n MAXFILE = 0 \/ b <> S n MAXFILE -> V' b = V b) -> real V' (upd2 S n k0 fb) n i' -> inode_ok i' ->
  files V' (fb + 1) (upd2 S n k0 fb) N (zupd I n i') D.
Proof.
  intros [P R B O] Hn Hk Hz Hlen Hfb HP' HV Hr' Ho'. assert (forall m k, 1 <= m < N -> in_slots k -> ~ (m = n /\ k = MAXFILE) -> S m k <> 0 -> V' (S m k) = V (S m k)) as Hsame.
  { intros m k Hm Hk' Hne Hs. apply HV. destruct (Z.eq_dec (S n MAXFILE) 0) as [|Hm0]; [by left|right]. intros E.
    destruct (pl_inj _ _ _ _ P m n k MAXFILE Hm Hn Hk' in_slots_max Hs E). tauto. }
  split; [done|..].
  - intros m Hm. destruct (Z.eq_dec m n) as [->|Hne]; [by rewrite zupd_eq|]. rewrite zupd_ne by done. intros k Hk'. rewrite upd2_ne by tauto.
    apply (real_frame V); [|by apply R|done]. intros Hs. apply Hsame; [done|apply in_slots_max|tauto|done].
  - intros m Hm. assert (bytes_are V' S m (D m)) as Hb.
    { apply (bytes_frame V); [|by apply B]. intros k Hk' Hs. apply Hsame; [done|unfold in_slots; lia|lia|done]. }
    destruct (Z.eq_dec m n) as [->|Hne].
    + eapply gain_bytes; [exact Hn|done| |done]. rewrite HV; [apply P; lia|].
      destruct (Z.eq_dec (S n MAXFILE) 0) as [|Hm0]; [by left|right]. destruct (pl_range _ _ _ _ P n MAXFILE Hn in_slots_max); lia.
    + intros p Hp. rewrite !upd2_ne by tauto. by apply Hb.
  - intros m Hm. destruct (Z.eq_dec m n) as [->|Hne]; [by rewrite zupd_eq|]. rewrite zupd_ne by done. by apply O.
Qed.

(** The block for the byte [e]. *)
Lemma room_next S n e fbn : room_for S n e -> fbn = e / BSIZE -> 0 <= e -> e <> fbn * BSIZE -> room_for S n (e + 1).
Proof. intros [R1 R2] -> He Hne. consts. split; [intros k Hk; rewrite R1 by done|rewrite R2]; consts; Z.div_mod_to_equations; lia. Qed.
Lemma room_gain S n e fbn fb : room_for S n e -> e = fbn * BSIZE -> 0 <= fbn < MAXFILE -> fbn <> NDIRECT -> fb <> 0 -> room_for (upd2 S n fbn fb) n (e + 1).
Proof.
  intros [R1 R2] -> Hf Hne Hfb. split.
  - intros k Hk. destruct (Z.eq_dec k fbn) as [->|Hk']; [rewrite upd2_eq; consts; lia|]. rewrite upd2_ne, R1 by tauto. consts. lia.
  - rewrite upd2_ne, R2 by lia. consts. lia.
Qed.
Lemma room_gain2 S n e a b : room_for S n e -> e = NDIRECT * BSIZE -> a <> 0 -> b <> 0 -> room_for (upd2 (upd2 S n MAXFILE a) n NDIRECT b) n (e + 1).
Proof.
  intros [R1 R2] -> Ha Hb. split.
  - intros k Hk. destruct (Z.eq_dec k NDIRECT) as [->|Hk']; [rewrite upd2_eq; consts; lia|]. rewrite !upd2_ne, R1 by lia. consts. lia.
  - rewrite upd2_ne, upd2_eq by (consts; lia). consts. lia.
Qed.
Lemma room_same S n e e' fbn : room_for S n (e + 1) -> fbn = e / BSIZE -> 0 <= e < e' -> e' <= (fbn + 1) * BSIZE -> room_for S n e'.
Proof. intros [R1 R2] -> He He'. consts. split; [intros k Hk; rewrite R1 by done|rewrite R2]; consts; Z.div_mod_to_equations; lia. Qed.
Lemma room_other S n k a m e : m <> n -> room_for S m e -> room_for (upd2 S n k a) m e.
Proof. intros Hm [R1 R2]. split; [intros j Hj|]; rewrite upd2_ne by tauto; auto. Qed.

Lemma nblk_next e fbn : fbn = e / BSIZE -> 0 <= e -> nblk (e + 1) = nblk e + (if bool_decide (e = fbn * BSIZE) then if bool_decide (fbn = NDIRECT) then 2 else 1 else 0).
Proof. intros -> He. unfold nblk. consts. repeat case_bool_decide; destruct (Z.ltb_spec 12288 (e + 1)), (Z.ltb_spec 12288 e); Z.div_mod_to_equations; lia. Qed.
Lemma nblk_same e e' fbn : fbn = e / BSIZE -> 0 <= e < e' -> e' <= (fbn + 1) * BSIZE -> nblk e' = nblk (e + 1).
Proof. intros -> He He'. unfold nblk. consts. destruct (Z.ltb_spec 12288 (e + 1)), (Z.ltb_spec 12288 e'); Z.div_mod_to_equations; lia. Qed.

(** ** iappend *)

(** The program after the image has its size. *)
Definition st (V : Z -> list Z) (N fb : Z) : mkfs := mkMkfs V FSSIZE new_sb N fb.

Lemma wp_assert b Q s : b = true -> Q tt s -> wp (Mkfs.assert b) Q s.
Proof. by intros ->. Qed.
Lemma wp_rsect V N fb b Q : 0 <= b < FSSIZE -> Q (V b) (st V N fb) -> wp (rsect b) Q (st V N fb).
Proof. intros Hb HQ. unfold rsect. wp_step. wp_step. cbn [nsect img st]. rewrite sector_id by (consts; lia). rewrite (proj2 (Z.ltb_lt _ _)) by apply Hb. exact HQ. Qed.
Lemma wp_wsect V N fb b buf Q : 0 <= b < FSSIZE -> Q tt (st (upd V b buf) N fb) -> wp (wsect b buf) Q (st V N fb).
Proof.
  intros Hb HQ. unfold wsect. wp_step. unfold on_img. cbn [nsect img mk_sb Mkfs.freeinode Mkfs.freeblock st]. rewrite sector_id by (consts; lia).
  rewrite Z.max_l by lia. exact HQ.
Qed.
Lemma wp_next_block V N fb Q : 0 <= fb < FSSIZE -> Q fb (st V N (fb + 1)) -> wp next_block Q (st V N fb).
Proof.
  intros Hb HQ. unfold next_block. wp_step. wp_step. wp_step. unfold set_freeblock. cbn [nsect img mk_sb Mkfs.freeinode Mkfs.freeblock st].
  rewrite u32_small by (consts; lia). exact HQ.
Qed.

Lemma files_same V fb S N I D n i : I n = i -> files V fb S N I D -> files V fb S N (zupd I n i) D.
Proof.
  intros <- [P R B O]. assert (forall m, zupd I n (I n) m = I m) as E by (intros m; unfold zupd; by case_bool_decide as Em; [rewrite Em|]).
  split; [done|..]; intros m; rewrite ?E; auto.
Qed.
Definition same_inode (i i' : inode) : Prop := same_fields i i' /\ i_size i' = i_size i.
Lemma with_addr_same i k a : same_inode i (with_addr k a i).
Proof. split; [unfold same_fields; cbn; tauto|done]. Qed.
Lemma same_inode_refl i : same_inode i i.
Proof. split; [apply same_fields_refl|done]. Qed.
Lemma same_inode_trans i j k : same_inode i j -> same_inode j k -> same_inode i k.
Proof. intros [F1 E1] [F2 E2]. split; [by eapply same_fields_trans|congruence]. Qed.

Section Append.
Context (N n : Z) (Hn : 1 <= n < N).

Lemma slot_small V fb S I D k : files V fb S N I D -> in_slots k -> 0 <= S n k < FSSIZE /\ xint (S n k) = S n k /\ (S n k = 0 \/ nmeta <= S n k < fb).
Proof.
  intros [P _ _ _] Hk. pose proof (pl_fb _ _ _ _ P). destruct (pl_range _ _ _ _ P n k Hn Hk) as [E|Hr]; [rewrite E; consts; split; [lia|by split; [|left]]|].
  consts. split; [lia|]. split; [apply xint_id; lia|by right].
Qed.

(** take_addr on the slot [kk] of the address [k]. *)
Lemma take_addr_spec V fb S I D i k kk Q : files V fb S N I D -> I n = i -> 0 <= k <= NDIRECT -> kk = (if k =? NDIRECT then MAXFILE else k) ->
  (S n kk = 0 -> fb < FSSIZE /\ (kk < MAXFILE -> Z.of_nat (length (D n)) <= kk * BSIZE)) ->
  (S n kk <> 0 -> files V fb S N (zupd I n i) D -> i_addrs i k = S n kk -> Q i (st V N fb)) ->
  (S n kk = 0 -> let S' := upd2 S n kk fb in let i' := with_addr k fb i in files V (fb + 1) S' N (zupd I n i') D -> i_addrs i' k = S' n kk -> S' n kk <> 0 -> Q i' (st V N (fb + 1))) ->
  wp (take_addr k i) Q (st V N fb).
Proof.
  intros HF Hi Hk -> Hroom HQ1 HQ2. set (kk := if k =? NDIRECT then MAXFILE else k) in *. assert (in_slots kk) as Hkk by (unfold kk, in_slots; destruct (k =? NDIRECT); consts; lia).
  pose proof HF as [P R B O]. pose proof (R n Hn) as Hr. rewrite Hi in Hr. assert (i_addrs i k = S n kk) as Ea.
  { rewrite <- (Hr kk Hkk). unfold kk, slot_of. destruct (Z.eqb_spec k NDIRECT) as [->|]; [done|]. by rewrite (proj2 (Z.ltb_lt k NDIRECT)) by lia. }
  destruct (slot_small V fb S I D kk HF Hkk) as (_ & Ex & _). unfold take_addr. rewrite Ea, Ex. destruct (Z.eqb_spec (S n kk) 0) as [Hz|Hz].
  - destruct (Hroom Hz) as [Hfb Hlen]. pose proof (pl_fb _ _ _ _ P). wp_step. apply wp_next_block; [consts; lia|]. wp_step.
    rewrite xint_id by (consts; lia). assert (fb <> 0) as Hf0 by (consts; lia). apply HQ2; [done| |cbn; by rewrite upd_eq, upd2_eq|by rewrite upd2_eq].
    eapply files_gain; try done.
    + by apply gain_same.
    + unfold kk. destruct (Z.eqb_spec k NDIRECT) as [->|Hne].
      * by apply (gain_indirect_real V fb S N n MAXFILE).
      * apply gain_direct_real; [lia|done].
    + rewrite <- Hi. apply with_addr_ok; [by apply O|]. unfold u32_ok. consts. lia.
  - wp_step. apply HQ1; [done|by apply files_same|done].
Qed.

(** The entry [fbn] of the indirect block. *)
Lemma entry_spec V fb S I D i fbn Q : files V fb S N I D -> I n = i -> S n MAXFILE <> 0 -> NDIRECT <= fbn < MAXFILE ->
  (S n fbn = 0 -> fb < FSSIZE /\ Z.of_nat (length (D n)) <= fbn * BSIZE) ->
  (S n fbn <> 0 -> Q (i, S n fbn) (st V N fb)) ->
  (S n fbn = 0 -> forall V', let S' := upd2 S n fbn fb in files V' (fb + 1) S' N (zupd I n i) D -> (forall b, b < nmeta -> V' b = V b) -> fb <> 0 -> Q (i, fb) (st V' N (fb + 1))) ->
  wp (let e := (4 * Z.to_nat (fbn - NDIRECT))%nat in
      let* indirect := rsect (xint (i_addrs i NDIRECT)) in
      let* indirect := (if getf 4 e indirect =? 0 then
                          let* b := next_block in
                          let indirect := putf 4 e (xint b) indirect in
                          wsect (xint (i_addrs i NDIRECT)) indirect ;;
                          ret indirect
                        else ret indirect) in
      ret (i, xint (getf 4 e indirect))) Q (st V N fb).
Proof.
  intros HF Hi Hm Hf Hroom HQ1 HQ2. cbv zeta. pose proof HF as [P R B O]. pose proof (R n Hn) as Hr. rewrite Hi in Hr. assert (in_slots fbn) as Hin by (unfold in_slots; consts; lia).
  assert (i_addrs i NDIRECT = S n MAXFILE) as Ea by (rewrite <- (Hr MAXFILE in_slots_max); done). destruct (slot_small V fb S I D _ HF in_slots_max) as (Hmr & Ex & Hmd).
  destruct (slot_small V fb S I D _ HF Hin) as (_ & Exf & _). rewrite Ea, Ex. wp_step. apply wp_rsect; [done|].
  assert (getf 4 (4 * Z.to_nat (fbn - NDIRECT)) (V (S n MAXFILE)) = S n fbn) as Eg.
  { rewrite <- (Hr fbn Hin). unfold slot_of. rewrite (proj2 (Z.ltb_ge _ _)), (proj2 (Z.eqb_neq fbn MAXFILE)) by lia. by rewrite Ea, (proj2 (Z.eqb_neq _ 0)) by done. }
  rewrite Eg. destruct (Z.eqb_spec (S n fbn) 0) as [Hz|Hz].
  2: { wp_step. wp_step. wp_step. rewrite Eg, Exf. by apply HQ1. }
  destruct (Hroom Hz) as [Hfb Hlen]. pose proof (pl_fb _ _ _ _ P).
  destruct (gain_entry_real V fb S N n fbn P Hn Hin Hz Hfb i Hf Hm Hr) as [Hr' HP']. wp_step. wp_step. apply wp_next_block; [consts; lia|]. wp_step.
  rewrite xint_id by (consts; lia). apply wp_wsect; [done|]. wp_step. wp_step.
  assert (getf 4 (4 * Z.to_nat (fbn - NDIRECT)) (putf 4 (4 * Z.to_nat (fbn - NDIRECT)) fb (V (S n MAXFILE))) = fb) as ->.
  { rewrite getf_putf_same; [apply Z.mod_small; consts; lia|]. rewrite (proj1 (pl_ok _ _ _ _ P _)). consts. lia. }
  rewrite xint_id by (consts; lia). apply HQ2; [done|..].
  - eapply files_gain; try done.
    + intros b Hb. apply upd_ne. destruct Hb; congruence.
    + rewrite <- Hi. by apply O.
  - intros b Hb. apply upd_ne. lia.
  - consts. lia.
Qed.

Lemma addr_spec V fb S I D i e fbn Q : files V fb S N I D -> I n = i -> e = Z.of_nat (length (D n)) -> room_for S n e -> fbn = e / BSIZE -> e < MAXFILE * BSIZE ->
  fb + (nblk (e + 1) - nblk e) <= FSSIZE ->
  (forall V' S' I' i', let fb' := fb + (nblk (e + 1) - nblk e) in files V' fb' S' N I' D -> I' n = i' -> (forall m, m <> n -> I' m = I m) ->
     room_for S' n (e + 1) -> (forall m k, m <> n -> S' m k = S m k) -> S' n fbn <> 0 -> same_inode i i' -> (forall b, b < nmeta -> V' b = V b) -> Q (i', S' n fbn) (st V' N fb')) ->
  wp (iappend_addr i fbn) Q (st V N fb).
Proof.
  intros HF Hi He Hroom Hf Hmax Hfit HQ. assert (0 <= fbn < MAXFILE) as Hfr by (subst fbn; apply slot_range; lia).
  pose proof (nblk_next e fbn Hf ltac:(lia)) as Hnb. destruct Hroom as [Rd Ri].
  assert (S n fbn = 0 <-> e = fbn * BSIZE) as Hdat. { specialize (Rd fbn Hfr). consts. split; intros; Z.div_mod_to_equations; lia. }
  unfold iappend_addr. destruct (Z.ltb_spec fbn NDIRECT) as [Hlt|Hge].
  - wp_step. assert (fbn <> NDIRECT) as Hnd by lia. rewrite (bool_decide_eq_false_2 (fbn = NDIRECT)) in Hnb by done.
    eapply (take_addr_spec V fb S I D i fbn fbn); [exact HF|done|lia|by rewrite (proj2 (Z.eqb_neq _ _))|..].
    + intros Hz. apply Hdat in Hz. rewrite (bool_decide_eq_true_2 (e = fbn * BSIZE)) in Hnb by done. split; [lia|]. intros _. lia.
    + intros Hs HF' Ea. wp_step. rewrite Ea. destruct (slot_small V fb S I D fbn HF ltac:(unfold in_slots; lia)) as (_ & -> & _).
      rewrite (bool_decide_eq_false_2 (e = fbn * BSIZE)) in Hnb by tauto. rewrite Hnb in HQ, Hfit. replace (fb + (nblk e + 0 - nblk e)) with fb in HQ by lia.
      apply (HQ V S I); try done. apply (room_next S n e fbn); [by split|done|lia|tauto].
    + intros Hz S' i' HF' Ea Hs. wp_step. rewrite Ea. pose proof (proj1 Hdat Hz) as Hz'. rewrite (bool_decide_eq_true_2 (e = fbn * BSIZE)) in Hnb by done. rewrite Hnb in HQ, Hfit.
      replace (fb + (nblk e + 1 - nblk e)) with (fb + 1) in HQ by lia.
      destruct (slot_small V (fb + 1) S' _ D fbn HF' ltac:(unfold in_slots; lia)) as (_ & -> & _). eapply (HQ V S'); try done.
      * apply zupd_eq.
      * intros m Hm. by apply zupd_ne.
      * apply room_gain; [by split|done|done|done|]. unfold S' in Hs. by rewrite upd2_eq in Hs.
      * intros m k Hm. apply upd2_ne. tauto.
  - assert (S n MAXFILE = 0 -> e = NDIRECT * BSIZE /\ fbn = NDIRECT) as Hfirst.
    { intros Hz. assert (~ NDIRECT * BSIZE < e) by (intros Hlt; by apply Ri in Hlt). consts. split; [|subst fbn]; Z.div_mod_to_equations; lia. }
    wp_step. eapply (take_addr_spec V fb S I D i NDIRECT MAXFILE); [exact HF|done|consts; lia|done|..].
    + intros Hz. destruct (Hfirst Hz) as [E1 E2].
      rewrite E1, E2 in Hnb. rewrite !bool_decide_eq_true_2 in Hnb by done. split; [rewrite E1 in Hfit; lia|lia].
    + intros Hs HF' Ea. eapply (entry_spec V fb S _ D i fbn); [exact HF'|apply zupd_eq|done|lia|..].
      * intros Hz. apply Hdat in Hz. rewrite (bool_decide_eq_true_2 (e = fbn * BSIZE)) in Hnb by done. destruct (bool_decide (fbn = NDIRECT)); lia.
      * intros Hsf. rewrite (bool_decide_eq_false_2 (e = fbn * BSIZE)) in Hnb by tauto. rewrite Hnb in HQ, Hfit. replace (fb + (nblk e + 0 - nblk e)) with fb in HQ by lia.
        apply (HQ V S I); try done. apply (room_next S n e fbn); [by split|done|lia|tauto].
      * intros Hz V' S' HF2 Hlow Hfb0. pose proof (proj1 Hdat Hz) as Hz'. assert (fbn <> NDIRECT) as Hne by (intros E; apply Ri in Hs; consts; lia).
        rewrite bool_decide_eq_true_2, (bool_decide_eq_false_2 (fbn = NDIRECT)) in Hnb by done. rewrite Hnb in HQ, Hfit. replace (fb + (nblk e + 1 - nblk e)) with (fb + 1) in HQ by lia.
        assert (S' n fbn = fb) as Es by apply upd2_eq.
        assert (Q (i, S' n fbn) (st V' N (fb + 1))) as HX; [|by rewrite Es in HX]. eapply (HQ V' S'); try done.
        -- apply zupd_eq.
        -- intros m Hm. by rewrite !zupd_ne.
        -- apply room_gain; [by split|done|done|done|done].
        -- intros m k Hm. apply upd2_ne. tauto.
        -- by rewrite Es.
    + intros Hz S1 i1 HF1 Ea Hs. destruct (Hfirst Hz) as [E1 E2].
      rewrite !bool_decide_eq_true_2 in Hnb by congruence. rewrite Hnb in HQ, Hfit. replace (fb + (nblk e + 2 - nblk e)) with (fb + 2) in HQ by lia.
      assert (S1 n fbn = 0) as Hz1 by (unfold S1; rewrite upd2_ne by (consts; lia); apply Hdat; congruence).
      eapply (entry_spec V (fb + 1) S1 _ D i1 fbn); [exact HF1|apply zupd_eq|done|lia|intros _; lia|intros; lia|].
      intros _ V' S' HF2 Hlow Hfb0. assert (S' n fbn = fb + 1) as Es by apply upd2_eq. replace (fb + 1 + 1) with (fb + 2) in * by lia.
      assert (Q (i1, S' n fbn) (st V' N (fb + 2))) as HX; [|by rewrite Es in HX]. eapply (HQ V' S'); try done.
      * apply zupd_eq.
      * intros m Hm. by rewrite !zupd_ne.
      * unfold S', S1. rewrite E2. apply room_gain2; [by split|done| |lia]. unfold S1 in Hs. by rewrite upd2_eq in Hs.
      * intros m k Hm. unfold S', S1. rewrite !upd2_ne by tauto. done.
      * by rewrite Es.
Qed.

(** More bytes in a block of inode [n]. *)
Lemma files_put V fb S I D k o piece : files V fb S N I D -> 0 <= k < MAXFILE -> S n k <> 0 -> Z.of_nat (length (D n)) = k * BSIZE + Z.of_nat o ->
  (o + length piece <= Z.to_nat BSIZE)%nat -> Forall byte_ok piece ->
  files (upd V (S n k) (splice (V (S n k)) o piece)) fb S N I (zupd D n (D n ++ piece)).
Proof.
  intros [P R B O] Hk Hs Hl Ho Hb. split; [by eapply put_place|..|done].
  - intros m Hm. eapply put_real; try done. by apply R.
  - intros m Hm. destruct (Z.eq_dec m n) as [->|Hne]; [rewrite zupd_eq; eapply put_bytes; try done; by apply B|].
    rewrite zupd_ne by done. eapply put_bytes_other; try done. by apply B.
Qed.
Lemma nblk_mono a b : a <= b -> nblk a <= nblk b.
Proof. intros H. unfold nblk. destruct (Z.ltb_spec 12288 a), (Z.ltb_spec 12288 b); Z.div_mod_to_equations; lia. Qed.

Section Loop.
Context (V0 : Z -> list Z) (fb0 : Z) (S0 : slots) (I0 : Z -> inode) (D0 : Z -> list Z) (total : list Z).
Hypotheses (Hmax : Z.of_nat (length total) <= MAXFILE * BSIZE) (Hbytes : Forall byte_ok total).
Hypothesis Hfit : fb0 + (nblk (Z.of_nat (length total)) - nblk (Z.of_nat (length (D0 n)))) <= FSSIZE.

(** After a part of the append; [p] is to come. *)
Record appending V fb S I D (p : list Z) : Prop := {
  ap_files : files V fb S N I D;
  ap_data : D n ++ p = total;
  ap_room : room_for S n (Z.of_nat (length (D n)));
  ap_other : forall m, m <> n -> I m = I0 m /\ D m = D0 m /\ forall k, S m k = S0 m k;
  ap_inode : same_inode (I0 n) (I n);
  ap_count : fb - nblk (Z.of_nat (length (D n))) = fb0 - nblk (Z.of_nat (length (D0 n)));
  ap_low : forall b, b < nmeta -> V b = V0 b;
}.
Definition appended (p : list Z) (din : inode) (off : Z) (s : mkfs) : Prop := exists V fb S I D,
  s = st V N fb /\ appending V fb S I D p /\ din = I n /\ off = Z.of_nat (length (D n)).

Lemma iappend_step_spec din off p s : appended p din off s ->
  wp (iappend_step (din, off, p)) (fun r s' => match r with
    | inl (din', off', p') => appended p' din' off' s' /\ (length p' < length p)%nat
    | inr (din', off') => appended [] din' off' s' end) s.
Proof.
  intros (V & fb & S & I & D & -> & [F1 F2 F3 F4 F5 F6 F7] & -> & ->). unfold iappend_step. set (e := Z.of_nat (length (D n))) in *.
  destruct p as [|y p]; [apply wp_ret; exists V, fb, S, I, D; split; [done|]; split; [by split|done]|]. rewrite (proj2 (Z.leb_gt _ 0)) by (cbn [length]; lia).
  set (q := y :: p) in *. assert (length total = length (D n) + length q)%nat as Lt by (by rewrite <- F2, length_app). assert (0 < length q)%nat as Lq by (cbn; lia).
  clearbody q. set (fbn := e / BSIZE). assert (0 <= e < MAXFILE * BSIZE) as He by lia. pose proof (slot_range e He) as Hf. fold fbn in Hf.
  wp_step. apply wp_assert; [apply Z.ltb_lt; lia|]. pose proof (nblk_mono (e + 1) (Z.of_nat (length total)) ltac:(lia)) as Hnm.
  wp_step. eapply (addr_spec V fb S I D (I n) e fbn); [done|done|done|done|done|lia|lia|]. cbv zeta. intros V1 S1 I1 i1 G1 G2 G3 G4 G5 G6 G7 G8. cbn [fst snd].
  destruct (slot_small V1 _ S1 I1 D fbn G1 ltac:(unfold in_slots; lia)) as (Hx & _ & _). wp_step. apply wp_rsect; [done|]. wp_step. apply wp_wsect; [done|]. wp_step.
  set (n1 := Z.min _ _). assert (e / BSIZE * BSIZE <= e < e / BSIZE * BSIZE + BSIZE) as Hb by (consts; Z.div_mod_to_equations; lia). fold fbn in Hb.
  assert (0 < n1 <= Z.of_nat (length q) /\ e + n1 <= (fbn + 1) * BSIZE) as Hn1 by (unfold n1; lia). set (piece := take (Z.to_nat n1) q).
  assert (length piece = Z.to_nat n1) as Lp by (unfold piece; rewrite length_take; lia). split; [|rewrite length_drop; lia].
  set (fb1 := fb + _) in *. exists (upd V1 (S1 n fbn) (splice (V1 (S1 n fbn)) (Z.to_nat (e - fbn * BSIZE)) piece)), fb1, S1, I1, (zupd D n (D n ++ piece)).
  assert (Z.of_nat (length (zupd D n (D n ++ piece) n)) = e + n1) as Le by (rewrite zupd_eq, length_app; lia). split; [done|]. split; [|split; [congruence|rewrite Le; apply u32_small; consts; lia]].
  split; rewrite ?Le.
  - apply files_put; [done|done|done|fold e; consts; lia|rewrite Lp; consts; lia|]. rewrite <- F2 in Hbytes. apply Forall_app in Hbytes as [_ Hq]. by apply Forall_take.
  - rewrite zupd_eq, <- app_assoc. unfold piece. by rewrite take_drop.
  - apply (room_same S1 n e _ fbn); [done|done|lia|lia].
  - intros m Hm. destruct (F4 m Hm) as (E1 & E2 & E3). rewrite zupd_ne, G3 by done. split; [done|]. split; [done|]. intros k. by rewrite G5.
  - rewrite G2. by eapply same_inode_trans.
  - rewrite (nblk_same e (e + n1) fbn) by (done || lia). unfold fb1. lia.
  - intros b Hb'. rewrite upd_ne; [by rewrite G8, F7|]. destruct (slot_small V1 _ S1 I1 D fbn G1 ltac:(unfold in_slots; lia)) as (_ & _ & [|]); [done|lia].
Qed.
End Loop.
End Append.

(** ** Storing inodes *)

Definition on_disk (V : Z -> list Z) (n : Z) : inode := disk_inode new_sb V n.
Definition stored_at (V : Z -> list Z) (n : Z) (i : inode) : Z -> list Z :=
  upd V (IBLOCK n new_sb) (put_dinode (dinode_off n) i (V (IBLOCK n new_sb))).

Lemma put_dinode_ok o i d : (o + 64 <= Z.to_nat BSIZE)%nat -> block_ok d -> block_ok (put_dinode o i d).
Proof.
  intros Ho [Hl Hb]. split; [rewrite length_put_dinode; [done|lia]|]. unfold put_dinode. generalize (i_addrs i), (Z.to_nat (NDIRECT + 1)).
  intros a k. induction k as [|k IH]; cbn [put_addrs]; by repeat apply putf_bytes.
Qed.
Lemma stored_same_inode V n i : 0 <= n < NINODES -> block_ok (V (IBLOCK n new_sb)) -> inode_ok i -> inode_disk (on_disk (stored_at V n i) n) = inode_disk i.
Proof.
  intros Hn [Hl _] Hok. change (dinode_of (dinode_off n) (stored_at V n i (IBLOCK n new_sb)) = inode_disk i). unfold stored_at. rewrite upd_eq.
  pose proof (dinode_off_bound n ltac:(lia)). apply dinode_of_put; [lia|done].
Qed.
Lemma stored_other_inode V n i m : 0 <= n < NINODES -> 0 <= m < NINODES -> m <> n -> block_ok (V (IBLOCK n new_sb)) ->
  inode_disk (on_disk (stored_at V n i) m) = inode_disk (on_disk V m).
Proof.
  intros Hn Hm Hne [Hl _]. change (dinode_of (dinode_off m) (stored_at V n i (IBLOCK m new_sb)) = dinode_of (dinode_off m) (V (IBLOCK m new_sb))). unfold stored_at.
  destruct (inode_block_eq n Hn) as [En _], (inode_block_eq m Hm) as [Em _]. destruct (Z.eq_dec (IBLOCK m new_sb) (IBLOCK n new_sb)) as [E|E]; [|by rewrite upd_ne].
  rewrite E, upd_eq. apply dinode_of_other; [lia|lia|done|]. change IPB with 16. rewrite E in Em. Z.div_mod_to_equations. lia.
Qed.
Lemma real_disk V S n i j : inode_disk i = inode_disk j -> real V S n j -> real V S n i.
Proof.
  intros E Hr k Hk. rewrite <- (Hr k Hk). destruct (inode_disk_eq i j E) as (_ & _ & _ & Ea). unfold in_slots in Hk. unfold slot_of.
  rewrite (Ea NDIRECT) by (consts; lia). destruct (Z.ltb_spec k NDIRECT); [|done]. apply Ea. lia.
Qed.
(** The inode blocks are no block of any file. *)
Lemma store_real V fb S N n i m j : place V fb S N -> 0 <= n < NINODES -> 1 <= m < N -> real V S m j -> real (stored_at V n i) S m j.
Proof.
  intros P Hn Hm. apply real_frame. intros Hs. unfold stored_at. apply upd_ne. destruct (inode_block_eq n Hn) as [_ Hb].
  destruct (pl_range _ _ _ _ P m MAXFILE Hm in_slots_max); [done|]. consts. lia.
Qed.
Lemma store_files V fb S N I D n i : files V fb S N I D -> 1 <= n < N -> N <= NINODES -> (forall m, 1 <= m < N -> m <> n -> inode_disk (I m) = inode_disk (on_disk V m)) ->
  real V S n i -> inode_ok i -> files (stored_at V n i) fb S N (on_disk (stored_at V n i)) D.
Proof.
  intros [P R B O] Hn HN Hd Hr Hok. assert (0 <= n < NINODES) as Hn' by lia. destruct (inode_block_eq n Hn') as [_ Hib]. pose proof (pl_ok _ _ _ _ P) as Pok.
  assert (place (stored_at V n i) fb S N) as P'.
  { destruct P as [P1 P2 P3 P4 P5 P6]. split; try done.
    - intros b. unfold stored_at, upd. case_decide; [|done]. apply put_dinode_ok; [apply dinode_off_bound; lia|done].
    - intros b Hb. unfold stored_at. rewrite upd_ne by (consts; lia). by apply P5. }
  split; [done|..].
  - intros m Hm. destruct (Z.eq_dec m n) as [->|Hne].
    + eapply real_disk; [by apply stored_same_inode|]. by eapply store_real.
    + eapply real_disk; [by apply stored_other_inode; [|lia|..]|]. eapply store_real; [done|done|done|]. eapply real_disk; [symmetry; by apply Hd|]. by apply R.
  - intros m Hm. apply (bytes_frame V); [|by apply B]. intros k Hk Hs. unfold stored_at. apply upd_ne.
    destruct (pl_range _ _ _ _ P m k Hm ltac:(unfold in_slots; lia)); [done|]. consts. lia.
  - intros m Hm. apply get_dinode_ok, P'.
Qed.

(** ** The image between the steps of main *)

Record built (V : Z -> list Z) (fb N : Z) (D : Z -> list Z) (T : Z -> Z) : Prop := {
  bu_files : exists S, files V fb S N (on_disk V) D /\ roomy S N (fun m => Z.of_nat (length (D m)));
  bu_fields : forall m, 1 <= m < N -> i_type (on_disk V m) = T m /\ i_nlink (on_disk V m) = 1 /\ i_size (on_disk V m) = Z.of_nat (length (D m));
  bu_free : forall m, 0 <= m < NINODES -> m = 0 \/ N <= m -> i_type (on_disk V m) = 0;
  bu_low : forall b, b < 33 \/ b = 46 -> V b = if b =? 1 then put_sb new_sb zeroes else zeroes;
  bu_count : 1 <= N <= NINODES;
}.

Lemma wp_rinode V N fb n Q : 0 <= n < NINODES -> Q (on_disk V n) (st V N fb) -> wp (rinode n) Q (st V N fb).
Proof.
  intros Hn HQ. destruct (inode_block_eq n Hn) as [_ Hb]. unfold rinode. wp_step. wp_step. wp_step. cbn [mk_sb st]. apply wp_rsect; [consts; lia|]. wp_step. exact HQ.
Qed.
Lemma wp_winode V N fb n i Q : 0 <= n < NINODES -> Q tt (st (stored_at V n i) N fb) -> wp (winode n i) Q (st V N fb).
Proof.
  intros Hn HQ. destruct (inode_block_eq n Hn) as [_ Hb]. unfold winode. wp_step. wp_step. wp_step. cbn [mk_sb st]. apply wp_rsect; [consts; lia|]. apply wp_wsect; [consts; lia|]. exact HQ.
Qed.

Lemma files_ext V fb S N I D D' : (forall m, D m = D' m) -> files V fb S N I D -> files V fb S N I D'.
Proof. intros E [P R B O]. split; [done|done| |done]. intros m Hm. rewrite <- E. by apply B. Qed.
Lemma on_disk_same V V' m : 0 <= m < NINODES -> (forall b, b < nmeta -> V' b = V b) -> on_disk V' m = on_disk V m.
Proof. intros Hm HV. destruct (inode_block_eq m Hm) as [_ Hb]. unfold on_disk, disk_inode. rewrite HV; [done|consts; lia]. Qed.

(** iappend puts the bytes behind the others of the file. *)
Lemma wp_iappend V fb N D T n xp Q : built V fb N D T -> 1 <= n < N -> Forall byte_ok (D n ++ xp) -> let data := D n ++ xp in
  Z.of_nat (length data) <= MAXFILE * BSIZE ->
  let fb' := fb + (nblk (Z.of_nat (length data)) - nblk (Z.of_nat (length (D n)))) in fb' <= FSSIZE ->
  (forall V', built V' fb' N (zupd D n data) T -> Q tt (st V' N fb')) -> wp (iappend n xp) Q (st V N fb).
Proof.
  intros [(S & HF & HR) Hfl Hfree Hlow Hc] Hn Hbytes data Hmax fb' Hfit HQ. destruct (Hfl n Hn) as (Ft & Fl & Fs). assert (0 <= n < NINODES) as Hn' by lia.
  unfold iappend. wp_step. apply wp_rinode; [done|]. wp_step. rewrite Fs, xint_id by (unfold data in Hmax; rewrite length_app in Hmax; consts; lia).
  eapply wp_mono.
  { apply (wp_loop (fun x s => appended N n V fb S (on_disk V) D data x.2 x.1.1 x.1.2 s) (fun x _ => length x.2)).
    - intros [[din off] p] s H. cbn [fst snd] in *. eapply wp_mono; [by apply (iappend_step_spec N n Hn V fb S (on_disk V) D data Hmax Hbytes Hfit)|].
      intros [[[din' off'] p']|[din' off']] s' H'; cbn [fst snd]; [exact H'|]. instantiate (1 := fun r s' => appended N n V fb S (on_disk V) D data [] r.1 r.2 s'). exact H'.
    - cbn [fst snd]. exists V, fb, S, (on_disk V), D. split; [done|]. split; [|done]. split; try done. by apply HR.
    - cbn. lia. }
  cbn beta. intros [din off] s' (V1 & fb1 & S1 & I1 & D1 & -> & [G1 G2 G3 G4 G5 G6 G7] & Ed & Eo). cbn [fst snd] in Ed, Eo |- *. subst din off. rewrite app_nil_r in G2.
  assert (fb1 = fb') as -> by (rewrite G2 in G6; unfold fb'; lia). rewrite G2, xint_id by (consts; lia). apply wp_winode; [done|]. apply HQ. set (i2 := with_size _ (I1 n)).
  assert (inode_ok i2) as Hok. { destruct (fl_ok _ _ _ _ _ _ G1 n Hn). split; try done. unfold u32_ok. cbn. consts. lia. }
  assert (block_ok (V1 (IBLOCK n new_sb))) as Hbk by apply (fl_place _ _ _ _ _ _ G1). destruct (inode_block_eq n Hn') as [_ Hib].
  assert (forall m, D1 m = zupd D n data m) as ED. { intros m. unfold zupd. case_bool_decide as E; [by rewrite E|]. apply (G4 m E). }
  assert (forall m, 0 <= m < NINODES -> m <> n -> inode_disk (on_disk (stored_at V1 n i2) m) = inode_disk (on_disk V m)) as Eoth.
  { intros m Hm Hne. rewrite stored_other_inode by done. by rewrite (on_disk_same V V1). }
  destruct G5 as [(_ & _ & _ & _ & _ & F1 & _ & _ & F2) _]. split.
  - exists S1. split.
    + apply (files_ext _ _ _ _ _ D1); [done|]. eapply store_files; [exact G1|done|lia| |apply (fl_real _ _ _ _ _ _ G1 n Hn)|done].
      intros m Hm Hne. rewrite (proj1 (G4 m Hne)). rewrite (on_disk_same V V1); [done|lia|done].
    + intros m Hm. rewrite <- ED. destruct (Z.eq_dec m n) as [->|Hne]; [done|]. destruct (G4 m Hne) as (_ & E2 & E3). rewrite E2. destruct (HR m Hm) as [R1 R2].
      split; [intros k Hk|]; rewrite E3; auto.
  - intros m Hm. unfold zupd. case_bool_decide as E.
    + subst m. destruct (inode_disk_eq _ _ (stored_same_inode V1 n i2 Hn' Hbk Hok)) as (E1 & E2 & E3 & _). rewrite E1, E2, E3. cbn. rewrite F1, F2. done.
    + destruct (inode_disk_eq _ _ (Eoth m ltac:(lia) E)) as (E1 & E2 & E3 & _). rewrite E1, E2, E3. by apply Hfl.
  - intros m Hm Hx. destruct (inode_disk_eq _ _ (Eoth m Hm ltac:(lia))) as (E1 & _). rewrite E1. by apply Hfree.
  - intros b Hb. unfold stored_at. rewrite upd_ne by lia. rewrite G7 by (consts; lia). by apply Hlow.
  - done.
Qed.

(** An inode without blocks. *)
Lemma files_new V fb S N I D i : files V fb S N I D -> 1 <= N -> inode_ok i -> (forall k, i_addrs i k = 0) ->
  files V fb (fun m k => if bool_decide (m = N) then 0 else S m k) (N + 1) (zupd I N i) (zupd D N []).
Proof.
  intros [[P1 P2 P3 P4 P5 P6] R B O] HN Hok Ha. assert (forall m, 1 <= m < N + 1 -> m = N \/ m <> N /\ 1 <= m < N) as Hc by lia. split; [split; try done|..].
  - intros m k Hm Hk. case_bool_decide; [by left|]. apply P3; [lia|done].
  - intros m1 m2 j k H1 H2 Hj Hk. case_bool_decide; case_bool_decide; try (intros; congruence). apply P4; (lia || done).
  - intros b Hb. destruct (P6 b Hb) as (m & k & Hm & Hk & E). exists m, k. rewrite bool_decide_eq_false_2 by lia. split; [lia|done].
  - intros m Hm k Hk. unfold zupd. case_bool_decide as E; [|apply R; [lia|done]]. unfold slot_of. rewrite !Ha. by destruct (k <? NDIRECT), (k =? MAXFILE).
  - intros m Hm p Hp. unfold zupd. case_bool_decide as E; [done|]. apply B; [lia|done].
  - intros m Hm. unfold zupd. case_bool_decide as E; [done|]. apply O. lia.
Qed.

Lemma wp_ialloc V fb N D T ty Q : built V fb N D T -> N < NINODES -> 0 < ty < 2 ^ 15 ->
  (forall V', built V' fb (N + 1) (zupd D N []) (zupd T N ty) -> Q N (st V' (N + 1) fb)) -> wp (mk_ialloc ty) Q (st V N fb).
Proof.
  intros [(S & HF & HR) Hfl Hfree Hlow Hc] HN Hty HQ. assert (0 <= N < NINODES) as Hn' by lia. unfold mk_ialloc. wp_step. wp_step. wp_step. wp_step. wp_step. cbn [Mkfs.freeinode st].
  unfold set_freeinode. cbn [nsect img mk_sb Mkfs.freeinode Mkfs.freeblock st]. unfold NINODES in *. rewrite u32_small by lia. change (mkMkfs V FSSIZE new_sb (N + 1) fb) with (st V (N + 1) fb).
  change (i16 (xshort 1)) with 1. change (xint 0) with 0. rewrite xshort_id by lia. set (i := with_size 0 _). apply wp_winode; [done|]. wp_step. apply HQ.
  assert (i16 ty = ty) as Ety by (unfold i16; rewrite Z.mod_small; lia).
  assert (inode_ok i) as Hok. { split; unfold i16_ok, u32_ok; cbn; try lia. }
  assert (block_ok (V (IBLOCK N new_sb))) as Hbk by apply (fl_place _ _ _ _ _ _ HF). destruct (inode_block_eq N Hn') as [_ Hib].
  assert (forall m, 0 <= m < NINODES -> m <> N -> inode_disk (on_disk (stored_at V N i) m) = inode_disk (on_disk V m)) as Eoth by (intros m Hm Hne; by apply stored_other_inode).
  pose proof (files_new V fb S N _ D i HF ltac:(lia) Hok ltac:(done)) as HF'. split.
  - eexists. split; [eapply store_files; [exact HF'|lia|unfold NINODES; lia| |..]|].
    + intros m Hm Hne. by rewrite zupd_ne.
    + pose proof (fl_real _ _ _ _ _ _ HF' N ltac:(lia)) as Hr. by rewrite zupd_eq in Hr.
    + done.
    + intros m Hm. destruct (Z.eq_dec m N) as [->|Hne].
      * rewrite zupd_eq. split; [intros k Hk|]; rewrite bool_decide_eq_true_2 by done; consts; cbn; lia.
      * rewrite zupd_ne by done. destruct (HR m ltac:(lia)) as [R1 R2]. split; [intros k Hk|]; rewrite bool_decide_eq_false_2 by done; auto.
  - intros m Hm. unfold zupd. case_bool_decide as E.
    + subst m. destruct (inode_disk_eq _ _ (stored_same_inode V N i Hn' Hbk Hok)) as (E1 & E2 & E3 & _). rewrite E1, E2, E3. cbn. by rewrite Ety.
    + destruct (inode_disk_eq _ _ (Eoth m ltac:(unfold NINODES; lia) E)) as (E1 & E2 & E3 & _). rewrite E1, E2, E3. apply Hfl. lia.
  - intros m Hm Hx. destruct (inode_disk_eq _ _ (Eoth m Hm ltac:(lia))) as (E1 & _). rewrite E1. apply Hfree; [done|lia].
  - intros b Hb. unfold stored_at. rewrite upd_ne by lia. by apply Hlow.
  - unfold NINODES. lia.
Qed.

(** ** The files of the command line *)

Lemma built_ext V fb N D T D' T' : (forall m, 1 <= m < N -> D m = D' m) -> (forall m, 1 <= m < N -> T m = T' m) -> built V fb N D T -> built V fb N D' T'.
Proof.
  intros ED ET [(S & [P R B O] & HR) Hfl Hfree Hlow Hc]. split; try done.
  - exists S. split; [|intros m Hm; rewrite <- ED by done; by apply HR]. split; [done|done| |done]. intros m Hm. rewrite <- ED by done. by apply B.
  - intros m Hm. rewrite <- ED, <- ET by done. by apply Hfl.
Qed.

Definition content (f : hostfile) : list Z := match hf_reads f with Some rs => concat rs | None => [] end.
Definition file_name (f : hostfile) : list Z := skip_underscore (shortname (hf_name f)).
(** A file mkfs can copy. *)
Record file_ok (f : hostfile) : Prop := {
  fo_open : hf_reads f <> None;
  fo_slash : slash ∉ shortname (hf_name f);
  fo_arg : Forall (fun b => 0 < b < 256) (hf_name f);
  fo_name : Z.of_nat (length (file_name f)) <= DIRSIZ;
  fo_bytes : Forall byte_ok (content f);
  fo_size : Z.of_nat (length (content f)) <= MAXFILE * BSIZE;
}.

(** What is on the image after the files [l]: the directory and the files. *)
Definition entries_of (l : list hostfile) : list (list Z) :=
  mk_dirent 1 [46] :: mk_dirent 1 [46; 46] :: imap (fun k f => mk_dirent (2 + Z.of_nat k) (file_name f)) l.
Definition data_of (l : list hostfile) (m : Z) : list Z :=
  if m =? ROOTINO then concat (entries_of l) else match l !! Z.to_nat (m - 2) with Some f => content f | None => [] end.
Definition type_of (m : Z) : Z := if m =? ROOTINO then T_DIR else T_FILE.
Definition dir_bytes (l : list hostfile) : Z := 16 * (2 + Z.of_nat (length l)).
Definition blocks_of (l : list hostfile) : Z := foldr (fun f n => nblk (Z.of_nat (length (content f))) + n) 0 l.

Lemma length_entries l : length (entries_of l) = (2 + length l)%nat.
Proof. unfold entries_of. cbn. by rewrite length_imap. Qed.
Lemma entries_16 l : Forall (fun e => length e = 16%nat) (entries_of l).
Proof.
  unfold entries_of. repeat (apply Forall_cons; split; [apply length_mk_dirent|]). apply Forall_lookup. intros k e He. rewrite list_lookup_imap in He.
  destruct (l !! k); [|done]. injection He as <-. apply length_mk_dirent.
Qed.
Lemma length_join n (l : list (list Z)) : Forall (fun e => length e = n) l -> length (concat l) = (n * length l)%nat.
Proof. induction 1 as [|e l He _ IH]; cbn; [lia|]. rewrite length_app, IH, He. lia. Qed.
Lemma length_dir l : Z.of_nat (length (concat (entries_of l))) = dir_bytes l.
Proof. rewrite (length_join 16) by apply entries_16. rewrite length_entries. unfold dir_bytes. lia. Qed.
Lemma entries_snoc l f : entries_of (l ++ [f]) = entries_of l ++ [mk_dirent (2 + Z.of_nat (length l)) (file_name f)].
Proof. unfold entries_of. rewrite imap_app. cbn. by rewrite Nat.add_0_r. Qed.
Lemma file_name_chars f : Forall (fun b => 0 < b < 256) (hf_name f) -> Forall (fun b => 0 < b < 256) (file_name f).
Proof.
  intros H. unfold file_name, shortname. assert (Forall (fun b => 0 < b < 256) (if bool_decide (take 5 (hf_name f) = user_dir) then drop 5 (hf_name f) else hf_name f)) as Hs.
  { case_bool_decide; [by apply Forall_drop|done]. }
  revert Hs. generalize (if bool_decide (take 5 (hf_name f) = user_dir) then drop 5 (hf_name f) else hf_name f). intros [|c r] Hs; [done|]. cbn.
  destruct (c =? 95); [by apply Forall_cons in Hs as [_ Hs]|done].
Qed.
Lemma chars_bytes l : Forall (fun b => 0 < b < 256) l -> Forall byte_ok l.
Proof. intros H. eapply Forall_impl; [exact H|]. unfold byte_ok. cbn. lia. Qed.
Lemma name_bytes inum f : file_ok f -> Forall byte_ok (mk_dirent inum (file_name f)).
Proof. intros []. apply dirent_bytes; [unfold DIRSIZ in *; lia|]. by apply chars_bytes, file_name_chars. Qed.
Lemma entries_bytes l : Forall file_ok l -> Forall byte_ok (concat (entries_of l)).
Proof.
  intros Hl. apply Forall_concat. unfold entries_of. repeat (apply Forall_cons; split; [apply dirent_bytes; [cbn; lia|repeat constructor; unfold byte_ok; lia]|]).
  apply Forall_lookup. intros k e He. rewrite list_lookup_imap in He. destruct (l !! k) as [f|] eqn:Ef; [|done]. injection He as <-. apply name_bytes.
  rewrite Forall_lookup in Hl. by eapply Hl.
Qed.

Lemma wp_append_reads n rs : forall V fb N D T Q, built V fb N D T -> 1 <= n < N -> Forall byte_ok (D n ++ concat rs) -> let data := D n ++ concat rs in
  Z.of_nat (length data) <= MAXFILE * BSIZE ->
  let fb' := fb + (nblk (Z.of_nat (length data)) - nblk (Z.of_nat (length (D n)))) in fb' <= FSSIZE ->
  (forall V', built V' fb' N (zupd D n data) T -> Q tt (st V' N fb')) -> wp (append_reads n rs) Q (st V N fb).
Proof.
  induction rs as [|r rs IH]; intros V fb N D T Q HB Hn Hb data Hmax fb' Hfit HQ; cbn [append_reads].
  - wp_step. unfold fb' in *. unfold data in *. cbn [concat] in *. rewrite app_nil_r in *.
    replace (fb + (nblk (Z.of_nat (length (D n))) - nblk (Z.of_nat (length (D n))))) with fb in * by lia. apply HQ. eapply built_ext; [|done|exact HB].
    intros m _. unfold zupd. by case_bool_decide as E; [rewrite E|].
  - cbn [concat] in *. unfold data in *. assert (fb' = fb + (nblk (Z.of_nat (length ((D n ++ r) ++ concat rs))) - nblk (Z.of_nat (length (D n))))) as Efb by by rewrite <- app_assoc.
    clearbody fb'. subst fb'. rewrite app_assoc in *.
    assert (length ((D n ++ r) ++ concat rs) = length (D n ++ r) + length (concat rs))%nat as Hl by apply length_app.
    pose proof (nblk_mono (Z.of_nat (length (D n ++ r))) (Z.of_nat (length ((D n ++ r) ++ concat rs))) ltac:(lia)) as Hm. pose proof (proj1 (proj1 (Forall_app _ _ _) Hb)) as Hb1.
    wp_step. eapply (wp_iappend V fb N D T n r); [exact HB|done|done|lia|lia|]. intros V1 HB1.
    eapply (IH V1); [exact HB1|done|by rewrite zupd_eq|rewrite zupd_eq; lia|rewrite zupd_eq; lia|]. rewrite zupd_eq. intros V2 HB2.
    match type of HB2 with built _ ?x _ _ _ => replace x with (fb + (nblk (Z.of_nat (length ((D n ++ r) ++ concat rs))) - nblk (Z.of_nat (length (D n))))) in * by lia end. apply HQ. eapply built_ext; [|done|exact HB2]. intros m _. unfold zupd. by case_bool_decide.
Qed.

Lemma data_root l : data_of l 1 = concat (entries_of l).
Proof. done. Qed.
Lemma data_file l m : m <> 1 -> data_of l m = match l !! Z.to_nat (m - 2) with Some f => content f | None => [] end.
Proof. intros Hm. unfold data_of. by rewrite (proj2 (Z.eqb_neq m ROOTINO)). Qed.

Lemma wp_add_file V fb l f Q : let N := 2 + Z.of_nat (length l) in built V fb N (data_of l) type_of -> Forall file_ok l -> file_ok f -> N < NINODES ->
  let fb' := fb + (nblk (dir_bytes (l ++ [f])) - nblk (dir_bytes l)) + nblk (Z.of_nat (length (content f))) in fb' <= FSSIZE ->
  (forall V', built V' fb' (N + 1) (data_of (l ++ [f])) type_of -> Q tt (st V' (N + 1) fb')) -> wp (add_file f) Q (st V N fb).
Proof.
  intros N HB Hl Hf HN fb' Hfit HQ. pose proof Hf as [F1 F2 F3 F4 F5 F6]. unfold add_file. wp_step. apply wp_assert; [by apply bool_decide_eq_true_2|].
  unfold content in *. destruct (hf_reads f) as [rs|] eqn:Er; [|done]. fold (file_name f). wp_step. apply wp_assert; [by apply Z.leb_le|]. wp_step.
  unfold NINODES in HN. eapply wp_ialloc; [exact HB|done|done|]. intros V1 HB1. wp_step. change ROOTINO with 1. rewrite xshort_id by lia.
  assert (zupd (data_of l) N [] 1 = concat (entries_of l)) as Er1 by by rewrite zupd_ne by lia.
  assert (concat (entries_of l) ++ mk_dirent N (file_name f) = concat (entries_of (l ++ [f]))) as Ee by (rewrite entries_snoc, concat_app; cbn; by rewrite app_nil_r).
  pose proof (nblk_mono 0 (Z.of_nat (length (concat rs))) ltac:(lia)) as Hnn. change (nblk 0) with 0 in Hnn.
  eapply wp_iappend; [exact HB1|lia|rewrite Er1, Ee; apply entries_bytes; apply Forall_app; by split; [|apply Forall_singleton]|..]; rewrite Er1, ?Ee, ?length_dir.
  - unfold dir_bytes. rewrite length_app. cbn. consts. lia.
  - unfold fb' in Hfit. lia.
  - intros V2 HB2. assert (zupd (zupd (data_of l) N []) 1 (concat (entries_of (l ++ [f]))) N = []) as En by (rewrite zupd_ne, zupd_eq by lia; done).
    eapply wp_append_reads; [exact HB2|lia|rewrite En; exact F5|rewrite En; exact F6|rewrite En; cbn [length app]; change (nblk (Z.of_nat 0)) with 0; unfold fb' in Hfit; lia|].
    rewrite En. cbn [length app]. change (nblk (Z.of_nat 0)) with 0. intros V3 HB3.
    match type of HB3 with built _ ?x _ _ _ => replace x with fb' in * by (unfold fb'; lia) end. apply HQ. eapply built_ext; [| |exact HB3].
    + intros m Hm. destruct (Z.eq_dec m N) as [->|Hne].
      * rewrite zupd_eq, data_file by lia. replace (Z.to_nat (N - 2)) with (length l) by lia. rewrite list_lookup_middle by done. unfold content. by rewrite Er.
      * rewrite zupd_ne by done. destruct (Z.eq_dec m 1) as [->|H1]; [by rewrite zupd_eq|]. rewrite !zupd_ne by done. rewrite !data_file by done.
        rewrite lookup_app_l by lia. done.
    + intros m Hm. unfold zupd. case_bool_decide as E; [|done]. subst m. unfold type_of. by rewrite (proj2 (Z.eqb_neq N ROOTINO)) by (unfold ROOTINO; lia).
Qed.

Lemma blocks_nonneg l : 0 <= blocks_of l.
Proof. induction l as [|f l IH]; [done|]. change (0 <= nblk (Z.of_nat (length (content f))) + blocks_of l). pose proof (nblk_mono 0 (Z.of_nat (length (content f))) ltac:(lia)) as Hn. change (nblk 0) with 0 in Hn. lia. Qed.
Lemma wp_add_files fs : forall V fb fb' l Q, let N := 2 + Z.of_nat (length l) in let N' := 2 + Z.of_nat (length (l ++ fs)) in
  built V fb N (data_of l) type_of -> Forall file_ok (l ++ fs) -> N' <= NINODES ->
  fb' = fb + (nblk (dir_bytes (l ++ fs)) - nblk (dir_bytes l)) + blocks_of fs -> fb' <= FSSIZE ->
  (forall V', built V' fb' N' (data_of (l ++ fs)) type_of -> Q tt (st V' N' fb')) -> wp (add_files fs) Q (st V N fb).
Proof.
  induction fs as [|f fs IH]; intros V fb fb' l Q N N' HB Hok HN Efb Hfit HQ; cbn [add_files].
  - wp_step. unfold N' in *. rewrite app_nil_r in *. cbn [blocks_of foldr] in *. replace fb' with fb in * by lia. by apply HQ.
  - pose proof Hok as Hok'. apply Forall_app in Hok' as [Hl Hf]. apply Forall_cons in Hf as [Hf Hfs]. wp_step. cbn [blocks_of foldr] in Efb. fold (blocks_of fs) in Efb.
    assert (length (l ++ f :: fs) = length l + S (length fs))%nat as Ll by by rewrite length_app. pose proof (blocks_nonneg fs) as Hbn.
    pose proof (nblk_mono (dir_bytes (l ++ [f])) (dir_bytes (l ++ f :: fs)) ltac:(unfold dir_bytes; rewrite !length_app; cbn; lia)) as Hm.
    eapply (wp_add_file V fb l f); [exact HB|done|done|unfold N' in HN; lia|lia|]. intros V1 HB1.
    assert (2 + Z.of_nat (length l) + 1 = 2 + Z.of_nat (length (l ++ [f]))) as E by (rewrite length_app; cbn; lia). unfold N, N' in *. rewrite E in HB1 |- *.
    replace (l ++ f :: fs) with ((l ++ [f]) ++ fs) in * by by rewrite <- app_assoc. eapply (IH V1 _ fb'); [exact HB1|done|done|lia|done|exact HQ].
Qed.

(** ** main *)

Definition sb_block : list Z := put_sb new_sb zeroes.
Definition empty_image : Z -> list Z := upd (fun _ => zeroes) 1 sb_block.
Lemma sb_block_ok : block_ok sb_block.
Proof. split; [by vm_compute|]. apply (bool_decide_unpack (Forall byte_ok sb_block)). by vm_compute. Qed.
Lemma empty_files D : files empty_image nmeta (fun _ _ => 0) 1 (on_disk empty_image) D.
Proof.
  split; [split|..]; try (intros m Hm; lia).
  - intros b. unfold empty_image, upd. case_decide; [apply sb_block_ok|apply zeroes_ok].
  - consts. lia.
  - intros b Hb. unfold empty_image. rewrite upd_ne by (consts; lia). done.
Qed.
Lemma empty_built D T : built empty_image nmeta 1 D T.
Proof.
  split; [exists (fun _ _ => 0); split; [apply empty_files|intros m Hm; lia]|intros m Hm; lia| | |by vm_compute].
  - intros m Hm _. destruct (inode_block_eq m Hm) as [_ Hb]. unfold on_disk, disk_inode, empty_image. rewrite upd_ne by lia.
    cbn [get_dinode i_type]. unfold d_type. by rewrite getf_zeroes.
  - intros b Hb. unfold empty_image. destruct (Z.eqb_spec b 1) as [->|]; [by rewrite upd_eq|by rewrite upd_ne].
Qed.

(** The loop that writes every block. *)
Lemma wp_wipe Q : Q tt (st (fun _ => zeroes) 1 nmeta) ->
  wp (for_range (Z.to_nat FSSIZE) 0 (fun i => wsect i zeroes)) Q (mkMkfs (fun _ => zeroes) 0 new_sb 1 nmeta).
Proof.
  intros HQ. eapply wp_mono; [apply (wp_for_range (fun i s => s = mkMkfs (fun _ => zeroes) i new_sb 1 nmeta))|]; [done| |].
  - intros j s Hj ->. unfold wsect. wp_step. unfold on_img. cbn [img nsect mk_sb Mkfs.freeinode Mkfs.freeblock]. change FSSIZE with 2000 in Hj. rewrite sector_id by lia.
    rewrite Z.max_r by lia. by rewrite (upd_id (fun _ => zeroes) j).
  - intros [] s ->. exact HQ.
Qed.

Lemma wp_main_files image files Q : hf_reads image <> None -> Forall file_ok files -> 2 + Z.of_nat (length files) <= NINODES ->
  let N := 2 + Z.of_nat (length files) in let fb := nmeta + nblk (dir_bytes files) + blocks_of files in fb <= FSSIZE ->
  (forall V, built V fb N (data_of files) type_of -> wp (round_root ;; (let* b := gets freeblock in mk_balloc b)) Q (st V N fb)) ->
  wp (main (image :: files)) Q mkfs0.
Proof.
  intros Him Hok HN N fb Hfit HQ. unfold main. destruct (hf_reads image) as [rs|]; [|done]. wp_step. wp_step. wp_step. wp_step. wp_step.
  change (set_freeblock nmeta _) with (mkMkfs (fun _ => zeroes) 0 new_sb 1 nmeta). apply wp_wipe. wp_step. apply wp_wsect; [by vm_compute|]. wp_step.
  eapply (wp_ialloc empty_image nmeta 1 (fun _ => []) type_of); [apply empty_built|done|done|]. intros V1 HB1. wp_step. apply wp_assert; [done|].
  change (xshort 1) with 1. pose proof (entries_bytes [] (List.Forall_nil _)) as Heb. pose proof (nblk_mono (dir_bytes []) (dir_bytes files) ltac:(unfold dir_bytes; cbn; lia)) as Hmo.
  pose proof (blocks_nonneg files) as Hbn. change (nblk (dir_bytes [])) with 1 in Hmo. wp_step.
  eapply wp_iappend; [exact HB1|lia|..]; rewrite ?zupd_eq; cbn [app]; rewrite ?length_mk_dirent; [|consts; lia|by vm_compute|].
  { apply Forall_app in Heb as [He _]. exact He. }
  intros V2 HB2. wp_step. eapply wp_iappend; [exact HB2|lia|..]; rewrite ?zupd_eq, ?length_app, ?length_mk_dirent; [|consts; lia|by vm_compute|].
  { cbn [entries_of imap concat] in Heb. by rewrite app_nil_r in Heb. }
  intros V3 HB3. wp_step. eapply (wp_add_files files V3 _ fb []); [| |exact HN|..].
  - eapply built_ext; [| |exact HB3].
    + intros m Hm. cbn in Hm. assert (m = 1) as -> by lia. rewrite zupd_eq. rewrite data_root. cbn [entries_of imap concat]. by rewrite app_nil_r.
    + intros m Hm. cbn in Hm. assert (m = 1) as -> by lia. by rewrite zupd_eq.
  - exact Hok.
  - unfold fb. cbn [app length]. change (nblk (dir_bytes [])) with 1. change (nblk (Z.of_nat (16 + 16))) with 1. change (nblk (Z.of_nat 0)) with 0. lia.
  - exact Hfit.
  - exact HQ.
Qed.

(** ** The finished image *)

Lemma bit_zeroes j : bit_set zeroes j = false.
Proof. unfold bit_set. by rewrite nth_zeroes, Z.land_0_l. Qed.
Lemma mark_upto_spec n : Z.of_nat n <= BPB -> block_ok (mark_upto n zeroes) /\ forall j, 0 <= j -> bit_set (mark_upto n zeroes) j = (j <? Z.of_nat n).
Proof.
  induction n as [|n IH]; intros Hn; cbn [mark_upto].
  - split; [apply zeroes_ok|]. intros j Hj. rewrite bit_zeroes. symmetry. apply Z.ltb_ge. lia.
  - destruct IH as [IH1 IH2]; [lia|]. split; [by apply mark_bit_ok|]. intros j Hj. rewrite mark_bit_spec, IH2 by (done || lia).
    destruct (Z.ltb_spec j (Z.of_nat n)), (Z.ltb_spec j (Z.of_nat (S n))), (Z.eqb_spec (Z.of_nat n) j); try done; lia.
Qed.

Definition root_size (l : list hostfile) : Z := (dir_bytes l / BSIZE + 1) * BSIZE.
Definition finished (V : Z -> list Z) (fb : Z) (l : list hostfile) : Z -> list Z :=
  upd (stored_at V ROOTINO (with_size (root_size l) (on_disk V ROOTINO))) 46 (mark_upto (Z.to_nat fb) zeroes).

Lemma wp_finish V fb l Q : let N := 2 + Z.of_nat (length l) in built V fb N (data_of l) type_of -> nmeta <= fb <= FSSIZE ->
  Q tt (st (finished V fb l) N fb) -> wp (round_root ;; (let* b := gets freeblock in mk_balloc b)) Q (st V N fb).
Proof.
  intros N [_ Hfl _ _ Hc] Hfb HQ. destruct (Hfl 1 ltac:(lia)) as (_ & _ & Fs). rewrite data_root, length_dir in Fs. unfold NINODES in Hc.
  assert (0 <= dir_bytes l < 2 ^ 20 /\ dir_bytes l / BSIZE <= 1000) as [Hd Hd'] by (unfold dir_bytes; consts; split; Z.div_mod_to_equations; lia).
  pose proof (Z.div_pos (dir_bytes l) BSIZE (proj1 Hd) BSIZE_pos). wp_step. unfold round_root. wp_step. apply wp_rinode; [by vm_compute|]. change ROOTINO with 1 in *. rewrite Fs.
  rewrite (xint_id (dir_bytes l)) by lia. rewrite u32_small, xint_id by (unfold BSIZE in *; lia). apply wp_winode; [by vm_compute|]. wp_step. wp_step. unfold mk_balloc. cbn [Mkfs.freeblock st]. wp_step.
  apply wp_assert; [apply Z.ltb_lt; change BPB with 8192; consts; lia|]. wp_step. wp_step. cbn [mk_sb st]. apply wp_wsect; [by vm_compute|]. exact HQ.
Qed.

(** The names of the root directory. *)
Definition names_of (l : list hostfile) : gmap (list Z) Z :=
  list_to_map (([46], 1) :: ([46; 46], 1) :: imap (fun k f => (file_name f, 2 + Z.of_nat k)) l).

Lemma upto_nul_id n x : (length x <= n)%nat -> Forall (fun b => 0 < b < 256) x -> upto_nul n x = x.
Proof.
  revert n. induction x as [|c x IH]; intros n Hn Hx; [apply upto_nul_nil|]. destruct n as [|n]; cbn in Hn; [lia|]. apply Forall_cons in Hx as [Hc Hx]. cbn.
  rewrite (proj2 (Z.eqb_neq c 0)) by lia. f_equal. apply IH; [lia|done].
Qed.
Lemma file_cname f : file_ok f -> cname (file_name f) = file_name f.
Proof. intros []. apply upto_nul_id; [unfold DIRSIZ in *; lia|by apply file_name_chars]. Qed.
Lemma dmap_entry inum name es : 0 < inum < 65536 -> (length name <= 1024)%nat -> dmap (mk_dirent inum name :: es) = <[cname name := inum]> (dmap es).
Proof. intros Hi Hn. cbn [dmap]. rewrite mk_dirent_inum by lia. rewrite (proj2 (Z.eqb_neq inum 0)) by lia. by rewrite mk_dirent_name. Qed.
Lemma dmap_entries l : Forall file_ok l -> 2 + Z.of_nat (length l) <= NINODES -> dmap (entries_of l) = names_of l.
Proof.
  intros Hl HN. unfold entries_of, names_of, NINODES in *. rewrite !dmap_entry by (cbn; lia). cbn [list_to_map foldr]. do 2 f_equal.
  assert (forall c, 0 < c -> c + Z.of_nat (length l) < 65536 -> dmap (imap (fun k f => mk_dirent (c + Z.of_nat k) (file_name f)) l) = list_to_map (imap (fun k f => (file_name f, c + Z.of_nat k)) l)) as Hx; [|apply Hx; lia].
  clear HN. induction Hl as [|f l Hf Hl IH]; intros c Hc Hb; [done|]. cbn [imap length] in *. rewrite dmap_entry by (lia || (destruct Hf; unfold DIRSIZ in *; lia)).
  rewrite (file_cname f Hf). cbn [list_to_map foldr]. f_equal. specialize (IH (c + 1) ltac:(lia) ltac:(lia)).
  etransitivity; [|etransitivity; [exact IH|]]; f_equal; apply imap_ext; intros k x _; cbn; f_equal; lia.
Qed.
(** Empty entries add nothing. *)
Lemma dmap_padded es r : dmap (es ++ replicate r (replicate 16 0)) = dmap es.
Proof.
  induction es as [|e es IH]; cbn [app].
  - induction r as [|r IH]; [done|]. cbn [replicate dmap]. change (de_inum (replicate 16 0)) with 0. exact IH.
  - cbn [dmap]. by rewrite IH.
Qed.
(** The pieces of 16 bytes of joined entries. *)
Lemma nth_concat es k j : Forall (fun e => length e = 16%nat) es -> (j < 16)%nat -> nth (16 * k + j) (concat es) 0 = nth j (nth k es []) 0.
Proof.
  intros He Hj. revert k. induction He as [|e es Hl _ IH]; intros k; cbn [concat]; [by destruct (16 * k + j)%nat, k, j|]. destruct k as [|k].
  - rewrite app_nth1 by lia. done.
  - rewrite app_nth2 by lia. replace (16 * S k + j - length e)%nat with (16 * k + j)%nat by lia. apply IH.
Qed.

Section Finished.
Context (V : Z -> list Z) (fb : Z) (l : list hostfile).
Let N := 2 + Z.of_nat (length l).
Hypotheses (HB : built V fb N (data_of l) type_of) (Hok : Forall file_ok l) (Hfb : nmeta <= fb <= FSSIZE) (Hdir : dir_bytes l mod BSIZE <> 0).
Let V' := finished V fb l.
Let V2 := stored_at V ROOTINO (with_size (root_size l) (on_disk V ROOTINO)).

Lemma dir_small : 0 < dir_bytes l < 4096 /\ dir_bytes l < root_size l <= 4096.
Proof. clear Hdir. destruct HB as [_ _ _ _ Hc]. unfold N, NINODES in Hc. unfold root_size, dir_bytes. consts. Z.div_mod_to_equations; lia. Qed.
Lemma fin_block b : b <> 46 -> V' b = V2 b.
Proof. intros Hb. unfold V', finished. by rewrite upd_ne. Qed.
Lemma fin_on_disk m : 0 <= m < NINODES -> on_disk V' m = on_disk V2 m.
Proof. intros Hm. destruct (inode_block_eq m Hm) as [_ Hb]. unfold on_disk, disk_inode. rewrite fin_block; [done|lia]. Qed.
Lemma fin_files : exists S, files V' fb S N (on_disk V') (data_of l) /\ roomy S N (fun m => Z.of_nat (length (data_of l m))).
Proof.
  destruct HB as [(S & HF & HR) _ _ _ Hc]. exists S. split; [|done]. unfold N in Hc. pose proof dir_small as Hds.
  assert (files V2 fb S N (on_disk V2) (data_of l)) as [[P1 P2 P3 P4 P5 P6] R B O].
  { eapply store_files; [exact HF|unfold ROOTINO, N; lia|unfold N; lia|done| |].
    - apply (fl_real _ _ _ _ _ _ HF ROOTINO). unfold ROOTINO, N. lia.
    - destruct (fl_ok _ _ _ _ _ _ HF ROOTINO); [unfold ROOTINO, N; lia|]. split; try done. unfold u32_ok. cbn. lia. }
  assert (forall m k, 1 <= m < N -> in_slots k -> S m k <> 0 -> V' (S m k) = V2 (S m k)) as Hs.
  { intros m k Hm Hk Hn. apply fin_block. destruct (P3 m k Hm Hk); consts; lia. }
  split; [split; try done|..].
  - intros b. destruct (Z.eq_dec b 46) as [->|Hb]; [|by rewrite fin_block]. unfold V', finished. rewrite upd_eq. apply mark_upto_spec. change BPB with 8192. consts. lia.
  - intros b Hb. rewrite fin_block by (consts; lia). by apply P5.
  - intros m Hm. rewrite fin_on_disk by lia. apply (real_frame V2); [|by apply R]. intros Hn. apply Hs; [done|apply in_slots_max|done].
  - intros m Hm. apply (bytes_frame V2); [|by apply B]. intros k Hk. apply Hs; [done|unfold in_slots; lia].
  - intros m Hm. rewrite fin_on_disk by lia. by apply O.
Qed.
Lemma fin_fields m : 1 <= m < N -> i_type (on_disk V' m) = type_of m /\ i_nlink (on_disk V' m) = 1 /\
  i_size (on_disk V' m) = if m =? ROOTINO then root_size l else Z.of_nat (length (data_of l m)).
Proof.
  intros Hm. destruct HB as [(S & HF & _) Hfl _ _ Hc]. rewrite fin_on_disk by lia. assert (forall b, block_ok (V b)) as Hbk by apply (fl_place _ _ _ _ _ _ HF). pose proof dir_small.
  destruct (Z.eqb_spec m ROOTINO) as [->|Hne].
  - destruct (inode_disk_eq (on_disk V2 ROOTINO) (with_size (root_size l) (on_disk V ROOTINO))) as (E1 & E2 & E3 & _).
    + apply stored_same_inode; [done|apply Hbk|]. destruct (fl_ok _ _ _ _ _ _ HF ROOTINO); [done|]. split; try done. unfold u32_ok. cbn. lia.
    + rewrite E1, E2, E3. destruct (Hfl ROOTINO) as (F1 & F2 & _); [done|]. done.
  - destruct (inode_disk_eq (on_disk V2 m) (on_disk V m)) as (E1 & E2 & E3 & _); [apply stored_other_inode; (done || lia || apply Hbk)|].
    rewrite E1, E2, E3. by apply Hfl.
Qed.
Lemma fin_free m : 0 <= m < NINODES -> m = 0 \/ N <= m -> i_type (on_disk V' m) = 0.
Proof.
  intros Hm Hx. destruct HB as [(S & HF & _) _ Hfree _ Hc]. rewrite fin_on_disk by lia. unfold N in *.
  destruct (inode_disk_eq (on_disk V2 m) (on_disk V m)) as (E1 & _); [apply stored_other_inode; [done|lia|unfold ROOTINO; lia|apply (fl_place _ _ _ _ _ _ HF)]|].
  rewrite E1. by apply Hfree.
Qed.
Lemma fin_used b : 0 <= b < FSSIZE -> used new_sb V' b = (b <? fb).
Proof.
  intros Hb. unfold used. change (sb_bmapstart new_sb) with 46. assert (BBLOCK b new_sb = 46) as ->.
  { unfold BBLOCK. change (sb_bmapstart new_sb) with 46. change BPB with 8192. consts. rewrite Z.div_small by lia. done. }
  change BPB with 8192. consts. rewrite Z.mod_small by lia. unfold V', finished. rewrite upd_eq.
  destruct (mark_upto_spec (Z.to_nat fb)) as [_ Hm]; [change BPB with 8192; lia|]. rewrite Hm by lia. by rewrite Z2Nat.id by lia.
Qed.
Lemma fin_disk : disk_ok new_sb V'.
Proof.
  destruct fin_files as (S & HF & _). split; [apply HF|]. change (datastart new_sb) with 47. intros b Hb. rewrite fin_used by (consts; lia). apply Z.ltb_lt. consts. lia.
Qed.
Lemma fin_rep m : 1 <= m < N -> inode_rep new_sb V' (on_disk V' m).
Proof.
  intros Hm. destruct fin_files as (S & [P R B O] & HR). destruct HB as [_ _ _ _ Hc]. unfold NINODES in Hc. specialize (R m Hm). destruct (HR m Hm) as [R1 R2].
  destruct (fin_fields m Hm) as (_ & _ & Es). pose proof dir_small as Hds. assert (Z.of_nat (length (data_of l m)) <= MAXFILE * BSIZE) as Hmax.
  { destruct (Z.eq_dec m 1) as [->|Hne]; [rewrite data_root, length_dir; consts; lia|]. rewrite data_file by done. destruct (l !! _) as [f|] eqn:Ef; [|cbn; consts; lia].
    rewrite Forall_lookup in Hok. by apply (Hok _ _ Ef). }
  split; [done|change (sb_ninodes new_sb) with 200; cbn; lia|by apply O|..].
  - intros k Hk. rewrite R by done. destruct (pl_range _ _ _ _ P m k Hm Hk) as [|Hr]; [by left|right]. unfold data_block. change (datastart new_sb) with 47. change (sb_size new_sb) with 2000.
    consts. split; [lia|]. rewrite fin_used by (consts; lia). apply Z.ltb_lt. lia.
  - intros j k Hj Hk. rewrite !R by done. intros Hn E. by apply (pl_inj _ _ _ _ P m m j k Hm Hm Hj Hk Hn E).
  - rewrite Es. destruct (m =? ROOTINO); [consts; lia|lia].
  - intros k Hk Hlt. assert (k * BSIZE < Z.of_nat (length (data_of l m))) as Hl.
    { rewrite Es in Hlt. destruct (Z.eqb_spec m ROOTINO) as [->|]; [|done]. change ROOTINO with 1. rewrite data_root, length_dir. unfold root_size in Hlt. consts. Z.div_mod_to_equations. lia. }
    assert (0 <= k < MAXFILE) as Hkm by (consts; lia). rewrite R by (unfold in_slots; lia). by apply R1.
Qed.
Lemma fin_byte m p : 1 <= m < N -> 0 <= p < i_size (on_disk V' m) -> fbyte V' (on_disk V' m) p = nth (Z.to_nat p) (data_of l m) 0.
Proof.
  intros Hm Hp. destruct fin_files as (S & [P R B O] & HR). pose proof (fin_rep m Hm) as Hrep. destruct (slot_present new_sb V' (on_disk V' m) p Hrep Hp) as [Hk Hs].
  pose proof (ir_size _ _ _ Hrep). unfold fbyte. rewrite (R m Hm) in Hs |- * by (unfold in_slots; lia). by apply (B m Hm); [lia|].
Qed.
Lemma fin_content m : 1 <= m < N -> m <> 1 -> fcontent V' (on_disk V' m) = data_of l m.
Proof.
  intros Hm Hne. destruct (fin_fields m Hm) as (_ & _ & Es). rewrite (proj2 (Z.eqb_neq m ROOTINO)) in Es by done. apply list_eq. intros k. unfold fcontent.
  destruct (decide (k < length (data_of l m))%nat) as [Hk|Hk].
  - rewrite lookup_frange by lia. rewrite Z.add_0_l, fin_byte by lia. rewrite Nat2Z.id. symmetry. by apply nth_lookup_Z.
  - rewrite !lookup_ge_None_2; [done|lia|rewrite length_frange; lia].
Qed.
Lemma fin_dents : exists r, dents V' (on_disk V' ROOTINO) = entries_of l ++ replicate r (replicate 16 0).
Proof.
  destruct (fin_fields ROOTINO) as (_ & _ & Es); [unfold ROOTINO, N; lia|]. rewrite Z.eqb_refl in Es. pose proof dir_small as [Hd Hr]. pose proof (length_entries l) as Hl.
  exists (Z.to_nat (root_size l / 16) - length (entries_of l))%nat. apply list_eq. intros k. unfold dents. rewrite Es, list_lookup_fmap.
  assert (Z.of_nat (length (entries_of l)) <= root_size l / 16) as Hle by (unfold dir_bytes in *; Z.div_mod_to_equations; lia).
  destruct (decide (k < Z.to_nat (root_size l / 16))%nat) as [Hk|Hk].
  2: { rewrite lookup_seqZ_ge by lia. symmetry. apply lookup_ge_None. rewrite length_app, length_replicate. lia. }
  rewrite lookup_seqZ_lt by lia. cbn [fmap option_fmap option_map]. rewrite Z.add_0_l. assert (frange V' (on_disk V' ROOTINO) (16 * Z.of_nat k) 16 = (fun j => nth (16 * k + j) (concat (entries_of l)) 0) <$> seq 0 16) as ->.
  { apply list_eq. intros j. destruct (decide (j < 16)%nat) as [Hj|Hj].
    - rewrite lookup_frange by lia. rewrite list_lookup_fmap, lookup_seq_lt by lia. cbn [fmap option_fmap option_map]. f_equal. rewrite fin_byte; [rewrite data_root; f_equal; lia|unfold ROOTINO, N; lia|].
      rewrite Es. split; [lia|]. Z.div_mod_to_equations; lia.
    - rewrite !lookup_ge_None_2; [done|by rewrite length_fmap, length_seq; lia|rewrite length_frange; lia]. }
  rewrite (list_fmap_ext _ (fun j => nth j (nth k (entries_of l) []) 0)); [|intros a j Hj; apply lookup_seq in Hj as [-> Hj]; apply nth_concat; [apply entries_16|lia]].
  destruct (decide (k < length (entries_of l))%nat) as [Hke|Hke].
  - rewrite lookup_app_l by done. destruct (lookup_lt_is_Some_2 _ _ Hke) as [e He]. rewrite (nth_lookup (entries_of l)), He. change (default [] (Some e)) with e. f_equal.
    pose proof (entries_16 l) as H16. rewrite Forall_lookup in H16. specialize (H16 k e He). cbn beta in H16. apply list_eq. intros j. destruct (decide (j < 16)%nat) as [Hj|Hj].
    + rewrite list_lookup_fmap, lookup_seq_lt by lia. symmetry. apply nth_lookup_Z. lia.
    + rewrite !lookup_ge_None_2; [done|lia|rewrite length_fmap, length_seq; lia].
  - rewrite lookup_app_r, lookup_replicate_2 by lia. rewrite (nth_overflow (entries_of l)) by lia. done.
Qed.
Lemma fin_map : dir_map V' (on_disk V' ROOTINO) = names_of l.
Proof.
  destruct fin_dents as [r E]. unfold dir_map. rewrite E, dmap_padded. apply dmap_entries; [done|]. destruct HB as [_ _ _ _ Hc]. unfold N in Hc. lia.
Qed.
Lemma names_inum e x : names_of l !! e = Some x -> 1 <= x < N.
Proof.
  intros Hx. apply elem_of_list_to_map_2 in Hx. unfold N. apply elem_of_cons in Hx as [[= _ ->]|Hx]; [lia|]. apply elem_of_cons in Hx as [[= _ ->]|Hx]; [lia|].
  apply elem_of_lookup_imap in Hx as (k & f & [= _ ->] & Hk). apply lookup_lt_Some in Hk. lia.
Qed.
Lemma fin_tree : tree_ok new_sb V'.
Proof.
  destruct HB as [_ _ _ _ Hc]. assert (forall n, inum_ok new_sb n -> i_type (on_disk V' n) <> 0 -> 1 <= n < N) as Halloc.
  { intros n Hn Ht. unfold inum_ok in Hn. change (sb_ninodes new_sb) with NINODES in Hn. destruct (decide (1 <= n < N)) as [|Hx]; [done|]. exfalso. apply Ht, fin_free; [done|lia]. }
  assert (forall n, inum_ok new_sb n -> i_type (on_disk V' n) = T_DIR -> n = ROOTINO) as Hroot.
  { intros n Hn Ht. destruct (fin_fields n) as (E & _); [apply Halloc; [done|by rewrite Ht]|]. rewrite E in Ht. unfold type_of in Ht. destruct (Z.eqb_spec n ROOTINO); done. }
  split; [apply fin_disk|..].
  - intros n Hn Ht. pose proof (Hroot n Hn Ht) as ->. split; [apply fin_rep; unfold ROOTINO, N; lia|done|]. change (disk_inode new_sb V' ROOTINO) with (on_disk V' ROOTINO).
    destruct (fin_fields ROOTINO) as (_ & _ & ->); [unfold ROOTINO, N; lia|]. rewrite Z.eqb_refl. unfold root_size. consts. Z.div_mod_to_equations. lia.
  - intros n e x Hn Ht Hx. pose proof (Hroot n Hn Ht) as ->. change (disk_inode new_sb V' ROOTINO) with (on_disk V' ROOTINO) in Hx. rewrite fin_map in Hx. apply names_inum in Hx.
    split; [unfold inum_ok; change (sb_ninodes new_sb) with NINODES; lia|]. change (disk_inode new_sb V' x) with (on_disk V' x). destruct (fin_fields x Hx) as (-> & _). unfold type_of. by destruct (x =? ROOTINO).
  - intros n Hn Ht. change (disk_inode new_sb V' n) with (on_disk V' n) in *. destruct (fin_fields n) as (_ & -> & _); [by apply Halloc|done].
Qed.
Lemma fin_low b : b < 33 -> V' b = if b =? 1 then sb_block else zeroes.
Proof.
  intros Hb. rewrite fin_block by lia. unfold V2, stored_at. destruct (inode_block_eq ROOTINO) as [_ Hi]; [by vm_compute|]. rewrite upd_ne by lia. apply (bu_low _ _ _ _ _ HB). by left.
Qed.
Lemma fin_disjoint n m b : 1 <= n < N -> 1 <= m < N -> owns V' (on_disk V' n) b -> owns V' (on_disk V' m) b -> n = m.
Proof.
  intros Hn Hm [Hb (j & Hj & Ej)] [_ (k & Hk & Ek)]. destruct fin_files as (S & [P R B O] & HR). rewrite R in Ej, Ek by done.
  apply (pl_inj _ _ _ _ P n m j k Hn Hm Hj Hk); congruence.
Qed.
Lemma fin_owned b : nmeta <= b < fb <-> exists n, 1 <= n < N /\ owns V' (on_disk V' n) b.
Proof.
  destruct fin_files as (S & [P R B O] & HR). split.
  - intros Hb. destruct (pl_onto _ _ _ _ P b Hb) as (n & k & Hn & Hk & E). exists n. split; [done|]. split; [consts; lia|]. exists k. split; [done|]. by rewrite R.
  - intros (n & Hn & Hb & k & Hk & E). rewrite R in E by done. destruct (pl_range _ _ _ _ P n k Hn Hk); [congruence|]. lia.
Qed.
End Finished.

(** A disk as mkfs leaves it. *)
Record fresh_disk (V : Z -> list Z) (l : list hostfile) : Prop := {
  fd_sb : get_sb (V 1) = new_sb;
  fd_log : hdr_n (V (sb_logstart new_sb)) = 0;
  fd_tree : tree_ok new_sb V;
  fd_root : dir_map V (disk_inode new_sb V ROOTINO) = names_of l;
  fd_file : forall k f, l !! k = Some f -> let i := disk_inode new_sb V (2 + Z.of_nat k) in
    inode_rep new_sb V i /\ i_type i = T_FILE /\ i_nlink i = 1 /\ fcontent V i = content f;
  fd_used : forall b, data_block new_sb b -> used new_sb V b = true <-> exists n, i_type (disk_inode new_sb V n) <> 0 /\ inum_ok new_sb n /\ owns V (disk_inode new_sb V n) b;
  fd_apart : forall n m b, inum_ok new_sb n -> inum_ok new_sb m -> i_type (disk_inode new_sb V n) <> 0 -> i_type (disk_inode new_sb V m) <> 0 ->
    owns V (disk_inode new_sb V n) b -> owns V (disk_inode new_sb V m) b -> n = m;
}.

Lemma finished_fresh V fb l : built V fb (2 + Z.of_nat (length l)) (data_of l) type_of -> Forall file_ok l -> nmeta <= fb <= FSSIZE -> dir_bytes l mod BSIZE <> 0 ->
  fresh_disk (finished V fb l) l.
Proof.
  intros HB Hok Hfb Hdir. pose proof HB as [_ _ _ _ Hc]. assert (forall n, inum_ok new_sb n -> i_type (on_disk (finished V fb l) n) <> 0 <-> 1 <= n < 2 + Z.of_nat (length l)) as Halloc.
  { intros n Hn. unfold inum_ok in Hn. change (sb_ninodes new_sb) with NINODES in Hn. split.
    - intros Ht. destruct (decide (1 <= n < 2 + Z.of_nat (length l))) as [|Hx]; [done|]. exfalso. apply Ht, (fin_free V fb l HB); [done|lia].
    - intros Hr. destruct (fin_fields V fb l HB n Hr) as (-> & _). unfold type_of. by destruct (n =? ROOTINO). }
  assert (forall n, 1 <= n < 2 + Z.of_nat (length l) -> inum_ok new_sb n) as Hin by (intros n Hn; unfold inum_ok; change (sb_ninodes new_sb) with NINODES; lia). split.
  - rewrite (fin_low V fb l HB) by done. by vm_compute.
  - rewrite (fin_low V fb l HB) by done. by vm_compute.
  - by apply fin_tree.
  - by apply fin_map.
  - intros k f Hk i. pose proof (lookup_lt_Some _ _ _ Hk). assert (1 <= 2 + Z.of_nat k < 2 + Z.of_nat (length l)) as Hr by lia. split; [by apply fin_rep|].
    destruct (fin_fields V fb l HB _ Hr) as (E1 & E2 & _). change (on_disk (finished V fb l) (2 + Z.of_nat k)) with i in E1, E2. split; [rewrite E1; unfold type_of, ROOTINO; by rewrite (proj2 (Z.eqb_neq _ 1)) by lia|]. split; [done|].
    change i with (on_disk (finished V fb l) (2 + Z.of_nat k)). rewrite (fin_content V fb l HB Hok Hfb Hdir) by lia. rewrite data_file by lia. replace (Z.to_nat (2 + Z.of_nat k - 2)) with k by lia. by rewrite Hk.
  - intros b Hb. unfold data_block in Hb. change (datastart new_sb) with nmeta in Hb. change (sb_size new_sb) with FSSIZE in Hb. rewrite (fin_used V fb l Hfb) by (consts; lia). rewrite Z.ltb_lt.
    transitivity (nmeta <= b < fb); [lia|]. rewrite (fin_owned V fb l HB b). split; intros (n & H).
    + exists n. destruct H as [Hn Ho]. split; [by apply Halloc; [apply Hin|]|]. by split; [apply Hin|].
    + exists n. destruct H as (Ht & Hn & Ho). split; [by apply Halloc|done].
  - intros n m b Hn Hm Tn Tm. apply (fin_disjoint V fb l HB); by apply Halloc.
Qed.

(** When the entries fill their blocks the rounding of the root's size goes
    one block too far: the size covers a block the root does not have. *)
Lemma root_hole V fb l : built V fb (2 + Z.of_nat (length l)) (data_of l) type_of -> dir_bytes l mod BSIZE = 0 ->
  let i := disk_inode new_sb (finished V fb l) ROOTINO in let k := dir_bytes l / BSIZE in k * BSIZE < i_size i /\ slot_of (finished V fb l) i k = 0.
Proof.
  intros HB Hdir i k. destruct (fin_files V fb l HB) as (S & [P R B O] & HR). pose proof (bu_count _ _ _ _ _ HB). pose proof (dir_small V fb l HB) as Hds.
  change i with (on_disk (finished V fb l) ROOTINO). assert (1 <= ROOTINO < 2 + Z.of_nat (length l)) as Hr by (unfold ROOTINO; lia).
  destruct (fin_fields V fb l HB ROOTINO Hr) as (_ & _ & ->). rewrite Z.eqb_refl. split; [unfold root_size; fold k; consts; lia|].
  assert (0 <= k < MAXFILE /\ dir_bytes l = k * BSIZE) as [Hk E] by (unfold k; consts; Z.div_mod_to_equations; lia). rewrite (R ROOTINO Hr) by (unfold in_slots; lia).
  destruct (HR ROOTINO Hr) as [R1 _]. destruct (Z.eq_dec (S ROOTINO k) 0) as [|Hn]; [done|]. apply R1 in Hn; [|done]. change ROOTINO with 1 in Hn. rewrite data_root, length_dir in Hn. lia.
Qed.

(** C7: mkfs builds a file system.  Given files with readable contents of at
    most MAXFILE blocks and names that fit a directory entry, no more of them
    than there are inodes and blocks for (at most 198), and not so many that
    the entries of the root directory end exactly at a block boundary (with
    62, 126 or 190 files they do, and the size mkfs gives the root then covers
    a block it does not own), mkfs returns, and the image has what the kernel
    relies on: its super block and an empty log, the metadata marked in use,
    the directory invariant that namei needs, a root directory whose names are
    the files (with a leading user/ and an underscore taken off) and an inode
    with the bytes read for each of them.  A data block is marked in use
    exactly when one inode owns it, and no block belongs to two. *)
Theorem mkfs_builds_fs image l : hf_reads image <> None -> Forall file_ok l -> 2 + Z.of_nat (length l) <= NINODES ->
  nmeta + nblk (dir_bytes l) + blocks_of l <= FSSIZE -> dir_bytes l mod BSIZE <> 0 ->
  wp (main (image :: l)) (fun _ s => fresh_disk (img s) l /\ nsect s = FSSIZE) mkfs0.
Proof.
  intros Him Hok HN Hfit Hdir. pose proof (blocks_nonneg l). pose proof (nblk_mono 0 (dir_bytes l) ltac:(unfold dir_bytes; lia)) as Hm. change (nblk 0) with 0 in Hm.
  apply wp_main_files; [done..|]. intros V HB. eapply wp_finish; [exact HB|lia|]. split; [|done]. apply finished_fresh; [done|done|lia|done].
Qed.

Definition cat_file : hostfile := mkHost [117; 115; 101; 114; 47; 95; 99; 97; 116] (Some [[127; 69; 76; 70]; [1; 2]]).
Definition readme : hostfile := mkHost [82; 69; 65; 68; 77; 69] (Some [[104; 105; 10]]).
Definition image_file : hostfile := mkHost [102; 115] (Some []).
(** mkfs fs user/_cat README *)
Lemma mkfs_builds_fs_witness : names_of [cat_file; readme] = {[ [46] := 1; [46; 46] := 1; [99; 97; 116] := 2; [82; 69; 65; 68; 77; 69] := 3 ]} /\
  wp (main [image_file; cat_file; readme]) (fun _ s => fresh_disk (img s) [cat_file; readme] /\ nsect s = FSSIZE) mkfs0.
Proof.
  split; [by vm_compute|]. apply (mkfs_builds_fs image_file [cat_file; readme]); [done| |by vm_compute|by vm_compute|by vm_compute].
  repeat (apply Forall_cons; split); [| |by apply List.Forall_nil]; (split; [done|apply (bool_decide_unpack (slash ∉ _)); by vm_compute| |by vm_compute| |by vm_compute]).
  all: repeat constructor; unfold byte_ok; lia.
Defined.
