(* ===== verification/Pipe.v ===== *)
(** * kernel/pipe.c: pipes

    A pipe with its ring buffer and its unsigned counters, read and written by
    any number of processes.  The interleavings are those of the pool of
    Prelude: a process runs until it sleeps.  [pi_in] and [pi_out] are the
    histories of the bytes stored and taken; the code does not read them. *)

From Stdlib Require Import ZArith Lia.
From S2P Require Import Prelude Env Kalloc.

Definition PIPESIZE : Z := 512.

Record pipe := mkPipe {
  pi_lock : spinlock;
  pi_data : Z -> Z;
  pi_nread : Z;
  pi_nwrite : Z;
  pi_readopen : bool;
  pi_writeopen : bool;
  pi_in : list Z;
  pi_out : list Z;
}.

(** The pipe at address [pi], the wakeups issued, the processes. *)
Record pstate (W : Type) := mkPst { ps_pipe : pipe; ps_woken : list chan; ps_user : W }.
Arguments mkPst {W}. Arguments ps_pipe {W}. Arguments ps_woken {W}. Arguments ps_user {W}.

Section Ops.
Context {W : Type} `{UserMem W} (pi : Z) (me : nat).

Definition on_pipe (f : pipe -> pipe) (s : pstate W) : pstate W :=
  mkPst (f (ps_pipe s)) (ps_woken s) (ps_user s).
Definition pi_lockL : lens (pstate W) spinlock :=
  Lens (fun s => pi_lock (ps_pipe s))
    (fun b => on_pipe (fun p => mkPipe b (pi_data p) (pi_nread p) (pi_nwrite p)
                (pi_readopen p) (pi_writeopen p) (pi_in p) (pi_out p))).
Definition ps_wokenL : lens (pstate W) (list chan) :=
  Lens ps_woken (fun w s => mkPst (ps_pipe s) w (ps_user s)).
Definition ps_userL : lens (pstate W) W :=
  Lens ps_user (fun u s => mkPst (ps_pipe s) (ps_woken s) u).

(** [pi->data[pi->nwrite++ % PIPESIZE] = ch] *)
Definition push (ch : Z) (p : pipe) : pipe :=
  mkPipe (pi_lock p) (upd (pi_data p) (pi_nwrite p mod PIPESIZE) ch) (pi_nread p) (u32 (pi_nwrite p + 1))
    (pi_readopen p) (pi_writeopen p) (pi_in p ++ [ch]) (pi_out p).
(** [pi->nread++] after the byte was delivered *)
Definition pop (ch : Z) (p : pipe) : pipe :=
  mkPipe (pi_lock p) (pi_data p) (u32 (pi_nread p + 1)) (pi_nwrite p)
    (pi_readopen p) (pi_writeopen p) (pi_in p) (pi_out p ++ [ch]).

(** The fields pipealloc sets on a fresh page. *)
Definition pipe_init (p : pipe) : pipe :=
  mkPipe false (pi_data p) 0 0 true true [] [].

(** pipeclose; the result tells the caller to free the pipe's page. *)
Definition pipeclose (writable : bool) : M (pstate W) bool :=
  acquire pi_lockL ;;
  (if writable then
     modify (on_pipe (fun p => mkPipe (pi_lock p) (pi_data p) (pi_nread p) (pi_nwrite p)
               (pi_readopen p) false (pi_in p) (pi_out p))) ;;
     wakeup ps_wokenL (ChPipeRead pi)
   else
     modify (on_pipe (fun p => mkPipe (pi_lock p) (pi_data p) (pi_nread p) (pi_nwrite p)
               false (pi_writeopen p) (pi_in p) (pi_out p))) ;;
     wakeup ps_wokenL (ChPipeWrite pi)) ;;
  let* p := gets ps_pipe in
  if negb (pi_readopen p) && negb (pi_writeopen p) then
    release pi_lockL ;; ret true
  else release pi_lockL ;; ret false.

(** One iteration of pipewrite's loop; [inr None] is the return of -1 with
    the lock released. *)
Definition pipewrite_step (addr n i : Z) : M (pstate W) (Z + option Z) :=
  if n <=? i then ret (inr (Some i)) else
  let* s := gets id in
  if negb (pi_readopen (ps_pipe s)) || u_killed me (ps_user s) then
    release pi_lockL ;; ret (inr None)
  else if pi_nwrite (ps_pipe s) =? u32 (pi_nread (ps_pipe s) + PIPESIZE) then
    wakeup ps_wokenL (ChPipeRead pi) ;;
    sleep (ChPipeWrite pi) pi_lockL ;;
    ret (inl i)
  else
    let* r := zoom ps_userL (u_copyin me (u64 (addr + i)) 1) in
    if r.1 =? -1 then ret (inr (Some i)) else
    modify (on_pipe (push (nth 0 r.2 0))) ;;
    ret (inl (i + 1)).

Definition pipewrite (fuel : nat) (addr n : Z) : M (pstate W) Z :=
  acquire pi_lockL ;;
  let* r := loop fuel (pipewrite_step addr n) 0 in
  match r with
  | None => ret (-1)
  | Some i =>
      wakeup ps_wokenL (ChPipeRead pi) ;;
      release pi_lockL ;;
      ret i
  end.

(** The wait loop of piperead: [inr false] is the return of -1. *)
Definition piperead_wait (u : unit) : M (pstate W) (unit + bool) :=
  let* s := gets id in
  let p := ps_pipe s in
  if (pi_nread p =? pi_nwrite p) && pi_writeopen p then
    if u_killed me (ps_user s) then release pi_lockL ;; ret (inr false)
    else sleep (ChPipeRead pi) pi_lockL ;; ret (inl tt)
  else ret (inr true).

Definition piperead_step (addr n i : Z) : M (pstate W) (Z + Z) :=
  if n <=? i then ret (inr i) else
  let* p := gets ps_pipe in
  if pi_nread p =? pi_nwrite p then ret (inr i) else
  let ch := pi_data p (pi_nread p mod PIPESIZE) in
  let* r := zoom ps_userL (u_copyout me (u64 (addr + i)) [ch]) in
  if r =? -1 then ret (inr (if i =? 0 then -1 else i)) else
  modify (on_pipe (pop ch)) ;;
  ret (inl (i + 1)).

Definition piperead (fuel : nat) (addr n : Z) : M (pstate W) Z :=
  acquire pi_lockL ;;
  let* go := loop fuel piperead_wait tt in
  if negb go then ret (-1) else
  let* i := loop (S (Z.to_nat n)) (piperead_step addr n) 0 in
  wakeup ps_wokenL (ChPipeWrite pi) ;;
  release pi_lockL ;;
  ret i.
End Ops.

(** ** The ring buffer holds the bytes in flight *)

Record pipe_ok (p : pipe) (q : list Z) : Prop := {
  po_hist : pi_in p = pi_out p ++ q;
  po_cap : Z.of_nat (length q) <= PIPESIZE;
  po_nread : pi_nread p = u32 (Z.of_nat (length (pi_out p)));
  po_nwrite : pi_nwrite p = u32 (Z.of_nat (length (pi_in p)));
  po_data : forall k c, q !! k = Some c -> pi_data p ((Z.of_nat (length (pi_out p) + k)) mod PIPESIZE) = c;
}.

Lemma u32_mod_PIPESIZE x : u32 x mod PIPESIZE = x mod PIPESIZE.
Proof.
  unfold u32, PIPESIZE. apply Z.mod_mod_divide. exists (2 ^ 23). lia.
Qed.

Lemma pipe_full p q : pipe_ok p q ->
  pi_nwrite p = u32 (pi_nread p + PIPESIZE) <-> Z.of_nat (length q) = PIPESIZE.
Proof.
  intros [H1 H2 H3 H4 _]. rewrite H3, H4, H1, length_app, Nat2Z.inj_add.
  unfold u32 at 2 3. rewrite Zplus_mod_idemp_l. split.
  - intros E. apply (u32_sub_eq (Z.of_nat (length (pi_out p)))); unfold PIPESIZE in *; try lia. exact E.
  - intros ->. done.
Qed.

Lemma pipe_empty p q : pipe_ok p q -> pi_nread p = pi_nwrite p <-> q = [].
Proof.
  intros [H1 H2 H3 H4 _]. rewrite H3, H4, H1, length_app, Nat2Z.inj_add. split.
  - intros E. apply nil_length_inv. rewrite <- (Z.add_0_r (Z.of_nat (length (pi_out p)))) in E at 1.
    apply u32_sub_eq in E; unfold PIPESIZE in *; lia.
  - intros ->. by rewrite Z.add_0_r.
Qed.

Lemma push_ok p q ch : pipe_ok p q -> Z.of_nat (length q) <> PIPESIZE -> pipe_ok (push ch p) (q ++ [ch]).
Proof.
  intros [H1 H2 H3 H4 H5] Hne. split; cbn.
  - by rewrite H1, app_assoc.
  - rewrite length_app. cbn. lia.
  - done.
  - rewrite H4, u32_succ, length_app. f_equal. cbn. lia.
  - intros k c Hk. rewrite H4, u32_mod_PIPESIZE, H1, length_app.
    apply lookup_app_Some in Hk as [Hk|[Hk1 Hk2]].
    + pose proof (lookup_lt_Some _ _ _ Hk). rewrite upd_ne; [by apply H5|].
      unfold PIPESIZE in *. intros E. clear -E H H2 Hne. Z.div_mod_to_equations. lia.
    + apply list_lookup_singleton_Some in Hk2 as [Hk2 <-].
      replace (length (pi_out p) + k)%nat with (length (pi_out p) + length q)%nat by lia. by rewrite upd_eq.
Qed.

Lemma pop_ok p c q : pipe_ok p (c :: q) -> pi_data p (pi_nread p mod PIPESIZE) = c /\ pipe_ok (pop c p) q.
Proof.
  intros [H1 H2 H3 H4 H5]. split.
  - rewrite H3, u32_mod_PIPESIZE. rewrite <- (H5 0%nat c eq_refl). do 3 f_equal. lia.
  - split; cbn.
    + by rewrite H1, <- app_assoc.
    + cbn in H2. lia.
    + rewrite H3, u32_succ, length_app. f_equal. cbn. lia.
    + done.
    + intros k x Hk. rewrite <- (H5 (S k) x Hk). do 3 f_equal. rewrite length_app. cbn. lia.
Qed.

(** ** Any number of readers and writers *)

Section Safety.
Context {W : Type} `{UserMem W} (IW : W -> Prop) `{!UserMemOk W IW} (pi : Z).

Definition pipe_inv (locked : bool) (s : pstate W) : Prop :=
  pi_lock (ps_pipe s) = locked /\ (exists q, pipe_ok (ps_pipe s) q) /\ IW (ps_user s).

Lemma pipe_ok_lock p q b : pipe_ok p q ->
  pipe_ok (mkPipe b (pi_data p) (pi_nread p) (pi_nwrite p) (pi_readopen p) (pi_writeopen p) (pi_in p) (pi_out p)) q.
Proof. intros []. by split. Qed.

Lemma pipe_acquire s : pipe_inv false s -> wp (acquire pi_lockL) (fun _ => pipe_inv true) s.
Proof.
  intros (L & (q & Hq) & HW). wp_step. split; [done|]. split; [|done]. exists q. by apply pipe_ok_lock.
Qed.
Lemma pipe_release s : pipe_inv true s -> wp (release pi_lockL) (fun _ => pipe_inv false) s.
Proof.
  intros (L & (q & Hq) & HW). wp_step. split; [done|]. split; [|done]. exists q. by apply pipe_ok_lock.
Qed.
Lemma pipe_wakeup s c b : pipe_inv b s -> wp (wakeup ps_wokenL c) (fun _ => pipe_inv b) s.
Proof. intros Hs. by wp_step. Qed.
Lemma pipe_sleep s c (A : Type) (Q : A -> pstate W -> Prop) (k : M (pstate W) A) : pipe_inv true s ->
  (forall s', pipe_inv true s' -> safe (pipe_inv false) Q (k s')) ->
  safe (pipe_inv false) Q ((sleep c pi_lockL ;; k) s).
Proof.
  intros (L & (q & Hq) & HW) HQ. apply safe_bind. apply safe_sleep; [done| |].
  - split; [done|]. split; [|done]. exists q. by apply pipe_ok_lock.
  - intros s' (L' & (q' & Hq') & HW'). split; [done|]. apply HQ. split; [done|]. split; [|done].
    exists q'. by apply pipe_ok_lock.
Qed.

(** Where the loop of pipewrite may be left. *)
Definition write_exit (r : option Z) (s : pstate W) : Prop :=
  match r with None => pipe_inv false s | Some _ => pipe_inv true s end.

Lemma pipewrite_step_safe me addr n i s : pipe_inv true s ->
  safe (pipe_inv false) (fun r s' => match r with inl _ => pipe_inv true s' | inr v => write_exit v s' end)
    (pipewrite_step pi me addr n i s).
Proof.
  intros Hs. unfold pipewrite_step. destruct (n <=? i); [done|]. apply safe_bind. cbn.
  destruct (negb (pi_readopen _) || _).
  { apply safe_bind, safe_wp. eapply wp_mono; [by apply pipe_release|]. by intros [] s' Hs'. }
  destruct (Z.eqb_spec (pi_nwrite (ps_pipe s)) (u32 (pi_nread (ps_pipe s) + PIPESIZE))) as [E|E].
  { apply safe_bind, safe_wp. eapply wp_mono; [by apply pipe_wakeup|]. intros [] s' Hs'.
    apply pipe_sleep; [done|]. by intros s'' Hs''. }
  apply safe_bind, safe_wp, wp_zoom. destruct Hs as (L & (q & Hq) & HW).
  eapply wp_mono; [by apply u_copyin_ok|]. cbn. intros r w' [HW' _].
  destruct (r.1 =? -1); cbn.
  { split; [done|]. by split; [exists q|]. }
  split; [done|]. split; [|done]. exists (q ++ [nth 0 r.2 0]). apply push_ok; [done|].
  intros Eq. apply E. by apply (pipe_full _ q).
Qed.

Lemma pipewrite_safe fuel me addr n s : pipe_inv false s ->
  safe (pipe_inv false) (fun _ => pipe_inv false) (pipewrite pi me fuel addr n s).
Proof.
  intros Hs. unfold pipewrite. apply safe_bind, safe_wp. eapply wp_mono; [by apply pipe_acquire|].
  intros [] s1 H1. apply safe_bind. eapply safe_mono.
  { apply (safe_loop _ (fun _ => pipe_inv true) _ write_exit); [|done].
    intros i s2 H2. by apply pipewrite_step_safe. }
  intros [i|] s2 H2; [|done]. apply safe_bind, safe_wp. eapply wp_mono; [by apply pipe_wakeup|].
  intros [] s3 H3. apply safe_bind, safe_wp. eapply wp_mono; [by apply pipe_release|]. by intros [] s4 H4.
Qed.

Lemma piperead_step_spec me addr n i s : pipe_inv true s ->
  wp (piperead_step me addr n i) (fun _ => pipe_inv true) s.
Proof.
  intros Hs. unfold piperead_step. destruct (n <=? i); [by wp_step|]. wp_step. wp_step.
  destruct (Z.eqb_spec (pi_nread (ps_pipe s)) (pi_nwrite (ps_pipe s))) as [E|E]; [by wp_step|].
  wp_step. wp_step. destruct Hs as (L & (q & Hq) & HW). eapply wp_mono; [by apply u_copyout_ok|].
  intros r w' HW'. destruct (r =? -1); [wp_step; split; [done|]; split; [by exists q|done]|].
  destruct q as [|c q]; [destruct E; by apply (pipe_empty _ [])|].
  destruct (pop_ok _ _ _ Hq) as [-> Hq']. wp_step. wp_step. wp_step. split; [done|]. split; [by exists q|done].
Qed.

Lemma piperead_safe fuel me addr n s : pipe_inv false s ->
  safe (pipe_inv false) (fun _ => pipe_inv false) (piperead pi me fuel addr n s).
Proof.
  intros Hs. unfold piperead. apply safe_bind, safe_wp. eapply wp_mono; [by apply pipe_acquire|].
  intros [] s1 H1. apply safe_bind. eapply safe_mono.
  { apply (safe_loop _ (fun _ => pipe_inv true) _ (fun go : bool => pipe_inv go)); [|done].
    intros [] s2 H2. unfold piperead_wait. apply safe_bind. cbn. destruct (_ && _); [|done].
    destruct (u_killed _ _).
    - apply safe_bind, safe_wp. eapply wp_mono; [by apply pipe_release|]. by intros [] s' Hs'.
    - apply pipe_sleep; [done|]. by intros s'' Hs''. }
  intros [] s2 H2; [|done]. cbn [negb]. apply safe_bind. eapply safe_mono.
  { apply (safe_loop _ (fun _ => pipe_inv true) _ (fun _ => pipe_inv true)); [|done].
    intros i s3 H3. apply safe_wp. eapply wp_mono; [by apply piperead_step_spec|]. by intros [|] s' Hs'. }
  intros i s3 H3. apply safe_bind, safe_wp. eapply wp_mono; [apply pipe_wakeup, H3|].
  intros [] s4 H4. apply safe_bind, safe_wp. eapply wp_mono; [by apply pipe_release|]. by intros [] s5 H5.
Qed.

Lemma pipeclose_safe writable s : pipe_inv false s ->
  wp (pipeclose pi writable) (fun _ => pipe_inv false) s.
Proof.
  intros Hs. unfold pipeclose. wp_step. eapply wp_mono; [by apply pipe_acquire|]. intros [] s1 H1.
  wp_step. apply (wp_mono _ (fun _ => pipe_inv true)).
  - destruct H1 as (L & (q & Hq) & HW). destruct writable; wp_steps; split; try done; split; try done;
      exists q; destruct Hq; by split.
  - intros [] s2 H2. wp_step. wp_step. destruct (_ && _); wp_step;
      (eapply wp_mono; [apply pipe_release, H2|]); intros [] s3 H3; by wp_step.
Qed.
End Safety.

(** A process that uses the pipe: one system call. *)
Inductive pcall :=
| PWrite (p : nat) (fuel : nat) (addr n : Z)
| PRead (p : nat) (fuel : nat) (addr n : Z)
| PClose (writable : bool).

Definition prun {W} `{UserMem W} (pi : Z) (c : pcall) : thread (pstate W) :=
  match c with
  | PWrite p fuel addr n => pipewrite pi p fuel addr n ;; ret tt
  | PRead p fuel addr n => piperead pi p fuel addr n ;; ret tt
  | PClose w => pipeclose pi w ;; ret tt
  end.

Lemma prun_safe {W} `{UserMem W} (IW : W -> Prop) `{!UserMemOk W IW} pi c :
  thread_safe (pipe_inv IW false) (prun pi c).
Proof.
  intros s Hs. destruct c as [p fuel addr n|p fuel addr n|w]; apply safe_bind; eapply safe_mono;
    [by apply (pipewrite_safe IW)|done|by apply (piperead_safe IW)|done|
     by apply safe_wp, (pipeclose_safe IW)|done].
Qed.

Lemma pipe_init_ok p : pipe_ok (pipe_init p) [].
Proof. split; cbn; done. Qed.

(** C10: a pipe is a FIFO for any number of concurrent readers and writers.
    From a freshly allocated pipe, in every interleaving of any calls of
    pipewrite, piperead and pipeclose (each process running until it sleeps),
    no call panics, the lock is free whenever a process is switched, the
    bytes taken out are a prefix of the bytes put in, in order, and at most
    PIPESIZE bytes are in flight, also when the 32-bit counters wrap. *)
Theorem pipe_fifo {W} `{UserMem W} (IW : W -> Prop) `{!UserMemOk W IW} pi p u calls ts s :
  IW u ->
  rtc pool_step (prun pi <$> calls, mkPst (pipe_init p) [] u) (ts, s) ->
  ~ pool_panics (ts, s) /\ pi_lock (ps_pipe s) = false /\
  exists inflight, pi_in (ps_pipe s) = pi_out (ps_pipe s) ++ inflight /\
                   Z.of_nat (length inflight) <= PIPESIZE.
Proof.
  intros Hu Hrun. destruct (pool_safe (pipe_inv IW false) _ _ Hrun) as (_ & (L & (q & Hq) & _) & Hp).
  - cbn. apply Forall_fmap, Forall_forall. intros c _. by apply prun_safe.
  - split; [done|]. split; [|done]. exists []. apply pipe_init_ok.
  - split; [done|]. split; [done|]. exists q. split; apply Hq.
Qed.

(** ** Writing and reading back *)

Section RoundTrip.
Context {W : Type} `{UserMem W} (pi : Z).
Context (wr rd : nat) (umem : Z -> Z) (store : Z -> Z -> W -> W).
Hypothesis Hin : forall va w, u_copyin wr va 1 w = Ret (0, [umem va]) w.
Hypothesis Hout : forall va ch w, u_copyout rd va [ch] w = Ret 0 (store va ch w).
Hypothesis Halive : forall w, u_killed wr w = false /\ u_killed rd w = false.

(** The bytes of the writer at [addr], and the reader's memory after
    [bytes] were delivered at [addr + i]. *)
Definition user_bytes (addr i n : Z) : list Z := (fun j => umem (u64 (addr + j))) <$> seqZ i (n - i).
Fixpoint deliver (addr i : Z) (bytes : list Z) (w : W) : W :=
  match bytes with [] => w | b :: bs => deliver addr (i + 1) bs (store (u64 (addr + i)) b w) end.

(** With room for all its bytes, pipewrite stores them without waiting. *)
Lemma pipewrite_loop addr n fuel : forall k s q i, Z.of_nat k = n - i -> 0 <= i -> (k < fuel)%nat ->
  pipe_ok (ps_pipe s) q -> pi_readopen (ps_pipe s) = true ->
  Z.of_nat (length q) + (n - i) <= PIPESIZE ->
  wp (loop fuel (pipewrite_step pi wr addr n) i) (fun r s' => r = Some n /\
    let bytes := user_bytes addr i n in
    pipe_ok (ps_pipe s') (q ++ bytes) /\ pi_in (ps_pipe s') = pi_in (ps_pipe s) ++ bytes /\
    pi_out (ps_pipe s') = pi_out (ps_pipe s) /\ pi_lock (ps_pipe s') = pi_lock (ps_pipe s) /\
    ps_user s' = ps_user s /\ ps_woken s' = ps_woken s) s.
Proof.
  induction fuel as [|fuel IH]; intros k s q i Hk Hi Hf Hq Ho Hroom; [lia|]. cbn [loop]. wp_step.
  unfold pipewrite_step. destruct (Z.leb_spec n i).
  { wp_step. wp_step. assert (i = n) as -> by lia. split; [done|]. unfold user_bytes.
    rewrite Z.sub_diag. cbn. rewrite !app_nil_r. done. }
  wp_step. wp_step. cbn [id]. rewrite Ho. destruct (Halive (ps_user s)) as [-> _]. cbn [negb orb].
  destruct (Z.eqb_spec (pi_nwrite (ps_pipe s)) (u32 (pi_nread (ps_pipe s) + PIPESIZE))) as [E|E].
  { apply (pipe_full _ q Hq) in E. lia. }
  wp_step. unfold wp at 1, zoom. rewrite Hin. cbn [ozoom put ps_userL view]. cbn.
  eapply wp_mono.
  { apply (IH (k - 1)%nat _ (q ++ [umem (u64 (addr + i))]) (i + 1)); try lia; cbn.
    - apply push_ok; [done|]. intros Eq. apply E. by apply (pipe_full _ q).
    - done.
    - rewrite length_app. cbn. lia. }
  cbn. intros r s' (-> & H1 & H2 & H3 & H4 & H5 & H6). split; [done|].
  unfold user_bytes in *. assert (seqZ i (n - i) = i :: seqZ (i + 1) (n - (i + 1))) as ->.
  { rewrite seqZ_cons by lia. f_equal. f_equal; lia. }
  cbn. rewrite <- !app_assoc in *. done.
Qed.

(** The copy loop of piperead takes the oldest bytes. *)
Lemma piperead_loop addr n fuel : forall s q i, 0 <= i -> Z.of_nat (length q) = n - i ->
  (length q < fuel)%nat -> pipe_ok (ps_pipe s) q ->
  wp (loop fuel (piperead_step rd addr n) i) (fun r s' => r = n /\
    pipe_ok (ps_pipe s') [] /\ pi_out (ps_pipe s') = pi_out (ps_pipe s) ++ q /\
    pi_in (ps_pipe s') = pi_in (ps_pipe s) /\ pi_lock (ps_pipe s') = pi_lock (ps_pipe s) /\
    ps_user s' = deliver addr i q (ps_user s) /\ ps_woken s' = ps_woken s) s.
Proof.
  induction fuel as [|fuel IH]; intros s q i Hi Hl Hf Hq; [lia|]. cbn [loop]. wp_step.
  unfold piperead_step. destruct q as [|c q]; cbn in Hl, Hf.
  { bsimp. wp_step. wp_step. split; [lia|]. split; [done|]. by rewrite app_nil_r. }
  bsimp. wp_step. wp_step.
  destruct (Z.eqb_spec (pi_nread (ps_pipe s)) (pi_nwrite (ps_pipe s))) as [E|E].
  { by apply (pipe_empty _ _ Hq) in E. }
  destruct (pop_ok _ _ _ Hq) as [-> Hq']. wp_step. unfold wp at 1, zoom. rewrite Hout.
  cbn [ozoom put ps_userL view]. cbn. eapply wp_mono; [apply (IH _ q (i + 1)); cbn; [lia|lia|lia|done]|].
  cbn. intros r s' (-> & H1 & H2 & H3 & H4 & H5 & H6). split; [done|]. split; [done|].
  rewrite <- app_assoc in H2. done.
Qed.

(** What is written to a pipe is what is read from it.  With an empty
    open pipe, pipewrite of [n] bytes, 0 < n <= PIPESIZE, returns [n] without
    waiting, and piperead of [n] bytes then returns [n] without waiting and
    delivers exactly the writer's bytes, in order, to the reader's memory;
    both wake the other side.  (Copies by the two processes succeed and the
    processes are not killed.) *)
Theorem pipe_write_read p w u a b n :
  pipe_ok p [] -> pi_lock p = false -> pi_readopen p = true -> 0 < n <= PIPESIZE ->
  wp (let* i := pipewrite pi wr (S (Z.to_nat n)) a n in
      let* j := piperead pi rd 1 b n in ret (i, j))
    (fun r s' => r = (n, n) /\ ps_user s' = deliver b 0 (user_bytes a 0 n) u /\
       pi_out (ps_pipe s') = pi_out p ++ user_bytes a 0 n /\ pi_in (ps_pipe s') = pi_out (ps_pipe s') /\
       ps_woken s' = w ++ [ChPipeRead pi; ChPipeWrite pi]) (mkPst p w u).
Proof.
  intros Hq Hl Ho Hn. unfold pipewrite. wp_step. wp_step. wp_step. wp_step.
  eapply wp_mono; [apply (pipewrite_loop a n (S (Z.to_nat n)) (Z.to_nat n) _ [] 0); cbn; try lia; [|done]|].
  { by apply pipe_ok_lock. }
  cbn [app]. intros r s1 (-> & H1 & H2 & H3 & H4 & H5 & H6). cbn in H2, H3, H4, H5, H6.
  wp_step. wp_step. wp_step. wp_step. wp_step.
  set (q := user_bytes a 0 n) in *. assert (Z.of_nat (length q) = n) as Lq.
  { unfold q, user_bytes. rewrite length_fmap, length_seqZ. lia. }
  assert (q <> []) as Nq by (intros E; rewrite E in Lq; cbn in Lq; lia).
  unfold piperead. wp_step. wp_step. wp_step. wp_step. cbn [loop]. wp_step. unfold piperead_wait. wp_step. wp_step.
  cbn [id ps_pipe on_pipe put pi_lockL ps_wokenL pi_nread pi_nwrite pi_writeopen].
  destruct (Z.eqb_spec (pi_nread (ps_pipe s1)) (pi_nwrite (ps_pipe s1))) as [E|E].
  { by apply (pipe_empty _ _ H1) in E. }
  cbn [andb]. wp_step. wp_step. cbn [negb]. wp_step. eapply wp_mono.
  { apply (piperead_loop b n (S (Z.to_nat n)) _ q 0); [lia|lia|lia|]. cbn. destruct H1; by split. }
  cbn. intros j s2 (-> & R1 & R2 & R3 & R4 & R5 & R6). wp_steps. split; [done|].
  rewrite R5, H5, R2, R3, H2, H3. split; [done|]. split; [done|]. split.
  - rewrite (po_hist _ _ Hq), app_nil_r. done.
  - rewrite R6, H6, <- app_assoc. done.
Qed.
End RoundTrip.

(** ** Two processes with one page of memory each *)

Module ToyUser.
(** The memory of the processes; a copy past 4096 fails as on an unmapped
    page. *)
Definition W := nat -> Z -> Z.
Definition in_page (va n : Z) : bool := va + n <=? 4096.
#[export] Instance toy : UserMem W := {
  u_copyout p va bytes := if in_page va (Z.of_nat (length bytes))
    then modify (fun w : W => upd w p (fun x =>
           if (va <=? x) && (x <? va + Z.of_nat (length bytes)) then nth (Z.to_nat (x - va)) bytes 0 else w p x)) ;; ret 0
    else ret (-1);
  u_copyin p va n := if in_page va n
    then let* w := gets id in ret (0, (fun i => w p (va + i)) <$> seqZ 0 n)
    else ret (-1, []);
  u_killed p w := false;
}.
#[export] Instance toy_ok : UserMemOk W (fun _ => True).
Proof.
  split.
  - intros p va bytes w _. cbn. by destruct (in_page _ _).
  - intros p va n w _. cbn. destruct (in_page _ _); [|by cbn].
    cbn. split; [done|]. intros _. by rewrite length_fmap, length_seqZ.
Qed.

(** Process 0 holds 7 at every address, process 1 is blank. *)
Definition w0 : W := fun p x => if decide (p = 0%nat) then 7 else 0.
Definition zero_pipe : pipe := mkPipe true (fun _ => 0) 9 9 false false [] [].
(** A reader of the empty pipe, a writer, a closing end. *)
Definition calls : list pcall := [PRead 1 10 0 20; PWrite 0 600 100 600; PClose false].

(** A writer of more than the pipe holds sleeps with the pipe full. *)
Example writer_sleeps :
  match prun 0x1000 (PWrite 0 600 100 600) (mkPst (pipe_init zero_pipe) [] w0) with
  | Sleep c s _ => c = ChPipeWrite 0x1000 /\ length (pi_in (ps_pipe s)) = 512%nat
  | _ => False
  end.
Proof. vm_compute. split; reflexivity. Qed.

Lemma reader_sleeps : exists s k,
  prun 0x1000 (PRead 1 10 0 20) (mkPst (pipe_init zero_pipe) [] w0) = Sleep (ChPipeRead 0x1000) s k.
Proof. do 2 eexists. reflexivity. Qed.

Lemma pipe_fifo_witness : exists ts s,
  rtc pool_step (prun 0x1000 <$> calls, mkPst (pipe_init zero_pipe) [] w0) (ts, s) /\
  ~ pool_panics (ts, s) /\ pi_lock (ps_pipe s) = false /\
  exists inflight, pi_in (ps_pipe s) = pi_out (ps_pipe s) ++ inflight /\
                   Z.of_nat (length inflight) <= PIPESIZE.
Proof.
  destruct reader_sleeps as (s & k & E).
  exists (k :: (prun 0x1000 <$> drop 1 calls)), s.
  assert (rtc pool_step (prun 0x1000 <$> calls, mkPst (pipe_init zero_pipe) [] w0)
                        (k :: (prun 0x1000 <$> drop 1 calls), s)) as R.
  { apply rtc_once.
    exact (pool_sleep [] (prun 0x1000 (PRead 1 10 0 20)) (prun 0x1000 <$> drop 1 calls) _ _ s k E). }
  split; [exact R|]. apply (pipe_fifo (fun _ => True) 0x1000 zero_pipe w0 calls _ s I R).
Defined.
End ToyUser.

(** Processes whose copies always succeed: process 0 holds the byte [va mod
    256] at every address, process 1's memory is the state. *)
Module ToyCopy.
Definition W := Z -> Z.
#[export] Instance toy : UserMem W := {
  u_copyout p va bytes := modify (fun w : W => upd w va (nth 0 bytes 0)) ;; ret 0;
  u_copyin p va n := ret (0, (fun i => (va + i) mod 256) <$> seqZ 0 n);
  u_killed p w := false;
}.
Definition w0 : W := fun _ => 0.

Lemma pipe_write_read_witness :
  wp (let* i := pipewrite 0x1000 0 (S (Z.to_nat 5)) 16 5 in
      let* j := piperead 0x1000 1 1 32 5 in ret (i, j))
    (fun r s' => r = (5, 5) /\
       ps_user s' = deliver (fun va ch w => upd w va ch) 32 0 (user_bytes (fun va => (va + 0) mod 256) 16 0 5) w0 /\
       pi_out (ps_pipe s') = [] ++ user_bytes (fun va => (va + 0) mod 256) 16 0 5 /\
       pi_in (ps_pipe s') = pi_out (ps_pipe s') /\
       ps_woken s' = [] ++ [ChPipeRead 0x1000; ChPipeWrite 0x1000])
    (mkPst (pipe_init ToyUser.zero_pipe) [] w0).
Proof.
  apply (pipe_write_read 0x1000 0 1 (fun va => (va + 0) mod 256) (fun va ch w => upd w va ch)).
  - intros va w. reflexivity.
  - intros va ch w. reflexivity.
  - intros w. split; reflexivity.
  - apply pipe_init_ok.
  - reflexivity.
  - reflexivity.
  - unfold PIPESIZE. lia.
Defined.
End ToyCopy.
