(* ===== verification/ProcTable.v ===== *)
(** * kernel/proc.c: the process table

    struct proc and the process-state operations of proc.c: allocation of
    pids, becoming runnable, sleeping and waking, killing, reparenting, the
    checks of sched().  Memory, files and the file system join in [Kernel].
    A pointer to a process is its index in [proc]; [me] is myproc(), run by
    one CPU whose scheduler slot and lock depth are kept here ([nproc] stands
    for no process). *)

From Stdlib Require Import ZArith Lia.
From S2P Require Import Prelude Params.

Inductive procstate := UNUSED | USED | SLEEPING | RUNNABLE | RUNNING | ZOMBIE.
#[export] Instance procstate_eq_dec : EqDecision procstate.
Proof. solve_decision. Defined.

Definition NVMA : Z := 16.
Definition nproc : nat := Z.to_nat NPROC.
Definition nofile : nat := Z.to_nat NOFILE.
Definition nvma : nat := Z.to_nat NVMA.

Record vma := mkVma {
  v_used : bool;
  v_addr : Z;
  v_length : Z;
  v_prot : Z;
  v_flags : Z;
  v_offset : Z;
  v_f : option nat;
}.

(** struct proc; the saved kernel context belongs to swtch.S. *)
Record proc := mkProc {
  p_lock : spinlock;
  p_state : procstate;
  p_chan : chan;
  p_killed : bool;
  p_xstate : Z;
  p_pid : Z;
  p_parent : option nat;
  p_kstack : Z;
  p_size : Z;
  p_pgtbl : Z;
  p_trapframe : Z;
  p_ofile : nat -> option nat;
  p_cwd : option nat;
  p_name : list Z;
  p_vmas : nat -> vma;
  p_arrival_seq : Z;
  p_priority : Z;
  p_ready_tick : Z;
  p_wait_total : Z;
  p_wait_max : Z;
  p_run_total : Z;
}.

Definition with_lock (x : spinlock) (p : proc) : proc :=
  mkProc x (p_state p) (p_chan p) (p_killed p) (p_xstate p) (p_pid p) (p_parent p) (p_kstack p)
    (p_size p) (p_pgtbl p) (p_trapframe p) (p_ofile p) (p_cwd p) (p_name p) (p_vmas p)
    (p_arrival_seq p) (p_priority p) (p_ready_tick p) (p_wait_total p) (p_wait_max p)
    (p_run_total p).
Definition with_state (x : procstate) (p : proc) : proc :=
  mkProc (p_lock p) x (p_chan p) (p_killed p) (p_xstate p) (p_pid p) (p_parent p) (p_kstack p)
    (p_size p) (p_pgtbl p) (p_trapframe p) (p_ofile p) (p_cwd p) (p_name p) (p_vmas p)
    (p_arrival_seq p) (p_priority p) (p_ready_tick p) (p_wait_total p) (p_wait_max p)
    (p_run_total p).
Definition with_chan (x : chan) (p : proc) : proc :=
  mkProc (p_lock p) (p_state p) x (p_killed p) (p_xstate p) (p_pid p) (p_parent p) (p_kstack p)
    (p_size p) (p_pgtbl p) (p_trapframe p) (p_ofile p) (p_cwd p) (p_name p) (p_vmas p)
    (p_arrival_seq p) (p_priority p) (p_ready_tick p) (p_wait_total p) (p_wait_max p)
    (p_run_total p).
Definition with_killed (x : bool) (p : proc) : proc :=
  mkProc (p_lock p) (p_state p) (p_chan p) x (p_xstate p) (p_pid p) (p_parent p) (p_kstack p)
    (p_size p) (p_pgtbl p) (p_trapframe p) (p_ofile p) (p_cwd p) (p_name p) (p_vmas p)
    (p_arrival_seq p) (p_priority p) (p_ready_tick p) (p_wait_total p) (p_wait_max p)
    (p_run_total p).
Definition with_xstate (x : Z) (p : proc) : proc :=
  mkProc (p_lock p) (p_state p) (p_chan p) (p_killed p) x (p_pid p) (p_parent p) (p_kstack p)
    (p_size p) (p_pgtbl p) (p_trapframe p) (p_ofile p) (p_cwd p) (p_name p) (p_vmas p)
    (p_arrival_seq p) (p_priority p) (p_ready_tick p) (p_wait_total p) (p_wait_max p)
    (p_run_total p).
Definition with_pid (x : Z) (p : proc) : proc :=
  mkProc (p_lock p) (p_state p) (p_chan p) (p_killed p) (p_xstate p) x (p_parent p) (p_kstack p)
    (p_size p) (p_pgtbl p) (p_trapframe p) (p_ofile p) (p_cwd p) (p_name p) (p_vmas p)
    (p_arrival_seq p) (p_priority p) (p_ready_tick p) (p_wait_total p) (p_wait_max p)
    (p_run_total p).
Definition with_parent (x : option nat) (p : proc) : proc :=
  mkProc (p_lock p) (p_state p) (p_chan p) (p_killed p) (p_xstate p) (p_pid p) x (p_kstack p)
    (p_size p) (p_pgtbl p) (p_trapframe p) (p_ofile p) (p_cwd p) (p_name p) (p_vmas p)
    (p_arrival_seq p) (p_priority p) (p_ready_tick p) (p_wait_total p) (p_wait_max p)
    (p_run_total p).
Definition with_kstack (x : Z) (p : proc) : proc :=
  mkProc (p_lock p) (p_state p) (p_chan p) (p_killed p) (p_xstate p) (p_pid p) (p_parent p) x
    (p_size p) (p_pgtbl p) (p_trapframe p) (p_ofile p) (p_cwd p) (p_name p) (p_vmas p)
    (p_arrival_seq p) (p_priority p) (p_ready_tick p) (p_wait_total p) (p_wait_max p)
    (p_run_total p).
Definition with_size (x : Z) (p : proc) : proc :=
  mkProc (p_lock p) (p_state p) (p_chan p) (p_killed p) (p_xstate p) (p_pid p) (p_parent p)
    (p_kstack p) x (p_pgtbl p) (p_trapframe p) (p_ofile p) (p_cwd p) (p_name p) (p_vmas p)
    (p_arrival_seq p) (p_priority p) (p_ready_tick p) (p_wait_total p) (p_wait_max p)
    (p_run_total p).
Definition with_pgtbl (x : Z) (p : proc) : proc :=
  mkProc (p_lock p) (p_state p) (p_chan p) (p_killed p) (p_xstate p) (p_pid p) (p_parent p)
    (p_kstack p) (p_size p) x (p_trapframe p) (p_ofile p) (p_cwd p) (p_name p) (p_vmas p)
    (p_arrival_seq p) (p_priority p) (p_ready_tick p) (p_wait_total p) (p_wait_max p)
    (p_run_total p).
Definition with_trapframe (x : Z) (p : proc) : proc :=
  mkProc (p_lock p) (p_state p) (p_chan p) (p_killed p) (p_xstate p) (p_pid p) (p_parent p)
    (p_kstack p) (p_size p) (p_pgtbl p) x (p_ofile p) (p_cwd p) (p_name p) (p_vmas p)
    (p_arrival_seq p) (p_priority p) (p_ready_tick p) (p_wait_total p) (p_wait_max p)
    (p_run_total p).
Definition with_ofile (x : nat -> option nat) (p : proc) : proc :=
  mkProc (p_lock p) (p_state p) (p_chan p) (p_killed p) (p_xstate p) (p_pid p) (p_parent p)
    (p_kstack p) (p_size p) (p_pgtbl p) (p_trapframe p) x (p_cwd p) (p_name p) (p_vmas p)
    (p_arrival_seq p) (p_priority p) (p_ready_tick p) (p_wait_total p) (p_wait_max p)
    (p_run_total p).
Definition with_cwd (x : option nat) (p : proc) : proc :=
  mkProc (p_lock p) (p_state p) (p_chan p) (p_killed p) (p_xstate p) (p_pid p) (p_parent p)
    (p_kstack p) (p_size p) (p_pgtbl p) (p_trapframe p) (p_ofile p) x (p_name p) (p_vmas p)
    (p_arrival_seq p) (p_priority p) (p_ready_tick p) (p_wait_total p) (p_wait_max p)
    (p_run_total p).
Definition with_name (x : list Z) (p : proc) : proc :=
  mkProc (p_lock p) (p_state p) (p_chan p) (p_killed p) (p_xstate p) (p_pid p) (p_parent p)
    (p_kstack p) (p_size p) (p_pgtbl p) (p_trapframe p) (p_ofile p) (p_cwd p) x (p_vmas p)
    (p_arrival_seq p) (p_priority p) (p_ready_tick p) (p_wait_total p) (p_wait_max p)
    (p_run_total p).
Definition with_vmas (x : nat -> vma) (p : proc) : proc :=
  mkProc (p_lock p) (p_state p) (p_chan p) (p_killed p) (p_xstate p) (p_pid p) (p_parent p)
    (p_kstack p) (p_size p) (p_pgtbl p) (p_trapframe p) (p_ofile p) (p_cwd p) (p_name p) x
    (p_arrival_seq p) (p_priority p) (p_ready_tick p) (p_wait_total p) (p_wait_max p)
    (p_run_total p).
Definition with_arrival_seq (x : Z) (p : proc) : proc :=
  mkProc (p_lock p) (p_state p) (p_chan p) (p_killed p) (p_xstate p) (p_pid p) (p_parent p)
    (p_kstack p) (p_size p) (p_pgtbl p) (p_trapframe p) (p_ofile p) (p_cwd p) (p_name p) (p_vmas
    p) x (p_priority p) (p_ready_tick p) (p_wait_total p) (p_wait_max p) (p_run_total p).
Definition with_priority (x : Z) (p : proc) : proc :=
  mkProc (p_lock p) (p_state p) (p_chan p) (p_killed p) (p_xstate p) (p_pid p) (p_parent p)
    (p_kstack p) (p_size p) (p_pgtbl p) (p_trapframe p) (p_ofile p) (p_cwd p) (p_name p) (p_vmas
    p) (p_arrival_seq p) x (p_ready_tick p) (p_wait_total p) (p_wait_max p) (p_run_total p).
Definition with_ready_tick (x : Z) (p : proc) : proc :=
  mkProc (p_lock p) (p_state p) (p_chan p) (p_killed p) (p_xstate p) (p_pid p) (p_parent p)
    (p_kstack p) (p_size p) (p_pgtbl p) (p_trapframe p) (p_ofile p) (p_cwd p) (p_name p) (p_vmas
    p) (p_arrival_seq p) (p_priority p) x (p_wait_total p) (p_wait_max p) (p_run_total p).
Definition with_wait_total (x : Z) (p : proc) : proc :=
  mkProc (p_lock p) (p_state p) (p_chan p) (p_killed p) (p_xstate p) (p_pid p) (p_parent p)
    (p_kstack p) (p_size p) (p_pgtbl p) (p_trapframe p) (p_ofile p) (p_cwd p) (p_name p) (p_vmas
    p) (p_arrival_seq p) (p_priority p) (p_ready_tick p) x (p_wait_max p) (p_run_total p).
Definition with_wait_max (x : Z) (p : proc) : proc :=
  mkProc (p_lock p) (p_state p) (p_chan p) (p_killed p) (p_xstate p) (p_pid p) (p_parent p)
    (p_kstack p) (p_size p) (p_pgtbl p) (p_trapframe p) (p_ofile p) (p_cwd p) (p_name p) (p_vmas
    p) (p_arrival_seq p) (p_priority p) (p_ready_tick p) (p_wait_total p) x (p_run_total p).
Definition with_run_total (x : Z) (p : proc) : proc :=
  mkProc (p_lock p) (p_state p) (p_chan p) (p_killed p) (p_xstate p) (p_pid p) (p_parent p)
    (p_kstack p) (p_size p) (p_pgtbl p) (p_trapframe p) (p_ofile p) (p_cwd p) (p_name p) (p_vmas
    p) (p_arrival_seq p) (p_priority p) (p_ready_tick p) (p_wait_total p) (p_wait_max p) x.

(** The process table, the counters of proc.c and trap.c, the depth of
    push_off nesting and the process of the running CPU. *)
Record ptable := mkPt {
  procs : nat -> proc;
  nextpid : Z;
  pid_lock : spinlock;
  next_seq : Z;
  seq_lock : spinlock;
  wait_lock : spinlock;
  ls_count : Z;
  initproc : option nat;
  ticks : Z;
  tickslock : spinlock;
  noff_ : Z;
  running : option nat;
}.

Definition set_procs (x : nat -> proc) (s : ptable) : ptable :=
  mkPt x (nextpid s) (pid_lock s) (next_seq s) (seq_lock s) (wait_lock s) (ls_count s) (initproc
    s) (ticks s) (tickslock s) (noff_ s) (running s).
Definition set_nextpid (x : Z) (s : ptable) : ptable :=
  mkPt (procs s) x (pid_lock s) (next_seq s) (seq_lock s) (wait_lock s) (ls_count s) (initproc
    s) (ticks s) (tickslock s) (noff_ s) (running s).
Definition set_pid_lock (x : spinlock) (s : ptable) : ptable :=
  mkPt (procs s) (nextpid s) x (next_seq s) (seq_lock s) (wait_lock s) (ls_count s) (initproc s)
    (ticks s) (tickslock s) (noff_ s) (running s).
Definition set_next_seq (x : Z) (s : ptable) : ptable :=
  mkPt (procs s) (nextpid s) (pid_lock s) x (seq_lock s) (wait_lock s) (ls_count s) (initproc s)
    (ticks s) (tickslock s) (noff_ s) (running s).
Definition set_seq_lock (x : spinlock) (s : ptable) : ptable :=
  mkPt (procs s) (nextpid s) (pid_lock s) (next_seq s) x (wait_lock s) (ls_count s) (initproc s)
    (ticks s) (tickslock s) (noff_ s) (running s).
Definition set_wait_lock (x : spinlock) (s : ptable) : ptable :=
  mkPt (procs s) (nextpid s) (pid_lock s) (next_seq s) (seq_lock s) x (ls_count s) (initproc s)
    (ticks s) (tickslock s) (noff_ s) (running s).
Definition set_ls_count (x : Z) (s : ptable) : ptable :=
  mkPt (procs s) (nextpid s) (pid_lock s) (next_seq s) (seq_lock s) (wait_lock s) x (initproc s)
    (ticks s) (tickslock s) (noff_ s) (running s).
Definition set_initproc (x : option nat) (s : ptable) : ptable :=
  mkPt (procs s) (nextpid s) (pid_lock s) (next_seq s) (seq_lock s) (wait_lock s) (ls_count s) x
    (ticks s) (tickslock s) (noff_ s) (running s).
Definition set_ticks (x : Z) (s : ptable) : ptable :=
  mkPt (procs s) (nextpid s) (pid_lock s) (next_seq s) (seq_lock s) (wait_lock s) (ls_count s)
    (initproc s) x (tickslock s) (noff_ s) (running s).
Definition set_tickslock (x : spinlock) (s : ptable) : ptable :=
  mkPt (procs s) (nextpid s) (pid_lock s) (next_seq s) (seq_lock s) (wait_lock s) (ls_count s)
    (initproc s) (ticks s) x (noff_ s) (running s).
Definition set_noff (x : Z) (s : ptable) : ptable :=
  mkPt (procs s) (nextpid s) (pid_lock s) (next_seq s) (seq_lock s) (wait_lock s) (ls_count s)
    (initproc s) (ticks s) (tickslock s) x (running s).
Definition set_running (x : option nat) (s : ptable) : ptable :=
  mkPt (procs s) (nextpid s) (pid_lock s) (next_seq s) (seq_lock s) (wait_lock s) (ls_count s)
    (initproc s) (ticks s) (tickslock s) (noff_ s) x.

Definition on_proc (i : nat) (f : proc -> proc) (s : ptable) : ptable :=
  set_procs (upd (procs s) i (f (procs s i))) s.

Definition p_lockL (i : nat) : lens ptable spinlock :=
  Lens (fun s => p_lock (procs s i)) (fun b => on_proc i (with_lock b)).
Definition pid_lockL : lens ptable spinlock := Lens pid_lock set_pid_lock.
Definition seq_lockL : lens ptable spinlock := Lens seq_lock set_seq_lock.
Definition wait_lockL : lens ptable spinlock := Lens wait_lock set_wait_lock.
Definition tickslockL : lens ptable spinlock := Lens tickslock set_tickslock.

(** Locking with the CPU's nesting depth. *)
Definition lock (l : lens ptable spinlock) : M ptable unit :=
  acquire l ;; modify (fun s => set_noff (noff_ s + 1) s).
Definition unlock (l : lens ptable spinlock) : M ptable unit :=
  release l ;; modify (fun s => set_noff (noff_ s - 1) s).

Definition get_proc (i : nat) : M ptable proc := gets (fun s => procs s i).
Definition set_proc (i : nat) (f : proc -> proc) : M ptable unit := modify (on_proc i f).

(** A slot of the zeroed table the kernel boots with. *)
Definition zero_vma : vma := mkVma false 0 0 0 0 0 None.
Definition zero_proc : proc :=
  mkProc false UNUSED ChNone false 0 0 None 0 0 0 0 (fun _ => None) None (replicate 16 0) (fun _ => zero_vma)
    0 0 0 0 0 0.

Definition procinit : M ptable unit :=
  modify (set_pid_lock false) ;;
  modify (set_seq_lock false) ;;
  modify (set_wait_lock false) ;;
  for_range nproc 0 (fun i =>
    set_proc (Z.to_nat i) (fun p => with_kstack (KSTACK i) (with_state UNUSED (with_lock false p)))).

Definition mark_runnable (i : nat) : M ptable unit :=
  lock seq_lockL ;;
  let* seq := gets next_seq in
  set_proc i (with_arrival_seq seq) ;;
  modify (set_next_seq (u64 (seq + 1))) ;;
  unlock seq_lockL ;;
  let* p := get_proc i in
  when (p_priority p =? 1) (modify (fun s => set_ls_count (i32 (ls_count s + 1)) s)) ;;
  let* t := gets ticks in
  set_proc i (with_ready_tick t) ;;
  set_proc i (with_state RUNNABLE).

Definition allocpid : M ptable Z :=
  lock pid_lockL ;;
  let* pid := gets nextpid in
  modify (set_nextpid (i32 (pid + 1))) ;;
  unlock pid_lockL ;;
  ret pid.

(** The scan of allocproc for an UNUSED slot: returned with its lock held. *)
Fixpoint find_unused_proc (n : nat) (i : nat) : M ptable (option nat) :=
  match n with
  | O => ret None
  | S n =>
      lock (p_lockL i) ;;
      let* p := get_proc i in
      if decide (p_state p = UNUSED) then ret (Some i)
      else unlock (p_lockL i) ;; find_unused_proc n (S i)
  end.

(** allocproc's initialisation of the slot, the pages aside. *)
Definition init_proc (i : nat) : M ptable unit :=
  let* pid := allocpid in
  set_proc i (with_pid pid) ;;
  set_proc i (with_state USED).
Definition no_vma (v : vma) : vma :=
  mkVma false (v_addr v) (v_length v) (v_prot v) (v_flags v) (v_offset v) None.
Definition reset_proc (i : nat) : M ptable unit :=
  set_proc i (fun p => with_vmas (fun k => if decide (k < nvma)%nat then no_vma (p_vmas p k) else p_vmas p k) p) ;;
  set_proc i (with_priority 0) ;;
  set_proc i (with_wait_total 0) ;;
  set_proc i (with_wait_max 0) ;;
  set_proc i (with_run_total 0).

(** freeproc's clearing of the slot, the pages aside. *)
Definition clear_proc (p : proc) : proc :=
  let p := with_trapframe 0 p in
  let p := with_pgtbl 0 p in
  let p := with_size 0 p in
  let p := with_pid 0 p in
  let p := with_parent None p in
  let p := with_name (<[0%nat := 0]> (p_name p)) p in
  let p := with_chan ChNone p in
  let p := with_killed false p in
  let p := with_xstate 0 p in
  with_state UNUSED p.

Section Current.
Context (me : nat).

(** One iteration of wakeup's loop. *)
Definition wakeup_one (c : chan) (i : Z) : M ptable unit :=
  let p := Z.to_nat i in
  when (negb (bool_decide (p = me)))
    (lock (p_lockL p) ;;
     let* x := get_proc p in
     when (bool_decide (p_state x = SLEEPING) && bool_decide (p_chan x = c)) (mark_runnable p) ;;
     unlock (p_lockL p)).
Definition pwakeup (c : chan) : M ptable unit := for_range nproc 0 (wakeup_one c).

(** The checks of sched, then the switch: the scheduler clears its slot and
    releases the lock; the process goes on when the scheduler, having taken
    its lock again and made it RUNNING, switches back. *)
Definition sched_checks : M ptable unit :=
  let* s := gets id in
  if negb (p_lock (procs s me)) then panic "sched p->lock" else
  if negb (noff_ s =? 1) then panic "sched locks" else
  if decide (p_state (procs s me) = RUNNING) then panic "sched RUNNING" else ret tt.
Definition swtch_out : M ptable unit :=
  modify (set_running None) ;; unlock (p_lockL me).
Definition sched : M ptable unit :=
  sched_checks ;; swtch_out ;; suspend ChNone.

(** The process side of yield and sleep up to the switch. *)
Definition yield_enter : M ptable unit := lock (p_lockL me) ;; mark_runnable me.
Definition yield : M ptable unit := yield_enter ;; sched ;; unlock (p_lockL me).

Definition sleep_enter (c : chan) (lk : lens ptable spinlock) : M ptable unit :=
  lock (p_lockL me) ;;
  unlock lk ;;
  set_proc me (with_chan c) ;;
  set_proc me (with_state SLEEPING).
Definition sleep_exit (lk : lens ptable spinlock) : M ptable unit :=
  set_proc me (with_chan ChNone) ;;
  unlock (p_lockL me) ;;
  lock lk.
Definition psleep (c : chan) (lk : lens ptable spinlock) : M ptable unit :=
  sleep_enter c lk ;; sched ;; sleep_exit lk.

(** kkill, slot by slot. *)
Fixpoint kkill_scan (n i : nat) (pid : Z) : M ptable Z :=
  match n with
  | O => ret (-1)
  | S n =>
      lock (p_lockL i) ;;
      let* p := get_proc i in
      if p_pid p =? pid then
        set_proc i (with_killed true) ;;
        when (bool_decide (p_state p = SLEEPING)) (mark_runnable i) ;;
        unlock (p_lockL i) ;;
        ret 0
      else unlock (p_lockL i) ;; kkill_scan n (S i) pid
  end.
Definition kkill (pid : Z) : M ptable Z := kkill_scan nproc 0 pid.

Definition setkilled (i : nat) : M ptable unit :=
  lock (p_lockL i) ;; set_proc i (with_killed true) ;; unlock (p_lockL i).
Definition killed (i : nat) : M ptable bool :=
  lock (p_lockL i) ;; let* p := get_proc i in unlock (p_lockL i) ;; ret (p_killed p).

Definition reparent_one (i : Z) : M ptable unit :=
  let pp := Z.to_nat i in
  let* s := gets id in
  when (bool_decide (p_parent (procs s pp) = Some me))
    (set_proc pp (with_parent (initproc s)) ;;
     match initproc s with Some q => pwakeup (ChProc q) | None => ret tt end).
Definition reparent : M ptable unit := for_range nproc 0 reparent_one.

(** The last part of kexit: hand the children over, wake the parent, become
    a zombie and leave for good. *)
Definition exit_finish (status : Z) : M ptable unit :=
  lock wait_lockL ;;
  reparent ;;
  let* p := get_proc me in
  match p_parent p with Some q => pwakeup (ChProc q) | None => ret tt end ;;
  lock (p_lockL me) ;;
  set_proc me (with_xstate status) ;;
  set_proc me (with_state ZOMBIE) ;;
  unlock wait_lockL.

(** clockintr on CPU 0. *)
Definition clock_tick : M ptable unit :=
  lock tickslockL ;;
  modify (fun s => set_ticks (u32 (ticks s + 1)) s) ;;
  pwakeup ChTicks ;;
  unlock tickslockL.
End Current.
