(* ===== verification/Sched.v ===== *)
(** * Scheduling policies and the dispatcher

    kernel/sched_rr.hpp, sched_fcfs.hpp, sched_priority.hpp, the dispatch loop
    of scheduler.cpp and the C copy of the round-robin search in
    bench_rr_direct.c.  A policy is a type class: its state, pick_next,
    should_preempt and charge_tick, as the concept SchedulerPolicy has it. *)

From Stdlib Require Import ZArith Lia.
From S2P Require Import Prelude Params ProcTable.

(** ** The circular search all policies share *)

(** [for (int i = k; i <= n; i++) { idx = (last + i) % n; ... }] *)
Fixpoint rr_scan (P : nat -> bool) (n last i : Z) (fuel : nat) : option nat :=
  match fuel with
  | O => None
  | S fuel =>
      if n <? i then None else
      let idx := Z.to_nat ((last + i) mod n) in
      if P idx then Some idx else rr_scan P n last (i + 1) fuel
  end.
Definition circular (P : nat -> bool) (n last : Z) : option nat := rr_scan P n last 1 (Z.to_nat n).

Definition is_runnable (f : nat -> proc) (i : nat) : bool := bool_decide (p_state (f i) = RUNNABLE).
Definition is_ls (f : nat -> proc) (i : nat) : bool := is_runnable f i && (p_priority (f i) =? 1).

(** ** The policies *)

(** What a policy sees besides the table: g_ls_runnable_count and ticks. *)
Record sched_env := mkEnv { se_ls_count : Z; se_ticks : Z }.

Class SchedulerPolicy (P : Type) := {
  pick_next : P -> sched_env -> (nat -> proc) -> Z -> option nat * P;
  should_preempt : P -> proc -> bool;
  charge_tick : P -> sched_env -> proc -> P;
  budget_stats : P -> Z * Z * Z;
}.

Record RR := mkRR { rr_last : Z }.
Definition RR_pick_next (r : RR) (f : nat -> proc) (n : Z) : option nat * RR :=
  match circular (is_runnable f) n (rr_last r) with
  | Some idx => (Some idx, mkRR (Z.of_nat idx))
  | None => (None, r)
  end.
#[export] Instance RR_policy : SchedulerPolicy RR := {
  pick_next r _ f n := RR_pick_next r f n;
  should_preempt _ _ := true;
  charge_tick r _ _ := r;
  budget_stats _ := (0, 0, 0);
}.

(** bench_rr_direct.c: the same search with a file-scope static. *)
Definition c_rr_pick_next (c_rr_last : Z) (f : nat -> proc) (n : Z) : option nat * Z :=
  match rr_scan (is_runnable f) n c_rr_last 1 (Z.to_nat n) with
  | Some idx => (Some idx, Z.of_nat idx)
  | None => (None, c_rr_last)
  end.
Definition c_rr_reset_last : Z := -1.

Record FCFS := mkFCFS {}.
Fixpoint fcfs_scan (f : nat -> proc) (candidate : option nat) (i n : nat) : option nat :=
  match n with
  | O => candidate
  | S n =>
      let better := is_runnable f i &&
        match candidate with
        | None => true
        | Some c => p_arrival_seq (f i) <? p_arrival_seq (f c)
        end in
      fcfs_scan f (if better then Some i else candidate) (S i) n
  end.
#[export] Instance FCFS_policy : SchedulerPolicy FCFS := {
  pick_next r _ f n := (fcfs_scan f None 0 (Z.to_nat n), r);
  should_preempt _ _ := true;
  charge_tick r _ _ := r;
  budget_stats _ := (0, 0, 0);
}.

(** PriorityPreempt<UseCounter> and PrioritySelectOnly<UseCounter>. *)
Record PriorityPreempt (UseCounter : bool) := mkPP { pp_last : Z }.
Arguments mkPP {UseCounter}. Arguments pp_last {UseCounter}.
Definition PP_pick_next {UseCounter} (r : PriorityPreempt UseCounter) (e : sched_env)
    (f : nat -> proc) (n : Z) : option nat * PriorityPreempt UseCounter :=
  let maybe_ls := if UseCounter then 0 <? se_ls_count e else true in
  match (if maybe_ls then circular (is_ls f) n (pp_last r) else None) with
  | Some idx => (Some idx, mkPP (Z.of_nat idx))
  | None =>
      match circular (is_runnable f) n (pp_last r) with
      | Some idx => (Some idx, mkPP (Z.of_nat idx))
      | None => (None, r)
      end
  end.
#[export] Instance PriorityPreempt_policy UseCounter : SchedulerPolicy (PriorityPreempt UseCounter) := {
  pick_next := PP_pick_next;
  should_preempt _ running := negb (p_priority running =? 1);
  charge_tick r _ _ := r;
  budget_stats _ := (0, 0, 0);
}.

Record PrioritySelectOnly (UseCounter : bool) := mkSO { so_inner : PriorityPreempt UseCounter }.
Arguments mkSO {UseCounter}. Arguments so_inner {UseCounter}.
#[export] Instance PrioritySelectOnly_policy UseCounter : SchedulerPolicy (PrioritySelectOnly UseCounter) := {
  pick_next r e f n := let (o, i) := pick_next (so_inner r) e f n in (o, mkSO i);
  should_preempt _ _ := true;
  charge_tick r _ _ := r;
  budget_stats _ := (0, 0, 0);
}.

(** BudgetWindowTracker<BudgetTicks, WindowTicks> *)
Record tracker := mkTracker {
  last_window_index : Z;
  have_window : bool;
  charged_this_window : Z;
  ls_charged_ticks_total : Z;
  budget_exhaustions_total : Z;
}.
Section Budget.
Context (BudgetTicks WindowTicks : Z).

Definition observe (now : Z) (t : tracker) : tracker :=
  let idx := now / WindowTicks in
  if negb (have_window t) || negb (idx =? last_window_index t)
  then mkTracker idx true 0 (ls_charged_ticks_total t) (budget_exhaustions_total t)
  else t.
Definition budget_available (now : Z) (t : tracker) : bool * tracker :=
  let t := observe now t in (charged_this_window t <? BudgetTicks, t).
Definition charge (now : Z) (t : tracker) : tracker :=
  let t := observe now t in
  let total := u64 (ls_charged_ticks_total t + 1) in
  if charged_this_window t <? BudgetTicks then
    let c := charged_this_window t + 1 in
    mkTracker (last_window_index t) (have_window t) c total
      (if c =? BudgetTicks then u64 (budget_exhaustions_total t + 1) else budget_exhaustions_total t)
  else mkTracker (last_window_index t) (have_window t) (charged_this_window t) total
         (budget_exhaustions_total t).

Record PrioritySelectBudget (UseCounter : bool) := mkSB {
  sb_last : Z;
  sb_budget : tracker;
  sb_normal_selected : Z;
}.
Arguments mkSB {UseCounter}. Arguments sb_last {UseCounter}.
Arguments sb_budget {UseCounter}. Arguments sb_normal_selected {UseCounter}.

Definition SB_pick_next {UseCounter} (r : PrioritySelectBudget UseCounter) (e : sched_env)
    (f : nat -> proc) (n : Z) : option nat * PrioritySelectBudget UseCounter :=
  let (budget_ok, b) := budget_available (se_ticks e) (sb_budget r) in
  let maybe_ls := if UseCounter then 0 <? se_ls_count e else true in
  match (if maybe_ls && budget_ok then circular (is_ls f) n (sb_last r) else None) with
  | Some idx => (Some idx, mkSB (Z.of_nat idx) b (sb_normal_selected r))
  | None =>
      let ls_was_waiting := negb budget_ok && (0 <? se_ls_count e) in
      match circular (is_runnable f) n (sb_last r) with
      | Some idx =>
          (Some idx, mkSB (Z.of_nat idx) b
             (if ls_was_waiting && negb (p_priority (f idx) =? 1)
              then u64 (sb_normal_selected r + 1) else sb_normal_selected r))
      | None => (None, mkSB (sb_last r) b (sb_normal_selected r))
      end
  end.
#[export] Instance PrioritySelectBudget_policy UseCounter : SchedulerPolicy (PrioritySelectBudget UseCounter) := {
  pick_next := SB_pick_next;
  should_preempt _ _ := true;
  charge_tick r e running :=
    if p_priority running =? 1
    then mkSB (sb_last r) (charge (se_ticks e) (sb_budget r)) (sb_normal_selected r) else r;
  budget_stats r := (ls_charged_ticks_total (sb_budget r), budget_exhaustions_total (sb_budget r),
                     sb_normal_selected r);
}.
End Budget.

(** ** The dispatcher of scheduler.cpp *)

Section Dispatch.
Context {P : Type} `{SchedulerPolicy P}.

(** The accounting when process [i] leaves RUNNABLE. *)
Definition close_wait (now : Z) (p : proc) : proc :=
  let w := u32 (u32 now - u32 (p_ready_tick p)) in
  let p := with_wait_total (u64 (p_wait_total p + w)) p in
  if p_wait_max p <? w then with_wait_max w p else p.

(** One round up to the switch to the chosen process; [None] is the wfi. *)
Definition dispatch_round (policy : P) : M ptable (option nat * P) :=
  let* s := gets id in
  let (next, policy) := pick_next policy (mkEnv (ls_count s) (ticks s)) (procs s) NPROC in
  match next with
  | None => ret (None, policy)
  | Some i =>
      lock (p_lockL i) ;;
      let* p := get_proc i in
      if decide (p_state p = RUNNABLE) then
        set_proc i (with_state RUNNING) ;;
        when (p_priority p =? 1) (modify (fun s => set_ls_count (i32 (ls_count s - 1)) s)) ;;
        let* now := gets ticks in
        set_proc i (close_wait now) ;;
        modify (set_running (Some i)) ;;
        ret (Some i, policy)
      else unlock (p_lockL i) ;; ret (None, policy)
  end.
End Dispatch.

(** ** The circular search finds the next match *)

Definition slot_at (n last k : Z) : nat := Z.to_nat ((last + k) mod n).

Lemma rr_scan_some P n last idx fuel : forall i, rr_scan P n last i fuel = Some idx ->
  exists k, i <= k <= n /\ idx = slot_at n last k /\ P idx = true /\
            forall j, i <= j < k -> P (slot_at n last j) = false.
Proof.
  induction fuel as [|fuel IH]; intros i; cbn; [done|]. destruct (Z.ltb_spec n i); [done|].
  destruct (P (Z.to_nat ((last + i) mod n))) eqn:E.
  - intros [= <-]. exists i. split_and!; [lia|lia|done|done|]. intros j Hj. lia.
  - intros Hs. apply IH in Hs as (k & Hk & -> & HP & Hbefore). exists k. split_and!; [lia|lia|done|done|].
    intros j Hj. destruct (decide (j = i)) as [->|]; [done|]. apply Hbefore. lia.
Qed.

Lemma rr_scan_none P n last fuel : forall i, n - i < Z.of_nat fuel -> rr_scan P n last i fuel = None ->
  forall k, i <= k <= n -> P (slot_at n last k) = false.
Proof.
  induction fuel as [|fuel IH]; intros i Hf Hs k Hk; [lia|]. cbn in Hs. destruct (Z.ltb_spec n i); [lia|].
  destruct (P (Z.to_nat ((last + i) mod n))) eqn:E; [done|].
  destruct (decide (k = i)) as [->|]; [done|]. apply (IH (i + 1)); [lia|done|lia].
Qed.

(** Every slot is visited: [p] is the slot at its circular distance. *)
Definition dist (n last : Z) (p : nat) : Z := (Z.of_nat p - last - 1) mod n.

Lemma slot_at_dist n last p : 0 < n -> (Z.of_nat p < n) -> slot_at n last (dist n last p + 1) = p.
Proof.
  intros Hn Hp. unfold slot_at, dist. replace (last + ((Z.of_nat p - last - 1) mod n + 1))
    with ((Z.of_nat p - last - 1) mod n + (last + 1)) by lia.
  rewrite Zplus_mod_idemp_l. replace (Z.of_nat p - last - 1 + (last + 1)) with (Z.of_nat p) by lia.
  rewrite Z.mod_small by lia. lia.
Qed.
Lemma dist_range n last p : 0 < n -> 0 <= dist n last p < n.
Proof. intros. apply Z.mod_pos_bound. lia. Qed.
Lemma dist_slot n last k : 0 < n -> 1 <= k <= n -> dist n last (slot_at n last k) = k - 1.
Proof.
  intros Hn Hk. unfold dist, slot_at. pose proof (Z.mod_pos_bound (last + k) n Hn).
  rewrite Z2Nat.id by lia. symmetry. apply (Z.mod_unique _ n (- ((last + k) / n))); [lia|].
  pose proof (Z.div_mod (last + k) n). lia.
Qed.

Lemma circular_none P n last : 0 < n -> circular P n last = None ->
  forall p, Z.of_nat p < n -> P p = false.
Proof.
  intros Hn Hs p Hp. rewrite <- (slot_at_dist n last p) by done.
  apply (rr_scan_none P n last (Z.to_nat n) 1); [lia|done|]. pose proof (dist_range n last p Hn). lia.
Qed.

(** The match is at least as close as any other candidate. *)
Lemma circular_some P n last q : 0 < n -> circular P n last = Some q ->
  P q = true /\ Z.of_nat q < n /\
  forall p, Z.of_nat p < n -> P p = true -> dist n last q <= dist n last p.
Proof.
  intros Hn Hs. apply rr_scan_some in Hs as (k & Hk & -> & HP & Hb).
  pose proof (Z.mod_pos_bound (last + k) n Hn). split; [done|]. split; [unfold slot_at; lia|].
  intros p Hp HPp. rewrite dist_slot by lia. pose proof (dist_range n last p Hn).
  destruct (Z.lt_ge_cases (dist n last p) (k - 1)) as [Hlt|]; [|done].
  rewrite <- (slot_at_dist n last p) in HPp by done. rewrite Hb in HPp by lia. done.
Qed.

(** Picking another slot brings [p] closer. *)
Lemma dist_step n last p q : 0 < n -> Z.of_nat p < n -> Z.of_nat q < n -> q <> p ->
  dist n last q <= dist n last p -> dist n (Z.of_nat q) p < dist n last p.
Proof.
  intros Hn Hp Hq Hne Hle. pose proof (dist_range n last p Hn). pose proof (dist_range n last q Hn).
  assert (dist n last q <> dist n last p).
  { intros E. apply Hne. rewrite <- (slot_at_dist n last q), <- (slot_at_dist n last p) by done. by rewrite E. }
  assert (dist n (Z.of_nat q) p = dist n last p - dist n last q - 1); [|lia].
  unfold dist at 1. symmetry.
  apply (Z.mod_unique _ n ((Z.of_nat p - last - 1) / n - (Z.of_nat q - last - 1) / n)); [lia|]. unfold dist.
  pose proof (Z.div_mod (Z.of_nat p - last - 1) n). pose proof (Z.div_mod (Z.of_nat q - last - 1) n). lia.
Qed.

(** ** Round robin does not starve *)

(** [k] successive rounds of round robin, on whatever the table is at each
    round: the processes picked. *)
Fixpoint rr_rounds (r : RR) (fs : list (nat -> proc)) (n : Z) : list (option nat) :=
  match fs with
  | [] => []
  | f :: fs => let (o, r) := RR_pick_next r f n in o :: rr_rounds r fs n
  end.

Lemma rr_rounds_pick n p : 0 < n -> Z.of_nat p < n -> forall fs r,
  Forall (fun f => p_state (f p) = RUNNABLE) fs -> dist n (rr_last r) p < Z.of_nat (length fs) ->
  Some p ∈ rr_rounds r fs n.
Proof.
  intros Hn Hp fs. induction fs as [|f fs IH]; intros r Hrun Hd.
  { pose proof (dist_range n (rr_last r) p Hn). cbn in Hd. lia. }
  apply Forall_cons in Hrun as [Hf Hrun]. cbn [rr_rounds]. unfold RR_pick_next.
  assert (is_runnable f p = true) as Hpr by (unfold is_runnable; by apply bool_decide_eq_true).
  destruct (circular (is_runnable f) n (rr_last r)) as [q|] eqn:E.
  - apply circular_some in E as (_ & Hq & Hclose); [|done]. specialize (Hclose p Hp Hpr).
    destruct (decide (q = p)) as [->|Hne]; [apply list_elem_of_here|]. apply list_elem_of_further, IH; [done|].
    pose proof (dist_step n (rr_last r) p q Hn Hp Hq Hne Hclose). cbn [rr_last length] in *. lia.
  - apply (circular_none _ _ _ Hn E p) in Hp. congruence.
Qed.

(** C23: round robin is starvation free.  A process that is RUNNABLE at each
    of NPROC successive scheduling decisions is chosen in one of them,
    whatever the other processes do in between and wherever the search last
    stopped; and round robin picks nothing exactly when nothing is runnable. *)
Theorem rr_starvation_free r fs p :
  (p < nproc)%nat -> length fs = nproc -> Forall (fun f => p_state (f p) = RUNNABLE) fs ->
  Some p ∈ rr_rounds r fs NPROC /\
  forall f, (RR_pick_next r f NPROC).1 = None <-> forall i, (i < nproc)%nat -> p_state (f i) <> RUNNABLE.
Proof.
  intros Hp Hl Hrun. unfold nproc, NPROC in *. split.
  - apply rr_rounds_pick; [lia|lia|done|]. pose proof (dist_range 64 (rr_last r) p). lia.
  - intros f. unfold RR_pick_next. destruct (circular _ _ _) as [q|] eqn:E; cbn.
    + split; [done|]. intros Hn. apply circular_some in E as (Hq & Hlt & _); [|lia].
      apply bool_decide_eq_true in Hq. destruct (Hn q); [lia|done].
    + split; [|done]. intros _ i Hi Hr. assert (is_runnable f i = false) as Hf' by (eapply circular_none; [|exact E|]; lia).
      unfold is_runnable in Hf'. by rewrite bool_decide_true in Hf'.
Qed.

(** A table whose slot [i] is runnable with the given priority. *)
Definition blank : proc :=
  mkProc false UNUSED ChNone false 0 0 None 0 0 0 0 (fun _ => None) None [] (fun _ => mkVma false 0 0 0 0 0 None)
    0 0 0 0 0 0.
Definition runnable_at (l : list (nat * Z)) : nat -> proc := fun i =>
  match list_find (fun x => x.1 = i) l with
  | Some (_, (_, pr)) => with_priority pr (with_state RUNNABLE blank)
  | None => blank
  end.

Lemma rr_starvation_free_witness :
  Some 5%nat ∈ rr_rounds (mkRR 5) (replicate nproc (runnable_at [(2%nat, 0); (5%nat, 0)])) NPROC /\
  forall f, (RR_pick_next (mkRR 5) f NPROC).1 = None <-> forall i, (i < nproc)%nat -> p_state (f i) <> RUNNABLE.
Proof.
  apply (rr_starvation_free (mkRR 5)).
  - apply (bool_decide_unpack _). vm_compute. exact I.
  - reflexivity.
  - apply Forall_replicate. reflexivity.
Defined.

(** ** Priorities *)

Definition ls_total (f : nat -> proc) (n : nat) : Z := Z.of_nat (length (List.filter (is_ls f) (seq 0 n))).

Lemma ls_total_zero f n : ls_total f n <= 0 -> forall i, (i < n)%nat -> is_ls f i = false.
Proof.
  intros H i Hi. destruct (is_ls f i) eqn:E; [|done]. exfalso. unfold ls_total in H.
  assert (In i (List.filter (is_ls f) (seq 0 n))) as Hin by (apply filter_In; split; [apply in_seq; lia|done]).
  destruct (List.filter _ _); [done|cbn in H; lia].
Qed.

Lemma circular_ls_none f n last : 0 < n -> (forall i, Z.of_nat i < n -> is_ls f i = false) ->
  circular (is_ls f) n last = None.
Proof.
  intros Hn Hf. destruct (circular _ _ _) eqn:E; [|done]. apply circular_some in E as (H1 & H2 & _); [|done].
  rewrite Hf in H1; done.
Qed.

(** C24: the counter shortcut of the priority policies changes nothing.  When
    g_ls_runnable_count is the number of RUNNABLE latency-sensitive processes,
    pick_next with the counter and without it choose the same process and
    leave the same search position; the choice is a latency-sensitive process
    whenever one is runnable, and nothing only when nothing is runnable. *)
Theorem counter_shortcut_sound last f t :
  let e := mkEnv (ls_total f nproc) t in
  let fast := PP_pick_next (UseCounter:=true) (mkPP last) e f NPROC in
  let slow := PP_pick_next (UseCounter:=false) (mkPP last) e f NPROC in
  fast.1 = slow.1 /\ pp_last fast.2 = pp_last slow.2 /\
  (forall i, fast.1 = Some i -> p_state (f i) = RUNNABLE /\
     ((exists j, (j < nproc)%nat /\ is_ls f j = true) -> p_priority (f i) = 1)) /\
  (fast.1 = None <-> forall i, (i < nproc)%nat -> p_state (f i) <> RUNNABLE).
Proof.
  cbv zeta. assert (Z.of_nat nproc = NPROC /\ 0 < NPROC) as [En Hpos] by done.
  unfold PP_pick_next. cbn [se_ls_count pp_last].
  assert ((if 0 <? ls_total f nproc then circular (is_ls f) NPROC last else None) =
          circular (is_ls f) NPROC last) as ->.
  { destruct (Z.ltb_spec 0 (ls_total f nproc)); [done|]. symmetry. apply circular_ls_none; [done|].
    intros i Hi. apply (ls_total_zero f nproc); lia. }
  destruct (circular (is_ls f) NPROC last) as [q|] eqn:E1.
  - cbn. split_and!; try done.
    + intros i [= <-]. apply circular_some in E1 as (H1 & _ & _); [|done]. unfold is_ls, is_runnable in H1.
      apply andb_true_iff in H1 as [H1 H2]. apply bool_decide_eq_true in H1. apply Z.eqb_eq in H2. done.
    + apply circular_some in E1 as (H1 & Hq & _); [|done]. split; [done|]. intros Hn.
      unfold is_ls, is_runnable in H1. apply andb_true_iff in H1 as [H1 _]. apply bool_decide_eq_true in H1.
      destruct (Hn q); [lia|done].
  - destruct (circular (is_runnable f) NPROC last) as [q|] eqn:E2; cbn; split_and!; try done.
    + intros i [= <-]. apply circular_some in E2 as (H1 & _ & _); [|done]. apply bool_decide_eq_true in H1.
      split; [done|]. intros (j & Hj & Hls). rewrite (circular_none _ _ _ Hpos E1 j) in Hls; [done|lia].
    + apply circular_some in E2 as (H1 & Hq & _); [|done]. split; [done|]. intros Hn.
      apply bool_decide_eq_true in H1. destruct (Hn q); [lia|done].
    + split; [|done]. intros _ i Hi Hr. assert (is_runnable f i = false) as Hx by (eapply circular_none; [|exact E2|]; lia).
      unfold is_runnable in Hx. by rewrite bool_decide_true in Hx.
Qed.

(** ** First come, first served *)

Definition fcfs_best (f : nat -> proc) (c : option nat) (l : list nat) : Prop :=
  match c with
  | None => Forall (fun i => p_state (f i) <> RUNNABLE) l
  | Some c => c ∈ l /\ p_state (f c) = RUNNABLE /\
      Forall (fun i => p_state (f i) = RUNNABLE -> p_arrival_seq (f c) <= p_arrival_seq (f i)) l
  end.

Lemma fcfs_scan_best f n : forall c i l, fcfs_best f c l -> fcfs_best f (fcfs_scan f c i n) (l ++ seq i n).
Proof.
  induction n as [|n IH]; intros c i l Hc; cbn [fcfs_scan seq]; [by rewrite app_nil_r|].
  replace (l ++ i :: seq (S i) n) with ((l ++ [i]) ++ seq (S i) n) by (by rewrite <- app_assoc).
  apply IH. unfold is_runnable. destruct c as [c|]; cbn in *.
  - destruct Hc as (Hin & Hr & Hmin). case_bool_decide as E; cbn; [destruct (Z.ltb_spec (p_arrival_seq (f i)) (p_arrival_seq (f c)))|].
    + split; [set_solver|]. split; [done|]. apply Forall_app. split; [|by repeat constructor].
      eapply Forall_impl; [done|]. cbn. intros x Hx Hrx. specialize (Hx Hrx). lia.
    + split; [set_solver|]. split; [done|]. apply Forall_app. by split; [|repeat constructor].
    + split; [set_solver|]. split; [done|]. apply Forall_app. by split; [|repeat constructor].
  - case_bool_decide as E; cbn.
    + split; [set_solver|]. split; [done|]. apply Forall_app. split; [|by repeat constructor].
      eapply Forall_impl; [done|]. cbn. done.
    + apply Forall_app. by split; [|repeat constructor].
Qed.

(** FCFS serves the process that has been runnable longest.  pick_next
    returns a RUNNABLE process whose arrival number is minimal among all
    RUNNABLE processes, and nothing exactly when no process is runnable. *)
Theorem fcfs_oldest_first f :
  fcfs_best f (pick_next (mkFCFS) (mkEnv 0 0) f NPROC).1 (seq 0 nproc).
Proof. exact (fcfs_scan_best f nproc None 0 [] (Forall_nil_2 _)). Qed.

(** ** The budget of the latency-sensitive class *)

Section BudgetProofs.
Context (B W : Z) (HB : 0 < B < W).

Definition charges (nows : list Z) (t : tracker) : tracker := fold_left (fun t now => charge B W now t) nows t.

(** [t] is in window [w] with [k] ticks charged. *)
Record in_window (w k : Z) (t : tracker) : Prop := {
  iw_have : have_window t = true;
  iw_idx : last_window_index t = w;
  iw_charged : charged_this_window t = Z.min k B;
}.

Lemma observe_same w k now t : in_window w k t -> now / W = w -> observe W now t = t.
Proof. intros [H1 H2 _] E. unfold observe. by rewrite H1, H2, E, Z.eqb_refl. Qed.

Lemma observe_new w now t : now / W = w -> have_window t = false \/ last_window_index t <> w ->
  in_window w 0 (observe W now t) /\
  ls_charged_ticks_total (observe W now t) = ls_charged_ticks_total t /\
  budget_exhaustions_total (observe W now t) = budget_exhaustions_total t.
Proof.
  intros E Ht. unfold observe. rewrite E. assert (negb (have_window t) || negb (w =? last_window_index t) = true) as ->.
  { destruct Ht as [->|Hne]; [done|]. rewrite (proj2 (Z.eqb_neq w _)) by done. apply orb_true_r. }
  split; [|done]. split; cbn; [done|done|lia].
Qed.

(** One charge inside the window. *)
Definition charged_by (t t' : tracker) (n e : Z) : Prop :=
  ls_charged_ticks_total t' = u64 (ls_charged_ticks_total t + n) /\
  budget_exhaustions_total t' = u64 (budget_exhaustions_total t + e).

Lemma charge_in w k now t : 0 <= k -> in_window w k (observe W now t) -> now / W = w ->
  let t' := charge B W now t in
  in_window w (k + 1) t' /\
  ls_charged_ticks_total t' = u64 (ls_charged_ticks_total (observe W now t) + 1) /\
  budget_exhaustions_total t' =
    (if k + 1 =? B then u64 (budget_exhaustions_total (observe W now t) + 1)
     else budget_exhaustions_total (observe W now t)).
Proof.
  intros Hk [H1 H2 H3] E. cbv zeta. unfold charge. set (o := observe W now t) in *.
  destruct (Z.ltb_spec (charged_this_window o) B); cbn.
  - split; [split; cbn; [done|done|lia]|]. split; [done|].
    replace (charged_this_window o + 1 =? B) with (k + 1 =? B); [done|]. f_equal. lia.
  - split; [split; cbn; [done|done|lia]|]. split; [done|]. rewrite (proj2 (Z.eqb_neq (k + 1) B)) by lia. done.
Qed.

Lemma charges_in w nows : forall k t, 0 <= k -> in_window w k t -> Forall (fun now => now / W = w) nows ->
  0 <= budget_exhaustions_total t < 2 ^ 64 -> 0 <= ls_charged_ticks_total t < 2 ^ 64 ->
  let n := Z.of_nat (length nows) in
  in_window w (k + n) (charges nows t) /\
  charged_by t (charges nows t) n (if (k <? B) && (B <=? k + n) then 1 else 0).
Proof.
  induction nows as [|now nows IH]; intros k t Hk Ht Hall He Hc; cbv zeta; cbn [charges fold_left length].
  - replace (k + Z.of_nat 0) with k by lia. split; [done|]. unfold charged_by.
    replace ((k <? B) && (B <=? k)) with false by (bdestruct_all; lia). rewrite !u64_small; lia.
  - apply Forall_cons in Hall as [Hnow Hall]. pose proof (observe_same w k now t Ht Hnow) as Eo.
    pose proof (charge_in w k now t Hk) as Hch. rewrite Eo in Hch. destruct (Hch Ht Hnow) as (H1 & H2 & H3).
    destruct (IH (k + 1) (charge B W now t)) as (H4 & H5 & H6); [lia|done|done| | |].
    { rewrite H3. destruct (_ =? B); [apply u64_range|done]. }
    { rewrite H2. apply u64_range. }
    fold (charges nows (charge B W now t)) in *.
    split; [by replace (k + Z.of_nat (S (length nows))) with (k + 1 + Z.of_nat (length nows)) by lia|].
    split.
    + rewrite H5, H2. unfold u64. rewrite Zplus_mod_idemp_l. f_equal. lia.
    + rewrite H6, H3. destruct (Z.eqb_spec (k + 1) B).
      * rewrite (proj2 (Z.ltb_ge (k + 1) B)) by lia. cbn [andb]. rewrite Z.add_0_r, u64_u64.
        f_equal. f_equal. bdestruct_all; lia.
      * f_equal. f_equal. bdestruct_all; lia.
Qed.

(** The choice of the budgeted policy, once the state of the tracker is
    known: while the budget is available it is the priority policy's, and
    otherwise that of round robin. *)
Lemma SB_pick_available k now t c last ns f e : 
  budget_available B W now t = (true, k) -> se_ticks e = now ->
  let r := SB_pick_next B W (UseCounter:=c) (mkSB c last t ns) e f NPROC in
  let pp := PP_pick_next (UseCounter:=c) (mkPP last) e f NPROC in
  r.1 = pp.1 /\ sb_last _ r.2 = pp_last pp.2 /\ sb_budget _ r.2 = k /\ sb_normal_selected _ r.2 = ns.
Proof.
  intros Hav Ee. unfold SB_pick_next, PP_pick_next. cbn [sb_budget sb_last pp_last]. rewrite Ee, Hav, andb_true_r.
  destruct (if _ : bool then _ else _); [done|]. by destruct (circular (is_runnable f) NPROC last).
Qed.
Lemma SB_pick_exhausted k now t c last ns f e :
  budget_available B W now t = (false, k) -> se_ticks e = now ->
  let r := SB_pick_next B W (UseCounter:=c) (mkSB c last t ns) e f NPROC in
  let rr := RR_pick_next (mkRR last) f NPROC in
  r.1 = rr.1 /\ sb_last _ r.2 = rr_last rr.2 /\ sb_budget _ r.2 = k /\
  sb_normal_selected _ r.2 =
    match rr.1 with
    | Some i => if (0 <? se_ls_count e) && negb (p_priority (f i) =? 1) then u64 (ns + 1) else ns
    | None => ns
    end.
Proof.
  intros Hav Ee. unfold SB_pick_next, RR_pick_next. cbn [sb_budget sb_last rr_last]. rewrite Ee, Hav, andb_false_r.
  by destruct (circular (is_runnable f) NPROC last).
Qed.

(** With an exact counter the priority policy picks a latency-sensitive
    process whenever one is runnable. *)
Lemma PP_pick_ls c last e f j : (c = true -> se_ls_count e = ls_total f nproc) ->
  (j < nproc)%nat -> is_ls f j = true ->
  exists i, (PP_pick_next (UseCounter:=c) (mkPP last) e f NPROC).1 = Some i /\ is_ls f i = true.
Proof.
  intros Hc Hj Hls. unfold PP_pick_next. cbn [pp_last].
  assert ((if c then 0 <? se_ls_count e else true) = true) as ->.
  { destruct c; [|done]. rewrite Hc by done. destruct (Z.ltb_spec 0 (ls_total f nproc)); [done|].
    rewrite (ls_total_zero f nproc) in Hls; done. }
  destruct (circular (is_ls f) NPROC last) as [i|] eqn:E.
  - exists i. split; [done|]. by apply circular_some in E as (H1 & _); [|done].
  - rewrite (circular_none (is_ls f) NPROC last ltac:(done) E j) in Hls; [done|].
    assert (Z.of_nat nproc = NPROC) by done. lia.
Qed.

(** The tracker after the ticks [nows] of one window, as the next call in it
    finds it. *)
Lemma charges_window t w nows now :
  Forall (fun x => x / W = w) (now :: nows) ->
  have_window t = false \/ last_window_index t <> w ->
  0 <= budget_exhaustions_total t < 2 ^ 64 -> 0 <= ls_charged_ticks_total t < 2 ^ 64 ->
  let n := Z.of_nat (length nows) in
  in_window w n (observe W now (charges nows t)) /\
  charged_by t (observe W now (charges nows t)) n (if B <=? n then 1 else 0).
Proof.
  intros Hall Hfresh He Hc n. apply Forall_cons in Hall as [Hnow Hall].
  destruct nows as [|x nows]; [|apply Forall_cons in Hall as [Hx Hall]].
  - destruct (observe_new w now t Hnow Hfresh) as (H1 & H2 & H3). cbn [charges fold_left]. split; [done|].
    unfold charged_by, n. change (Z.of_nat (length [])) with 0. rewrite H2, H3, (proj2 (Z.leb_gt B 0)), !Z.add_0_r, !u64_small by lia. done.
  - destruct (observe_new w x t Hx Hfresh) as (H1 & H2 & H3).
    destruct (charge_in w 0 x t ltac:(lia) H1 Hx) as (C1 & C2 & C3). rewrite H2 in C2. rewrite H3 in C3.
    destruct (charges_in w nows 1 (charge B W x t)) as (H4 & H5 & H6); [lia|done|done| | |].
    { rewrite C3. destruct (_ =? B); [apply u64_range|done]. }
    { rewrite C2. apply u64_range. }
    unfold n. cbn [length charges fold_left]. fold (charges nows (charge B W x t)) in *.
    rewrite (observe_same w _ now _ H4 Hnow).
    replace (Z.of_nat (S (length nows))) with (1 + Z.of_nat (length nows)) by lia. split; [done|]. split.
    + rewrite H5, C2. unfold u64. rewrite Zplus_mod_idemp_l. f_equal. lia.
    + rewrite H6, C3. destruct (Z.eqb_spec (0 + 1) B).
      * rewrite (proj2 (Z.ltb_ge 1 B)) by lia. cbn [andb]. rewrite Z.add_0_r, u64_u64. do 2 f_equal. bdestruct_all; lia.
      * do 2 f_equal. bdestruct_all; lia.
Qed.

(** C25: the budget bounds how long latency-sensitive work keeps its
    precedence.  When [nows] are the timer ticks of one window charged to
    latency-sensitive processes, a call of pick_next later in the window
    finds min(|nows|, B) of them charged to the window, one exhaustion
    counted if the budget B was reached and none otherwise.  While fewer than
    B were charged, pick_next chooses what the priority policy chooses, and
    so, with an exact counter, a latency-sensitive process whenever one is
    runnable.  From the B-th on it chooses what round robin over all runnable
    processes chooses, whatever their class, and counts the choice of an
    ordinary process while a latency-sensitive one waits. *)
Theorem budget_bounds_precedence t w nows now c last ns f e :
  Forall (fun x => x / W = w) (now :: nows) ->
  have_window t = false \/ last_window_index t <> w ->
  0 <= budget_exhaustions_total t < 2 ^ 64 -> 0 <= ls_charged_ticks_total t < 2 ^ 64 ->
  se_ticks e = now ->
  let n := Z.of_nat (length nows) in
  let r := SB_pick_next B W (UseCounter:=c) (mkSB c last (charges nows t) ns) e f NPROC in
  let pp := PP_pick_next (UseCounter:=c) (mkPP last) e f NPROC in
  let rr := RR_pick_next (mkRR last) f NPROC in
  (charged_this_window (sb_budget _ r.2) = Z.min n B /\
   charged_by t (sb_budget _ r.2) n (if B <=? n then 1 else 0)) /\
  (n < B ->
     r.1 = pp.1 /\ sb_last _ r.2 = pp_last pp.2 /\ sb_normal_selected _ r.2 = ns /\
     ((c = true -> se_ls_count e = ls_total f nproc) -> (exists j, (j < nproc)%nat /\ is_ls f j = true) ->
      exists i, r.1 = Some i /\ is_ls f i = true)) /\
  (B <= n ->
     r.1 = rr.1 /\ sb_last _ r.2 = rr_last rr.2 /\
     sb_normal_selected _ r.2 =
       match rr.1 with
       | Some i => if (0 <? se_ls_count e) && negb (p_priority (f i) =? 1) then u64 (ns + 1) else ns
       | None => ns
       end).
Proof.
  intros Hall Hfresh He Hc Ee n r pp rr. destruct (charges_window t w nows now Hall Hfresh He Hc) as [Hin Hch].
  fold n in Hin, Hch.
  assert (budget_available B W now (charges nows t) = (n <? B, observe W now (charges nows t))) as Hav.
  { unfold budget_available. rewrite (iw_charged _ _ _ Hin). f_equal. bdestruct_all; lia. }
  destruct (Z.ltb_spec n B) as [Hlt|Hge].
  - destruct (SB_pick_available _ _ _ c last ns f e Hav Ee) as (E1 & E2 & E3 & E4). fold r pp in E1, E2, E3, E4.
    rewrite E3. split; [split; [apply Hin|done]|]. split; [intros _|lia].
    split; [done|]. split; [done|]. split; [done|]. intros Hcnt (j & Hj & Hls). rewrite E1. by eapply PP_pick_ls.
  - destruct (SB_pick_exhausted _ _ _ c last ns f e Hav Ee) as (E1 & E2 & E3 & E4). fold r rr in E1, E2, E3, E4.
    rewrite E3. split; [split; [apply Hin|done]|]. split; [lia|done].
Qed.
End BudgetProofs.

(** Slot 3 latency-sensitive, slot 5 ordinary, both runnable; the first
    search after slot 4.  With two of three ticks charged slot 3 is picked,
    with all three slot 5. *)
Definition two_runnable (i : nat) : proc :=
  if decide (i = 3%nat) then with_priority 1 (with_state RUNNABLE zero_proc)
  else if decide (i = 5%nat) then with_priority 0 (with_state RUNNABLE zero_proc) else zero_proc.
Example budget_precedence_ends :
  (SB_pick_next 3 10 (mkSB true 4 (charges 3 10 [21; 22] (mkTracker 0 false 0 0 0)) 0) (mkEnv 1 25) two_runnable NPROC).1 = Some 3%nat /\
  (SB_pick_next 3 10 (mkSB true 4 (charges 3 10 [21; 22; 23] (mkTracker 0 false 0 0 0)) 0) (mkEnv 1 25) two_runnable NPROC).1 = Some 5%nat.
Proof. vm_compute. done. Qed.

Lemma budget_bounds_precedence_witness :
  let t := mkTracker 0 false 0 0 0 in
  let r := SB_pick_next 3 10 (UseCounter:=true) (mkSB true 4 (charges 3 10 [21; 22] t) 0) (mkEnv 1 25) two_runnable NPROC in
  let pp := PP_pick_next (UseCounter:=true) (mkPP 4) (mkEnv 1 25) two_runnable NPROC in
  let rr := RR_pick_next (mkRR 4) two_runnable NPROC in
  (charged_this_window (sb_budget _ r.2) = Z.min 2 3 /\
   charged_by t (sb_budget _ r.2) 2 (if 3 <=? 2 then 1 else 0)) /\
  (2 < 3 ->
     r.1 = pp.1 /\ sb_last _ r.2 = pp_last pp.2 /\ sb_normal_selected _ r.2 = 0 /\
     ((true = true -> 1 = ls_total two_runnable nproc) ->
      (exists j, (j < nproc)%nat /\ is_ls two_runnable j = true) ->
      exists i, r.1 = Some i /\ is_ls two_runnable i = true)) /\
  (3 <= 2 ->
     r.1 = rr.1 /\ sb_last _ r.2 = rr_last rr.2 /\
     sb_normal_selected _ r.2 =
       match rr.1 with
       | Some i => if (0 <? 1) && negb (p_priority (two_runnable i) =? 1) then u64 (0 + 1) else 0
       | None => 0
       end).
Proof.
  apply (budget_bounds_precedence 3 10 ltac:(lia) (mkTracker 0 false 0 0 0) 2 [21; 22] 25 true 4 0 two_runnable (mkEnv 1 25)).
  - repeat constructor.
  - left. reflexivity.
  - cbn. lia.
  - cbn. lia.
  - reflexivity.
Defined.
