(* ===== verification/SpanObserve.v ===== *)
(** * The span observer (kernel/span_observe.cpp) and the boot-time self tests

    The hooks of the scheduler, of sys_setpriority and of the clock interrupt
    that feed the accumulator of [SpanWindow], as they are with the switch of
    span_observe_config.h on, and the two self tests that run at boot
    (bench_span_window_selftest.cpp, bench_budget_window.cpp).  The clock
    (r_time) and the fields of the process are arguments. *)

From Stdlib Require Import ZArith Lia.
From stdpp Require Import gmap.
From S2P Require Import Prelude Params SpanWindow Sched.

Definition EP2_SPAN_TICKS_PER_WINDOW : Z := 10.
Definition EP2_SPAN_NOMINAL_RTIME_PER_TICK : Z := 1000000.
Definition EP2_SPAN_WINDOW_TIME_TICKS : Z := EP2_SPAN_TICKS_PER_WINDOW * EP2_SPAN_NOMINAL_RTIME_PER_TICK.

(** The open segments by slot and the calibration samples. *)
Record observer := mkObs {
  g_span_acc : span_acc;
  g_seg_start : nat -> Z; g_seg_priority : nat -> Z; g_seg_open : nat -> bool;
  g_calib_first : Z * Z; g_calib_latest : Z * Z; g_calib_have_first : bool }.
Definition with_acc (a : span_acc) (o : observer) : observer :=
  mkObs a (g_seg_start o) (g_seg_priority o) (g_seg_open o) (g_calib_first o) (g_calib_latest o) (g_calib_have_first o).
Definition with_seg (i : nat) (start priority : Z) (open : bool) (o : observer) : observer :=
  mkObs (g_span_acc o) (upd (g_seg_start o) i start) (upd (g_seg_priority o) i priority) (upd (g_seg_open o) i open)
    (g_calib_first o) (g_calib_latest o) (g_calib_have_first o).

(** [p]: the distance of the pointer from the process table. *)
Definition slot_of (p : Z) : option nat := if (p <? 0) || (NPROC <=? p) then None else Some (Z.to_nat p).

Definition span_observe_clockintr_tick (ticks r_time : Z) (o : observer) : observer :=
  mkObs (g_span_acc o) (g_seg_start o) (g_seg_priority o) (g_seg_open o)
    (if g_calib_have_first o then g_calib_first o else (ticks, r_time)) (ticks, r_time) true.
Definition span_observe_dispatch_enter (p priority r_time : Z) (o : observer) : observer :=
  match slot_of p with None => o | Some i => with_seg i r_time priority true o end.
(** The open segment of slot [i] up to [now]. *)
Definition close_segment (i : nat) (now : Z) (o : observer) : option observer :=
  if g_seg_start o i <? now then
    a ← add_segment (g_seg_start o i) (u64 (now - g_seg_start o i)) (g_seg_priority o i =? 1) EP2_SPAN_WINDOW_TIME_TICKS (g_span_acc o);
    Some (with_acc a o)
  else Some o.
Definition span_observe_dispatch_exit (p t_exit : Z) (o : observer) : option observer :=
  match slot_of p with
  | None => Some o
  | Some i => if negb (g_seg_open o i) then Some o else
      o ← close_segment i t_exit o; Some (with_seg i (g_seg_start o i) (g_seg_priority o i) false o)
  end.
Definition span_observe_priority_change (p priority old_priority r_time : Z) (o : observer) : option observer :=
  match slot_of p with
  | None => Some o
  | Some i => if negb (g_seg_open o i) then Some o else
      if priority =? old_priority then Some o else
      o ← close_segment i r_time o; Some (with_seg i r_time priority true o)
  end.

(** ** One dispatch

    The process in slot [p] runs from [t] to [te]; [calls] are its calls of
    setpriority, the time and the new value of each. *)
Fixpoint observe_calls (p pr : Z) (calls : list (Z * Z)) (o : observer) : option observer :=
  match calls with
  | [] => Some o
  | (t, pr') :: calls => o ← span_observe_priority_change p pr' pr t o; observe_calls p pr' calls o
  end.
Definition observe_dispatch (p pr t : Z) (calls : list (Z * Z)) (te : Z) (o : observer) : option observer :=
  o ← observe_calls p pr calls (span_observe_dispatch_enter p pr t o); span_observe_dispatch_exit p te o.

(** The time at priority 1 in window [j]. *)
Fixpoint ls_spent (w pr t : Z) (calls : list (Z * Z)) (te j : Z) : Z :=
  match calls with
  | [] => if pr =? 1 then overlap w t te j else 0
  | (t', pr') :: calls => (if pr =? 1 then overlap w t t' j else 0) + ls_spent w pr' t' calls te j
  end.
(** Times in order, the last call before the end. *)
Fixpoint in_order (t : Z) (calls : list (Z * Z)) (te : Z) : Prop :=
  match calls with [] => t <= te | (t', _) :: calls => t <= t' /\ in_order t' calls te end.
(** The windows the pieces touch, at most. *)
Fixpoint touches (w t : Z) (calls : list (Z * Z)) (te : Z) : nat :=
  match calls with [] => touched w t te | (t', _) :: calls => (touched w t t' + touches w t' calls te)%nat end.

Lemma overlap_add w a b c j : a <= b -> b <= c -> overlap w a b j + overlap w b c j = overlap w a c j.
Proof. intros. unfold overlap. lia. Qed.
Lemma in_order_end calls : forall t te, in_order t calls te -> t <= te.
Proof. induction calls as [|[t' pr'] calls IH]; intros t te H; [done|]. destruct H as [H1 H2]. apply IH in H2. lia. Qed.
Lemma touched_split w a b c : 0 < w -> a <= b -> b <= c -> (touched w a c <= touched w a b + touched w b c)%nat.
Proof.
  intros Hw Hab Hbc. unfold touched. destruct (Z.ltb_spec a c) as [Hac|]; [|lia].
  destruct (Z.ltb_spec a b), (Z.ltb_spec b c); try lia; try (assert (b = c) as -> by lia; lia); try (assert (a = b) as -> by lia; lia).
  assert (b / w <= (b - 1) / w + 1). { rewrite <- (Z.div_add (b - 1) 1 w) by lia. apply Z.div_le_mono; lia. }
  assert (b / w <= (c - 1) / w) by (apply Z.div_le_mono; lia). assert (a / w <= (b - 1) / w) by (apply Z.div_le_mono; lia). lia.
Qed.

(** What is known between two accumulators: every window was credited with
    [f] of it and [d] units were accounted. *)
Record credited (f : Z -> Z) (d : Z) (n : nat) (a a' : span_acc) : Prop := {
  cr_total : 0 <= total_accounted a' < 2 ^ 64 /\ total_accounted a' = u64 (total_accounted a + d);
  cr_over : overflow_count a' = overflow_count a;
  cr_time : forall j, 0 <= time (windows a') j < 2 ^ 64 /\ time (windows a') j = u64 (time (windows a) j + f j);
  cr_length : (length (windows a') <= length (windows a) + n)%nat }.
Lemma credited_none a : 0 <= total_accounted a < 2 ^ 64 -> (forall j, 0 <= time (windows a) j < 2 ^ 64) -> credited (fun _ => 0) 0 0 a a.
Proof. intros H1 H2. split; [|done| |lia]; [|intros j; specialize (H2 j)]; rewrite Z.add_0_r; by rewrite u64_small. Qed.
Lemma credited_trans f g d e n m a b c : credited f d n a b -> credited g e m b c -> credited (fun j => f j + g j) (d + e) (n + m) a c.
Proof.
  intros [A1 A2 A3 A4] [B1 B2 B3 B4]. split; [|congruence| |lia].
  - split; [apply B1|]. rewrite (proj2 B1), (proj2 A1). unfold u64. rewrite Zplus_mod_idemp_l. f_equal. lia.
  - intros j. destruct (A3 j) as [_ E1], (B3 j) as [R E2]. split; [done|]. rewrite E2, E1. unfold u64. rewrite Zplus_mod_idemp_l. f_equal. lia.
Qed.
Lemma segment_credited s e is_ls w a : 0 < w -> 0 <= s < e -> e + w < 2 ^ 64 -> (length (windows a) + touched w s e <= SPAN_MAX_WINDOWS)%nat ->
  0 <= total_accounted a < 2 ^ 64 -> (forall j, 0 <= time (windows a) j < 2 ^ 64) ->
  exists a', add_segment s (e - s) is_ls w a = Some a' /\ credited (fun j => if is_ls then overlap w s e j else 0) (e - s) (touched w s e) a a'.
Proof.
  intros Hw Hs He Hfit Ht Hr. destruct (add_segment_spec s (e - s) is_ls w a) as (a' & m & E & [A1 A2 A3 A4 A5 A6]); [lia..|]. replace (s + (e - s)) with e in * by lia.
  assert (m = 0%nat) as -> by (apply A6; lia). exists a'. split; [done|]. rewrite Z.max_r in A1 by lia. split; [split; [rewrite A1 by done; apply u64_range|by apply A1]|done| |lia].
  intros j. destruct is_ls.
  - rewrite A4 by done. destruct (Z.eqb_spec (overlap w s e j) 0) as [E0|]; [rewrite E0, Z.add_0_r, u64_small by done; by split|]. split; [apply u64_range|done].
  - rewrite A3, Z.add_0_r, u64_small by done. by split.
Qed.

(** ** The observer *)

Section Run.
Context (p : Z) (i : nat) (Hi : slot_of p = Some i).
Let w := EP2_SPAN_WINDOW_TIME_TICKS.

(** Slot [i] has been open at priority [pr] since [s]; the rest of the
    observer is that of [o]. *)
Record opened (o o' : observer) (s pr : Z) : Prop := {
  op_open : g_seg_open o' i = true; op_start : g_seg_start o' i = s; op_prio : g_seg_priority o' i = pr;
  op_other : forall k, k <> i -> g_seg_open o' k = g_seg_open o k /\ g_seg_start o' k = g_seg_start o k /\ g_seg_priority o' k = g_seg_priority o k }.

Lemma close_spec o s pr now : g_seg_start o i = s -> g_seg_priority o i = pr -> 0 <= s <= now -> now + w < 2 ^ 64 ->
  (length (windows (g_span_acc o)) + touched w s now <= SPAN_MAX_WINDOWS)%nat -> 0 <= total_accounted (g_span_acc o) < 2 ^ 64 -> (forall j, 0 <= time (windows (g_span_acc o)) j < 2 ^ 64) ->
  exists a, close_segment i now o = Some (with_acc a o) /\ credited (fun j => if pr =? 1 then overlap w s now j else 0) (now - s) (touched w s now) (g_span_acc o) a.
Proof.
  intros Es Ep Hs Hn Hfit Ht Hr. assert (0 < w) as Hw by done. unfold close_segment. fold w. rewrite Es, Ep. destruct (Z.ltb_spec s now) as [Hl|Hl].
  - rewrite u64_small by lia. destruct (segment_credited s now (pr =? 1) w (g_span_acc o)) as (a & -> & Hc); [done|lia|done|done|done|done|]. exists a. by split.
  - assert (now = s) as -> by lia. exists (g_span_acc o). split; [by destruct o|]. pose proof (credited_none _ Ht Hr) as [C1 C2 C3 C4]. rewrite Z.sub_diag. split; [done|done| |lia].
    intros j. assert (overlap w s s j = 0) as -> by (unfold overlap; lia). destruct (pr =? 1); apply C3.
Qed.

Lemma calls_spec o0 calls : forall o s pr t te, opened o0 o s pr -> 0 <= s <= t -> in_order t calls te -> te + w < 2 ^ 64 ->
  (length (windows (g_span_acc o)) + touched w s t + touches w t calls te <= SPAN_MAX_WINDOWS)%nat -> 0 <= total_accounted (g_span_acc o) < 2 ^ 64 -> (forall j, 0 <= time (windows (g_span_acc o)) j < 2 ^ 64) ->
  exists o', (o ← observe_calls p pr calls o; span_observe_dispatch_exit p te o) = Some o' /\ g_seg_open o' i = false /\
    (forall k, k <> i -> g_seg_open o' k = g_seg_open o0 k /\ g_seg_start o' k = g_seg_start o0 k /\ g_seg_priority o' k = g_seg_priority o0 k) /\
    exists n, credited (fun j => (if pr =? 1 then overlap w s t j else 0) + ls_spent w pr t calls te j) (te - s) n (g_span_acc o) (g_span_acc o').
Proof.
  assert (0 < w) as Hw by done. induction calls as [|[t' pr'] calls IH]; intros o s pr t te [O1 O2 O3 O4] Hs Ho He Hfit Ht Hr.
  - cbn [observe_calls mbind option_bind in_order] in *. unfold span_observe_dispatch_exit. rewrite Hi, O1. cbn [negb]. pose proof (touched_split w s t te Hw ltac:(lia) ltac:(lia)). cbn [touches] in Hfit.
    destruct (close_spec o s pr te) as (a & -> & Hc); [done|done|lia|done|lia|done|done|]. cbn [mbind option_bind]. eexists. split; [done|]. cbn. split; [by rewrite upd_eq|].
    split; [intros k Hk; by rewrite !upd_ne; [apply O4|..]|]. eexists. destruct Hc as [C1 C2 C3 C4]. split; [done|done| |done]. intros j. destruct (C3 j) as [R E]. split; [done|]. rewrite E. do 2 f_equal.
    destruct (pr =? 1); [|done]. symmetry. apply overlap_add; lia.
  - destruct Ho as [Ho1 Ho]. pose proof (in_order_end _ _ _ Ho) as Hte. cbn [observe_calls touches ls_spent] in *. unfold span_observe_priority_change. rewrite Hi, O1. cbn [negb]. pose proof (touched_split w s t t' Hw ltac:(lia) ltac:(lia)).
    destruct (Z.eqb_spec pr' pr) as [->|Hne].
    + cbn [mbind option_bind]. destruct (IH o s pr t' te) as (o' & E & G1 & G2 & n & [C1 C2 C3 C4]); [by split|lia|done|done|lia|done|done|]. exists o'. split; [exact E|]. split; [done|]. split; [done|]. exists n.
      split; [done|done| |done]. intros j. destruct (C3 j) as [R Ej]. split; [done|]. rewrite Ej. f_equal. destruct (pr =? 1); [|done]. rewrite <- (overlap_add w s t t' j) by lia. lia.
    + destruct (close_spec o s pr t') as (a & -> & Hc); [done|done|lia|lia|lia|done|done|]. cbn [mbind option_bind]. pose proof (cr_length _ _ _ _ _ Hc) as Hlen.
      destruct (IH (with_seg i t' pr' true (with_acc a o)) t' pr' t' te) as (o' & E & G1 & G2 & n & Hc2); [|lia|done|done| | | |].
      * split; cbn; rewrite ?upd_eq; try done. intros k Hk. rewrite !upd_ne by done. by apply O4.
      * cbn. assert (touched w t' t' = 0%nat) as -> by (unfold touched; by rewrite Z.ltb_irrefl). lia.
      * apply (cr_total _ _ _ _ _ Hc).
      * intros j. apply (cr_time _ _ _ _ _ Hc j).
      * exists o'. split; [exact E|]. split; [done|]. split; [done|]. eexists. pose proof (credited_trans _ _ _ _ _ _ _ _ _ Hc Hc2) as [C1 C2 C3 C4]. cbn in C1, C2, C3, C4.
        split; [|done| |exact C4]; [by replace (te - s) with (t' - s + (te - t')) by lia|]. intros j. destruct (C3 j) as [R Ej]. split; [done|]. rewrite Ej. do 2 f_equal.
        assert (overlap w t' t' j = 0) as -> by (unfold overlap; lia). destruct (pr =? 1); [rewrite <- (overlap_add w s t t' j) by lia|]; destruct (pr' =? 1); lia.
Qed.
End Run.

(** A dispatch is accounted exactly: from its start to its end, each window
    is credited with the time the process ran at priority 1 in it, however
    often the priority was set, to a new value or to the same one; other
    slots are untouched and the slot is closed. *)
Theorem dispatch_observed p pr t calls te o : 0 <= p < NPROC -> 0 <= t -> in_order t calls te -> te + EP2_SPAN_WINDOW_TIME_TICKS < 2 ^ 64 ->
  (length (windows (g_span_acc o)) + touches EP2_SPAN_WINDOW_TIME_TICKS t calls te <= SPAN_MAX_WINDOWS)%nat ->
  0 <= total_accounted (g_span_acc o) < 2 ^ 64 -> (forall j, 0 <= time (windows (g_span_acc o)) j < 2 ^ 64) ->
  exists o', observe_dispatch p pr t calls te o = Some o' /\ g_seg_open o' (Z.to_nat p) = false /\
    (forall k, k <> Z.to_nat p -> g_seg_open o' k = g_seg_open o k /\ g_seg_start o' k = g_seg_start o k /\ g_seg_priority o' k = g_seg_priority o k) /\
    overflow_count (g_span_acc o') = overflow_count (g_span_acc o) /\ total_accounted (g_span_acc o') = u64 (total_accounted (g_span_acc o) + (te - t)) /\
    forall j, time (windows (g_span_acc o')) j = u64 (time (windows (g_span_acc o)) j + ls_spent EP2_SPAN_WINDOW_TIME_TICKS pr t calls te j).
Proof.
  intros Hp Ht0 Ho He Hfit Ht Hr. set (w := EP2_SPAN_WINDOW_TIME_TICKS) in *. assert (slot_of p = Some (Z.to_nat p)) as Hi by (unfold slot_of; by rewrite (proj2 (Z.ltb_ge p 0)), (proj2 (Z.leb_gt NPROC p)) by lia).
  unfold observe_dispatch, span_observe_dispatch_enter. rewrite Hi. assert (touched w t t = 0%nat) as Etr by (unfold touched; by rewrite Z.ltb_irrefl).
  destruct (calls_spec p (Z.to_nat p) Hi o calls (with_seg (Z.to_nat p) t pr true o) t pr t te) as (o' & E & G1 & G2 & n & [C1 C2 C3 C4]); [|lia|done|done|cbn; fold w; rewrite Etr; lia|done|done|].
  - split; cbn; rewrite ?upd_eq; try done. intros k Hk. by rewrite !upd_ne.
  - exists o'. split; [exact E|]. split; [done|]. split; [done|]. split; [done|]. split; [apply C1|]. intros j. rewrite (proj2 (C3 j)). cbn. fold w. do 2 f_equal.
    assert (overlap w t t j = 0) as -> by (unfold overlap; lia). by destruct (pr =? 1).
Qed.

(** ** run_span_window_selftest *)

(** window_ls_time of the last table entry for window [j]. *)
Definition time_of (a : span_acc) (j : Z) : Z :=
  foldl (fun x i => if window_index a i =? j then window_ls_time a i else x) 0 (seq 0 (length (windows a))).
Definition present (a : span_acc) (j : Z) : bool := existsb (fun i => window_index a i =? j) (seq 0 (length (windows a))).
Definition window_count (a : span_acc) : Z := Z.of_nat (length (windows a)).

(** Each case: what was got and what was wanted. *)
Definition span_cases : list (option (list (Z * Z))) := [
  (a ← add_span 1000 1030 true false 0 false 100 span_init;
   Some [(total_accounted a, 30); (window_count a, 1); (window_index a 0, 10); (window_ls_time a 0, 30)]);
  (a ← add_span 1080 1120 true false 0 false 100 span_init;
   Some [(total_accounted a, 40); (window_count a, 2); (time_of a 10, 20); (time_of a 11, 20)]);
  (a ← add_span 1050 1250 true false 0 false 100 span_init;
   Some [(total_accounted a, 200); (window_count a, 3); (time_of a 10, 50); (time_of a 11, 100); (time_of a 12, 50)]);
  (a ← add_span 1000 1100 true true 1050 false 100 span_init;
   Some [(total_accounted a, 100); (window_count a, 1); (window_ls_time a 0, 50)]);
  (a ← add_span 1050 1150 true true 1090 false 100 span_init;
   Some ([(total_accounted a, 100); (time_of a 10, 40)] ++ if present a 11 then [(time_of a 11, 0)] else []))].
(** check_u64 counts the differences. *)
Definition check_u64 (l : list (Z * Z)) : nat := length (filter (fun x => x.1 <> x.2) l).
Definition run_span_window_selftest : option nat :=
  foldr (fun c n => l ← c; k ← n; Some (check_u64 l + k)%nat) (Some 0%nat) span_cases.
Example span_selftest_passes : run_span_window_selftest = Some 0%nat.
Proof. by vm_compute. Qed.

(** ** run_budget_window_selftest

    The calls of a case on a BudgetWindowTracker of 3 ticks in windows of 10,
    with what each check wants. *)
Inductive budget_call := Avail (now : Z) (want : bool) | Charge (now : Z) | WantCharged (n : Z) | WantExhaustions (n : Z).
Fixpoint budget_case (t : tracker) (l : list budget_call) : nat :=
  match l with
  | [] => O
  | Avail now want :: l => let '(got, t) := budget_available 3 10 now t in Nat.add (if bool_decide (got = want) then O else 1%nat) (budget_case t l)
  | Charge now :: l => budget_case (charge 3 10 now t) l
  | WantCharged n :: l => Nat.add (if ls_charged_ticks_total t =? n then O else 1%nat) (budget_case t l)
  | WantExhaustions n :: l => Nat.add (if budget_exhaustions_total t =? n then O else 1%nat) (budget_case t l)
  end.
Definition near_max : Z := 0xFFFFFFF8.
Definition budget_cases : list (list budget_call) := [
  [Avail 0 true; Charge 0; Avail 1 true; Charge 1; Avail 2 true; Charge 2; Avail 3 false; Charge 3; WantCharged 4; WantExhaustions 1];
  [Charge 0; Charge 1; Charge 2; Avail 9 false; Avail 10 true; Charge 10; Avail 11 true; Avail 55 true; WantExhaustions 1];
  [Avail near_max true; Charge near_max; Charge near_max; Charge near_max; Avail near_max false; Avail 2 true; WantExhaustions 1]].
Definition run_budget_window_selftest : nat := foldr (fun c n => (budget_case (mkTracker 0 false 0 0 0) c + n)%nat) 0%nat budget_cases.
Example budget_selftest_passes : run_budget_window_selftest = 0%nat.
Proof. by vm_compute. Qed.
