(* ===== verification/ProcInv.v ===== *)
(** * Invariants of the process table

    What the operations of proc.c and the dispatcher keep true, and the state
    machine of a process: the counter of runnable latency-sensitive processes
    is exact, and states change only along the documented transitions. *)

From Stdlib Require Import ZArith Lia.
From S2P Require Import Prelude Params ProcTable Sched.

(** ** Lock steps *)

Lemma wp_lock l Q s : view l s = false ->
  Q tt (let s' := put l true s in set_noff (noff_ s' + 1) s') -> wp (lock l) Q s.
Proof. intros Hl HQ. unfold lock. wp_step. apply wp_acquire; [done|]. by wp_step. Qed.
Lemma wp_unlock l Q s : view l s = true ->
  Q tt (let s' := put l false s in set_noff (noff_ s' - 1) s') -> wp (unlock l) Q s.
Proof. intros Hl HQ. unfold unlock. wp_step. apply wp_release; [done|]. by wp_step. Qed.

(** ** Counting *)

Definition b2z (b : bool) : Z := if b then 1 else 0.

Lemma ls_total_step f n : ls_total f (S n) = ls_total f n + b2z (is_ls f n).
Proof.
  unfold ls_total. rewrite seq_S, List.filter_app, length_app. cbn [List.filter Nat.add].
  destruct (is_ls f n); cbn; lia.
Qed.
Lemma ls_total_range f n : 0 <= ls_total f n <= Z.of_nat n.
Proof. induction n as [|n IH]; [done|]. rewrite ls_total_step. destruct (is_ls f n); cbn; lia. Qed.
Lemma ls_total_ext f g n : (forall i, (i < n)%nat -> is_ls g i = is_ls f i) -> ls_total g n = ls_total f n.
Proof.
  induction n as [|n IH]; intros E; [done|]. rewrite !ls_total_step, (E n) by lia. rewrite IH; [done|].
  intros i Hi. apply E. lia.
Qed.
Lemma ls_total_change f g n i : (i < n)%nat -> (forall j, j <> i -> is_ls g j = is_ls f j) ->
  ls_total g n = ls_total f n - b2z (is_ls f i) + b2z (is_ls g i).
Proof.
  intros Hi E. induction n as [|n IH]; [lia|]. rewrite !ls_total_step. destruct (decide (i = n)) as [->|].
  - rewrite (ls_total_ext f g) by (intros; apply E; lia). lia.
  - rewrite IH, (E n) by lia. lia.
Qed.

(** ** The table between critical sections *)

Record tinv (s : ptable) : Prop := {
  tv_locks : forall i, p_lock (procs s i) = false;
  tv_seq : seq_lock s = false;
  tv_pid : pid_lock s = false;
  tv_ls : ls_count s = ls_total (procs s) nproc;
}.

(** The same with the lock of process [i] held. *)
Record tinv_at (i : nat) (s : ptable) : Prop := {
  ta_mine : p_lock (procs s i) = true;
  ta_locks : forall j, j <> i -> p_lock (procs s j) = false;
  ta_seq : seq_lock s = false;
  ta_pid : pid_lock s = false;
  ta_ls : ls_count s = ls_total (procs s) nproc;
}.

(** What an operation on slot [i] leaves alone. *)
Record frame (s s' : ptable) : Prop := {
  fr_noff : noff_ s' = noff_ s;
  fr_wait : wait_lock s' = wait_lock s;
  fr_tick : tickslock s' = tickslock s;
  fr_run : running s' = running s;
  fr_ticks : ticks s' = ticks s;
  fr_init : initproc s' = initproc s;
  fr_pid : nextpid s' = nextpid s;
}.

Lemma is_ls_lock f i b j : is_ls (upd f i (with_lock b (f i))) j = is_ls f j.
Proof. unfold is_ls, is_runnable, upd. case_decide; by subst. Qed.

Lemma lock_slot i s (Q : unit -> ptable -> Prop) : tinv s ->
  (forall s', tinv_at i s' -> s' = set_noff (noff_ s + 1) (on_proc i (with_lock true) s) -> Q tt s') ->
  wp (lock (p_lockL i)) Q s.
Proof.
  intros [H1 H2 H3 H4] HQ. apply wp_lock; [apply H1|]. apply HQ; [|done]. split; cbn; try done.
  - by rewrite upd_eq.
  - intros j Hj. by rewrite upd_ne.
  - rewrite H4. symmetry. apply ls_total_ext. intros j _. apply is_ls_lock.
Qed.

Lemma unlock_slot i s (Q : unit -> ptable -> Prop) : tinv_at i s ->
  (forall s', tinv s' -> s' = set_noff (noff_ s - 1) (on_proc i (with_lock false) s) -> Q tt s') ->
  wp (unlock (p_lockL i)) Q s.
Proof.
  intros [H1 H2 H3 H4 H5] HQ. apply wp_unlock; [apply H1|]. apply HQ; [|done]. split; cbn; try done.
  - intros j. destruct (decide (j = i)) as [->|]; [by rewrite upd_eq|]. rewrite upd_ne by done. auto.
  - rewrite H5. symmetry. apply ls_total_ext. intros j _. apply is_ls_lock.
Qed.

(** A change of the locked slot that does not make it enter or leave the
    runnable latency-sensitive processes. *)
Lemma set_slot i s f (Q : unit -> ptable -> Prop) : tinv_at i s ->
  p_lock (f (procs s i)) = true ->
  is_ls (upd (procs s) i (f (procs s i))) i = is_ls (procs s) i ->
  (tinv_at i (on_proc i f s) -> Q tt (on_proc i f s)) -> wp (set_proc i f) Q s.
Proof.
  intros [H1 H2 H3 H4 H5] Hl Hls HQ. unfold set_proc. wp_step. apply HQ. split; cbn; try done.
  - by rewrite upd_eq.
  - intros j Hj. rewrite upd_ne by done. auto.
  - rewrite H5. symmetry. apply ls_total_ext. intros j _. destruct (decide (j = i)) as [->|Hj]; [done|].
    unfold is_ls, is_runnable. by rewrite upd_ne.
Qed.

(** mark_runnable keeps the counter exact. *)
Definition runnable_proc (seq t : Z) (p : proc) : proc :=
  with_state RUNNABLE (with_ready_tick t (with_arrival_seq seq p)).

Lemma mark_runnable_eq i s : seq_lock s = false ->
  mark_runnable i s = Ret tt
    (let s1 := set_next_seq (u64 (next_seq s + 1)) (on_proc i (runnable_proc (next_seq s) (ticks s)) s) in
     set_seq_lock false (set_noff (noff_ s + 1 - 1)
       (if p_priority (procs s i) =? 1 then set_ls_count (i32 (ls_count s + 1)) s1 else s1))).
Proof.
  intros Hs. unfold mark_runnable, lock, unlock, acquire, release, bind, gets, modify, get_proc, set_proc, ret, when.
  cbn. rewrite Hs. cbn. rewrite upd_eq. cbn. unfold set_procs, on_proc. cbn.
  destruct (p_priority (procs s i) =? 1); cbn; rewrite !upd_upd, !upd_eq; unfold modify; cbn; by rewrite upd_upd, upd_eq.
Qed.

Lemma mark_runnable_spec i s (Q : unit -> ptable -> Prop) : (i < nproc)%nat -> tinv_at i s ->
  p_state (procs s i) <> RUNNABLE ->
  (forall s', tinv_at i s' -> frame s s' ->
     procs s' = upd (procs s) i (runnable_proc (next_seq s) (ticks s) (procs s i)) -> Q tt s') ->
  wp (mark_runnable i) Q s.
Proof.
  intros Hi [H1 H2 H3 H4 H5] Hst HQ. unfold wp. rewrite mark_runnable_eq by done. cbv zeta.
  set (f := upd (procs s) i (runnable_proc (next_seq s) (ticks s) (procs s i))).
  assert (ls_total f nproc = ls_total (procs s) nproc + b2z (p_priority (procs s i) =? 1)) as E.
  { rewrite (ls_total_change (procs s) f nproc i Hi) by (intros j Hj; unfold is_ls, is_runnable, f; by rewrite upd_ne).
    replace (is_ls (procs s) i) with false by (unfold is_ls, is_runnable; by rewrite bool_decide_false).
    replace (is_ls f i) with (p_priority (procs s i) =? 1); [unfold b2z; lia|].
    unfold is_ls, is_runnable, f. by rewrite upd_eq. }
  pose proof (ls_total_range (procs s) nproc) as Hr. change (Z.of_nat nproc) with 64 in Hr.
  destruct (Z.eqb_spec (p_priority (procs s i)) 1); cbn [b2z] in E; apply HQ; try done;
    split; cbn; fold f; try done; try lia; try (unfold f; by rewrite upd_eq);
    try (intros j Hj; unfold f; rewrite upd_ne by done; auto).
  all: rewrite E, ?i32_small; lia.
Qed.

Lemma frame_refl s : frame s s.
Proof. by split. Qed.
Lemma frame_trans s1 s2 s3 : frame s1 s2 -> frame s2 s3 -> frame s1 s3.
Proof. intros [] []. split; congruence. Qed.

Lemma with_lock_id p : p_lock p = false -> with_lock false (with_lock true p) = p.
Proof. destruct p. cbn. by intros ->. Qed.

(** ** wakeup *)

Section Wakeup.
Context (me : nat) (c : chan).

Definition sleeps_on (p : proc) : bool := bool_decide (p_state p = SLEEPING) && bool_decide (p_chan p = c).
(** Process [i] before and after a wakeup that covers the slots below [k]. *)
Definition woken_upto (k : nat) (s s' : ptable) (i : nat) : Prop :=
  if bool_decide (i < k)%nat && negb (bool_decide (i = me)) && sleeps_on (procs s i)
  then exists seq, procs s' i = runnable_proc seq (ticks s) (procs s i)
  else procs s' i = procs s i.

Lemma wakeup_one_spec j s : (j < nproc)%nat -> tinv s ->
  wp (wakeup_one me c (Z.of_nat j)) (fun _ s' => tinv s' /\ frame s s' /\
    (forall i, i <> j -> procs s' i = procs s i) /\
    (if negb (bool_decide (j = me)) && sleeps_on (procs s j)
     then exists seq, procs s' j = runnable_proc seq (ticks s) (procs s j)
     else procs s' j = procs s j)) s.
Proof.
  intros Hj Hs. unfold wakeup_one. rewrite Nat2Z.id. apply wp_when.
  2: { intros E. rewrite E. split; [done|]. split; [apply frame_refl|done]. }
  intros E. rewrite E. cbn [andb]. pose proof (tv_locks _ Hs j) as Hlk.
  wp_step. apply lock_slot; [done|]. intros s1 H1 E1. wp_step. unfold get_proc. wp_step.
  assert (procs s1 = upd (procs s) j (with_lock true (procs s j))) as P1 by (by rewrite E1).
  assert (procs s1 j = with_lock true (procs s j)) as Pj by (rewrite P1; apply upd_eq).
  wp_step. apply wp_when.
  - intros Es. rewrite Pj in Es. change (sleeps_on (procs s j) = true) in Es. rewrite Es.
    apply mark_runnable_spec; [done|done| |].
    { rewrite Pj. unfold sleeps_on in Es. apply andb_true_iff in Es as [Es _].
      apply bool_decide_eq_true in Es. cbn. by rewrite Es. }
    intros s2 H2 F2 P2. apply unlock_slot; [done|]. intros s3 H3 E3. split; [done|].
    assert (procs s3 = upd (procs s) j (runnable_proc (next_seq s1) (ticks s1) (procs s j))) as P3.
    { rewrite E3. cbn. rewrite P2, P1, !upd_upd, !upd_eq. f_equal.
      destruct (procs s j); cbn in *. by subst. }
    split; [|split].
    + rewrite E3. destruct F2. rewrite E1 in *. cbn in *. split; cbn; congruence || lia.
    + intros i Hi. by rewrite P3, upd_ne.
    + exists (next_seq s1). rewrite P3, upd_eq. by rewrite E1.
  - intros Es. rewrite Pj in Es. change (sleeps_on (procs s j) = false) in Es. rewrite Es.
    apply unlock_slot; [done|]. intros s3 H3 E3. split; [done|].
    assert (procs s3 = procs s) as P3.
    { rewrite E3. cbn. rewrite P1, upd_upd, upd_eq, with_lock_id by done. apply upd_id. }
    split; [|by rewrite P3]. rewrite E3, E1. split; cbn; try done. lia.
Qed.

Lemma pwakeup_spec s : tinv s ->
  wp (pwakeup me c) (fun _ s' => tinv s' /\ frame s s' /\ forall i, woken_upto nproc s s' i) s.
Proof.
  intros Hs. unfold pwakeup. eapply wp_mono.
  { eapply (wp_for_range (fun j s' => tinv s' /\ frame s s' /\ forall i, woken_upto (Z.to_nat j) s s' i)).
    - split; [done|]. split; [apply frame_refl|]. intros i. unfold woken_upto.
      by rewrite bool_decide_false by lia.
    - intros j s1 Hj (H1 & F1 & P1). rewrite <- (Z2Nat.id j) at 1 by lia.
      eapply wp_mono; [apply wakeup_one_spec; [lia|done]|].
      intros [] s2 (H2 & F2 & O2 & J2). split; [done|]. split; [by eapply frame_trans|].
      intros i. unfold woken_upto in *. replace (Z.to_nat (j + 1)) with (S (Z.to_nat j)) by lia.
      pose proof (fr_ticks _ _ F1) as Et. destruct (decide (i = Z.to_nat j)) as [->|Hne].
      + specialize (P1 (Z.to_nat j)). rewrite bool_decide_false in P1 by lia. cbn [andb] in P1.
        rewrite P1, Et in J2. by rewrite bool_decide_true by lia.
      + specialize (P1 i). rewrite O2 by done. replace (bool_decide (i < S (Z.to_nat j))%nat)
          with (bool_decide (i < Z.to_nat j)%nat) by (apply bool_decide_ext; lia). done. }
  intros [] s' H. by replace (Z.to_nat (0 + Z.of_nat nproc)) with nproc in H by lia.
Qed.
End Wakeup.

(** ** The events of the process table *)

(** The states a process goes through. *)
Definition may_become (a b : procstate) : Prop :=
  a = b \/
  match a, b with
  | UNUSED, USED | USED, RUNNABLE | USED, UNUSED | RUNNABLE, RUNNING
  | RUNNING, RUNNABLE | RUNNING, SLEEPING | RUNNING, ZOMBIE
  | SLEEPING, RUNNABLE | ZOMBIE, UNUSED => True
  | _, _ => False
  end.
Definition moves (s s' : ptable) : Prop :=
  forall i, may_become (p_state (procs s i)) (p_state (procs s' i)).

(** The table while this CPU is in no critical section: the locks are free,
    the counter is exact and the process of the CPU is the one RUNNING. *)
Record quiet (s : ptable) : Prop := {
  q_inv : tinv s;
  q_noff : noff_ s = 0;
  q_wait : wait_lock s = false;
  q_tick : tickslock s = false;
  q_run : forall i, p_state (procs s i) = RUNNING <-> running s = Some i;
  q_cur : forall i, running s = Some i -> (i < nproc)%nat;
}.

Section Events.
Context (me : nat).

Definition ev_wakeup (c : chan) : M ptable unit := pwakeup me c.
Definition ev_tick : M ptable unit := clock_tick me.
Definition ev_yield : M ptable unit := yield_enter me ;; sched_checks me ;; swtch_out me.
Definition ev_sleep (c : chan) (lk : lens ptable spinlock) : M ptable unit :=
  lock lk ;; sleep_enter me c lk ;; sched_checks me ;; swtch_out me.
Definition ev_exit (status : Z) : M ptable unit :=
  exit_finish me status ;; sched_checks me ;; swtch_out me.
Definition ev_kill (pid : Z) : M ptable unit := kkill pid ;; ret tt.
Definition ev_alloc : M ptable unit :=
  let* o := find_unused_proc nproc 0 in
  match o with
  | Some i => init_proc i ;; reset_proc i ;; unlock (p_lockL i)
  | None => ret tt
  end.
Definition ev_ready (i : nat) : M ptable unit := lock (p_lockL i) ;; mark_runnable i ;; unlock (p_lockL i).
Definition ev_free (i : nat) : M ptable unit := lock (p_lockL i) ;; set_proc i clear_proc ;; unlock (p_lockL i).
Definition ev_setpriority (level : Z) : M ptable unit := set_proc me (with_priority level).
Definition ev_dispatch {P} `{SchedulerPolicy P} (policy : P) : M ptable unit :=
  let* r := dispatch_round policy in
  match r.1 with Some i => unlock (p_lockL i) | None => ret tt end.
End Events.

Definition keeps (m : M ptable unit) (s : ptable) : Prop := wp m (fun _ s' => quiet s' /\ moves s s') s.

(** Processes only move from SLEEPING to RUNNABLE. *)
Definition woken (s s' : ptable) : Prop := forall i,
  p_state (procs s' i) = p_state (procs s i) \/
  (p_state (procs s i) = SLEEPING /\ p_state (procs s' i) = RUNNABLE).

Lemma woken_refl s s' : (forall i, p_state (procs s' i) = p_state (procs s i)) -> woken s s'.
Proof. intros E i. by left. Qed.
Lemma woken_trans s1 s2 s3 : woken s1 s2 -> woken s2 s3 -> woken s1 s3.
Proof. intros H1 H2 i. destruct (H1 i) as [E1|[E1 E1']], (H2 i) as [E2|[E2 E2']]; [left|right|right|right]; try split; congruence. Qed.
Lemma woken_moves s s' : woken s s' -> moves s s'.
Proof. intros H i. destruct (H i) as [E|[E1 E2]]; [by left|]. rewrite E1, E2. by right. Qed.
Lemma woken_running s s' i : woken s s' -> p_state (procs s' i) = RUNNING <-> p_state (procs s i) = RUNNING.
Proof. intros H. destruct (H i) as [E|[E1 E2]]; rewrite ?E, ?E1, ?E2; split; done || congruence. Qed.
Lemma woken_upto_woken me c s s' : (forall i, woken_upto me c nproc s s' i) -> woken s s'.
Proof.
  intros Hw i. specialize (Hw i). unfold woken_upto, sleeps_on in Hw.
  destruct (_ && _) eqn:E in Hw; [|left; by rewrite Hw]. destruct Hw as [seq ->].
  rewrite !andb_true_iff, !bool_decide_eq_true in E. destruct E as (_ & E & _). by right.
Qed.

Lemma moves_one s s' i : (forall j, j <> i -> p_state (procs s' j) = p_state (procs s j)) ->
  may_become (p_state (procs s i)) (p_state (procs s' i)) -> moves s s'.
Proof. intros Ho Hi j. destruct (decide (j = i)) as [->|Hj]; [done|]. left. by rewrite Ho. Qed.

Lemma quiet_frame s s' : quiet s -> tinv s' -> frame s s' -> woken s s' -> quiet s'.
Proof.
  intros [] H [] W. split; try congruence; try done.
  - intros i. rewrite (woken_running s s' i W), fr_run0. done.
  - intros i. rewrite fr_run0. auto.
Qed.

Lemma ev_wakeup_keeps me c s : quiet s -> keeps (ev_wakeup me c) s.
Proof.
  intros Hq. eapply wp_mono; [apply pwakeup_spec, Hq|]. intros [] s' (H1 & F & Hw).
  apply woken_upto_woken in Hw. split; [by eapply quiet_frame|by apply woken_moves].
Qed.

Lemma ev_tick_keeps me s : quiet s -> keeps (ev_tick me) s.
Proof.
  intros Hq. pose proof Hq as [Hi Hn Hw Ht Hr Hc]. unfold keeps, ev_tick, clock_tick. wp_step.
  apply wp_lock; [done|]. cbv zeta. wp_step. wp_step. wp_step. set (s1 := set_ticks _ _).
  assert (tinv s1) as H1 by (destruct Hi; by split).
  eapply wp_mono; [apply (pwakeup_spec me ChTicks s1 H1)|]. intros [] s2 (H2 & F2 & W2).
  pose proof F2 as [F2a F2b F2c F2d F2e F2f F2g]. apply wp_unlock; [cbn; rewrite F2c; done|]. cbv zeta.
  apply woken_upto_woken in W2. split; [|by apply woken_moves].
  split; cbn; [destruct H2; by split|rewrite F2a; cbn; lia|rewrite F2b; done|done| |].
  - intros i. rewrite (woken_running s1 s2 i W2), F2d. apply Hr.
  - intros i. rewrite F2d. apply Hc.
Qed.

(** Handing the children over keeps the table consistent and at most wakes
    processes. *)
Lemma wakeup_opt_spec me (q : option nat) s : tinv s ->
  wp (match q with Some q => pwakeup me (ChProc q) | None => ret tt end)
     (fun _ s' => tinv s' /\ frame s s' /\ woken s s') s.
Proof.
  intros Hs. destruct q as [q|].
  - eapply wp_mono; [by apply pwakeup_spec|]. intros [] s' (H1 & H2 & H3). by apply woken_upto_woken in H3.
  - wp_step. split; [done|]. split; [apply frame_refl|by apply woken_refl].
Qed.

Lemma reparent_spec me s : tinv s ->
  wp (reparent me) (fun _ s' => tinv s' /\ frame s s' /\ woken s s') s.
Proof.
  intros Hs. unfold reparent. eapply wp_mono.
  { eapply (wp_for_range (fun _ s' => tinv s' /\ frame s s' /\ woken s s')).
    - split; [done|]. split; [apply frame_refl|by apply woken_refl].
    - intros j s1 Hj (H1 & F1 & W1). unfold reparent_one. wp_step. wp_step. apply wp_when; [|done]. intros _.
      wp_step. unfold set_proc. wp_step. unfold id. set (s2 := on_proc _ _ s1).
      assert (forall f, procs s2 = upd (procs s1) (Z.to_nat j) f ->
        p_state f = p_state (procs s1 (Z.to_nat j)) -> p_lock f = p_lock (procs s1 (Z.to_nat j)) ->
        p_priority f = p_priority (procs s1 (Z.to_nat j)) -> tinv s2 /\ woken s1 s2) as Hset.
      { intros f Ef Es El Ep. destruct H1 as [L1 L2 L3 L4]. split; [split; try done|].
        - intros i. rewrite Ef. unfold upd. case_decide; [by rewrite El|done].
        - change (ls_count s2) with (ls_count s1). rewrite L4. symmetry. apply ls_total_ext. intros i _.
          rewrite Ef. unfold is_ls, is_runnable, upd. case_decide; [subst; by rewrite Es, Ep|done].
        - apply woken_refl. intros i. rewrite Ef. unfold upd. case_decide; [by subst|done]. }
      destruct (Hset _ eq_refl eq_refl eq_refl eq_refl) as [H2 W2].
      eapply wp_mono; [by apply (wakeup_opt_spec me (initproc s1))|]. intros [] s3 (H3 & F3 & W3).
      split; [done|]. split; [eapply frame_trans; [done|]; eapply frame_trans; [|done]; by split|].
      eapply woken_trans; [done|]. by eapply woken_trans. }
  done.
Qed.

(** The end of yield, sleep and exit: the switch to the scheduler. *)
Section Leave.
Context (me : nat) (s0 : ptable) (Hq : quiet s0) (Hme : running s0 = Some me).

Definition left_running (s : ptable) : Prop :=
  (p_state (procs s me) <> RUNNING /\ may_become RUNNING (p_state (procs s me))) /\
  forall j, j <> me -> p_state (procs s j) = p_state (procs s0 j) \/
     (p_state (procs s0 j) = SLEEPING /\ p_state (procs s j) = RUNNABLE).

Lemma leave s : tinv_at me s -> noff_ s = 1 -> wait_lock s = false -> tickslock s = false -> left_running s ->
  wp (sched_checks me ;; swtch_out me) (fun _ s' => quiet s' /\ moves s0 s') s.
Proof.
  intros Hat Hn Hw Ht [[Hst Hb] Ho]. wp_step. unfold sched_checks. wp_step. wp_step. unfold id.
  rewrite (ta_mine _ _ Hat), Hn, decide_False by done. change (negb true) with false. change (negb (1 =? 1)) with false. cbv iota. wp_step. unfold swtch_out. wp_step. wp_step.
  apply unlock_slot. { destruct Hat. by split. }
  intros s' Hs' E'. assert (forall j, p_state (procs s' j) = p_state (procs s j)) as Es.
  { intros j. rewrite E'. cbn. unfold upd. case_decide; by subst. }
  assert (p_state (procs s0 me) = RUNNING) as Hr by (by apply (q_run _ Hq)).
  split; [split; try done; rewrite E'; cbn; try done; try lia|].
  - intros i. split; [|done]. intros E. exfalso.
    assert (p_state (procs s i) = RUNNING) as E2.
    { rewrite <- E. cbn. unfold upd. case_decide; by subst. }
    destruct (decide (i = me)) as [->|Hi]; [done|]. destruct (Ho i Hi) as [E3|[_ E3]]; [|congruence].
    rewrite E2 in E3. symmetry in E3. apply (q_run _ Hq) in E3. congruence.
  - intros i. rewrite Es. destruct (decide (i = me)) as [->|Hi]; [by rewrite Hr|].
    destruct (Ho i Hi) as [->|[-> ->]]; [by left|by right].
Qed.

Lemma ev_yield_keeps : keeps (ev_yield me) s0.
Proof.
  pose proof Hq as [Hi Hn Hw Ht Hr Hc]. pose proof (Hc _ Hme) as Hlt. pose proof (proj2 (Hr me) Hme) as Hst.
  unfold keeps, ev_yield, yield_enter. wp_step. wp_step. apply lock_slot; [done|]. intros s1 H1 E1.
  apply mark_runnable_spec; [done|done| |].
  { rewrite E1. cbn. rewrite upd_eq. cbn. by rewrite Hst. }
  intros s2 H2 [] P2. apply leave; try done; try (rewrite E1 in *; cbn in *; lia || congruence).
  split.
  - rewrite P2, upd_eq. cbn. by split; [|right].
  - intros j Hj. left. rewrite P2, upd_ne, E1 by done. cbn. by rewrite upd_ne.
Qed.

Lemma ev_sleep_keeps c lk : lk = wait_lockL \/ lk = tickslockL -> keeps (ev_sleep me c lk) s0.
Proof.
  pose proof Hq as [Hi Hn Hw Ht Hr Hc]. pose proof (Hc _ Hme) as Hlt. pose proof (proj2 (Hr me) Hme) as Hst.
  intros Hlk. unfold keeps, ev_sleep. wp_step. apply wp_lock; [by destruct Hlk as [-> | ->]|]. cbv zeta.
  set (s1 := set_noff _ _). assert (tinv s1) as H1 by (destruct Hlk as [-> | ->]; destruct Hi; by split).
  assert (procs s1 = procs s0) as P1 by (by destruct Hlk as [-> | ->]).
  assert (noff_ s1 = 1) as N1 by (destruct Hlk as [-> | ->]; cbn; lia).
  unfold sleep_enter. wp_step. wp_step. apply lock_slot; [done|]. intros s2 H2 E2. wp_step.
  apply wp_unlock; [by destruct Hlk as [-> | ->]; rewrite E2|]. cbv zeta. set (s3 := set_noff _ _).
  assert (procs s3 = procs s2) as P3 by (by destruct Hlk as [-> | ->]).
  assert (tinv_at me s3) as H3 by (destruct Hlk as [-> | ->]; destruct H2; by split).
  assert (p_state (procs s2 me) = RUNNING) as R2 by (rewrite E2; destruct Hlk as [-> | ->]; cbn; by rewrite upd_eq).
  wp_step. apply set_slot; [done|cbn; apply H3| |]. { unfold is_ls, is_runnable. rewrite upd_eq. done. }
  intros H4. apply set_slot; [done|cbn; apply H4| |].
  { unfold is_ls, is_runnable. rewrite upd_eq. destruct Hlk as [-> | ->]; cbn; rewrite upd_eq; cbn; by rewrite R2. }
  intros H5. apply leave; try done.
  1-3: destruct Hlk as [-> | ->]; cbn; rewrite ?E2; cbn; first [done | lia].
  split; cbn.
  - rewrite !upd_eq. cbn. by split; [|right].
  - intros j Hj. left. destruct Hlk as [-> | ->]; cbn; rewrite !upd_ne, E2 by done; cbn; by rewrite upd_ne.
Qed.

Lemma ev_exit_keeps status : keeps (ev_exit me status) s0.
Proof.
  pose proof Hq as [Hi Hn Hw Ht Hr Hc]. pose proof (Hc _ Hme) as Hlt. pose proof (proj2 (Hr me) Hme) as Hst.
  unfold keeps, ev_exit, exit_finish. wp_step. wp_step. apply wp_lock; [done|]. cbv zeta.
  set (s1 := set_noff _ _). assert (tinv s1) as H1 by (destruct Hi; by split). wp_step.
  eapply wp_mono; [by apply reparent_spec|]. intros [] s2 (H2 & F2 & W2). wp_step. unfold get_proc. wp_step. wp_step.
  eapply wp_mono; [by apply wakeup_opt_spec|]. intros [] s3 (H3 & F3 & W3). pose proof (frame_trans _ _ _ F2 F3) as F.
  pose proof (woken_trans _ _ _ W2 W3) as W. clear F2 F3 W2 W3. wp_step. apply lock_slot; [done|]. intros s4 H4 E4.
  assert (p_state (procs s4 me) = RUNNING) as R4.
  { rewrite E4. cbn. rewrite upd_eq. cbn. by apply (woken_running s1 s3 me W). }
  wp_step. apply set_slot; [done|cbn; apply H4| |]. { unfold is_ls, is_runnable. by rewrite upd_eq. }
  intros H5. wp_step. apply set_slot; [done|cbn; apply H5| |].
  { unfold is_ls, is_runnable. rewrite upd_eq. cbn. rewrite upd_eq. cbn. by rewrite R4. }
  intros H6. destruct F as [Fn Fw Ft Fr _ _ _]. cbn in Fn, Fw, Ft, Fr.
  apply wp_unlock; [cbn; rewrite E4; cbn; congruence|]. cbv zeta.
  apply leave; cbn; try (rewrite E4; cbn; lia || congruence); try done.
  { destruct H6. by split. }
  split; cbn.
  - rewrite !upd_eq. cbn. by split; [|right].
  - intros j Hj. rewrite !upd_ne, E4 by done. cbn. rewrite upd_ne by done. apply (W j).
Qed.
End Leave.

(** Taking and dropping the lock of a slot changes nothing. *)
Lemma relock_id i s s1 : tinv s -> s1 = set_noff (noff_ s + 1) (on_proc i (with_lock true) s) ->
  set_noff (noff_ s1 - 1) (on_proc i (with_lock false) s1) = s.
Proof.
  intros Hs ->. unfold on_proc, set_procs, set_noff. cbn.
  rewrite upd_upd, upd_eq, with_lock_id, upd_id, Z.add_simpl_r by apply Hs. by destruct s.
Qed.

(** The slot kill acts on, and what it does to it. *)
Definition has_pid (f : nat -> proc) (pid : Z) (i : nat) : bool := p_pid (f i) =? pid.
Definition killed_proc (seq t : Z) (p : proc) : proc :=
  let p := with_killed true p in
  if decide (p_state p = SLEEPING) then runnable_proc seq t p else p.

Lemma kkill_scan_spec pid n : forall i s, tinv s -> (i + n <= nproc)%nat ->
  wp (kkill_scan n i pid) (fun v s' =>
    match List.find (has_pid (procs s) pid) (seq i n) with
    | None => v = -1 /\ s' = s
    | Some k => v = 0 /\ tinv s' /\ frame s s' /\
        procs s' = upd (procs s) k (killed_proc (next_seq s) (ticks s) (procs s k))
    end) s.
Proof.
  induction n as [|n IH]; intros i s Hs Hn; cbn [kkill_scan seq List.find]; [by wp_step|].
  pose proof (tv_locks _ Hs i) as Hlk. wp_step. apply lock_slot; [done|]. intros s1 H1 E1.
  assert (procs s1 i = with_lock true (procs s i)) as Pi by (rewrite E1; cbn; apply upd_eq).
  wp_step. unfold get_proc. wp_step. rewrite Pi. unfold has_pid at 1. cbn [p_pid with_lock]. destruct (_ =? pid).
  - wp_step. apply set_slot; [done|cbn; apply H1| |]. { unfold is_ls, is_runnable. by rewrite upd_eq. }
    intros H2. unfold killed_proc. cbn [p_state with_killed].
    wp_step. apply wp_when; intros Es; [apply bool_decide_eq_true in Es|apply bool_decide_eq_false in Es]; cbn in Es.
    + rewrite decide_True by done. apply mark_runnable_spec; [lia|done| |].
      { cbn. rewrite upd_eq. cbn. rewrite Pi. cbn. by rewrite Es. }
      intros s3 H3 F3 P3. wp_step. apply unlock_slot; [done|]. intros s4 H4 E4. wp_step.
      split; [done|]. split; [done|]. rewrite E4.
      split; [destruct F3; rewrite E1 in *; cbn in *; split; cbn; lia || congruence|].
      cbn. rewrite P3, E1. cbn. rewrite !upd_upd, !upd_eq. f_equal.
      destruct (procs s i). cbn in *. by rewrite Hlk.
    + rewrite decide_False by done. wp_step. apply unlock_slot; [done|]. intros s4 H4 E4. wp_step.
      split; [done|]. split; [done|]. rewrite E4, E1. split; [split; cbn; done || lia|].
      cbn. rewrite !upd_upd, !upd_eq. f_equal. destruct (procs s i). cbn in *. by rewrite Hlk.
  - wp_step. apply unlock_slot; [done|]. intros s2 H2 E2. rewrite (relock_id i s s1 Hs E1) in E2. subst s2.
    apply IH; [done|lia].
Qed.

Lemma killed_woken s s' k : procs s' = upd (procs s) k (killed_proc (next_seq s) (ticks s) (procs s k)) -> woken s s'.
Proof.
  intros E j. rewrite E. unfold killed_proc, upd. cbn [p_state with_killed].
  case_decide; [subst|by left]. case_decide as Es; [right; done|by left].
Qed.

Lemma ev_kill_keeps pid s : quiet s -> keeps (ev_kill pid) s.
Proof.
  intros Hq. unfold keeps, ev_kill, kkill. wp_step. eapply wp_mono; [apply kkill_scan_spec; [apply Hq|lia]|].
  intros v s' H. wp_step. destruct (List.find _ _) as [k|].
  - destruct H as (_ & H1 & H2 & H3). pose proof (killed_woken s s' k H3). split; [by eapply quiet_frame|by apply woken_moves].
  - destruct H as [_ ->]. split; [done|by apply woken_moves, woken_refl].
Qed.

(** One slot moves between states that are not RUNNING. *)
Lemma keeps_one s s' i : quiet s -> tinv s' ->
  noff_ s' = noff_ s -> wait_lock s' = wait_lock s -> tickslock s' = tickslock s -> running s' = running s ->
  (forall j, j <> i -> p_state (procs s' j) = p_state (procs s j)) ->
  p_state (procs s i) <> RUNNING -> p_state (procs s' i) <> RUNNING ->
  may_become (p_state (procs s i)) (p_state (procs s' i)) -> quiet s' /\ moves s s'.
Proof.
  intros [] H E1 E2 E3 E4 Ho H1 H2 Hm. split; [|by eapply moves_one]. split; try congruence; try done.
  - intros j. rewrite E4, <- q_run0. destruct (decide (j = i)) as [->|Hj]; [done|]. by rewrite Ho.
  - intros j. rewrite E4. auto.
Qed.

Lemma ev_ready_keeps i s : quiet s -> (i < nproc)%nat -> p_state (procs s i) = USED -> keeps (ev_ready i) s.
Proof.
  intros Hq Hi Hst. unfold keeps, ev_ready. wp_step. apply lock_slot; [apply Hq|]. intros s1 H1 E1.
  wp_step. apply mark_runnable_spec; [done|done| |]. { rewrite E1. cbn. rewrite upd_eq. cbn. by rewrite Hst. }
  intros s2 H2 F2 P2. apply unlock_slot; [done|]. intros s3 H3 E3. destruct F2. rewrite E1 in *. cbn in *.
  apply (keeps_one s s3 i Hq H3); rewrite ?E3; cbn; try congruence; try lia.
  - intros j Hj. by rewrite upd_ne, P2, !upd_ne.
  - by rewrite upd_eq, P2, upd_eq.
  - rewrite upd_eq, P2, upd_eq, Hst. by right.
Qed.

Lemma ev_free_keeps i s : quiet s -> p_state (procs s i) = ZOMBIE \/ p_state (procs s i) = USED -> keeps (ev_free i) s.
Proof.
  intros Hq Hst. unfold keeps, ev_free. wp_step. apply lock_slot; [apply Hq|]. intros s1 H1 E1.
  wp_step. apply set_slot; [done|cbn; apply H1| |].
  { unfold is_ls, is_runnable. rewrite upd_eq, E1. cbn. rewrite upd_eq. cbn. by destruct Hst as [-> | ->]. }
  intros H2. apply unlock_slot; [done|]. intros s3 H3 E3. rewrite E1 in E3.
  apply (keeps_one s s3 i Hq H3); rewrite ?E3; cbn; try congruence; try lia.
  - intros j Hj. by rewrite !upd_ne.
  - by destruct Hst as [-> | ->].
  - by rewrite !upd_eq.
  - rewrite !upd_eq. by destruct Hst as [-> | ->]; right.
Qed.

Lemma ev_setpriority_keeps me level s : quiet s -> running s = Some me -> keeps (ev_setpriority me level) s.
Proof.
  intros Hq Hme. pose proof (proj2 (q_run _ Hq me) Hme) as Hst. unfold keeps, ev_setpriority, set_proc. wp_step.
  assert (forall i, p_state (procs (on_proc me (with_priority level) s) i) = p_state (procs s i)) as Es.
  { intros i. cbn. unfold upd. case_decide; by subst. }
  split; [|by apply woken_moves, woken_refl]. destruct Hq as [[] ? ? ? ? ?]. split; try done.
  2: intros i; by rewrite Es. split; try done.
  - intros i. cbn. unfold upd. case_decide; [subst; cbn|]; auto.
  - cbn. rewrite tv_ls0. symmetry. apply ls_total_ext. intros i _. unfold is_ls, is_runnable, upd.
    case_decide; [subst; cbn; by rewrite Hst|done].
Qed.

(** The slot allocproc takes. *)
Definition is_free (f : nat -> proc) (i : nat) : bool := bool_decide (p_state (f i) = UNUSED).

Lemma find_unused_spec n : forall i s, tinv s -> (i + n <= nproc)%nat ->
  wp (find_unused_proc n i) (fun o s' =>
    o = List.find (is_free (procs s)) (seq i n) /\
    match o with
    | Some k => (k < nproc)%nat /\ tinv_at k s' /\ p_state (procs s k) = UNUSED /\
                s' = set_noff (noff_ s + 1) (on_proc k (with_lock true) s)
    | None => s' = s
    end) s.
Proof.
  induction n as [|n IH]; intros i s Hs Hn; cbn [find_unused_proc seq List.find]; [by wp_step|].
  pose proof (tv_locks _ Hs i) as Hlk. wp_step. apply lock_slot; [done|]. intros s1 H1 E1. wp_step.
  unfold get_proc. wp_step. assert (procs s1 i = with_lock true (procs s i)) as Pi by (rewrite E1; cbn; apply upd_eq).
  rewrite Pi. cbn [p_state with_lock]. unfold is_free at 1. case_decide as Hu; wp_step.
  - rewrite bool_decide_true by done. split; [done|]. split; [lia|done].
  - rewrite bool_decide_false by done. apply unlock_slot; [done|]. intros s2 H2 E2.
    rewrite (relock_id i s s1 Hs E1) in E2. subst s2. apply IH; [done|lia].
Qed.

(** The slot being allocated, its lock held. *)
Record allocating (i : nat) (s0 s : ptable) : Prop := {
  al_at : tinv_at i s;
  al_state : p_state (procs s i) = USED;
  al_others : forall j, j <> i -> p_state (procs s j) = p_state (procs s0 j);
  al_noff : noff_ s = noff_ s0 + 1;
  al_wait : wait_lock s = wait_lock s0;
  al_tick : tickslock s = tickslock s0;
  al_run : running s = running s0;
  al_killed : p_killed (procs s i) = p_killed (procs s0 i);
  al_pid : p_pid (procs s i) = nextpid s0;
}.

Lemma set_allocating i s0 s f (Q : unit -> ptable -> Prop) : allocating i s0 s ->
  (forall p, p_lock (f p) = p_lock p /\ p_state (f p) = p_state p /\ p_killed (f p) = p_killed p /\ p_pid (f p) = p_pid p) ->
  (forall s', allocating i s0 s' -> Q tt s') -> wp (set_proc i f) Q s.
Proof.
  intros [Hat Hst] Hf HQ. destruct (Hf (procs s i)) as (Hl & Hs & Hk & Hp).
  apply set_slot; [done|rewrite Hl; apply Hat| |].
  - unfold is_ls, is_runnable. rewrite upd_eq, Hs, Hst. done.
  - intros H'. apply HQ. split; cbn; try done.
    + by rewrite upd_eq, Hs.
    + intros j Hj. rewrite upd_ne by done. auto.
    + by rewrite upd_eq, Hk.
    + by rewrite upd_eq, Hp.
Qed.

Lemma init_proc_spec i s0 (Q : unit -> ptable -> Prop) : quiet s0 -> p_state (procs s0 i) = UNUSED ->
  let s1 := set_noff (noff_ s0 + 1) (on_proc i (with_lock true) s0) in
  tinv_at i s1 -> (forall s', allocating i s0 s' -> Q tt s') -> wp (init_proc i) Q s1.
Proof.
  intros Hq Hu s1 H1 HQ. unfold init_proc, allocpid. wp_step. wp_step. apply wp_lock; [apply Hq|].
  cbv zeta. wp_step. wp_step. wp_step. wp_step. wp_step. apply wp_unlock; [done|]. cbv zeta. wp_step.
  match goal with |- wp _ _ ?x => set (s2 := x) end.
  assert (tinv_at i s2) as H2 by (destruct H1; by split).
  assert (procs s2 i = with_lock true (procs s0 i)) as P2 by (cbn; apply upd_eq).
  wp_step. apply set_slot; [done|cbn; apply H2| |]. { unfold is_ls, is_runnable. by rewrite upd_eq. }
  intros H3. apply set_slot; [done|cbn; apply H3| |].
  { unfold is_ls, is_runnable. rewrite upd_eq. cbn. rewrite !upd_eq. cbn. by rewrite Hu. }
  intros H4. apply HQ. split; cbn; try done; try lia.
  - by rewrite upd_eq.
  - intros j Hj. by rewrite !upd_ne.
  - by rewrite !upd_eq.
  - by rewrite !upd_eq.
Qed.

(** allocproc takes the first free slot; it sets the pid and the state but
    does not touch [killed]. *)
Definition born (s s' : ptable) : Prop :=
  match List.find (is_free (procs s)) (seq 0 nproc) with
  | Some i => p_state (procs s' i) = USED /\ p_pid (procs s' i) = nextpid s /\
      p_killed (procs s' i) = p_killed (procs s i)
  | None => s' = s
  end.

Lemma ev_alloc_spec s : quiet s -> wp ev_alloc (fun _ s' => (quiet s' /\ moves s s') /\ born s s') s.
Proof.
  intros Hq. unfold ev_alloc. wp_step. eapply wp_mono; [apply find_unused_spec; [apply Hq|lia]|].
  intros o s1 [Eo H]. unfold born. rewrite <- Eo. clear Eo.
  destruct o as [i|]; [|subst s1; wp_step; split; [split; [done|by apply woken_moves, woken_refl]|done]].
  destruct H as (Hi & H1 & Hu & ->). wp_step. apply (init_proc_spec i s); [done|done|done|]. intros s2 H2.
  wp_step. unfold reset_proc.
  repeat (first [wp_step|idtac]; apply (set_allocating i s); [eassumption|done|]; clear s2 H2; intros s2 H2).
  apply unlock_slot; [apply H2|]. intros s3 H3 E3. destruct H2 as [_ A2 A3 A4 A5 A6 A7 A8 A9]. split.
  - apply (keeps_one s s3 i Hq H3); rewrite ?E3; cbn; rewrite ?upd_eq; cbn; try congruence; try lia.
    + intros j Hj. rewrite upd_ne by done. auto.
    + rewrite Hu, A2. by right.
  - rewrite E3. cbn. rewrite upd_eq. cbn. done.
Qed.

Lemma ev_alloc_keeps s : quiet s -> keeps ev_alloc s.
Proof. intros Hq. unfold keeps. eapply wp_mono; [by apply ev_alloc_spec|]. by intros [] s' [H _]. Qed.

(** ** Dispatching *)

(** What the dispatcher needs of a policy: it picks a slot of the table. *)
Class PolicyBounded P `{SchedulerPolicy P} : Prop :=
  pick_bounded : forall (r : P) e f i, fst (pick_next r e f NPROC) = Some i -> (i < nproc)%nat.

Lemma circular_bounded P last i : circular P NPROC last = Some i -> (i < nproc)%nat.
Proof.
  intros E. apply rr_scan_some in E as (k & _ & -> & _). unfold slot_at, nproc.
  pose proof (Z.mod_pos_bound (last + k) NPROC eq_refl). apply Z2Nat.inj_lt; lia || done.
Qed.
#[export] Instance RR_bounded : PolicyBounded RR.
Proof.
  intros r e f i. cbn. unfold RR_pick_next. destruct (circular _ _ _) eqn:E; cbn; [|done].
  intros [= ->]. by eapply circular_bounded.
Qed.
Lemma fcfs_scan_bounded f n : forall i c k, (forall j, c = Some j -> (j < i)%nat) ->
  fcfs_scan f c i n = Some k -> (k < i + n)%nat.
Proof.
  induction n as [|n IH]; intros i c k Hc; cbn [fcfs_scan].
  - intros ->. specialize (Hc k eq_refl). lia.
  - intros E. apply IH in E; [lia|]. intros j Ej. destruct (_ && _) in Ej; [injection Ej as <-; lia|].
    apply Hc in Ej. lia.
Qed.
#[export] Instance FCFS_bounded : PolicyBounded FCFS.
Proof. intros r e f i. cbn. intros E. apply fcfs_scan_bounded in E; done. Qed.
(** A search among some processes, falling back to one among others. *)
Lemma pick_fallback_bounded {R} (b : bool) P1 P2 l1 l2 (k1 k2 : nat -> R) (k3 : R) i :
  fst (match (if b then circular P1 NPROC l1 else None) with
       | Some idx => (Some idx, k1 idx)
       | None => match circular P2 NPROC l2 with Some idx => (Some idx, k2 idx) | None => (None, k3) end
       end) = Some i -> (i < nproc)%nat.
Proof.
  destruct b; [destruct (circular P1 NPROC l1) eqn:E1|]; [cbn; intros [= ->]; by eapply circular_bounded| |];
    (destruct (circular P2 NPROC l2) eqn:E2; cbn; [|done]); intros [= ->]; by eapply circular_bounded.
Qed.
Lemma PP_pick_bounded {U : bool} (r : PriorityPreempt U) e f i : fst (PP_pick_next r e f NPROC) = Some i -> (i < nproc)%nat.
Proof.
  unfold PP_pick_next. intros E. apply (pick_fallback_bounded _ _ _ _ _ _ _ _ _ E).
Qed.
#[export] Instance PriorityPreempt_bounded (U : bool) : PolicyBounded (PriorityPreempt U).
Proof. intros r e f i. apply PP_pick_bounded. Qed.
#[export] Instance PrioritySelectOnly_bounded (U : bool) : PolicyBounded (PrioritySelectOnly U).
Proof.
  intros r e f i. cbn. pose proof (PP_pick_bounded (so_inner r) e f i) as H.
  destruct (PP_pick_next _ _ _ _). apply H.
Qed.

#[export] Instance PrioritySelectBudget_bounded B W (U : bool) :
  @PolicyBounded (PrioritySelectBudget U) (PrioritySelectBudget_policy B W U).
Proof.
  intros r e f i. unfold pick_next, PrioritySelectBudget_policy, SB_pick_next.
  destruct (budget_available B W _ _) as [ok b].
  intros E. apply (pick_fallback_bounded _ _ _ _ _ _ _ _ _ E).
Qed.

(** The accounting at a switch touches neither the lock, the state nor the
    priority. *)
Lemma close_wait_frame t p : p_lock (close_wait t p) = p_lock p /\ p_state (close_wait t p) = p_state p.
Proof. unfold close_wait. by destruct (_ <? _). Qed.

Lemma start_running {A} i s (v : A) (Q : A -> ptable -> Prop) : (i < nproc)%nat -> tinv_at i s ->
  p_state (procs s i) = RUNNABLE ->
  (forall s', tinv_at i s' -> noff_ s' = noff_ s -> wait_lock s' = wait_lock s -> tickslock s' = tickslock s ->
     running s' = Some i -> p_state (procs s' i) = RUNNING ->
     (forall j, j <> i -> procs s' j = procs s j) -> Q v s') ->
  wp (set_proc i (with_state RUNNING) ;;
      when (p_priority (procs s i) =? 1) (modify (fun s => set_ls_count (i32 (ls_count s - 1)) s)) ;;
      let* now := gets ticks in
      set_proc i (close_wait now) ;;
      modify (set_running (Some i)) ;;
      ret v) Q s.
Proof.
  intros Hi [H1 H2 H3 H4 H5] Hst HQ. set (f := upd (procs s) i (close_wait (ticks s) (with_state RUNNING (procs s i)))).
  destruct (close_wait_frame (ticks s) (with_state RUNNING (procs s i))) as [Cl Cs].
  assert (ls_total f nproc = ls_total (procs s) nproc - b2z (p_priority (procs s i) =? 1)) as E.
  { rewrite (ls_total_change (procs s) f nproc i Hi) by (intros j Hj; unfold is_ls, is_runnable, f; by rewrite upd_ne).
    replace (is_ls (procs s) i) with (p_priority (procs s i) =? 1) by (unfold is_ls, is_runnable; by rewrite Hst).
    replace (is_ls f i) with false; [cbn; lia|]. unfold is_ls, is_runnable, f. by rewrite upd_eq, Cs. }
  pose proof (ls_total_range f nproc) as Hr. pose proof (ls_total_range (procs s) nproc) as Hr'.
  change (Z.of_nat nproc) with 64 in Hr, Hr'.
  unfold set_proc. wp_step. wp_step. wp_step. apply wp_when; intros Ep; rewrite Ep in E; cbn [b2z] in E; repeat wp_step;
    apply HQ; try done; cbn; rewrite ?upd_eq, ?upd_upd; try done; try (intros j Hj; by rewrite !upd_ne).
  all: split; cbn; rewrite ?upd_eq, ?upd_upd; fold f; try done; try (by rewrite Cl);
    try (intros j Hj; unfold f; rewrite !upd_ne by done; auto).
  - rewrite E, H5, i32_small; lia.
  - rewrite E, H5. lia.
Qed.

Lemma ev_dispatch_keeps {P} `{PolicyBounded P} (policy : P) s :
  quiet s -> running s = None -> keeps (ev_dispatch policy) s.
Proof.
  intros Hq Hnone. unfold keeps, ev_dispatch, dispatch_round. wp_step. wp_step. wp_step. unfold id.
  pose proof (pick_bounded policy (mkEnv (ls_count s) (ticks s)) (procs s)) as Hb.
  destruct (pick_next _ _ _ _) as [[i|] r]; cbn in Hb.
  2: { wp_step. cbn. split; [done|by apply woken_moves, woken_refl]. }
  specialize (Hb i eq_refl). pose proof (tv_locks _ (q_inv _ Hq) i) as Hlk.
  wp_step. apply lock_slot; [apply Hq|]. intros s1 H1 E1. wp_step. unfold get_proc. wp_step.
  assert (procs s1 i = with_lock true (procs s i)) as Pi by (rewrite E1; cbn; apply upd_eq).
  rewrite Pi. cbn [p_state p_priority with_lock]. case_decide as Hr; wp_step.
  2: { apply unlock_slot; [done|]. intros s2 H2 E2. wp_step. cbn. rewrite E1 in E2.
       apply (keeps_one s s2 i Hq H2); rewrite ?E2; cbn; rewrite ?upd_eq; try done; try lia.
       - intros j Hj. by rewrite !upd_ne.
       - intros E. apply (q_run _ Hq) in E. congruence.
       - cbn. intros E. apply (q_run _ Hq) in E. congruence.
       - by left. }
  replace (p_priority (procs s i)) with (p_priority (procs s1 i)) by (by rewrite Pi).
  apply start_running; [done|done|by rewrite Pi|]. intros s2 H2 N2 W2 T2 R2 S2 O2. cbn.
  apply unlock_slot; [done|]. intros s3 H3 E3.
  assert (forall j, p_state (procs s3 j) = p_state (procs s2 j)) as Es.
  { intros j. rewrite E3. cbn. unfold upd. case_decide; by subst. }
  assert (forall j, j <> i -> p_state (procs s3 j) = p_state (procs s j)) as O3.
  { intros j Hj. rewrite Es, O2, E1 by done. cbn. by rewrite upd_ne. }
  assert (running s3 = Some i) as R3 by (by rewrite E3).
  split; [|apply (moves_one _ _ i); [done|rewrite Es, S2, Hr; by right]].
  pose proof Hq as [Hi Hn Hw Ht Hrun Hc]. split; try done.
  - rewrite E3. cbn. rewrite N2, E1. cbn. lia.
  - rewrite E3. cbn. rewrite W2, E1. done.
  - rewrite E3. cbn. rewrite T2, E1. done.
  - intros j. rewrite R3. destruct (decide (j = i)) as [->|Hj]; [by rewrite Es, S2|].
    rewrite O3, Hrun, Hnone by done. split; [done|congruence].
  - intros j. rewrite R3. by intros [= <-].
Qed.

(** ** Histories of the table *)

(** The zeroed table the kernel boots with, procinit run. *)
Definition boot_table : ptable :=
  mkPt (fun _ => zero_proc) 1 false 1 false false 0 None 0 false 0 None.
Definition booted (s : ptable) : Prop := procinit boot_table = Ret tt s.

(** What may happen next: the scheduler loop runs when the CPU has no
    process, the other operations are calls by its process (fork makes USED
    slots runnable or frees them, wait frees zombies) or interrupts. *)
Inductive event (s : ptable) : M ptable unit -> Prop :=
| E_dispatch P (H : SchedulerPolicy P) (B : PolicyBounded P) (policy : P) :
    running s = None -> event s (ev_dispatch policy)
| E_tick me : event s (ev_tick me)
| E_wakeup me c : event s (ev_wakeup me c)
| E_yield me : running s = Some me -> event s (ev_yield me)
| E_sleep me c lk : running s = Some me -> lk = wait_lockL \/ lk = tickslockL -> event s (ev_sleep me c lk)
| E_exit me status : running s = Some me -> event s (ev_exit me status)
| E_setpriority me level : running s = Some me -> event s (ev_setpriority me level)
| E_kill pid : event s (ev_kill pid)
| E_alloc : event s ev_alloc
| E_ready i : (i < nproc)%nat -> p_state (procs s i) = USED -> event s (ev_ready i)
| E_free i : p_state (procs s i) = ZOMBIE \/ p_state (procs s i) = USED -> event s (ev_free i).

Inductive reachable : ptable -> Prop :=
| reach_boot s : booted s -> reachable s
| reach_event s m s' : reachable s -> event s m -> m s = Ret tt s' -> reachable s'.

Lemma event_keeps s m : quiet s -> event s m -> keeps m s.
Proof.
  intros Hq []; eauto using ev_tick_keeps, ev_wakeup_keeps, ev_yield_keeps, ev_sleep_keeps, ev_exit_keeps,
    ev_setpriority_keeps, ev_kill_keeps, ev_alloc_keeps, ev_ready_keeps, ev_free_keeps.
  by apply ev_dispatch_keeps.
Qed.

Lemma procinit_quiet : wp procinit (fun _ s => quiet s) boot_table.
Proof.
  unfold procinit. repeat wp_step. set (clean := fun s : ptable => quiet s /\ (forall i, p_state (procs s i) = UNUSED) /\ running s = None).
  eapply wp_mono; [apply (wp_for_range (fun _ => clean))|].
  - split; [|done]. split; done.
  - intros j s Hj (Hq & Hu & Hr). unfold set_proc. wp_step. set (s' := on_proc _ _ s).
    assert (forall i, p_state (procs s' i) = UNUSED) as Hu'.
    { intros i. cbn. unfold upd. by case_decide. }
    split; [|done]. destruct Hq as [[] ? ? ? ? ?]. split; try done.
    + split; try done.
      * intros i. cbn. unfold upd. by case_decide.
      * cbn. rewrite tv_ls0. symmetry. apply ls_total_ext. intros i _. unfold is_ls, is_runnable, upd.
        case_decide; [subst; by rewrite Hu|done].
    + intros i. rewrite Hu'. cbn. rewrite Hr. done.
  - intros [] s H. apply H.
Qed.

Lemma reachable_quiet s : reachable s -> quiet s.
Proof.
  induction 1 as [s Hb|s m s' _ IH Hev E].
  - pose proof procinit_quiet as H. unfold wp in H. by rewrite Hb in H.
  - pose proof (event_keeps s m IH Hev) as H. unfold keeps, wp in H. rewrite E in H. apply H.
Qed.

(** C21: from boot, through any history of dispatches by any of the policies,
    ticks, wakeups, yields, sleeps, exits, kills, priority changes,
    allocations and frees, no operation panics or blocks, g_ls_runnable_count
    is exactly the number of RUNNABLE latency-sensitive processes, the CPU's
    process is the only RUNNING one, all locks are free again, and every
    process moves only along the life cycle UNUSED, USED, RUNNABLE, RUNNING,
    SLEEPING or ZOMBIE, UNUSED. *)
Theorem process_life_cycle s m : reachable s -> event s m ->
  exists s', m s = Ret tt s' /\ moves s s' /\
    ls_count s' = ls_total (procs s') nproc /\
    (forall i, p_state (procs s' i) = RUNNING <-> running s' = Some i) /\
    noff_ s' = 0 /\ (forall i, p_lock (procs s' i) = false).
Proof.
  intros Hr Hev. pose proof (event_keeps s m (reachable_quiet s Hr) Hev) as H. unfold keeps, wp in H.
  destruct (m s) as [[] s'| | |]; try done. destruct H as [[[] ? ? ? ? ?] Hm]. by exists s'.
Qed.

Lemma process_life_cycle_witness : exists s s', booted s /\ ev_alloc s = Ret tt s' /\
  ls_count s' = ls_total (procs s') nproc.
Proof.
  pose proof procinit_quiet as H. unfold wp in H. destruct (procinit boot_table) as [[] s| | |] eqn:E; try done.
  destruct (process_life_cycle s ev_alloc (reach_boot s E) (E_alloc s)) as (s' & H1 & _ & H2 & _). by exists s, s'.
Defined.

(** C22: wakeup(chan) makes RUNNABLE exactly the processes SLEEPING on chan
    other than the caller, stamping their ready tick, and leaves every other
    process unchanged. *)
Theorem wakeup_exact me c s : reachable s -> exists s', pwakeup me c s = Ret tt s' /\
  forall i, (i < nproc)%nat ->
    if decide (i <> me /\ p_state (procs s i) = SLEEPING /\ p_chan (procs s i) = c)
    then exists seq, procs s' i = runnable_proc seq (ticks s) (procs s i)
    else procs s' i = procs s i.
Proof.
  intros Hr. pose proof (pwakeup_spec me c s (q_inv _ (reachable_quiet s Hr))) as H. unfold wp in H.
  destruct (pwakeup me c s) as [[] s'| | |]; try done. destruct H as (_ & _ & H). exists s'. split; [done|].
  intros i Hi. specialize (H i). unfold woken_upto, sleeps_on in H. rewrite bool_decide_true in H by done.
  destruct (decide (i <> me /\ p_state (procs s i) = SLEEPING /\ p_chan (procs s i) = c)) as [Hd|Hd].
  - destruct Hd as (H1 & H2 & H3). by rewrite bool_decide_false, !bool_decide_true in H.
  - destruct (_ && _) eqn:E in H; [|done]. rewrite !andb_true_iff, negb_true_iff, bool_decide_eq_false, !bool_decide_eq_true in E.
    naive_solver.
Qed.

Lemma wakeup_exact_witness : exists s s', booted s /\ pwakeup 3 ChTicks s = Ret tt s' /\ procs s' 5%nat = procs s 5%nat.
Proof.
  pose proof procinit_quiet as H. unfold wp in H. destruct (procinit boot_table) as [[] s| | |] eqn:E; try done.
  destruct (wakeup_exact 3 ChTicks s (reach_boot s E)) as (s' & H1 & H2). exists s, s'. split; [done|]. split; [done|].
  specialize (H2 5%nat). rewrite decide_False in H2; [apply H2; apply Nat.ltb_lt; vm_compute; reflexivity|].
  vm_compute in E. injection E as <-. by intros (_ & ? & _).
Defined.

(** C26: what kill does, exactly.  In every table the kernel can reach,
    kkill(pid) marks the first slot with that pid as killed, making it
    RUNNABLE if it sleeps, changes no other slot and returns 0; when no slot
    has the pid it returns -1 and changes nothing.  The scan does not skip
    free slots, and allocproc does not reset the mark: when the slot found is
    the one allocproc takes next (as kill(0) finds it), the process allocated
    there, with the next pid, is killed from birth. *)
Theorem kill_exact pid s : reachable s ->
  match List.find (has_pid (procs s) pid) (seq 0 nproc) with
  | None => kkill pid s = Ret (-1) s
  | Some k => exists s', kkill pid s = Ret 0 s' /\
      procs s' = upd (procs s) k (killed_proc (next_seq s) (ticks s) (procs s k)) /\
      (List.find (is_free (procs s)) (seq 0 nproc) = Some k ->
       exists s2, ev_alloc s' = Ret tt s2 /\ p_state (procs s2 k) = USED /\
         p_pid (procs s2 k) = nextpid s /\ p_killed (procs s2 k) = true)
  end.
Proof.
  intros Hr. pose proof (reachable_quiet s Hr) as Hq.
  pose proof (kkill_scan_spec pid nproc 0 s (q_inv _ Hq) (le_n _)) as H.
  unfold wp in H. fold (kkill pid) in H. destruct (kkill pid s) as [v s'| | |] eqn:E; try done.
  destruct (List.find (has_pid _ _) _) as [k|]; [|by destruct H as [-> ->]].
  destruct H as (-> & Ht & Hf & Ep). exists s'. split; [done|]. split; [done|]. intros Hfree.
  pose proof (quiet_frame s s' Hq Ht Hf (killed_woken s s' k Ep)) as Hq'.
  pose proof (ev_alloc_spec s' Hq') as H. unfold wp in H. destruct (ev_alloc s') as [[] s2| | |] eqn:Ea; try done.
  destruct H as [_ H]. exists s2. split; [done|]. unfold born in H.
  assert (p_state (procs s k) = UNUSED) as Hu.
  { apply find_some in Hfree as [_ Hk]. by apply bool_decide_eq_true in Hk. }
  assert (procs s' k = with_killed true (procs s k)) as Ek.
  { rewrite Ep, upd_eq. unfold killed_proc. by rewrite decide_False by (cbn; by rewrite Hu). }
  replace (List.find (is_free (procs s')) (seq 0 nproc)) with (Some k) in H.
  - destruct H as (H1 & H2 & H3). rewrite (fr_pid _ _ Hf) in H2. by rewrite H3, Ek.
  - rewrite <- Hfree. f_equal. apply FunctionalExtensionality.functional_extensionality. intros j. unfold is_free. rewrite Ep. unfold upd.
    case_decide as Ej; [|done]. rewrite Ep, upd_eq in Ek. by rewrite Ek, Ej.
Qed.

(** Killing pid 0 at boot, and the first process. *)
Example kill_zero_poisons_slot :
  exists s s1 s2, booted s /\ kkill 0 s = Ret 0 s1 /\ ev_alloc s1 = Ret tt s2 /\
    p_state (procs s2 0%nat) = USED /\ p_pid (procs s2 0%nat) = 1 /\ p_killed (procs s2 0%nat) = true.
Proof. do 3 eexists. split; [vm_compute; reflexivity|]. split; [vm_compute; reflexivity|]. split; [vm_compute; reflexivity|]. done. Qed.

Lemma kill_exact_witness : exists s, booted s /\
  match List.find (has_pid (procs s) 0) (seq 0 nproc) with
  | None => kkill 0 s = Ret (-1) s
  | Some k => exists s', kkill 0 s = Ret 0 s' /\
      procs s' = upd (procs s) k (killed_proc (next_seq s) (ticks s) (procs s k)) /\
      (List.find (is_free (procs s)) (seq 0 nproc) = Some k ->
       exists s2, ev_alloc s' = Ret tt s2 /\ p_state (procs s2 k) = USED /\
         p_pid (procs s2 k) = nextpid s /\ p_killed (procs s2 k) = true)
  end.
Proof.
  pose proof procinit_quiet as H. unfold wp in H. destruct (procinit boot_table) as [[] s| | |] eqn:E; try done.
  exists s. split; [exact E|]. apply (kill_exact 0 s (reach_boot s E)).
Defined.
