(* ===== verification/Grep.v ===== *)
(** * user/grep.c: the pattern matcher and the line loop

    A C string is the list of its bytes before the NUL.  The matcher is
    proved against a declarative reading of patterns; the loop that splits
    its input into lines is proved independent of how read(2) chops the
    input, which enters as an oracle. *)

From Stdlib Require Import ZArith Lia.
From S2P Require Import Prelude.

Definition caret : Z := 94.
Definition dollar : Z := 36.
Definition star : Z := 42.
Definition dot : Z := 46.
Definition newline : Z := 10.

(** ** The matcher *)

(** matchstar, given the matcher [mh] for the rest of the pattern. *)
Fixpoint matchstar (mh : list Z -> bool) (c : Z) (text : list Z) : bool :=
  if mh text then true else
  match text with
  | [] => false
  | t :: text => if (t =? c) || (c =? dot) then matchstar mh c text else false
  end.

Fixpoint matchhere (re text : list Z) : bool :=
  match re with
  | [] => true
  | c :: re1 =>
      let plain :=
        if (c =? dollar) && bool_decide (re1 = []) then bool_decide (text = [])
        else match text with
             | [] => false
             | t :: text => if (c =? dot) || (c =? t) then matchhere re1 text else false
             end in
      match re1 with
      | d :: re2 => if d =? star then matchstar (matchhere re2) c text else plain
      | [] => plain
      end
  end.

(** The do-while loop of match over the suffixes of the text. *)
Fixpoint match_any (re text : list Z) : bool :=
  if matchhere re text then true else
  match text with [] => false | _ :: text => match_any re text end.
Definition re_match (re text : list Z) : bool :=
  match re with
  | c :: re1 => if c =? caret then matchhere re1 text else match_any re text
  | [] => match_any re text
  end.

(** ** The line loop *)

(** user/ulib.c: strchr, as an offset into the string. *)
Fixpoint strchr (s : list Z) (c : Z) : option nat :=
  match s with
  | [] => None
  | x :: s => if x =? c then Some O else S <$> strchr s c
  end.

(** The string a pointer into a buffer denotes: the bytes before a NUL. *)
Fixpoint cstr (b : list Z) : list Z :=
  match b with [] => [] | x :: b => if x =? 0 then [] else x :: cstr b end.

Definition bufsize : nat := Z.to_nat 1024.

(** [while((q = strchr(p, '\n')) != 0)]: the output and the bytes left. *)
Fixpoint grep_lines (fuel : nat) (pattern p : list Z) : list Z * list Z :=
  match fuel with
  | O => ([], p)
  | S fuel =>
      match strchr (cstr p) newline with
      | None => ([], p)
      | Some q =>
          let line := take q p in
          let out := if re_match pattern (cstr line) then line ++ [newline] else [] in
          let '(out', rest) := grep_lines fuel pattern (drop (S q) p) in
          (out ++ out', rest)
      end
  end.

Section Loop.
(** read(fd, p, n) number [k]: between 1 and [n] bytes of what is left of the
    file, as the oracle decides, 0 at its end. *)
Context (sizes : nat -> nat).
Definition read (k n : nat) (file : list Z) : list Z := take (Nat.min n (S (sizes k))) file.

(** [None] when the reads granted are used up. *)
Fixpoint grep_loop (fuel k : nat) (pattern buf file out : list Z) : option (list Z) :=
  match fuel with
  | O => None
  | S fuel =>
      let got := read k (bufsize - length buf - 1) file in
      match got with
      | [] => Some out
      | _ =>
          let '(o, rest) := grep_lines bufsize pattern (buf ++ got) in
          grep_loop fuel (S k) pattern rest (drop (length got) file) (out ++ o)
      end
  end.
Definition grep (pattern file : list Z) : option (list Z) :=
  grep_loop (S (length file)) 0 pattern [] file [].
End Loop.

(** ** What a pattern means *)

Inductive tok := TChr (c : Z) | TStar (c : Z) | TEnd.
Fixpoint tokens (re : list Z) : list tok :=
  match re with
  | [] => []
  | c :: re1 =>
      let plain := if (c =? dollar) && bool_decide (re1 = []) then [TEnd] else TChr c :: tokens re1 in
      match re1 with
      | d :: re2 => if d =? star then TStar c :: tokens re2 else plain
      | [] => plain
      end
  end.

(** A pattern character stands for itself, a dot for any character. *)
Definition stands_for (c t : Z) : Prop := c = dot \/ t = c.

(** The tokens match a prefix of the text. *)
Inductive accepts : list tok -> list Z -> Prop :=
| acc_nil text : accepts [] text
| acc_chr c r t text : stands_for c t -> accepts r text -> accepts (TChr c :: r) (t :: text)
| acc_star c r pre text : Forall (stands_for c) pre -> accepts r text -> accepts (TStar c :: r) (pre ++ text)
| acc_end : accepts [TEnd] [].

Definition re_means (re text : list Z) : Prop :=
  match re with
  | c :: re1 => if c =? caret then accepts (tokens re1) text
                else exists pre post, text = pre ++ post /\ accepts (tokens re) post
  | [] => exists pre post, text = pre ++ post /\ accepts (tokens re) post
  end.

Lemma matchstar_spec mh c text :
  matchstar mh c text = true <-> exists pre post, text = pre ++ post /\ Forall (stands_for c) pre /\ mh post = true.
Proof.
  induction text as [|t text IH]; cbn [matchstar].
  - destruct (mh []) eqn:E.
    + split; [|done]. intros _. exists [], []. eauto.
    + split; [done|]. intros (pre & post & Hs & _ & Hm). symmetry in Hs. apply app_eq_nil in Hs as [-> ->]. congruence.
  - destruct (mh (t :: text)) eqn:E.
    { split; [|done]. intros _. exists [], (t :: text). eauto. }
    assert ((t =? c) || (c =? dot) = true <-> stands_for c t) as Hc by (unfold stands_for; lia).
    destruct ((t =? c) || (c =? dot)).
    + rewrite IH. split; intros (pre & post & Hs & Hf & Hm).
      * exists (t :: pre), post. subst. repeat split; [|done]. constructor; [by apply Hc|done].
      * destruct pre as [|x pre]; cbn in Hs; [subst; congruence|]. injection Hs as -> ->.
        apply Forall_cons in Hf as [_ Hf]. by exists pre, post.
    + split; [done|]. intros (pre & post & Hs & Hf & Hm). destruct pre as [|x pre]; cbn in Hs; [subst; congruence|].
      injection Hs as <- _. apply Forall_cons in Hf as [Hf _]. by apply Hc in Hf.
Qed.

Lemma plain_spec c re1 text :
  (forall text, matchhere re1 text = true <-> accepts (tokens re1) text) ->
  (if (c =? dollar) && bool_decide (re1 = []) then bool_decide (text = [])
   else match text with
        | [] => false
        | t :: text => if (c =? dot) || (c =? t) then matchhere re1 text else false
        end) = true <->
  accepts (if (c =? dollar) && bool_decide (re1 = []) then [TEnd] else TChr c :: tokens re1) text.
Proof.
  intros IH. destruct ((c =? dollar) && bool_decide (re1 = [])).
  - rewrite bool_decide_eq_true. split; [intros ->; constructor|]. by inversion 1.
  - destruct text as [|t text]; [split; [done|by inversion 1]|].
    assert ((c =? dot) || (c =? t) = true <-> stands_for c t) as Hc by (unfold stands_for; lia).
    destruct ((c =? dot) || (c =? t)).
    + rewrite IH. split; [intros; constructor; [by apply Hc|done]|by inversion 1].
    + split; [done|]. inversion 1; subst. by apply Hc.
Qed.

Lemma matchhere_spec : forall re text, matchhere re text = true <-> accepts (tokens re) text.
Proof.
  fix IH 1. intros [|c re1] text; [split; [constructor|done]|].
  pose proof (plain_spec c re1 text (IH re1)) as Hp. cbn [matchhere tokens].
  destruct re1 as [|d re2]; [done|]. destruct (d =? star); [|done].
  rewrite matchstar_spec. split.
  - intros (pre & post & -> & Hf & Hm). constructor; [done|]. by apply IH.
  - inversion 1; subst. eexists _, _. split; [done|]. split; [done|]. by apply IH.
Qed.

Lemma match_any_spec re text :
  match_any re text = true <-> exists pre post, text = pre ++ post /\ matchhere re post = true.
Proof.
  induction text as [|t text IH]; cbn [match_any]; destruct (matchhere re _) eqn:E.
  1,3: split; [|done]; intros _; by eexists [], _.
  - split; [done|]. intros (pre & post & Hs & Hm). symmetry in Hs. apply app_eq_nil in Hs as [-> ->]. congruence.
  - rewrite IH. split; intros (pre & post & Hs & Hm).
    + exists (t :: pre), post. by subst.
    + destruct pre as [|x pre]; cbn in Hs; [subst; congruence|]. injection Hs as -> ->. by exists pre, post.
Qed.

(** C27: match(re, text) holds exactly when the pattern, read as a sequence of
    characters, dots, starred characters and a final dollar, matches at the
    start of the text (after a caret) or at some position of it. *)
Theorem re_match_correct re text : re_match re text = true <-> re_means re text.
Proof.
  assert (match_any re text = true <-> exists pre post, text = pre ++ post /\ accepts (tokens re) post) as H.
  { rewrite match_any_spec. by setoid_rewrite matchhere_spec. }
  destruct re as [|c re1]; [done|]. cbn [re_match re_means]. destruct (c =? caret); [apply matchhere_spec|done].
Qed.

(** ** What grep prints *)

(** The newline-terminated lines of a file; [cur] is the line so far. *)
Fixpoint lines_of (cur file : list Z) : list (list Z) :=
  match file with
  | [] => []
  | x :: file => if x =? newline then cur :: lines_of [] file else lines_of (cur ++ [x]) file
  end.
Definition selected (pattern : list Z) (ls : list (list Z)) : list Z :=
  concat (map (fun l => if re_match pattern l then l ++ [newline] else []) ls).

Notation nonl := (Forall (fun x => x <> newline)).
Notation nonul := (Forall (fun x => x <> 0)).

Lemma lines_of_app a : nonl a -> forall cur b, lines_of cur (a ++ b) = lines_of (cur ++ a) b.
Proof.
  induction 1 as [|x a Hx _ IH]; intros cur b; [by rewrite app_nil_r|]. cbn.
  rewrite (proj2 (Z.eqb_neq x newline) Hx), IH, <- (assoc_L (++)). done.
Qed.
Lemma lines_of_nonl a cur : nonl a -> lines_of cur a = [].
Proof. intros Ha. rewrite <- (app_nil_r a), lines_of_app by done. done. Qed.
Lemma lines_of_line a cur b : nonl a -> lines_of cur (a ++ newline :: b) = (cur ++ a) :: lines_of [] b.
Proof. intros Ha. by rewrite lines_of_app. Qed.

(** A buffer either has no newline or starts with a line. *)
Lemma strchr_split b : match strchr b newline with
  | None => nonl b
  | Some q => nonl (take q b) /\ b = take q b ++ newline :: drop (S q) b
  end.
Proof.
  induction b as [|x b IH]; cbn; [constructor|]. destruct (Z.eqb_spec x newline) as [->|Hx]; [cbn; by split|].
  destruct (strchr b newline) as [q|]; cbn; [|by constructor]. destruct IH as [H1 H2]. split; [by constructor|].
  f_equal. exact H2.
Qed.

Lemma cstr_nonul b : nonul b -> cstr b = b.
Proof. induction 1 as [|x b Hx _ IH]; cbn; [done|]. by rewrite (proj2 (Z.eqb_neq x 0) Hx), IH. Qed.

(** One pass over the buffer prints its matching lines and keeps the rest. *)
Lemma grep_lines_spec pattern : forall fuel p, nonul p -> (length p < fuel)%nat ->
  exists rest, (grep_lines fuel pattern p) = (selected pattern (lines_of [] p), rest) /\
    nonl rest /\ nonul rest /\ (length rest <= length p)%nat /\
    forall b, lines_of [] (p ++ b) = lines_of [] p ++ lines_of [] (rest ++ b).
Proof.
  induction fuel as [|fuel IH]; intros p Hp Hf; [lia|]. cbn [grep_lines]. rewrite (cstr_nonul p) by done.
  pose proof (strchr_split p) as Hs. destruct (strchr p newline) as [q|].
  2: { exists p. rewrite (lines_of_nonl p) by done. split; [done|]. split; [done|]. split; [done|]. split; [lia|done]. }
  destruct Hs as [Hl Hs]. set (line := take q p) in *. set (p' := drop (S q) p) in *.
  assert (nonul (line ++ newline :: p')) as Hn by (by rewrite <- Hs). apply Forall_app in Hn as [Hn1 Hn2].
  apply Forall_cons in Hn2 as [_ Hn2]. assert (length p = length line + S (length p'))%nat as Hlen.
  { rewrite Hs at 1. by rewrite length_app. }
  destruct (IH p' Hn2) as (rest & E & H1 & H2 & H3 & H4); [lia|]. rewrite E. exists rest.
  rewrite cstr_nonul by done. rewrite Hs, lines_of_line by done. split; [done|]. split; [done|]. split; [done|].
  split; [rewrite <- Hs; lia|]. intros b. rewrite <- (assoc_L (++)), <- app_comm_cons, lines_of_line by done. by rewrite H4.
Qed.

Lemma first_line_long buf file : nonl buf -> Forall (fun l => (length l <= 1022)%nat) (lines_of [] (buf ++ file)) ->
  (1023 <= length buf)%nat -> lines_of [] (buf ++ file) = [].
Proof.
  intros Hb Hf Hl. pose proof (strchr_split file) as Hs. destruct (strchr file newline) as [q|].
  - destruct Hs as [H1 H2]. rewrite H2, (assoc_L (++)), lines_of_line in Hf by (by apply Forall_app).
    apply Forall_cons in Hf as [Hf _]. cbn in Hf. rewrite length_app in Hf. lia.
  - by rewrite lines_of_app, lines_of_nonl.
Qed.

Lemma grep_loop_spec sizes pattern : forall fuel k buf file out,
  nonl buf -> nonul buf -> nonul file -> (length buf <= 1023)%nat -> (length file < fuel)%nat ->
  Forall (fun l => (length l <= 1022)%nat) (lines_of [] (buf ++ file)) ->
  grep_loop sizes fuel k pattern buf file out = Some (out ++ selected pattern (lines_of [] (buf ++ file))).
Proof.
  induction fuel as [|fuel IH]; intros k buf file out Hb Hn Hf Hl Hfuel Hlines; [lia|]. cbn [grep_loop]. unfold read.
  set (n := Nat.min _ _). assert (length (take n file) = Nat.min n (length file)) as Hgl by apply length_take.
  destruct (decide (length (take n file) = 0%nat)) as [E0|E0].
  - apply length_zero_iff_nil in E0 as E1. rewrite E1. f_equal.
    assert (lines_of [] (buf ++ file) = []) as ->; [|by rewrite app_nil_r].
    destruct file as [|x file]; [by rewrite app_nil_r, lines_of_nonl|].
    apply first_line_long; [done|done|]. cbn [length] in Hgl. change bufsize with 1024%nat in n. lia.
  - destruct (take n file) as [|g gs] eqn:Eg; [done|]. rewrite <- Eg in *. clear g gs Eg.
    assert (nonul (buf ++ take n file)) as Hbn by (apply Forall_app; split; [done|by apply Forall_take]).
    assert (length (buf ++ take n file) <= 1023)%nat as Hbl.
    { rewrite length_app, Hgl. unfold n. change bufsize with 1024%nat. lia. }
    destruct (grep_lines_spec pattern bufsize (buf ++ take n file) Hbn) as (rest & E & H1 & H2 & H3 & H4).
    { change bufsize with 1024%nat. lia. }
    rewrite E, Hgl. assert (drop (Nat.min n (length file)) file = drop n file) as ->.
    { destruct (Nat.min_spec n (length file)) as [[_ ->]|[? ->]]; [done|]. rewrite !drop_ge; done || lia. }
    specialize (H4 (drop n file)). rewrite <- (assoc_L (++)), take_drop in H4. rewrite H4 in Hlines |- *.
    apply Forall_app in Hlines as [_ Hlines].
    rewrite IH; [|done|done|by apply Forall_drop|lia|rewrite length_drop; lia|done].
    f_equal. unfold selected. by rewrite map_app, concat_app, (assoc_L (++)).
Qed.

(** C28: on any input without NUL bytes whose lines have at most 1022 bytes,
    grep terminates and prints exactly the newline-terminated lines that
    match, in order, however read(2) splits the input. *)
Theorem grep_prints_matching_lines sizes pattern file :
  Forall (fun x => x <> 0) file ->
  Forall (fun l => (length l <= 1022)%nat) (lines_of [] file) ->
  grep sizes pattern file = Some (selected pattern (lines_of [] file)).
Proof. intros Hn Hl. unfold grep. rewrite grep_loop_spec; cbn; auto using Forall_nil_2; lia. Qed.

(** "^a.*b$" on "acb\nab\nba\nabc\n", read two bytes at a time. *)
Lemma grep_prints_matching_lines_witness :
  grep (fun _ => 1%nat) [94; 97; 46; 42; 98; 36] [97;99;98;10;97;98;10;98;97;10;97;98;99;10]
  = Some [97;99;98;10;97;98;10].
Proof.
  rewrite grep_prints_matching_lines.
  - vm_compute. reflexivity.
  - repeat (apply Forall_cons; split; [lia|]). by apply Forall_nil.
  - cbn. repeat (apply Forall_cons; split; [cbn; lia|]). by apply Forall_nil.
Defined.
