(* ===== verification/Shell.v ===== *)
(** * user/sh.c: the shell's parser and command runner

    The parser works in place on the line buffer: tokens are pairs of
    positions, and [nulterminate] writes NULs over the ends of the tokens once
    the whole line is parsed.  [runcmd] is a program over the system calls;
    its descriptor bookkeeping is proved on a model of descriptor tables. *)

From Stdlib Require Import ZArith Lia.
From S2P Require Import Prelude Params Grep.

Definition MAXARGS : nat := 10.

(** Commands; a string is the positions of its first byte and of its end. *)
Definition strpos : Type := nat * nat.
Inductive cmd :=
| Exec (argv : list strpos)
| Redir (c : cmd) (file : strpos) (mode fd : Z)
| Pipe (left right : cmd)
| List (left right : cmd)
| Back (c : cmd).

Definition whitespace : list Z := [32; 9; 13; 10; 11].
Definition symbols : list Z := [60; 124; 62; 38; 59; 40; 41].
Definition in_chars (l : list Z) (c : Z) : bool := match strchr l c with Some _ => true | None => false end.
Definition is_white : Z -> bool := in_chars whitespace.
Definition is_sym : Z -> bool := in_chars symbols.

(** A parser's result: a value and the new position, or the shell's panic;
    [left] is where the text begins that parsecmd prints as "leftovers" first. *)
Inductive pres (A : Type) := POk (a : A) (s : nat) | PPanic (msg : string) (left : option nat) | PFuel.
Arguments POk {A}. Arguments PPanic {A}. Arguments PFuel {A}.
Definition pbind {A B} (r : pres A) (k : A -> nat -> pres B) : pres B :=
  match r with POk a s => k a s | PPanic m l => PPanic m l | PFuel => PFuel end.

Section Parse.
Context (buf : list Z).
Definition es : nat := length buf.
Definition ch (i : nat) : Z := nth i buf 0.

(** [while(s < es && P( *s)) s++], [n] being [es - s]. *)
Fixpoint skip_while (P : Z -> bool) (n s : nat) : nat :=
  match n with
  | O => s
  | S n => if P (ch s) then skip_while P n (S s) else s
  end.
Definition skip_white (s : nat) : nat := skip_while is_white (es - s) s.

(** The token's kind ([97] is a word), its ends and the new position. *)
Definition gettoken (s : nat) : Z * nat * nat * nat :=
  let q := skip_white s in
  let '(ret, s) :=
    if ch q =? 0 then (0, q)
    else if in_chars [124; 40; 41; 59; 38; 60] (ch q) then (ch q, S q)
    else if ch q =? 62 then if ch (S q) =? 62 then (43, S (S q)) else (62, S q)
    else (97, skip_while (fun c => negb (is_white c) && negb (is_sym c)) (es - q) q) in
  (ret, q, s, skip_white s).

Definition peek (s : nat) (toks : list Z) : bool * nat :=
  let s := skip_white s in
  (negb (ch s =? 0) && in_chars toks (ch s), s).

(** A redirection that has been read. *)
Record redir := mkRedir { r_file : strpos; r_mode : Z; r_fd : Z }.
Definition redircmd (c : cmd) (r : redir) : cmd := Redir c (r_file r) (r_mode r) (r_fd r).

(** parseredirs: the redirections, innermost first. *)
Fixpoint parseredirs (fuel : nat) (acc : list redir) (s : nat) : pres (list redir) :=
  match fuel with
  | O => PFuel
  | S fuel =>
      let '(more, s) := peek s [60; 62] in
      if negb more then POk acc s else
      let '(tok, _, _, s) := gettoken s in
      let '(kind, q, eq, s) := gettoken s in
      if negb (kind =? 97) then PPanic "missing file for redirection" None else
      if tok =? 60 then parseredirs fuel (acc ++ [mkRedir (q, eq) O_RDONLY 0]) s
      else if tok =? 62 then parseredirs fuel (acc ++ [mkRedir (q, eq) (Z.lor (Z.lor O_WRONLY O_CREATE) O_TRUNC) 1]) s
      else if tok =? 43 then parseredirs fuel (acc ++ [mkRedir (q, eq) (Z.lor O_WRONLY O_CREATE) 1]) s
      else parseredirs fuel acc s
  end.

(** The loop of parseexec over the words and redirections of a command. *)
Fixpoint parseargs (fuel : nat) (argv : list strpos) (rs : list redir) (s : nat)
    : pres (list strpos * list redir) :=
  match fuel with
  | O => PFuel
  | S fuel =>
      let '(stop, s) := peek s [124; 41; 38; 59] in
      if stop then POk (argv, rs) s else
      let '(tok, q, eq, s) := gettoken s in
      if tok =? 0 then POk (argv, rs) s else
      if negb (tok =? 97) then PPanic "syntax" None else
      let argv := argv ++ [(q, eq)] in
      if Nat.leb MAXARGS (length argv) then PPanic "too many args" None else
      pbind (parseredirs (S es) rs s) (fun rs s => parseargs fuel argv rs s)
  end.

(** [while(peek(ps, es, "&")) ...] *)
Fixpoint parseback (fuel : nat) (c : cmd) (s : nat) : pres cmd :=
  match fuel with
  | O => PFuel
  | S fuel =>
      let '(more, s) := peek s [38] in
      if negb more then POk c s else
      let '(_, _, _, s) := gettoken s in
      parseback fuel (Back c) s
  end.

Fixpoint parseline (fuel s : nat) : pres cmd :=
  match fuel with
  | O => PFuel
  | S fuel =>
      pbind (parsepipe fuel s) (fun c s =>
      pbind (parseback (S es) c s) (fun c s =>
      let '(more, s) := peek s [59] in
      if negb more then POk c s else
      let '(_, _, _, s) := gettoken s in
      pbind (parseline fuel s) (fun c2 s => POk (List c c2) s)))
  end
with parsepipe (fuel s : nat) : pres cmd :=
  match fuel with
  | O => PFuel
  | S fuel =>
      pbind (parseexec fuel s) (fun c s =>
      let '(more, s) := peek s [124] in
      if negb more then POk c s else
      let '(_, _, _, s) := gettoken s in
      pbind (parsepipe fuel s) (fun c2 s => POk (Pipe c c2) s))
  end
with parseexec (fuel s : nat) : pres cmd :=
  match fuel with
  | O => PFuel
  | S fuel =>
      let '(block, s) := peek s [40] in
      if block then parseblock fuel s else
      pbind (parseredirs (S es) [] s) (fun rs s =>
      pbind (parseargs (S es) [] rs s) (fun '(argv, rs) s =>
      POk (fold_left redircmd rs (Exec argv)) s))
  end
with parseblock (fuel s : nat) : pres cmd :=
  match fuel with
  | O => PFuel
  | S fuel =>
      let '(open_, s) := peek s [40] in
      if negb open_ then PPanic "parseblock" None else
      let '(_, _, _, s) := gettoken s in
      pbind (parseline fuel s) (fun c s =>
      let '(close_, s) := peek s [41] in
      if negb close_ then PPanic "syntax - missing )" None else
      let '(_, _, _, s) := gettoken s in
      pbind (parseredirs (S es) [] s) (fun rs s =>
      POk (fold_left redircmd rs c) s))
  end.

(** Each nesting level of the grammar consumes a byte; four calls a level. *)
Definition parse_fuel : nat := 4 * S es.
Definition parsecmd_tree : pres cmd :=
  pbind (parseline parse_fuel 0) (fun c s =>
  let '(_, s) := peek s [] in
  if negb (Nat.eqb s es) then PPanic "syntax" (Some s) else POk c s).
End Parse.

(** nulterminate on the line's bytes, the final NUL included. *)
Definition cut (b : list Z) (p : strpos) : list Z := <[p.2 := 0]> b.
Fixpoint nulterminate (c : cmd) (b : list Z) : list Z :=
  match c with
  | Exec argv => fold_left cut argv b
  | Redir c f _ _ => cut (nulterminate c b) f
  | Pipe l r | List l r => nulterminate r (nulterminate l b)
  | Back c => nulterminate c b
  end.

(** parsecmd: the command and the line as the parser leaves it. *)
Definition parsecmd (s : list Z) : pres (cmd * list Z) :=
  pbind (parsecmd_tree s) (fun c e => POk (c, nulterminate c (s ++ [0])) e).

(** ** Positions *)

Fixpoint strings (c : cmd) : list strpos :=
  match c with
  | Exec argv => argv
  | Redir c f _ _ => f :: strings c
  | Pipe l r | List l r => strings l ++ strings r
  | Back c => strings c
  end.

Lemma in_chars_false l c : in_chars l c = false <-> Forall (fun x => x <> c) l.
Proof.
  unfold in_chars. induction l as [|x l IH]; cbn; [by split; [constructor|]|].
  rewrite Forall_cons. destruct (Z.eqb_spec x c) as [->|Hx]; [split; [done|by intros [? _]]|].
  destruct (strchr l c); cbn; rewrite <- IH; split; done || tauto.
Qed.

Section Words.
Context (buf : list Z).
Notation es := (es buf).
Notation ch := (ch buf).

Definition word_char (c : Z) : bool := negb (is_white c) && negb (is_sym c).
(** The bytes from [q] to [eq] are a maximal run of word characters. *)
Definition word (p : strpos) : Prop :=
  (p.1 < p.2 <= es)%nat /\ (forall i, (p.1 <= i < p.2)%nat -> word_char (ch i) = true) /\
  (p.2 = es \/ word_char (ch p.2) = false).

Lemma skip_while_spec P : forall n s, (s + n = es)%nat ->
  let s' := skip_while buf P n s in
  (s <= s' <= es)%nat /\ (forall i, (s <= i < s')%nat -> P (ch i) = true) /\ (s' = es \/ P (ch s') = false).
Proof.
  induction n as [|n IH]; intros s Hs; cbn.
  - split; [lia|]. split; [intros; lia|]. left. lia.
  - destruct (P (ch s)) eqn:E.
    + destruct (IH (S s)) as (H1 & H2 & H3); [lia|]. split; [lia|]. split; [|done].
      intros i Hi. destruct (decide (i = s)) as [->|]; [done|]. apply H2. lia.
    + split; [lia|]. split; [intros; lia|]. by right.
Qed.

Lemma skip_white_spec s : (s <= es)%nat ->
  let s' := skip_white buf s in (s <= s' <= es)%nat /\ (s' = es \/ is_white (ch s') = false).
Proof. intros Hs. destruct (skip_while_spec is_white (es - s) s) as (H1 & _ & H3); [lia|]. by split. Qed.

Context (Hnul : Forall (fun x => x <> 0) buf).

Lemma ch_end i : ch i = 0 <-> (es <= i)%nat.
Proof.
  unfold Shell.ch, Shell.es. split; intros H.
  - destruct (decide (i < length buf)%nat) as [Hi|]; [|lia]. exfalso.
    rewrite Forall_forall in Hnul. apply (Hnul (nth i buf 0)); [|done]. apply list_elem_of_In, nth_In, Hi.
  - by apply nth_overflow.
Qed.

Lemma gettoken_spec s : (s <= es)%nat ->
  let '(k, q, eq, s') := gettoken buf s in
  (s <= q <= eq)%nat /\ (eq <= s' <= es)%nat /\ (k = 97 -> word (q, eq)) /\ (ch (skip_white buf s) <> 0 -> (s < s')%nat).
Proof.
  intros Hs. unfold gettoken. destruct (skip_white_spec s Hs) as (H1 & H2). set (q := skip_white buf s) in *.
  pose proof (ch_end q) as Hq. pose proof (ch_end (S q)) as Hq1.
  assert (forall e, (q <= e <= es)%nat -> (ch q <> 0 -> (q < e)%nat) ->
    ((s <= q <= e)%nat /\ (e <= skip_white buf e <= es)%nat) /\ (ch q <> 0 -> (s < skip_white buf e)%nat)) as Hend.
  { intros e He Hn. destruct (skip_white_spec e) as (H3 & _); [lia|]. split; [lia|]. intros Hne. specialize (Hn Hne). lia. }
  destruct (Z.eqb_spec (ch q) 0) as [E0|E0].
  { destruct (Hend q) as [[P1 P2] P3]; [lia|done|]. done. }
  assert (q < es)%nat as Hlt by (destruct (decide (q < es)%nat); [done|]; exfalso; apply E0, Hq; lia).
  destruct (in_chars _ (ch q)) eqn:E1.
  { destruct (Hend (S q)) as [[P1 P2] P3]; [lia|lia|]. split; [done|]. split; [done|]. split; [|done].
    intros E. by rewrite E in E1. }
  destruct (Z.eqb_spec (ch q) 62) as [E2|E2].
  { destruct (Z.eqb_spec (ch (S q)) 62) as [E3|E3].
    - assert (S q < es)%nat by (destruct (decide (S q < es)%nat); [done|]; exfalso; assert (ch (S q) = 0) by (apply Hq1; lia); lia).
      destruct (Hend (S (S q))) as [[P1 P2] P3]; [lia|lia|]. done.
    - destruct (Hend (S q)) as [[P1 P2] P3]; [lia|lia|]. done. }
  destruct (skip_while_spec word_char (es - q) q) as (H3 & H4 & H5); [lia|]. fold word_char.
  set (e := skip_while buf word_char (es - q) q) in *.
  assert (word_char (ch q) = true) as Hw.
  { unfold word_char. destruct H2 as [H2 | ->]; [lia|]. cbn [negb andb]. apply negb_true_iff. unfold is_sym.
    rewrite in_chars_false in E1 |- *. rewrite !Forall_cons in E1. unfold symbols. rewrite !Forall_cons.
    repeat split; try apply E1; auto. }
  assert (q < e)%nat as Hqe.
  { destruct (decide (q < e)%nat); [done|]. assert (e = q) as Ee by lia. destruct H5 as [H5|H5]; [lia|]. by rewrite Ee, Hw in H5. }
  destruct (Hend e) as [[P1 P2] P3]; [lia|done|]. split; [done|]. split; [done|]. split; [|done].
  intros _. split; [cbn; lia|]. by split.
Qed.

Lemma peek_spec s toks : (s <= es)%nat ->
  let '(b, s') := peek buf s toks in (s <= s' <= es)%nat /\ skip_white buf s' = s' /\ (b = true -> ch s' <> 0).
Proof.
  intros Hs. unfold peek. destruct (skip_white_spec s Hs) as (H1 & H2). set (q := skip_white buf s) in *.
  split; [done|]. split.
  - unfold skip_white. destruct (es - q)%nat eqn:E; [done|]. cbn. destruct H2 as [H2|H2]; [lia|by rewrite H2].
  - intros E. apply andb_true_iff in E as [E _]. apply negb_true_iff, Z.eqb_neq in E. done.
Qed.

(** A parser started at [s] panics or returns a value with property [P] at a
    later position. *)
Definition good {A} (P : A -> Prop) (s : nat) (r : pres A) : Prop :=
  match r with POk a s' => (s <= s' <= es)%nat /\ P a | PPanic _ _ => True | PFuel => False end.

Lemma good_bind {A B} (P : A -> Prop) (R : B -> Prop) s r (k : A -> nat -> pres B) :
  good P s r -> (forall a s', (s <= s' <= es)%nat -> P a -> good R s' (k a s')) -> good R s (pbind r k).
Proof.
  destruct r as [a s'| |]; cbn; try done. intros [Hs Ha] Hk. specialize (Hk a s' Hs Ha).
  destruct (k a s'); cbn in *; try done. split; [lia|tauto].
Qed.
Lemma good_later {A} (P : A -> Prop) s s' r : (s <= s')%nat -> good P s' r -> good P s r.
Proof. destruct r; cbn; try done. intros ? [? ?]. split; [lia|done]. Qed.

(** A token follows the position a successful peek leaves. *)
Lemma peek_token s toks : (s <= es)%nat ->
  let '(b, s1) := peek buf s toks in
  let '(k, q, eq, s2) := gettoken buf s1 in
  (s <= s1 <= es)%nat /\ (s1 <= s2 <= es)%nat /\ (k = 97 -> word (q, eq)) /\ (b = true -> (s1 < s2)%nat).
Proof.
  intros Hs. pose proof (peek_spec s toks Hs) as Hp. destruct (peek buf s toks) as [b s1].
  destruct Hp as (H1 & H2 & H3). pose proof (gettoken_spec s1) as Hg.
  destruct (gettoken buf s1) as [[[k q] eq] s2]. destruct Hg as (G1 & G2 & G3 & G4); [lia|].
  split; [done|]. split; [lia|]. split; [done|]. intros Hb. apply G4. rewrite H2. auto.
Qed.

Notation redirs_ok := (Forall (fun r => word (r_file r))).

Lemma parseredirs_good fuel : forall acc s, (s <= es)%nat -> (es - s < fuel)%nat -> redirs_ok acc ->
  good redirs_ok s (parseredirs buf fuel acc s).
Proof.
  induction fuel as [|fuel IH]; intros acc s Hs Hf Ha; [lia|]. cbn [parseredirs].
  pose proof (peek_token s [60; 62] Hs) as Hp. destruct (peek buf s _) as [b s1].
  destruct (gettoken buf s1) as [[[k q] eq] s2]. destruct Hp as (H1 & H2 & _ & H4).
  destruct b; cbn [negb]; [|by split]. specialize (H4 eq_refl).
  pose proof (gettoken_spec s2) as Hg. destruct (gettoken buf s2) as [[[k' q'] eq'] s3].
  destruct Hg as (G1 & G2 & G3 & _); [lia|]. destruct (Z.eqb_spec k' 97) as [Hk|]; cbn [negb]; [|done].
  specialize (G3 Hk). repeat case_match; apply (good_later _ _ s3); try lia; apply IH; try lia; try done.
  all: apply Forall_app; split; [done|]; by apply Forall_singleton.
Qed.

Lemma parseargs_good fuel : forall argv rs s, (s <= es)%nat -> (es - s < fuel)%nat ->
  Forall word argv -> redirs_ok rs -> (length argv < MAXARGS)%nat ->
  good (fun '(argv, rs) => (Forall word argv /\ (length argv < MAXARGS)%nat) /\ redirs_ok rs) s (parseargs buf fuel argv rs s).
Proof.
  induction fuel as [|fuel IH]; intros argv rs s Hs Hf Ha Hr Hn; [lia|]. cbn [parseargs].
  pose proof (peek_token s [124; 41; 38; 59] Hs) as Hp. destruct (peek buf s _) as [b s1] eqn:Ep.
  destruct (gettoken buf s1) as [[[k q] eq] s2] eqn:Eg. destruct Hp as (H1 & H2 & H3 & H4).
  destruct b; [by split|]. destruct (Z.eqb_spec k 0) as [|Hk0]; [cbn; split; [lia|done]|].
  destruct (Z.eqb_spec k 97) as [Hk|]; cbn [negb]; [|done]. specialize (H3 Hk).
  destruct (Nat.leb_spec MAXARGS (length (argv ++ [(q, eq)]))) as [|Hlen]; [done|].
  assert (s1 < s2)%nat as Hlt.
  { destruct H3 as [H3 _]. pose proof (gettoken_spec s1) as Hg. rewrite Eg in Hg.
    destruct Hg as (G1 & G2 & _); [lia|]. cbn in H3. lia. }
  apply (good_later _ _ s2); [lia|]. eapply good_bind; [apply parseredirs_good; [lia|lia|done]|].
  intros rs' s3 Hs3 Hrs'. apply IH; [lia|lia| |done|done]. apply Forall_app. split; [done|]. by apply Forall_singleton.
Qed.

Lemma strings_redirs rs : forall c, Forall word (strings c) -> redirs_ok rs -> Forall word (strings (fold_left redircmd rs c)).
Proof. induction rs as [|r rs IH]; intros c Hc Hr; [done|]. apply Forall_cons in Hr as [H1 H2]. cbn. apply IH; [|done]. by constructor. Qed.

(** Every argument list fits: argv[MAXARGS] keeps room for its null. *)
Fixpoint args_fit (c : cmd) : Prop :=
  match c with
  | Exec argv => (length argv < MAXARGS)%nat
  | Redir c _ _ _ | Back c => args_fit c
  | Pipe l r | List l r => args_fit l /\ args_fit r
  end.
Lemma args_fit_redirs rs : forall c, args_fit c -> args_fit (fold_left redircmd rs c).
Proof. induction rs as [|r rs IH]; intros c Hc; [done|]. cbn. by apply IH. Qed.

Notation cmd_ok := (fun c => Forall word (strings c) /\ args_fit c).

Lemma parseback_good fuel : forall c s, (s <= es)%nat -> (es - s < fuel)%nat -> cmd_ok c ->
  good cmd_ok s (parseback buf fuel c s).
Proof.
  induction fuel as [|fuel IH]; intros c s Hs Hf Hc; [lia|]. cbn [parseback].
  pose proof (peek_token s [38] Hs) as Hp. destruct (peek buf s _) as [b s1].
  destruct (gettoken buf s1) as [[[k q] eq] s2]. destruct Hp as (H1 & H2 & _ & H4).
  destruct b; cbn [negb]; [|by split]. specialize (H4 eq_refl).
  apply (good_later _ _ s2); [lia|]. apply IH; [lia|lia|done].
Qed.

Lemma cmd_ok_app l r : cmd_ok l -> cmd_ok r -> Forall word (strings l ++ strings r) /\ args_fit l /\ args_fit r.
Proof. intros [] []. rewrite Forall_app. tauto. Qed.

(** The four parsers, with the fuel each nesting level takes. *)
Lemma parse_good fuel : forall s, (s <= es)%nat ->
  ((4 * (es - s) + 4 <= fuel)%nat -> good cmd_ok s (parseline buf fuel s)) /\
  ((4 * (es - s) + 3 <= fuel)%nat -> good cmd_ok s (parsepipe buf fuel s)) /\
  ((4 * (es - s) + 2 <= fuel)%nat -> good cmd_ok s (parseexec buf fuel s)) /\
  ((4 * (es - s) + 1 <= fuel)%nat -> ch (skip_white buf s) <> 0 -> good cmd_ok s (parseblock buf fuel s)).
Proof.
  induction fuel as [|fuel IH]; intros s Hs; [repeat split; intros; lia|].
  split; [|split; [|split]]; intros Hf; cbn [parseline parsepipe parseexec parseblock].
  - eapply good_bind; [apply (IH s Hs); lia|]. intros c s1 Hs1 Hc.
    eapply good_bind; [apply parseback_good; [lia|lia|done]|]. intros c1 s2 Hs2 Hc1.
    pose proof (peek_token s2 [59]) as Hp. destruct (peek buf s2 _) as [b s3].
    destruct (gettoken buf s3) as [[[k q] eq] s4]. destruct Hp as (H1 & H2 & _ & H4); [lia|].
    destruct b; cbn [negb]; [|split; [lia|done]]. specialize (H4 eq_refl). apply (good_later _ _ s4); [lia|].
    eapply good_bind; [apply (IH s4); lia|]. intros c2 s5 Hs5 Hc2. split; [lia|]. by apply cmd_ok_app.
  - eapply good_bind; [apply (IH s Hs); lia|]. intros c s1 Hs1 Hc.
    pose proof (peek_token s1 [124]) as Hp. destruct (peek buf s1 _) as [b s3].
    destruct (gettoken buf s3) as [[[k q] eq] s4]. destruct Hp as (H1 & H2 & _ & H4); [lia|].
    destruct b; cbn [negb]; [|split; [lia|done]]. specialize (H4 eq_refl). apply (good_later _ _ s4); [lia|].
    eapply good_bind; [apply (IH s4); lia|]. intros c2 s5 Hs5 Hc2. split; [lia|]. by apply cmd_ok_app.
  - pose proof (peek_spec s [40] Hs) as Hp. destruct (peek buf s _) as [b s1]. destruct Hp as (H1 & H2 & H3).
    destruct b.
    + apply (good_later _ _ s1); [lia|]. apply (IH s1); [lia|lia|]. rewrite H2. auto.
    + apply (good_later _ _ s1); [lia|]. eapply good_bind; [apply parseredirs_good; [lia|lia|done]|]. intros rs s2 Hs2 Hrs.
      eapply good_bind; [apply parseargs_good; [lia|lia|done|done|unfold MAXARGS; cbn; lia]|].
      intros [argv rs'] s3 Hs3 [[Ha Hl] Hrs']. split; [lia|]. split; [by apply strings_redirs|by apply args_fit_redirs].
  - intros Hne. pose proof (peek_token s [40] Hs) as Hp. destruct (peek buf s _) as [b s1] eqn:Ep.
    destruct (gettoken buf s1) as [[[k q] eq] s2]. destruct Hp as (H1 & H2 & _ & H4).
    destruct b; cbn [negb]; [|done]. specialize (H4 eq_refl). apply (good_later _ _ s2); [lia|].
    eapply good_bind; [apply (IH s2); lia|]. intros c s3 Hs3 Hc.
    pose proof (peek_token s3 [41]) as Hp. destruct (peek buf s3 _) as [b s4].
    destruct (gettoken buf s4) as [[[k' q'] eq'] s5]. destruct Hp as (H5 & H6 & _ & _); [lia|].
    destruct b; cbn [negb]; [|done]. apply (good_later _ _ s5); [lia|].
    eapply good_bind; [apply parseredirs_good; [lia|lia|done]|]. intros rs s6 Hs6 Hrs. split; [lia|].
    destruct Hc as [Hc1 Hc2]. split; [by apply strings_redirs|by apply args_fit_redirs].
Qed.

Lemma parsecmd_tree_good : good cmd_ok 0 (parsecmd_tree buf).
Proof.
  unfold parsecmd_tree. eapply good_bind; [apply parse_good; [lia|unfold parse_fuel; lia]|]. intros c s Hs Hc.
  pose proof (peek_spec s []) as Hp. destruct (peek buf s []) as [b s1]. destruct Hp as (H1 & _ & _); [lia|].
  destruct (Nat.eqb s1 _); cbn [negb]; [|done]. split; [lia|done].
Qed.
End Words.

(** ** Cutting the line into strings *)

Lemma lookup_cuts l : forall b i, (i ∉ map snd l -> fold_left cut l b !! i = b !! i) /\
  ((i < length b)%nat -> i ∈ map snd l -> fold_left cut l b !! i = Some 0) /\ length (fold_left cut l b) = length b.
Proof.
  induction l as [|p l IH]; intros b i; [split; [done|]; split; [|done]; intros _ H; by apply not_elem_of_nil in H|].
  cbn. destruct (IH (cut b p) i) as (H1 & H2 & H3). unfold cut in *. rewrite length_insert in *.
  split; [|split; [|done]].
  - rewrite not_elem_of_cons. intros [Hne Hni]. rewrite H1 by done. by apply list_lookup_insert_ne.
  - intros Hi. rewrite elem_of_cons. destruct (decide (i ∈ map snd l)) as [Hin|Hin]; [auto|].
    intros [->|]; [|done]. rewrite H1 by done. by apply list_lookup_insert_eq.
Qed.

(** nulterminate cuts at the end of every string of the command. *)
Fixpoint cuts (c : cmd) : list strpos :=
  match c with
  | Exec argv => argv
  | Redir c f _ _ => cuts c ++ [f]
  | Pipe l r | List l r => cuts l ++ cuts r
  | Back c => cuts c
  end.
Lemma nulterminate_cuts c : forall b, nulterminate c b = fold_left cut (cuts c) b.
Proof.
  induction c as [argv|c IH f m d|l IHl r IHr|l IHl r IHr|c IH]; intros b; cbn; try done.
  - by rewrite IH, fold_left_app.
  - by rewrite IHl, IHr, fold_left_app.
  - by rewrite IHl, IHr, fold_left_app.
Qed.
Lemma elem_of_cuts c p : p ∈ cuts c <-> p ∈ strings c.
Proof.
  induction c as [argv|c IH f m d|l IHl r IHr|l IHl r IHr|c IH]; cbn; try done.
  - rewrite elem_of_app, list_elem_of_singleton, elem_of_cons, IH. tauto.
  - rewrite !elem_of_app. tauto.
  - rewrite !elem_of_app. tauto.
Qed.

(** The string at a position of a buffer that has a run of non-NULs there. *)
Lemma cstr_run t : Forall (fun x => x <> 0) t -> forall b, cstr (t ++ 0 :: b) = t.
Proof. induction 1 as [|x t Hx _ IH]; intros b; cbn; [done|]. by rewrite (proj2 (Z.eqb_neq x 0) Hx), IH. Qed.

Lemma lookup_ch buf i : (i < es buf)%nat -> (buf ++ [0]) !! i = Some (ch buf i).
Proof. intros Hi. rewrite lookup_app_l by done. by apply nth_lookup_Z. Qed.

(** C29: on any line parsecmd terminates, with a command or one of the shell's
    panics; when it returns a command, every argument list is shorter than
    MAXARGS, and every word of it, read as a C string from the buffer that
    nulterminate cut up in place, is exactly the maximal run of characters
    that was scanned for it. *)
Theorem parsecmd_in_place line : Forall (fun x => x <> 0) line ->
  match parsecmd line with
  | POk (c, b) _ => args_fit c /\
      forall q eq, (q, eq) ∈ strings c -> word line (q, eq) /\ cstr (drop q b) = take (eq - q) (drop q line)
  | PPanic _ _ => True
  | PFuel => False
  end.
Proof.
  intros Hnul. pose proof (parsecmd_tree_good line Hnul) as H. unfold parsecmd.
  destruct (parsecmd_tree line) as [c s|m|]; cbn in *; try done. destruct H as (_ & Hw & Hf). split; [done|].
  intros q eq Hin. rewrite Forall_forall in Hw. pose proof (Hw _ Hin) as Hword. split; [done|].
  destruct Hword as ([Hlt Hle] & Hrun & Hstop). cbn in Hlt, Hle, Hrun, Hstop. rewrite nulterminate_cuts.
  set (b := fold_left cut (cuts c) (line ++ [0])).
  assert (length b = S (es line)) as Hlen by (unfold b; rewrite (proj2 (proj2 (lookup_cuts (cuts c) _ 0%nat))), length_app; cbn; unfold es; lia).
  assert (b !! eq = Some 0) as Heq.
  { apply (lookup_cuts (cuts c) (line ++ [0]) eq).
    - rewrite length_app. cbn. unfold es in Hle. lia.
    - apply (list_elem_of_fmap_2' snd _ (q, eq)); [by apply elem_of_cuts|done]. }
  assert (forall i, (q <= i < eq)%nat -> b !! i = line !! i) as Hmid.
  { intros i Hi. unfold b. rewrite (proj1 (lookup_cuts (cuts c) _ i)).
    - rewrite lookup_app_l; [done|]. unfold es in Hle. lia.
    - intros Hc. apply list_elem_of_fmap in Hc as ([q' e'] & -> & Hc). apply elem_of_cuts in Hc. specialize (Hw _ Hc).
      destruct Hw as (_ & _ & [Hs|Hs]); cbn in Hs, Hi; [lia|]. specialize (Hrun e'). cbn in Hrun. rewrite Hs in Hrun. by apply Hrun in Hi. }
  assert (drop q b = take (eq - q) (drop q line) ++ 0 :: drop (S eq) b) as ->.
  { rewrite <- (take_drop (eq - q) (drop q b)). rewrite drop_drop. replace (q + (eq - q))%nat with eq by lia. f_equal.
    - apply list_eq. intros i. destruct (decide (i < eq - q)%nat).
      + rewrite !lookup_take_lt, !lookup_drop by lia. apply Hmid. lia.
      + rewrite !lookup_take_ge by lia. done.
    - by apply drop_S. }
  apply cstr_run. apply Forall_take, Forall_drop, Hnul.
Qed.

(** "ls -l<in|wc>>out &" *)
Lemma parsecmd_in_place_witness :
  exists b, parsecmd [108;115;32;45;108;60;105;110;124;119;99;62;62;111;117;116;32;38] =
    POk (Back (Pipe (Redir (Exec [(0, 2); (3, 5)]%nat) (6, 8)%nat O_RDONLY 0)
              (Redir (Exec [(9, 11)]%nat) (13, 16)%nat (Z.lor O_WRONLY O_CREATE) 1)), b) 18%nat /\
    cstr (drop 3 b) = [45;108] /\ cstr (drop 13 b) = [111;117;116].
Proof.
  pose proof (parsecmd_in_place [108;115;32;45;108;60;105;110;124;119;99;62;62;111;117;116;32;38]) as H.
  eexists. split; [vm_compute; reflexivity|]. specialize (H ltac:(repeat (apply Forall_cons; split; [lia|]); by apply Forall_nil)).
  vm_compute (parsecmd _) in H. destruct H as [_ H].
  split; [apply (H 3 5)%nat|apply (H 13 16)%nat]; vm_compute (strings _); rewrite !elem_of_cons; tauto.
Defined.

(** ** Running a command *)

(** The system calls a shell process makes, in order. *)
Inductive prog :=
| PExit (status : Z)
| PExec (argv : list strpos) (failed : prog)
| PClose (fd : Z) (k : prog)
| POpen (file : strpos) (mode : Z) (k : Z -> prog)
| PDup (fd : Z) (k : Z -> prog)
| PMkPipe (k : Z -> Z -> Z -> prog)   (* result, p[0], p[1] *)
| PFork (k : Z -> prog)
| PWait (k : prog)
| PPrint (msg : string) (arg : option strpos) (k : prog).   (* to descriptor 2, with a newline *)

Definition sh_panic (msg : string) : prog := PPrint msg None (PExit 1).
(** fork1: the parent goes on with the child's pid. *)
Definition fork1 (k : Z -> prog) : prog := PFork (fun pid => if pid =? -1 then sh_panic "fork" else k pid).

Fixpoint runcmd (c : cmd) : prog :=
  match c with
  | Exec [] => PExit 1
  | Exec ((file :: _) as argv) => PExec argv (PPrint "exec %s failed" (Some file) (PExit 0))
  | Redir c file mode fd =>
      PClose fd (POpen file mode (fun fd => if fd <? 0 then PPrint "open %s failed" (Some file) (PExit 1) else runcmd c))
  | List l r => fork1 (fun pid => if pid =? 0 then runcmd l else PWait (runcmd r))
  | Pipe l r =>
      PMkPipe (fun rc p0 p1 => if rc <? 0 then sh_panic "pipe" else
      fork1 (fun pid => if pid =? 0 then
        PClose 1 (PDup p1 (fun _ => PClose p0 (PClose p1 (runcmd l))))
      else fork1 (fun pid => if pid =? 0 then
        PClose 0 (PDup p0 (fun _ => PClose p0 (PClose p1 (runcmd r))))
      else PClose p0 (PClose p1 (PWait (PWait (PExit 0)))))))
  | Back c => fork1 (fun pid => if pid =? 0 then runcmd c else PExit 0)
  end.

(** What a descriptor refers to. *)
Inductive obj := OTty | OFile (file : strpos) (mode : Z) | OPipeRead (n : nat) | OPipeWrite (n : nat).
Definition fdtable : Type := list (option obj).

(** The lowest free descriptor. *)
Fixpoint fdalloc (t : fdtable) : option nat :=
  match t with [] => None | None :: _ => Some O | Some _ :: t => S <$> fdalloc t end.
Definition fdput (t : fdtable) (o : obj) : Z * fdtable :=
  match fdalloc t with Some fd => (Z.of_nat fd, <[fd := Some o]> t) | None => (-1, t) end.

Section Run.
(** Which files can be opened. *)
Context (opens : strpos -> Z -> bool).

(** The programs that get executed, with their descriptors; [n] numbers the
    pipes.  Processes are run to completion in turn: their descriptor tables
    are private, so the order is immaterial. *)
Fixpoint run (p : prog) (t : fdtable) (n : nat) : list (list strpos * fdtable) * nat :=
  match p with
  | PExit _ => ([], n)
  | PExec argv _ => ([(argv, t)], n)
  | PClose fd k => run k (<[Z.to_nat fd := None]> t) n
  | POpen file mode k =>
      if opens file mode then let '(fd, t) := fdput t (OFile file mode) in run (k fd) t n
      else run (k (-1)) t n
  | PDup fd k =>
      match t !! Z.to_nat fd with
      | Some (Some o) => let '(fd, t) := fdput t o in run (k fd) t n
      | _ => run (k (-1)) t n
      end
  | PMkPipe k =>
      let '(p0, t0) := fdput t (OPipeRead n) in
      let '(p1, t1) := fdput t0 (OPipeWrite n) in
      if (p0 <? 0) || (p1 <? 0) then run (k (-1) p0 p1) t n else run (k 0 p0 p1) t1 (S n)
  | PFork k =>
      let '(l, n) := run (k 0) t n in
      let '(r, n) := run (k 1) t n in
      (l ++ r, n)
  | PWait k => run k t n
  | PPrint _ _ k => run k t n
  end.

(** What a command should execute, given its standard streams. *)
Fixpoint plumb (c : cmd) (i o e : obj) (n : nat) : list (list strpos * fdtable) * nat :=
  match c with
  | Exec [] => ([], n)
  | Exec argv => ([(argv, [Some i; Some o; Some e] ++ replicate 13 None)], n)
  | Redir c file mode fd =>
      if opens file mode then
        if fd =? 0 then plumb c (OFile file mode) o e n else plumb c i (OFile file mode) e n
      else ([], n)
  | List l r =>
      let '(a, n) := plumb l i o e n in let '(b, n) := plumb r i o e n in (a ++ b, n)
  | Pipe l r =>
      let '(a, m) := plumb l i (OPipeWrite n) e (S n) in
      let '(b, m) := plumb r (OPipeRead n) o e m in (a ++ b, m)
  | Back c => plumb c i o e n
  end.

(** The parser redirects descriptors 0 and 1 only. *)
Fixpoint redirs_std (c : cmd) : Prop :=
  match c with
  | Exec _ => True
  | Redir c _ _ fd => (fd = 0 \/ fd = 1) /\ redirs_std c
  | Pipe l r | List l r => redirs_std l /\ redirs_std r
  | Back c => redirs_std c
  end.

(** Evaluate the updates of a descriptor table at literal positions. *)
Ltac step_table := repeat progress (cbn;
  change (Z.to_nat 0) with 0%nat; change (Z.to_nat 1) with 1%nat; change (Z.of_nat 3) with 3; change (Z.of_nat 4) with 4;
  change (Z.to_nat 3) with 3%nat; change (Z.to_nat 4) with 4%nat).

(** C30: a shell process with exactly its three standard descriptors open runs
    every program of a command line with exactly three descriptors open:
    redirections land on the intended descriptor, each side of a pipeline has
    its end of the pipe as standard output or input, and no process keeps a
    stray end of any pipe. *)
Theorem runcmd_plumbing c : redirs_std c -> forall i o e n,
  run (runcmd c) ([Some i; Some o; Some e] ++ replicate 13 None) n = plumb c i o e n.
Proof.
  induction c as [argv|c IH f m d|l IHl r IHr|l IHl r IHr|c IH]; intros Hc i o e n.
  - by destruct argv.
  - destruct Hc as [[-> | ->] Hc]; step_table; destruct (opens f m); step_table; try done; by rewrite <- (IH Hc).
  - destruct Hc as [Hl Hr]. step_table. specialize (IHl Hl). specialize (IHr Hr). cbn in IHl, IHr. rewrite IHl.
    destruct (plumb l _ _ _ _) as [a m]. rewrite IHr. destruct (plumb r _ _ _ _) as [b k]. by rewrite app_nil_r.
  - destruct Hc as [Hl Hr]. step_table. specialize (IHl Hl). specialize (IHr Hr). cbn in IHl, IHr. rewrite IHl.
    destruct (plumb l _ _ _ _) as [a m]. by rewrite IHr.
  - cbn. specialize (IH Hc). cbn in IH. rewrite IH. destruct (plumb c _ _ _ _) as [a m]. by rewrite app_nil_r.
Qed.
End Run.

(** "a < f | b" *)
Lemma runcmd_plumbing_witness :
  run (fun _ _ => true) (runcmd (Pipe (Redir (Exec [(0, 1)%nat]) (4, 5)%nat O_RDONLY 0) (Exec [(8, 9)%nat])))
      ([Some OTty; Some OTty; Some OTty] ++ replicate 13 None) 0
  = ([([(0, 1)%nat], [Some (OFile (4, 5)%nat O_RDONLY); Some (OPipeWrite 0); Some OTty] ++ replicate 13 None);
      ([(8, 9)%nat], [Some (OPipeRead 0); Some OTty; Some OTty] ++ replicate 13 None)], 1%nat).
Proof. rewrite runcmd_plumbing; [reflexivity|]. cbn. repeat split; by left. Defined.
