(* ===== verification/Umalloc.v ===== *)
(** * user/umalloc.c: the storage allocator

    Free blocks form a circular list in address order that starts at the
    static header [base], below the heap.  The header fields are read and
    written through the block's address; sizes are counted in headers of
    [sizeof_Header] bytes. *)

From Stdlib Require Import ZArith Lia.
From S2P Require Import Prelude.

Definition sizeof_Header : Z := 16.

(** The headers in memory, the variable [freep] and the process's break. *)
Record heap := mkHeap {
  h_ptr : Z -> Z;
  h_size : Z -> Z;
  freep : Z;
  brk : Z;
}.

Section Alloc.
(** The address of [base], and whether the kernel can grow the process by
    [n] bytes from break [b]. *)
Context (base : Z) (mem_ok : Z -> Z -> bool).

Definition get_ptr (p : Z) : M heap Z := gets (fun s => h_ptr s p).
Definition get_size (p : Z) : M heap Z := gets (fun s => h_size s p).
Definition set_ptr (p v : Z) : M heap unit :=
  modify (fun s => mkHeap (upd (h_ptr s) p v) (h_size s) (freep s) (brk s)).
Definition set_size (p v : Z) : M heap unit :=
  modify (fun s => mkHeap (h_ptr s) (upd (h_size s) p v) (freep s) (brk s)).
Definition set_freep (p : Z) : M heap unit :=
  modify (fun s => mkHeap (h_ptr s) (h_size s) p (brk s)).

(** sbrk(n) as sys_sbrk and growproc implement it; -1 is SBRK_ERROR. *)
Definition sbrk (n : Z) : M heap Z :=
  let* b := gets brk in
  if n <? 0 then
    let newsz := u64 (b + n) in
    modify (fun s => mkHeap (h_ptr s) (h_size s) (freep s) (if b <=? newsz then b else newsz)) ;; ret b
  else if mem_ok b n then
    modify (fun s => mkHeap (h_ptr s) (h_size s) (freep s) (b + n)) ;; ret b
  else ret (-1).

(** The search of free for the block's place in the list. *)
Definition free_search_step (bp p : Z) : M heap (Z + Z) :=
  let* n := get_ptr p in
  if (p <? bp) && (bp <? n) then ret (inr p) else
  if (n <=? p) && ((p <? bp) || (bp <? n)) then ret (inr p) else
  ret (inl n).

(** [fuel] bounds the blocks passed over. *)
Definition free (fuel : nat) (ap : Z) : M heap unit :=
  let bp := ap - sizeof_Header in
  let* fp := gets freep in
  let* p := loop fuel (free_search_step bp) fp in
  let* bs := get_size bp in
  let* n := get_ptr p in
  (if bp + sizeof_Header * bs =? n then
     let* ns := get_size n in
     set_size bp (u32 (bs + ns)) ;;
     let* nn := get_ptr n in
     set_ptr bp nn
   else set_ptr bp n) ;;
  let* ps := get_size p in
  (if p + sizeof_Header * ps =? bp then
     let* bs := get_size bp in
     set_size p (u32 (ps + bs)) ;;
     let* bn := get_ptr bp in
     set_ptr p bn
   else set_ptr p bp) ;;
  set_freep p.

Definition morecore (fuel : nat) (nu : Z) : M heap Z :=
  let nu := if nu <? 4096 then 4096 else nu in
  let* p := sbrk (i32 (nu * sizeof_Header)) in
  if p =? -1 then ret 0 else
  let hp := p in
  set_size hp nu ;;
  free fuel (hp + sizeof_Header) ;;
  gets freep.

(** One iteration of malloc's loop on [prevp] and [p]. *)
Definition malloc_step (fuel : nat) (nunits : Z) (st : Z * Z) : M heap (Z * Z + Z) :=
  let '(prevp, p) := st in
  let* ps := get_size p in
  if nunits <=? ps then
    let* p := (if ps =? nunits then
                 let* n := get_ptr p in set_ptr prevp n ;; ret p
               else
                 set_size p (u32 (ps - nunits)) ;;
                 let* ps := get_size p in
                 let p := p + sizeof_Header * ps in
                 set_size p nunits ;; ret p) in
    set_freep prevp ;;
    ret (inr (p + sizeof_Header))
  else
    let* fp := gets freep in
    let* p := (if p =? fp then morecore fuel nunits else ret p) in
    if p =? 0 then ret (inr 0) else
    let* n := get_ptr p in
    ret (inl (p, n)).

Definition nunits_of (nbytes : Z) : Z := u32 ((nbytes + sizeof_Header - 1) / sizeof_Header + 1).

Definition malloc (fuel : nat) (nbytes : Z) : M heap Z :=
  let nunits := nunits_of nbytes in
  let* fp := gets freep in
  (if fp =? 0 then set_freep base ;; set_ptr base base ;; set_size base 0 else ret tt) ;;
  let* prevp := gets freep in
  let* p := get_ptr prevp in
  loop fuel (malloc_step fuel nunits) (prevp, p).
End Alloc.

(** ** Linked paths *)

(** From [x] the links lead through [xs] to [y]. *)
Fixpoint linked (f : Z -> Z) (x : Z) (xs : list Z) (y : Z) : Prop :=
  match xs with [] => f x = y | z :: zs => f x = z /\ linked f z zs y end.

Lemma linked_app f xs z zs : forall x y, linked f x (xs ++ z :: zs) y <-> linked f x xs z /\ linked f z zs y.
Proof. induction xs as [|w xs IH]; intros x y; cbn; [done|]. rewrite IH. tauto. Qed.
Lemma linked_frame f g xs : forall x y, (forall a, a ∈ x :: xs -> g a = f a) -> linked f x xs y -> linked g x xs y.
Proof.
  induction xs as [|z xs IH]; intros x y E; cbn; [rewrite E by left; done|]. rewrite E by left.
  intros [H1 H2]. split; [done|]. apply IH; [|done]. intros a Ha. apply E. by right.
Qed.
Lemma linked_upd f a v x xs y : a ∉ x :: xs -> linked f x xs y -> linked (upd f a v) x xs y.
Proof. intros Ha. apply linked_frame. intros b Hb. apply upd_ne. by intros ->. Qed.
Lemma last_elem x xs : List.last (x :: xs) 0 ∈ x :: xs.
Proof. revert x. induction xs as [|z xs IH]; intros x; [by left|]. right. apply (IH z). Qed.
(** Redirect the last link. *)
Lemma linked_set_last f v xs : forall x y p, NoDup (x :: xs) -> List.last (x :: xs) 0 = p -> linked f x xs y ->
  linked (upd f p v) x xs v.
Proof.
  induction xs as [|z xs IH]; intros x y p Hd Hp; [cbn in *; intros _; subst; apply upd_eq|].
  apply NoDup_cons in Hd as [Hx Hd]. intros [H1 H2]. split; [|by eapply IH].
  rewrite upd_ne; [done|]. intros E. apply Hx. rewrite E, <- Hp. apply (last_elem z xs).
Qed.
(** Start elsewhere with the same first link. *)
Lemma linked_start f g x x' xs y : g x' = f x -> (forall a, a ∈ xs -> g a = f a) -> linked f x xs y -> linked g x' xs y.
Proof.
  destruct xs as [|z xs]; cbn; intros E1 E2; [by rewrite E1|]. intros [H1 H2]. split; [congruence|].
  eapply linked_frame; [|done]. done.
Qed.
Lemma linked_last f xs : forall x y, linked f x xs y -> f (List.last (x :: xs) 0) = y.
Proof. induction xs as [|z xs IH]; intros x y; [done|]. intros [_ H]. by apply IH in H. Qed.
Lemma linked_next f xs : forall x y a, linked f x xs y -> a ∈ x :: xs -> f a = y \/ f a ∈ xs.
Proof.
  induction xs as [|z xs IH]; intros x y a; cbn.
  - intros H Ha. apply list_elem_of_singleton in Ha as ->. by left.
  - intros [H1 H2]. rewrite elem_of_cons. intros [->|Ha]; [right; rewrite H1; left|].
    destruct (IH z y a H2 Ha) as [|]; [by left|right; by right].
Qed.
Lemma linked_inj f xs : forall x y a b, linked f x xs y -> NoDup xs -> y ∉ xs ->
  a ∈ x :: xs -> b ∈ x :: xs -> f a = f b -> a = b.
Proof.
  induction xs as [|z xs IH]; intros x y a b; cbn.
  - intros _ _ _ Ha Hb _. apply list_elem_of_singleton in Ha as ->. by apply list_elem_of_singleton in Hb as ->.
  - intros [H1 H2] Hd Hy. apply NoDup_cons in Hd as [Hz Hd]. apply not_elem_of_cons in Hy as [Hyz Hy].
    assert (forall c, c ∈ z :: xs -> f c <> z) as Hnz.
    { intros c Hc E. destruct (linked_next f xs z y c H2 Hc); congruence. }
    rewrite !(elem_of_cons (z :: xs)). intros [->|Ha] [->|Hb] E; try done.
    + exfalso. apply (Hnz b Hb). congruence.
    + exfalso. apply (Hnz a Ha). congruence.
    + by apply (IH z y).
Qed.

(** ** Blocks *)

Definition bend (b : Z * Z) : Z := b.1 + sizeof_Header * b.2.
Fixpoint spaced (lo : Z) (B : list (Z * Z)) : Prop :=
  match B with [] => True | b :: B => lo < b.1 /\ 0 < b.2 /\ spaced (bend b) B end.
Definition cover (B : list (Z * Z)) (x : Z) : Prop := exists b, b ∈ B /\ b.1 <= x < bend b.

Lemma spaced_weaken lo lo' B : lo' <= lo -> spaced lo B -> spaced lo' B.
Proof. destruct B as [|b B]; cbn; [done|]. intros ? (? & ? & ?). split_and!; [lia|done|done]. Qed.
Lemma spaced_above lo B b : spaced lo B -> b ∈ B -> lo < b.1 /\ 0 < b.2.
Proof.
  revert lo. induction B as [|c B IH]; intros lo; cbn; [intros _ H; by apply not_elem_of_nil in H|].
  intros (H1 & H2 & H3). rewrite elem_of_cons. intros [->|Hb]; [done|]. destruct (IH _ H3 Hb). unfold bend, sizeof_Header in *. lia.
Qed.
Lemma spaced_app lo B1 B2 : spaced lo (B1 ++ B2) -> spaced lo B1 /\ spaced lo B2.
Proof.
  revert lo. induction B1 as [|b B1 IH]; intros lo; cbn; [done|]. intros (H1 & H2 & H3). apply IH in H3 as [H4 H5].
  split; [done|]. eapply spaced_weaken; [|done]. unfold bend, sizeof_Header. lia.
Qed.
(** Two consecutive runs: everything in the second starts after the first. *)
Lemma spaced_split lo B1 b B2 : spaced lo (B1 ++ b :: B2) <->
  spaced lo B1 /\ (forall c, c ∈ B1 -> bend c < b.1) /\ lo < b.1 /\ 0 < b.2 /\ spaced (bend b) B2.
Proof.
  revert lo. induction B1 as [|c B1 IH]; intros lo; cbn.
  - split; [|tauto]. intros (H1 & H2 & H3). split_and!; try done. intros c Hc. by apply not_elem_of_nil in Hc.
  - rewrite IH. split.
    + intros (H1 & H2 & H3 & H4 & H5 & H6 & H7). split_and!; try done.
      * intros d Hd. apply elem_of_cons in Hd as [->|Hd]; auto.
      * unfold bend, sizeof_Header in *. lia.
    + intros ((H1 & H2 & H3) & H4 & H5 & H6 & H7). split_and!; try done.
      * intros d Hd. apply H4. by right.
      * apply H4. by left.
Qed.
Lemma spaced_NoDup lo B : spaced lo B -> NoDup (lo :: map fst B).
Proof.
  revert lo. induction B as [|b B IH]; intros lo Hs; [apply NoDup_singleton|]. cbn in Hs |- *.
  destruct Hs as (H1 & H2 & H3). apply NoDup_cons. split.
  - intros Hin. change (b.1 :: map fst B) with (map fst (b :: B)) in Hin. apply list_elem_of_fmap in Hin as (c & -> & Hc).
    apply elem_of_cons in Hc as [->|Hc]; [lia|]. apply (spaced_above _ _ _ H3) in Hc. unfold bend, sizeof_Header in Hc. lia.
  - assert (spaced b.1 B) as H4 by (eapply spaced_weaken; [|done]; unfold bend, sizeof_Header; lia). by apply IH.
Qed.

Section Proofs.
Context (base : Z) (mem_ok : Z -> Z -> bool).
(** The heap of a process fits in the machine's memory, above its data. *)
Definition heap_max : Z := 2 ^ 27.
Context (Hbase : 0 < base) (Hmem : forall b n, mem_ok b n = true -> b + n <= heap_max).

(** The free list holds the blocks [B]. *)
Record rep (s : heap) (B : list (Z * Z)) : Prop := {
  rp_link : linked (h_ptr s) base (map fst B) base;
  rp_size : forall b, b ∈ (base, 0) :: B -> h_size s b.1 = b.2;
  rp_space : spaced base B;
  rp_top : forall b, b ∈ B -> bend b <= brk s;
  rp_align : forall b, b ∈ B -> b.1 mod 16 = 0;
  rp_freep : freep s ∈ base :: map fst B;
}.

(** ** The search of free *)

Lemma loop_inr {S A R} (body : A -> M S (A + R)) a s r s' fuel :
  body a s = Ret (inr r) s' -> loop (Datatypes.S fuel) body a s = Ret r s'.
Proof. intros E. cbn. unfold bind. by rewrite E. Qed.
Lemma loop_inl {S A R} (body : A -> M S (A + R)) a s a' s' fuel :
  body a s = Ret (inl a') s' -> loop (Datatypes.S fuel) body a s = loop fuel body a' s'.
Proof. intros E. cbn. unfold bind. by rewrite E. Qed.

Section Search.
Context (s : heap) (bp : Z) (Hbp : base < bp).

(** Below [bp] the search runs on to the last block before it. *)
Lemma search_below z : (bp < z \/ z = base) -> forall B x n fuel, 0 <= n -> base <= x -> x < bp ->
  linked (h_ptr s) x (map fst B) z -> spaced (x + sizeof_Header * n) B -> (forall b, b ∈ B -> b.1 < bp) ->
  (length B < fuel)%nat -> loop fuel (free_search_step bp) x s = Ret (List.last (x :: map fst B) 0) s.
Proof.
  intros Hz. unfold sizeof_Header. induction B as [|b B IH]; intros x n fuel Hn Hx Hxb Hl Hs Hlt Hf; (destruct fuel as [|fuel]; [lia|]).
  - cbn in Hl. apply loop_inr. unfold free_search_step, bind, get_ptr, gets. cbn. rewrite Hl.
    destruct Hz as [Hz|Hz].
    + rewrite (proj2 (Z.ltb_lt x bp)), (proj2 (Z.ltb_lt bp z)) by lia. done.
    + rewrite Hz, (proj2 (Z.ltb_ge bp base)), (proj2 (Z.leb_le base x)), (proj2 (Z.ltb_lt x bp)) by lia. done.
  - cbn in Hl, Hs. destruct Hl as [Hl1 Hl2]. destruct Hs as (H1 & H2 & H3).
    assert (b.1 < bp) by (apply Hlt; by left).
    rewrite (loop_inl _ _ _ b.1 s).
    + rewrite (IH b.1 b.2); [done|lia|lia|done|done|done| |cbn in Hf; lia]. intros c Hc. apply Hlt. by right.
    + unfold free_search_step, bind, get_ptr, gets. cbn. rewrite Hl1.
      rewrite (proj2 (Z.ltb_ge bp b.1)), (proj2 (Z.leb_gt b.1 x)) by lia. by rewrite andb_false_r.
Qed.

(** Above [bp] the search runs on to the end of the list and wraps. *)
Lemma search_above : forall B x n fuel, 0 < n -> bp < x ->
  linked (h_ptr s) x (map fst B) base -> spaced (x + sizeof_Header * n) B ->
  loop (S (length B) + fuel) (free_search_step bp) x s = loop fuel (free_search_step bp) base s.
Proof.
  unfold sizeof_Header. induction B as [|b B IH]; intros x n fuel Hn Hx Hl Hs; cbn [length Nat.add].
  - cbn in Hl. apply loop_inl. unfold free_search_step, bind, get_ptr, gets. cbn. rewrite Hl.
    rewrite (proj2 (Z.ltb_ge x bp)), (proj2 (Z.ltb_ge bp base)) by lia. cbn [andb orb]. by rewrite andb_false_r.
  - cbn in Hl, Hs. destruct Hl as [Hl1 Hl2]. destruct Hs as (H1 & H2 & H3).
    rewrite (loop_inl _ _ _ b.1 s); [apply (IH b.1 b.2); [lia|lia|done|done]|].
    unfold free_search_step, bind, get_ptr, gets. cbn. rewrite Hl1.
    rewrite (proj2 (Z.ltb_ge x bp)), (proj2 (Z.leb_gt b.1 x)) by lia. done.
Qed.
End Search.

(** Where a block outside the free list belongs. *)
Lemma split_at B bp lo : spaced lo B -> (forall b, b ∈ B -> b.1 <> bp) ->
  exists B1 B2, B = B1 ++ B2 /\ (forall b, b ∈ B1 -> b.1 < bp) /\ (forall b, b ∈ B2 -> bp < b.1).
Proof.
  revert lo. induction B as [|b B IH]; intros lo Hs Hne.
  - exists [], []. split; [done|]. split; intros b Hb; by apply not_elem_of_nil in Hb.
  - cbn in Hs. destruct Hs as (H1 & H2 & H3). destruct (decide (b.1 < bp)) as [Hlt|Hge].
    + destruct (IH _ H3) as (B1 & B2 & -> & HB1 & HB2); [intros c Hc; apply Hne; by right|].
      exists (b :: B1), B2. split; [done|]. split; [|done]. intros c Hc. apply elem_of_cons in Hc as [->|Hc]; auto.
    + exists [], (b :: B). split; [done|]. split; [intros c Hc; by apply not_elem_of_nil in Hc|].
      assert (b.1 <> bp) by (apply Hne; by left). intros c Hc. apply elem_of_cons in Hc as [->|Hc]; [lia|].
      apply (spaced_above _ _ _ H3) in Hc. unfold bend, sizeof_Header in Hc. lia.
Qed.

(** The link that leaves a prefix of the list. *)
Definition next_of (B2 : list (Z * Z)) : Z := match B2 with [] => base | b :: _ => b.1 end.
Lemma linked_parts f B1 B2 : linked f base (map fst (B1 ++ B2)) base <->
  linked f base (map fst B1) (next_of B2) /\ match B2 with [] => True | b :: B => linked f b.1 (map fst B) base end.
Proof. destruct B2 as [|b B2]; [rewrite app_nil_r; cbn; tauto|]. rewrite map_app. cbn. apply linked_app. Qed.

Lemma search_free s B1 B2 bp fuel : rep s (B1 ++ B2) -> base < bp ->
  (forall b, b ∈ B1 -> b.1 < bp) -> (forall b, b ∈ B2 -> bp < b.1) -> (S (length (B1 ++ B2)) < fuel)%nat ->
  loop fuel (free_search_step bp) (freep s) s = Ret (List.last (base :: map fst B1) 0) s.
Proof.
  intros Hr Hbp H1 H2 Hf. pose proof (proj1 (linked_parts _ _ _) (rp_link _ _ Hr)) as [L1 L2].
  pose proof (rp_space _ _ Hr) as Hs. pose proof (proj1 (spaced_app _ _ _ Hs)) as Hs1.
  pose proof (proj2 (spaced_app _ _ _ Hs)) as Hs2. rewrite length_app in Hf.
  assert (bp < next_of B2 \/ next_of B2 = base) as Hz.
  { destruct B2 as [|b B2]; [by right|left; apply H2; by left]. }
  assert (forall fuel, (length B1 < fuel)%nat ->
    loop fuel (free_search_step bp) base s = Ret (List.last (base :: map fst B1) 0) s) as Hfrom.
  { intros f' Hf'. eapply (search_below s bp Hbp _ Hz B1 base 0); try done; try lia.
    by replace (base + sizeof_Header * 0) with base by lia. }
  pose proof (rp_freep _ _ Hr) as Hfp. rewrite map_app, elem_of_cons, elem_of_app in Hfp.
  destruct Hfp as [->|[Hfp|Hfp]]; [apply Hfrom; lia| |].
  - apply list_elem_of_fmap in Hfp as (b & -> & Hb). apply list_elem_of_split in Hb as (B3 & B4 & ->).
    rewrite map_app in L1. cbn [map] in L1. apply linked_app in L1 as [_ L1].
    apply spaced_split in Hs1 as (_ & _ & Hb1 & Hb2 & Hs4). rewrite length_app in Hf. cbn in Hf.
    rewrite (search_below s bp Hbp _ Hz B4 b.1 b.2); try done; try lia.
    + f_equal. rewrite map_app. cbn [map]. rewrite app_comm_cons.
      clear. generalize (base :: map fst B3). intros l. induction l as [|x l IH]; [done|]. cbn [app].
      rewrite IH. destruct l; done.
    + apply H1. apply elem_of_app. right. by left.
    + intros c Hc. apply H1. apply elem_of_app. right. by right.
  - apply list_elem_of_fmap in Hfp as (b & -> & Hb). apply list_elem_of_split in Hb as (B3 & B4 & ->).
    assert (linked (h_ptr s) b.1 (map fst B4) base) as L3.
    { destruct B3 as [|c B3]; cbn in L2; [done|]. rewrite map_app in L2. by apply linked_app in L2 as [_ L2]. }
    apply spaced_split in Hs2 as (_ & _ & Hb1 & Hb2 & Hs4). rewrite length_app in Hf. cbn in Hf.
    replace fuel with (S (length B4) + (fuel - S (length B4)))%nat by lia.
    rewrite (search_above s bp Hbp B4 b.1 b.2); [apply Hfrom; lia|done| |done|done].
    apply H2. apply elem_of_app. right. by left.
Qed.

(** ** Linking a block in *)

Lemma cover_cons b B x : cover (b :: B) x <-> (b.1 <= x < bend b) \/ cover B x.
Proof.
  unfold cover. split.
  - intros (c & Hc & Hx). apply elem_of_cons in Hc as [->|Hc]; [by left|right; by exists c].
  - intros [Hx|(c & Hc & Hx)]; [exists b; split; [by left|done]|exists c; split; [by right|done]].
Qed.
Lemma cover_app B1 B2 x : cover (B1 ++ B2) x <-> cover B1 x \/ cover B2 x.
Proof. unfold cover. setoid_rewrite elem_of_app. naive_solver. Qed.
Lemma cover_nil x : cover [] x <-> False.
Proof. split; [|done]. intros (b & Hb & _). by apply not_elem_of_nil in Hb. Qed.
Lemma cover_start B b : b ∈ B -> 0 < b.2 -> cover B b.1.
Proof. intros Hb Hn. exists b. split; [done|]. unfold bend, sizeof_Header. lia. Qed.

(** The first half of free, to the right: the block [bp] with the list [R]
    that follows it. *)
Record right_part (s : heap) (bp bs : Z) (B2 : list (Z * Z)) (v bs' : Z) (R : list (Z * Z)) : Prop := {
  ri_next : v = next_of R;
  ri_tail : match R with [] => True | b :: B => linked (h_ptr s) b.1 (map fst B) base end;
  ri_space : spaced (bp + sizeof_Header * bs') R;
  ri_size : bs <= bs';
  ri_sub : forall b, b ∈ R -> b ∈ B2;
  ri_top : bp + sizeof_Header * bs' <= brk s;
  ri_cover : forall x, cover ((bp, bs') :: R) x <-> cover B2 x \/ bp <= x < bp + sizeof_Header * bs;
  ri_length : (length R <= length B2)%nat;
}.

Lemma attach_right s B1 B2 bp bs : rep s (B1 ++ B2) -> base < bp -> h_size s bp = bs -> 0 < bs ->
  (forall b, b ∈ B2 -> bp + sizeof_Header * bs <= b.1) -> bp + sizeof_Header * bs <= brk s -> brk s <= heap_max ->
  exists v bs' R, right_part s bp bs B2 v bs' R /\
    forall k : M heap unit, (let* bs := get_size bp in
      (if bp + sizeof_Header * bs =? next_of B2 then
        let* ns := get_size (next_of B2) in
        set_size bp (u32 (bs + ns)) ;; let* nn := get_ptr (next_of B2) in set_ptr bp nn
      else set_ptr bp (next_of B2)) ;; k) s =
    k (mkHeap (upd (h_ptr s) bp v) (upd (h_size s) bp bs') (freep s) (brk s)).
Proof.
  intros Hr Hbp Hbs Hpos Hge Htop Hmax. pose proof (proj1 (linked_parts _ _ _) (rp_link _ _ Hr)) as [_ L2].
  pose proof (proj2 (spaced_app _ _ _ (rp_space _ _ Hr))) as Hs2.
  unfold get_size, get_ptr, set_size, set_ptr, bind, gets, modify. cbn. rewrite Hbs.
  destruct (Z.eqb_spec (bp + sizeof_Header * bs) (next_of B2)) as [E|E].
  - destruct B2 as [|[n ns] R]; cbn in E, L2, Hs2 |- *; [unfold sizeof_Header in E; lia|].
    destruct Hs2 as (Hn & Hns & Hs2).
    assert (h_size s n = ns) as Ens by (apply (rp_size _ _ Hr (n, ns)); right; apply elem_of_app; right; by left).
    assert (bend (n, ns) <= brk s) as Hnt by (apply (rp_top _ _ Hr); apply elem_of_app; right; by left).
    unfold bend, sizeof_Header, heap_max in *. cbn in *. exists (next_of R), (bs + ns), R. split.
    + split; try done.
      * destruct R as [|b R]; [done|]. by destruct L2 as [_ L2].
      * unfold sizeof_Header. by replace (bp + 16 * (bs + ns)) with (n + 16 * ns) by lia.
      * lia.
      * intros b Hb. by right.
      * unfold sizeof_Header. lia.
      * intros x. rewrite !cover_cons. unfold bend, sizeof_Header. cbn. split; intros; repeat (destruct_or?; destruct_and?); try tauto; lia.
      * cbn. lia.
    + intros k. rewrite Ens, u32_small by lia. do 3 f_equal.
      destruct R as [|b R]; cbn in L2 |- *; [done|]. by destruct L2 as [-> _].
  - exists (next_of B2), bs, B2. split.
    + split; try done; try lia.
      * destruct B2 as [|b B2]; cbn in *; [done|]. destruct Hs2 as (H1 & H2 & H3). split_and!; try done.
        assert (bp + sizeof_Header * bs <= b.1) by (apply Hge; by left). lia.
      * intros x. rewrite cover_cons. unfold bend. cbn. tauto.
    + intros k. cbn. f_equal. f_equal. rewrite <- Hbs. by rewrite upd_id.
Qed.

Lemma last_map_app (B : list (Z * Z)) p ps : List.last (base :: map fst (B ++ [(p, ps)])) 0 = p.
Proof. rewrite map_app, app_comm_cons. apply last_last. Qed.

(** The block before the place of [bp]. *)
Lemma prev_block (B1 : list (Z * Z)) : exists ps, (List.last (base :: map fst B1) 0, ps) ∈ (base, 0) :: B1 /\
  ((B1 = [] /\ ps = 0) \/ exists B0, B1 = B0 ++ [(List.last (base :: map fst B1) 0, ps)]).
Proof.
  destruct (decide (B1 = [])) as [->|Hne].
  - exists 0. split; [by left|]. by left.
  - destruct (exists_last Hne) as (B0 & [p ps] & ->). exists ps. rewrite last_map_app.
    split; [right; apply elem_of_app; right; by left|]. right. by exists B0.
Qed.

Section Attach.
Context (s : heap) (B1 B2 R : list (Z * Z)) (bp bs bs' v : Z) (p ps : Z).
Context (Hr : rep s (B1 ++ B2)) (Hbp : base < bp) (Hal : bp mod 16 = 0) (Hpos : 0 < bs)
  (Hlt : forall b, b ∈ B1 -> bend b <= bp) (Hri : right_part s bp bs B2 v bs' R)
  (Hgt : forall b, b ∈ B2 -> bp < b.1)
  (Hp : p = List.last (base :: map fst B1) 0).

Lemma B1_below b : b ∈ (base, 0) :: B1 -> base <= b.1 < bp.
Proof.
  intros Hb. apply elem_of_cons in Hb as [->|Hb]; [cbn; lia|]. pose proof (Hlt _ Hb) as Hend.
  pose proof (spaced_above _ _ b (rp_space _ _ Hr)) as H. destruct H as [H1 H2]; [apply elem_of_app; by left|].
  unfold bend, sizeof_Header in *. lia.
Qed.
Lemma p_elem : exists b, b ∈ (base, 0) :: B1 /\ b.1 = p.
Proof. destruct (prev_block B1) as (x & Hx & _). rewrite <- Hp in Hx. eexists. split; [done|done]. Qed.
Lemma p_below : base <= p < bp.
Proof. destruct p_elem as (b & Hb & <-). by apply B1_below. Qed.
Lemma R_above b : b ∈ R -> bp + sizeof_Header * bs' < b.1.
Proof. intros Hb. by apply (spaced_above _ _ _ (ri_space _ _ _ _ _ _ _ Hri)) in Hb as [Hb _]. Qed.
Lemma bs'_pos : 0 < bs'.
Proof. pose proof (ri_size _ _ _ _ _ _ _ Hri). lia. Qed.
Lemma old_size b : b ∈ (base, 0) :: B1 \/ b ∈ R -> h_size s b.1 = b.2.
Proof.
  intros Hb. apply (rp_size _ _ Hr). destruct Hb as [Hb|Hb]; [apply elem_of_cons in Hb as [->|Hb]|]; [by left| |]; right;
    apply elem_of_app; [by left|right; by apply (ri_sub _ _ _ _ _ _ _ Hri)].
Qed.
Lemma B1_NoDup : NoDup (base :: map fst B1).
Proof. apply spaced_NoDup. apply (spaced_app _ _ _ (rp_space _ _ Hr)). Qed.
Lemma not_in_B1 x : bp <= x -> x ∉ base :: map fst B1.
Proof.
  intros Hx Hin. change (base :: map fst B1) with (map fst ((base, 0) :: B1)) in Hin.
  apply list_elem_of_fmap in Hin as (b & -> & Hb). apply B1_below in Hb. lia.
Qed.
Lemma not_in_R x : x <= bp -> x ∉ map fst R.
Proof.
  intros Hx Hin. apply list_elem_of_fmap in Hin as (b & -> & Hb). apply R_above in Hb.
  pose proof bs'_pos. unfold sizeof_Header in Hb. lia.
Qed.
Lemma old_link : linked (h_ptr s) base (map fst B1) (next_of B2).
Proof. apply (linked_parts _ _ _), (rp_link _ _ Hr). Qed.
Lemma old_facts b : b ∈ B1 \/ b ∈ R -> bend b <= brk s /\ b.1 mod 16 = 0.
Proof.
  intros Hb. assert (b ∈ B1 ++ B2) as Hin.
  { apply elem_of_app. destruct Hb as [Hb|Hb]; [by left|right; by apply (ri_sub _ _ _ _ _ _ _ Hri)]. }
  split; [by apply (rp_top _ _ Hr)|by apply (rp_align _ _ Hr)].
Qed.

(** The list from [x] on when [x] links to what follows [bp]. *)
Lemma tail_link g x : g x = v -> (forall a, a ∈ map fst R -> g a = h_ptr s a) -> linked g x (map fst R) base.
Proof.
  intros Hx Hg. pose proof (ri_next _ _ _ _ _ _ _ Hri) as Hv. pose proof (ri_tail _ _ _ _ _ _ _ Hri) as Ht.
  destruct R as [|b B]; cbn in *; [congruence|]. split; [congruence|]. eapply linked_frame; [|done]. done.
Qed.

Lemma attach_apart : p + sizeof_Header * ps <> bp -> (p, ps) ∈ (base, 0) :: B1 ->
  rep (mkHeap (upd (upd (h_ptr s) bp v) p bp) (upd (h_size s) bp bs') p (brk s)) (B1 ++ (bp, bs') :: R).
Proof.
  intros Hne Hps. pose proof p_below as Hpb. pose proof bs'_pos as Hb'. split; cbn.
  - rewrite map_app. cbn. apply linked_app. split.
    + eapply linked_set_last; [apply B1_NoDup|done|]. apply linked_upd; [by apply not_in_B1|apply old_link].
    + apply tail_link; [rewrite upd_ne by lia; apply upd_eq|]. intros a Ha.
      rewrite !upd_ne; [done| |]; intros ->; revert Ha; apply not_in_R; lia.
  - intros b Hb. rewrite app_comm_cons in Hb. apply elem_of_app in Hb as [Hb|Hb].
    + rewrite upd_ne; [apply old_size; by left|]. intros E. pose proof (B1_below _ Hb). lia.
    + apply elem_of_cons in Hb as [->|Hb]; [apply upd_eq|]. rewrite upd_ne; [apply old_size; by right|].
      intros E. pose proof (R_above _ Hb). unfold sizeof_Header in *. lia.
  - apply spaced_split. split; [apply (spaced_app _ _ _ (rp_space _ _ Hr))|]. split; [|split; [done|split; [done|apply Hri]]].
    intros c Hc. cbn. pose proof (Hlt _ Hc) as H1. destruct (decide (c = (p, ps))) as [->|Hn]; [unfold bend in *; cbn in *; lia|].
    (* an earlier block ends before the next one starts *)
    destruct (prev_block B1) as (ps0 & Hin & [[-> _]|[B0 E]]); [by apply not_elem_of_nil in Hc|]. rewrite <- Hp in E, Hin.
    assert (ps0 = ps) as ->. { transitivity (h_size s p); [symmetry|]; [apply (old_size (p, ps0))|apply (old_size (p, ps))]; by left. }
    pose proof (proj1 (spaced_app _ _ _ (rp_space _ _ Hr))) as Hs. rewrite E in Hs, Hc. apply spaced_split in Hs as (_ & Hs & _).
    apply elem_of_app in Hc as [Hc|Hc]; [|by apply list_elem_of_singleton in Hc]. specialize (Hs _ Hc). cbn in Hs. lia.
  - intros b Hb. apply elem_of_app in Hb as [Hb|Hb]; [by apply old_facts; left|].
    apply elem_of_cons in Hb as [->|Hb]; [apply Hri|by apply old_facts; right].
  - intros b Hb. apply elem_of_app in Hb as [Hb|Hb]; [by apply old_facts; left|].
    apply elem_of_cons in Hb as [->|Hb]; [done|by apply old_facts; right].
  - rewrite Hp, map_app, app_comm_cons. apply elem_of_app. left. apply last_elem.
Qed.

Lemma attach_merged B0 : p + sizeof_Header * ps = bp -> B1 = B0 ++ [(p, ps)] ->
  rep (mkHeap (upd (upd (h_ptr s) bp v) p v) (upd (upd (h_size s) bp bs') p (ps + bs')) p (brk s))
      (B0 ++ (p, ps + bs') :: R).
Proof.
  intros He E. pose proof p_below as Hpb. pose proof bs'_pos as Hb'.
  assert (forall b, b ∈ (base, 0) :: B0 -> b ∈ (base, 0) :: B1 /\ b.1 <> p) as H0.
  { intros b Hb. split; [rewrite E, app_comm_cons; apply elem_of_app; by left|]. intros Eb.
    pose proof B1_NoDup as Hd. rewrite E, map_app, app_comm_cons in Hd. apply NoDup_app in Hd as (_ & Hd & _).
    apply (Hd p); [|by left]. rewrite <- Eb. change (base :: map fst B0) with (map fst ((base, 0) :: B0)).
    by apply (list_elem_of_fmap_2' fst _ b). }
  assert (0 < ps) as Hps.
  { pose proof (spaced_above _ _ (p, ps) (rp_space _ _ Hr)) as H. apply H. rewrite E. apply elem_of_app. left. apply elem_of_app. right. by left. }
  assert (forall a, a ∈ map fst R -> upd (upd (h_ptr s) bp v) p v a = h_ptr s a) as HR.
  { intros a Ha. rewrite !upd_ne; [done| |]; intros ->; revert Ha; apply not_in_R; lia. }
  split; cbn.
  - rewrite map_app. cbn. apply linked_app. split; [|apply tail_link; [apply upd_eq|done]].
    pose proof old_link as Hl. rewrite E, map_app in Hl. apply linked_app in Hl as [Hl _].
    eapply linked_frame; [|done]. intros a Ha. change (base :: map fst B0) with (map fst ((base, 0) :: B0)) in Ha.
    apply list_elem_of_fmap in Ha as (b & -> & Hb). destruct (H0 b Hb) as [Hb1 Hb2]. apply B1_below in Hb1. rewrite !upd_ne; done || lia.
  - intros b Hb. rewrite app_comm_cons in Hb. apply elem_of_app in Hb as [Hb|Hb].
    + destruct (H0 b Hb) as [Hb1 Hb2]. pose proof (B1_below _ Hb1). rewrite !upd_ne by (done || lia). apply old_size. by left.
    + apply elem_of_cons in Hb as [->|Hb]; [apply upd_eq|]. pose proof (R_above _ Hb). unfold sizeof_Header in *.
      rewrite !upd_ne by lia. apply old_size. by right.
  - pose proof (proj1 (spaced_app _ _ _ (rp_space _ _ Hr))) as Hs. rewrite E in Hs. apply spaced_split in Hs as (Hs1 & Hs2 & Hs3 & Hs4 & _).
    apply spaced_split. cbn. split; [done|]. split; [done|]. split; [done|]. split; [lia|].
    replace (bend (p, ps + bs')) with (bp + sizeof_Header * bs') by (unfold bend, sizeof_Header in *; cbn; lia). apply Hri.
  - intros b Hb. apply elem_of_app in Hb as [Hb|Hb]; [apply old_facts; left; rewrite E; apply elem_of_app; by left|].
    apply elem_of_cons in Hb as [->|Hb]; [|by apply old_facts; right]. pose proof (ri_top _ _ _ _ _ _ _ Hri). unfold bend, sizeof_Header in *. cbn. lia.
  - intros b Hb. apply elem_of_app in Hb as [Hb|Hb]; [apply old_facts; left; rewrite E; apply elem_of_app; by left|].
    apply elem_of_cons in Hb as [->|Hb]; [|by apply old_facts; right]. apply (old_facts (p, ps)). left. rewrite E. apply elem_of_app. right. by left.
  - rewrite map_app, app_comm_cons. apply elem_of_app. right. by left.
Qed.
End Attach.

(** ** free *)

Record freed (s s' : heap) (B B' : list (Z * Z)) (bp bs : Z) : Prop := {
  fd_rep : rep s' B';
  fd_brk : brk s' = brk s;
  fd_cover : forall x, cover B' x <-> cover B x \/ bp <= x < bp + sizeof_Header * bs;
  fd_size : forall a, a <> bp -> a ∉ map fst B -> h_size s' a = h_size s a;
  fd_fits : exists b, b ∈ B' /\ bs <= b.2;
  fd_length : (length B' <= S (length B))%nat;
}.

Lemma free_spec fuel s B bp bs : rep s B -> base < bp -> bp mod 16 = 0 -> h_size s bp = bs -> 0 < bs ->
  (forall x, bp <= x < bp + sizeof_Header * bs -> ~ cover B x) ->
  bp + sizeof_Header * bs <= brk s -> brk s <= heap_max -> (S (length B) < fuel)%nat ->
  exists s' B', free fuel (bp + sizeof_Header) s = Ret tt s' /\ freed s s' B B' bp bs.
Proof.
  intros Hr Hbp Hal Hbs Hpos Hdis Htop Hmax Hf.
  assert (forall b, b ∈ B -> base < b.1 /\ 0 < b.2) as Hab by (intros b; apply spaced_above, Hr).
  destruct (split_at B bp base (rp_space _ _ Hr)) as (B1 & B2 & -> & H1 & H2).
  { intros b Hb E. apply (Hdis b.1); [unfold sizeof_Header; lia|]. apply cover_start; [done|]. by apply Hab. }
  assert (forall b, b ∈ B1 -> bend b <= bp) as Hlt.
  { intros b Hb. destruct (decide (bend b <= bp)) as [|Hn]; [done|]. exfalso. apply (Hdis bp); [unfold sizeof_Header; lia|].
    exists b. split; [apply elem_of_app; by left|]. specialize (H1 b Hb). lia. }
  assert (forall b, b ∈ B2 -> bp + sizeof_Header * bs <= b.1) as Hge.
  { intros b Hb. destruct (decide (bp + sizeof_Header * bs <= b.1)) as [|Hn]; [done|]. exfalso. specialize (H2 b Hb).
    apply (Hdis b.1); [lia|]. apply cover_start; [apply elem_of_app; by right|]. apply Hab, elem_of_app. by right. }
  destruct (attach_right s B1 B2 bp bs Hr Hbp Hbs Hpos Hge Htop Hmax) as (v & bs' & R & Hri & Eright).
  destruct (prev_block B1) as (ps & Hps & Hcase). pose proof (linked_last _ _ _ _ (old_link s B1 B2 Hr)) as Enext.
  remember (List.last (base :: map fst B1) 0) as p eqn:Ep.
  pose proof (old_size s B1 B2 R bp bs bs' v Hr Hri (p, ps) (or_introl Hps)) as Eps. cbn in Eps.
  pose proof (p_below s B1 B2 bp p Hr Hbp Hlt Ep) as Hpb.
  pose proof (ri_top _ _ _ _ _ _ _ Hri) as Hrt. pose proof (ri_size _ _ _ _ _ _ _ Hri) as Hrs.
  unfold free. replace (bp + sizeof_Header - sizeof_Header) with bp by lia.
  unfold bind at 1, gets at 1. cbn [obind]. unfold bind at 1. rewrite (search_free s B1 B2 bp fuel Hr Hbp H1 H2 Hf), <- Ep. cbn [obind].
  pose (K := let* ps := get_size p in
    (if p + sizeof_Header * ps =? bp then
       let* bs := get_size bp in set_size p (u32 (ps + bs)) ;; let* bn := get_ptr bp in set_ptr p bn
     else set_ptr p bp) ;; set_freep p).
  match goal with |- context [?m s = _] => assert (m s = K (mkHeap (upd (h_ptr s) bp v) (upd (h_size s) bp bs') (freep s) (brk s))) as -> end.
  { rewrite <- (Eright K). unfold bind, get_size, get_ptr, gets. cbn [obind]. rewrite Enext. reflexivity. }
  assert (h_size (mkHeap (upd (h_ptr s) bp v) (upd (h_size s) bp bs') (freep s) (brk s)) p = ps) as Eps1.
  { cbn. by rewrite upd_ne by lia. }
  unfold K, bind, get_size, get_ptr, set_size, set_ptr, set_freep, gets, modify. cbn [obind]. rewrite Eps1. cbn [h_ptr h_size freep brk].
  destruct (Z.eqb_spec (p + sizeof_Header * ps) bp) as [Em|Em].
  - destruct Hcase as [[-> ->]|[B0 EB]]; [exfalso; unfold sizeof_Header in Em; cbn in Ep; lia|].
    pose proof (attach_merged s B1 B2 R bp bs bs' v p ps Hr Hbp Hpos Hlt Hri Ep B0 Em EB) as Hrep.
    assert (0 < ps) as Hps0 by (destruct (Hab (p, ps)); [rewrite EB; apply elem_of_app; left; apply elem_of_app; right; by left|done]).
    eexists _, _. split; [|split; [exact Hrep|..]].
    + cbn. rewrite !upd_eq, u32_small; [done|]. unfold sizeof_Header, heap_max in *.
      lia.
    + done.
    + intros x. rewrite !cover_app, cover_cons. pose proof (ri_cover _ _ _ _ _ _ _ Hri x) as Hc. rewrite cover_cons in Hc.
      rewrite EB, cover_app, cover_cons. pose proof (cover_nil x). unfold bend, sizeof_Header in *. cbn in *. 
      assert ((p <= x < p + 16 * (ps + bs')) <-> (p <= x < p + 16 * ps) \/ (bp <= x < bp + 16 * bs')) as -> by lia. tauto.
    + intros a Ha Hin. cbn. rewrite !upd_ne; [done|done|]. intros ->. apply Hin. rewrite EB, !map_app. apply elem_of_app. left. apply elem_of_app. right. by left.
    + exists (p, ps + bs'). split; [apply elem_of_app; right; by left|]. cbn. lia.
    + pose proof (ri_length _ _ _ _ _ _ _ Hri). rewrite EB, !length_app. cbn. lia.
  - pose proof (attach_apart s B1 B2 R bp bs bs' v p ps Hr Hbp Hal Hpos Hlt Hri Ep Em Hps) as Hrep.
    eexists _, _. split; [reflexivity|split; [exact Hrep|..]].
    + done.
    + intros x. rewrite !cover_app. rewrite (ri_cover _ _ _ _ _ _ _ Hri x). tauto.
    + intros a Ha Hin. cbn. by rewrite upd_ne.
    + exists (bp, bs'). split; [apply elem_of_app; right; by left|done].
    + pose proof (ri_length _ _ _ _ _ _ _ Hri). rewrite !length_app. cbn. lia.
Qed.

(** ** Taking a block *)

Lemma spaced_remove lo B1 b B2 : spaced lo (B1 ++ b :: B2) -> spaced lo (B1 ++ B2).
Proof.
  revert lo. induction B1 as [|c B1 IH]; intros lo; cbn.
  - intros (H1 & H2 & H3). eapply spaced_weaken; [|done]. unfold bend, sizeof_Header. lia.
  - intros (H1 & H2 & H3). split_and!; auto.
Qed.

Record taken (s s' : heap) (B B' : list (Z * Z)) (hdr n : Z) : Prop := {
  tk_rep : rep s' B';
  tk_brk : brk s' = brk s;
  tk_range : base < hdr /\ hdr + sizeof_Header * n <= brk s /\ hdr mod 16 = 0;
  tk_hdr : h_size s' hdr = n;
  tk_cover : forall x, cover B x <-> cover B' x \/ hdr <= x < hdr + sizeof_Header * n;
  tk_disjoint : forall x, hdr <= x < hdr + sizeof_Header * n -> ~ cover B' x;
  tk_size : forall a, a <> base -> ~ cover B a -> h_size s' a = h_size s a;
}.

Lemma mod16_add a k : a mod 16 = 0 -> (a + 16 * k) mod 16 = 0.
Proof. intros E. by rewrite Z.mul_comm, Z_mod_plus_full. Qed.

(** Blocks of a spaced list do not overlap. *)
Lemma spaced_disjoint lo B1 b B2 x : spaced lo (B1 ++ b :: B2) -> b.1 <= x < bend b -> ~ cover (B1 ++ B2) x.
Proof.
  intros Hs Hx (c & Hc & Hx'). apply spaced_split in Hs as (_ & H1 & _ & H2 & H3).
  apply elem_of_app in Hc as [Hc|Hc]; [specialize (H1 c Hc); lia|]. apply (spaced_above _ _ _ H3) in Hc. lia.
Qed.

Section Take.
Context (s : heap) (B1 B2 : list (Z * Z)) (b : Z * Z) (prevp n : Z).
Context (Hr : rep s (B1 ++ b :: B2)) (Hpr : prevp = List.last (base :: map fst B1) 0) (Hn : 0 < n).

Lemma take_whole : b.2 = n ->
  taken s (mkHeap (upd (h_ptr s) prevp (h_ptr s b.1)) (h_size s) prevp (brk s)) (B1 ++ b :: B2) (B1 ++ B2) b.1 n.
Proof.
  intros E. pose proof (rp_space _ _ Hr) as Hs. pose proof (spaced_remove _ _ _ _ Hs) as Hs'.
  pose proof (proj1 (spaced_split _ _ _ _) Hs) as (S1 & S2 & S3 & S4 & S5).
  assert (b ∈ B1 ++ b :: B2) as Hb by (apply elem_of_app; right; by left).
  assert (forall c, c ∈ B1 ++ B2 -> c ∈ B1 ++ b :: B2) as Hsub.
  { intros c. rewrite !elem_of_app, elem_of_cons. tauto. }
  pose proof (proj1 (linked_parts _ _ _) (rp_link _ _ Hr)) as [L1 L2]. cbn in L1, L2.
  assert (NoDup (base :: map fst B1)) as Hd by (by apply spaced_NoDup).
  assert (forall a, a ∈ b.1 :: map fst B2 -> a <> prevp) as Hne.
  { intros a Ha ->. assert (prevp ∈ base :: map fst B1) as Hin by (rewrite Hpr; apply last_elem).
    pose proof (spaced_NoDup _ _ Hs) as Hd2. rewrite map_app, app_comm_cons in Hd2. apply NoDup_app in Hd2 as (_ & Hd2 & _).
    by apply (Hd2 prevp). }
  split; cbn.
  - split; cbn.
    + apply linked_parts. split.
      * replace (next_of B2) with (h_ptr s b.1) by (destruct B2; cbn in *; tauto).
        by eapply linked_set_last.
      * destruct B2 as [|c B3]; [done|]. cbn in L2. destruct L2 as [_ L2]. eapply linked_frame; [|done].
        intros a Ha. apply upd_ne, Hne. by right.
    + intros c Hc. apply (rp_size _ _ Hr). rewrite elem_of_cons in Hc |- *. destruct Hc; auto.
    + done.
    + intros c Hc. apply (rp_top _ _ Hr). auto.
    + intros c Hc. apply (rp_align _ _ Hr). auto.
    + rewrite map_app, app_comm_cons. apply elem_of_app. left. rewrite Hpr. apply last_elem.
  - done.
  - split; [lia|]. split; [rewrite <- E; apply (rp_top _ _ Hr b Hb)|by apply (rp_align _ _ Hr)].
  - rewrite <- E. apply (rp_size _ _ Hr). by right.
  - intros x. rewrite !cover_app, cover_cons. unfold bend. rewrite E. tauto.
  - intros x Hx. eapply spaced_disjoint; [done|]. unfold bend. by rewrite E.
  - done.
Qed.

Lemma take_tail : n < b.2 -> let hdr := b.1 + sizeof_Header * (b.2 - n) in
  taken s (mkHeap (h_ptr s) (upd (upd (h_size s) b.1 (b.2 - n)) hdr n) prevp (brk s))
    (B1 ++ b :: B2) (B1 ++ (b.1, b.2 - n) :: B2) hdr n.
Proof.
  intros Hlt hdr. pose proof (rp_space _ _ Hr) as Hs. pose proof (proj1 (spaced_split _ _ _ _) Hs) as (S1 & S2 & S3 & S4 & S5).
  assert (b ∈ B1 ++ b :: B2) as Hb by (apply elem_of_app; right; by left).
  assert (hdr + sizeof_Header * n = bend b) as Hend by (unfold hdr, bend, sizeof_Header; lia).
  assert (b.1 < hdr) as Hbh by (unfold hdr, sizeof_Header; lia).
  assert (spaced base (B1 ++ (b.1, b.2 - n) :: B2)) as Hs'.
  { apply spaced_split. cbn. split_and!; try done; [lia|]. eapply spaced_weaken; [|done]. unfold bend, sizeof_Header. cbn. lia. }
  assert (forall c, c ∈ (base, 0) :: (B1 ++ B2) -> c.1 <> b.1 /\ c.1 <> hdr) as Hne.
  { intros c Hc. apply elem_of_cons in Hc as [->|Hc]; [cbn; lia|]. assert (0 < c.2) as Hc2.
    { apply (spaced_above _ _ c Hs). rewrite elem_of_app, elem_of_cons in *. tauto. }
    assert (~ (b.1 <= c.1 < bend b)) as Hd.
    { intros Hx. eapply spaced_disjoint; [exact Hs|exact Hx|]. by apply cover_start. }
    unfold bend, sizeof_Header in *. lia. }
  split; cbn.
  - split; cbn; [| |done|..].
    + pose proof (rp_link _ _ Hr) as Hl. rewrite !map_app in *. done.
    + intros c Hc. rewrite elem_of_cons, elem_of_app, elem_of_cons in Hc.
      assert (c = (b.1, b.2 - n) \/ c ∈ (base, 0) :: (B1 ++ B2)) as [->|Hc'] by (rewrite elem_of_cons, elem_of_app; tauto).
      * cbn. rewrite upd_ne by lia. apply upd_eq.
      * destruct (Hne c Hc'). rewrite !upd_ne by done. apply (rp_size _ _ Hr). rewrite elem_of_cons, elem_of_app, elem_of_cons in *. tauto.
    + intros c Hc. rewrite elem_of_app, elem_of_cons in Hc. destruct Hc as [Hc|[->|Hc]].
      * apply (rp_top _ _ Hr). apply elem_of_app. by left.
      * pose proof (rp_top _ _ Hr b Hb). unfold bend, sizeof_Header in *. cbn. lia.
      * apply (rp_top _ _ Hr). apply elem_of_app. right. by right.
    + intros c Hc. rewrite elem_of_app, elem_of_cons in Hc. destruct Hc as [Hc|[->|Hc]].
      * apply (rp_align _ _ Hr). apply elem_of_app. by left.
      * apply (rp_align _ _ Hr b Hb).
      * apply (rp_align _ _ Hr). apply elem_of_app. right. by right.
    + rewrite map_app, app_comm_cons. apply elem_of_app. left. rewrite Hpr. apply last_elem.
  - done.
  - split; [lia|]. split; [rewrite Hend; apply (rp_top _ _ Hr b Hb)|apply mod16_add, (rp_align _ _ Hr b Hb)].
  - apply upd_eq.
  - intros x. rewrite Hend, !cover_app, !cover_cons. unfold hdr, bend, sizeof_Header. cbn.
    assert ((b.1 <= x < b.1 + 16 * b.2) <-> (b.1 <= x < b.1 + 16 * (b.2 - n)) \/ (b.1 + 16 * (b.2 - n) <= x < b.1 + 16 * b.2)) as -> by lia. tauto.
  - intros x Hx. rewrite Hend in Hx. rewrite cover_app, cover_cons. intros Hc.
    assert (~ cover (B1 ++ B2) x) as Hno by (eapply spaced_disjoint; [exact Hs|lia]). rewrite cover_app in Hno.
    unfold hdr, bend, sizeof_Header in *. cbn in Hc. destruct Hc as [Hc|[Hc|Hc]]; [tauto|lia|tauto].
  - intros a Ha Hc. rewrite !upd_ne; [done| |]; intros ->; apply Hc; exists b; (split; [done|]); unfold bend, hdr, sizeof_Header in *; lia.
Qed.
End Take.

(** ** The search of malloc *)

Section Scan.
Context (s : heap) (B : list (Z * Z)) (Hr : rep s B) (Hmax : brk s <= heap_max).
Context (nunits : Z) (Hn : 0 < nunits < 2 ^ 32) (fuel : nat).
Notation L := (base :: map fst B).
Notation step := (malloc_step mem_ok fuel nunits).

Lemma L_NoDup : NoDup L.
Proof. apply spaced_NoDup, Hr. Qed.
Lemma L_pos q : q ∈ L -> 0 < q.
Proof.
  rewrite elem_of_cons. intros [->|Hq]; [done|]. apply list_elem_of_fmap in Hq as (b & -> & Hb).
  apply (spaced_above _ _ b (rp_space _ _ Hr)) in Hb. lia.
Qed.

Lemma take_step prevp p : prevp ∈ L -> h_ptr s prevp = p -> nunits <= h_size s p ->
  exists hdr s' B', step (prevp, p) s = Ret (inr (hdr + sizeof_Header)) s' /\ taken s s' B B' hdr nunits.
Proof.
  intros Hpr Hp Hfit. pose proof L_NoDup as Hd. apply NoDup_cons in Hd as [Hd1 Hd2].
  destruct (linked_next _ _ _ _ _ (rp_link _ _ Hr) Hpr) as [E|Hin]; rewrite Hp in *.
  { rewrite E in Hfit. pose proof (rp_size _ _ Hr (base, 0)) as H. cbn in H. rewrite H in Hfit by (by left). lia. }
  apply list_elem_of_fmap in Hin as (b & -> & Hb). pose proof Hb as Hb'. apply list_elem_of_split in Hb as (B1 & B2 & EB).
  assert (h_size s b.1 = b.2) as Es by (apply (rp_size _ _ Hr); by right). rewrite Es in Hfit.
  assert (prevp = List.last (base :: map fst B1) 0) as Elast.
  { apply (linked_inj (h_ptr s) (map fst B) base base); [apply Hr|done|done|done| |].
    - rewrite EB, map_app, app_comm_cons. apply elem_of_app. left. apply last_elem.
    - rewrite Hp. symmetry. pose proof (rp_link _ _ Hr) as Hl. rewrite EB, map_app in Hl. apply linked_app in Hl as [Hl _].
      by apply linked_last in Hl. }
  assert (b.2 <= 2 ^ 32) as Hbig.
  { pose proof (rp_top _ _ Hr b Hb'). pose proof (spaced_above _ _ b (rp_space _ _ Hr) Hb'). unfold bend, sizeof_Header, heap_max in *. lia. }
  unfold malloc_step, get_size, get_ptr, set_size, set_ptr, set_freep, bind, gets, modify, ret. cbn [obind]. rewrite Es.
  rewrite (proj2 (Z.leb_le nunits b.2)) by done. destruct (Z.eqb_spec b.2 nunits) as [E|E]; cbn.
  - exists b.1. eexists. exists (B1 ++ B2). split; [done|]. rewrite EB. apply take_whole; [by rewrite <- EB|done|done].
  - rewrite upd_eq, (u32_small (b.2 - nunits)) by lia.
    exists (b.1 + sizeof_Header * (b.2 - nunits)). eexists. exists (B1 ++ (b.1, b.2 - nunits) :: B2). split; [done|].
    rewrite EB. apply take_tail; [by rewrite <- EB|done|lia|lia].
Qed.

Lemma skip_step prevp p : h_size s p < nunits -> p <> freep s -> p <> 0 -> step (prevp, p) s = Ret (inl (p, h_ptr s p)) s.
Proof.
  intros H1 H2 H3. unfold malloc_step, get_size, get_ptr, bind, gets, ret. cbn [obind].
  rewrite (proj2 (Z.leb_gt nunits _)) by done. rewrite (proj2 (Z.eqb_neq p (freep s))) by done. cbn [obind].
  by rewrite (proj2 (Z.eqb_neq p 0)).
Qed.

(** A walk that ends at [freep]. *)
Lemma scan_path : forall xs prevp p f, linked (h_ptr s) p xs (freep s) -> prevp ∈ L -> h_ptr s prevp = p ->
  (forall x, x ∈ p :: xs -> x ∈ L /\ x <> freep s) -> (length xs < f)%nat ->
  (exists hdr s' B', loop f step (prevp, p) s = Ret (hdr + sizeof_Header) s' /\ taken s s' B B' hdr nunits) \/
  ((forall x, x ∈ p :: xs -> h_size s x < nunits) /\
   exists q, q ∈ L /\ h_ptr s q = freep s /\ loop f step (prevp, p) s = loop (f - S (length xs)) step (q, freep s) s).
Proof.
  induction xs as [|x xs IH]; intros prevp p f Hl Hpr Hp Hin Hf; (destruct f as [|f]; [lia|]);
    (destruct (decide (nunits <= h_size s p)) as [Hfit|Hno];
     [left; destruct (take_step prevp p Hpr Hp Hfit) as (hdr & s' & B' & E & Ht); exists hdr, s', B'; split; [by apply loop_inr|done]|]);
    (destruct (Hin p) as [HpL Hpf]; [by left|]);
    pose proof (L_pos p HpL); (rewrite (loop_inl _ _ _ (p, h_ptr s p) s) by (apply skip_step; lia)).
  - cbn in Hl. right. split; [intros x Hx; apply list_elem_of_singleton in Hx as ->; lia|].
    exists p. rewrite Hl. replace (S f - S (length []))%nat with f by (cbn; lia). done.
  - cbn in Hl. destruct Hl as [Hl1 Hl2]. rewrite Hl1. cbn in Hf.
    destruct (IH p x f Hl2 HpL Hl1) as [Hok|[Hall (q & H1 & H2 & H3)]]; [|lia|by left|right].
    + intros y Hy. apply Hin. by right.
    + split; [intros y Hy; apply elem_of_cons in Hy as [->|Hy]; [lia|by apply Hall]|].
      exists q. split; [done|]. split; [done|]. rewrite H3. done.
Qed.

Lemma rotate : exists xs, linked (h_ptr s) (freep s) xs (freep s) /\ (freep s :: xs) ≡ₚ L.
Proof.
  pose proof (rp_link _ _ Hr) as Hl. pose proof (rp_freep _ _ Hr) as Hf. apply elem_of_cons in Hf as [E|Hf].
  - rewrite E. by exists (map fst B).
  - apply list_elem_of_split in Hf as (l1 & l2 & E). rewrite E in Hl. apply linked_app in Hl as [H1 H2].
    exists (l2 ++ base :: l1). split; [by apply linked_app|]. rewrite E. apply (Permutation_app_comm (freep s :: l2) (base :: l1)).
Qed.

(** Once round the list: a block is taken, or the walk is back at [freep]
    and no other block fits. *)
Lemma scan_round f : (length B < f)%nat ->
  (exists hdr s' B', loop f step (freep s, h_ptr s (freep s)) s = Ret (hdr + sizeof_Header) s' /\ taken s s' B B' hdr nunits) \/
  ((forall b, b ∈ B -> b.1 <> freep s -> b.2 < nunits) /\
   exists q, q ∈ L /\ h_ptr s q = freep s /\
     loop f step (freep s, h_ptr s (freep s)) s = loop (f - length B) step (q, freep s) s).
Proof.
  intros Hf. destruct rotate as (xs & Hl & Hp). assert (length xs = length B) as Hlen.
  { apply Permutation_length in Hp. cbn in Hp. rewrite length_map in Hp. lia. }
  assert (NoDup (freep s :: xs)) as Hd by (rewrite Hp; apply L_NoDup). apply NoDup_cons in Hd as [Hd _].
  assert (forall b, b ∈ B -> b.1 <> freep s -> b.1 ∈ xs) as Hxs.
  { intros b Hb Hne. assert (b.1 ∈ freep s :: xs) as Hin; [|by apply elem_of_cons in Hin as [|]].
    rewrite Hp. right. by apply list_elem_of_fmap_2. }
  assert (freep s ∈ L) as HfL by apply Hr. destruct xs as [|x xs]; cbn in Hl.
  - right. split; [intros b Hb Hne; specialize (Hxs b Hb Hne); by apply not_elem_of_nil in Hxs|].
    exists (freep s). cbn in Hlen. rewrite <- Hlen, Nat.sub_0_r, Hl. done.
  - destruct Hl as [Hl1 Hl2]. rewrite Hl1. destruct (scan_path xs (freep s) x f Hl2 HfL Hl1) as [Hok|[Hall Hq]]; [|cbn in Hlen; lia|by left|].
    + intros y Hy. split; [rewrite <- Hp; by right|]. intros ->. done.
    + right. split; [|cbn in Hlen; by rewrite <- Hlen]. intros b Hb Hne. rewrite <- (rp_size _ _ Hr b) by (by right). by apply Hall, Hxs.
Qed.
End Scan.

(** ** malloc *)

(** The break stays above the data, aligned and within memory. *)
Definition brk_ok (s : heap) : Prop := base < brk s <= heap_max /\ brk s mod 16 = 0.

Lemma morecore_spec fuel s B nu : rep s B -> brk_ok s -> 0 < nu < 2 ^ 27 -> (S (length B) < fuel)%nat ->
  (morecore mem_ok fuel nu s = Ret 0 s) \/
  exists s' B', morecore mem_ok fuel nu s = Ret (freep s') s' /\ rep s' B' /\ brk_ok s' /\ brk s <= brk s' /\
    (forall x, cover B' x <-> cover B x \/ brk s <= x < brk s') /\
    (forall a, a < brk s -> a ∉ map fst B -> h_size s' a = h_size s a) /\
    (exists b, b ∈ B' /\ nu <= b.2) /\ (length B' <= S (length B))%nat.
Proof.
  intros Hr [[Hb1 Hb2] Hb3] Hnu Hf. unfold morecore. set (nu' := if nu <? 4096 then 4096 else nu).
  assert (nu <= nu' < 2 ^ 27) as Hnu' by (unfold nu'; destruct (Z.ltb_spec nu 4096); lia). clearbody nu'.
  rewrite i32_small by (unfold sizeof_Header; lia). unfold sbrk, bind, gets, modify, ret. cbn [obind].
  rewrite (proj2 (Z.ltb_ge _ 0)) by (unfold sizeof_Header; lia).
  destruct (mem_ok (brk s) (nu' * sizeof_Header)) eqn:Em; cbn [obind]; [|by left]. right.
  rewrite (proj2 (Z.eqb_neq (brk s) (-1))) by lia. apply Hmem in Em.
  unfold set_size, modify. cbn [obind h_ptr h_size Umalloc.freep Umalloc.brk].
  set (s1 := mkHeap _ _ _ _).
  assert (forall b, b ∈ B -> base < b.1 < brk s) as Hin.
  { intros b Hb. pose proof (rp_top _ _ Hr b Hb). pose proof (spaced_above _ _ b (rp_space _ _ Hr) Hb). unfold bend, sizeof_Header in *. lia. }
  assert (rep s1 B) as Hr1.
  { destruct Hr. split; cbn; try done.
    - intros b Hb. rewrite upd_ne; [auto|]. apply elem_of_cons in Hb as [->|Hb]; [cbn; lia|]. specialize (Hin b Hb). lia.
    - intros b Hb. specialize (rp_top0 b Hb). unfold sizeof_Header. lia. }
  destruct (free_spec fuel s1 B (brk s) nu' Hr1) as (s' & B' & E & []); try done; try (cbn; lia).
  - apply upd_eq.
  - intros x Hx (b & Hb & Hx'). pose proof (rp_top _ _ Hr b Hb). unfold bend in *. lia.
  - rewrite E. cbn [obind]. exists s', B'. cbn in *. split; [done|]. split; [done|].
    split; [split; [rewrite fd_brk0; unfold sizeof_Header in *; lia|rewrite fd_brk0; unfold sizeof_Header; rewrite Z.mul_comm; by apply mod16_add]|].
    split; [rewrite fd_brk0; unfold sizeof_Header; lia|]. split; [intros x; rewrite fd_cover0, fd_brk0, Z.mul_comm; done|].
    split; [|split; [|done]].
    + intros a Ha Hna. rewrite fd_size0 by (done || lia). rewrite upd_ne by lia. done.
    + destruct fd_fits0 as (b & Hb & Hfit). exists b. split; [done|lia].
Qed.

(** What malloc hands out. *)
Record alloced (s s' : heap) (B B' : list (Z * Z)) (hdr n : Z) : Prop := {
  ac_rep : rep s' B';
  ac_brk : brk_ok s' /\ brk s <= brk s';
  ac_range : base < hdr /\ hdr + sizeof_Header * n <= brk s' /\ hdr mod 16 = 0;
  ac_hdr : h_size s' hdr = n;
  ac_cover : forall x, (cover B' x \/ hdr <= x < hdr + sizeof_Header * n) <-> (cover B x \/ brk s <= x < brk s');
  ac_disjoint : forall x, hdr <= x < hdr + sizeof_Header * n -> ~ cover B' x;
  ac_size : forall a, base < a < brk s -> ~ cover B a -> h_size s' a = h_size s a;
}.

Lemma taken_alloced s s' B B' hdr n : brk_ok s -> taken s s' B B' hdr n -> alloced s s' B B' hdr n.
Proof.
  intros Hb []. split; try done.
  - unfold brk_ok in *. rewrite tk_brk0. split; [done|lia].
  - rewrite tk_brk0. done.
  - intros x. rewrite tk_cover0, tk_brk0. split; [tauto|]. intros [?|?]; [done|lia].
  - intros a Ha. apply tk_size0. lia.
Qed.

Lemma malloc_loop_spec fuel f s B nunits : rep s B -> brk_ok s -> 0 < nunits < 2 ^ 27 ->
  (S (length B) < fuel)%nat -> (2 * length B + 4 < f)%nat ->
  (loop f (malloc_step mem_ok fuel nunits) (freep s, h_ptr s (freep s)) s = Ret 0 s) \/
  exists hdr s' B', loop f (malloc_step mem_ok fuel nunits) (freep s, h_ptr s (freep s)) s = Ret (hdr + sizeof_Header) s' /\
    alloced s s' B B' hdr nunits.
Proof.
  intros Hr Hb Hn Hfuel Hf. assert (brk s <= heap_max) as Hmax by apply Hb. assert (0 < nunits < 2 ^ 32) as Hn' by lia.
  destruct (scan_round s B Hr Hmax nunits Hn' fuel f) as [(hdr & s' & B' & E & Ht)|[_ (q & Hq & Hqp & E)]]; [lia| |].
  { right. exists hdr, s', B'. split; [done|by apply taken_alloced]. }
  rewrite E. destruct (f - length B)%nat as [|f1] eqn:Ef; [lia|].
  destruct (decide (nunits <= h_size s (freep s))) as [Hfit|Hno].
  { destruct (take_step s B Hr Hmax nunits Hn' fuel q (freep s) Hq Hqp Hfit) as (hdr & s' & B' & E1 & Ht). right.
    exists hdr, s', B'. rewrite (loop_inr _ _ _ _ _ _ E1). split; [done|by apply taken_alloced]. }
  assert (forall r, morecore mem_ok fuel nunits s = r -> malloc_step mem_ok fuel nunits (q, freep s) s =
    obind r (fun p => if p =? 0 then ret (inr 0) else let* n := get_ptr p in ret (inl (p, n)))) as Estep.
  { intros r <-. unfold malloc_step, get_size, bind at 1, gets at 1. cbn [obind]. rewrite (proj2 (Z.leb_gt _ _)) by lia.
    unfold bind at 1, gets at 1. cbn [obind]. by rewrite Z.eqb_refl. }
  destruct (morecore_spec fuel s B nunits Hr Hb Hn Hfuel) as [Em|(s1 & B1 & Em & Hr1 & Hb1 & Hbrk & Hcov & Hsz & (b & Hbin & Hbfit) & Hlen)].
  { left. by rewrite (loop_inr _ _ _ _ _ _ (Estep _ Em)). }
  assert (freep s1 <> 0) as Hnz by (pose proof (L_pos s1 B1 Hr1 _ (rp_freep _ _ Hr1)); lia).
  specialize (Estep _ Em). cbn [obind] in Estep. rewrite (proj2 (Z.eqb_neq _ _) Hnz) in Estep.
  rewrite (loop_inl _ _ _ _ _ _ Estep). right. assert (brk s1 <= heap_max) as Hmax1 by apply Hb1.
  assert (forall hdr s' B', taken s1 s' B1 B' hdr nunits -> alloced s s' B B' hdr nunits) as Hfin.
  { intros hdr s' B' Ht. apply taken_alloced in Ht; [|done]. destruct Ht. split; try done.
    - split; [apply ac_brk0|]. destruct ac_brk0. lia.
    - intros x. rewrite ac_cover0, Hcov. destruct ac_brk0 as [_ Hle]. split; [intros [[?|?]|?]; [tauto|right; lia|right; lia]|].
      intros [?|?]; [tauto|]. destruct (decide (x < brk s1)); [left; right; lia|right; lia].
    - intros a Ha Hna. rewrite ac_size0; [|lia|rewrite Hcov; intros [?|?]; [done|lia]]. apply Hsz; [lia|].
      intros Hin. apply list_elem_of_fmap in Hin as (c & -> & Hc). apply Hna, cover_start; [done|]. by apply (spaced_above _ _ c (rp_space _ _ Hr)) in Hc as [_ Hc]. }
  destruct (scan_round s1 B1 Hr1 Hmax1 nunits Hn' fuel f1) as [(hdr & s' & B' & E1 & Ht)|[Hall (q1 & Hq1 & Hqp1 & E1)]]; [lia| |].
  { exists hdr, s', B'. split; [done|by apply Hfin]. }
  rewrite E1. destruct (f1 - length B1)%nat as [|f2] eqn:Ef2; [lia|].
  assert (nunits <= h_size s1 (freep s1)) as Hfit1.
  { destruct (decide (b.1 = freep s1)) as [Eb|Nb]; [|specialize (Hall b Hbin Nb); lia].
    rewrite <- Eb, (rp_size _ _ Hr1 b) by (by right). lia. }
  destruct (take_step s1 B1 Hr1 Hmax1 nunits Hn' fuel q1 (freep s1) Hq1 Hqp1 Hfit1) as (hdr & s' & B' & E2 & Ht).
  exists hdr, s', B'. rewrite (loop_inr _ _ _ _ _ _ E2). split; [done|by apply Hfin].
Qed.

(** ** More fuel changes nothing *)

Definition le_m {S A} (m m' : M S A) : Prop := forall s a s', m s = Ret a s' -> m' s = Ret a s'.
Lemma le_refl {S A} (m : M S A) : le_m m m.
Proof. by intros s a s'. Qed.
Definition no_sleep {S A} (m : M S A) : Prop := forall s, match m s with Sleep _ _ _ => False | _ => True end.
Lemma le_bind {S A C} (m m' : M S A) (k k' : A -> M S C) :
  le_m m m' -> (forall a, le_m (k a) (k' a)) -> no_sleep m -> le_m (bind m k) (bind m' k').
Proof.
  intros Hm Hk Hns s a s'. unfold bind. specialize (Hns s). destruct (m s) eqn:E; cbn; try done.
  rewrite (Hm _ _ _ E). cbn. apply Hk.
Qed.
Lemma ns_bind {S A C} (m : M S A) (k : A -> M S C) : no_sleep m -> (forall a, no_sleep (k a)) -> no_sleep (bind m k).
Proof. intros Hm Hk s. unfold bind. specialize (Hm s). destruct (m s); cbn; try done. apply Hk. Qed.
Lemma ns_loop {S A R} fuel (body : A -> M S (A + R)) : (forall a, no_sleep (body a)) -> forall a, no_sleep (loop fuel body a).
Proof. intros Hb. induction fuel as [|f IH]; intros a; [done|]. cbn. apply ns_bind; [done|]. intros [a'|r]; [apply IH|done]. Qed.
Lemma le_loop {S A R} (body body' : A -> M S (A + R)) : (forall a, le_m (body a) (body' a)) -> (forall a, no_sleep (body a)) ->
  forall f f' a, (f <= f')%nat -> le_m (loop f body a) (loop f' body' a).
Proof.
  intros Hb Hns. induction f as [|f IH]; intros f' a Hf; [done|]. destruct f' as [|f']; [lia|]. cbn.
  apply le_bind; [done| |apply Hns]. intros [a'|r]; [apply IH; lia|apply le_refl].
Qed.

Ltac ns := repeat first [done | apply ns_bind; [|intros ?] | case_match].
Lemma search_ns bp p : no_sleep (free_search_step bp p).
Proof. unfold free_search_step. ns. Qed.
Lemma free_ns fuel ap : no_sleep (free fuel ap).
Proof. unfold free. apply ns_bind; [done|]. intros fp. apply ns_bind; [apply ns_loop, search_ns|]. intros p. ns. Qed.
Lemma free_le f f' ap : (f <= f')%nat -> le_m (free f ap) (free f' ap).
Proof.
  intros Hf. unfold free. apply le_bind; [apply le_refl| |done]. intros fp.
  apply le_bind; [apply le_loop; [intros; apply le_refl|apply search_ns|done]| |apply ns_loop, search_ns]. intros p. apply le_refl.
Qed.
Lemma sbrk_ns n : no_sleep (sbrk mem_ok n).
Proof. unfold sbrk. ns. Qed.
Lemma morecore_ns fuel nu : no_sleep (morecore mem_ok fuel nu).
Proof.
  unfold morecore. apply ns_bind; [apply sbrk_ns|]. intros p. case_match; [done|]. apply ns_bind; [done|]. intros _.
  apply ns_bind; [apply free_ns|done].
Qed.
Lemma morecore_le f f' nu : (f <= f')%nat -> le_m (morecore mem_ok f nu) (morecore mem_ok f' nu).
Proof.
  intros Hf. unfold morecore. apply le_bind; [apply le_refl| |apply sbrk_ns]. intros p. case_match; [apply le_refl|].
  apply le_bind; [apply le_refl| |done]. intros _. apply le_bind; [by apply free_le| |apply free_ns]. intros _. apply le_refl.
Qed.
Lemma malloc_step_ns fuel n st : no_sleep (malloc_step mem_ok fuel n st).
Proof.
  destruct st as [prevp p]. unfold malloc_step. apply ns_bind; [done|]. intros ps. case_match.
  - ns.
  - apply ns_bind; [done|]. intros fp. apply ns_bind; [case_match; [apply morecore_ns|done]|]. intros q. by case_match.
Qed.
Lemma malloc_le f f' nbytes : (f <= f')%nat -> le_m (malloc base mem_ok f nbytes) (malloc base mem_ok f' nbytes).
Proof.
  intros Hf. unfold malloc. apply le_bind; [apply le_refl| |done]. intros fp.
  apply le_bind; [apply le_refl| |ns]. intros _.
  apply le_bind; [apply le_refl| |done]. intros prevp. apply le_bind; [apply le_refl| |done]. intros p.
  apply le_loop; [|apply malloc_step_ns|done]. intros [q r]. unfold malloc_step. apply le_bind; [apply le_refl| |done]. intros ps.
  case_match; [apply le_refl|]. apply le_bind; [apply le_refl| |done]. intros fp'.
  apply le_bind; [case_match; [by apply morecore_le|apply le_refl]|intros; apply le_refl|]. case_match; [apply morecore_ns|done].
Qed.

(** The routine returns, given enough fuel. *)
Definition returns {A} (m : nat -> M heap A) (s : heap) (a : A) (s' : heap) : Prop :=
  exists N, forall fuel, (N <= fuel)%nat -> m fuel s = Ret a s'.
Lemma returns_intro {A} (m : nat -> M heap A) s a s' N :
  (forall f f', (f <= f')%nat -> le_m (m f) (m f')) -> m N s = Ret a s' -> returns m s a s'.
Proof. intros Hle E. exists N. intros f Hf. by apply (Hle N f Hf). Qed.
Lemma returns_fun {A} (m : nat -> M heap A) s a s' b s'' : returns m s a s' -> returns m s b s'' -> a = b /\ s' = s''.
Proof.
  intros [N H] [N' H']. specialize (H (Nat.max N N')). specialize (H' (Nat.max N N')).
  rewrite H in H' by lia. specialize (H' ltac:(lia)). by injection H'.
Qed.

(** ** A client of the allocator *)

(** The state before the first malloc, or one with a free list. *)
Definition ready (s : heap) (B : list (Z * Z)) : Prop := rep s B \/ (freep s = 0 /\ B = []).

Lemma nunits_bounds nbytes : 0 <= nbytes < 2 ^ 30 ->
  0 < nunits_of nbytes < 2 ^ 27 /\ nbytes + sizeof_Header <= sizeof_Header * nunits_of nbytes.
Proof.
  intros Hn. unfold nunits_of, sizeof_Header.
  assert (0 <= (nbytes + 16 - 1) / 16 < 2 ^ 27 - 1) as Hq by (split; [apply Z.div_pos; lia|apply Z.div_lt_upper_bound; lia]).
  rewrite u32_small by lia. pose proof (Z.mod_pos_bound (nbytes + 16 - 1) 16). pose proof (Z.div_mod (nbytes + 16 - 1) 16). lia.
Qed.

Lemma malloc_spec s B nbytes : ready s B -> brk_ok s -> 0 <= nbytes < 2 ^ 30 -> exists r s' B',
  returns (fun f => malloc base mem_ok f nbytes) s r s' /\
  ((r = 0 /\ rep s' B /\ brk s' = brk s /\ forall a, base < a -> h_size s' a = h_size s a) \/
   (exists hdr, r = hdr + sizeof_Header /\ alloced s s' B B' hdr (nunits_of nbytes))).
Proof.
  intros Hrd Hb Hn. pose proof (nunits_bounds nbytes Hn) as [Hnu _].
  assert (exists s0, rep s0 B /\ brk s0 = brk s /\ (forall a, base < a -> h_size s0 a = h_size s a) /\
    forall f, malloc base mem_ok f nbytes s = loop f (malloc_step mem_ok f (nunits_of nbytes)) (freep s0, h_ptr s0 (freep s0)) s0) as (s0 & Hr & Eb & Es & Em).
  { destruct Hrd as [Hr|[E ->]].
    - exists s. split; [done|]. split; [done|]. split; [done|]. intros f. unfold malloc, bind at 1, gets at 1. cbn [obind].
      rewrite (proj2 (Z.eqb_neq (freep s) 0)); [done|]. pose proof (L_pos s B Hr _ (rp_freep _ _ Hr)). lia.
    - exists (mkHeap (upd (h_ptr s) base base) (upd (h_size s) base 0) base (brk s)). split; [|split; [done|split]].
      + split; cbn; try (by intros b Hb'; apply not_elem_of_nil in Hb'); [apply upd_eq| |done|by left].
        intros b Hb'. apply list_elem_of_singleton in Hb' as ->. apply upd_eq.
      + intros a Ha. cbn. apply upd_ne. lia.
      + intros f. unfold malloc, bind at 1, gets at 1. cbn [obind]. by rewrite E. }
  assert (brk_ok s0) as Hb0 by (unfold brk_ok; by rewrite Eb).
  set (N := (2 * length B + 5)%nat). destruct (malloc_loop_spec N N s0 B (nunits_of nbytes) Hr Hb0 Hnu) as [E|(hdr & s' & B' & E & Ha)]; [lia|lia| |].
  - exists 0, s0, B. split; [eapply (returns_intro _ _ _ _ N); [intros; by apply malloc_le|by rewrite Em]|]. left. done.
  - exists (hdr + sizeof_Header), s', B'. split; [eapply (returns_intro _ _ _ _ N); [intros; by apply malloc_le|by rewrite Em]|].
    right. exists hdr. split; [done|]. destruct Ha. rewrite Eb in *. split; try done.
    intros a Ha Hna. rewrite ac_size0 by done. apply Es. lia.
Qed.

Notation blk b x := (b.1 <= x < bend b).

(** A program that frees only blocks it was given; [A] is what it holds. *)
Inductive client : heap -> list (Z * Z) -> Prop :=
| cl_start s : freep s = 0 -> brk_ok s -> client s []
| cl_malloc s A nbytes r s' : client s A -> 0 <= nbytes < 2 ^ 30 ->
    returns (fun f => malloc base mem_ok f nbytes) s r s' ->
    client s' (if decide (r = 0) then A else (r - sizeof_Header, nunits_of nbytes) :: A)
| cl_free s A1 b A2 s' : client s (A1 ++ b :: A2) ->
    returns (fun f => free f (b.1 + sizeof_Header)) s tt s' -> client s' (A1 ++ A2).

Record holds (s : heap) (B A : list (Z * Z)) : Prop := {
  ho_ready : rep s B \/ (freep s = 0 /\ B = [] /\ A = []);
  ho_brk : brk_ok s;
  ho_blocks : forall b, b ∈ A -> h_size s b.1 = b.2 /\ 0 < b.2 /\ base < b.1 /\ bend b <= brk s /\ b.1 mod 16 = 0;
  ho_free : forall b x, b ∈ A -> blk b x -> ~ cover B x;
  ho_disjoint : forall A1 b A2 c x, A = A1 ++ b :: A2 -> c ∈ A1 ++ A2 -> blk b x -> ~ blk c x;
}.

Lemma holds_malloc s B A nbytes : holds s B A -> 0 <= nbytes < 2 ^ 30 ->
  exists r s' B', returns (fun f => malloc base mem_ok f nbytes) s r s' /\
    holds s' B' (if decide (r = 0) then A else (r - sizeof_Header, nunits_of nbytes) :: A) /\
    (r <> 0 -> r mod 16 = 0 /\ base < r - sizeof_Header /\ r + nbytes <= brk s' /\
       forall b x, b ∈ A -> blk b x -> ~ (r - sizeof_Header <= x < r + nbytes)).
Proof.
  intros [Hrd' Hb HA Hfree Hdis] Hn. pose proof (nunits_bounds nbytes Hn) as [Hnu Hsz].
  assert (ready s B) as Hrd by (destruct Hrd' as [|(? & ? & _)]; [by left|by right]).
  destruct (malloc_spec s B nbytes Hrd Hb Hn) as (r & s' & B' & Hret & [(-> & Hr & Eb & Es)|(hdr & -> & [])]).
  { exists 0, s', B. split; [done|]. rewrite decide_True by done. split; [|done]. split; [by left|unfold brk_ok; by rewrite Eb| |done|done].
    intros b Hin. rewrite Eb, Es by (by apply HA). by apply HA. }
  exists (hdr + sizeof_Header), s', B'. split; [done|]. assert (hdr + sizeof_Header <> 0) by (unfold sizeof_Header; lia).
  rewrite decide_False by done. replace (hdr + sizeof_Header - sizeof_Header) with hdr by lia.
  destruct ac_range0 as (R1 & R2 & R3). destruct ac_brk0 as [Hb' Hle].
  assert (forall b x, b ∈ A -> blk b x -> ~ (hdr <= x < hdr + sizeof_Header * nunits_of nbytes)) as Hnew.
  { intros b x Hin Hx Hx'. destruct (proj1 (ac_cover0 x) (or_intror Hx')) as [Hc|Hc]; [by apply (Hfree b x)|]. apply HA in Hin. lia. }
  split; [|intros _; split; [unfold sizeof_Header; rewrite <- (Z.mul_1_r 16); by apply mod16_add|split; [done|split; [lia|]]];
           intros b x Hin Hx Hx'; apply (Hnew b x Hin Hx); lia].
  split; [by left|done| | |].
  - intros b Hin. apply elem_of_cons in Hin as [->|Hin]; [cbn; unfold bend; cbn; split_and!; done || lia|].
    destruct (HA b Hin) as (H1 & H2 & H3 & H4 & H5). split_and!; try done; [|lia].
    rewrite ac_size0; [done|unfold bend, sizeof_Header in *; lia|]. apply (Hfree b); [done|]. unfold bend, sizeof_Header. lia.
  - intros b x Hin Hx Hc. apply elem_of_cons in Hin as [->|Hin]; [by apply (ac_disjoint0 x)|].
    destruct (proj1 (ac_cover0 x) (or_introl Hc)) as [Hc'|Hc']; [by apply (Hfree b x)|]. apply HA in Hin. lia.
  - intros A1 b A2 c x E Hc Hx Hxc. destruct A1 as [|a A1]; cbn in E; injection E as <- E.
    + subst A2. by apply (Hnew c x).
    + apply elem_of_cons in Hc as [->|Hc]; [apply (Hnew b x); [rewrite E; apply elem_of_app; right; by left|done|done]|].
      by apply (Hdis A1 b A2 c x).
Qed.

Lemma holds_free s B A1 b A2 : holds s B (A1 ++ b :: A2) ->
  exists s' B', returns (fun f => free f (b.1 + sizeof_Header)) s tt s' /\ holds s' B' (A1 ++ A2).
Proof.
  intros [Hrd Hb HA Hfree Hdis]. assert (b ∈ A1 ++ b :: A2) as Hin by (apply elem_of_app; right; by left).
  destruct (HA b Hin) as (H1 & H2 & H3 & H4 & H5).
  assert (forall c, c ∈ A1 ++ A2 -> c ∈ A1 ++ b :: A2) as Hsub by (intros c; rewrite !elem_of_app, elem_of_cons; tauto).
  destruct Hrd as [Hr|(_ & _ & E)]; [|by destruct A1].
  destruct (free_spec (S (S (length B))) s B b.1 b.2 Hr H3 H5 H1 H2) as (s' & B' & E & []); [|done|apply Hb|lia|].
    { intros x Hx. apply (Hfree b x); [done|]. unfold bend. lia. }
    exists s', B'. split; [eapply (returns_intro _ _ _ _ (S (S (length B)))); [intros; by apply free_le|done]|].
    split; [by left|unfold brk_ok; by rewrite fd_brk0| | |].
    + intros c Hc. destruct (HA c (Hsub c Hc)) as (C1 & C2 & C3 & C4 & C5). rewrite fd_brk0. split_and!; try done.
      assert (blk c c.1) as Hcc by (unfold bend, sizeof_Header; lia). rewrite fd_size0; [done| |].
      * intros Ec. apply (Hdis A1 b A2 c c.1 eq_refl Hc); [|done]. rewrite Ec. unfold bend, sizeof_Header. lia.
      * intros Hm. apply list_elem_of_fmap in Hm as (d & Ed & Hd). apply (Hfree c c.1 (Hsub c Hc) Hcc). rewrite Ed. apply cover_start; [done|].
        by apply (spaced_above _ _ d (rp_space _ _ Hr)) in Hd as [_ Hd].
    + intros c x Hc Hx. rewrite fd_cover0. intros [Hcov|Hx']; [by apply (Hfree c x (Hsub c Hc) Hx)|].
      apply (Hdis A1 b A2 c x eq_refl Hc); [unfold bend; lia|done].
    + intros C1 c C2 d x E' Hd Hx Hxd.
      assert (exists D1 D2, A1 ++ b :: A2 = D1 ++ c :: D2 /\ d ∈ D1 ++ D2) as (D1 & D2 & ED & HdD).
      { apply app_eq_inv in E' as [(k & Ek & E2)|(k & Ek & E2)].
        - destruct k as [|z k].
          + cbn in E2. rewrite app_nil_r in Ek. subst. exists (C1 ++ [b]), C2. rewrite <- (assoc_L (++)). split; [done|].
            rewrite !elem_of_app in *. tauto.
          + cbn in E2. injection E2 as <- E2. subst. exists C1, (k ++ b :: A2). rewrite <- (assoc_L (++)). split; [done|].
            rewrite !elem_of_app, elem_of_cons in *. tauto.
        - subst. exists (A1 ++ b :: k), C2. rewrite <- (assoc_L (++)). cbn. split; [done|]. rewrite !elem_of_app, !elem_of_cons in *. tauto. }
      by apply (Hdis D1 c D2 d x ED HdD Hx).
Qed.

Lemma client_holds s A : client s A -> exists B, holds s B A.
Proof.
  induction 1 as [s Hf Hb|s A nbytes r s' _ [B IH] Hn Hret|s A1 b A2 s' _ [B IH] Hret].
  - exists []. split; [by right|done|..]; intros; try (by match goal with H : _ ∈ [] |- _ => apply not_elem_of_nil in H end).
    by destruct A1.
  - destruct (holds_malloc s B A nbytes IH Hn) as (r' & s1 & B' & Hret' & Hh & _).
    destruct (returns_fun _ _ _ _ _ _ Hret Hret') as [-> ->]. by exists B'.
  - destruct (holds_free s B A1 b A2 IH) as (s1 & B' & Hret' & Hh). destruct (returns_fun _ _ _ _ _ _ Hret Hret') as [_ ->]. by exists B'.
Qed.

(** C31: through any history of malloc calls (of less than 1 GB) and frees of
    blocks handed out, malloc and free terminate; malloc returns 0 or a
    16-byte aligned block of the requested size inside the process's heap
    that overlaps no block still held nor its header, and the blocks held
    never overlap. *)
Theorem malloc_blocks_disjoint s A : client s A ->
  (forall A1 b A2 c x, A = A1 ++ b :: A2 -> c ∈ A1 ++ A2 -> b.1 <= x < bend b -> ~ (c.1 <= x < bend c)) /\
  (forall nbytes, 0 <= nbytes < 2 ^ 30 -> exists r s', returns (fun f => malloc base mem_ok f nbytes) s r s' /\
     (r <> 0 -> r mod 16 = 0 /\ base < r - sizeof_Header /\ r + nbytes <= brk s' /\
        forall b x, b ∈ A -> b.1 <= x < bend b -> ~ (r - sizeof_Header <= x < r + nbytes))) /\
  (forall b, b ∈ A -> exists s', returns (fun f => free f (b.1 + sizeof_Header)) s tt s').
Proof.
  intros Hc. destruct (client_holds s A Hc) as [B Hh]. split; [apply Hh|]. split.
  - intros nbytes Hn. destruct (holds_malloc s B A nbytes Hh Hn) as (r & s' & _ & Hret & _ & Hr). by exists r, s'.
  - intros b Hb. apply list_elem_of_split in Hb as (A1 & A2 & ->). destruct (holds_free s B A1 b A2 Hh) as (s' & _ & Hret & _). by exists s'.
Qed.
End Proofs.

(** A process with 64 kB below its break of 128 kB, memory up to 16 MB. *)
Lemma malloc_blocks_disjoint_witness :
  let mem_ok b n := b + n <=? 16777216 in let s := mkHeap (fun _ => 0) (fun _ => 0) 0 131072 in
  exists r s', returns (fun f => malloc 65536 mem_ok f 100) s r s' /\ (r <> 0 -> r mod 16 = 0 /\ 65536 < r - 16).
Proof.
  intros mem_ok s. assert (client 65536 mem_ok s []) as Hc.
  { constructor; [reflexivity|]. split; [|reflexivity]. unfold heap_max. cbn. lia. }
  destruct (malloc_blocks_disjoint 65536 mem_ok) with (s := s) (A := @nil (Z * Z)) as (_ & Hm & _); [lia| |exact Hc|].
  - intros b n H. unfold mem_ok in H. apply Z.leb_le in H. unfold heap_max. lia.
  - destruct (Hm 100) as (r & s' & Hret & Hr); [lia|]. exists r, s'. split; [exact Hret|]. intros Hne. destruct (Hr Hne) as (H1 & H2 & _). by split.
Defined.

(** malloc of 2^32-1 bytes succeeds although sbrk grew the process by 16
    bytes only: the size passed to sbrk is truncated to an int, so the block
    returned reaches far beyond the heap. *)
Theorem malloc_huge_overruns :
  exists r s', malloc 65536 (fun b n => b + n <=? 16777216) 10 (2 ^ 32 - 1) (mkHeap (fun _ => 0) (fun _ => 0) 0 131072) = Ret r s' /\
    r = 131088 /\ brk s' = 131088.
Proof. eexists _, _. split; [vm_compute; reflexivity|]. done. Qed.
