(* ===== verification/Conc.v ===== *)
(** * Rely-guarantee reasoning for sleeping kernel threads

    The pool of Prelude with an environment (devices, interrupt handlers) and
    with what each thread may rely on while it sleeps: [R t s s'] holds of any
    two states between which only others have run.  A thread runs from one
    sleep to the next, keeps the invariant [I] and guarantees the others what
    they rely on. *)

From S2P Require Import Prelude.

Section RelyGuarantee.
Context {S T : Type} (I : S -> Prop) (R : T -> S -> S -> Prop) (E : S -> S -> Prop).
Context (R_refl : forall t s, R t s s)
        (R_trans : forall t s1 s2 s3, R t s1 s2 -> R t s2 s3 -> R t s1 s3)
        (E_inv : forall s s', I s -> E s s' -> I s')
        (E_rely : forall t s s', I s -> E s s' -> R t s s').

(** The run of thread [t] that entered its present segment in [s0]. *)
Fixpoint rg {A} (t : T) (Q : A -> S -> Prop) (s0 : S) (o : outcome S A) : Prop :=
  match o with
  | Ret a s => (I s /\ forall t', t' <> t -> R t' s0 s) /\ Q a s
  | Panic _ => False
  | Sleep _ s k => (I s /\ forall t', t' <> t -> R t' s0 s) /\ forall s', I s' -> R t s s' -> rg t Q s' (k s')
  | NoFuel => True
  end.

(** A paused thread may go on from any state reached while it slept. *)
Definition paused (s : S) (p : T * thread S) : Prop :=
  exists s0, R p.1 s0 s /\ forall s', I s' -> R p.1 s0 s' -> rg p.1 (fun _ _ => True) s' (p.2 s').

Inductive sys_step : list (T * thread S) * S -> list (T * thread S) * S -> Prop :=
| sys_env ts s s' : E s s' -> sys_step (ts, s) (ts, s')
| sys_ret pre t m post s s' : m s = Ret tt s' -> sys_step (pre ++ (t, m) :: post, s) (pre ++ post, s')
| sys_sleep pre t m post s c s' k : m s = Sleep c s' k ->
    sys_step (pre ++ (t, m) :: post, s) (pre ++ (t, k) :: post, s').

Definition sys_ok (p : list (T * thread S) * S) : Prop :=
  I p.2 /\ NoDup (map fst p.1) /\ Forall (paused p.2) p.1.

Lemma paused_rely s s' p : R p.1 s s' -> paused s p -> paused s' p.
Proof. intros HR (s0 & H0 & Hk). exists s0. split; [by eapply R_trans|done]. Qed.

Lemma others_rely (ts : list (T * thread S)) s s' :
  Forall (paused s) ts -> (forall p, p ∈ ts -> R p.1 s s') -> Forall (paused s') ts.
Proof. rewrite !Forall_forall. intros H HR p Hp. eapply paused_rely; [by apply HR|by apply H]. Qed.

Lemma sys_step_ok p p' : sys_step p p' -> sys_ok p -> sys_ok p'.
Proof.
  intros Hs (HI & Hd & Hp). destruct Hs as [ts s s' He|pre t m post s s' Em|pre t m post s c s' k Em]; cbn in *.
  - split; [by eapply E_inv|]. split; [done|]. eapply others_rely; [done|]. intros. by apply E_rely.
  - rewrite map_app in Hd. cbn in Hd. apply Forall_app in Hp as [H1 H2]. apply Forall_cons in H2 as [(s0 & H0 & Hk) H2].
    specialize (Hk s HI H0). cbn in Hk. rewrite Em in Hk. destruct Hk as [[HI' HG] _].
    pose proof Hd as Hd'. apply NoDup_app in Hd as (D1 & D2 & D3). apply NoDup_cons in D3 as [D3 D4].
    assert (forall q, q ∈ pre ++ post -> q.1 <> t) as Hne.
    { intros q Hq Eq. apply elem_of_app in Hq as [Hq|Hq].
      - apply (D2 t); [rewrite <- Eq; by apply list_elem_of_fmap_2|by left].
      - apply D3. rewrite <- Eq. by apply list_elem_of_fmap_2. }
    split; [done|]. split; [cbn; rewrite map_app; apply NoDup_app; split_and!; try done; intros x Hx; specialize (D2 x Hx); by apply not_elem_of_cons in D2 as [_ D2]|].
    eapply others_rely; [by apply Forall_app|]. intros q Hq. by apply HG, Hne.
  - rewrite map_app in Hd. cbn in Hd. apply Forall_app in Hp as [H1 H2]. apply Forall_cons in H2 as [(s0 & H0 & Hk) H2].
    specialize (Hk s HI H0). cbn in Hk. rewrite Em in Hk. destruct Hk as [[HI' HG] Hgo].
    pose proof Hd as Hd'. apply NoDup_app in Hd as (D1 & D2 & D3). apply NoDup_cons in D3 as [D3 D4].
    assert (forall q, q ∈ pre ++ post -> q.1 <> t) as Hne.
    { intros q Hq Eq. apply elem_of_app in Hq as [Hq|Hq].
      - apply (D2 t); [rewrite <- Eq; by apply list_elem_of_fmap_2|by left].
      - apply D3. rewrite <- Eq. by apply list_elem_of_fmap_2. }
    split; [done|]. split; [cbn; by rewrite map_app|]. cbn.
    assert (Forall (paused s') (pre ++ post)) as Ho.
    { eapply others_rely; [by apply Forall_app|]. intros q Hq. by apply HG, Hne. }
    apply Forall_app in Ho as [Ho1 Ho2]. apply Forall_app. split; [done|]. apply Forall_cons. split; [|done].
    exists s'. split; [apply R_refl|done].
Qed.

Lemma sys_ok_no_panic p : sys_ok p -> forall t m msg, (t, m) ∈ p.1 -> m p.2 <> Panic msg.
Proof.
  intros (HI & _ & Hp) t m msg Hin E'. rewrite Forall_forall in Hp. destruct (Hp _ Hin) as (s0 & H0 & Hk).
  specialize (Hk p.2 HI H0). cbn in Hk. by rewrite E' in Hk.
Qed.

(** Every interleaving keeps the invariant and never panics. *)
Lemma sys_safe p p' : rtc sys_step p p' -> sys_ok p -> sys_ok p' /\ forall t m msg, (t, m) ∈ p'.1 -> m p'.2 <> Panic msg.
Proof.
  intros Hs Hp. assert (sys_ok p') as Hok by (induction Hs; eauto using sys_step_ok).
  split; [done|by apply sys_ok_no_panic].
Qed.

(** ** Rules *)

Lemma rg_mono {A} t (P Q : A -> S -> Prop) o : forall s0, rg t P s0 o -> (forall a s, P a s -> Q a s) -> rg t Q s0 o.
Proof. induction o as [| |c s k IH|]; intros s0; cbn; [intros [? ?] HPQ; auto|done|intros [? H] HPQ; split; eauto|done]. Qed.

Lemma rg_ret_step {A} t (Q : A -> S -> Prop) s0 s a :
  I s -> (forall t', t' <> t -> R t' s0 s) -> Q a s -> rg t Q s0 (Ret a s).
Proof. by intros. Qed.
End RelyGuarantee.

(** Straight-line code inside a segment, and a sleep. *)
Lemma rg_bind_wp {S T A B} (I : S -> Prop) (R : T -> S -> S -> Prop) t (m : M S A) (k : A -> M S B) Q s0 s :
  wp m (fun a s' => rg I R t Q s0 (k a s')) s -> rg I R t Q s0 (bind m k s).
Proof. unfold wp, bind. destruct (m s); cbn; done. Qed.

Lemma rg_sleep {S T B} (I : S -> Prop) (R : T -> S -> S -> Prop) t c (l : lens S spinlock) (k : M S B) Q s0 s :
  view l s = true -> I (put l false s) -> (forall t', t' <> t -> R t' s0 (put l false s)) ->
  (forall s', I s' -> R t (put l false s) s' -> view l s' = false /\ rg I R t Q s' (k (put l true s'))) ->
  rg I R t Q s0 (bind (sleep c l) (fun _ => k) s).
Proof.
  intros Hl HI HG Hk. unfold sleep, release, bind, gets. rewrite Hl. cbn. split; [done|].
  intros s' HI' HR. destruct (Hk s' HI' HR) as [Hf Hgo]. unfold acquire, bind, gets. by rewrite Hf.
Qed.
