(* ===== verification/Virtio.v ===== *)
(** * kernel/virtio_disk.c: the disk driver

    The driver's descriptors and rings, the requests and the buffers it hands
    to the device.  DMA addresses are symbolic: the request header or the
    status byte of a descriptor slot, or the data of a buffer.  The device is
    hardware: its two steps, taking a request from the avail ring and
    completing one, follow sections 2.6 and 5.2 of the virtio specification
    the driver cites; requests complete in any order. *)

From Stdlib Require Import ZArith Lia.
From S2P Require Import Prelude Params Bio Conc.

Definition NUM : Z := 8.
Definition VRING_DESC_F_NEXT : Z := 1.
Definition VRING_DESC_F_WRITE : Z := 2.
Definition VIRTIO_BLK_T_IN : Z := 0.
Definition VIRTIO_BLK_T_OUT : Z := 1.

Inductive daddr := ANull | AOps (i : Z) | AData (b : nat) | AStatus (i : Z).
Record virtq_desc := mkDesc { d_addr : daddr; d_len : Z; d_flags : Z; d_next : Z }.
Record virtio_blk_req := mkReq { q_type : Z; q_reserved : Z; q_sector : Z }.

(** struct disk with the rings, [b->disk], [b->data] and [b->blockno] of the
    buffers, and the device: its blocks by first sector, how far it has read
    the avail ring and the requests it is working on. *)
Record vdisk := mkVd {
  vdisk_lock : spinlock;
  v_free : Z -> bool;
  v_desc : Z -> virtq_desc;
  v_ops : Z -> virtio_blk_req;
  info_b : Z -> option nat;
  info_status : Z -> Z;
  avail_ring : Z -> Z;
  avail_idx : Z;
  used_ring : Z -> Z;
  used_idx_dev : Z;
  v_used_idx : Z;
  buf_disk : nat -> bool;
  buf_data : nat -> list Z;
  buf_blockno : nat -> Z;
  platter : Z -> list Z;
  dev_seen : Z;
  dev_busy : list Z;
  v_woken : list chan;
}.

Definition set_vdisk_lock (x : spinlock) (s : vdisk) : vdisk :=
  mkVd x (v_free s) (v_desc s) (v_ops s) (info_b s) (info_status s) (avail_ring s) (avail_idx s)
    (used_ring s) (used_idx_dev s) (v_used_idx s) (buf_disk s) (buf_data s) (buf_blockno s)
    (platter s) (dev_seen s) (dev_busy s) (v_woken s).
Definition set_v_free (x : Z -> bool) (s : vdisk) : vdisk :=
  mkVd (vdisk_lock s) x (v_desc s) (v_ops s) (info_b s) (info_status s) (avail_ring s)
    (avail_idx s) (used_ring s) (used_idx_dev s) (v_used_idx s) (buf_disk s) (buf_data s)
    (buf_blockno s) (platter s) (dev_seen s) (dev_busy s) (v_woken s).
Definition set_v_desc (x : Z -> virtq_desc) (s : vdisk) : vdisk :=
  mkVd (vdisk_lock s) (v_free s) x (v_ops s) (info_b s) (info_status s) (avail_ring s)
    (avail_idx s) (used_ring s) (used_idx_dev s) (v_used_idx s) (buf_disk s) (buf_data s)
    (buf_blockno s) (platter s) (dev_seen s) (dev_busy s) (v_woken s).
Definition set_v_ops (x : Z -> virtio_blk_req) (s : vdisk) : vdisk :=
  mkVd (vdisk_lock s) (v_free s) (v_desc s) x (info_b s) (info_status s) (avail_ring s)
    (avail_idx s) (used_ring s) (used_idx_dev s) (v_used_idx s) (buf_disk s) (buf_data s)
    (buf_blockno s) (platter s) (dev_seen s) (dev_busy s) (v_woken s).
Definition set_info_b (x : Z -> option nat) (s : vdisk) : vdisk :=
  mkVd (vdisk_lock s) (v_free s) (v_desc s) (v_ops s) x (info_status s) (avail_ring s)
    (avail_idx s) (used_ring s) (used_idx_dev s) (v_used_idx s) (buf_disk s) (buf_data s)
    (buf_blockno s) (platter s) (dev_seen s) (dev_busy s) (v_woken s).
Definition set_info_status (x : Z -> Z) (s : vdisk) : vdisk :=
  mkVd (vdisk_lock s) (v_free s) (v_desc s) (v_ops s) (info_b s) x (avail_ring s) (avail_idx s)
    (used_ring s) (used_idx_dev s) (v_used_idx s) (buf_disk s) (buf_data s) (buf_blockno s)
    (platter s) (dev_seen s) (dev_busy s) (v_woken s).
Definition set_avail_ring (x : Z -> Z) (s : vdisk) : vdisk :=
  mkVd (vdisk_lock s) (v_free s) (v_desc s) (v_ops s) (info_b s) (info_status s) x (avail_idx s)
    (used_ring s) (used_idx_dev s) (v_used_idx s) (buf_disk s) (buf_data s) (buf_blockno s)
    (platter s) (dev_seen s) (dev_busy s) (v_woken s).
Definition set_avail_idx (x : Z) (s : vdisk) : vdisk :=
  mkVd (vdisk_lock s) (v_free s) (v_desc s) (v_ops s) (info_b s) (info_status s) (avail_ring s)
    x (used_ring s) (used_idx_dev s) (v_used_idx s) (buf_disk s) (buf_data s) (buf_blockno s)
    (platter s) (dev_seen s) (dev_busy s) (v_woken s).
Definition set_used_ring (x : Z -> Z) (s : vdisk) : vdisk :=
  mkVd (vdisk_lock s) (v_free s) (v_desc s) (v_ops s) (info_b s) (info_status s) (avail_ring s)
    (avail_idx s) x (used_idx_dev s) (v_used_idx s) (buf_disk s) (buf_data s) (buf_blockno s)
    (platter s) (dev_seen s) (dev_busy s) (v_woken s).
Definition set_used_idx_dev (x : Z) (s : vdisk) : vdisk :=
  mkVd (vdisk_lock s) (v_free s) (v_desc s) (v_ops s) (info_b s) (info_status s) (avail_ring s)
    (avail_idx s) (used_ring s) x (v_used_idx s) (buf_disk s) (buf_data s) (buf_blockno s)
    (platter s) (dev_seen s) (dev_busy s) (v_woken s).
Definition set_v_used_idx (x : Z) (s : vdisk) : vdisk :=
  mkVd (vdisk_lock s) (v_free s) (v_desc s) (v_ops s) (info_b s) (info_status s) (avail_ring s)
    (avail_idx s) (used_ring s) (used_idx_dev s) x (buf_disk s) (buf_data s) (buf_blockno s)
    (platter s) (dev_seen s) (dev_busy s) (v_woken s).
Definition set_buf_disk (x : nat -> bool) (s : vdisk) : vdisk :=
  mkVd (vdisk_lock s) (v_free s) (v_desc s) (v_ops s) (info_b s) (info_status s) (avail_ring s)
    (avail_idx s) (used_ring s) (used_idx_dev s) (v_used_idx s) x (buf_data s) (buf_blockno s)
    (platter s) (dev_seen s) (dev_busy s) (v_woken s).
Definition set_buf_data (x : nat -> list Z) (s : vdisk) : vdisk :=
  mkVd (vdisk_lock s) (v_free s) (v_desc s) (v_ops s) (info_b s) (info_status s) (avail_ring s)
    (avail_idx s) (used_ring s) (used_idx_dev s) (v_used_idx s) (buf_disk s) x (buf_blockno s)
    (platter s) (dev_seen s) (dev_busy s) (v_woken s).
Definition set_platter (x : Z -> list Z) (s : vdisk) : vdisk :=
  mkVd (vdisk_lock s) (v_free s) (v_desc s) (v_ops s) (info_b s) (info_status s) (avail_ring s)
    (avail_idx s) (used_ring s) (used_idx_dev s) (v_used_idx s) (buf_disk s) (buf_data s)
    (buf_blockno s) x (dev_seen s) (dev_busy s) (v_woken s).
Definition set_dev_seen (x : Z) (s : vdisk) : vdisk :=
  mkVd (vdisk_lock s) (v_free s) (v_desc s) (v_ops s) (info_b s) (info_status s) (avail_ring s)
    (avail_idx s) (used_ring s) (used_idx_dev s) (v_used_idx s) (buf_disk s) (buf_data s)
    (buf_blockno s) (platter s) x (dev_busy s) (v_woken s).
Definition set_dev_busy (x : list Z) (s : vdisk) : vdisk :=
  mkVd (vdisk_lock s) (v_free s) (v_desc s) (v_ops s) (info_b s) (info_status s) (avail_ring s)
    (avail_idx s) (used_ring s) (used_idx_dev s) (v_used_idx s) (buf_disk s) (buf_data s)
    (buf_blockno s) (platter s) (dev_seen s) x (v_woken s).
Definition set_v_woken (x : list chan) (s : vdisk) : vdisk :=
  mkVd (vdisk_lock s) (v_free s) (v_desc s) (v_ops s) (info_b s) (info_status s) (avail_ring s)
    (avail_idx s) (used_ring s) (used_idx_dev s) (v_used_idx s) (buf_disk s) (buf_data s)
    (buf_blockno s) (platter s) (dev_seen s) (dev_busy s) x.

Definition vdisk_lockL : lens vdisk spinlock := Lens vdisk_lock set_vdisk_lock.
Definition v_wokenL : lens vdisk (list chan) := Lens v_woken set_v_woken.
Definition set_free (i : Z) (x : bool) : M vdisk unit := modify (fun s => set_v_free (upd (v_free s) i x) s).
Definition set_desc (i : Z) (d : virtq_desc) : M vdisk unit := modify (fun s => set_v_desc (upd (v_desc s) i d) s).

(** ** Descriptors *)

Fixpoint alloc_scan (n : nat) (i : Z) : M vdisk Z :=
  match n with
  | O => ret (-1)
  | S n =>
      let* f := gets (fun s => v_free s i) in
      if (f : bool) then set_free i false ;; ret i else alloc_scan n (i + 1)
  end.
Definition alloc_desc : M vdisk Z := alloc_scan (Z.to_nat NUM) 0.

Definition free_desc (i : Z) : M vdisk unit :=
  if NUM <=? i then panic "free_desc 1" else
  let* f := gets (fun s => v_free s i) in
  if (f : bool) then panic "free_desc 2" else
  set_desc i (mkDesc ANull 0 0 0) ;;
  set_free i true ;;
  wakeup v_wokenL ChDiskFree.

Definition free_chain_step (i : Z) : M vdisk (Z + unit) :=
  let* d := gets (fun s => v_desc s i) in
  free_desc i ;;
  if negb (Z.land (d_flags d) VRING_DESC_F_NEXT =? 0) then ret (inl (d_next d)) else ret (inr tt).
(** A chain has at most NUM descriptors. *)
Definition free_chain (i : Z) : M vdisk unit := loop (S (Z.to_nat NUM)) free_chain_step i.

(** alloc3_desc: the three indices, or [None] with everything given back. *)
Definition alloc3_desc : M vdisk (option (Z * Z * Z)) :=
  let* i0 := alloc_desc in
  if i0 <? 0 then ret None else
  let* i1 := alloc_desc in
  if i1 <? 0 then free_desc i0 ;; ret None else
  let* i2 := alloc_desc in
  if i2 <? 0 then free_desc i0 ;; free_desc i1 ;; ret None else
  ret (Some (i0, i1, i2)).

(** ** Submitting a request *)

Definition sector_of (blockno : Z) : Z := u32 (blockno * (BSIZE / 512)).

(** From the allocated descriptors to the notification of the device. *)
Definition submit (b : nat) (write : bool) (idx : Z * Z * Z) : M vdisk unit :=
  let '(i0, i1, i2) := idx in
  let* blockno := gets (fun s => buf_blockno s b) in
  modify (fun s => set_v_ops (upd (v_ops s) i0
    (mkReq (if write then VIRTIO_BLK_T_OUT else VIRTIO_BLK_T_IN) 0 (sector_of blockno))) s) ;;
  set_desc i0 (mkDesc (AOps i0) 16 VRING_DESC_F_NEXT i1) ;;
  set_desc i1 (mkDesc (AData b) BSIZE
    (Z.lor (if write then 0 else VRING_DESC_F_WRITE) VRING_DESC_F_NEXT) i2) ;;
  modify (fun s => set_info_status (upd (info_status s) i0 0xff) s) ;;
  set_desc i2 (mkDesc (AStatus i0) 1 VRING_DESC_F_WRITE 0) ;;
  modify (fun s => set_buf_disk (upd (buf_disk s) b true) s) ;;
  modify (fun s => set_info_b (upd (info_b s) i0 (Some b)) s) ;;
  let* ai := gets avail_idx in
  modify (fun s => set_avail_ring (upd (avail_ring s) (ai mod NUM) i0) s) ;;
  modify (set_avail_idx (u16 (ai + 1))).

Definition alloc_wait (u : unit) : M vdisk (unit + Z * Z * Z) :=
  let* r := alloc3_desc in
  match r with
  | Some idx => ret (inr idx)
  | None => sleep ChDiskFree vdisk_lockL ;; ret (inl tt)
  end.
Definition done_wait (b : nat) (u : unit) : M vdisk (unit + unit) :=
  let* s := gets id in
  if buf_disk s b then sleep (ChBuf b) vdisk_lockL ;; ret (inl tt) else ret (inr tt).

Definition virtio_disk_rw (fuel : nat) (b : nat) (write : bool) : M vdisk unit :=
  acquire vdisk_lockL ;;
  let* idx := loop fuel alloc_wait tt in
  submit b write idx ;;
  loop fuel (done_wait b) tt ;;
  modify (fun s => set_info_b (upd (info_b s) idx.1.1 None) s) ;;
  free_chain idx.1.1 ;;
  release vdisk_lockL.

(** ** The interrupt handler *)

Definition intr_step (u : unit) : M vdisk (unit + unit) :=
  let* s := gets id in
  if v_used_idx s =? used_idx_dev s then ret (inr tt) else
  let id := used_ring s (v_used_idx s mod NUM) in
  if negb (info_status s id =? 0) then panic "virtio_disk_intr status" else
  match info_b s id with
  | None => panic "kerneltrap"
  | Some b =>
      modify (fun s => set_buf_disk (upd (buf_disk s) b false) s) ;;
      wakeup v_wokenL (ChBuf b) ;;
      modify (fun s => set_v_used_idx (u16 (v_used_idx s + 1)) s) ;;
      ret (inl tt)
  end.
(** At most NUM completions are outstanding. *)
Definition virtio_disk_intr : M vdisk unit :=
  acquire vdisk_lockL ;;
  loop (S (Z.to_nat NUM)) intr_step tt ;;
  release vdisk_lockL.

(** ** The device *)

(** It takes the next chain head from the avail ring. *)
Definition dev_take (s : vdisk) : option vdisk :=
  if dev_seen s =? avail_idx s then None else
  Some (set_dev_seen (u16 (dev_seen s + 1)) (set_dev_busy (dev_busy s ++ [avail_ring s (dev_seen s mod NUM)]) s)).

(** It carries out the request at [head]: header, data and status
    descriptors, as linked. *)
Definition dev_transfer (head : Z) (s : vdisk) : option vdisk :=
  let d0 := v_desc s head in
  let d1 := v_desc s (d_next d0) in
  let d2 := v_desc s (d_next d1) in
  match d_addr d0, d_addr d1, d_addr d2 with
  | AOps i, AData b, AStatus j =>
      let r := v_ops s i in
      if negb ((d_flags d0 =? VRING_DESC_F_NEXT) && (d_len d1 =? BSIZE) && (d_flags d2 =? VRING_DESC_F_WRITE)) then None else
      let s' := set_info_status (upd (info_status s) j 0) s in
      if q_type r =? VIRTIO_BLK_T_OUT then
        if d_flags d1 =? VRING_DESC_F_NEXT
        then Some (set_platter (upd (platter s) (q_sector r) (buf_data s b)) s') else None
      else
        if d_flags d1 =? Z.lor VRING_DESC_F_WRITE VRING_DESC_F_NEXT
        then Some (set_buf_data (upd (buf_data s) b (platter s (q_sector r))) s') else None
  | _, _, _ => None
  end.
Definition dev_complete (head : Z) (s : vdisk) : option vdisk :=
  s ← dev_transfer head s;
  Some (set_used_idx_dev (u16 (used_idx_dev s + 1)) (set_used_ring (upd (used_ring s) (used_idx_dev s mod NUM) head) s)).

(** What runs beside the processes: the device and its interrupts. *)
Inductive env (s : vdisk) : vdisk -> Prop :=
| env_take s' : dev_take s = Some s' -> env s s'
| env_complete pre head post s1 s' : dev_busy s = pre ++ head :: post ->
    dev_complete head s = Some s1 -> s' = set_dev_busy (pre ++ post) s1 -> env s s'
| env_intr s' : virtio_disk_intr s = Ret tt s' -> env s s'.

(** ** The requests in progress *)

Record oper := mkOper { o_0 : Z; o_1 : Z; o_2 : Z; o_b : nat; o_w : bool }.
Definition o_idx (o : oper) : list Z := [o_0 o; o_1 o; o_2 o].
Definition sec (s : vdisk) (b : nat) : Z := sector_of (buf_blockno s b).

Definition chain_ok (s : vdisk) (o : oper) : Prop :=
  v_desc s (o_0 o) = mkDesc (AOps (o_0 o)) 16 VRING_DESC_F_NEXT (o_1 o) /\
  v_desc s (o_1 o) = mkDesc (AData (o_b o)) BSIZE (Z.lor (if o_w o then 0 else VRING_DESC_F_WRITE) VRING_DESC_F_NEXT) (o_2 o) /\
  v_desc s (o_2 o) = mkDesc (AStatus (o_0 o)) 1 VRING_DESC_F_WRITE 0 /\
  v_ops s (o_0 o) = mkReq (if o_w o then VIRTIO_BLK_T_OUT else VIRTIO_BLK_T_IN) 0 (sec s (o_b o)) /\
  info_b s (o_0 o) = Some (o_b o).

(** A ring of NUM entries whose unread part, from counter [lo] to [hi], is [l]. *)
Record window (r : Z -> Z) (lo : Z) (l : list Z) (hi : Z) : Prop := {
  w_lo : 0 <= lo < 65536;
  w_hi : hi = u16 (lo + Z.of_nat (length l));
  w_at : forall k x, l !! k = Some x -> r ((lo + Z.of_nat k) mod NUM) = x;
}.

Definition indices (O : list oper) : list Z := concat (map o_idx O).

(** [P]: on the avail ring; [T]: taken by the device; [U]: on the used ring;
    [D]: seen by the interrupt handler. *)
Record core (s : vdisk) (P T U D : list oper) : Prop := {
  c_nodup : NoDup (indices (P ++ T ++ U ++ D));
  c_range : forall i, i ∈ indices (P ++ T ++ U ++ D) -> 0 <= i < NUM;
  c_free : forall i, 0 <= i < NUM -> v_free s i = false <-> i ∈ indices (P ++ T ++ U ++ D);
  c_bufs : NoDup (map o_b (P ++ T ++ U ++ D));
  c_small : forall o, o ∈ P ++ T ++ U ++ D -> (o_b o < nbuf)%nat;
  c_chain : forall o, o ∈ P ++ T ++ U ++ D -> chain_ok s o;
  c_info : forall i b, info_b s i = Some b -> exists o, o ∈ P ++ T ++ U ++ D /\ o_0 o = i /\ o_b o = b;
  c_avail : window (avail_ring s) (dev_seen s) (map o_0 P) (avail_idx s);
  c_busy : dev_busy s = map o_0 T;
  c_used : window (used_ring s) (v_used_idx s) (map o_0 U) (used_idx_dev s);
  c_active : forall o, o ∈ P ++ T ++ U -> buf_disk s (o_b o) = true;
  c_seen : forall o, o ∈ D -> buf_disk s (o_b o) = false;
  c_done : forall o, o ∈ U ++ D -> info_status s (o_0 o) = 0 /\ platter s (sec s (o_b o)) = buf_data s (o_b o);
  c_sector : forall b c, (b < nbuf)%nat -> (c < nbuf)%nat -> sec s b = sec s c -> b = c;
}.

Definition vinv (s : vdisk) : Prop := vdisk_lock s = false /\ exists P T U D, core s P T U D.

(** What the process working on buffer [b] relies on. *)
Record rely (b : nat) (s s' : vdisk) : Prop := {
  re_blockno : buf_blockno s' = buf_blockno s;
  re_info : forall i, info_b s i = Some b <-> info_b s' i = Some b;
  re_ops : forall i, info_b s i = Some b -> v_ops s' i = v_ops s i;
  re_data : (forall i, info_b s i = Some b -> q_type (v_ops s i) = VIRTIO_BLK_T_OUT) -> buf_data s' b = buf_data s b;
  re_platter : (b < nbuf)%nat -> (forall i, info_b s i = Some b -> q_type (v_ops s i) = VIRTIO_BLK_T_IN) -> platter s' (sec s b) = platter s (sec s b);
}.

Lemma rely_refl b s : rely b s s.
Proof. by split. Qed.
Lemma rely_trans b s1 s2 s3 : rely b s1 s2 -> rely b s2 s3 -> rely b s1 s3.
Proof.
  intros [A1 A2 A3 A4 A5] [B1 B2 B3 B4 B5]. unfold sec in *. split.
  - congruence.
  - intros i. by rewrite A2.
  - intros i Hi. rewrite B3; [by apply A3|]. by apply A2.
  - intros H. rewrite B4; [by apply A4|]. intros i Hi. apply A2 in Hi. rewrite A3 by done. by apply H.
  - intros Hb H. unfold sec in *. rewrite A1 in B5. rewrite B5; [by apply A5|done|]. intros i Hi. apply A2 in Hi. rewrite A3 by done. by apply H.
Qed.

(** Everything but locks, descriptors not in use and recorded wakeups. *)
Record same (s s' : vdisk) : Prop := {
  sa_free : v_free s' = v_free s;
  sa_desc : forall i, v_free s i = false -> v_desc s' i = v_desc s i;
  sa_ops : v_ops s' = v_ops s;
  sa_info : info_b s' = info_b s;
  sa_status : info_status s' = info_status s;
  sa_avail : avail_ring s' = avail_ring s /\ avail_idx s' = avail_idx s;
  sa_used : used_ring s' = used_ring s /\ used_idx_dev s' = used_idx_dev s /\ v_used_idx s' = v_used_idx s;
  sa_disk : buf_disk s' = buf_disk s;
  sa_data : buf_data s' = buf_data s /\ platter s' = platter s /\ buf_blockno s' = buf_blockno s;
  sa_dev : dev_seen s' = dev_seen s /\ dev_busy s' = dev_busy s;
}.

Lemma same_core s s' P T U D : same s s' -> core s P T U D -> core s' P T U D.
Proof.
  intros [E1 E2 E3 E4 E5 [E6 E6'] [E7 [E7' E7'']] E8 [E9 [E9' E9'']] [E10 E10']] [].
  assert (forall b, sec s' b = sec s b) as Es by (intros b; unfold sec; by rewrite E9'').
  split; rewrite ?E1, ?E4, ?E5, ?E6, ?E6', ?E7, ?E7', ?E7'', ?E8, ?E9, ?E9', ?E10, ?E10'; try done.
  - intros o Ho. pose proof (c_chain0 o Ho) as (H1 & H2 & H3 & H4 & H5). unfold chain_ok. rewrite E3, E4, Es.
    assert (forall i, i ∈ o_idx o -> v_free s i = false) as Hf.
    { intros i Hi. assert (i ∈ indices (P ++ T ++ U ++ D)) as Hin.
      { apply list_elem_of_In, in_concat. exists (o_idx o). split; [by apply in_map, list_elem_of_In|by apply list_elem_of_In]. }
      apply c_free0; [by apply c_range0|done]. }
    rewrite !E2; [done|..]; apply Hf; unfold o_idx; rewrite !elem_of_cons; tauto.
  - intros o Ho. rewrite Es. auto.
  - intros b c. rewrite !Es. auto.
Qed.
Lemma same_rely b s s' : same s s' -> rely b s s'.
Proof. intros [E1 E2 E3 E4 E5 E6 E7 E8 [E9 [E9' E9'']] E10]. split; try congruence; try done. intros i. by rewrite E4. Qed.
Lemma same_trans s1 s2 s3 : same s1 s2 -> same s2 s3 -> same s1 s3.
Proof. intros [] []. split; intuition congruence || (intros i Hi; etransitivity; [apply sa_desc1; congruence|auto]). Qed.

(** ** Allocation *)

Lemma elem_of_indices O i : i ∈ indices O <-> exists o, o ∈ O /\ i ∈ o_idx o.
Proof.
  unfold indices. rewrite list_elem_of_In, in_concat. split.
  - intros (l & Hl & Hi). apply in_map_iff in Hl as (o & <- & Ho). exists o. by rewrite !list_elem_of_In.
  - intros (o & Ho & Hi). exists (o_idx o). rewrite <- !list_elem_of_In. split; [by apply list_elem_of_fmap_2|done].
Qed.
Lemma indices_app O1 O2 : indices (O1 ++ O2) = indices O1 ++ indices O2.
Proof. unfold indices. by rewrite map_app, concat_app. Qed.

Definition mark (i : Z) (x : bool) (s : vdisk) : vdisk := set_v_free (upd (v_free s) i x) s.

Lemma alloc_scan_spec n : forall i s,
  wp (alloc_scan n i) (fun r s' => (r = -1 /\ s' = s) \/ (i <= r < i + Z.of_nat n /\ v_free s r = true /\ s' = mark r false s)) s.
Proof.
  induction n as [|n IH]; intros i s; cbn [alloc_scan]; [wp_step; by left|].
  wp_step. wp_step. destruct (v_free s i) eqn:E.
  - wp_step. unfold set_free. wp_step. wp_step. right. split; [lia|]. done.
  - eapply wp_mono; [apply IH|]. intros r s' [H|(H1 & H2 & H3)]; [by left|right]. split; [lia|done].
Qed.
Lemma alloc_desc_spec s : wp alloc_desc (fun r s' => (r = -1 /\ s' = s) \/ (0 <= r < NUM /\ v_free s r = true /\ s' = mark r false s)) s.
Proof. unfold alloc_desc. eapply wp_mono; [apply alloc_scan_spec|]. done. Qed.

(** Freeing what was just allocated restores the table. *)
Lemma free_desc_spec i s (Q : unit -> vdisk -> Prop) : 0 <= i < NUM -> v_free s i = false ->
  (forall s', s' = set_v_woken (v_woken s ++ [ChDiskFree]) (mark i true (set_v_desc (upd (v_desc s) i (mkDesc ANull 0 0 0)) s)) -> Q tt s') ->
  wp (free_desc i) Q s.
Proof.
  intros Hi Hf HQ. unfold free_desc. rewrite (proj2 (Z.leb_gt NUM i)) by lia. wp_step. wp_step. rewrite Hf.
  unfold set_desc, set_free. wp_step. wp_step. wp_step. wp_step. wp_step. by apply HQ.
Qed.

Lemma upd_restore (f : Z -> bool) i : f i = true -> upd (upd f i false) i true = f.
Proof. intros E. rewrite upd_upd, <- E. apply upd_id. Qed.

Definition allocated (s s' : vdisk) (i0 i1 i2 : Z) : Prop :=
  (forall i, i ∈ [i0; i1; i2] -> 0 <= i < NUM /\ v_free s i = true) /\ NoDup [i0; i1; i2] /\
  s' = mark i2 false (mark i1 false (mark i0 false s)).

Lemma alloc3_desc_spec s : wp alloc3_desc (fun r s' =>
  match r with
  | Some (i0, i1, i2) => allocated s s' i0 i1 i2
  | None => same s s' /\ vdisk_lock s' = vdisk_lock s
  end) s.
Proof.
  unfold alloc3_desc. wp_step. eapply wp_mono; [apply alloc_desc_spec|]. intros i0 s1 [[-> ->]|(R0 & F0 & ->)].
  { cbn. split; [by split|done]. }
  rewrite (proj2 (Z.ltb_ge i0 0)) by lia. wp_step. eapply wp_mono; [apply alloc_desc_spec|].
  intros i1 s2 [[-> ->]|(R1 & F1 & ->)].
  { cbn [Z.ltb Z.compare]. wp_step. apply free_desc_spec; [done|cbn; apply upd_eq|]. intros s' ->. wp_step.
    split; [|done]. split; cbn; try done; [by apply upd_restore|]. intros i Hi. apply upd_ne. intros ->. congruence. }
  rewrite (proj2 (Z.ltb_ge i1 0)) by lia. wp_step. eapply wp_mono; [apply alloc_desc_spec|].
  cbn in F1. assert (i1 <> i0) as N10 by (intros ->; by rewrite upd_eq in F1). rewrite upd_ne in F1 by done.
  intros i2 s3 [[-> ->]|(R2 & F2 & ->)].
  { cbn [Z.ltb Z.compare]. wp_step. apply free_desc_spec; [done|cbn; rewrite upd_ne by done; apply upd_eq|]. intros s' ->.
    wp_step. apply free_desc_spec; [done|cbn; rewrite upd_ne by done; apply upd_eq|]. intros s' ->. wp_step.
    split; [|done]. split; cbn; try done.
    - apply FunctionalExtensionality.functional_extensionality. intros i. unfold upd. repeat case_decide; congruence.
    - intros i Hi. rewrite !upd_ne; [done|..]; intros ->; congruence. }
  rewrite (proj2 (Z.ltb_ge i2 0)) by lia. wp_step. cbn in F2.
  assert (i2 <> i1) as N21 by (intros ->; by rewrite upd_eq in F2). rewrite upd_ne in F2 by done.
  assert (i2 <> i0) as N20 by (intros ->; by rewrite upd_eq in F2). rewrite upd_ne in F2 by done.
  split; [|split; [|done]].
  - intros i. rewrite !elem_of_cons, elem_of_nil. intros [->|[->|[->|[]]]]; done.
  - rewrite !NoDup_cons, !not_elem_of_cons. repeat split; try done; try (apply not_elem_of_nil). by apply NoDup_nil.
Qed.

(** ** Rings *)

Lemma u16_mod_NUM x : u16 x mod NUM = x mod NUM.
Proof. unfold u16, NUM. apply Z.mod_mod_divide. exists 8192. lia. Qed.
Lemma u16_succ x : u16 (u16 x + 1) = u16 (x + 1).
Proof. unfold u16. by rewrite Zplus_mod_idemp_l. Qed.

Lemma window_push r lo l hi x : window r lo l hi -> (length l < 8)%nat ->
  window (upd r (hi mod NUM) x) lo (l ++ [x]) (u16 (hi + 1)).
Proof.
  intros [H1 -> H3] Hl. split; [done| |].
  - rewrite u16_succ, length_app. cbn. f_equal. lia.
  - intros k y Hk. rewrite u16_mod_NUM. apply lookup_app_Some in Hk as [Hk|[Hge Hk]].
    + pose proof (lookup_lt_Some _ _ _ Hk). rewrite upd_ne; [by apply H3|]. unfold NUM. intros E.
      assert ((lo + Z.of_nat (length l) - (lo + Z.of_nat k)) mod 8 = 0) as E0.
      { rewrite Zminus_mod, <- E, Z.sub_diag. done. }
      rewrite Z.mod_small in E0; lia.
    + apply list_lookup_singleton_Some in Hk as [Hk ->]. replace k with (length l) by lia. apply upd_eq.
Qed.
Lemma window_pop r lo x l hi : window r lo (x :: l) hi -> (length l < 8)%nat ->
  r (lo mod NUM) = x /\ lo <> hi /\ window r (u16 (lo + 1)) l hi.
Proof.
  intros [H1 -> H3] Hl. split; [|split].
  - specialize (H3 0%nat x eq_refl). by rewrite Z.add_0_r in H3.
  - cbn [length]. intros E. unfold u16 in E. change (2 ^ 16) with 65536 in E.
    assert ((lo + Z.of_nat (S (length l)) - lo) mod 65536 = 0) as E0.
    { rewrite Zminus_mod, <- E. rewrite (Z.mod_small lo) by lia. by rewrite Z.sub_diag. }
    rewrite Z.mod_small in E0; lia.
  - split.
    + apply u16_range.
    + cbn [length]. unfold u16. rewrite Zplus_mod_idemp_l. f_equal. lia.
    + intros k y Hk. specialize (H3 (S k) y Hk). rewrite <- H3. f_equal. unfold u16, NUM. change (2 ^ 16) with 65536.
      rewrite <- (Zplus_mod_idemp_l ((lo + 1) mod 65536) (Z.of_nat k) 8).
      replace ((lo + 1) mod 65536 mod 8) with ((lo + 1) mod 8) by (symmetry; apply Z.mod_mod_divide; exists 8192; lia).
      rewrite Zplus_mod_idemp_l. f_equal. lia.
Qed.
Lemma window_empty r lo hi : window r lo [] hi -> lo = hi.
Proof. intros [H1 -> _]. cbn. rewrite Z.add_0_r, u16_small; lia. Qed.

(** There are at most two requests in progress. *)
Lemma few_ops O : NoDup (indices O) -> (forall i, i ∈ indices O -> 0 <= i < NUM) -> (length O <= 2)%nat.
Proof.
  intros Hd Hr. assert (length (indices O) = 3 * length O)%nat as Hl.
  { clear. induction O as [|o O IH]; [done|]. change (indices (o :: O)) with (o_idx o ++ indices O). rewrite length_app, IH. cbn. lia. }
  assert (length (indices O) <= length (seq 0 8))%nat as Hle; [|rewrite length_seq in Hle; lia].
  rewrite <- (length_map Z.to_nat (indices O)). apply NoDup_incl_length.
  - apply NoDup_ListNoDup, NoDup_fmap_2_strong; [|done]. intros x y Hx Hy E. apply Hr in Hx, Hy. lia.
  - intros n Hn. apply in_map_iff in Hn as (i & <- & Hi). apply list_elem_of_In, Hr in Hi. apply in_seq. unfold NUM in Hi. lia.
Qed.

(** ** Submitting *)

Definition submitted (s : vdisk) (o : oper) : vdisk :=
  let s := set_v_ops (upd (v_ops s) (o_0 o) (mkReq (if o_w o then VIRTIO_BLK_T_OUT else VIRTIO_BLK_T_IN) 0 (sec s (o_b o)))) s in
  let s := set_v_desc (upd (upd (upd (v_desc s) (o_0 o) (mkDesc (AOps (o_0 o)) 16 VRING_DESC_F_NEXT (o_1 o)))
     (o_1 o) (mkDesc (AData (o_b o)) BSIZE (Z.lor (if o_w o then 0 else VRING_DESC_F_WRITE) VRING_DESC_F_NEXT) (o_2 o)))
     (o_2 o) (mkDesc (AStatus (o_0 o)) 1 VRING_DESC_F_WRITE 0)) s in
  let s := set_info_status (upd (info_status s) (o_0 o) 0xff) s in
  let s := set_buf_disk (upd (buf_disk s) (o_b o) true) s in
  let s := set_info_b (upd (info_b s) (o_0 o) (Some (o_b o))) s in
  set_avail_idx (u16 (avail_idx s + 1)) (set_avail_ring (upd (avail_ring s) (avail_idx s mod NUM) (o_0 o)) s).

Lemma submit_eq b w i0 i1 i2 s : submit b w (i0, i1, i2) s = Ret tt (submitted s (mkOper i0 i1 i2 b w)).
Proof. reflexivity. Qed.

Section Submit.
Context (s s1 : vdisk) (P T U D : list oper) (o : oper).
Context (Hc : core s P T U D) (Ha : allocated s s1 (o_0 o) (o_1 o) (o_2 o)) (Hb : (o_b o < nbuf)%nat)
        (Hno : forall i, info_b s i <> Some (o_b o)).
Notation O := (P ++ T ++ U ++ D).
Notation O' := ((P ++ [o]) ++ T ++ U ++ D).

Lemma new_perm : O' ≡ₚ o :: O.
Proof. rewrite <- (assoc_L (++)). cbn. symmetry. apply Permutation_middle. Qed.
Lemma new_elem x : x ∈ O' <-> x = o \/ x ∈ O.
Proof. by rewrite new_perm, elem_of_cons. Qed.
Lemma new_indices : indices O' ≡ₚ o_idx o ++ indices O.
Proof. unfold indices. rewrite new_perm. done. Qed.
Lemma new_fresh i : i ∈ o_idx o -> 0 <= i < NUM /\ i ∉ indices O.
Proof.
  intros Hi. destruct Ha as (H1 & _ & _). destruct (H1 i Hi) as [Hr Hf]. split; [done|]. intros Hin.
  apply (c_free _ _ _ _ _ Hc) in Hin; [congruence|done].
Qed.
Lemma old_apart x i : x ∈ O -> i ∈ o_idx x -> i ∉ o_idx o.
Proof. intros Hx Hi Hin. apply new_fresh in Hin as [_ Hin]. apply Hin, elem_of_indices. eauto. Qed.
Lemma old_bufs x : x ∈ O -> o_b x <> o_b o.
Proof. intros Hx E. apply (c_chain _ _ _ _ _ Hc) in Hx as (_ & _ & _ & _ & Hx). apply (Hno (o_0 x)). congruence. Qed.
Lemma head_free : info_b s (o_0 o) = None.
Proof.
  destruct (info_b s (o_0 o)) as [b|] eqn:E; [|done]. destruct (c_info _ _ _ _ _ Hc _ _ E) as (x & Hx & E0 & _). exfalso.
  apply (old_apart x (o_0 x) Hx); [by left|]. rewrite E0. by left.
Qed.
Lemma s1_eq : s1 = mark (o_2 o) false (mark (o_1 o) false (mark (o_0 o) false s)).
Proof. apply Ha. Qed.

Lemma submit_rely t : t <> o_b o -> rely t s (submitted s1 o).
Proof.
  intros Ht. rewrite s1_eq. pose proof head_free as Hf. split; cbn; try done.
  - intros i. unfold upd. case_decide; [subst; rewrite Hf; split; congruence|done].
  - intros i Hi. apply upd_ne. intros ->. congruence.
Qed.

Lemma chain_new : chain_ok (submitted s1 o) o.
Proof.
  destruct Ha as (_ & Hd & _). rewrite !NoDup_cons, !not_elem_of_cons in Hd. destruct Hd as ((N1 & N2 & _) & (N3 & _) & _).
  rewrite s1_eq. unfold chain_ok, submitted. cbn. rewrite !upd_eq, (upd_ne _ _ (o_0 o)), (upd_ne _ (o_1 o) (o_0 o)), (upd_ne _ (o_2 o) (o_1 o)), !upd_eq by done.
  done.
Qed.
Lemma chain_old x : x ∈ O -> chain_ok (submitted s1 o) x.
Proof.
  intros Hx. destruct (c_chain _ _ _ _ _ Hc x Hx) as (H1 & H2 & H3 & H4 & H5).
  assert (forall i, i ∈ o_idx x -> i <> o_0 o /\ i <> o_1 o /\ i <> o_2 o) as Hne.
  { intros i Hi. pose proof (old_apart x i Hx Hi) as Hn. unfold o_idx in Hn. rewrite !not_elem_of_cons in Hn. tauto. }
  destruct (Hne (o_0 x)) as (A1 & A2 & A3); [by left|]. destruct (Hne (o_1 x)) as (B1 & B2 & B3); [right; by left|].
  destruct (Hne (o_2 x)) as (C1 & C2 & C3); [right; right; by left|].
  rewrite s1_eq. unfold chain_ok, submitted. cbn. by rewrite !upd_ne.
Qed.

Lemma submit_core : core (submitted s1 o) (P ++ [o]) T U D.
Proof.
  pose proof Hc as []. assert (length O <= 2)%nat as Hfew by (by apply few_ops). rewrite !length_app in Hfew.
  split.
  - rewrite new_indices. apply NoDup_app. split; [apply Ha|]. split; [|done]. intros i Hi. by apply new_fresh.
  - intros i. rewrite new_indices, elem_of_app. intros [Hi|Hi]; [by apply new_fresh|auto].
  - intros i Hi. rewrite new_indices, elem_of_app, s1_eq. cbn. unfold upd, o_idx. rewrite !elem_of_cons, elem_of_nil.
    repeat case_decide; rewrite ?c_free0 by done; split; intros; try tauto; subst; tauto.
  - rewrite new_perm. cbn. apply NoDup_cons. split; [|done]. intros Hin. apply list_elem_of_fmap in Hin as (x & E & Hx). by apply old_bufs in Hx.
  - intros x. rewrite new_elem. intros [->|Hx]; auto.
  - intros x. rewrite new_elem. intros [->|Hx]; [apply chain_new|by apply chain_old].
  - intros i b. rewrite s1_eq. cbn. unfold upd at 1. case_decide as Hi.
    + intros [= <-]. exists o. rewrite new_elem. split; [by left|done].
    + intros E. destruct (c_info0 _ _ E) as (x & Hx & E1 & E2). exists x. rewrite new_elem. split; [by right|done].
  - rewrite s1_eq, map_app. cbn. apply window_push; [done|]. rewrite length_map. lia.
  - rewrite s1_eq. done.
  - rewrite s1_eq. done.
  - intros x. rewrite s1_eq. cbn. rewrite !elem_of_app, list_elem_of_singleton. intros Hx. unfold upd. case_decide as Eb; [done|].
    apply c_active0. rewrite !elem_of_app. destruct Hx as [[Hx|Hx]|Hx]; [by left|subst; done|by right].
  - intros x Hx. rewrite s1_eq. cbn. rewrite upd_ne; [auto|]. apply old_bufs. rewrite !elem_of_app. auto.
  - intros x Hx. assert (x ∈ O) as HxO by (rewrite elem_of_app in Hx; rewrite !elem_of_app; tauto). rewrite s1_eq. cbn.
    rewrite upd_ne; [by apply c_done0|]. intros E. apply (old_apart x (o_0 x) HxO); [by left|]. rewrite E. by left.
  - rewrite s1_eq. done.
Qed.
End Submit.

(** ** The device and the interrupt handler *)

(** A step that moves requests along and leaves the descriptors alone. *)
Record agree (s s' : vdisk) : Prop := {
  ag_free : v_free s' = v_free s;
  ag_desc : v_desc s' = v_desc s;
  ag_ops : v_ops s' = v_ops s;
  ag_info : info_b s' = info_b s;
  ag_blockno : buf_blockno s' = buf_blockno s;
}.
Lemma core_move s s' P T U D P' T' U' D' : core s P T U D -> agree s s' ->
  P' ++ T' ++ U' ++ D' ≡ₚ P ++ T ++ U ++ D ->
  window (avail_ring s') (dev_seen s') (map o_0 P') (avail_idx s') -> dev_busy s' = map o_0 T' ->
  window (used_ring s') (v_used_idx s') (map o_0 U') (used_idx_dev s') ->
  (forall o, o ∈ P' ++ T' ++ U' -> buf_disk s' (o_b o) = true) -> (forall o, o ∈ D' -> buf_disk s' (o_b o) = false) ->
  (forall o, o ∈ U' ++ D' -> info_status s' (o_0 o) = 0 /\ platter s' (sec s' (o_b o)) = buf_data s' (o_b o)) ->
  core s' P' T' U' D'.
Proof.
  intros [] [E1 E2 E3 E4 E5] Hp Ha Hb Hu Hact Hseen Hdone.
  assert (indices (P' ++ T' ++ U' ++ D') ≡ₚ indices (P ++ T ++ U ++ D)) as Hi by (unfold indices; by rewrite Hp).
  assert (forall b, sec s' b = sec s b) as Es by (intros b; unfold sec; by rewrite E5).
  split; try done.
  - by rewrite Hi.
  - intros i. rewrite Hi. auto.
  - intros i. rewrite Hi, E1. auto.
  - by rewrite Hp.
  - intros o. rewrite Hp. auto.
  - intros o. rewrite Hp. intros Ho. unfold chain_ok. rewrite E2, E3, E4, Es. by apply c_chain0.
  - intros i b. rewrite E4. setoid_rewrite Hp. auto.
  - intros b c. rewrite !Es. auto.
Qed.

Lemma move_middle {A} (l1 l2 l3 : list A) x : l1 ++ (l2 ++ [x]) ++ l3 ≡ₚ (x :: l1) ++ l2 ++ l3.
Proof. rewrite <- (assoc_L (++)). cbn. by rewrite <- (Permutation_middle l2), <- (Permutation_middle l1). Qed.

Lemma move_right {A} (l l1 l2 u d : list A) x : l ++ (l1 ++ l2) ++ (u ++ [x]) ++ d ≡ₚ l ++ (l1 ++ x :: l2) ++ u ++ d.
Proof.
  apply Permutation_app_head. rewrite <- !(assoc_L (++)). apply Permutation_app_head. cbn.
  by rewrite <- (Permutation_middle u), <- (Permutation_middle l2).
Qed.

(** An owner of [b] is the request whose head carries it. *)
Lemma owner s P T U D i b o : core s P T U D -> info_b s i = Some b -> o ∈ P ++ T ++ U ++ D -> o_b o = b -> o_0 o = i.
Proof.
  intros Hc Hi Ho Eb. destruct (c_info _ _ _ _ _ Hc i b Hi) as (x & Hx & <- & Ex). f_equal.
  pose proof (c_bufs _ _ _ _ _ Hc) as Hd.
  apply list_elem_of_split in Ho as (l1 & l2 & E). rewrite E in Hd, Hx. rewrite map_app in Hd. cbn in Hd.
  apply NoDup_app in Hd as (_ & H1 & H2). apply NoDup_cons in H2 as [H2 _].
  apply elem_of_app in Hx as [Hx|Hx]; [|apply elem_of_cons in Hx as [->|Hx]; [done|]]; exfalso.
  - apply (H1 (o_b x)); [by apply list_elem_of_fmap_2|]. rewrite Ex, <- Eb. by left.
  - apply H2. rewrite Eb, <- Ex. by apply list_elem_of_fmap_2.
Qed.

Lemma agree_rely b s s' : agree s s' ->
  ((forall i, info_b s i = Some b -> q_type (v_ops s i) = VIRTIO_BLK_T_OUT) -> buf_data s' b = buf_data s b) ->
  ((b < nbuf)%nat -> (forall i, info_b s i = Some b -> q_type (v_ops s i) = VIRTIO_BLK_T_IN) -> platter s' (sec s b) = platter s (sec s b)) ->
  rely b s s'.
Proof. intros [E1 E2 E3 E4 E5] H1 H2. split; [done| |by intros; rewrite E3|done|done]. intros i. by rewrite E4. Qed.

Lemma dev_take_ok s s' P T U D : core s P T U D -> dev_take s = Some s' ->
  exists P' T', core s' P' T' U D /\ agree s s' /\ buf_data s' = buf_data s /\ platter s' = platter s /\ vdisk_lock s' = vdisk_lock s.
Proof.
  intros Hc. unfold dev_take. destruct (Z.eqb_spec (dev_seen s) (avail_idx s)) as [|Hne]; [done|]. intros [= <-].
  pose proof Hc as []. destruct P as [|o P']; [by apply window_empty in c_avail0|].
  assert (length (P' ++ T ++ U ++ D) <= 1)%nat as Hl by (apply few_ops in c_nodup0; [cbn in c_nodup0; lia|done]). rewrite length_app in Hl.
  cbn [map] in c_avail0. destruct (window_pop _ _ _ _ _ c_avail0) as (Hx & _ & Hw); [rewrite length_map; lia|].
  exists P', (T ++ [o]). split; [|by repeat split]. eapply core_move; [exact Hc|by split|..]; cbn; try done.
  - apply move_middle.
  - rewrite map_app. cbn. rewrite Hx. by rewrite c_busy0.
  - intros x. rewrite !elem_of_app, list_elem_of_singleton. intros Hx'. apply c_active0. rewrite !elem_of_app, elem_of_cons. tauto.
Qed.

Lemma heads_distinct s P T U D o x : core s P T U D -> o ∈ P ++ T ++ U ++ D -> x ∈ P ++ T ++ U ++ D -> o_0 o = o_0 x -> o_b o = o_b x.
Proof.
  intros Hc Ho Hx E. pose proof (c_chain _ _ _ _ _ Hc o Ho) as (_ & _ & _ & _ & H1).
  pose proof (c_chain _ _ _ _ _ Hc x Hx) as (_ & _ & _ & _ & H2). congruence.
Qed.

(** The device finds a well-formed chain and does what was asked. *)
Lemma dev_transfer_eq s P T U D o : core s P T U D -> o ∈ P ++ T ++ U ++ D ->
  let s' := set_info_status (upd (info_status s) (o_0 o) 0) s in
  dev_transfer (o_0 o) s = Some (if o_w o then set_platter (upd (platter s) (sec s (o_b o)) (buf_data s (o_b o))) s'
                                 else set_buf_data (upd (buf_data s) (o_b o) (platter s (sec s (o_b o)))) s').
Proof.
  intros Hc Ho. destruct (c_chain _ _ _ _ _ Hc o Ho) as (H1 & H2 & H3 & H4 & H5).
  unfold dev_transfer. rewrite H1. cbn [d_next d_addr d_flags]. rewrite H2. cbn [d_next d_addr d_flags d_len]. rewrite H3, H4. cbn.
  by destruct (o_w o).
Qed.

Lemma dev_complete_ok s P T1 o T2 U D : core s P (T1 ++ o :: T2) U D -> exists s1, dev_complete (o_0 o) s = Some s1 /\
  let s' := set_dev_busy (map o_0 (T1 ++ T2)) s1 in
  core s' P (T1 ++ T2) (U ++ [o]) D /\ vdisk_lock s' = vdisk_lock s /\ forall t, rely t s s'.
Proof.
  intros Hc. assert (o ∈ P ++ (T1 ++ o :: T2) ++ U ++ D) as Ho by (rewrite !elem_of_app, elem_of_cons; tauto).
  pose proof (dev_transfer_eq s _ _ _ _ o Hc Ho) as Et. unfold dev_complete. rewrite Et. cbn [mbind option_bind]. clear Et.
  eexists. split; [done|]. cbv zeta. pose proof Hc as [].
  assert (length (P ++ (T1 ++ o :: T2) ++ U ++ D) <= 2)%nat as Hl by (by apply few_ops). rewrite !length_app in Hl. cbn in Hl.
  assert (forall x, x ∈ U ++ D -> x ∈ P ++ (T1 ++ o :: T2) ++ U ++ D /\ o_b x <> o_b o) as Hxd.
  { intros x Hx. split; [rewrite elem_of_app in Hx; rewrite !elem_of_app; tauto|]. intros E.
    assert (buf_disk s (o_b o) = true) as Ha by (apply c_active0; rewrite !elem_of_app, elem_of_cons; tauto).
    rewrite !map_app in c_bufs0. cbn in c_bufs0. apply NoDup_app in c_bufs0 as (_ & _ & Hd). apply NoDup_app in Hd as (_ & Hd & _).
    apply (Hd (o_b o)); [apply elem_of_app; right; by left|]. rewrite <- map_app, <- E. by apply list_elem_of_fmap_2. }
  assert (forall x, x ∈ U ++ D -> o_0 x <> o_0 o) as Hxh.
  { intros x Hx E. destruct (Hxd x Hx) as [Hin Hne]. apply Hne. by apply (heads_distinct s _ _ _ _ x o Hc). }
  set (s1 := if o_w o then _ else _). set (s' := set_dev_busy _ _).
  assert (agree s s') as Hag by (unfold s', s1; destruct (o_w o); by split).
  assert (forall x, x ∈ U ++ D -> platter s' (sec s' (o_b x)) = platter s (sec s (o_b x)) /\ buf_data s' (o_b x) = buf_data s (o_b x) /\
      info_status s' (o_0 x) = info_status s (o_0 x)) as Hsame.
  { intros x Hx. destruct (Hxd x Hx) as [Hin Hne]. pose proof (Hxh x Hx) as Hh. unfold s', s1, sec. destruct (o_w o); cbn; rewrite !upd_ne; try done.
    intros E. apply Hne. apply c_sector0; [by apply c_small0|by apply c_small0|done]. }
  split; [|split; [unfold s', s1; by destruct (o_w o)|]].
  - eapply core_move; [exact Hc|exact Hag|..].
    + apply move_right.
    + unfold s', s1. by destruct (o_w o).
    + unfold s', s1. by destruct (o_w o).
    + rewrite map_app. unfold s', s1. destruct (o_w o); cbn; (apply window_push; [done|rewrite length_map; lia]).
    + intros x Hx. assert (buf_disk s' = buf_disk s) as -> by (unfold s', s1; by destruct (o_w o)). apply c_active0.
      rewrite !elem_of_app, list_elem_of_singleton in Hx. rewrite !elem_of_app, elem_of_cons. tauto.
    + intros x Hx. assert (buf_disk s' = buf_disk s) as -> by (unfold s', s1; by destruct (o_w o)). auto.
    + intros x Hx. rewrite <- (assoc_L (++)) in Hx. apply elem_of_app in Hx as [Hx|Hx]; [|apply elem_of_cons in Hx as [->|Hx]].
      * destruct (Hsame x) as (-> & -> & ->); [apply elem_of_app; by left|]. apply c_done0, elem_of_app. by left.
      * unfold s', s1, sec. destruct (o_w o); cbn; by rewrite !upd_eq.
      * destruct (Hsame x) as (-> & -> & ->); [apply elem_of_app; by right|]. apply c_done0, elem_of_app. by right.
  - destruct (c_chain0 o Ho) as (_ & _ & _ & H4 & H5). intros t. apply agree_rely; [done| |].
    + intros Hw. unfold s', s1. destruct (o_w o) eqn:Ew; cbn; [done|]. apply upd_ne. intros ->.
      specialize (Hw _ H5). rewrite H4 in Hw. done.
    + intros Hlt Hw. unfold s', s1, sec. destruct (o_w o) eqn:Ew; cbn; [|done]. apply upd_ne. intros E.
      assert (t = o_b o) as -> by (apply c_sector0; [done|by apply c_small0|done]). specialize (Hw _ H5). rewrite H4 in Hw. done.
Qed.

Definition seen_one (b : nat) (s : vdisk) : vdisk :=
  set_v_used_idx (u16 (v_used_idx s + 1)) (set_v_woken (v_woken s ++ [ChBuf b]) (set_buf_disk (upd (buf_disk s) b false) s)).

Lemma intr_one s P T o U D : core s P T (o :: U) D ->
  intr_step tt s = Ret (inl tt) (seen_one (o_b o) s) /\ core (seen_one (o_b o) s) P T U (D ++ [o]) /\ forall t, rely t s (seen_one (o_b o) s).
Proof.
  intros Hc. pose proof Hc as []. assert (o ∈ P ++ T ++ (o :: U) ++ D) as Ho by (rewrite !elem_of_app, elem_of_cons; tauto).
  assert (length (P ++ T ++ (o :: U) ++ D) <= 2)%nat as Hl by (by apply few_ops). rewrite !length_app in Hl. cbn in Hl.
  cbn [map] in c_used0. destruct (window_pop _ _ _ _ _ c_used0) as (Hx & Hne & Hw); [rewrite length_map; lia|].
  destruct (c_chain0 o Ho) as (_ & _ & _ & _ & Hi). destruct (c_done0 o) as [Hst _]; [by left|]. split; [|split].
  - unfold intr_step, bind, gets, id, wakeup, modify, ret. cbn [obind]. rewrite (proj2 (Z.eqb_neq _ _) Hne), Hx, Hst. cbn. by rewrite Hi.
  - assert (forall x, x ∈ P ++ T ++ U ++ D -> o_b x <> o_b o) as Hb.
    { intros x Hin E. assert (P ++ T ++ (o :: U) ++ D ≡ₚ o :: P ++ T ++ U ++ D) as Hp.
      { cbn. rewrite <- (Permutation_middle T), <- (Permutation_middle P). done. }
      assert (NoDup (map o_b (o :: P ++ T ++ U ++ D))) as Hd by (by rewrite <- Hp). cbn in Hd. apply NoDup_cons in Hd as [Hd _].
      apply Hd. rewrite <- E. by apply list_elem_of_fmap_2. }
    eapply core_move; [exact Hc|by split|..]; cbn; try done.
    + rewrite (assoc_L (++) U), (Permutation_app_comm (U ++ D) [o]). cbn. done.
    + intros x Hin. rewrite upd_ne; [apply c_active0; rewrite !elem_of_app, elem_of_cons in *; tauto|]. apply Hb. rewrite !elem_of_app in *. tauto.
    + intros x Hin. apply elem_of_app in Hin as [Hin|Hin]; [|apply list_elem_of_singleton in Hin as ->; apply upd_eq].
      rewrite upd_ne; [auto|]. apply Hb. rewrite !elem_of_app. tauto.
    + intros x Hin. apply c_done0. rewrite (assoc_L (++)), elem_of_app, list_elem_of_singleton in Hin. cbn. rewrite elem_of_cons. tauto.
  - intros t. apply agree_rely; by try split.
Qed.

Lemma intr_loop P T U : forall D f s, core s P T U D -> (length U < f)%nat ->
  wp (loop f intr_step tt) (fun _ s' => exists D', core s' P T [] D' /\ vdisk_lock s' = vdisk_lock s /\ forall t, rely t s s') s.
Proof.
  induction U as [|o U IH]; intros D f s Hc Hf; (destruct f as [|f]; [lia|]); unfold wp; cbn [loop]; unfold bind.
  - assert (intr_step tt s = Ret (inr tt) s) as ->.
    { unfold intr_step, bind, gets, id. cbn. by rewrite (window_empty _ _ _ (c_used _ _ _ _ _ Hc)), Z.eqb_refl. }
    cbn. exists D. split; [done|]. split; [done|intros t; apply rely_refl].
  - destruct (intr_one _ _ _ _ _ _ Hc) as (-> & Hc' & Hr). cbn [obind]. cbn in Hf. eapply wp_mono; [eapply IH; [done|lia]|].
    intros [] s' (D' & H1 & H2 & H3). exists D'. split; [done|]. split; [done|]. intros t. eapply rely_trans; [apply Hr|apply H3].
Qed.

Lemma set_lock_core s b P T U D : core s P T U D -> core (set_vdisk_lock b s) P T U D.
Proof. apply same_core. by split. Qed.
Lemma set_lock_rely s b t : rely t s (set_vdisk_lock b s).
Proof. apply same_rely. by split. Qed.

(** The handler returns, whatever is on the used ring. *)
Lemma virtio_disk_intr_spec s : vinv s -> wp virtio_disk_intr (fun _ s' => vinv s' /\ forall t, rely t s s') s.
Proof.
  intros (Hl & P & T & U & D & Hc). unfold virtio_disk_intr. wp_step. apply wp_acquire; [done|]. wp_step.
  assert (length U <= 2)%nat as HU.
  { pose proof (few_ops _ (c_nodup _ _ _ _ _ Hc) (c_range _ _ _ _ _ Hc)) as H. rewrite !length_app in H. lia. }
  eapply wp_mono; [eapply (intr_loop P T U D); [apply (set_lock_core s true), Hc|unfold NUM; lia]|].
  intros [] s1 (D' & H1 & H2 & H3). apply wp_release; [done|]. split.
  - split; [done|]. exists P, T, [], D'. by apply (set_lock_core s1 false).
  - intros t. eapply rely_trans; [apply (set_lock_rely s true)|]. eapply rely_trans; [apply H3|apply (set_lock_rely s1 false)].
Qed.

Lemma busy_split (T : list oper) pre h post : map o_0 T = pre ++ h :: post ->
  exists T1 o T2, T = T1 ++ o :: T2 /\ o_0 o = h /\ map o_0 (T1 ++ T2) = pre ++ post.
Proof.
  intros E. apply map_eq_app in E as (T1 & T' & -> & E1 & E2). apply map_eq_cons in E2 as (o & T2 & -> & E2 & E3).
  exists T1, o, T2. rewrite map_app, E1, E3. done.
Qed.

Lemma env_ok s s' : vinv s -> env s s' -> vinv s' /\ forall t, rely t s s'.
Proof.
  intros Hv [s1 E|pre h post s1 s2 Eb E ->|s1 E].
  - destruct Hv as (Hl & P & T & U & D & Hc). destruct (dev_take_ok _ _ _ _ _ _ Hc E) as (P' & T' & Hc' & Hag & Hd & Hp & Hl').
    split; [split; [congruence|by exists P', T', U, D]|]. intros t. apply agree_rely; [done| |]; intros; congruence.
  - destruct Hv as (Hl & P & T & U & D & Hc). rewrite (c_busy _ _ _ _ _ Hc) in Eb. apply busy_split in Eb as (T1 & o & T2 & -> & <- & Em).
    destruct (dev_complete_ok _ _ _ _ _ _ _ Hc) as (s2 & E2 & Hc' & Hl' & Hr). rewrite E in E2. injection E2 as <-. rewrite <- Em.
    split; [split; [cbn in *; congruence|eauto]|done].
  - pose proof (virtio_disk_intr_spec s Hv) as H. unfold wp in H. by rewrite E in H.
Qed.

(** ** Completing a request *)

Lemma free_chain_spec s0 s o : chain_ok s0 o -> v_desc s = v_desc s0 -> NoDup (o_idx o) ->
  (forall i, i ∈ o_idx o -> 0 <= i < NUM /\ v_free s i = false) ->
  exists s', free_chain (o_0 o) s = Ret tt s' /\
    v_free s' = upd (upd (upd (v_free s) (o_0 o) true) (o_1 o) true) (o_2 o) true /\
    (forall i, i ∉ o_idx o -> v_desc s' i = v_desc s i) /\
    s' = set_v_free (v_free s') (set_v_desc (v_desc s') (set_v_woken (v_woken s') s)).
Proof.
  intros (H1 & H2 & H3 & _ & _) Ed Hd Hf. rewrite <- Ed in H1, H2, H3. unfold o_idx in *. rewrite !NoDup_cons, !not_elem_of_cons in Hd. destruct Hd as ((N1 & N2 & _) & (N3 & _) & _).
  destruct (Hf (o_0 o)) as [R0 F0]; [by left|]. destruct (Hf (o_1 o)) as [R1 F1]; [right; by left|]. destruct (Hf (o_2 o)) as [R2 F2]; [right; right; by left|].
  assert (wp (free_chain (o_0 o)) (fun _ s' => v_free s' = upd (upd (upd (v_free s) (o_0 o) true) (o_1 o) true) (o_2 o) true /\
    (forall i, i ∉ [o_0 o; o_1 o; o_2 o] -> v_desc s' i = v_desc s i) /\
    s' = set_v_free (v_free s') (set_v_desc (v_desc s') (set_v_woken (v_woken s') s))) s) as Hwp.
  { unfold free_chain. change (S (Z.to_nat NUM)) with 9%nat. cbn [loop]. wp_step. unfold free_chain_step at 1. wp_step. wp_step. wp_step. apply free_desc_spec; [done|done|]. intros s1 E1.
    rewrite H1. cbn [d_flags d_next]. change (negb _) with true. cbv iota. wp_step.
    wp_step. unfold free_chain_step at 1. wp_step. wp_step. wp_step. apply free_desc_spec; [done|rewrite E1; cbn; by rewrite upd_ne|]. intros s2 E2.
    assert (v_desc s1 (o_1 o) = v_desc s (o_1 o)) as -> by (rewrite E1; cbn; by rewrite upd_ne).
    rewrite H2. cbn [d_flags d_next].
    assert (negb (Z.land (Z.lor (if o_w o then 0 else VRING_DESC_F_WRITE) VRING_DESC_F_NEXT) VRING_DESC_F_NEXT =? 0) = true) as -> by (by destruct (o_w o)).
    wp_step. wp_step. unfold free_chain_step at 1. wp_step. wp_step. wp_step.
    apply free_desc_spec; [done|rewrite E2, E1; cbn; by rewrite !upd_ne|]. intros s3 E3.
    assert (v_desc s2 (o_2 o) = v_desc s (o_2 o)) as -> by (rewrite E2, E1; cbn; by rewrite !upd_ne).
    rewrite H3. cbn [d_flags]. change (negb _) with false. cbv iota. wp_step. wp_step. rewrite E3, E2, E1. cbn. split; [done|]. split; [|done].
    intros i. rewrite !not_elem_of_cons. intros (A1 & A2 & A3 & _). by rewrite !upd_ne. }
  unfold wp in Hwp. destruct (free_chain (o_0 o) s) as [[] s'| | |]; try done. by exists s'.
Qed.

Section Finish.
Context (s s' : vdisk) (P T U D1 D2 : list oper) (o : oper).
Context (Hc : core s P T U (D1 ++ o :: D2)).
Context (Hfree : v_free s' = upd (upd (upd (v_free s) (o_0 o) true) (o_1 o) true) (o_2 o) true)
        (Hdesc : forall i, i ∉ o_idx o -> v_desc s' i = v_desc s i)
        (Hs' : s' = set_v_free (v_free s') (set_v_desc (v_desc s') (set_v_woken (v_woken s') (set_info_b (upd (info_b s) (o_0 o) None) s)))).
Notation O := (P ++ T ++ U ++ D1 ++ o :: D2).
Notation O' := (P ++ T ++ U ++ D1 ++ D2).

Lemma fin_perm : O ≡ₚ o :: O'.
Proof. by rewrite <- (Permutation_middle D1), <- (Permutation_middle U), <- (Permutation_middle T), <- (Permutation_middle P). Qed.
Lemma fin_sub x : x ∈ O' -> x ∈ O.
Proof. rewrite fin_perm, elem_of_cons. tauto. Qed.
Lemma fin_apart x i : x ∈ O' -> i ∈ o_idx x -> i ∉ o_idx o.
Proof.
  intros Hx Hi Hin. pose proof (c_nodup _ _ _ _ _ Hc) as Hd. assert (NoDup (indices (o :: O'))) as Hd'.
  { assert (indices O ≡ₚ indices (o :: O')) as <- by (unfold indices; by rewrite fin_perm). done. }
  change (indices (o :: O')) with (o_idx o ++ indices O') in Hd'. apply NoDup_app in Hd' as (_ & Hd' & _).
  apply (Hd' i Hin), elem_of_indices. eauto.
Qed.
Lemma fin_bufs x : x ∈ O' -> o_b x <> o_b o.
Proof.
  intros Hx E. assert (NoDup (map o_b (o :: O'))) as Hd by (rewrite <- fin_perm; apply (c_bufs _ _ _ _ _ Hc)).
  cbn in Hd. apply NoDup_cons in Hd as [Hd _]. apply Hd. rewrite <- E. by apply list_elem_of_fmap_2.
Qed.

Lemma finish_core : core s' P T U (D1 ++ D2).
Proof.
  pose proof Hc as []. assert (indices O ≡ₚ o_idx o ++ indices O') as Hi by (unfold indices; by rewrite fin_perm).
  assert (NoDup (o_idx o ++ indices O')) as Hd by (by rewrite <- Hi). apply NoDup_app in Hd as (_ & Hd & Hd').
  split; try (rewrite Hs'; cbn; done).
  - exact Hd'.
  - intros i Hin. apply c_range0. rewrite Hi, elem_of_app. by right.
  - intros i Hr. rewrite Hfree. specialize (c_free0 i Hr). rewrite Hi, elem_of_app in c_free0. specialize (Hd i).
    unfold upd, o_idx in *. rewrite !elem_of_cons, elem_of_nil in *. repeat case_decide; naive_solver.
  - rewrite fin_perm in c_bufs0. cbn in c_bufs0. by apply NoDup_cons in c_bufs0 as [_ ?].
  - intros x Hx. by apply c_small0, fin_sub.
  - intros x Hx. pose proof (c_chain0 x (fin_sub x Hx)) as (H1 & H2 & H3 & H4 & H5).
    unfold chain_ok. rewrite !Hdesc by (eapply fin_apart; [done|unfold o_idx; rewrite !elem_of_cons; tauto]).
    rewrite Hs'. cbn. rewrite upd_ne; [done|]. intros E. apply (fin_apart x (o_0 x) Hx); [by left|rewrite E; by left].
  - intros i b. rewrite Hs'. cbn. unfold upd. case_decide as E; [done|]. intros Hib. destruct (c_info0 i b Hib) as (x & Hx & E1 & E2).
    rewrite fin_perm, elem_of_cons in Hx. destruct Hx as [->|Hx]; [congruence|]. by exists x.
  - intros x Hx. rewrite Hs'. cbn. apply c_seen0. rewrite elem_of_app, elem_of_cons. rewrite elem_of_app in Hx. tauto.
  - intros x Hx. rewrite Hs'. cbn. apply c_done0. rewrite !elem_of_app, elem_of_cons. rewrite !elem_of_app in Hx. tauto.
Qed.
Lemma finish_rely t : t <> o_b o -> rely t s s'.
Proof.
  intros Ht. assert (o ∈ O) as Ho by (rewrite fin_perm; by left). destruct (c_chain _ _ _ _ _ Hc o Ho) as (_ & _ & _ & _ & Hi).
  rewrite Hs'. split; cbn; try done. intros i. unfold upd. case_decide; [subst; rewrite Hi; split; congruence|done].
Qed.
End Finish.

Lemma sub_idx_nodup O o : NoDup (indices O) -> o ∈ O -> NoDup (o_idx o).
Proof.
  intros Hd Ho. apply list_elem_of_split in Ho as (O1 & O2 & ->). rewrite indices_app in Hd.
  apply NoDup_app in Hd as (_ & _ & Hd). change (indices (o :: O2)) with (o_idx o ++ indices O2) in Hd. by apply NoDup_app in Hd as [Hd _].
Qed.

(** ** A process transferring a block *)

Notation VRG := (rg vinv rely).
Definition cored (s : vdisk) : Prop := exists P T U D, core s P T U D.
Definition noop (b : nat) (s : vdisk) : Prop := forall i, info_b s i <> Some b.
Lemma noop_rely b s s' : rely b s s' -> noop b s -> noop b s'.
Proof. intros Hr Hn i Hi. by apply (Hn i), (re_info _ _ _ Hr). Qed.

Lemma unlock_ok s s0 b : cored s -> (forall t, t <> b -> rely t s0 s) ->
  vinv (set_vdisk_lock false s) /\ forall t, t <> b -> rely t s0 (set_vdisk_lock false s).
Proof.
  intros (P & T & U & D & Hc) Hr. split; [split; [done|]; exists P, T, U, D; by apply set_lock_core|].
  intros t Ht. eapply rely_trans; [by apply Hr|apply set_lock_rely].
Qed.
Lemma relock_ok s : vinv s -> vdisk_lock s = false /\ cored (set_vdisk_lock true s) /\ forall t, rely t s (set_vdisk_lock true s).
Proof.
  intros (Hl & P & T & U & D & Hc). split; [done|]. split; [exists P, T, U, D; by apply set_lock_core|]. intros t. apply set_lock_rely.
Qed.

Section Thread.
Context (b : nat) (Hb : (b < nbuf)%nat).

(** Waiting for three descriptors; [sS] is the state the call started in. *)
Lemma rg_alloc {B} sS (Q : B -> vdisk -> Prop) (K : Z * Z * Z -> M vdisk B) :
  (forall s0 s s1 i0 i1 i2, vdisk_lock s = true -> cored s -> noop b s -> (forall t, t <> b -> rely t s0 s) ->
     rely b sS s -> allocated s s1 i0 i1 i2 -> VRG b Q s0 (K (i0, i1, i2) s1)) ->
  forall fuel s0 s, vdisk_lock s = true -> cored s -> noop b s -> (forall t, t <> b -> rely t s0 s) -> rely b sS s ->
  VRG b Q s0 (bind (loop fuel alloc_wait tt) K s).
Proof.
  intros HK. induction fuel as [|fuel IH]; intros s0 s Hl Hc Hn Ho Hs; [done|]. cbn [loop].
  rewrite bind_assoc. unfold alloc_wait at 1. rewrite bind_assoc. apply rg_bind_wp.
  eapply wp_mono; [apply alloc3_desc_spec|]. intros [[[i0 i1] i2]|] s1.
  - intros Ha. cbn. by apply (HK s0 s s1).
  - intros [Hsame El]. destruct Hc as (P & T & U & D & Hc). pose proof (same_core _ _ _ _ _ _ Hsame Hc) as Hc1.
    assert (forall t, t <> b -> rely t s0 s1) as Ho1 by (intros t Ht; eapply rely_trans; [by apply Ho|by apply same_rely]).
    assert (rely b sS s1) as Hs1 by (eapply rely_trans; [done|by apply same_rely]).
    destruct (unlock_ok s1 s0 b) as [Hi Hg]; [by exists P, T, U, D|done|].
    rewrite bind_assoc. apply rg_sleep; [cbn; congruence|done|done|]. intros s2 Hv Hr.
    destruct (relock_ok s2 Hv) as (Hl2 & Hc2 & Hr2). split; [done|].
    assert (rely b s1 (set_vdisk_lock true s2)) as H12.
    { eapply rely_trans; [apply (set_lock_rely s1 false)|]. eapply rely_trans; [exact Hr|apply Hr2]. }
    change (VRG b Q s2 (bind (loop fuel alloc_wait tt) K (set_vdisk_lock true s2))).
    apply IH; [done|done| |intros; apply Hr2|by eapply rely_trans].
    apply (noop_rely b s1); [done|]. apply (noop_rely b s); [by apply same_rely|done].
Qed.

(** Waiting for the completion; [sT] is the state after the submission. *)
Lemma rg_done {B} sT i0 (Q : B -> vdisk -> Prop) (K : unit -> M vdisk B) :
  info_b sT i0 = Some b ->
  (forall s0 s, vdisk_lock s = true -> cored s -> (forall t, t <> b -> rely t s0 s) ->
     rely b sT s -> buf_disk s b = false -> VRG b Q s0 (K tt s)) ->
  forall fuel s0 s, vdisk_lock s = true -> cored s -> (forall t, t <> b -> rely t s0 s) -> rely b sT s ->
  VRG b Q s0 (bind (loop fuel (done_wait b) tt) K s).
Proof.
  intros Hi HK. induction fuel as [|fuel IH]; intros s0 s Hl Hc Ho Hs; [done|]. cbn [loop].
  rewrite bind_assoc. unfold done_wait at 1. rewrite bind_assoc. apply rg_bind_wp. apply wp_gets. unfold id.
  destruct (buf_disk s b) eqn:Ed; [|cbn; by apply HK].
  destruct (unlock_ok s s0 b) as [Hv Hg]; [done|done|]. rewrite bind_assoc. apply rg_sleep; [done|done|done|]. intros s2 Hv2 Hr.
  destruct (relock_ok s2 Hv2) as (Hl2 & Hc2 & Hr2). split; [done|].
  change (VRG b Q s2 (bind (loop fuel (done_wait b) tt) K (set_vdisk_lock true s2))).
  apply IH; [done|done|intros; apply Hr2|]. eapply rely_trans; [done|]. eapply rely_trans; [apply (set_lock_rely s false)|].
  eapply rely_trans; [exact Hr|apply Hr2].
Qed.

(** The process and what it checks when the call returns. *)
Definition transferred (w : bool) (s s' : vdisk) : Prop :=
  buf_data s' b = platter s' (sec s b) /\
  (if w then buf_data s' b = buf_data s b else platter s' (sec s b) = platter s (sec s b)).
#[global] Instance transferred_dec w s s' : Decision (transferred w s s').
Proof. unfold transferred. destruct w; apply _. Defined.
Definition rw_checked (fuel : nat) (w : bool) : M vdisk unit :=
  let* s := gets id in
  virtio_disk_rw fuel b w ;;
  let* s' := gets id in
  if decide (transferred w s s') then ret tt else panic "wrong block".

Lemma rw_checked_rg fuel w s : vinv s -> noop b s -> VRG b (fun _ _ => True) s (rw_checked fuel w s).
Proof.
  intros Hv Hn. unfold rw_checked. apply rg_bind_wp, wp_gets. unfold id at 1. unfold virtio_disk_rw. rewrite bind_assoc.
  destruct (relock_ok s Hv) as (Hl & Hc & Hr). apply rg_bind_wp, wp_acquire; [done|]. rewrite bind_assoc.
  apply (rg_alloc s); [|done|done|by apply (noop_rely b s)|intros; apply Hr|apply Hr].
  intros s0 s1 s2 i0 i1 i2 Hl1 (P & T & U & D & Hc1) Hn1 Ho1 Hs1 Ha. set (o := mkOper i0 i1 i2 b w).
  rewrite bind_assoc. apply rg_bind_wp. unfold wp. rewrite submit_eq. fold o. set (sT := submitted s2 o).
  assert (core sT (P ++ [o]) T U D) as HcT by (by apply (submit_core s1)).
  assert (vdisk_lock sT = true) as HlT by (unfold sT; rewrite (s1_eq s1 s2 o Ha); done).
  assert (forall t, t <> b -> rely t s0 sT) as HoT.
  { intros t Ht. eapply rely_trans; [by apply Ho1|]. by apply (submit_rely s1 s2 P T U D o). }
  assert (info_b sT i0 = Some b) as HiT by (unfold sT; cbn; apply upd_eq).
  assert (buf_data sT b = buf_data s b /\ platter sT (sec s b) = platter s (sec s b) /\ sec sT b = sec s b) as (HdT & HpT & HsT).
  { assert (buf_data sT = buf_data s1 /\ platter sT = platter s1 /\ buf_blockno sT = buf_blockno s1) as (-> & -> & Eb) by (unfold sT; by rewrite (s1_eq s1 s2 o Ha)).
    destruct Hs1 as [R1 R2 R3 R4 R5]. split; [apply R4; intros i Hi; by apply Hn in Hi|]. split; [apply R5; [done|]; intros i Hi; by apply Hn in Hi|].
    unfold sec. by rewrite Eb, R1. }
  assert (q_type (v_ops sT i0) = if w then VIRTIO_BLK_T_OUT else VIRTIO_BLK_T_IN) as HqT by (unfold sT; cbn; rewrite upd_eq; done).
  assert (forall i, info_b sT i = Some b -> i = i0) as HuT.
  { intros i Hi. symmetry. apply (owner sT _ _ _ _ i b o HcT); [done| |done]. rewrite !elem_of_app, list_elem_of_singleton. tauto. }
  rewrite bind_assoc. apply (rg_done sT i0); [done| |done|by exists (P ++ [o]), T, U, D|done|apply rely_refl].
  intros s3 s4 Hl4 (P4 & T4 & U4 & D4 & Hc4) Ho4 Hs4 Hdone. cbn [fst snd]. rewrite bind_assoc. apply rg_bind_wp, wp_modify.
  pose proof (proj1 (re_info _ _ _ Hs4 i0) HiT) as Hi4. destruct (c_info _ _ _ _ _ Hc4 i0 b Hi4) as (o4 & Hin4 & E0 & Eb4).
  assert (o4 ∈ D4) as HD4.
  { assert (buf_disk s4 (o_b o4) = false) as Hoff by congruence. pose proof (c_active _ _ _ _ _ Hc4 o4) as Hact.
    rewrite !elem_of_app in Hact. pose proof Hin4 as Hcase. rewrite !elem_of_app in Hcase. destruct Hcase as [Hx|[Hx|[Hx|Hx]]]; [| | |exact Hx]; (rewrite Hact in Hoff by tauto; discriminate). }
  apply list_elem_of_split in HD4 as (D5 & D6 & ->).
  set (s5 := set_info_b _ s4). assert (forall i, i ∈ o_idx o4 -> i ∈ indices (P4 ++ T4 ++ U4 ++ D5 ++ o4 :: D6)) as Hidx.
  { intros i Hi. apply elem_of_indices. eauto. }
  destruct (free_chain_spec s4 s5 o4) as (s6 & Efc & Hf6 & Hd6 & Hs6); [by apply (c_chain _ _ _ _ _ Hc4)|done| | |].
  { eapply sub_idx_nodup; [apply (c_nodup _ _ _ _ _ Hc4)|exact Hin4]. }
  { intros i Hi. pose proof (c_range _ _ _ _ _ Hc4 i (Hidx i Hi)) as Hri. split; [done|]. by apply (c_free _ _ _ _ _ Hc4), Hidx. }
  rewrite bind_assoc. apply rg_bind_wp. unfold wp. rewrite <- E0, Efc. apply rg_bind_wp.
  assert (core s6 P4 T4 U4 (D5 ++ D6)) as Hc6.
  { eapply (finish_core s4 s6); [exact Hc4|done|done|]. rewrite Hs6. unfold s5. by rewrite E0. }
  assert (forall t, t <> b -> rely t s4 s6) as Hr6.
  { intros t Ht. eapply (finish_rely s4 s6); [exact Hc4| |congruence]. rewrite Hs6. unfold s5. by rewrite E0. }
  apply wp_release; [rewrite Hs6; exact Hl4|]. destruct (unlock_ok s6 s3 b) as [Hv7 Hg7].
  { by exists P4, T4, U4, (D5 ++ D6). }
  { intros t Ht. eapply rely_trans; [by apply Ho4|by apply Hr6]. }
  apply rg_bind_wp, wp_gets. unfold id. rewrite decide_True; [by apply rg_ret_step|].
  destruct (c_done _ _ _ _ _ Hc4 o4) as [_ Hpl]; [rewrite elem_of_app, elem_of_app, elem_of_cons; tauto|].
  assert (sec s4 b = sec s b) as Hsec by (rewrite <- HsT; unfold sec; by rewrite (re_blockno _ _ _ Hs4)).
  rewrite Eb4, Hsec in Hpl. unfold transferred. rewrite Hs6. cbn. split; [done|]. destruct w.
  - rewrite (re_data _ _ _ Hs4); [done|]. intros i Hi. by rewrite (HuT i Hi).
  - rewrite <- HpT, <- HsT. apply (re_platter _ _ _ Hs4); [done|]. intros i Hi. by rewrite (HuT i Hi).
Qed.
End Thread.

(** ** All processes, the device and the interrupts together *)

(** After virtio_disk_init: every descriptor free, the rings empty, and the
    buffers caching distinct blocks. *)
Record idle (s : vdisk) : Prop := {
  i_lock : vdisk_lock s = false;
  i_free : forall i, 0 <= i < NUM -> v_free s i = true;
  i_info : forall i, info_b s i = None;
  i_avail : 0 <= dev_seen s < 65536 /\ avail_idx s = dev_seen s;
  i_used : 0 <= v_used_idx s < 65536 /\ used_idx_dev s = v_used_idx s;
  i_busy : dev_busy s = [];
  i_sector : forall b c, (b < nbuf)%nat -> (c < nbuf)%nat -> sec s b = sec s c -> b = c;
}.

Lemma idle_core s : idle s -> core s [] [] [] [].
Proof.
  intros []. split; cbn; try done; try (by apply NoDup_nil); try (by intros ? ?%elem_of_nil).
  - intros i Hi. rewrite i_free0 by done. split; [done|by intros ?%elem_of_nil].
  - intros i b. by rewrite i_info0.
  - destruct i_avail0 as [H1 H2]. split; [done| |done]. cbn. rewrite Z.add_0_r. unfold u16. rewrite Z.mod_small; done.
  - destruct i_used0 as [H1 H2]. split; [done| |done]. cbn. rewrite Z.add_0_r. unfold u16. rewrite Z.mod_small; done.
Qed.

(** One process per buffer, each reading or writing its block. *)
Definition disk_users (fuel : nat) (l : list (nat * bool)) : list (nat * thread vdisk) :=
  map (fun p => (p.1, rw_checked p.1 fuel p.2)) l.

Lemma disk_users_ok fuel l s : idle s -> NoDup (map fst l) -> Forall (fun p => (p.1 < nbuf)%nat) l ->
  sys_ok vinv rely (disk_users fuel l, s).
Proof.
  intros Hi Hd Hf. split; [split; [apply Hi|]; exists [], [], [], []; by apply idle_core|]. cbn. split.
  - unfold disk_users. by rewrite map_map.
  - unfold disk_users. apply Forall_map. eapply Forall_impl; [exact Hf|]. intros [b w] Hb. exists s. cbn. split; [apply rely_refl|].
    intros s' Hv Hr. apply rw_checked_rg; [done|done|]. apply (noop_rely b s); [done|]. intros i. by rewrite (i_info _ Hi).
Qed.

Lemma disk_users_safe fuel l s p : idle s -> NoDup (map fst l) -> Forall (fun p => (p.1 < nbuf)%nat) l ->
  rtc (sys_step env) (disk_users fuel l, s) p ->
  sys_ok vinv rely p /\ forall t m msg, (t, m) ∈ p.1 -> m p.2 <> Panic msg.
Proof.
  intros Hi Hd Hf Hs. eapply (sys_safe vinv rely env); [apply rely_refl|apply rely_trans| | |exact Hs|by apply disk_users_ok].
  - intros s1 s2 Hv He. by apply (env_ok s1 s2).
  - intros t s1 s2 Hv He. by apply (env_ok s1 s2).
Qed.

(** C32: virtio_disk_rw, virtio_disk_intr and the device together.  However
    processes transferring blocks through distinct buffers interleave with
    each other, with the device taking and completing requests in any order
    and with its interrupts: no process panics, in the driver (double free of
    a descriptor, bad lock use) or in its own check that on return the buffer
    and the disk block agree, that a write left the buffer as it was and a
    read left the block as it was; every chain the device holds is well
    formed, so it can complete it; and the interrupt handler returns (no bad
    status, no lost buffer, within [NUM] completions). *)
Theorem virtio_disk_correct fuel l s ts s' :
  idle s -> NoDup (map fst l) -> Forall (fun p => (p.1 < nbuf)%nat) l ->
  rtc (sys_step env) (disk_users fuel l, s) (ts, s') ->
  (forall b m msg, (b, m) ∈ ts -> m s' <> Panic msg) /\
  (forall h, h ∈ dev_busy s' -> is_Some (dev_complete h s')) /\
  exists s'', virtio_disk_intr s' = Ret tt s''.
Proof.
  intros Hi Hd Hf Hs. destruct (disk_users_safe fuel l s _ Hi Hd Hf Hs) as [(Hv & _ & _) Hp]. cbn in Hv. split; [exact Hp|]. split.
  - intros h Hh. destruct Hv as (_ & P & T & U & D & Hc). apply list_elem_of_split in Hh as (pre & post & E).
    rewrite (c_busy _ _ _ _ _ Hc) in E. apply busy_split in E as (T1 & o & T2 & -> & <- & _).
    destruct (dev_complete_ok _ _ _ _ _ _ _ Hc) as (s2 & -> & _). done.
  - pose proof (virtio_disk_intr_spec s' Hv) as H. unfold wp in H. destruct (virtio_disk_intr s') as [[] s''| | |]; try done. by exists s''.
Qed.

Definition vdisk0 : vdisk :=
  mkVd false (fun _ => true) (fun _ => mkDesc ANull 0 0 0) (fun _ => mkReq 0 0 0) (fun _ => None) (fun _ => 0)
    (fun _ => 0) 65535 (fun _ => 0) 65535 65535 (fun _ => false) (fun b => [Z.of_nat b]) Z.of_nat (fun _ => [7]) 65535 [] [].
Lemma vdisk0_idle : idle vdisk0.
Proof.
  split; try done. intros b c Hb Hc. unfold sec, sector_of. cbn -[Z.mul Z.div]. change (BSIZE / 512) with 2. unfold nbuf, NBUF in *.
  change (Z.to_nat (MAXOPBLOCKS * 3)) with 30%nat in *. rewrite !u32_small by lia. lia.
Qed.
(** Reading block 3 into buffer 3: submitted, taken, completed, seen. *)
Definition run1 : vdisk := state_or vdisk0 (rw_checked 3 5 false vdisk0).
Definition run2 : vdisk := default run1 (dev_take run1).
Definition run3 : vdisk := set_dev_busy [] (default run2 (dev_complete 0 run2)).
Definition run4 : vdisk := state_or vdisk0 (virtio_disk_intr run3).
Definition reader : thread vdisk := rest_of (rw_checked 3 5 false vdisk0).

Lemma run1_eq : rw_checked 3 5 false vdisk0 = Sleep (ChBuf 3) run1 reader.
Proof. unfold run1, reader. apply sleep_eta. vm_compute. reflexivity. Qed.
Lemma run2_eq : dev_take run1 = Some run2.
Proof. unfold run2. apply some_eta. vm_compute. reflexivity. Qed.
Lemma run2_busy : dev_busy run2 = [0].
Proof. vm_compute. reflexivity. Qed.
Lemma run3_eq : dev_complete 0 run2 = Some (default run2 (dev_complete 0 run2)).
Proof. apply some_eta. vm_compute. reflexivity. Qed.
Lemma run4_eq : virtio_disk_intr run3 = Ret tt run4.
Proof. unfold run4. apply ret_eta. vm_compute. reflexivity. Qed.
Lemma disk_run : rtc (sys_step env) (disk_users 5 [(3%nat, false)], vdisk0) ([(3%nat, reader)], run4).
Proof.
  eapply rtc_l; [exact (sys_sleep env [] 3%nat (rw_checked 3 5 false) [] _ (ChBuf 3) run1 reader run1_eq)|].
  eapply rtc_l; [exact (sys_env env _ _ run2 (env_take _ _ run2_eq))|].
  eapply rtc_l; [exact (sys_env env _ _ run3 (env_complete run2 [] 0 [] _ run3 run2_busy run3_eq eq_refl))|].
  eapply rtc_l; [exact (sys_env env _ _ run4 (env_intr _ _ run4_eq))|]. apply rtc_refl.
Qed.

Lemma virtio_disk_correct_witness :
  (forall msg, reader run4 <> Panic msg) /\ (exists s, virtio_disk_intr run4 = Ret tt s) /\
  buf_data run4 3 = [7] /\ dev_busy run2 = [0].
Proof.
  destruct (virtio_disk_correct 5 [(3%nat, false)] vdisk0 [(3%nat, reader)] run4 vdisk0_idle) as (H1 & _ & H2); [| |exact disk_run|].
  - apply NoDup_singleton.
  - apply Forall_singleton. cbn. unfold nbuf, NBUF. vm_compute. lia.
  - split; [intros msg; apply (H1 3%nat); by left|]. split; [exact H2|]. split; vm_compute; reflexivity.
Defined.
