(* ===== verification/VirtioInit.v ===== *)
(** * kernel/virtio_disk.c: bringing the disk up

    virtio_disk_init over the device's MMIO registers.  The device is
    hardware: what a register reads as is a parameter, a function of the
    writes made so far.  The sequence of register writes is kept in order. *)

From Stdlib Require Import ZArith Lia.
From S2P Require Import Prelude Mem StringC Params Kalloc PageTable Virtio.

Definition VIRTIO_MMIO_MAGIC_VALUE : Z := 0x000.
Definition VIRTIO_MMIO_VERSION : Z := 0x004.
Definition VIRTIO_MMIO_DEVICE_ID : Z := 0x008.
Definition VIRTIO_MMIO_VENDOR_ID : Z := 0x00c.
Definition VIRTIO_MMIO_DEVICE_FEATURES : Z := 0x010.
Definition VIRTIO_MMIO_DRIVER_FEATURES : Z := 0x020.
Definition VIRTIO_MMIO_QUEUE_SEL : Z := 0x030.
Definition VIRTIO_MMIO_QUEUE_NUM_MAX : Z := 0x034.
Definition VIRTIO_MMIO_QUEUE_NUM : Z := 0x038.
Definition VIRTIO_MMIO_QUEUE_READY : Z := 0x044.
Definition VIRTIO_MMIO_STATUS : Z := 0x070.
Definition VIRTIO_MMIO_QUEUE_DESC_LOW : Z := 0x080.
Definition VIRTIO_MMIO_QUEUE_DESC_HIGH : Z := 0x084.
Definition VIRTIO_MMIO_DRIVER_DESC_LOW : Z := 0x090.
Definition VIRTIO_MMIO_DRIVER_DESC_HIGH : Z := 0x094.
Definition VIRTIO_MMIO_DEVICE_DESC_LOW : Z := 0x0a0.
Definition VIRTIO_MMIO_DEVICE_DESC_HIGH : Z := 0x0a4.

Definition VIRTIO_CONFIG_S_ACKNOWLEDGE : Z := 1.
Definition VIRTIO_CONFIG_S_DRIVER : Z := 2.
Definition VIRTIO_CONFIG_S_DRIVER_OK : Z := 4.
Definition VIRTIO_CONFIG_S_FEATURES_OK : Z := 8.

Definition VIRTIO_BLK_F_RO : Z := 5.
Definition VIRTIO_BLK_F_SCSI : Z := 7.
Definition VIRTIO_BLK_F_CONFIG_WCE : Z := 11.
Definition VIRTIO_BLK_F_MQ : Z := 12.
Definition VIRTIO_F_ANY_LAYOUT : Z := 27.
Definition VIRTIO_RING_F_INDIRECT_DESC : Z := 28.
Definition VIRTIO_RING_F_EVENT_IDX : Z := 29.

(** The driver's pointers and free map, the register writes, memory. *)
Record vinit := mkVinit {
  vi_disk : vdisk;
  vi_desc : Z; vi_avail : Z; vi_used : Z;
  vi_writes : list (Z * Z);
  vi_pm : pm;
}.
Definition vi_pmL : lens vinit pm :=
  Lens vi_pm (fun p s => mkVinit (vi_disk s) (vi_desc s) (vi_avail s) (vi_used s) (vi_writes s) p).
Definition on_vdisk (f : vdisk -> vdisk) (s : vinit) : vinit :=
  mkVinit (f (vi_disk s)) (vi_desc s) (vi_avail s) (vi_used s) (vi_writes s) (vi_pm s).
Definition set_queues (d a u : Z) (s : vinit) : vinit :=
  mkVinit (vi_disk s) d a u (vi_writes s) (vi_pm s).

Definition clear_feature (bit features : Z) : Z := Z.land features (Z.lnot (Z.shiftl 1 bit)).
Definition negotiate (features : Z) : Z :=
  clear_feature VIRTIO_RING_F_INDIRECT_DESC
    (clear_feature VIRTIO_RING_F_EVENT_IDX
      (clear_feature VIRTIO_F_ANY_LAYOUT
        (clear_feature VIRTIO_BLK_F_MQ
          (clear_feature VIRTIO_BLK_F_CONFIG_WCE
            (clear_feature VIRTIO_BLK_F_SCSI
              (clear_feature VIRTIO_BLK_F_RO features)))))).

Section Init.
Context `{LinkerSyms} (rd : list (Z * Z) -> Z -> Z).

(** A volatile 32-bit load and store of [*R(r)]. *)
Definition reg_read (r : Z) : M vinit Z := gets (fun s => u32 (rd (vi_writes s) r)).
Definition reg_write (r v : Z) : M vinit unit :=
  modify (fun s => mkVinit (vi_disk s) (vi_desc s) (vi_avail s) (vi_used s) (vi_writes s ++ [(r, u32 v)]) (vi_pm s)).

Definition virtio_disk_init : M vinit unit :=
  modify (on_vdisk (set_vdisk_lock false)) ;;
  let* magic := reg_read VIRTIO_MMIO_MAGIC_VALUE in
  let* version := reg_read VIRTIO_MMIO_VERSION in
  let* device := reg_read VIRTIO_MMIO_DEVICE_ID in
  let* vendor := reg_read VIRTIO_MMIO_VENDOR_ID in
  if negb (magic =? 0x74726976) || negb (version =? 2) || negb (device =? 2) || negb (vendor =? 0x554d4551)
  then panic "could not find virtio disk" else
  let status := 0 in
  (* reset device *)
  reg_write VIRTIO_MMIO_STATUS status ;;
  let status := Z.lor status VIRTIO_CONFIG_S_ACKNOWLEDGE in
  reg_write VIRTIO_MMIO_STATUS status ;;
  let status := Z.lor status VIRTIO_CONFIG_S_DRIVER in
  reg_write VIRTIO_MMIO_STATUS status ;;
  let* features := reg_read VIRTIO_MMIO_DEVICE_FEATURES in
  reg_write VIRTIO_MMIO_DRIVER_FEATURES (negotiate features) ;;
  let status := Z.lor status VIRTIO_CONFIG_S_FEATURES_OK in
  reg_write VIRTIO_MMIO_STATUS status ;;
  (* re-read status to ensure FEATURES_OK is set *)
  let* status := reg_read VIRTIO_MMIO_STATUS in
  if Z.land status VIRTIO_CONFIG_S_FEATURES_OK =? 0 then panic "virtio disk FEATURES_OK unset" else
  reg_write VIRTIO_MMIO_QUEUE_SEL 0 ;;
  let* ready := reg_read VIRTIO_MMIO_QUEUE_READY in
  if negb (ready =? 0) then panic "virtio disk should not be ready" else
  let* max := reg_read VIRTIO_MMIO_QUEUE_NUM_MAX in
  if max =? 0 then panic "virtio disk has no queue 0" else
  if max <? NUM then panic "virtio disk max queue too short" else
  let* desc := zoom vi_pmL kalloc in
  let* avail := zoom vi_pmL kalloc in
  let* used := zoom vi_pmL kalloc in
  modify (set_queues desc avail used) ;;
  if (desc =? 0) || (avail =? 0) || (used =? 0) then panic "virtio disk kalloc" else
  zoom vi_pmL (mem_op (fun m => memset m desc 0 PGSIZE)) ;;
  zoom vi_pmL (mem_op (fun m => memset m avail 0 PGSIZE)) ;;
  zoom vi_pmL (mem_op (fun m => memset m used 0 PGSIZE)) ;;
  reg_write VIRTIO_MMIO_QUEUE_NUM NUM ;;
  reg_write VIRTIO_MMIO_QUEUE_DESC_LOW desc ;;
  reg_write VIRTIO_MMIO_QUEUE_DESC_HIGH (Z.shiftr desc 32) ;;
  reg_write VIRTIO_MMIO_DRIVER_DESC_LOW avail ;;
  reg_write VIRTIO_MMIO_DRIVER_DESC_HIGH (Z.shiftr avail 32) ;;
  reg_write VIRTIO_MMIO_DEVICE_DESC_LOW used ;;
  reg_write VIRTIO_MMIO_DEVICE_DESC_HIGH (Z.shiftr used 32) ;;
  reg_write VIRTIO_MMIO_QUEUE_READY 1 ;;
  for_range (Z.to_nat NUM) 0 (fun i => modify (on_vdisk (fun d => set_v_free (upd (v_free d) i true) d))) ;;
  let status := Z.lor status VIRTIO_CONFIG_S_DRIVER_OK in
  reg_write VIRTIO_MMIO_STATUS status.
End Init.

(** ** A conforming device *)

(** Section 4.2.2 of the virtio specification: what the registers of a block
    device read as.  [offered] are the features it offers and [num_max] the
    queue size.  The status register reads back what was written, except that
    the device leaves FEATURES_OK clear when the driver has accepted a feature
    it does not offer (section 3.1.1). *)
Definition driver_features (w : list (Z * Z)) : Z :=
  match List.find (fun p => p.1 =? VIRTIO_MMIO_DRIVER_FEATURES) (rev w) with Some p => p.2 | None => 0 end.
Definition features_known (offered f : Z) : Prop :=
  forall i, 0 <= i -> Z.testbit f i = true -> Z.testbit offered i = true.

Record block_device (rd : list (Z * Z) -> Z -> Z) (offered num_max : Z) : Prop := {
  bd_magic : forall w, rd w VIRTIO_MMIO_MAGIC_VALUE = 0x74726976;
  bd_version : forall w, rd w VIRTIO_MMIO_VERSION = 2;
  bd_device : forall w, rd w VIRTIO_MMIO_DEVICE_ID = 2;
  bd_vendor : forall w, rd w VIRTIO_MMIO_VENDOR_ID = 0x554d4551;
  bd_features : forall w, rd w VIRTIO_MMIO_DEVICE_FEATURES = offered;
  bd_width : 0 <= offered < 2 ^ 32;
  bd_status : forall w v, 0 <= v < 128 -> features_known offered (driver_features w) ->
    rd (w ++ [(VIRTIO_MMIO_STATUS, v)]) VIRTIO_MMIO_STATUS = v;
  bd_refused : forall w v, 0 <= v < 128 -> ~ features_known offered (driver_features w) ->
    rd (w ++ [(VIRTIO_MMIO_STATUS, v)]) VIRTIO_MMIO_STATUS = Z.land v (Z.lnot VIRTIO_CONFIG_S_FEATURES_OK);
  bd_ready : forall w, (forall v, (VIRTIO_MMIO_QUEUE_READY, v) ∉ w) -> rd w VIRTIO_MMIO_QUEUE_READY = 0;
  bd_max : forall w, u32 (rd w VIRTIO_MMIO_QUEUE_NUM_MAX) = num_max;
}.

Lemma clear_feature_bit b x i : 0 <= b -> 0 <= i -> Z.testbit (clear_feature b x) i = Z.testbit x i && negb (i =? b).
Proof.
  intros Hb Hi. unfold clear_feature. rewrite Z.land_spec, Z.lnot_spec by done. f_equal. f_equal.
  rewrite Z.shiftl_spec by done. destruct (Z.eqb_spec i b) as [->|Hne]; [by rewrite Z.sub_diag|].
  destruct (Z.ltb_spec (i - b) 0); [by apply Z.testbit_neg_r|]. apply Z.bits_above_log2; cbn; lia.
Qed.

(** The features the driver accepts: those offered, less the seven. *)
Lemma negotiate_bit x i : 0 <= i ->
  Z.testbit (negotiate x) i = Z.testbit x i && negb (bool_decide (i ∈ [5; 7; 11; 12; 27; 28; 29])).
Proof.
  intros Hi. unfold negotiate. rewrite !clear_feature_bit by done.
  assert (bool_decide (i ∈ [5; 7; 11; 12; 27; 28; 29]) = (i =? 5) || (i =? 7) || (i =? 11) || (i =? 12) || (i =? 27) || (i =? 28) || (i =? 29)) as ->.
  { case_bool_decide as Hin; rewrite !elem_of_cons, elem_of_nil in Hin; bdestruct_all; cbn; first [done|exfalso; intuition lia]. }
  unfold VIRTIO_BLK_F_RO, VIRTIO_BLK_F_SCSI, VIRTIO_BLK_F_CONFIG_WCE, VIRTIO_BLK_F_MQ, VIRTIO_F_ANY_LAYOUT, VIRTIO_RING_F_INDIRECT_DESC, VIRTIO_RING_F_EVENT_IDX.
  destruct (Z.testbit x i); cbn; [|done]. bdestruct_all; done.
Qed.

Lemma negotiate_range x : 0 <= x < 2 ^ 32 -> 0 <= negotiate x < 2 ^ 32.
Proof.
  intros Hx. assert (forall b y, 0 <= y < 2 ^ 32 -> 0 <= clear_feature b y < 2 ^ 32) as Hc.
  { intros b y Hy. unfold clear_feature. rewrite <- (Z.mod_small y (2 ^ 32)), <- Z.land_ones by lia.
    rewrite <- Z.land_assoc, (Z.land_comm (Z.ones 32)), Z.land_assoc, Z.land_ones by lia. by apply Z.mod_pos_bound. }
  unfold negotiate. by repeat apply Hc.
Qed.

Lemma free_loop n : forall i d a u v w s, 0 <= i ->
  wp (for_range n i (fun i => modify (on_vdisk (fun d => set_v_free (upd (v_free d) i true) d))))
    (fun _ s' => exists f, s' = mkVinit (set_v_free f s) d a u v w /\
       (forall j, i <= j < i + Z.of_nat n -> f j = true) /\ (forall j, j < i -> f j = v_free s j)) (mkVinit s d a u v w).
Proof.
  induction n as [|n IH]; intros i d a u v w s Hi; cbn [for_range].
  - wp_step. exists (v_free s). split; [by destruct s|]. split; [intros; lia|done].
  - wp_step. wp_step. eapply wp_mono; [apply (IH (i + 1) d a u v w); lia|]. intros [] s' (f & -> & H1 & H2).
    exists f. split; [by destruct s|]. split.
    + intros j Hj. destruct (decide (j = i)) as [->|]; [|apply H1; lia]. rewrite H2 by lia. cbn. apply upd_eq.
    + intros j Hj. rewrite H2 by lia. cbn. apply upd_ne. lia.
Qed.

(** Three allocations in a row. *)
Lemma kalloc3 `{LinkerOk} p q r ps s : kmem_inv (p :: q :: r :: ps) s ->
  wp (let* a := kalloc in let* b := kalloc in let* c := kalloc in ret (a, b, c))
    (fun x s' => x = (p, q, r) /\ kmem_inv ps s') s.
Proof.
  intros Hk. wp_step. eapply wp_mono; [by apply kalloc_spec|]. intros a s1 (-> & _ & _ & H1 & _).
  wp_step. eapply wp_mono; [by apply kalloc_spec|]. intros b s2 (-> & _ & _ & H2 & _).
  wp_step. eapply wp_mono; [by apply kalloc_spec|]. intros c s3 (-> & _ & _ & H3 & _). by wp_step.
Qed.

Definition zeroed (m : mem) (p : Z) : Prop := forall x, p <= x < p + PGSIZE -> m x = 0.

(** The register protocol of section 3.1.1 of the specification: reset,
    ACKNOWLEDGE, DRIVER, the features accepted, FEATURES_OK, the queue,
    DRIVER_OK. *)
Definition init_protocol (features desc avail used : Z) : list (Z * Z) :=
  [(VIRTIO_MMIO_STATUS, 0); (VIRTIO_MMIO_STATUS, 1); (VIRTIO_MMIO_STATUS, 3);
   (VIRTIO_MMIO_DRIVER_FEATURES, features); (VIRTIO_MMIO_STATUS, 11);
   (VIRTIO_MMIO_QUEUE_SEL, 0); (VIRTIO_MMIO_QUEUE_NUM, NUM);
   (VIRTIO_MMIO_QUEUE_DESC_LOW, desc mod 2 ^ 32); (VIRTIO_MMIO_QUEUE_DESC_HIGH, desc / 2 ^ 32);
   (VIRTIO_MMIO_DRIVER_DESC_LOW, avail mod 2 ^ 32); (VIRTIO_MMIO_DRIVER_DESC_HIGH, avail / 2 ^ 32);
   (VIRTIO_MMIO_DEVICE_DESC_LOW, used mod 2 ^ 32); (VIRTIO_MMIO_DEVICE_DESC_HIGH, used / 2 ^ 32);
   (VIRTIO_MMIO_QUEUE_READY, 1); (VIRTIO_MMIO_STATUS, 15)].

Lemma memset_frees `{LinkerOk} p ps s : kmem_inv ps s -> valid_page p -> p ∉ ps ->
  kmem_inv ps (set_mem (memset (pm_mem s) p 0 PGSIZE) s).
Proof.
  intros Hk Hv Hp. pose proof Hk as (_ & Hm & Hc & _). apply free_chain_valid in Hc. rewrite Forall_forall in Hc.
  apply kmem_inv_frame; [done|by apply memset_mem_ok|]. intros q x Hq Hx. apply memset_out; [done|].
  eapply (page_out p q); [done|by apply Hc|by intros ->|done].
Qed.
Lemma memset_keeps `{LinkerOk} m p q : valid_page p -> valid_page q -> p <> q -> zeroed m q -> zeroed (memset m p 0 PGSIZE) q.
Proof. intros Hp Hq Hne Hz x Hx. rewrite memset_out; [by apply Hz|done|]. by apply (page_out p q x). Qed.
Lemma memset_zeroes m p : zeroed (memset m p 0 PGSIZE) p.
Proof. intros x Hx. by rewrite memset_in. Qed.

Lemma page_words `{LinkerOk} p : valid_page p -> u32 p = p mod 2 ^ 32 /\ u32 (Z.shiftr p 32) = p / 2 ^ 32.
Proof.
  intros Hv. pose proof (valid_page_pos p Hv). split; [done|]. rewrite Z.shiftr_div_pow2 by done. apply u32_small.
  split; [apply Z.div_pos; lia|]. apply Z.div_lt_upper_bound; lia.
Qed.

Section InitSpec.
Context `{LinkerOk} (rd : list (Z * Z) -> Z -> Z) (offered num_max : Z) (Hdev : block_device rd offered num_max).

Lemma wp_read r Q s : Q (u32 (rd (vi_writes s) r)) s -> wp (reg_read rd r) Q s.
Proof. done. Qed.
Lemma wp_write r v Q s :
  Q tt (mkVinit (vi_disk s) (vi_desc s) (vi_avail s) (vi_used s) (vi_writes s ++ [(r, u32 v)]) (vi_pm s)) -> wp (reg_write r v) Q s.
Proof. done. Qed.

Lemma never_written r (w : list (Z * Z)) : existsb (Z.eqb r) (map fst w) = false -> forall v, (r, v) ∉ w.
Proof.
  intros Hw v Hin. apply (list_elem_of_fmap_2 fst) in Hin. assert (existsb (Z.eqb r) (map fst w) = true) as Ht; [|congruence].
  apply existsb_exists. exists r. split; [by apply list_elem_of_In|apply Z.eqb_refl].
Qed.

(** The driver accepts no feature that is not offered. *)
Lemma features_word : u32 (negotiate (u32 offered)) = negotiate offered.
Proof. pose proof (bd_width _ _ _ Hdev). rewrite (u32_small offered) by done. by apply u32_small, negotiate_range. Qed.
Lemma features_accepted w : features_known offered (driver_features (w ++ [(VIRTIO_MMIO_DRIVER_FEATURES, negotiate offered)])).
Proof.
  unfold driver_features. rewrite rev_app_distr. cbn. intros i Hi Hb. rewrite negotiate_bit in Hb by done.
  by apply andb_true_iff in Hb as [Hb _].
Qed.

Lemma init_spec d p q r ps mem : kmem_inv (p :: q :: r :: ps) mem -> NUM <= num_max ->
  wp (virtio_disk_init rd) (fun _ s' =>
    exists f m', s' = mkVinit (set_v_free f (set_vdisk_lock false d)) p q r (init_protocol (negotiate offered) p q r) m' /\
      (forall i, 0 <= i < NUM -> f i = true) /\ kmem_inv ps m' /\
      zeroed (pm_mem m') p /\ zeroed (pm_mem m') q /\ zeroed (pm_mem m') r)
    (mkVinit d 0 0 0 [] mem).
Proof.
  intros Hk Hmax. unfold virtio_disk_init. wp_step. wp_step. unfold on_vdisk at 1. cbn [vi_disk vi_desc vi_avail vi_used vi_writes vi_pm].
  do 4 (wp_step; apply wp_read). cbn [vi_writes]. rewrite (bd_magic _ _ _ Hdev), (bd_version _ _ _ Hdev), (bd_device _ _ _ Hdev), (bd_vendor _ _ _ Hdev).
  change (negb _ || _ || _ || _) with false. cbv iota.
  do 3 (wp_step; apply wp_write; cbn [vi_disk vi_desc vi_avail vi_used vi_writes vi_pm]). wp_step; apply wp_read.
  do 2 (wp_step; apply wp_write; cbn [vi_disk vi_desc vi_avail vi_used vi_writes vi_pm]). wp_step; apply wp_read. cbn [vi_writes].
  rewrite (bd_features _ _ _ Hdev), features_word, (bd_status _ _ _ Hdev) by (done || apply features_accepted). change (Z.land _ VIRTIO_CONFIG_S_FEATURES_OK =? 0) with false. cbv iota.
  wp_step; apply wp_write; cbn [vi_disk vi_desc vi_avail vi_used vi_writes vi_pm]. wp_step; apply wp_read. cbn [vi_writes].
  rewrite (bd_ready _ _ _ Hdev) by (apply never_written; reflexivity).
  change (negb (u32 0 =? 0)) with false. cbv iota. wp_step; apply wp_read. cbn [vi_writes]. rewrite (bd_max _ _ _ Hdev).
  rewrite (proj2 (Z.eqb_neq num_max 0)), (proj2 (Z.ltb_ge num_max NUM)) by (unfold NUM in *; lia).
  wp_step. wp_step. eapply wp_mono; [by apply kalloc_spec|]. intros ? m1 (-> & Hp & Np & K1 & _).
  wp_step. wp_step. eapply wp_mono; [by apply kalloc_spec|]. intros ? m2 (-> & Hq & Nq & K2 & _).
  wp_step. wp_step. eapply wp_mono; [by apply kalloc_spec|]. intros ? m3 (-> & Hr & Nr & K3 & _).
  apply not_elem_of_cons in Np as [Npq Np]. apply not_elem_of_cons in Np as [Npr Np]. apply not_elem_of_cons in Nq as [Nqr Nq].
  wp_step. wp_step. cbn. pose proof (valid_page_pos p Hp). pose proof (valid_page_pos q Hq). pose proof (valid_page_pos r Hr).
  rewrite (proj2 (Z.eqb_neq p 0)), (proj2 (Z.eqb_neq q 0)), (proj2 (Z.eqb_neq r 0)) by lia. cbn [orb].
  unfold mem_op. do 3 (wp_step; wp_step; wp_step). cbn. do 8 (wp_step; apply wp_write; cbn [vi_disk vi_desc vi_avail vi_used vi_writes vi_pm app]).
  wp_step. eapply wp_mono; [apply free_loop; lia|]. intros [] s' (f & -> & Hf & _). apply wp_write. cbn [vi_disk vi_desc vi_avail vi_used vi_writes vi_pm app].
  destruct (page_words p Hp) as [P1 P2], (page_words q Hq) as [Q1 Q2], (page_words r Hr) as [R1 R2]. rewrite P1, P2, Q1, Q2, R1, R2.
  exists f. eexists. split; [reflexivity|]. split; [intros i Hi; apply Hf; unfold NUM in *; lia|]. split.
  - apply (memset_frees r ps (set_mem _ (set_mem _ m3))); [|done|done]. apply (memset_frees q ps (set_mem _ m3)); [|done|done]. by apply memset_frees.
  - cbn. split_and!; [|by apply memset_keeps, memset_zeroes|apply memset_zeroes].
    by apply memset_keeps, memset_keeps, memset_zeroes.
Qed.
Lemma init_short_queue d mem : 0 < num_max < NUM ->
  virtio_disk_init rd (mkVinit d 0 0 0 [] mem) = Panic "virtio disk max queue too short".
Proof.
  intros Hmax. unfold virtio_disk_init, reg_read, reg_write, bind, gets, modify, on_vdisk. cbn [obind vi_writes vi_disk vi_desc vi_avail vi_used vi_pm].
  rewrite (bd_magic _ _ _ Hdev), (bd_version _ _ _ Hdev), (bd_device _ _ _ Hdev), (bd_vendor _ _ _ Hdev).
  change (negb _ || _ || _ || _) with false. cbv iota. cbn [obind vi_writes vi_disk vi_desc vi_avail vi_used vi_pm].
  rewrite (bd_features _ _ _ Hdev), features_word, (bd_status _ _ _ Hdev) by (done || apply features_accepted).
  change (Z.land _ VIRTIO_CONFIG_S_FEATURES_OK =? 0) with false. cbv iota.
  cbn [obind vi_writes vi_disk vi_desc vi_avail vi_used vi_pm]. rewrite (bd_ready _ _ _ Hdev) by (apply never_written; reflexivity).
  change (negb (u32 0 =? 0)) with false. cbv iota. cbn [obind vi_writes vi_disk vi_desc vi_avail vi_used vi_pm]. rewrite (bd_max _ _ _ Hdev).
  rewrite (proj2 (Z.eqb_neq num_max 0)), (proj2 (Z.ltb_lt num_max NUM)) by lia. done.
Qed.
End InitSpec.

(** C33: virtio_disk_init against a conforming block device, with three free
    pages: it returns; it drives the registers in exactly the order the
    specification asks for, with the addresses of three distinct zeroed pages
    split into halves, accepting exactly the features the device offers other
    than the seven the driver does not support, and setting DRIVER_OK last;
    the pages come from the free list; the lock is free and every descriptor
    is marked free.  A device with a queue shorter than NUM makes it panic. *)
Theorem virtio_disk_init_protocol `{LinkerOk} rd offered num_max d p q r ps mem :
  block_device rd offered num_max -> kmem_inv (p :: q :: r :: ps) mem ->
  (NUM <= num_max ->
   wp (virtio_disk_init rd) (fun _ s' =>
     exists f features m', s' = mkVinit (set_v_free f (set_vdisk_lock false d)) p q r (init_protocol features p q r) m' /\
      (forall i, 0 <= i -> Z.testbit features i = Z.testbit offered i && negb (bool_decide (i ∈ [5; 7; 11; 12; 27; 28; 29]))) /\
      (forall i, 0 <= i < NUM -> f i = true) /\ kmem_inv ps m' /\
      zeroed (pm_mem m') p /\ zeroed (pm_mem m') q /\ zeroed (pm_mem m') r) (mkVinit d 0 0 0 [] mem)) /\
  (0 < num_max < NUM -> virtio_disk_init rd (mkVinit d 0 0 0 [] mem) = Panic "virtio disk max queue too short").
Proof.
  intros Hdev Hk. split.
  - intros Hmax. eapply wp_mono; [by apply (init_spec rd offered num_max Hdev d p q r ps mem)|].
    intros [] s' (f & m' & E & Hf & Hrest). exists f, (negotiate offered), m'. split; [done|]. split; [|done].
    intros i Hi. by apply negotiate_bit.
  - by apply (init_short_queue rd offered num_max Hdev).
Qed.

Module InitWitness.
Import ToyImage PageTableWitness.
(** A device with queues of 16 entries. *)
Definition dev (w : list (Z * Z)) (r : Z) : Z :=
  if r =? VIRTIO_MMIO_MAGIC_VALUE then 0x74726976 else
  if r =? VIRTIO_MMIO_VERSION then 2 else
  if r =? VIRTIO_MMIO_DEVICE_ID then 2 else
  if r =? VIRTIO_MMIO_VENDOR_ID then 0x554d4551 else
  if r =? VIRTIO_MMIO_DEVICE_FEATURES then 0x30000060 else
  if r =? VIRTIO_MMIO_STATUS then
    match last w with
    | Some (_, v) => if Z.land (driver_features w) (Z.lnot 0x30000060) =? 0 then v
                     else Z.land v (Z.lnot VIRTIO_CONFIG_S_FEATURES_OK)
    | None => 0
    end else
  if r =? VIRTIO_MMIO_QUEUE_READY then 0 else
  if r =? VIRTIO_MMIO_QUEUE_NUM_MAX then 16 else 0.
Lemma known_mask f : features_known 0x30000060 f <-> Z.land f (Z.lnot 0x30000060) = 0.
Proof.
  split; intros Hf.
  - apply Z.bits_inj'. intros i Hi. rewrite Z.bits_0, Z.land_spec, Z.lnot_spec by done.
    destruct (Z.testbit f i) eqn:E; [|done]. by rewrite (Hf i Hi E).
  - intros i Hi Hb. assert (Z.testbit (Z.land f (Z.lnot 0x30000060)) i = false) as Hz by (by rewrite Hf, Z.bits_0).
    rewrite Z.land_spec, Z.lnot_spec, Hb in Hz by done. by apply negb_false_iff in Hz.
Qed.
Lemma status_keeps w v : driver_features (w ++ [(VIRTIO_MMIO_STATUS, v)]) = driver_features w.
Proof. unfold driver_features. by rewrite rev_app_distr. Qed.
Lemma dev_conforms : block_device dev 0x30000060 16.
Proof.
  split; try done; intros w v Hv Hk; rewrite known_mask in Hk; unfold dev; cbn -[driver_features]; rewrite last_snoc, status_keeps.
  - by rewrite Hk.
  - by rewrite (proj2 (Z.eqb_neq _ 0) Hk).
Qed.
Definition m3 : mem := store64 (store64 (fun _ => 0) (P 1) (P 2)) (P 2) (P 3).
Lemma kmem_inv3 : kmem_inv [P 1; P 2; P 3] (mkPm m3 false (P 1)).
Proof.
  split; [done|]. split; [|split].
  - apply store_ok, store_ok. intros a. unfold byte_ok. lia.
  - cbn [pm_mem kmem_freelist]. constructor; [by apply P_valid|]. replace (load64 m3 (P 1)) with (P 2) by (vm_compute; reflexivity).
    constructor; [by apply P_valid|]. replace (load64 m3 (P 2)) with (P 3) by (vm_compute; reflexivity).
    constructor; [by apply P_valid|]. replace (load64 m3 (P 3)) with 0 by (vm_compute; reflexivity). constructor.
  - apply (bool_decide_unpack (NoDup [P 1; P 2; P 3])). vm_compute. done.
Qed.
Lemma virtio_disk_init_protocol_witness :
  wp (virtio_disk_init dev) (fun _ s' =>
     exists f features m', s' = mkVinit (set_v_free f (set_vdisk_lock false vdisk0)) (P 1) (P 2) (P 3) (init_protocol features (P 1) (P 2) (P 3)) m' /\
      (forall i, 0 <= i -> Z.testbit features i = Z.testbit 0x30000060 i && negb (bool_decide (i ∈ [5; 7; 11; 12; 27; 28; 29]))) /\
      (forall i, 0 <= i < NUM -> f i = true) /\ kmem_inv [] m' /\
      zeroed (pm_mem m') (P 1) /\ zeroed (pm_mem m') (P 2) /\ zeroed (pm_mem m') (P 3)) (mkVinit vdisk0 0 0 0 [] (mkPm m3 false (P 1))).
Proof.
  apply (proj1 (virtio_disk_init_protocol dev 0x30000060 16 vdisk0 (P 1) (P 2) (P 3) [] (mkPm m3 false (P 1)) dev_conforms kmem_inv3)).
  unfold NUM. lia.
Defined.
End InitWitness.
