(* ===== verification/Console.v ===== *)
(** * kernel/console.c and kernel/uart.c: the console

    The input line discipline (editing, echo, end of file), reads by
    processes, and output through the UART.  The UART is hardware: what was
    typed and not yet read from RHR ([u_rx]), the bytes written to THR in
    order ([u_out]) and whether THR can take a byte ([u_idle]); while the code
    spins on LSR the device finishes sending.  No panic is in progress
    (panicking and panicked are 0).  [c_commit] and [c_taken] are the histories
    of the bytes made available to readers and taken by them; the code does
    not read them. *)

From Stdlib Require Import ZArith Lia.
From S2P Require Import Prelude Params Env.

Definition BACKSPACE : Z := 0x100.
Definition C (x : Z) : Z := x - 64.
Definition INPUT_BUF_SIZE : Z := 128.
Definition newline : Z := 10.
Definition LSR_RX_READY : Z := 1.
Definition LSR_TX_IDLE : Z := 32.

Record cons := mkCons {
  c_lock : spinlock;
  c_buf : Z -> Z;
  c_r : Z;
  c_w : Z;
  c_e : Z;
  c_commit : list Z;
  c_taken : list Z;
}.
Record uart := mkUart {
  tx_lock : spinlock;
  tx_busy : bool;
  u_out : list Z;
  u_idle : bool;
  u_rx : list Z;
}.
Record cstate (W : Type) := mkCst { cs_cons : cons; cs_uart : uart; cs_woken : list chan; cs_user : W }.
Arguments mkCst {W}. Arguments cs_cons {W}. Arguments cs_uart {W}. Arguments cs_woken {W}. Arguments cs_user {W}.

Definition set_e (x : Z) (c : cons) : cons := mkCons (c_lock c) (c_buf c) (c_r c) (c_w c) x (c_commit c) (c_taken c).
(** [cons.buf[cons.e++ % INPUT_BUF_SIZE] = c] *)
Definition store_char (ch : Z) (c : cons) : cons :=
  mkCons (c_lock c) (upd (c_buf c) (c_e c mod INPUT_BUF_SIZE) ch) (c_r c) (c_w c) (u32 (c_e c + 1)) (c_commit c) (c_taken c).
(** [cons.w = cons.e]; [line] is what becomes available. *)
Definition commit_line (line : list Z) (c : cons) : cons :=
  mkCons (c_lock c) (c_buf c) (c_r c) (c_e c) (c_e c) (c_commit c ++ line) (c_taken c).
(** The bytes between the write and the edit index. *)
Definition edit_line (c : cons) : list Z :=
  (fun k => c_buf c ((c_w c + k) mod INPUT_BUF_SIZE)) <$> seqZ 0 (u32 (c_e c - c_w c)).
(** [cons.r++] and [cons.r--] *)
Definition take_char (ch : Z) (c : cons) : cons :=
  mkCons (c_lock c) (c_buf c) (u32 (c_r c + 1)) (c_w c) (c_e c) (c_commit c) (c_taken c ++ [ch]).
Definition untake_char (c : cons) : cons :=
  mkCons (c_lock c) (c_buf c) (u32 (c_r c - 1)) (c_w c) (c_e c) (c_commit c) (removelast (c_taken c)).

Section Ops.
Context {W : Type} `{UserMem W} (procdump : W -> list Z).
Notation F := (M (cstate W)).

Definition on_cons (f : cons -> cons) (s : cstate W) : cstate W := mkCst (f (cs_cons s)) (cs_uart s) (cs_woken s) (cs_user s).
Definition on_uart (f : uart -> uart) (s : cstate W) : cstate W := mkCst (cs_cons s) (f (cs_uart s)) (cs_woken s) (cs_user s).
Definition c_lockL : lens (cstate W) spinlock :=
  Lens (fun s => c_lock (cs_cons s))
    (fun b => on_cons (fun c => mkCons b (c_buf c) (c_r c) (c_w c) (c_e c) (c_commit c) (c_taken c))).
Definition tx_lockL : lens (cstate W) spinlock :=
  Lens (fun s => tx_lock (cs_uart s))
    (fun b => on_uart (fun u => mkUart b (tx_busy u) (u_out u) (u_idle u) (u_rx u))).
Definition cs_wokenL : lens (cstate W) (list chan) :=
  Lens cs_woken (fun w s => mkCst (cs_cons s) (cs_uart s) w (cs_user s)).
Definition cs_userL : lens (cstate W) W :=
  Lens cs_user (fun u s => mkCst (cs_cons s) (cs_uart s) (cs_woken s) u).

(** ** The UART *)

Definition lsr (u : uart) : Z :=
  Z.lor (if bool_decide (u_rx u = []) then 0 else LSR_RX_READY) (if u_idle u then LSR_TX_IDLE else 0).
(** [WriteReg(THR, c)] *)
Definition write_thr (c : Z) : F unit :=
  modify (on_uart (fun u => mkUart (tx_lock u) (tx_busy u) (u_out u ++ [u8 c]) false (u_rx u))).
Definition set_busy (b : bool) : F unit :=
  modify (on_uart (fun u => mkUart (tx_lock u) b (u_out u) (u_idle u) (u_rx u))).

(** Spinning until LSR_TX_IDLE is set ends when the device has sent. *)
Definition uartputc_sync (c : Z) : F unit :=
  modify (on_uart (fun u => mkUart (tx_lock u) (tx_busy u) (u_out u) true (u_rx u))) ;;
  write_thr c.

Definition uartwrite_step (buf : list Z) (n i : Z) : F (Z + unit) :=
  if n <=? i then ret (inr tt) else
  let* u := gets cs_uart in
  if tx_busy u then sleep ChUartTx tx_lockL ;; ret (inl i)
  else
    write_thr (nth (Z.to_nat i) buf 0) ;;
    set_busy true ;;
    ret (inl (i + 1)).
Definition uartwrite (fuel : nat) (buf : list Z) (n : Z) : F unit :=
  acquire tx_lockL ;;
  loop fuel (uartwrite_step buf n) 0 ;;
  release tx_lockL.

Definition uartgetc : F Z :=
  let* u := gets cs_uart in
  if negb (Z.land (lsr u) LSR_RX_READY =? 0) then
    match u_rx u with
    | c :: rx => modify (on_uart (fun u => mkUart (tx_lock u) (tx_busy u) (u_out u) (u_idle u) rx)) ;; ret c
    | [] => ret 0
    end
  else ret (-1).

(** ** Input *)

Definition consputc (c : Z) : F unit :=
  if c =? BACKSPACE then uartputc_sync 8 ;; uartputc_sync 32 ;; uartputc_sync 8
  else uartputc_sync c.

Definition kill_step (u : unit) : F (unit + unit) :=
  let* c := gets cs_cons in
  if negb (c_e c =? c_w c) && negb (c_buf c (u32 (c_e c - 1) mod INPUT_BUF_SIZE) =? newline) then
    modify (on_cons (set_e (u32 (c_e c - 1)))) ;;
    consputc BACKSPACE ;;
    ret (inl tt)
  else ret (inr tt).

Fixpoint putall (l : list Z) : F unit :=
  match l with [] => ret tt | c :: l => consputc c ;; putall l end.

(** procdump() prints the process list. *)
Definition consoleintr (c : Z) : F unit :=
  acquire c_lockL ;;
  (if c =? C 80 then let* w := gets cs_user in putall (procdump w)
   else if c =? C 85 then loop (S (Z.to_nat INPUT_BUF_SIZE)) kill_step tt
   else if (c =? C 72) || (c =? 0x7f) then
     let* k := gets cs_cons in
     when (negb (c_e k =? c_w k))
       (modify (on_cons (set_e (u32 (c_e k - 1)))) ;; consputc BACKSPACE)
   else
     let* k := gets cs_cons in
     when (negb (c =? 0) && (u32 (c_e k - c_r k) <? INPUT_BUF_SIZE))
       (let c := if c =? 13 then newline else c in
        consputc c ;;
        modify (on_cons (store_char c)) ;;
        let* k := gets cs_cons in
        when ((c =? newline) || (c =? C 68) || (u32 (c_e k - c_r k) =? INPUT_BUF_SIZE))
          (modify (on_cons (fun k => commit_line (edit_line k) k)) ;;
           wakeup cs_wokenL ChCons))) ;;
  release c_lockL.

Definition uartintr_step (u : unit) : F (unit + unit) :=
  let* c := uartgetc in
  if c =? -1 then ret (inr tt) else consoleintr c ;; ret (inl tt).
Definition uartintr : F unit :=
  acquire tx_lockL ;;
  let* u := gets cs_uart in
  when (negb (Z.land (lsr u) LSR_TX_IDLE =? 0))
    (set_busy false ;; wakeup cs_wokenL ChUartTx) ;;
  release tx_lockL ;;
  let* u := gets cs_uart in
  loop (S (length (u_rx u))) uartintr_step tt.

(** ** System calls on the console *)

Section Process.
Context (me : nat).

(** Both loops of consoleread: going round again while there is no input is
    the inner one.  Loop variables: [dst] and [n].  The result is the final
    [n], or [None] for the return of -1 with the lock released. *)
Definition consoleread_step (target : Z) (st : Z * Z) : F (Z * Z + option Z) :=
  let '(dst, n) := st in
  if n <=? 0 then ret (inr (Some n)) else
  let* s := gets id in
  let k := cs_cons s in
  if c_r k =? c_w k then
    if u_killed me (cs_user s) then release c_lockL ;; ret (inr None)
    else sleep ChCons c_lockL ;; ret (inl (dst, n))
  else
    let c := c_buf k (c_r k mod INPUT_BUF_SIZE) in
    modify (on_cons (take_char c)) ;;
    if c =? C 68 then
      when (n <? target) (modify (on_cons untake_char)) ;;
      ret (inr (Some n))
    else
      let* r := zoom cs_userL (u_copyout me dst [c]) in
      if r =? -1 then ret (inr (Some n)) else
      if c =? newline then ret (inr (Some (n - 1)))
      else ret (inl (u64 (dst + 1), n - 1)).

Definition consoleread (fuel : nat) (dst n : Z) : F Z :=
  acquire c_lockL ;;
  let* r := loop fuel (consoleread_step n) (dst, n) in
  match r with
  | None => ret (-1)
  | Some m => release c_lockL ;; ret (n - m)
  end.

Definition consolewrite_step (fuel : nat) (src n i : Z) : F (Z + Z) :=
  if n <=? i then ret (inr i) else
  let nn := if n - i <? 32 then n - i else 32 in
  let* r := zoom cs_userL (u_copyin me (u64 (src + i)) nn) in
  if r.1 =? -1 then ret (inr i) else
  uartwrite fuel r.2 nn ;;
  ret (inl (i + nn)).
Definition consolewrite (fuel : nat) (src n : Z) : F Z :=
  loop (S (Z.to_nat n)) (consolewrite_step fuel src n) 0.
End Process.
End Ops.

(** ** uartinit: the register writes, in order *)

Definition IER : Z := 1.
Definition IER_RX_ENABLE : Z := 1.
Definition IER_TX_ENABLE : Z := 2.
Definition FCR : Z := 2.
Definition FCR_FIFO_ENABLE : Z := 1.
Definition FCR_FIFO_CLEAR : Z := 6.
Definition LCR : Z := 3.
Definition LCR_EIGHT_BITS : Z := 3.
Definition LCR_BAUD_LATCH : Z := 128.
Definition uartinit : list (Z * Z) :=
  [(IER, 0); (LCR, LCR_BAUD_LATCH); (0, 0x03); (1, 0x00); (LCR, LCR_EIGHT_BITS);
   (FCR, Z.lor FCR_FIFO_ENABLE FCR_FIFO_CLEAR); (IER, Z.lor IER_TX_ENABLE IER_RX_ENABLE)].

(** ** The line discipline, abstractly

    The bytes ready to be read and the line being edited. *)

Definition tty : Type := list Z * list Z.
Definition erase : list Z := [8; 32; 8].
Definition put_bytes (c : Z) : list Z := if c =? BACKSPACE then erase else [u8 c].

Definition accepts (c : Z) (t : tty) : bool :=
  negb (c =? 0) && (Z.of_nat (length (t.1 ++ t.2)) <? INPUT_BUF_SIZE).
Definition cooked (c : Z) : Z := if c =? 13 then newline else c.
Definition ends_line (c : Z) (t : tty) : bool :=
  (c =? newline) || (c =? C 68) || (Z.of_nat (length (t.1 ++ t.2)) + 1 =? INPUT_BUF_SIZE).

Definition type_char (c : Z) (t : tty) : tty :=
  let (ready, line) := t in
  if c =? C 80 then t
  else if c =? C 85 then (ready, [])
  else if (c =? C 72) || (c =? 0x7f) then (ready, removelast line)
  else if accepts c t then
    if ends_line (cooked c) t then (ready ++ line ++ [cooked c], []) else (ready, line ++ [cooked c])
  else t.

Definition echo (dump : list Z) (c : Z) (t : tty) : list Z :=
  if c =? C 80 then concat (map put_bytes dump)
  else if c =? C 85 then concat (map (fun _ => erase) t.2)
  else if (c =? C 72) || (c =? 0x7f) then (if bool_decide (t.2 = []) then [] else erase)
  else if accepts c t then put_bytes (cooked c) else [].

(** What a read of [n] bytes gets: up to and including a newline, up to an
    end of file, which only a read that got nothing consumes; [None]: it has
    to wait. *)
Fixpoint take_line (n : nat) (started : bool) (ready : list Z) : option (list Z * list Z) :=
  match n, ready with
  | O, _ => Some ([], ready)
  | S _, [] => None
  | S n, c :: rest =>
      if c =? C 68 then Some ([], if started then ready else rest)
      else if c =? newline then Some ([c], rest)
      else (fun p => (c :: p.1, p.2)) <$> take_line n true rest
  end.

(** ** The ring buffer represents it *)

Record line_ok (c : cons) (ready line : list Z) : Prop := {
  lo_hist : c_commit c = c_taken c ++ ready;
  lo_r : c_r c = u32 (Z.of_nat (length (c_taken c)));
  lo_w : c_w c = u32 (Z.of_nat (length (c_taken c)) + Z.of_nat (length ready));
  lo_e : c_e c = u32 (Z.of_nat (length (c_taken c)) + Z.of_nat (length (ready ++ line)));
  lo_cap : Z.of_nat (length (ready ++ line)) <= INPUT_BUF_SIZE;
  lo_data : forall k x, (ready ++ line) !! k = Some x -> c_buf c (Z.of_nat (length (c_taken c) + k) mod INPUT_BUF_SIZE) = x;
  lo_line : newline ∉ line;
}.

Lemma u32_mod_buf x : u32 x mod INPUT_BUF_SIZE = x mod INPUT_BUF_SIZE.
Proof. by apply (u32_mod_small x INPUT_BUF_SIZE (2 ^ 25)). Qed.

Lemma line_count c ready line : line_ok c ready line -> u32 (c_e c - c_r c) = Z.of_nat (length (ready ++ line)).
Proof. intros []. rewrite lo_r0, lo_e0. apply u32_diff. unfold INPUT_BUF_SIZE in *. lia. Qed.

Lemma line_empty c ready line : line_ok c ready line -> c_e c = c_w c <-> line = [].
Proof.
  intros []. rewrite lo_e0, lo_w0. rewrite length_app, Nat2Z.inj_add in *. split.
  - intros E. apply nil_length_inv. rewrite Z.add_assoc in E. rewrite <- (Z.add_0_r (_ + Z.of_nat (length ready))) in E at 2.
    apply u32_sub_eq in E; unfold INPUT_BUF_SIZE in *; lia.
  - intros ->. cbn. f_equal. lia.
Qed.
Lemma ready_empty c ready line : line_ok c ready line -> c_r c = c_w c <-> ready = [].
Proof.
  intros []. rewrite lo_r0, lo_w0. rewrite length_app, Nat2Z.inj_add in *. split.
  - intros E. apply nil_length_inv. rewrite <- (Z.add_0_r (Z.of_nat (length (c_taken c)))) in E at 1.
    apply u32_sub_eq in E; unfold INPUT_BUF_SIZE in *; lia.
  - intros ->. cbn. f_equal. lia.
Qed.

Lemma erase_ok c ready line x : line_ok c ready (line ++ [x]) ->
  c_buf c (u32 (c_e c - 1) mod INPUT_BUF_SIZE) = x /\ line_ok (set_e (u32 (c_e c - 1)) c) ready line.
Proof.
  intros []. assert (u32 (c_e c - 1) = u32 (Z.of_nat (length (c_taken c)) + Z.of_nat (length (ready ++ line)))) as E.
  { rewrite lo_e0, u32_pred. f_equal. rewrite !length_app. cbn. lia. }
  rewrite E. split.
  - rewrite u32_mod_buf, <- Nat2Z.inj_add. apply lo_data0. rewrite app_assoc, lookup_app_r by lia. by rewrite Nat.sub_diag.
  - split; cbn; try done.
    + rewrite !length_app in *. cbn in *. lia.
    + intros k y Hk. apply lo_data0. rewrite app_assoc. by apply lookup_app_l_Some.
    + intros Hin. apply lo_line0, elem_of_app. by left.
Qed.

Lemma store_data c ready line x : line_ok c ready line -> Z.of_nat (length (ready ++ line)) < INPUT_BUF_SIZE ->
  c_e (store_char x c) = u32 (Z.of_nat (length (c_taken c)) + Z.of_nat (length (ready ++ line ++ [x]))) /\
  forall j y, (ready ++ line ++ [x]) !! j = Some y ->
    c_buf (store_char x c) (Z.of_nat (length (c_taken c) + j) mod INPUT_BUF_SIZE) = y.
Proof.
  intros [] Hroom. split.
  - cbn. rewrite lo_e0, u32_succ. f_equal. rewrite !length_app. cbn. lia.
  - intros j y Hj. cbn. rewrite lo_e0, u32_mod_buf. rewrite app_assoc in Hj. apply lookup_app_Some in Hj as [Hj|[Hj1 Hj2]].
    + pose proof (lookup_lt_Some _ _ _ Hj) as Hlt. rewrite upd_ne; [by apply lo_data0|].
      unfold INPUT_BUF_SIZE in *. intros E. clear -E Hlt Hroom. Z.div_mod_to_equations. lia.
    + apply list_lookup_singleton_Some in Hj2 as [Hj2 <-].
      replace (Z.of_nat (length (c_taken c) + j)) with (Z.of_nat (length (c_taken c)) + Z.of_nat (length (ready ++ line))) by lia.
      by rewrite upd_eq.
Qed.
Lemma store_char_ok c ready line x : line_ok c ready line -> Z.of_nat (length (ready ++ line)) < INPUT_BUF_SIZE -> x <> newline ->
  line_ok (store_char x c) ready (line ++ [x]).
Proof.
  intros Hl Hroom Hx. destruct (store_data c ready line x Hl Hroom) as [He Hd]. destruct Hl. split; try done.
  - rewrite !length_app in *. cbn in *. lia.
  - rewrite elem_of_app, list_elem_of_singleton. intros [H|H]; [done|congruence].
Qed.

(** Storing a character and making the line available. *)
Lemma store_commit_ok c ready line x : line_ok c ready line -> Z.of_nat (length (ready ++ line)) < INPUT_BUF_SIZE ->
  let k := store_char x c in line_ok (commit_line (edit_line k) k) (ready ++ line ++ [x]) [].
Proof.
  intros Hl Hroom k. destruct (store_data c ready line x Hl Hroom) as [Ee Hdata]. fold k in Ee, Hdata. pose proof Hl as [].
  assert (edit_line k = line ++ [x]) as El.
  { unfold edit_line. assert (u32 (c_e k - c_w k) = Z.of_nat (length (line ++ [x]))) as En.
    { change (c_w k) with (c_w c). rewrite Ee, lo_w0. rewrite !length_app, !Nat2Z.inj_add, Z.add_assoc. apply u32_diff.
      rewrite !length_app in Hroom. unfold INPUT_BUF_SIZE in *. cbn. lia. }
    rewrite En. apply list_eq. intros j. rewrite list_lookup_fmap. destruct (decide (j < length (line ++ [x]))%nat) as [Hj|Hj].
    - rewrite lookup_seqZ_lt by lia. cbn. destruct (lookup_lt_is_Some_2 _ _ Hj) as [y Hy]. rewrite Hy. f_equal.
      change (c_w k) with (c_w c). rewrite lo_w0. rewrite <- (Hdata (length ready + j)%nat y).
      + f_equal. rewrite <- Zplus_mod_idemp_l, u32_mod_buf, Zplus_mod_idemp_l. f_equal. lia.
      + rewrite lookup_app_r by lia. by replace (length ready + j - length ready)%nat with j by lia.
    - rewrite lookup_seqZ_ge by lia. symmetry. apply lookup_ge_None_2. lia. }
  split; cbn; rewrite ?app_nil_r.
  - rewrite lo_hist0, El, <- app_assoc. done.
  - done.
  - exact Ee.
  - exact Ee.
  - rewrite !length_app in *. cbn. lia.
  - exact Hdata.
  - apply not_elem_of_nil.
Qed.

Lemma take_char_ok c x ready line : line_ok c (x :: ready) line ->
  c_buf c (c_r c mod INPUT_BUF_SIZE) = x /\ line_ok (take_char x c) ready line /\ untake_char (take_char x c) = c.
Proof.
  intros []. split; [|split].
  - rewrite lo_r0, u32_mod_buf. rewrite <- (lo_data0 0%nat x eq_refl). do 2 f_equal. lia.
  - split; cbn; try done.
    + by rewrite lo_hist0, <- app_assoc.
    + rewrite lo_r0, u32_succ, length_app. f_equal. cbn. lia.
    + rewrite lo_w0, length_app. f_equal. cbn. lia.
    + rewrite lo_e0, !length_app. f_equal. cbn. lia.
    + cbn in lo_cap0. lia.
    + intros k y Hk. rewrite <- (lo_data0 (S k) y Hk). do 2 f_equal. rewrite length_app. cbn. lia.
  - destruct c as [l b r w e cm tk]. unfold untake_char, take_char. cbn in *. rewrite removelast_last, lo_r0, u32_succ, u32_pred. do 2 f_equal. lia.
Qed.

(** ** Keystrokes *)

Section Input.
Context {W : Type} `{UserMem W} (procdump : W -> list Z).

(** Only these bytes went to the UART. *)
Record sent (l : list Z) (s s' : cstate W) : Prop := {
  se_woken : cs_woken s' = cs_woken s;
  se_user : cs_user s' = cs_user s;
  se_txlock : tx_lock (cs_uart s') = tx_lock (cs_uart s);
  se_busy : tx_busy (cs_uart s') = tx_busy (cs_uart s);
  se_rx : u_rx (cs_uart s') = u_rx (cs_uart s);
  se_out : u_out (cs_uart s') = u_out (cs_uart s) ++ l;
}.
Lemma sent_nil s : sent [] s s.
Proof. split; by rewrite ?app_nil_r. Qed.
Lemma sent_cons s f : sent [] s (on_cons f s).
Proof. split; cbn; by rewrite ?app_nil_r. Qed.
Lemma sent_trans l1 l2 s1 s2 s3 : sent l1 s1 s2 -> sent l2 s2 s3 -> sent (l1 ++ l2) s1 s3.
Proof. intros [A1 A2 A3 A4 A5 A6] [B1 B2 B3 B4 B5 B6]. split; try congruence. by rewrite B6, A6, app_assoc. Qed.

Lemma consputc_spec c s : wp (consputc c) (fun _ s' => sent (put_bytes c) s s' /\ cs_cons s' = cs_cons s) s.
Proof.
  unfold consputc, put_bytes, uartputc_sync, write_thr. destruct (c =? BACKSPACE); wp_steps; (split; [|done]); split; cbn; try done.
  by rewrite <- !app_assoc.
Qed.
Lemma putall_spec l : forall s, wp (putall l) (fun _ s' => sent (concat (map put_bytes l)) s s' /\ cs_cons s' = cs_cons s) s.
Proof.
  induction l as [|c l IH]; intros s; cbn [putall map concat]; [wp_step; split; [apply sent_nil|done]|].
  wp_step. eapply wp_mono; [apply consputc_spec|]. intros [] s1 [H1 E1]. eapply wp_mono; [apply IH|].
  intros [] s2 [H2 E2]. split; [by eapply sent_trans|congruence].
Qed.

(** One more character erased. *)
Lemma erase_step ready line x s : line_ok (cs_cons s) ready (line ++ [x]) ->
  wp (modify (on_cons (set_e (u32 (c_e (cs_cons s) - 1)))) ;; consputc BACKSPACE) (fun _ s' =>
    line_ok (cs_cons s') ready line /\ c_lock (cs_cons s') = c_lock (cs_cons s) /\ sent erase s s') s.
Proof.
  intros Hl. destruct (erase_ok _ _ _ _ Hl) as [_ Hl']. wp_step. wp_step. eapply wp_mono; [apply consputc_spec|].
  intros [] s' [Hs E]. rewrite E. split; [done|]. split; [done|]. apply (sent_trans [] erase s _ s' (sent_cons s _) Hs).
Qed.

Lemma kill_spec ready line : forall fuel s, line_ok (cs_cons s) ready line -> (length line < fuel)%nat ->
  wp (loop fuel kill_step tt) (fun _ s' =>
    line_ok (cs_cons s') ready [] /\ c_lock (cs_cons s') = c_lock (cs_cons s) /\ sent (concat (map (fun _ => erase) line)) s s') s.
Proof.
  induction line as [|x line IH] using rev_ind; intros fuel s Hl Hf; (destruct fuel as [|fuel]; [lia|]); cbn [loop]; wp_step; unfold kill_step at 1; wp_step; wp_step.
  - rewrite (proj2 (Z.eqb_eq _ _) (proj2 (line_empty _ _ _ Hl) eq_refl)). cbn. split; [done|]. split; [done|apply sent_nil].
  - destruct (Z.eqb_spec (c_e (cs_cons s)) (c_w (cs_cons s))) as [E|_]; [apply (line_empty _ _ _ Hl) in E; by destruct line|].
    destruct (erase_ok _ _ _ _ Hl) as [Ex _]. rewrite Ex. destruct (Z.eqb_spec x newline) as [->|_].
    { destruct (lo_line _ _ _ Hl). rewrite elem_of_app, list_elem_of_singleton. by right. }
    cbn [negb andb]. assert (forall (K : unit -> M (cstate W) (unit + unit)) Q, wp (modify (on_cons (set_e (u32 (c_e (cs_cons s) - 1)))) ;; consputc BACKSPACE) (fun a s' => wp (K a) Q s') s ->
       wp (modify (on_cons (set_e (u32 (c_e (cs_cons s) - 1)))) ;; let* a := consputc BACKSPACE in K a) Q s) as Hassoc.
    { intros K Q HK. wp_step. wp_step. apply wp_bind. exact HK. }
    apply (Hassoc (fun _ => ret (inl tt))). eapply wp_mono; [apply (erase_step ready line x s Hl)|]. intros [] s1 (H1 & L1 & S1). wp_step.
    eapply wp_mono; [apply IH; [done|rewrite length_app in Hf; cbn in Hf; lia]|]. intros [] s2 (H2 & L2 & S2).
    split; [done|]. split; [congruence|]. rewrite map_app, concat_app. change (concat (map (fun _ => erase) [x])) with erase.
    assert (concat (map (fun _ => erase) line) ++ erase = erase ++ concat (map (fun _ => erase) line)) as ->.
    { clear. induction line as [|y l IH]; [done|]. cbn [map concat]. rewrite <- app_assoc, IH, app_assoc. done. }
    by eapply sent_trans.
Qed.

Definition wakes (c : Z) (t : tty) : list chan :=
  if (c =? C 80) || (c =? C 85) || (c =? C 72) || (c =? 0x7f) then []
  else if accepts c t && ends_line (cooked c) t then [ChCons] else [].

(** What a keystroke does to everything. *)
Record typed (c : Z) (t : tty) (s s' : cstate W) : Prop := {
  ty_line : line_ok (cs_cons s') (type_char c t).1 (type_char c t).2;
  ty_lock : c_lock (cs_cons s') = c_lock (cs_cons s);
  ty_woken : cs_woken s' = cs_woken s ++ wakes c t;
  ty_user : cs_user s' = cs_user s;
  ty_txlock : tx_lock (cs_uart s') = tx_lock (cs_uart s);
  ty_busy : tx_busy (cs_uart s') = tx_busy (cs_uart s);
  ty_rx : u_rx (cs_uart s') = u_rx (cs_uart s);
  ty_out : u_out (cs_uart s') = u_out (cs_uart s) ++ echo (procdump (cs_user s)) c t;
}.
Lemma sent_typed c t s s' : line_ok (cs_cons s') (type_char c t).1 (type_char c t).2 ->
  c_lock (cs_cons s') = c_lock (cs_cons s) -> wakes c t = [] -> sent (echo (procdump (cs_user s)) c t) s s' -> typed c t s s'.
Proof. intros Hl Hk Hw []. split; try done. by rewrite Hw, app_nil_r. Qed.

Lemma lock_line c b ready line : line_ok c ready line ->
  line_ok (mkCons b (c_buf c) (c_r c) (c_w c) (c_e c) (c_commit c) (c_taken c)) ready line.
Proof. intros []. by split. Qed.

(** Between acquire and release. *)
Lemma with_lock (m : M (cstate W) unit) c t s :
  c_lock (cs_cons s) = false ->
  (let s1 := put c_lockL true s in line_ok (cs_cons s) t.1 t.2 -> wp m (fun _ s' => typed c t s1 s') s1) ->
  line_ok (cs_cons s) t.1 t.2 ->
  wp (acquire c_lockL ;; m ;; release c_lockL) (fun _ s' => typed c t s s') s.
Proof.
  intros Hk Hm Hl. wp_step. wp_step. wp_step. eapply wp_mono; [by apply Hm|]. intros [] s1 [].
  wp_step. split; cbn in *; try done. by apply lock_line.
Qed.

Lemma default_spec c t s : c <> C 80 -> c <> C 85 -> c <> C 72 -> c <> 0x7f -> line_ok (cs_cons s) t.1 t.2 ->
  wp (let* k := gets cs_cons in
     when (negb (c =? 0) && (u32 (c_e k - c_r k) <? INPUT_BUF_SIZE))
       (let c := if c =? 13 then newline else c in
        consputc c ;;
        modify (on_cons (store_char c)) ;;
        let* k := gets cs_cons in
        when ((c =? newline) || (c =? C 68) || (u32 (c_e k - c_r k) =? INPUT_BUF_SIZE))
          (modify (on_cons (fun k => commit_line (edit_line k) k)) ;;
           wakeup cs_wokenL ChCons))) (fun _ s' => typed c t s s') s.
Proof.
  intros N1 N2 N3 N4 Hl. destruct t as [ready line]. cbn [fst snd] in Hl. wp_step. wp_step. rewrite (line_count _ _ _ Hl).
  apply Z.eqb_neq in N1, N2, N3, N4. change (negb (c =? 0) && (Z.of_nat (length (ready ++ line)) <? INPUT_BUF_SIZE)) with (accepts c (ready, line)).
  apply wp_when; intros Ha.
  2: { apply sent_typed; [|done| |]; cbn [type_char fst snd]; unfold wakes, echo; rewrite N1, N2, N3, N4, Ha; cbn; try done. apply sent_nil. }
  cbv zeta. fold (cooked c). wp_step. eapply wp_mono; [apply consputc_spec|]. intros [] s1 [S1 E1]. wp_step. wp_step. wp_step. wp_step.
  set (s2 := on_cons (store_char (cooked c)) s1). assert (cs_cons s2 = store_char (cooked c) (cs_cons s)) as E2 by (unfold s2; cbn; by rewrite E1).
  assert (Z.of_nat (length (ready ++ line)) < INPUT_BUF_SIZE) as Hroom.
  { unfold accepts in Ha. apply andb_true_iff in Ha as [_ Ha]. by apply Z.ltb_lt in Ha. }
  destruct (store_data _ _ _ (cooked c) Hl Hroom) as [Ee _].
  assert ((u32 (c_e (cs_cons s2) - c_r (cs_cons s2)) =? INPUT_BUF_SIZE) = (Z.of_nat (length (ready ++ line)) + 1 =? INPUT_BUF_SIZE)) as ->.
  { rewrite E2, Ee. cbn [c_r store_char]. rewrite (lo_r _ _ _ Hl), u32_diff; [f_equal|]; rewrite !length_app in *; unfold INPUT_BUF_SIZE in *; cbn; lia. }
  change ((cooked c =? newline) || (cooked c =? C 68) || (Z.of_nat (length (ready ++ line)) + 1 =? INPUT_BUF_SIZE)) with (ends_line (cooked c) (ready, line)).
  assert (sent (put_bytes (cooked c)) s s2) as S2 by (rewrite <- (app_nil_r (put_bytes _)); eapply sent_trans; [done|apply sent_cons]).
  apply wp_when; intros Hend.
  - wp_step. wp_step. wp_step. destruct S2. split; cbn [type_char fst snd]; unfold wakes, echo; rewrite ?N1, ?N2, ?N3, ?N4, ?Ha, ?Hend; cbn; rewrite ?E1; try done.
    + by apply store_commit_ok.
    + by rewrite <- se_woken0.
  - apply sent_typed; cbn [type_char fst snd]; unfold wakes, echo; rewrite ?N1, ?N2, ?N3, ?N4, ?Ha, ?Hend; cbn [orb andb fst snd]; try done; rewrite E2; [|done].
    apply store_char_ok; [done|done|]. intros En. unfold ends_line in Hend. by rewrite En in Hend.
Qed.

Lemma consoleintr_spec c t s : line_ok (cs_cons s) t.1 t.2 -> c_lock (cs_cons s) = false ->
  wp (consoleintr procdump c) (fun _ s' => typed c t s s') s.
Proof.
  intros Hl Hk. unfold consoleintr. apply with_lock; [done| |done]. cbn zeta. intros _.
  set (s1 := put c_lockL true s). assert (line_ok (cs_cons s1) t.1 t.2) as Hl1 by (by apply lock_line). clearbody s1. clear s Hl Hk.
  destruct t as [ready line]. cbn [fst snd] in *.
  destruct (Z.eqb_spec c (C 80)) as [->|N1].
  { wp_step. wp_step. eapply wp_mono; [apply putall_spec|]. intros [] s' [S E]. apply sent_typed; try done; by rewrite E. }
  destruct (Z.eqb_spec c (C 85)) as [->|N2].
  { eapply wp_mono; [apply (kill_spec ready line); [done|]|].
    - pose proof (lo_cap _ _ _ Hl1) as Hc. rewrite length_app in Hc. unfold INPUT_BUF_SIZE in *. lia.
    - intros [] s' (L & K & S). by apply sent_typed. }
  destruct (decide (c = C 72 \/ c = 0x7f)) as [Hbs|Hno].
  { assert ((c =? C 72) || (c =? 0x7f) = true) as Eb by (destruct Hbs as [-> | ->]; done). rewrite Eb.
    assert (wakes c (ready, line) = []) as Ew by (unfold wakes; rewrite <- orb_assoc, Eb, orb_true_r; done).
    wp_step. wp_step. destruct line as [|x line _] using rev_ind.
    - rewrite (proj2 (Z.eqb_eq _ _) (proj2 (line_empty _ _ _ Hl1) eq_refl)). cbn. apply sent_typed; cbn [type_char fst snd]; unfold echo;
        apply Z.eqb_neq in N1, N2; rewrite ?N1, ?N2, ?Eb; try done. apply sent_nil.
    - destruct (Z.eqb_spec (c_e (cs_cons s1)) (c_w (cs_cons s1))) as [E|_]; [apply (line_empty _ _ _ Hl1) in E; by destruct line|].
      cbn [negb when]. eapply wp_mono; [apply (erase_step ready line x s1 Hl1)|]. intros [] s' (L & K & S).
      apply sent_typed; cbn [type_char fst snd]; unfold echo; apply Z.eqb_neq in N1, N2; rewrite ?N1, ?N2, ?Eb; try done.
      + by rewrite removelast_last.
      + cbn [snd]. rewrite bool_decide_eq_false_2; [done|]. by destruct line. }
  assert ((c =? C 72) || (c =? 0x7f) = false) as -> by (apply orb_false_iff; rewrite !Z.eqb_neq; tauto).
  apply default_spec; tauto.
Qed.

Definition type_all (ks : list Z) (t : tty) : tty := fold_left (fun t c => type_char c t) ks t.
Fixpoint echo_all (dump : list Z) (ks : list Z) (t : tty) : list Z :=
  match ks with [] => [] | c :: ks => echo dump c t ++ echo_all dump ks (type_char c t) end.

Lemma uartgetc_spec (s : cstate W) : Forall byte_ok (u_rx (cs_uart s)) ->
  wp uartgetc (fun c s' =>
    match u_rx (cs_uart s) with
    | [] => c = -1 /\ s' = s
    | k :: rx => c = k /\ s' = on_uart (fun u => mkUart (tx_lock u) (tx_busy u) (u_out u) (u_idle u) rx) s
    end) s.
Proof.
  intros Hb. unfold uartgetc, lsr. wp_step. wp_step. destruct (u_rx (cs_uart s)) as [|k rx] eqn:E.
  - rewrite bool_decide_eq_true_2 by done. destruct (u_idle _); cbn; done.
  - rewrite bool_decide_eq_false_2 by done. destruct (u_idle _); cbn -[on_uart]; done.
Qed.

(** Everything the interrupt handler does with the characters typed. *)
Lemma uartintr_loop ks : forall t s fuel, u_rx (cs_uart s) = ks -> Forall byte_ok ks -> (length ks < fuel)%nat ->
  line_ok (cs_cons s) t.1 t.2 -> c_lock (cs_cons s) = false ->
  wp (loop fuel (uartintr_step procdump) tt) (fun _ s' =>
    line_ok (cs_cons s') (type_all ks t).1 (type_all ks t).2 /\ c_lock (cs_cons s') = false /\
    tx_lock (cs_uart s') = tx_lock (cs_uart s) /\ cs_user s' = cs_user s /\ u_rx (cs_uart s') = [] /\
    u_out (cs_uart s') = u_out (cs_uart s) ++ echo_all (procdump (cs_user s)) ks t) s.
Proof.
  induction ks as [|k ks IH]; intros t s fuel Hr Hb Hf Hl Hk; (destruct fuel as [|fuel]; [cbn in Hf; lia|]); cbn [loop]; wp_step; unfold uartintr_step at 1;
    wp_step; (eapply wp_mono; [apply uartgetc_spec; by rewrite Hr|]); rewrite Hr; intros c s1 [-> ->].
  - cbn. rewrite app_nil_r. done.
  - apply Forall_cons in Hb as [Hb1 Hb2]. unfold byte_ok in Hb1. rewrite (proj2 (Z.eqb_neq k (-1))) by lia.
    wp_step. eapply wp_mono; [by apply (consoleintr_spec k t)|]. intros [] s2 []. wp_step. cbn in ty_lock0, ty_txlock0, ty_user0, ty_rx0, ty_out0.
    eapply wp_mono; [apply (IH (type_char k t)); [done|done|cbn in Hf; lia|done|congruence]|]. intros [] s3 (H1 & H2 & H3 & H4 & H5 & H6).
    split; [done|]. split; [done|]. split; [congruence|]. split; [congruence|]. split; [done|]. rewrite H6, ty_out0, ty_user0. cbn [echo_all]. by rewrite app_assoc.
Qed.

Lemma uartintr_spec t s : Forall byte_ok (u_rx (cs_uart s)) -> line_ok (cs_cons s) t.1 t.2 ->
  c_lock (cs_cons s) = false -> tx_lock (cs_uart s) = false ->
  wp (uartintr procdump) (fun _ s' => let ks := u_rx (cs_uart s) in
    line_ok (cs_cons s') (type_all ks t).1 (type_all ks t).2 /\ c_lock (cs_cons s') = false /\
    tx_lock (cs_uart s') = false /\ cs_user s' = cs_user s /\ u_rx (cs_uart s') = [] /\
    u_out (cs_uart s') = u_out (cs_uart s) ++ echo_all (procdump (cs_user s)) ks t) s.
Proof.
  intros Hb Hl Hk Ht. unfold uartintr. wp_step. wp_step. wp_step. wp_step. wp_step.
  apply (wp_mono _ (fun _ s1 => tx_lock (cs_uart s1) = true /\ cs_cons s1 = cs_cons s /\ cs_user s1 = cs_user s /\
    u_rx (cs_uart s1) = u_rx (cs_uart s) /\ u_out (cs_uart s1) = u_out (cs_uart s))).
  - apply wp_when; intros _; [|done]. unfold set_busy. wp_step. wp_step. by wp_step.
  - intros [] s1 (T1 & C1 & U1 & R1 & O1). wp_step. wp_step. wp_step. wp_step.
    eapply wp_mono; [apply (uartintr_loop (u_rx (cs_uart s)) t)|]; cbn; rewrite ?C1, ?R1; try done; [lia|].
    intros [] s2 (H1 & H2 & H3 & H4 & H5 & H6). rewrite U1, O1 in *. done.
Qed.
End Input.

(** ** Reading *)

Section Read.
Context {W : Type} `{UserMem W} (me : nat) (store : Z -> Z -> W -> W).
Hypothesis Hout : forall va ch w, u_copyout me va [ch] w = Ret 0 (store va ch w).

Fixpoint deliver_from (dst : Z) (bytes : list Z) (w : W) : W :=
  match bytes with [] => w | b :: bs => deliver_from (u64 (dst + 1)) bs (store dst b w) end.

Lemma consoleread_loop target : forall ready line bytes rest fuel s dst n, 0 <= n ->
  take_line (Z.to_nat n) (n <? target) ready = Some (bytes, rest) -> (Z.to_nat n < fuel)%nat ->
  n <= target -> line_ok (cs_cons s) ready line ->
  wp (loop fuel (consoleread_step me target) (dst, n)) (fun r s' =>
    r = Some (n - Z.of_nat (length bytes)) /\ line_ok (cs_cons s') rest line /\
    c_lock (cs_cons s') = c_lock (cs_cons s) /\ cs_uart s' = cs_uart s /\ cs_woken s' = cs_woken s /\
    cs_user s' = deliver_from dst bytes (cs_user s)) s.
Proof.
  induction ready as [|c ready IH]; intros line bytes rest fuel s dst n Hn Ht Hf Hle Hl; (destruct fuel as [|fuel]; [lia|]); cbn [loop]; wp_step; unfold consoleread_step at 1;
    destruct (Z.leb_spec n 0) as [H0|H0].
  1, 3: replace (Z.to_nat n) with 0%nat in Ht by lia; cbn in Ht; injection Ht as <- <-; wp_step; wp_step; cbn; split; [f_equal; lia|done].
  1: by destruct (Z.to_nat n) eqn:En; [lia|]; rewrite ?En in Ht.
  replace (Z.to_nat n) with (S (Z.to_nat (n - 1))) in Ht by lia. cbn [take_line] in Ht.
  wp_step. wp_step. unfold id. destruct (Z.eqb_spec (c_r (cs_cons s)) (c_w (cs_cons s))) as [E|_]; [by apply (ready_empty _ _ _ Hl) in E|].
  destruct (take_char_ok _ _ _ _ Hl) as (-> & Hl1 & Hun). wp_step. wp_step.
  destruct (Z.eqb_spec c (C 68)) as [->|Nd].
  { injection Ht as <- <-. wp_step. apply wp_when; intros Elt; rewrite Elt.
    - wp_step. wp_step. wp_step. cbn. rewrite Hun, Z.sub_0_r. done.
    - wp_step. wp_step. cbn. rewrite Z.sub_0_r. done. }
  wp_step. unfold wp at 1, zoom. rewrite Hout. cbn [ozoom]. change (0 =? -1) with false. cbv iota.
  destruct (Z.eqb_spec c newline) as [->|Nn].
  { injection Ht as <- <-. wp_step. wp_step. cbn. done. }
  destruct (take_line (Z.to_nat (n - 1)) true ready) as [[bs rs]|] eqn:Er; [|done]. injection Ht as <- <-. wp_step.
  eapply wp_mono; [apply (IH line bs rs fuel _ (u64 (dst + 1)) (n - 1)); [lia| |lia|lia|exact Hl1]|].
  - rewrite (proj2 (Z.ltb_lt (n - 1) target)) by lia. exact Er.
  - cbn. intros r s' (-> & H1 & H2 & H3 & H4 & H5). split; [f_equal; lia|done].
Qed.

Lemma consoleread_spec t bytes rest s dst n : 0 <= n -> take_line (Z.to_nat n) false t.1 = Some (bytes, rest) ->
  line_ok (cs_cons s) t.1 t.2 -> c_lock (cs_cons s) = false ->
  wp (consoleread me (S (Z.to_nat n)) dst n) (fun r s' =>
    r = Z.of_nat (length bytes) /\ line_ok (cs_cons s') rest t.2 /\ c_lock (cs_cons s') = false /\
    cs_uart s' = cs_uart s /\ cs_user s' = deliver_from dst bytes (cs_user s)) s.
Proof.
  intros Hn Ht Hl Hk. unfold consoleread. wp_step. wp_step. wp_step.
  eapply wp_mono; [apply (consoleread_loop n t.1 t.2 bytes rest); [done| |lia|lia|by apply lock_line]|].
  - by rewrite Z.ltb_irrefl.
  - cbn. intros r s' (-> & H1 & H2 & H3 & H4 & H5). wp_step. wp_step. wp_step. cbn. split; [lia|]. split; [by apply lock_line|done].
Qed.
End Read.

(** ** Any number of readers, writers and interrupts *)

Section Safety.
Context {W : Type} `{UserMem W} (IW : W -> Prop) `{!UserMemOk W IW} (procdump : W -> list Z).

(** [lc] and [lt]: whether the running thread holds cons.lock, tx_lock. *)
Record cinv (lc lt : bool) (s : cstate W) : Prop := {
  ci_cons : c_lock (cs_cons s) = lc;
  ci_tx : tx_lock (cs_uart s) = lt;
  ci_line : exists ready line, line_ok (cs_cons s) ready line;
  ci_user : IW (cs_user s);
  ci_rx : Forall byte_ok (u_rx (cs_uart s));
}.

Lemma cinv_cons lc lc' lt s : cinv lc lt s -> cinv lc' lt (put c_lockL lc' s).
Proof. intros [H1 H2 (r & l & H3) H4 H5]. split; try done. exists r, l. by apply lock_line. Qed.
Lemma cinv_tx lc lt lt' s : cinv lc lt s -> cinv lc lt' (put tx_lockL lt' s).
Proof. by intros []. Qed.

Lemma consoleread_step_safe me target st s : cinv true false s ->
  safe (cinv false false) (fun r s' => match r with
    | inl _ | inr (Some _) => cinv true false s' | inr None => cinv false false s' end) (consoleread_step me target st s).
Proof.
  intros Hs. destruct st as [dst n]. unfold consoleread_step. destruct (n <=? 0); [done|]. apply safe_bind. cbn [gets safe]. unfold id.
  destruct Hs as [L T (ready & line & Hl) HW HR].
  destruct (Z.eqb_spec (c_r (cs_cons s)) (c_w (cs_cons s))) as [E|E].
  - destruct (u_killed _ _).
    + apply safe_bind, safe_wp. apply wp_release; [done|]. cbn. apply (cinv_cons true). split; try done. by exists ready, line.
    + apply safe_bind, safe_sleep; [done| |].
      * apply (cinv_cons true). split; try done. by exists ready, line.
      * intros s' Hs'. split; [apply Hs'|]. cbn. by apply (cinv_cons false).
  - destruct ready as [|c ready]; [by destruct E; apply (ready_empty _ [] line)|].
    destruct (take_char_ok _ _ _ _ Hl) as (-> & Hl1 & Hun). apply safe_bind. cbn [modify safe].
    destruct (c =? C 68).
    + apply safe_bind, safe_wp, wp_when; intros _.
      * wp_step. change (cinv true false (on_cons untake_char (on_cons (take_char c) s))). split; try done. exists (c :: ready), line.
        change (line_ok (untake_char (take_char c (cs_cons s))) (c :: ready) line). by rewrite Hun.
      * split; try done. by exists ready, line.
    + apply safe_bind, safe_wp, wp_zoom. eapply wp_mono; [by apply u_copyout_ok|]. intros r w HW'.
      destruct (r =? -1); [|destruct (c =? newline)]; cbn; (split; try done); by exists ready, line.
Qed.

Lemma consoleread_safe me fuel dst n s : cinv false false s ->
  safe (cinv false false) (fun _ => cinv false false) (consoleread me fuel dst n s).
Proof.
  intros Hs. unfold consoleread. apply safe_bind, safe_wp. apply wp_acquire; [apply Hs|].
  apply safe_bind. eapply safe_mono.
  { apply (safe_loop _ (fun _ => cinv true false) _ (fun r s' => match r with Some _ => cinv true false s' | None => cinv false false s' end)).
    - intros st s1 H1. eapply safe_mono; [by apply consoleread_step_safe|]. by intros [?|[?|]] s2 H2.
    - by apply (cinv_cons false). }
  intros [m|] s2 H2; [|done]. apply safe_bind, safe_wp, wp_release; [apply H2|]. cbn. by apply (cinv_cons true).
Qed.

Lemma uartwrite_safe fuel buf n s : cinv false false s ->
  safe (cinv false false) (fun _ => cinv false false) (uartwrite fuel buf n s).
Proof.
  intros Hs. unfold uartwrite. apply safe_bind, safe_wp, wp_acquire; [apply Hs|]. apply safe_bind. eapply safe_mono.
  { apply (safe_loop _ (fun _ => cinv false true) _ (fun _ => cinv false true)); [|by apply (cinv_tx _ false)].
    intros i s1 H1. unfold uartwrite_step. destruct (n <=? i); [done|]. apply safe_bind. cbn [gets safe]. destruct (tx_busy _).
    - apply safe_bind, safe_sleep; [apply H1|by apply (cinv_tx _ true)|]. intros s' Hs'. split; [apply Hs'|]. cbn. by apply (cinv_tx _ false).
    - cbn. by destruct H1. }
  intros [] s2 H2. apply safe_wp, wp_release; [apply H2|]. by apply (cinv_tx _ true).
Qed.

Lemma consolewrite_safe me fuel src n s : cinv false false s ->
  safe (cinv false false) (fun _ => cinv false false) (consolewrite me fuel src n s).
Proof.
  intros Hs. unfold consolewrite. apply (safe_loop _ (fun _ => cinv false false)); [|done]. intros i s1 H1. unfold consolewrite_step.
  destruct (n <=? i); [done|]. cbv zeta. apply safe_bind, safe_wp, wp_zoom. eapply wp_mono; [by apply u_copyin_ok, H1|]. intros r w [HW _].
  destruct (r.1 =? -1); [by destruct H1|]. apply safe_bind. eapply safe_mono; [apply uartwrite_safe; by destruct H1|]. done.
Qed.

Lemma uartintr_safe s : cinv false false s -> wp (uartintr procdump) (fun _ => cinv false false) s.
Proof.
  intros [L T (ready & line & Hl) HW HR]. eapply wp_mono; [by apply (uartintr_spec procdump (ready, line))|].
  intros [] s' (H1 & H2 & H3 & H4 & H5 & _). split; try done; [by do 2 eexists|congruence|by rewrite H5].
Qed.
End Safety.

(** What may run: a process reading or writing the console, a UART interrupt,
    a key pressed, the UART having sent a byte. *)
Inductive ccall :=
| CRead (p fuel : nat) (dst n : Z)
| CWrite (p fuel : nat) (src n : Z)
| CIntr
| CKey (c : Z)
| CSent.
Definition crun {W} `{UserMem W} (procdump : W -> list Z) (c : ccall) : thread (cstate W) :=
  match c with
  | CRead p fuel dst n => consoleread p fuel dst n ;; ret tt
  | CWrite p fuel src n => consolewrite p fuel src n ;; ret tt
  | CIntr => uartintr procdump
  | CKey c => modify (on_uart (fun u => mkUart (tx_lock u) (tx_busy u) (u_out u) (u_idle u) (u_rx u ++ [u8 c])))
  | CSent => modify (on_uart (fun u => mkUart (tx_lock u) (tx_busy u) (u_out u) true (u_rx u)))
  end.

Lemma crun_safe {W} `{UserMem W} (IW : W -> Prop) `{!UserMemOk W IW} procdump c :
  thread_safe (cinv IW false false) (crun procdump c).
Proof.
  intros s Hs. destruct c as [p fuel dst n|p fuel src n| |c|].
  - apply safe_bind. eapply safe_mono; [by apply (consoleread_safe IW)|done].
  - apply safe_bind. eapply safe_mono; [by apply (consolewrite_safe IW)|done].
  - apply safe_wp. by apply (uartintr_safe IW).
  - destruct Hs. split; try done. cbn. apply Forall_app. split; [done|]. apply Forall_singleton. apply u8_range.
  - by destruct Hs.
Qed.

Definition cons0 : cons := mkCons false (fun _ => 0) 0 0 0 [] [].
Definition uart0 : uart := mkUart false false [] true [].
Lemma cons0_ok : line_ok cons0 [] [].
Proof. by split; cbn; try done; try apply not_elem_of_nil. Qed.

(** C34: the console under any load.  In every interleaving of console reads
    and writes by any number of processes with keys being pressed and UART
    interrupts: no call panics, both locks are free whenever a process is
    switched, and the bytes taken by readers are a prefix, in order, of the
    bytes the line discipline made available; at most 127 bytes plus one
    await reading or editing, also when the 32-bit indices wrap. *)
Theorem console_fifo {W} `{UserMem W} (IW : W -> Prop) `{!UserMemOk W IW} procdump u calls ts s :
  IW u ->
  rtc pool_step (crun procdump <$> calls, mkCst cons0 uart0 [] u) (ts, s) ->
  ~ pool_panics (ts, s) /\ c_lock (cs_cons s) = false /\ tx_lock (cs_uart s) = false /\
  exists ready, c_commit (cs_cons s) = c_taken (cs_cons s) ++ ready /\ Z.of_nat (length ready) <= INPUT_BUF_SIZE.
Proof.
  intros Hu Hrun. destruct (pool_safe (cinv IW false false) _ _ Hrun) as (_ & [L T (r & l & Hl) _ _] & Hp).
  - cbn. apply Forall_fmap, Forall_forall. intros c _. by apply crun_safe.
  - split; try done. cbn. exists [], []. apply cons0_ok.
  - split; [done|]. split; [done|]. split; [done|]. exists r. split; [apply Hl|]. pose proof (lo_cap _ _ _ Hl) as Hc. rewrite length_app in Hc. lia.
Qed.

(** C35: typing and reading back.  The interrupt handler turns the keys
    waiting in the UART into exactly the edits of the line discipline
    (backspace, kill, carriage return, end of file, a full buffer), echoing
    each; a read then returns without waiting exactly what the discipline
    says is readable: up to and including a newline or up to an end of file,
    at most [n] bytes, delivered in order, and leaves the rest for later.
    (The reader's copies succeed.) *)
Theorem console_refines_tty {W} `{UserMem W} (procdump : W -> list Z) me (store : Z -> Z -> W -> W) s t bytes rest dst n :
  (forall va ch w, u_copyout me va [ch] w = Ret 0 (store va ch w)) ->
  line_ok (cs_cons s) t.1 t.2 -> c_lock (cs_cons s) = false -> tx_lock (cs_uart s) = false ->
  Forall byte_ok (u_rx (cs_uart s)) -> 0 <= n ->
  take_line (Z.to_nat n) false (type_all (u_rx (cs_uart s)) t).1 = Some (bytes, rest) ->
  wp (uartintr procdump ;; consoleread me (S (Z.to_nat n)) dst n) (fun r s' =>
    r = Z.of_nat (length bytes) /\ cs_user s' = deliver_from store dst bytes (cs_user s) /\
    line_ok (cs_cons s') rest (type_all (u_rx (cs_uart s)) t).2 /\
    u_out (cs_uart s') = u_out (cs_uart s) ++ echo_all (procdump (cs_user s)) (u_rx (cs_uart s)) t) s.
Proof.
  intros Ho Hl Hc Ht Hr Hn Htake. wp_step. eapply wp_mono; [by apply (uartintr_spec procdump t)|].
  intros [] s1 (H1 & H2 & H3 & H4 & H5 & H6). eapply wp_mono; [by apply (consoleread_spec me store Ho (type_all (u_rx (cs_uart s)) t) bytes rest)|].
  intros r s2 (-> & R1 & R2 & R3 & R4). rewrite R3, R4, H4, H6. done.
Qed.

Module ConsoleWitness.
(** One process whose memory is the state; copies always succeed. *)
Definition W := Z -> Z.
#[export] Instance toy : UserMem W := {
  u_copyout p va bytes := modify (fun w : W => upd w va (nth 0 bytes 0)) ;; ret 0;
  u_copyin p va n := ret (0, (fun i => (va + i) mod 256) <$> seqZ 0 n);
  u_killed p w := false;
}.
#[export] Instance toy_ok : UserMemOk W (fun _ => True).
Proof. split; [done|]. intros p va n w _. cbn. split; [done|]. intros _. by rewrite length_fmap, length_seqZ. Qed.

(** A reader waits; a user types a, x, backspace, b, carriage return. *)
Definition keys : list Z := [97; 120; 8; 98; 13].
Definition typing : cstate W := mkCst cons0 (mkUart false false [] true keys) [] (fun _ => 0).
Lemma console_refines_tty_witness :
  wp (uartintr (fun _ => []) ;; consoleread 0 (S (Z.to_nat 10)) 100 10) (fun r s' =>
    r = 3 /\ cs_user s' = deliver_from (fun va ch w => upd w va ch) 100 [97; 98; 10] (fun _ => 0) /\
    line_ok (cs_cons s') [] [] /\ u_out (cs_uart s') = [97; 120; 8; 32; 8; 98; 10]) typing.
Proof.
  apply (console_refines_tty (fun _ => []) 0 (fun va ch w => upd w va ch) typing ([], []) [97; 98; 10] [] 100 10).
  - intros va ch w. reflexivity.
  - apply cons0_ok.
  - reflexivity.
  - reflexivity.
  - repeat constructor; vm_compute; congruence.
  - lia.
  - reflexivity.
Defined.

Definition start : cstate W := mkCst cons0 uart0 [] (fun _ => 0).
Definition calls : list ccall := [CRead 0 10 100 20; CKey 97; CIntr].
Definition run (c : ccall) (s : cstate W) : cstate W := state_or start (crun (fun _ => []) c s).
Definition st1 : cstate W := run (CRead 0 10 100 20) start.
Definition reader : thread (cstate W) := rest_of (crun (fun _ => []) (CRead 0 10 100 20) start).
Definition st2 : cstate W := run (CKey 97) st1.
Definition st3 : cstate W := run CIntr st2.
Lemma st1_eq : crun (fun _ => []) (CRead 0 10 100 20) start = Sleep ChCons st1 reader.
Proof. apply (sleep_eta start). vm_compute. reflexivity. Qed.
Lemma st2_eq : crun (fun _ => []) (CKey 97) st1 = Ret tt st2.
Proof. apply (ret_eta start). vm_compute. reflexivity. Qed.
Lemma st3_eq : crun (fun _ => []) CIntr st2 = Ret tt st3.
Proof. apply (ret_eta start). vm_compute. reflexivity. Qed.
Lemma console_run : rtc pool_step (crun (fun _ => []) <$> calls, start) ([reader], st3).
Proof.
  eapply rtc_l; [exact (pool_sleep [] _ [crun (fun _ => []) (CKey 97); crun (fun _ => []) CIntr] start ChCons st1 reader st1_eq)|].
  eapply rtc_l; [exact (pool_ret [reader] _ [crun (fun _ => []) CIntr] st1 st2 st2_eq)|].
  eapply rtc_l; [exact (pool_ret [reader] _ [] st2 st3 st3_eq)|]. apply rtc_refl.
Qed.
Lemma console_fifo_witness :
  ~ pool_panics ([reader], st3) /\ c_lock (cs_cons st3) = false /\ tx_lock (cs_uart st3) = false /\
  exists ready, c_commit (cs_cons st3) = c_taken (cs_cons st3) ++ ready /\ Z.of_nat (length ready) <= INPUT_BUF_SIZE.
Proof. apply (console_fifo (fun _ => True) (fun _ => []) (fun _ => 0) calls [reader] st3); [exact I|exact console_run]. Defined.
End ConsoleWitness.
