(* ===== verification/Printf.v ===== *)
(** * kernel/printf.c, user/printf.c and atoi: text and numbers

    Both printf's as functions from a format and its arguments to the
    characters handed to consputc or putc.  A format is the list of its bytes
    before the NUL.  An argument is a 64-bit word or a string; asking for one
    that is not there, or for a number where a string was passed, is undefined
    ([None]), as is a store outside a local buffer.  pr.lock only keeps lines
    of several CPUs apart. *)

From Stdlib Require Import ZArith Lia Ascii.
From S2P Require Import Prelude Params ProcTable.

(** The bytes of a string literal. *)
Fixpoint bytes (s : string) : list Z :=
  match s with
  | EmptyString => []
  | String a s => Z.of_nat (nat_of_ascii a) :: bytes s
  end.

Definition kdigits (x : Z) : Z := nth (Z.to_nat x) (bytes "0123456789abcdef") 0.
Definition udigits (x : Z) : Z := nth (Z.to_nat x) (bytes "0123456789ABCDEF") 0.

(** ** Numbers *)

Definition BUF : Z := 20.
(** A store to [buf[i++]] of the local [char buf[20]]. *)
Definition push_buf (buf : list Z) (c : Z) : option (list Z) :=
  if Z.of_nat (length buf) <? BUF then Some (buf ++ [c]) else None.

(** [do { buf[i++] = digits[x % base]; } while((x /= base) != 0);] *)
Fixpoint digit_loop (fuel : nat) (digits : Z -> Z) (base x : Z) (buf : list Z) : option (list Z) :=
  match fuel with
  | O => None
  | S fuel =>
      buf ← push_buf buf (digits (x mod base));
      let x := x / base in
      if x =? 0 then Some buf else digit_loop fuel digits base x buf
  end.
Definition minus : Z := 45.

Definition printint (digits : Z -> Z) (xx base : Z) (sign : bool) : option (list Z) :=
  let neg := sign && (xx <? 0) in
  let x := if neg then u64 (- xx) else u64 xx in
  buf ← digit_loop (Z.to_nat BUF) digits base x [];
  buf ← (if neg then push_buf buf minus else Some buf);
  Some (rev buf).

Fixpoint ptr_loop (n : nat) (digits : Z -> Z) (x : Z) : list Z :=
  match n with
  | O => []
  | S n => digits (Z.shiftr x (8 * 8 - 4)) :: ptr_loop n digits (u64 (Z.shiftl x 4))
  end.
Definition printptr (digits : Z -> Z) (x : Z) : list Z := bytes "0x" ++ ptr_loop 16 digits x.

(** ** Formats *)

Inductive va := VWord (x : Z) | VStr (s : option (list Z)).
Definition va_word (args : list va) : option (Z * list va) :=
  match args with VWord x :: args => Some (x, args) | _ => None end.
Definition va_str (args : list va) : option (option (list Z) * list va) :=
  match args with VStr s :: args => Some (s, args) | _ => None end.
(** [fmt[i] & 0xff], with the NUL at the end. *)
Definition ch (fmt : list Z) (i : nat) : Z := nth i fmt 0.
(** va_arg of a 64-bit type passed to a [long long] parameter. *)
Definition i64 (x : Z) : Z := (x + 2 ^ 63) mod 2 ^ 64 - 2 ^ 63.

(** One % sequence: what it prints, by how much it moves [i], the arguments
    left.  [c0], [c1] and [c2] are the characters after the %. *)
Definition directive (digits : Z -> Z) (c0 c1 c2 : Z) (args : list va) : option (list Z * nat * list va) :=
  let int n conv base sign :=
    '(x, args) ← va_word args;
    out ← printint digits (conv x) base sign;
    Some (out, n, args) in
  if c0 =? 100 then int 0%nat i32 10 true
  else if (c0 =? 108) && (c1 =? 100) then int 1%nat i64 10 true
  else if (c0 =? 108) && (c1 =? 108) && (c2 =? 100) then int 2%nat i64 10 true
  else if c0 =? 117 then int 0%nat u32 10 false
  else if (c0 =? 108) && (c1 =? 117) then int 1%nat i64 10 false
  else if (c0 =? 108) && (c1 =? 108) && (c2 =? 117) then int 2%nat i64 10 false
  else if c0 =? 120 then int 0%nat u32 16 false
  else if (c0 =? 108) && (c1 =? 120) then int 1%nat i64 16 false
  else if (c0 =? 108) && (c1 =? 108) && (c2 =? 120) then int 2%nat i64 16 false
  else if c0 =? 112 then '(x, args) ← va_word args; Some (printptr digits (u64 x), 0%nat, args)
  else if c0 =? 99 then '(x, args) ← va_word args; Some ([u32 x], 0%nat, args)
  else if c0 =? 115 then
    '(s, args) ← va_str args; Some (default (bytes "(null)") s, 0%nat, args)
  else if c0 =? 37 then Some ([37], 0%nat, args)
  else Some ([37; c0], 0%nat, args).

(** kernel/printf.c: the loop of printf on the rest of the format; the
    characters given to consputc. *)
Fixpoint kprintf_loop (n : nat) (digits : Z -> Z) (fmt : list Z) (args : list va) : option (list Z) :=
  match n with
  | O => None
  | S n =>
      let cx := ch fmt 0 in
      if cx =? 0 then Some [] else
      if negb (cx =? 37) then cons cx <$> kprintf_loop n digits (drop 1 fmt) args else
      let fmt := drop 1 fmt in
      let c0 := ch fmt 0 in
      let c1 := if negb (c0 =? 0) then ch fmt 1 else 0 in
      let c2 := if negb (c1 =? 0) then ch fmt 2 else 0 in
      if c0 =? 0 then Some [] else
      '(out, skip, args) ← directive digits c0 c1 c2 args;
      app out <$> kprintf_loop n digits (drop (1 + skip) fmt) args
  end.
Definition kprintf (digits : Z -> Z) (fmt : list Z) (args : list va) : option (list Z) :=
  kprintf_loop (S (length fmt)) digits fmt args.

(** user/printf.c: the loop of vprintf; [pct] is [state == '%'].  putc takes
    a char. *)
Fixpoint vprintf_loop (n : nat) (digits : Z -> Z) (pct : bool) (fmt : list Z) (args : list va) : option (list Z) :=
  match n with
  | O => None
  | S n =>
      let c0 := ch fmt 0 in
      if c0 =? 0 then Some [] else
      if negb pct then
        if c0 =? 37 then vprintf_loop n digits true (drop 1 fmt) args
        else cons (u8 c0) <$> vprintf_loop n digits false (drop 1 fmt) args
      else
        let c1 := if negb (c0 =? 0) then ch fmt 1 else 0 in
        let c2 := if negb (c1 =? 0) then ch fmt 2 else 0 in
        '(out, skip, args) ← directive digits c0 c1 c2 args;
        app (u8 <$> out) <$> vprintf_loop n digits false (drop (1 + skip) fmt) args
  end.
Definition vprintf (digits : Z -> Z) (fmt : list Z) (args : list va) : option (list Z) :=
  vprintf_loop (S (length fmt)) digits false fmt args.

(** ** Who prints *)

(** kernel/printf.c: panic, before it spins forever. *)
Definition panic_text (s : list Z) : option (list Z) :=
  a ← kprintf kdigits (bytes "panic: ") [];
  b ← kprintf kdigits (bytes "%s" ++ [10]) [VStr (Some s)];
  Some (a ++ b).

(** kernel/proc.c: procdump. *)
Definition state_name (st : procstate) : list Z :=
  bytes (match st with
         | UNUSED => "unused" | USED => "used" | SLEEPING => "sleep "
         | RUNNABLE => "runble" | RUNNING => "run   " | ZOMBIE => "zombie" end).
Definition procdump_one (p : proc) : option (list Z) :=
  if bool_decide (p_state p = UNUSED) then Some [] else
  a ← kprintf kdigits (bytes "%d %s %s") [VWord (p_pid p); VStr (Some (state_name (p_state p))); VStr (Some (p_name p))];
  b ← kprintf kdigits [10] [];
  Some (a ++ b).
Fixpoint procdump_from (n i : nat) (s : ptable) : option (list Z) :=
  match n with
  | O => Some []
  | S n => a ← procdump_one (procs s i); b ← procdump_from n (S i) s; Some (a ++ b)
  end.
Definition procdump (s : ptable) : option (list Z) :=
  a ← kprintf kdigits [10] [];
  b ← procdump_from nproc 0 s;
  Some (a ++ b).

(** user/ulib.c: atoi on a string. *)
Fixpoint atoi_loop (s : list Z) (n : Z) : Z :=
  match s with
  | c :: s => if (48 <=? c) && (c <=? 57) then atoi_loop s (i32 (n * 10 + c - 48)) else n
  | [] => n
  end.
Definition atoi (s : list Z) : Z := atoi_loop s 0.

Example hello : vprintf udigits (bytes "pid %d of %s: 0x%x%%") [VWord 7; VStr (Some (bytes "sh")); VWord 255] = Some (bytes "pid 7 of sh: 0xFF%").
Proof. vm_compute. reflexivity. Qed.
Example most_negative : kprintf kdigits (bytes "%ld %lu") [VWord (2 ^ 63); VWord (2 ^ 64 - 1)] = Some (bytes "-9223372036854775808 18446744073709551615").
Proof. vm_compute. reflexivity. Qed.

(** ** The digits are the number *)

(** The value of a digit string, most significant digit first. *)
Definition value (base : Z) (l : list Z) : Z := fold_left (fun v d => v * base + d) l 0.
(** [l] is the numeral of [x]: digits of the base, no leading zero. *)
Record numeral (base x : Z) (l : list Z) : Prop := {
  nu_digits : Forall (fun d => 0 <= d < base) l;
  nu_value : value base l = x;
  nu_canon : l <> [] /\ (nth 0 l 0 = 0 -> length l = 1%nat);
}.

Lemma value_snoc base l d : value base (l ++ [d]) = value base l * base + d.
Proof. unfold value. by rewrite fold_left_app. Qed.

Lemma value_shift base l : forall v, fold_left (fun v d => v * base + d) l v = v * base ^ Z.of_nat (length l) + value base l.
Proof.
  induction l as [|y l IH]; intros v; [cbn; lia|]. unfold value. cbn [fold_left length]. rewrite (IH (v * base + y)), (IH (0 * base + y)).
  rewrite Nat2Z.inj_succ, Z.pow_succ_r by lia. ring.
Qed.

Lemma digit_loop_spec digits base : 2 <= base -> forall k x buf fuel, 0 <= x < base ^ Z.of_nat (S k) ->
  Z.of_nat (length buf) + Z.of_nat (S k) <= BUF -> (S k <= fuel)%nat ->
  exists l, digit_loop fuel digits base x buf = Some (buf ++ map digits l) /\ numeral base x (rev l) /\ (length l <= S k)%nat.
Proof.
  intros Hb. induction k as [|k IH]; intros x buf fuel Hx Hl Hf; (destruct fuel as [|fuel]; [lia|]); cbn [digit_loop]; unfold push_buf;
    rewrite (proj2 (Z.ltb_lt _ _)) by lia; cbn [mbind option_bind]; pose proof (Z.mod_pos_bound x base ltac:(lia)) as Hm; destruct (Z.eqb_spec (x / base) 0) as [E|E].
  1, 3: exists [x mod base]; (split; [done|]); (split; [|cbn; lia]); (split; cbn; [by constructor|unfold value; cbn; pose proof (Z.div_mod x base ltac:(lia)); lia|done]).
  - exfalso. apply E. apply Z.div_small. change (Z.of_nat 1) with 1 in Hx. rewrite Z.pow_1_r in Hx. lia.
  - destruct (IH (x / base) (buf ++ [digits (x mod base)]) fuel) as (l & El & [N1 N2 [N3 N4]] & Ll).
    + split; [apply Z.div_pos; lia|]. apply Z.div_lt_upper_bound; [lia|].
      replace (base * base ^ Z.of_nat (S k)) with (base ^ Z.of_nat (S (S k))); [lia|]. rewrite (Nat2Z.inj_succ (S k)), Z.pow_succ_r; lia.
    + rewrite length_app. cbn. lia.
    + lia.
    + exists (x mod base :: l). rewrite El, <- app_assoc. split; [done|]. split; [|cbn; lia]. split; cbn [rev].
      * apply Forall_app. split; [done|by constructor].
      * rewrite value_snoc, N2. pose proof (Z.div_mod x base ltac:(lia)). lia.
      * split; [by destruct (rev l)|]. destruct (rev l) as [|d r] eqn:Er; [done|]. cbn. intros ->.
        cbn in N4. specialize (N4 eq_refl). injection N4 as Er'. apply nil_length_inv in Er' as ->. unfold value in N2. cbn in N2. lia.
Qed.

Lemma printint_spec digits base xx sign : 10 <= base <= 16 -> - 2 ^ 63 <= xx < 2 ^ 63 ->
  exists l, printint digits xx base sign = Some ((if sign && (xx <? 0) then [minus] else []) ++ map digits l) /\
    numeral base (if sign && (xx <? 0) then - xx else u64 xx) l /\
    Z.of_nat (length ((if sign && (xx <? 0) then [minus] else []) ++ l)) <= BUF.
Proof.
  intros Hb Hx. unfold printint. destruct (sign && (xx <? 0)) eqn:En.
  - assert (xx < 0) as Hneg by (apply andb_true_iff in En as [_ En]; by apply Z.ltb_lt in En). rewrite (u64_small (- xx)) by lia.
    destruct (digit_loop_spec digits base ltac:(lia) 18 (- xx) [] (Z.to_nat BUF)) as (l & El & Hn & Ll).
    + split; [lia|]. apply (Z.lt_le_trans _ (10 ^ 19)); [lia|]. apply Z.pow_le_mono_l. lia.
    + cbn. unfold BUF. lia.
    + unfold BUF. lia.
    + exists (rev l). rewrite El. cbn [mbind option_bind app]. unfold push_buf. rewrite length_map, (proj2 (Z.ltb_lt _ _)) by (unfold BUF; lia).
      cbn [mbind option_bind]. rewrite rev_app_distr, map_rev. split; [done|]. split; [done|]. cbn. rewrite length_rev. unfold BUF. lia.
  - pose proof (u64_range xx) as Hu. destruct (digit_loop_spec digits base ltac:(lia) 19 (u64 xx) [] (Z.to_nat BUF)) as (l & El & Hn & Ll).
    + split; [lia|]. apply (Z.lt_le_trans _ (10 ^ 20)); [lia|]. apply Z.pow_le_mono_l. lia.
    + cbn. unfold BUF. lia.
    + unfold BUF. lia.
    + exists (rev l). rewrite El. cbn [mbind option_bind app]. rewrite map_rev. split; [done|]. split; [done|]. rewrite length_rev. unfold BUF. lia.
Qed.

(** printptr: sixteen hexadecimal digits. *)
Lemma ptr_loop_spec digits n : forall x, 0 <= x < 2 ^ 64 -> x mod 2 ^ (64 - 4 * Z.of_nat n) = 0 -> (n <= 16)%nat ->
  exists l, ptr_loop n digits x = map digits l /\ length l = n /\ Forall (fun d => 0 <= d < 16) l /\
    value 16 l * 2 ^ (64 - 4 * Z.of_nat n) = x.
Proof.
  induction n as [|n IH]; intros x Hx Hm Hn.
  - exists []. split; [done|]. split; [done|]. split; [done|]. change (64 - 4 * Z.of_nat 0) with 64 in *. rewrite Z.mod_small in Hm by done. by rewrite Hm.
  - cbn [ptr_loop]. set (d := Z.shiftr x (8 * 8 - 4)). assert (d = x / 2 ^ 60) as Ed by (unfold d; by rewrite Z.shiftr_div_pow2).
    assert (0 <= d < 16) as Hd by (rewrite Ed; split; [apply Z.div_pos; lia|apply Z.div_lt_upper_bound; lia]).
    assert (u64 (Z.shiftl x 4) = 16 * (x mod 2 ^ 60)) as Es.
    { rewrite Z.shiftl_mul_pow2 by done. unfold u64. replace (x * 2 ^ 4) with (2 ^ 4 * x) by lia. change (2 ^ 64) with (2 ^ 4 * 2 ^ 60). rewrite Z.mul_mod_distr_l; done. }
    rewrite Es. pose proof (Z.mod_pos_bound x (2 ^ 60) ltac:(lia)) as Hb. pose proof (Z.div_mod x (2 ^ 60) ltac:(lia)) as Hdm. rewrite <- Ed in Hdm.
    set (e := 64 - 4 * Z.of_nat (S n)) in *. assert (64 - 4 * Z.of_nat n = e + 4) as Ee by (unfold e; lia). rewrite Ee in IH.
    assert (0 <= e) as He by (unfold e; lia). assert (2 ^ (e + 4) = 16 * 2 ^ e) as E4 by (rewrite Z.pow_add_r by lia; lia).
    assert (exists q, 2 ^ 60 = q * 2 ^ e) as [q Hq] by (exists (2 ^ (60 - e)); rewrite <- Z.pow_add_r by (unfold e; lia); f_equal; lia).
    assert (0 < 2 ^ e) as Hpe by (apply Z.pow_pos_nonneg; lia).
    destruct (IH (16 * (x mod 2 ^ 60))) as (l & El & Ll & Fl & Vl); [lia| |lia|].
    { rewrite E4, Z.mul_mod_distr_l by lia. apply Z.mod_divide in Hm as [y Hy]; [|lia].
      assert ((x mod 2 ^ 60) mod 2 ^ e = 0) as ->; [|done]. apply Z.mod_divide; [lia|]. exists (y - d * q).
      replace (x mod 2 ^ 60) with (x - 2 ^ 60 * d) by lia. rewrite Hq, Hy. ring. }
    exists (d :: l). cbn [map length]. rewrite El. split; [done|]. split; [by rewrite Ll|]. split; [by constructor|].
    unfold value at 1. cbn [fold_left]. rewrite value_shift, Ll. rewrite E4 in Vl.
    assert (16 ^ Z.of_nat n * 2 ^ e = 2 ^ 60) as E60.
    { change 16 with (2 ^ 4). rewrite <- Z.pow_mul_r, <- Z.pow_add_r by lia. f_equal. unfold e. lia. }
    nia.
Qed.

Lemma printptr_spec digits x : 0 <= x < 2 ^ 64 ->
  exists l, printptr digits x = bytes "0x" ++ map digits l /\ length l = 16%nat /\ Forall (fun d => 0 <= d < 16) l /\ value 16 l = x.
Proof.
  intros Hx. destruct (ptr_loop_spec digits 16 x Hx) as (l & El & Ll & Fl & Vl); [apply Z.mod_1_r|lia|].
  exists l. unfold printptr. rewrite El. split; [done|]. split; [done|]. split; [done|]. change (64 - 4 * Z.of_nat 16) with 0 in Vl. lia.
Qed.

(** C36: the numbers printf prints.  For every 64-bit value and every base
    from 10 to 16 (so for %d, %u, %x and their long forms), signed or not,
    printint terminates without a store outside its 20-byte buffer and prints
    the sign and then the numeral of the value: digits of the base, no leading
    zero, the right value, also for the most negative number.  %p prints 0x
    and the sixteen hexadecimal digits of the pointer. *)
Theorem printint_correct digits base xx sign x : 10 <= base <= 16 -> - 2 ^ 63 <= xx < 2 ^ 63 -> 0 <= x < 2 ^ 64 ->
  (exists l, printint digits xx base sign = Some ((if sign && (xx <? 0) then [minus] else []) ++ map digits l) /\
    numeral base (if sign && (xx <? 0) then - xx else u64 xx) l /\
    Z.of_nat (length ((if sign && (xx <? 0) then [minus] else []) ++ l)) <= BUF) /\
  (exists l, printptr digits x = bytes "0x" ++ map digits l /\ length l = 16%nat /\ Forall (fun d => 0 <= d < 16) l /\ value 16 l = x).
Proof. intros Hb Hxx Hx. split; [by apply printint_spec|by apply printptr_spec]. Qed.
Lemma printint_correct_witness :
  (exists l, printint kdigits (- 2 ^ 63) 10 true = Some ([minus] ++ map kdigits l) /\ numeral 10 (2 ^ 63) l /\ Z.of_nat (length ([minus] ++ l)) <= BUF) /\
  (exists l, printptr kdigits 0xdeadbeef = bytes "0x" ++ map kdigits l /\ length l = 16%nat /\ Forall (fun d => 0 <= d < 16) l /\ value 16 l = 0xdeadbeef).
Proof. apply (printint_correct kdigits 10 (- 2 ^ 63) true 0xdeadbeef); lia. Defined.

(** ** The two printf's *)

Lemma printf_agree digits k : forall fmt args n1 n2, (length fmt <= k)%nat -> (length fmt < n1)%nat -> (length fmt < n2)%nat ->
  vprintf_loop n1 digits false fmt args = fmap (M := option) (fmap u8) (kprintf_loop n2 digits fmt args).
Proof.
  induction k as [|k IH]; intros fmt args n1 n2 Hk H1 H2; (destruct n1 as [|n1]; [lia|]); (destruct n2 as [|n2]; [lia|]); cbn [vprintf_loop kprintf_loop].
  { assert (fmt = []) as -> by (apply nil_length_inv; lia). done. }
  destruct fmt as [|c fmt]; [done|]. change (ch (c :: fmt) 0) with c. change (drop 1 (c :: fmt)) with fmt. cbn in Hk, H1, H2.
  destruct (Z.eqb_spec c 0) as [->|Hc]; [done|]. cbn [negb]. destruct (Z.eqb_spec c 37) as [->|Hp]; cbn [negb].
  - destruct n1 as [|n1]; [lia|]. cbn [vprintf_loop]. destruct (Z.eqb_spec (ch fmt 0) 0) as [E0|E0].
    + done.
    + cbn [negb]. destruct fmt as [|c0 fmt]; [done|]. destruct (directive _ _ _ _ args) as [[[out skip] args']|]; [|done]. cbn [mbind option_bind].
      cbn in Hk, H1, H2. rewrite (IH (drop (1 + skip) (c0 :: fmt)) args' n1 n2); cbn; rewrite ?length_drop; [|lia..].
      destruct (kprintf_loop n2 digits (drop skip fmt) args') as [r|]; cbn; [|done]. f_equal. by rewrite fmap_app.
  - rewrite (IH fmt args n1 n2) by lia. by destruct (kprintf_loop n2 digits fmt args).
Qed.

(** The kernel's printf, a loop with lookahead, and the user library's
    vprintf, a state machine, are the same function of the format and the
    arguments, on every format (also with a trailing or unknown % sequence):
    vprintf writes the bytes of the characters printf hands to consputc, up
    to the case of the hexadecimal digits. *)
Theorem printf_same digits fmt args : vprintf digits fmt args = fmap (M := option) (fmap u8) (kprintf digits fmt args).
Proof. apply (printf_agree digits (length fmt)); lia. Qed.

(** ** Reading a number back *)

Lemma kdigits_dec d : 0 <= d < 10 -> kdigits d = 48 + d.
Proof.
  intros Hd. assert (d = 0 \/ d = 1 \/ d = 2 \/ d = 3 \/ d = 4 \/ d = 5 \/ d = 6 \/ d = 7 \/ d = 8 \/ d = 9) as Hc by lia.
  repeat destruct Hc as [->|Hc]; try reflexivity. by subst.
Qed.

Lemma value_ge l : forall v, 0 <= v -> Forall (fun d => 0 <= d < 10) l -> v <= fold_left (fun v d => v * 10 + d) l v.
Proof.
  induction l as [|d l IH]; intros v Hv Hl; [done|]. apply Forall_cons in Hl as [Hd Hl]. cbn. specialize (IH (v * 10 + d) ltac:(lia) Hl). lia.
Qed.

Lemma atoi_loop_digits rest l : ~ (48 <= ch rest 0 <= 57) -> Forall (fun d => 0 <= d < 10) l -> forall v, 0 <= v ->
  fold_left (fun v d => v * 10 + d) l v < 2 ^ 31 -> atoi_loop (map kdigits l ++ rest) v = fold_left (fun v d => v * 10 + d) l v.
Proof.
  intros Hr. induction l as [|d l IH]; intros Hl v Hv Hb; cbn [map app].
  - destruct rest as [|c rest]; [done|]. cbn in Hr |- *. destruct (Z.leb_spec 48 c), (Z.leb_spec c 57); cbn; try done. lia.
  - apply Forall_cons in Hl as [Hd Hl]. cbn [atoi_loop fold_left] in *. rewrite (kdigits_dec d Hd). bsimp.
    pose proof (value_ge l (v * 10 + d) ltac:(lia) Hl) as Hge. replace (v * 10 + (48 + d) - 48) with (v * 10 + d) by lia.
    rewrite i32_small by lia. apply IH; [done|lia|done].
Qed.

(** Printing and parsing a number.  atoi of what printint prints for any
    non-negative int, followed by anything that is not a digit, is that
    number. *)
Theorem atoi_printint n rest : 0 <= n < 2 ^ 31 -> ~ (48 <= ch rest 0 <= 57) ->
  (fun text => atoi (text ++ rest)) <$> printint kdigits n 10 true = Some n.
Proof.
  intros Hn Hr. destruct (printint_spec kdigits 10 n true) as (l & El & [N1 N2 N3] & _); [lia|lia|].
  rewrite El. rewrite (proj2 (Z.ltb_ge n 0)) in * by lia. cbn in *. f_equal. rewrite u64_small in N2 by lia. unfold atoi.
  rewrite atoi_loop_digits; [done|done|done|lia|]. unfold value in N2. lia.
Qed.
Lemma atoi_printint_witness : (fun text => atoi (text ++ bytes " files")) <$> printint kdigits 2147483647 10 true = Some 2147483647.
Proof. apply (atoi_printint 2147483647 (bytes " files")); vm_compute; intuition congruence. Defined.
