(* ===== verification/Kernel.v ===== *)
(** * The kernel's state, for the parts of it that use all the others

    File tables, processes, memory, pipes and the console beside the file
    system: the file system's state [fs kw] with everything else as its user
    part [kw].  The interface [UserMem] of the lower layers is implemented
    here with copyin and copyout of vm.c. *)

From Stdlib Require Import ZArith Lia.
From stdpp Require Import gmap.
From S2P Require Import Prelude Mem StringC Params Env Kalloc Vm Sleeplock Bio Log Fs Pipe ProcTable Console.

Inductive ftype := FD_NONE | FD_PIPE | FD_INODE | FD_DEVICE.
#[export] Instance ftype_eq_dec : EqDecision ftype.
Proof. solve_decision. Defined.

(** struct file.  A null [ip] is [None]. *)
Record file := mkFile {
  f_type : ftype;
  f_ref : Z;
  f_readable : bool;
  f_writable : bool;
  f_pipe : Z;
  f_ip : option nat;
  f_off : Z;
  f_major : Z;
}.
Definition with_f_type (x : ftype) (f : file) : file :=
  mkFile x (f_ref f) (f_readable f) (f_writable f) (f_pipe f) (f_ip f) (f_off f) (f_major f).
Definition with_f_ref (x : Z) (f : file) : file :=
  mkFile (f_type f) x (f_readable f) (f_writable f) (f_pipe f) (f_ip f) (f_off f) (f_major f).
Definition with_f_readable (x : bool) (f : file) : file :=
  mkFile (f_type f) (f_ref f) x (f_writable f) (f_pipe f) (f_ip f) (f_off f) (f_major f).
Definition with_f_writable (x : bool) (f : file) : file :=
  mkFile (f_type f) (f_ref f) (f_readable f) x (f_pipe f) (f_ip f) (f_off f) (f_major f).
Definition with_f_pipe (x : Z) (f : file) : file :=
  mkFile (f_type f) (f_ref f) (f_readable f) (f_writable f) x (f_ip f) (f_off f) (f_major f).
Definition with_f_ip (x : option nat) (f : file) : file :=
  mkFile (f_type f) (f_ref f) (f_readable f) (f_writable f) (f_pipe f) x (f_off f) (f_major f).
Definition with_f_off (x : Z) (f : file) : file :=
  mkFile (f_type f) (f_ref f) (f_readable f) (f_writable f) (f_pipe f) (f_ip f) x (f_major f).
Definition with_f_major (x : Z) (f : file) : file :=
  mkFile (f_type f) (f_ref f) (f_readable f) (f_writable f) (f_pipe f) (f_ip f) (f_off f) x.

Definition nfile : nat := Z.to_nat NFILE.
Definition CONSOLE : Z := 1.
(** The functions a devsw entry can point to. *)
Inductive device := DevConsole.

Record kw := mkKw {
  k_pt : ptable;
  k_pm : pm;
  ft_lock : spinlock;
  files : nat -> file;
  k_pipes : Z -> pipe;
  devsw : Z -> option device;
  k_cons : cons;
  k_uart : uart;
  k_woken : list chan;
}.
Definition set_k_pt (x : ptable) (s : kw) : kw :=
  mkKw x (k_pm s) (ft_lock s) (files s) (k_pipes s) (devsw s) (k_cons s) (k_uart s) (k_woken s).
Definition set_k_pm (x : pm) (s : kw) : kw :=
  mkKw (k_pt s) x (ft_lock s) (files s) (k_pipes s) (devsw s) (k_cons s) (k_uart s) (k_woken s).
Definition set_ft_lock (x : spinlock) (s : kw) : kw :=
  mkKw (k_pt s) (k_pm s) x (files s) (k_pipes s) (devsw s) (k_cons s) (k_uart s) (k_woken s).
Definition set_files (x : nat -> file) (s : kw) : kw :=
  mkKw (k_pt s) (k_pm s) (ft_lock s) x (k_pipes s) (devsw s) (k_cons s) (k_uart s) (k_woken s).
Definition set_k_pipes (x : Z -> pipe) (s : kw) : kw :=
  mkKw (k_pt s) (k_pm s) (ft_lock s) (files s) x (devsw s) (k_cons s) (k_uart s) (k_woken s).
Definition set_devsw (x : Z -> option device) (s : kw) : kw :=
  mkKw (k_pt s) (k_pm s) (ft_lock s) (files s) (k_pipes s) x (k_cons s) (k_uart s) (k_woken s).
Definition set_k_cons (x : cons) (s : kw) : kw :=
  mkKw (k_pt s) (k_pm s) (ft_lock s) (files s) (k_pipes s) (devsw s) x (k_uart s) (k_woken s).
Definition set_k_uart (x : uart) (s : kw) : kw :=
  mkKw (k_pt s) (k_pm s) (ft_lock s) (files s) (k_pipes s) (devsw s) (k_cons s) x (k_woken s).
Definition set_k_woken (x : list chan) (s : kw) : kw :=
  mkKw (k_pt s) (k_pm s) (ft_lock s) (files s) (k_pipes s) (devsw s) (k_cons s) (k_uart s) x.

Definition k_ptL : lens kw ptable := Lens k_pt set_k_pt.
Definition k_pmL : lens kw pm := Lens k_pm set_k_pm.
Definition ft_lockL : lens kw spinlock := Lens ft_lock set_ft_lock.
(** The pipe at [pi] with what pipe.c uses of the rest. *)
Definition pipeL (pi : Z) : lens kw (pstate kw) :=
  Lens (fun s => mkPst (k_pipes s pi) (k_woken s) s)
       (fun p _ => set_k_woken (ps_woken p) (set_k_pipes (upd (k_pipes (ps_user p)) pi (ps_pipe p)) (ps_user p))).
Definition consL : lens kw (cstate kw) :=
  Lens (fun s => mkCst (k_cons s) (k_uart s) (k_woken s) s)
       (fun c _ => set_k_woken (cs_woken c) (set_k_uart (cs_uart c) (set_k_cons (cs_cons c) (cs_user c)))).
Definition on_file (f : nat) (g : file -> file) (s : kw) : kw := set_files (upd (files s) f (g (files s f))) s.

Definition uproc_of (s : kw) (p : nat) : uproc := mkUproc (p_size (procs (k_pt s) p)) (p_pgtbl (procs (k_pt s) p)).

(** The kernel as a whole. *)
Definition kernel := fs kw.
Notation K := (M kernel).

Section UserMemory.
Context `{LinkerSyms}.
#[export] Instance kernel_user : UserMem kw := {
  u_copyout p va bytes := let* u := gets (fun s => uproc_of s p) in zoom k_pmL (copyout u (p_pagetable u) va bytes);
  u_copyin p va n := let* u := gets (fun s => uproc_of s p) in zoom k_pmL (copyin u (p_pagetable u) va n);
  u_killed p s := p_killed (procs (k_pt s) p);
}.
End UserMemory.

(** Routines of the other components on the whole state. *)
Definition on_kw {A} (m : M kw A) : K A := zoom fs_userL m.
Definition on_pt {A} (m : M ptable A) : K A := on_kw (zoom k_ptL m).
Definition on_pm {A} (m : M pm A) : K A := on_kw (zoom k_pmL m).
Definition on_log {A} (m : M log A) : K A := zoom fs_logL m.
Definition get_kw : K kw := gets fs_user.
Definition kproc (p : nat) : K proc := gets (fun s => procs (k_pt (fs_user s)) p).
Definition set_kproc (p : nat) (f : proc -> proc) : K unit := on_pt (set_proc p f).
Definition kfile (f : nat) : K file := gets (fun s => files (fs_user s) f).
Definition set_kfile (f : nat) (g : file -> file) : K unit := on_kw (modify (on_file f g)).

(** kernel/console.c: consoleinit connects the console. *)
Definition consoleinit : K unit :=
  on_kw (modify (fun s => set_k_cons (mkCons false (c_buf (k_cons s)) (c_r (k_cons s)) (c_w (k_cons s)) (c_e (k_cons s)) (c_commit (k_cons s)) (c_taken (k_cons s))) s)) ;;
  on_kw (modify (fun s => set_devsw (upd (devsw s) CONSOLE (Some DevConsole)) s)).

(** ** struct trapframe, in the page at [p->trapframe] *)

Definition tf_kernel_satp : Z := 0.
Definition tf_kernel_sp : Z := 8.
Definition tf_kernel_trap : Z := 16.
Definition tf_epc : Z := 24.
Definition tf_kernel_hartid : Z := 32.
Definition tf_sp : Z := 48.
Definition tf_a (n : Z) : Z := 112 + 8 * n.
Definition sizeof_trapframe : Z := 288.
Definition tf_get (p : nat) (off : Z) : K Z :=
  gets (fun s => load64 (pm_mem (k_pm (fs_user s))) (p_trapframe (procs (k_pt (fs_user s)) p) + off)).
Definition tf_set (p : nat) (off v : Z) : K unit :=
  let* q := kproc p in on_pm (mem_op (fun m => store64 m (p_trapframe q + off) v)).
