(* ===== verification/UserIO.v ===== *)
(** * User buffers as ends of file I/O

    readi and writei copy to and from an address space with copyout and
    copyin of vm.c.  A mapped buffer gives its bytes and a writable one takes
    bytes piece by piece, whatever page boundaries lie inside it; the rest of
    the kernel's state does not change. *)

From Stdlib Require Import ZArith Lia.
From stdpp Require Import gmap.
From S2P Require Import Prelude Mem StringC Params Env Kalloc Vm PageTable UserCopy Sleeplock Bio Log Fs FsPure FsTxn FsAlloc FsInode FsFile Pipe ProcTable Console Kernel.

(** ** Copies in pieces *)

Section Copies.
Context `{LinkerOk}.
Implicit Types (t : gmap (list Z) Z) (m : mem) (s : pm) (ps : list Z).

Definition mapped m t (va n : Z) : Prop := va + n <= MAXVA /\ forall x, va <= x < va + n -> user_pa m t x <> 0.
Definition takes m t (va n : Z) : Prop := va + n <= MAXVA /\ forall x, va <= x < va + n -> user_pa m t x <> 0 /\ has (ptev m t x) PTE_W = true.
(** What the user has at [va]. *)
Definition ubytes m t (va n : Z) : list Z := vmem m t <$> seqZ va n.

Lemma length_ubytes m t va n : length (ubytes m t va n) = Z.to_nat n.
Proof. unfold ubytes. by rewrite length_fmap, length_seqZ. Qed.
Lemma nth_ubytes m t va n k : (k < Z.to_nat n)%nat -> nth k (ubytes m t va n) 0 = vmem m t (va + Z.of_nat k).
Proof. intros Hk. unfold ubytes. by rewrite nth_lookup, list_lookup_fmap, lookup_seqZ_lt by lia. Qed.
Lemma ubytes_part m t va n a k : 0 <= a -> 0 <= k -> a + k <= n -> ubytes m t (va + a) k = take (Z.to_nat k) (drop (Z.to_nat a) (ubytes m t va n)).
Proof.
  intros. apply list_eq. intros x. unfold ubytes. destruct (decide (x < Z.to_nat k)%nat).
  - rewrite lookup_take_lt, lookup_drop, !list_lookup_fmap, !lookup_seqZ_lt by lia. cbn. do 2 f_equal. lia.
  - rewrite lookup_take_ge by lia. apply lookup_ge_None. rewrite length_fmap, length_seqZ. lia.
Qed.
Lemma mapped_part m t va n a k : 0 <= a -> 0 <= k -> a + k <= n -> mapped m t va n -> mapped m t (va + a) k.
Proof. intros ? ? ? [Hm Hx]. split; [lia|]. intros x ?. apply Hx. lia. Qed.
Lemma ubytes_bytes m t va n : mem_ok m -> Forall byte_ok (ubytes m t va n).
Proof.
  intros Hm. apply Forall_fmap, Forall_forall. intros x _. cbn. unfold vmem. case_match; [unfold byte_ok; lia|apply Hm].
Qed.

Lemma lazy_takes root t ps s t' ps' s' va n : lazy_ext root t ps s t' ps' s' -> 0 <= va -> takes (pm_mem s) t va n -> takes (pm_mem s') t' va n.
Proof.
  intros Hl Hva [Hmax Hm]. split; [done|]. intros x Hx. destruct (Hm x Hx) as [Hn Hw].
  assert (ptev (pm_mem s') t' x = ptev (pm_mem s) t x) as E by (apply user_pa_kept; [apply (lz_pte _ _ _ _ _ _ _ Hl); lia|done]).
  by rewrite (user_pa_ptev _ _ _ _ _ E), E.
Qed.

Lemma written_trans dst src1 src2 root t ps s t1 ps1 s1 t2 ps2 s2 : 0 <= dst ->
  written root dst src1 t ps s (length src1) t1 ps1 s1 ->
  written root (dst + Z.of_nat (length src1)) src2 t1 ps1 s1 (length src2) t2 ps2 s2 ->
  written root dst (src1 ++ src2) t ps s (length (src1 ++ src2)) t2 ps2 s2.
Proof.
  intros Hdst [A1 B1 C1 D1 E1 F1 G1] [A2 B2 C2 D2 E2 F2 G2]. rewrite length_app.
  assert (forall va, 0 <= va < MAXVA -> user_pa (pm_mem s) t va <> 0 -> ptev (pm_mem s1) t1 va = ptev (pm_mem s) t va) as K1.
  { intros va Hva Hn. apply user_pa_kept; [by apply C1|done]. }
  split; [done|..].
  - intros va Hva. rewrite B2 by done. case_decide as X; [|rewrite B1 by done]; repeat case_decide; try lia.
    + rewrite app_nth2 by lia. f_equal. lia.
    + by rewrite app_nth1 by lia.
  - intros va Hva Hv. rewrite C2; [by apply C1|done|]. by rewrite C1.
  - auto.
  - intros va Hva Hn. destruct (E2 va Hva Hn) as [E|E]; [|right; auto]. rewrite E in *. by apply E1.
  - intros va Hva. destruct (decide (va < dst + Z.of_nat (length src1))) as [Hlt|Hge]; [|apply F2; lia].
    destruct (F1 va ltac:(lia)) as [Hm Hn]. split; [done|]. rewrite (user_pa_ptev _ _ (pm_mem s2) t2 va (user_pa_kept _ _ _ _ _ (C2 va ltac:(lia)) Hn)). done.
  - intros x Hx Hw. rewrite G2; [by apply G1|intros q Hq; by apply Hx, D1|]. intros q (va & Hva & -> & Hn & Hpw).
    destruct (E1 va Hva Hn) as [E|E]; [|by apply Hx]. rewrite E in *. apply Hw. exists va. split; [done|]. split; [done|]. split; [done|].
    by rewrite <- (K1 va Hva Hn).
Qed.
End Copies.

(** ** Ends of file I/O *)

Section Ends.
Context `{LinkerOk} (T : txn_env) (me : nat).
Context (u0 : kw) (t0 : gmap (list Z) Z) (ps0 : list Z).

Definition uroot (u : kw) : Z := p_pgtbl (procs (k_pt u) me).
Definition uspace : Prop := p_size (procs (k_pt u0) me) <= MAXVA /\ aspace (uroot u0) t0 ps0 (k_pm u0).

(** The state is that of [u0] but for pages faulted in. *)
Definition reading (u : kw) : Prop := u = set_k_pm (k_pm u) u0 /\ exists t ps, lazy_ext (uroot u0) t0 ps0 (k_pm u0) t ps (k_pm u).
(** ... but for the bytes [acc] at [va]. *)
Definition filled (va : Z) (acc : list Z) (u : kw) : Prop :=
  u = set_k_pm (k_pm u) u0 /\ exists t ps, written (uroot u0) va acc t0 ps0 (k_pm u0) (length acc) t ps (k_pm u).

Lemma reading_start : uspace -> reading u0.
Proof. intros [_ Ha]. split; [by destruct u0|]. exists t0, ps0. by apply lazy_refl. Qed.
Lemma filled_start va : uspace -> filled va [] u0.
Proof. intros [_ Ha]. split; [by destruct u0|]. exists t0, ps0. by apply written_refl. Qed.

Lemma uproc_same u p : u = set_k_pm (k_pm u) u0 -> uproc_of u p = uproc_of u0 p.
Proof. by intros ->. Qed.

(** Buffers survive. *)
Lemma reading_buf u : reading u -> exists t ps, aspace (uroot u) t ps (k_pm u) /\
  (forall va n, 0 <= va -> mapped (pm_mem (k_pm u0)) t0 va n -> mapped (pm_mem (k_pm u)) t va n /\ ubytes (pm_mem (k_pm u)) t va n = ubytes (pm_mem (k_pm u0)) t0 va n) /\
  (forall s t' ps', lazy_ext (uroot u) t ps (k_pm u) t' ps' s -> lazy_ext (uroot u0) t0 ps0 (k_pm u0) t' ps' s).
Proof.
  intros [E (t & ps & Hl)]. exists t, ps. assert (uroot u = uroot u0) as -> by by rewrite E. split; [apply (lz_as _ _ _ _ _ _ _ Hl)|]. split.
  - intros va n Hva [Hmax Hm]. split; [split; [done|]|].
    + intros x Hx. rewrite (user_pa_ptev (pm_mem (k_pm u0)) t0 (pm_mem (k_pm u)) t x); [by apply Hm|]. apply user_pa_kept; [|by apply Hm]. apply (lz_pte _ _ _ _ _ _ _ Hl). lia.
    + unfold ubytes. apply list_fmap_ext. intros k x Hx. apply list_elem_of_lookup_2, elem_of_seqZ in Hx. apply (lz_vmem _ _ _ _ _ _ _ Hl). lia.
  - intros s t' ps' Hl'. by eapply lazy_trans.
Qed.

Lemma wp_ucopyin p va n Q u : wp (copyin (uproc_of u p) (p_pagetable (uproc_of u p)) va n) (fun r m => Q r (set_k_pm m u)) (k_pm u) -> wp (u_copyin p va n) Q u.
Proof. intros HQ. unfold u_copyin, kernel_user. wp_step. wp_step. by apply wp_zoom. Qed.
Lemma wp_ucopyout p va b Q u : wp (copyout (uproc_of u p) (p_pagetable (uproc_of u p)) va b) (fun r m => Q r (set_k_pm m u)) (k_pm u) -> wp (u_copyout p va b) Q u.
Proof. intros HQ. unfold u_copyout, kernel_user. wp_step. wp_step. by apply wp_zoom. Qed.
Lemma fs_at_user (c : control kw) bs L V (s : kernel) u : fs_at T c bs L V s -> fs_at T (with_user u c) bs L V (put fs_userL u s).
Proof. intros [<- Hs]. by split. Qed.

Lemma user_src_gives va n : uspace -> 0 <= va -> 0 <= n -> mapped (pm_mem (k_pm u0)) t0 va n ->
  src_gives T me (UserSrc va) (ubytes (pm_mem (k_pm u0)) t0 va n) reading.
Proof.
  intros [Hsz Ha] Hva Hn [Hmax Hm] tot m c bs L V s [Eu (t & ps & Hl)] Ht Hm0 Hle Hs. rewrite length_ubytes in Hle. rewrite Z2Nat.id in Hle by done.
  unfold copy_from. rewrite u64_small by (pose proof MAXVA_val; lia). apply wp_zoom, wp_ucopyin.
  assert (view fs_userL s = c.2) as -> by by destruct Hs as [<- _]. rewrite (uproc_same _ _ Eu).
  eapply wp_mono; [apply (copyin_spec (uproc_of u0 me) (uroot u0) eq_refl Hsz _ _ t ps); [lia|done|apply (lz_as _ _ _ _ _ _ _ Hl)]|].
  intros [r b] p' (t' & ps' & Hl' & Hr). cbn [fst snd] in *. pose proof (lazy_trans _ _ _ _ _ _ _ _ _ _ Hl Hl') as Hlt.
  assert (reading (set_k_pm p' c.2)) as HI by (split; [by rewrite Eu|by exists t', ps']).
  destruct Hr as [(-> & Lb & Hb)|(_ & x & Hx & Hno)].
  - split; [done|]. split; [|eexists; split; [exact HI|by apply fs_at_user]]. apply (nth_ext _ _ 0 0).
    + rewrite length_take, length_drop, length_ubytes. lia.
    + intros k Hk. rewrite Hb by done. rewrite (lz_vmem _ _ _ _ _ _ _ Hl) by lia. rewrite nth_lookup, lookup_take_lt by lia.
      rewrite lookup_drop, <- nth_lookup, nth_ubytes by lia. f_equal. lia.
  - exfalso. destruct Hno as [|Hno]; [lia|]. apply (Hm x); [lia|]. rewrite <- Hno. symmetry. apply user_pa_ptev, user_pa_kept; [|apply Hm; lia].
    apply (lz_pte _ _ _ _ _ _ _ Hl). lia.
Qed.

Lemma user_dst_takes va n : uspace -> 0 <= va -> takes (pm_mem (k_pm u0)) t0 va n ->
  dst_takes T me (UserDst va) n (filled va).
Proof.
  intros [Hsz Ha] Hva [Hmax Hm] acc bytes c bs L V s [Eu (t & ps & Hw)] Hle Hb Hs. rewrite length_app in Hle.
  unfold copy_to. rewrite u64_small by (pose proof MAXVA_val; lia). apply wp_zoom, wp_ucopyout.
  assert (view fs_userL s = c.2) as -> by by destruct Hs as [<- _]. rewrite (uproc_same _ _ Eu).
  eapply wp_mono; [apply (copyout_spec (uproc_of u0 me) (uroot u0) eq_refl Hsz _ _ t ps); [lia|done|apply (wr_as _ _ _ _ _ _ _ _ _ _ Hw)]|].
  intros r p' (k & t' & ps' & Hk & Hw' & Hr). cbn [fst snd] in *.
  destruct Hr as [[-> ->]|(_ & Hk' & Hno)].
  - split; [done|]. exists (set_k_pm p' c.2). split; [split; [by rewrite Eu|]|by apply fs_at_user]. exists t', ps'. cbn. by eapply written_trans.
  - exfalso. apply (refused_back _ _ _ _ _ _ _ _ _ _ _ Hw) in Hno; [|lia]. destruct (Hm (va + Z.of_nat (length acc) + Z.of_nat k) ltac:(lia)) as [Hn Hpw].
    destruct Hno as [|[|Hx]]; [lia|done|congruence].
Qed.
End Ends.
