(* ===== verification/File.v ===== *)
(** * kernel/file.c and the allocation of pipes

    The system-wide file table and the operations on open files.  A pointer
    to a struct file is its index in [ftable.file].  [pid] and [me] are the
    calling process, [fuel] bounds the wakeups its waits are observed for. *)

From Stdlib Require Import ZArith Lia.
From stdpp Require Import gmap.
From S2P Require Import Prelude Mem StringC Params Env Kalloc Vm Sleeplock Bio Log Fs Pipe ProcTable Console Kernel.

Section File.
Context `{LinkerSyms} (pid : Z) (me fuel : nat).
(** The four bytes of padding of the struct stat on filestat's stack. *)
Context (stat_pad : list Z).

Definition fileinit : K unit := on_kw (modify (put ft_lockL false)).

Definition filealloc : K (option nat) :=
  on_kw
    (acquire ft_lockL ;;
     let* fs := gets files in
     match List.find (fun f => f_ref (fs f) =? 0) (seq 0 nfile) with
     | Some f => modify (on_file f (with_f_ref 1)) ;; release ft_lockL ;; ret (Some f)
     | None => release ft_lockL ;; ret None
     end).

Definition filedup (f : nat) : K nat :=
  on_kw
    (acquire ft_lockL ;;
     let* x := gets (fun s => files s f) in
     if f_ref x <? 1 then panic "filedup" else
     modify (on_file f (with_f_ref (i32 (f_ref x + 1)))) ;;
     release ft_lockL ;;
     ret f).

(** pipeclose of pipe.c with the release of the pipe's page. *)
Definition kpipeclose (pi : Z) (writable : bool) : K unit :=
  let* dead := on_kw (zoom (pipeL pi) (pipeclose pi writable)) in
  when dead (on_pm (kfree pi)).

(** The first half of fileclose: the copy of the file if it is to be closed. *)
Definition fileclose_ref (f : nat) : M kw (option file) :=
  acquire ft_lockL ;;
  let* x := gets (fun s => files s f) in
  if f_ref x <? 1 then panic "fileclose" else
  modify (on_file f (with_f_ref (f_ref x - 1))) ;;
  if 0 <? f_ref x - 1 then release ft_lockL ;; ret None else
  let* ff := gets (fun s => files s f) in
  modify (on_file f (with_f_ref 0)) ;;
  modify (on_file f (with_f_type FD_NONE)) ;;
  release ft_lockL ;;
  ret (Some ff).
(** iput of a file's inode pointer. *)
Definition iput_ptr (ip : option nat) : K unit :=
  match ip with Some ip => iput pid fuel ip | None => panic "kerneltrap" end.
Definition fileclose (f : nat) : K unit :=
  let* ff := on_kw (fileclose_ref f) in
  match ff with
  | None => ret tt
  | Some ff =>
      match f_type ff with
      | FD_PIPE => kpipeclose (f_pipe ff) (f_writable ff)
      | FD_INODE | FD_DEVICE =>
          on_log (begin_op fuel) ;;
          iput_ptr (f_ip ff) ;;
          on_log (end_op pid)
      | FD_NONE => ret tt
      end
  end.

(** struct stat as copyout sees it. *)
Definition stat_bytes (st : Z * Z * Z * Z * Z) : list Z :=
  let '(dev, ino, type, nlink, size) := st in
  le_enc 4 dev ++ le_enc 4 ino ++ le_enc 2 type ++ le_enc 2 nlink ++ stat_pad ++ le_enc 8 size.

(** A use of an inode pointer that may be null: loads fault. *)
Definition with_ip {A} (ip : option nat) (k : nat -> K A) : K A :=
  match ip with Some ip => k ip | None => panic "kerneltrap" end.

Definition filestat (f : nat) (addr : Z) : K Z :=
  let* x := kfile f in
  match f_type x with
  | FD_INODE | FD_DEVICE =>
      ilock pid fuel (f_ip x) ;;
      with_ip (f_ip x) (fun ip =>
        let* st := stati ip in
        iunlock pid (f_ip x) ;;
        let* r := on_kw (u_copyout me addr (stat_bytes st)) in
        if r <? 0 then ret (-1) else ret 0)
  | _ => ret (-1)
  end.

(** [devsw[f->major].read] and [.write] *)
Definition dev_of (x : file) : K (option device) :=
  if (f_major x <? 0) || (NDEV <=? f_major x) then ret None
  else gets (fun s => devsw (fs_user s) (f_major x)).
Definition kconsoleread (addr n : Z) : K Z := on_kw (zoom consL (consoleread me fuel addr n)).
Definition kconsolewrite (addr n : Z) : K Z := on_kw (zoom consL (consolewrite me fuel addr n)).

Definition fileread (f : nat) (addr n : Z) : K Z :=
  let* x := kfile f in
  if negb (f_readable x) then ret (-1) else
  match f_type x with
  | FD_PIPE => on_kw (zoom (pipeL (f_pipe x)) (piperead (f_pipe x) me fuel addr n))
  | FD_DEVICE =>
      let* d := dev_of x in
      match d with
      | None => ret (-1)
      | Some DevConsole => kconsoleread addr n
      end
  | FD_INODE =>
      ilock pid fuel (f_ip x) ;;
      with_ip (f_ip x) (fun ip =>
        let* x := kfile f in
        let* r := readi pid me ip (UserDst addr) (f_off x) (u32 n) in
        when (0 <? r.1) (set_kfile f (fun x => with_f_off (u32 (f_off x + r.1)) x)) ;;
        iunlock pid (f_ip x) ;;
        ret r.1)
  | FD_NONE => panic "fileread"
  end.

(** The largest write of one transaction. *)
Definition write_max : Z := ((MAXOPBLOCKS - 1 - 1 - 2) / 2) * BSIZE.

Definition filewrite_step (f : nat) (addr n i : Z) : K (Z + Z) :=
  if n <=? i then ret (inr i) else
  let n1 := if write_max <? n - i then write_max else n - i in
  on_log (begin_op fuel) ;;
  let* x := kfile f in
  ilock pid fuel (f_ip x) ;;
  with_ip (f_ip x) (fun ip =>
    let* x := kfile f in
    let* r := writei pid me ip (UserSrc (u64 (addr + i))) (f_off x) n1 in
    when (0 <? r) (set_kfile f (fun x => with_f_off (u32 (f_off x + r)) x)) ;;
    iunlock pid (f_ip x) ;;
    on_log (end_op pid) ;;
    if negb (r =? n1) then ret (inr i) else ret (inl (i + r))).

Definition filewrite (f : nat) (addr n : Z) : K Z :=
  let* x := kfile f in
  if negb (f_writable x) then ret (-1) else
  match f_type x with
  | FD_PIPE => on_kw (zoom (pipeL (f_pipe x)) (pipewrite (f_pipe x) me fuel addr n))
  | FD_DEVICE =>
      let* d := dev_of x in
      match d with
      | None => ret (-1)
      | Some DevConsole => kconsolewrite addr n
      end
  | FD_INODE =>
      let* i := loop (S (Z.to_nat n)) (filewrite_step f addr n) 0 in
      ret (if i =? n then n else -1)
  | FD_NONE => panic "filewrite"
  end.

(** ** kernel/pipe.c: pipealloc *)

Definition as_pipe (pi : Z) (readable : bool) (x : file) : file :=
  mkFile FD_PIPE (f_ref x) readable (negb readable) pi (f_ip x) (f_off x) (f_major x).

Definition pipealloc : K (option (nat * nat)) :=
  let* f0 := filealloc in
  match f0 with
  | None => ret None
  | Some f0 =>
      let* f1 := filealloc in
      match f1 with
      | None => fileclose f0 ;; ret None
      | Some f1 =>
          let* pi := on_pm kalloc in
          if pi =? 0 then fileclose f0 ;; fileclose f1 ;; ret None else
          on_kw (modify (fun s => set_k_pipes (upd (k_pipes s) pi (pipe_init (k_pipes s pi))) s)) ;;
          set_kfile f0 (as_pipe pi true) ;;
          set_kfile f1 (as_pipe pi false) ;;
          ret (Some (f0, f1))
      end
  end.
End File.
