(* ===== verification/SysFile.v ===== *)
(** * kernel/syscall.c and kernel/sysfile.c: file system calls

    Fetching system call arguments from the trapframe and from user memory,
    and the handlers of sysfile.c and of sysfile_mmap.cpp.  A handler returns
    the C value, before syscall() stores it in the 64-bit register a0. *)

From Stdlib Require Import ZArith Lia.
From stdpp Require Import gmap.
From S2P Require Import Prelude Mem StringC Params Env Kalloc Vm Sleeplock Bio Log Fs Pipe ProcTable Console Kernel File.

(** The bytes of a C string in a buffer. *)
Fixpoint cstring (b : list Z) : list Z :=
  match b with c :: b => if c =? 0 then [] else c :: cstring b | [] => [] end.

Section Sys.
Context `{LinkerSyms} (pid : Z) (me fuel : nat) (stat_pad : list Z).
Notation fileclose := (fileclose pid fuel).
Notation begin_op' := (on_log (begin_op fuel)).
Notation end_op' := (on_log (end_op pid)).
Notation ilock := (ilock pid fuel).
Notation iunlock := (iunlock pid).
Notation iput := (iput pid fuel).
Notation iunlockput := (iunlockput pid fuel).

(** ** Arguments *)

(** The value stored at [ip], or the failure. *)
Definition fetchaddr (addr : Z) : K (option Z) :=
  let* p := kproc me in
  if (p_size p <=? addr) || (p_size p <? u64 (addr + 8)) then ret None else
  let* r := on_kw (u_copyin me addr 8) in
  if negb (r.1 =? 0) then ret None else ret (Some (le_dec r.2)).

(** The string read, or the failure. *)
Definition fetchstr (addr max : Z) : K (option (list Z)) :=
  let* p := kproc me in
  let* r := on_pm (copyinstr (p_pgtbl p) addr max) in
  if r.1 <? 0 then ret None else ret (Some (cstring r.2)).

Definition argraw (n : Z) : K Z :=
  if (0 <=? n) && (n <=? 5) then tf_get me (tf_a n) else panic "argraw".
Definition argint (n : Z) : K Z := let* x := argraw n in ret (i32 x).
Definition argaddr (n : Z) : K Z := argraw n.
Definition argstr (n max : Z) : K (option (list Z)) :=
  let* addr := argaddr n in fetchstr addr max.

(** ** File descriptors *)

Definition ofile (fd : Z) : K (option nat) := let* p := kproc me in ret (p_ofile p (Z.to_nat fd)).
Definition set_ofile (fd : nat) (f : option nat) : K unit :=
  set_kproc me (fun p => with_ofile (upd (p_ofile p) fd f) p).

Definition argfd (n : Z) : K (option (Z * nat)) :=
  let* fd := argint n in
  if (fd <? 0) || (NOFILE <=? fd) then ret None else
  let* f := ofile fd in
  ret (match f with None => None | Some f => Some (fd, f) end).

Definition fdalloc (f : nat) : K (option nat) :=
  let* p := kproc me in
  match List.find (fun fd => bool_decide (p_ofile p fd = None)) (seq 0 nofile) with
  | Some fd => set_ofile fd (Some f) ;; ret (Some fd)
  | None => ret None
  end.

Definition sys_dup : K Z :=
  let* a := argfd 0 in
  match a with
  | None => ret (-1)
  | Some (_, f) =>
      let* fd := fdalloc f in
      match fd with
      | None => ret (-1)
      | Some fd => filedup f ;; ret (Z.of_nat fd)
      end
  end.

Definition sys_read : K Z :=
  let* p := argaddr 1 in
  let* n := argint 2 in
  let* a := argfd 0 in
  match a with None => ret (-1) | Some (_, f) => fileread pid me fuel f p n end.

Definition sys_write : K Z :=
  let* p := argaddr 1 in
  let* n := argint 2 in
  let* a := argfd 0 in
  match a with None => ret (-1) | Some (_, f) => filewrite pid me fuel f p n end.

Definition sys_close : K Z :=
  let* a := argfd 0 in
  match a with
  | None => ret (-1)
  | Some (fd, f) => set_ofile (Z.to_nat fd) None ;; fileclose f ;; ret 0
  end.

Definition sys_fstat : K Z :=
  let* st := argaddr 1 in
  let* a := argfd 0 in
  match a with None => ret (-1) | Some (_, f) => filestat pid me fuel stat_pad f st end.

(** ** Links *)

Definition cwd : K nat :=
  let* p := kproc me in match p_cwd p with Some i => ret i | None => panic "kerneltrap" end.
Definition knamei (path : list Z) : K (option nat) := let* c := cwd in namei pid me fuel c path.
Definition knameiparent (path : list Z) : K (option (nat * list Z)) :=
  let* c := cwd in nameiparent pid me fuel c path (replicate (Z.to_nat DIRSIZ) 0).

(** The [bad:] label of sys_link. *)
Definition link_undo (ip : nat) : K Z :=
  ilock (Some ip) ;;
  set_inode ip (fun i => with_nlink (i16 (i_nlink i - 1)) i) ;;
  iupdate pid ip ;;
  iunlockput ip ;;
  end_op' ;;
  ret (-1).

Definition sys_link : K Z :=
  let* old := argstr 0 MAXPATH in
  match old with
  | None => ret (-1)
  | Some old =>
  let* new := argstr 1 MAXPATH in
  match new with
  | None => ret (-1)
  | Some new =>
      begin_op' ;;
      let* ip := knamei old in
      match ip with
      | None => end_op' ;; ret (-1)
      | Some ip =>
          ilock (Some ip) ;;
          let* i := get_inode ip in
          if i_type i =? T_DIR then iunlockput ip ;; end_op' ;; ret (-1) else
          set_inode ip (fun i => with_nlink (i16 (i_nlink i + 1)) i) ;;
          iupdate pid ip ;;
          iunlock (Some ip) ;;
          let* dp := knameiparent new in
          match dp with
          | None => link_undo ip
          | Some (dp, name) =>
              ilock (Some dp) ;;
              let* d := get_inode dp in
              let* i := get_inode ip in
              let* bad := (if negb (i_dev d =? i_dev i) then ret true
                           else let* r := dirlink pid me fuel dp name (i_inum i) in ret (r <? 0)) in
              if (bad : bool) then iunlockput dp ;; link_undo ip else
              iunlockput dp ;;
              iput ip ;;
              end_op' ;;
              ret 0
          end
      end
  end end.

Definition isdirempty_step (dp : nat) (off : Z) : K (Z + bool) :=
  let* d := get_inode dp in
  if i_size d <=? off then ret (inr true) else
  let* r := readi pid me dp KernDst off sizeof_dirent in
  if negb (r.1 =? sizeof_dirent) then panic "isdirempty: readi" else
  if negb (de_inum r.2 =? 0) then ret (inr false) else ret (inl (off + sizeof_dirent)).
Definition isdirempty (dp : nat) : K bool :=
  let* d := get_inode dp in
  loop (S (S (Z.to_nat (i_size d / sizeof_dirent)))) (isdirempty_step dp) (2 * sizeof_dirent).

Definition dot : list Z := [46].
Definition dotdot : list Z := [46; 46].

Definition sys_unlink : K Z :=
  let* path := argstr 0 MAXPATH in
  match path with
  | None => ret (-1)
  | Some path =>
      begin_op' ;;
      let* dp := knameiparent path in
      match dp with
      | None => end_op' ;; ret (-1)
      | Some (dp, name) =>
          ilock (Some dp) ;;
          let bad := iunlockput dp ;; end_op' ;; ret (-1) in
          if (namecmp name dot =? 0) || (namecmp name dotdot =? 0) then bad else
          let* found := dirlookup pid me dp name in
          match found with
          | None => bad
          | Some (ip, off) =>
              ilock (Some ip) ;;
              let* i := get_inode ip in
              if i_nlink i <? 1 then panic "unlink: nlink < 1" else
              let* busy := (if i_type i =? T_DIR then let* e := isdirempty ip in ret (negb e) else ret false) in
              if (busy : bool) then iunlockput ip ;; bad else
              let* r := writei pid me dp (KernSrc (replicate (Z.to_nat sizeof_dirent) 0)) off sizeof_dirent in
              if negb (r =? sizeof_dirent) then panic "unlink: writei" else
              when (i_type i =? T_DIR)
                (set_inode dp (fun d => with_nlink (i16 (i_nlink d - 1)) d) ;; iupdate pid dp) ;;
              iunlockput dp ;;
              set_inode ip (fun i => with_nlink (i16 (i_nlink i - 1)) i) ;;
              iupdate pid ip ;;
              iunlockput ip ;;
              end_op' ;;
              ret 0
          end
      end
  end.

(** ** Creating and opening *)

(** The [fail:] label of create. *)
Definition create_fail (ip dp : nat) : K (option nat) :=
  set_inode ip (with_nlink 0) ;;
  iupdate pid ip ;;
  iunlockput ip ;;
  iunlockput dp ;;
  ret None.

Definition create (path : list Z) (type major minor : Z) : K (option nat) :=
  let* parent := knameiparent path in
  match parent with
  | None => ret None
  | Some (dp, name) =>
      ilock (Some dp) ;;
      let* found := dirlookup pid me dp name in
      match found with
      | Some (ip, _) =>
          iunlockput dp ;;
          ilock (Some ip) ;;
          let* i := get_inode ip in
          if (type =? T_FILE) && ((i_type i =? T_FILE) || (i_type i =? T_DEVICE)) then ret (Some ip)
          else iunlockput ip ;; ret None
      | None =>
          let* d := get_inode dp in
          let* ip := ialloc pid (i_dev d) type in
          match ip with
          | None => iunlockput dp ;; ret None
          | Some ip =>
              ilock (Some ip) ;;
              set_inode ip (with_dev_ids major minor 1) ;;
              iupdate pid ip ;;
              let* i := get_inode ip in
              let* bad := (if type =? T_DIR then
                             let* r := dirlink pid me fuel ip dot (i_inum i) in
                             if r <? 0 then ret true else
                             let* r := dirlink pid me fuel ip dotdot (i_inum d) in
                             ret (r <? 0)
                           else ret false) in
              if (bad : bool) then create_fail ip dp else
              let* r := dirlink pid me fuel dp name (i_inum i) in
              if r <? 0 then create_fail ip dp else
              when (type =? T_DIR)
                (set_inode dp (fun d => with_nlink (i16 (i_nlink d + 1)) d) ;; iupdate pid dp) ;;
              iunlockput dp ;;
              ret (Some ip)
          end
      end
  end.


(** The inode of sys_open, locked. *)
Definition open_inode (path : list Z) (omode : Z) : K (option nat) :=
  if has omode O_CREATE then create path T_FILE 0 0
  else
    let* ip := knamei path in
    match ip with
    | None => ret None
    | Some ip =>
        ilock (Some ip) ;;
        let* i := get_inode ip in
        if (i_type i =? T_DIR) && negb (omode =? O_RDONLY) then iunlockput ip ;; ret None
        else ret (Some ip)
    end.

(** The file structure and the descriptor, or nothing allocated. *)
Definition open_file : K (option (nat * nat)) :=
  let* f := filealloc in
  match f with
  | None => ret None
  | Some f =>
      let* fd := fdalloc f in
      match fd with
      | None => fileclose f ;; ret None
      | Some fd => ret (Some (f, fd))
      end
  end.

Definition sys_open : K Z :=
  let* omode := argint 1 in
  let* path := argstr 0 MAXPATH in
  match path with
  | None => ret (-1)
  | Some path =>
      begin_op' ;;
      let* ip := open_inode path omode in
      match ip with
      | None => end_op' ;; ret (-1)
      | Some ip =>
          let* i := get_inode ip in
          if (i_type i =? T_DEVICE) && ((i_major i <? 0) || (NDEV <=? i_major i)) then
            iunlockput ip ;; end_op' ;; ret (-1)
          else
          let* r := open_file in
          match r with
          | None => iunlockput ip ;; end_op' ;; ret (-1)
          | Some (f, fd) =>
              (if i_type i =? T_DEVICE
               then set_kfile f (fun x => with_f_major (i_major i) (with_f_type FD_DEVICE x))
               else set_kfile f (fun x => with_f_off 0 (with_f_type FD_INODE x))) ;;
              set_kfile f (with_f_ip (Some ip)) ;;
              set_kfile f (with_f_readable (negb (has omode O_WRONLY))) ;;
              set_kfile f (with_f_writable (has omode O_WRONLY || has omode O_RDWR)) ;;
              when (has omode O_TRUNC && (i_type i =? T_FILE)) (itrunc pid ip) ;;
              iunlock (Some ip) ;;
              end_op' ;;
              ret (Z.of_nat fd)
          end
      end
  end.

(** What sys_mkdir and sys_mknod do once their arguments are read. *)
Definition make_node (path : option (list Z)) (type major minor : Z) : K Z :=
  let* ip := (match path with None => ret None | Some path => create path type major minor end) in
  match ip with
  | None => end_op' ;; ret (-1)
  | Some ip => iunlockput ip ;; end_op' ;; ret 0
  end.
Definition sys_mkdir : K Z :=
  begin_op' ;;
  let* path := argstr 0 MAXPATH in
  make_node path T_DIR 0 0.
Definition sys_mknod : K Z :=
  begin_op' ;;
  let* major := argint 1 in
  let* minor := argint 2 in
  let* path := argstr 0 MAXPATH in
  make_node path T_DEVICE (i16 major) (i16 minor).

Definition sys_chdir : K Z :=
  begin_op' ;;
  let* path := argstr 0 MAXPATH in
  let* ip := (match path with None => ret None | Some path => knamei path end) in
  match ip with
  | None => end_op' ;; ret (-1)
  | Some ip =>
      ilock (Some ip) ;;
      let* i := get_inode ip in
      if negb (i_type i =? T_DIR) then iunlockput ip ;; end_op' ;; ret (-1) else
      iunlock (Some ip) ;;
      let* p := kproc me in
      iput_ptr pid fuel (p_cwd p) ;;
      end_op' ;;
      set_kproc me (with_cwd (Some ip)) ;;
      ret 0
  end.

Definition sys_pipe : K Z :=
  let* fdarray := argaddr 0 in
  let* a := pipealloc pid fuel in
  match a with
  | None => ret (-1)
  | Some (rf, wf) =>
      let* fd0 := fdalloc rf in
      match fd0 with
      | None => fileclose rf ;; fileclose wf ;; ret (-1)
      | Some fd0 =>
          let* fd1 := fdalloc wf in
          match fd1 with
          | None => set_ofile fd0 None ;; fileclose rf ;; fileclose wf ;; ret (-1)
          | Some fd1 =>
              let* r := on_kw (u_copyout me fdarray (le_enc 4 (Z.of_nat fd0))) in
              let* bad := (if r <? 0 then ret true
                           else let* r := on_kw (u_copyout me (u64 (fdarray + 4)) (le_enc 4 (Z.of_nat fd1))) in
                                ret (r <? 0)) in
              if (bad : bool) then
                set_ofile fd0 None ;;
                set_ofile fd1 None ;;
                fileclose rf ;;
                fileclose wf ;;
                ret (-1)
              else ret 0
          end
      end
  end.

(** ** Memory-mapped files *)

Definition page_round_up (sz : Z) : Z := Z.land (u64 (sz + PGSIZE - 1)) (Z.lnot (PGSIZE - 1)).

(** One scan of the while loop: the first used area that overlaps. *)
Definition overlaps (addr len : Z) (v : vma) : bool :=
  v_used v && (addr <? u64 (v_addr v + v_length v)) && (v_addr v <? u64 (addr + len)).
Definition place_step (vmas : nat -> vma) (len addr : Z) : Z + Z :=
  match List.find (fun k => overlaps addr len (vmas k)) (seq 0 nvma) with
  | Some k => inl (u64 (v_addr (vmas k) - len))
  | None => inr addr
  end.
(** The search terminates when the areas leave room; [fuel] restarts. *)
Fixpoint place (n : nat) (vmas : nat -> vma) (len addr : Z) : option Z :=
  match n with
  | O => None
  | S n => match place_step vmas len addr with inl addr => place n vmas len addr | inr addr => Some addr end
  end.

Definition set_vma (p : nat) (k : nat) (v : vma) : K unit :=
  set_kproc p (fun q => with_vmas (upd (p_vmas q) k v) q).

Definition sys_mmap : K Z :=
  let* length := argint 0 in
  let* prot := argint 1 in
  let* flags := argint 2 in
  let* a := argfd 3 in
  match a with
  | None => ret (-1)
  | Some (fd, f) =>
      let* offset := argint 4 in
      if (length <=? 0) || (fd <? 0) then ret (-1) else
      let* p := kproc me in
      match List.find (fun k => negb (v_used (p_vmas p k))) (seq 0 nvma) with
      | None => ret (-1)
      | Some k =>
          let aligned_len := page_round_up length in
          match place fuel (p_vmas p) aligned_len (u64 (TRAPFRAME - aligned_len)) with
          | None => fun _ => NoFuel
          | Some addr =>
              let* f := filedup f in
              set_vma me k (mkVma true addr length prot flags offset (Some f)) ;;
              ret addr
          end
      end
  end.

(** [vma->f->ip] *)
Definition vma_ip (v : vma) : K (option nat) :=
  match v_f v with Some f => let* x := kfile f in ret (f_ip x) | None => panic "kerneltrap" end.

(** Writing a page of a shared area back and unmapping it: one iteration of
    the loops of sys_munmap and of kexit. *)
Definition unmap_page (v : vma) (va : Z) : K unit :=
  let* p := kproc me in
  let* pa := on_pm (walkaddr (p_pgtbl p) va) in
  if pa =? 0 then ret tt else
  when (has (v_flags v) MAP_SHARED)
    (let off := u64 (v_offset v + (va - v_addr v)) in
     begin_op' ;;
     let* ip := vma_ip v in
     ilock ip ;;
     with_ip ip (fun i => writei pid me i (UserSrc va) (u32 off) PGSIZE) ;;
     iunlock ip ;;
     end_op') ;;
  on_pm (uvmunmap (p_pgtbl p) va 1 true).
Definition unmap_step (v : vma) (va_end va : Z) : K (Z + unit) :=
  if va_end <=? va then ret (inr tt) else unmap_page v va ;; ret (inl (u64 (va + PGSIZE))).
Definition unmap_range (v : vma) (va len : Z) : K unit :=
  loop (S (S (Z.to_nat (len / PGSIZE)))) (unmap_step v (u64 (va + len))) va.

Definition contains (addr length : Z) (v : vma) : bool :=
  v_used v && (v_addr v <=? addr) && (u64 (addr + length) <=? u64 (v_addr v + v_length v)).

Definition sys_munmap : K Z :=
  let* addr := argaddr 0 in
  let* length := argint 1 in
  let* p := kproc me in
  match List.find (fun k => contains addr length (p_vmas p k)) (seq 0 nvma) with
  | None => ret (-1)
  | Some k =>
      let v := p_vmas p k in
      if negb (addr =? v_addr v) && negb (u64 (addr + length) =? u64 (v_addr v + v_length v)) then ret (-1) else
      unmap_range v addr length ;;
      let v := if addr =? v_addr v
               then mkVma (v_used v) (u64 (v_addr v + length)) (v_length v) (v_prot v) (v_flags v) (i32 (v_offset v + length)) (v_f v)
               else v in
      let v := mkVma (v_used v) (v_addr v) (u64 (v_length v - length)) (v_prot v) (v_flags v) (v_offset v) (v_f v) in
      set_vma me k v ;;
      if v_length v =? 0 then
        (match v_f v with Some f => fileclose f | None => panic "kerneltrap" end) ;;
        set_vma me k (mkVma false (v_addr v) (v_length v) (v_prot v) (v_flags v) (v_offset v) (v_f v)) ;;
        ret 0
      else ret 0
  end.

Definition in_vma (va : Z) (v : vma) : bool :=
  v_used v && (v_addr v <=? va) && (va <? u64 (v_addr v + v_length v)).
Definition mmap_perm (prot : Z) : Z :=
  Z.lor (Z.lor PTE_U (if has prot PROT_READ then PTE_R else 0)) (if has prot PROT_WRITE then PTE_W else 0).

Definition mmapfault (va : Z) : K Z :=
  let va := PGROUNDDOWN va in
  let* p := kproc me in
  match List.find (fun k => in_vma va (p_vmas p k)) (seq 0 nvma) with
  | None => ret (-1)
  | Some k =>
      let v := p_vmas p k in
      let* pa := on_pm (walkaddr (p_pgtbl p) va) in
      if negb (pa =? 0) then ret (-1) else
      let* mem := on_pm kalloc in
      if mem =? 0 then ret (-1) else
      on_pm (mem_op (fun m => memset m mem 0 PGSIZE)) ;;
      let foffset := u64 (v_offset v + (va - v_addr v)) in
      let* ip := vma_ip v in
      ilock ip ;;
      with_ip ip (fun i =>
        let* r := readi pid me i KernDst (u32 foffset) PGSIZE in
        on_pm (mem_op (fun m => mwrite m mem r.2))) ;;
      iunlock ip ;;
      let* r := on_pm (mappages (p_pgtbl p) va PGSIZE mem (mmap_perm (v_prot v))) in
      if negb (r =? 0) then on_pm (kfree mem) ;; ret (-1) else ret 0
  end.
End Sys.
