(* ===== verification/ProcLife.v ===== *)
(** * kernel/proc.c and kernel/exec.c: creating, replacing and ending processes

    allocproc and freeproc with their pages, fork, exit, wait and exec, on the
    whole kernel state.  The child of a fork starts in forkret when the
    scheduler first picks it; a process that exited is left to its parent. *)

From Stdlib Require Import ZArith Lia.
From stdpp Require Import gmap.
From S2P Require Import Prelude Mem StringC Params Env Kalloc Vm Sleeplock Bio Log Fs Pipe ProcTable Console Kernel File SysFile.

Section Proc.
Context `{LinkerSyms} (pid : Z) (me fuel : nat).

(** ** Slots and their pages *)

Definition freeproc (i : nat) : K unit :=
  let* p := kproc i in
  when (negb (p_trapframe p =? 0)) (on_pm (kfree (p_trapframe p))) ;;
  set_kproc i (with_trapframe 0) ;;
  when (negb (p_pgtbl p =? 0)) (on_pm (proc_freepagetable (p_pgtbl p) (p_size p))) ;;
  set_kproc i clear_proc.

Definition allocproc : K (option nat) :=
  let* found := on_pt (find_unused_proc nproc 0) in
  match found with
  | None => ret None
  | Some i =>
      on_pt (init_proc i) ;;
      let* tf := on_pm kalloc in
      set_kproc i (with_trapframe tf) ;;
      if tf =? 0 then freeproc i ;; on_pt (unlock (p_lockL i)) ;; ret None else
      let* pt := on_pm (proc_pagetable tf) in
      set_kproc i (with_pgtbl pt) ;;
      if pt =? 0 then freeproc i ;; on_pt (unlock (p_lockL i)) ;; ret None else
      on_pt (reset_proc i) ;;
      ret (Some i)
  end.

Definition userinit : K unit :=
  let* p := allocproc in
  on_pt (modify (set_initproc p)) ;;
  match p with
  | None => panic "kerneltrap"
  | Some i =>
      let* ip := namei pid me fuel 0 [slash] in
      set_kproc i (with_cwd ip) ;;
      on_pt (mark_runnable i) ;;
      on_pt (unlock (p_lockL i))
  end.

(** ** fork *)

Definition dup_ofile (np : nat) (fd : Z) : K unit :=
  let* p := kproc me in
  match p_ofile p (Z.to_nat fd) with
  | None => ret tt
  | Some f =>
      let* f := filedup f in
      set_kproc np (fun q => with_ofile (upd (p_ofile q) (Z.to_nat fd) (Some f)) q)
  end.
Definition dup_vma (np : nat) (k : Z) : K unit :=
  let* p := kproc me in
  let v := p_vmas p (Z.to_nat k) in
  when (v_used v)
    (set_vma np (Z.to_nat k) v ;;
     match v_f v with Some f => filedup f ;; ret tt | None => panic "kerneltrap" end).

(** safestrcpy of one 16-byte name buffer to another. *)
Definition copy_name (t : list Z) : list Z := mread (safestrcpy (mem_of t []) 2048 0 16) 2048 16.

Definition kfork : K Z :=
  let* a := allocproc in
  match a with
  | None => ret (-1)
  | Some np =>
      let* p := kproc me in
      let* q := kproc np in
      let* r := on_pm (uvmcopy (p_pgtbl p) (p_pgtbl q) (p_size p)) in
      if r <? 0 then freeproc np ;; on_pt (unlock (p_lockL np)) ;; ret (-1) else
      set_kproc np (with_size (p_size p)) ;;
      on_pm (mem_op (fun m => memmove m (p_trapframe q) (p_trapframe p) sizeof_trapframe)) ;;
      tf_set np (tf_a 0) 0 ;;
      for_range nofile 0 (dup_ofile np) ;;
      for_range nvma 0 (dup_vma np) ;;
      let* c := (match p_cwd p with Some i => idup i | None => panic "kerneltrap" end) in
      set_kproc np (with_cwd (Some c)) ;;
      set_kproc np (fun q => with_name (copy_name (p_name p)) q) ;;
      let* q := kproc np in
      on_pt (unlock (p_lockL np)) ;;
      on_pt (lock wait_lockL) ;;
      set_kproc np (with_parent (Some me)) ;;
      on_pt (unlock wait_lockL) ;;
      on_pt (lock (p_lockL np)) ;;
      on_pt (mark_runnable np) ;;
      on_pt (unlock (p_lockL np)) ;;
      ret (p_pid q)
  end.

(** ** exit *)

Definition close_fd (fd : Z) : K unit :=
  let* p := kproc me in
  match p_ofile p (Z.to_nat fd) with
  | None => ret tt
  | Some f => fileclose pid fuel f ;; set_ofile me (Z.to_nat fd) None
  end.
Definition close_vma (k : Z) : K unit :=
  let* p := kproc me in
  let v := p_vmas p (Z.to_nat k) in
  when (v_used v)
    (unmap_range pid me fuel v (v_addr v) (v_length v) ;;
     (match v_f v with Some f => fileclose pid fuel f | None => panic "kerneltrap" end) ;;
     set_vma me (Z.to_nat k) (mkVma false (v_addr v) (v_length v) (v_prot v) (v_flags v) (v_offset v) (v_f v))).

(** Up to the final sched(), which the process does not return from. *)
Definition kexit (status : Z) : K unit :=
  let* s := get_kw in
  if bool_decide (initproc (k_pt s) = Some me) then panic "init exiting" else
  for_range nofile 0 close_fd ;;
  for_range nvma 0 close_vma ;;
  on_log (begin_op fuel) ;;
  let* p := kproc me in
  iput_ptr pid fuel (p_cwd p) ;;
  on_log (end_op pid) ;;
  set_kproc me (with_cwd None) ;;
  on_pt (exit_finish me status) ;;
  on_pt (sched_checks me) ;;
  on_pt (swtch_out me).

(** ** wait *)

Inductive waitres := Reaped (pid : Z) | Failed | NoZombie (havekids : bool).

Fixpoint kwait_scan (addr : Z) (n i : nat) (havekids : bool) : K waitres :=
  match n with
  | O => ret (NoZombie havekids)
  | S n =>
      let* p := kproc i in
      if bool_decide (p_parent p = Some me) then
        on_pt (lock (p_lockL i)) ;;
        let* p := kproc i in
        if bool_decide (p_state p = ZOMBIE) then
          let* r := (if addr =? 0 then ret 0 else on_kw (u_copyout me addr (le_enc 4 (p_xstate p)))) in
          if r <? 0 then
            on_pt (unlock (p_lockL i)) ;; on_pt (unlock wait_lockL) ;; ret Failed
          else
            freeproc i ;;
            on_pt (unlock (p_lockL i)) ;;
            on_pt (unlock wait_lockL) ;;
            ret (Reaped (p_pid p))
        else on_pt (unlock (p_lockL i)) ;; kwait_scan addr n (S i) true
      else kwait_scan addr n (S i) havekids
  end.
Definition kwait_step (addr : Z) (u : unit) : K (unit + Z) :=
  let* r := kwait_scan addr nproc 0 false in
  match r with
  | Reaped pid => ret (inr pid)
  | Failed => ret (inr (-1))
  | NoZombie havekids =>
      let* dead := on_pt (killed me) in
      if negb havekids || dead then on_pt (unlock wait_lockL) ;; ret (inr (-1))
      else on_pt (psleep me (ChProc me) wait_lockL) ;; ret (inl tt)
  end.
Definition kwait (addr : Z) : K Z :=
  on_pt (lock wait_lockL) ;;
  loop fuel (kwait_step addr) tt.

(** ** exec *)

Definition ELF_MAGIC : Z := 0x464C457F.
Definition ELF_PROG_LOAD : Z := 1.
(** struct elfhdr and struct proghdr as bytes of the file. *)
Definition sizeof_elfhdr : Z := 64.
Definition elf_magic (h : list Z) : Z := getf 4 0 h.
Definition elf_entry (h : list Z) : Z := getf 8 24 h.
Definition elf_phoff (h : list Z) : Z := getf 8 32 h.
Definition elf_phnum (h : list Z) : Z := getf 2 56 h.
Definition sizeof_proghdr : Z := 56.
Definition ph_type (h : list Z) : Z := getf 4 0 h.
Definition ph_flags (h : list Z) : Z := getf 4 4 h.
Definition ph_off (h : list Z) : Z := getf 8 8 h.
Definition ph_vaddr (h : list Z) : Z := getf 8 16 h.
Definition ph_filesz (h : list Z) : Z := getf 8 32 h.
Definition ph_memsz (h : list Z) : Z := getf 8 40 h.

Definition flags2perm (flags : Z) : Z :=
  let perm := if has flags 1 then PTE_X else 0 in
  if has flags 2 then Z.lor perm PTE_W else perm.

Definition loadseg_step (pagetable va : Z) (ip : nat) (offset sz i : Z) : K (Z + Z) :=
  if sz <=? i then ret (inr 0) else
  let* pa := on_pm (walkaddr pagetable (u64 (va + i))) in
  if pa =? 0 then panic "loadseg: address should exist" else
  let n := if sz - i <? PGSIZE then sz - i else PGSIZE in
  let* r := readi pid me ip KernDst (u32 (offset + i)) n in
  on_pm (mem_op (fun m => mwrite m pa r.2)) ;;
  if negb (r.1 =? n) then ret (inr (-1)) else ret (inl (u32 (i + PGSIZE))).
Definition loadseg (pagetable va : Z) (ip : nat) (offset sz : Z) : K Z :=
  loop (S (S (Z.to_nat (sz / PGSIZE)))) (loadseg_step pagetable va ip offset sz) 0.

(** The loop over the program headers; the variables [i], [off] and [sz].
    [inr None]: goto bad, with the size reached. *)
Definition load_step (ip : nat) (pagetable : Z) (elf : list Z) (st : Z * Z * Z) : K (Z * Z * Z + Z * bool) :=
  let '(i, off, sz) := st in
  if elf_phnum elf <=? i then ret (inr (sz, true)) else
  let* r := readi pid me ip KernDst (u32 off) sizeof_proghdr in
  if negb (r.1 =? sizeof_proghdr) then ret (inr (sz, false)) else
  let ph := r.2 in
  let next sz := ret (inl (i + 1, i32 (off + sizeof_proghdr), sz)) in
  if negb (ph_type ph =? ELF_PROG_LOAD) then next sz else
  if ph_memsz ph <? ph_filesz ph then ret (inr (sz, false)) else
  if u64 (ph_vaddr ph + ph_memsz ph) <? ph_vaddr ph then ret (inr (sz, false)) else
  if negb (ph_vaddr ph mod PGSIZE =? 0) then ret (inr (sz, false)) else
  let* sz1 := on_pm (uvmalloc pagetable sz (u64 (ph_vaddr ph + ph_memsz ph)) (flags2perm (ph_flags ph))) in
  if sz1 =? 0 then ret (inr (sz, false)) else
  let* r := loadseg pagetable (ph_vaddr ph) ip (u32 (ph_off ph)) (u32 (ph_filesz ph)) in
  if r <? 0 then ret (inr (sz1, false)) else next sz1.

(** The loop over the argument strings: [sp], the addresses pushed so far.
    [None]: goto bad. *)
Fixpoint push_args (pagetable stackbase : Z) (argv : list (list Z)) (argc : Z) (sp : Z) (ustack : list Z)
    : K (option (Z * list Z)) :=
  match argv with
  | [] => ret (Some (sp, ustack))
  | s :: argv =>
      if MAXARG <=? argc then ret None else
      let len := Z.of_nat (length s) + 1 in
      let sp := u64 (sp - len) in
      let sp := sp - sp mod 16 in
      if sp <? stackbase then ret None else
      let* p := kproc me in
      let* r := on_pm (copyout (mkUproc (p_size p) (p_pgtbl p)) pagetable sp (s ++ [0])) in
      if r <? 0 then ret None else push_args pagetable stackbase argv (argc + 1) sp (ustack ++ [sp])
  end.

(** The name after the last slash. *)
Fixpoint last_elem (path last : list Z) : list Z :=
  match path with
  | [] => last
  | c :: path => if c =? slash then last_elem path path else last_elem path last
  end.

(** The stack with its guard page, the arguments; [inr]: the new stack
    pointer and the size; [inl]: goto bad with the size reached. *)
Definition build_stack (pagetable sz : Z) (argv : list (list Z)) : K (Z + Z * Z * Z) :=
  let sz := PGROUNDUP sz in
  let* sz1 := on_pm (uvmalloc pagetable sz (u64 (sz + (USERSTACK + 1) * PGSIZE)) PTE_W) in
  if sz1 =? 0 then ret (inl sz) else
  let sz := sz1 in
  on_pm (uvmclear pagetable (u64 (sz - (USERSTACK + 1) * PGSIZE))) ;;
  let stackbase := u64 (sz - USERSTACK * PGSIZE) in
  let* r := push_args pagetable stackbase argv 0 sz [] in
  match r with
  | None => ret (inl sz)
  | Some (sp, ustack) =>
      let argc := Z.of_nat (length ustack) in
      let sp := u64 (sp - (argc + 1) * 8) in
      let sp := sp - sp mod 16 in
      if sp <? stackbase then ret (inl sz) else
      let* p := kproc me in
      let* r := on_pm (copyout (mkUproc (p_size p) (p_pgtbl p)) pagetable sp (concat (map (le_enc 8) (ustack ++ [0])))) in
      if r <? 0 then ret (inl sz) else ret (inr (argc, sp, sz))
  end.

(** The [bad:] label after the inode was released. *)
Definition exec_bad (pagetable sz : Z) : K Z := on_pm (proc_freepagetable pagetable sz) ;; ret (-1).

Definition kexec (path : list Z) (argv : list (list Z)) : K Z :=
  on_log (begin_op fuel) ;;
  let* ip := knamei pid me fuel path in
  match ip with
  | None => on_log (end_op pid) ;; ret (-1)
  | Some ip =>
      let put_ip := iunlockput pid fuel ip ;; on_log (end_op pid) in
      ilock pid fuel (Some ip) ;;
      let* r := readi pid me ip KernDst 0 sizeof_elfhdr in
      if negb (r.1 =? sizeof_elfhdr) then put_ip ;; ret (-1) else
      let elf := r.2 in
      if negb (elf_magic elf =? ELF_MAGIC) then put_ip ;; ret (-1) else
      let* p := kproc me in
      let* pagetable := on_pm (proc_pagetable (p_trapframe p)) in
      if pagetable =? 0 then put_ip ;; ret (-1) else
      let* l := loop (S (Z.to_nat (elf_phnum elf))) (load_step ip pagetable elf) (0, i32 (elf_phoff elf), 0) in
      let sz := l.1 in
      if negb l.2 then on_pm (proc_freepagetable pagetable sz) ;; put_ip ;; ret (-1) else
      put_ip ;;
      let* p := kproc me in
      let oldsz := p_size p in
      let* st := build_stack pagetable sz argv in
      match st with
      | inl sz => exec_bad pagetable sz
      | inr (argc, sp, sz) =>
          tf_set me (tf_a 1) sp ;;
          set_kproc me (with_name (copy_name (last_elem path path))) ;;
          let oldpagetable := p_pgtbl p in
          set_kproc me (with_pgtbl pagetable) ;;
          set_kproc me (with_size sz) ;;
          tf_set me tf_epc (elf_entry elf) ;;
          tf_set me tf_sp sp ;;
          on_pm (proc_freepagetable oldpagetable oldsz) ;;
          ret argc
      end
  end.

(** ** kernel/sysfile.c: sys_exec *)

(** The loop that copies the argument strings into fresh pages: the pages
    and, when it succeeds, the strings. *)
Fixpoint fetch_argv (n : nat) (uargv i : Z) (pages : list Z) (strs : list (list Z)) : K (list Z * option (list (list Z))) :=
  match n with
  | O => ret (pages, None)
  | S n =>
      let* uarg := fetchaddr me (u64 (uargv + 8 * i)) in
      match uarg with
      | None => ret (pages, None)
      | Some uarg =>
          if uarg =? 0 then ret (pages, Some strs) else
          let* page := on_pm kalloc in
          if page =? 0 then ret (pages, None) else
          let* s := fetchstr me uarg PGSIZE in
          match s with
          | None => ret (pages ++ [page], None)
          | Some s =>
              on_pm (mem_op (fun m => mwrite m page (s ++ [0]))) ;;
              fetch_argv n uargv (i + 1) (pages ++ [page]) (strs ++ [s])
          end
      end
  end.
Fixpoint free_pages (pages : list Z) : K unit :=
  match pages with [] => ret tt | p :: pages => on_pm (kfree p) ;; free_pages pages end.

Definition sys_exec : K Z :=
  let* uargv := argaddr me 1 in
  let* path := argstr me 0 MAXPATH in
  match path with
  | None => ret (-1)
  | Some path =>
      let* r := fetch_argv (Z.to_nat MAXARG) uargv 0 [] [] in
      match r.2 with
      | None => free_pages r.1 ;; ret (-1)
      | Some argv =>
          let* x := kexec path argv in
          free_pages r.1 ;;
          ret x
      end
  end.
End Proc.
