(* ===== verification/Trap.v ===== *)
(** * kernel/syscall.c, kernel/sysproc.c and kernel/trap.c: entering the kernel

    System calls on processes, the dispatch of system calls, and traps from
    user and kernel mode.  The hart's registers, the PLIC and the disk driver
    are part of the state; stvec is recorded as the handler it points to.  A
    process that exits does not come back: [Gone]. *)

From Stdlib Require Import ZArith Lia.
From stdpp Require Import gmap.
From S2P Require Import Prelude Mem StringC Params Env Kalloc Vm Sleeplock Bio Log Fs Pipe ProcTable Sched Console Printf Virtio Kernel File SysFile ProcLife.

Inductive sysres := Done (v : Z) | Gone.

Definition SBRK_EAGER : Z := 1.
Definition SBRK_LAZY : Z := 2.

Section Sys.
Context `{LinkerSyms} {P : Type} `{SchedulerPolicy P} (policy : P).
Context (pid : Z) (me fuel : nat) (stat_pad : list Z).
Notation argint := (argint me).
Notation argaddr := (argaddr me).

(** ** kernel/sysproc.c *)

Definition sys_exit : K sysres := let* n := argint 0 in kexit pid me fuel n ;; ret Gone.
Definition sys_getpid : K Z := let* p := kproc me in ret (p_pid p).
Definition sys_fork : K Z := kfork me.
Definition sys_wait : K Z := let* p := argaddr 0 in kwait me fuel p.

Definition kgrowproc (n : Z) : K Z :=
  let* p := kproc me in
  let* r := on_pm (growproc (mkUproc (p_size p) (p_pgtbl p)) n) in
  set_kproc me (with_size (p_sz r.2)) ;;
  ret r.1.

Definition sys_sbrk : K Z :=
  let* n := argint 0 in
  let* t := argint 1 in
  let* p := kproc me in
  let addr := p_size p in
  if (t =? SBRK_EAGER) || (n <? 0) then
    let* r := kgrowproc n in
    if r <? 0 then ret (-1) else ret addr
  else
    if u64 (addr + n) <? addr then ret (-1) else
    if TRAPFRAME <? u64 (addr + n) then ret (-1) else
    set_kproc me (fun p => with_size (u64 (p_size p + n)) p) ;;
    ret addr.

Definition pause_step (ticks0 n : Z) (u : unit) : M ptable (unit + Z) :=
  let* now := gets ticks in
  if n <=? u32 (now - ticks0) then unlock tickslockL ;; ret (inr 0) else
  let* dead := killed me in
  if (dead : bool) then unlock tickslockL ;; ret (inr (-1)) else
  psleep me ChTicks tickslockL ;; ret (inl tt).
Definition sys_pause : K Z :=
  let* n := argint 0 in
  let n := if n <? 0 then 0 else n in
  on_pt
    (lock tickslockL ;;
     let* ticks0 := gets ticks in
     loop fuel (pause_step ticks0 n) tt).

Definition sys_kill : K Z := let* pid := argint 0 in on_pt (kkill pid).

Definition sys_setpriority : K Z :=
  let* level := argint 0 in
  if negb (level =? 0) && negb (level =? 1) then ret (-1) else
  set_kproc me (with_priority level) ;;
  ret 0.

(** The four numbers of one process; sys_sched_stats. *)
Definition stats_of (now : Z) (p : proc) : list Z :=
  [p_run_total p; p_wait_total p; p_wait_max p;
   if bool_decide (p_state p = RUNNABLE) then u32 (u32 now - u32 (p_ready_tick p)) else 0].
Fixpoint stats_scan (n i : nat) (pid : Z) : M ptable (option (list Z)) :=
  match n with
  | O => ret None
  | S n =>
      lock (p_lockL i) ;;
      let* p := get_proc i in
      if (p_pid p =? pid) && negb (bool_decide (p_state p = UNUSED)) then
        let* now := gets ticks in
        unlock (p_lockL i) ;;
        ret (Some (stats_of now p))
      else unlock (p_lockL i) ;; stats_scan n (S i) pid
  end.
Definition out_words (addr : Z) (ws : list Z) : K Z :=
  let* r := on_kw (u_copyout me addr (concat (map (le_enc 8) ws))) in
  if r <? 0 then ret (-1) else ret 0.
Definition sys_sched_stats : K Z :=
  let* pid := argint 0 in
  let* addr := argaddr 1 in
  let* out := on_pt (stats_scan nproc 0 pid) in
  match out with None => ret (-1) | Some out => out_words addr out end.
Definition sys_sched_budget_stats : K Z :=
  let* addr := argaddr 0 in
  let '(a, b, c) := budget_stats policy in
  out_words addr [a; b; c].

Definition sys_uptime : K Z :=
  on_pt (lock tickslockL ;; let* x := gets ticks in unlock tickslockL ;; ret x).

(** printf: the text goes to the UART. *)
Definition kprint (text : option (list Z)) : K unit :=
  match text with Some t => on_kw (zoom consL (putall t)) | None => panic "kerneltrap" end.
(** span_observe_dump of a build with the observation disabled. *)
Definition sys_sched_span_dump : K Z :=
  kprint (kprintf kdigits (bytes "[span-observe] DISABLED (EP2_SPAN_OBSERVE_ENABLED=0 build)" ++ [10]) []) ;;
  ret 0.

(** ** kernel/syscall.c: the table and the dispatch *)

Definition done (m : K Z) : K sysres := let* v := m in ret (Done v).

Definition syscalls (num : Z) : option (K sysres) :=
  match num with
  | 1 => Some (done sys_fork)
  | 2 => Some sys_exit
  | 3 => Some (done sys_wait)
  | 4 => Some (done (sys_pipe pid me fuel))
  | 5 => Some (done (sys_read pid me fuel))
  | 6 => Some (done sys_kill)
  | 7 => Some (done (sys_exec pid me fuel))
  | 8 => Some (done (sys_fstat pid me fuel stat_pad))
  | 9 => Some (done (sys_chdir pid me fuel))
  | 10 => Some (done (sys_dup me))
  | 11 => Some (done sys_getpid)
  | 12 => Some (done sys_sbrk)
  | 13 => Some (done sys_pause)
  | 14 => Some (done sys_uptime)
  | 15 => Some (done (sys_open pid me fuel))
  | 16 => Some (done (sys_write pid me fuel))
  | 17 => Some (done (sys_mknod pid me fuel))
  | 18 => Some (done (sys_unlink pid me fuel))
  | 19 => Some (done (sys_link pid me fuel))
  | 20 => Some (done (sys_mkdir pid me fuel))
  | 21 => Some (done (sys_close pid me fuel))
  | 22 => Some (done (sys_mmap me fuel))
  | 23 => Some (done (sys_munmap pid me fuel))
  | 24 => Some (done sys_setpriority)
  | 25 => Some (done sys_sched_stats)
  | 26 => Some (done sys_sched_budget_stats)
  | 27 => Some (done sys_sched_span_dump)
  | _ => None
  end.

Definition syscall : K bool :=
  let* a7 := tf_get me (tf_a 7) in
  let num := i32 a7 in
  match (if 0 <? num then syscalls num else None) with
  | Some f =>
      let* r := f in
      match r with
      | Done v => tf_set me (tf_a 0) (u64 v) ;; ret true
      | Gone => ret false
      end
  | None =>
      let* p := kproc me in
      kprint (kprintf kdigits (bytes "%d %s: unknown sys call %d" ++ [10]) [VWord (p_pid p); VStr (Some (cstring (p_name p))); VWord num]) ;;
      tf_set me (tf_a 0) (u64 (-1)) ;;
      ret true
  end.
End Sys.

(** ** kernel/trap.c *)

Inductive handler := Kernelvec | Uservec.
Record hart := mkHart {
  h_sstatus : Z; h_sepc : Z; h_scause : Z; h_stval : Z; h_stvec : handler;
  h_satp : Z; h_tp : Z; h_time : Z; h_stimecmp : Z;
  h_claim : list Z;       (* what PLIC_SCLAIM will read as, 0 after that *)
  h_complete : list Z;    (* what was written to it *)
}.
Record tstate (P : Type) := mkTs { ts_k : kernel; ts_hart : hart; ts_disk : vdisk; ts_policy : P }.
Arguments mkTs {P}. Arguments ts_k {P}. Arguments ts_hart {P}. Arguments ts_disk {P}. Arguments ts_policy {P}.

Definition SSTATUS_SPP : Z := Z.shiftl 1 8.
Definition SSTATUS_SPIE : Z := Z.shiftl 1 5.
Definition SSTATUS_SIE : Z := Z.shiftl 1 1.

Section Trap.
Context `{LinkerSyms} {P : Type} `{SchedulerPolicy P}.
Context (pid : Z) (me fuel : nat) (stat_pad : list Z).
(** Where usertrap was linked. *)
Context (usertrap_addr : Z).
Notation T := (M (tstate P)).

Definition ts_kL : lens (tstate P) kernel := Lens ts_k (fun k s => mkTs k (ts_hart s) (ts_disk s) (ts_policy s)).
Definition ts_diskL : lens (tstate P) vdisk := Lens ts_disk (fun d s => mkTs (ts_k s) (ts_hart s) d (ts_policy s)).
Definition on_k {A} (m : K A) : T A := zoom ts_kL m.
Definition on_hart (f : hart -> hart) : T unit := modify (fun s => mkTs (ts_k s) (f (ts_hart s)) (ts_disk s) (ts_policy s)).
Definition get_hart : T hart := gets ts_hart.
Definition w_stvec (h : handler) : T unit :=
  on_hart (fun r => mkHart (h_sstatus r) (h_sepc r) (h_scause r) (h_stval r) h (h_satp r) (h_tp r) (h_time r) (h_stimecmp r) (h_claim r) (h_complete r)).
Definition w_sstatus (x : Z) : T unit :=
  on_hart (fun r => mkHart x (h_sepc r) (h_scause r) (h_stval r) (h_stvec r) (h_satp r) (h_tp r) (h_time r) (h_stimecmp r) (h_claim r) (h_complete r)).
Definition w_sepc (x : Z) : T unit :=
  on_hart (fun r => mkHart (h_sstatus r) x (h_scause r) (h_stval r) (h_stvec r) (h_satp r) (h_tp r) (h_time r) (h_stimecmp r) (h_claim r) (h_complete r)).
Definition w_stimecmp (x : Z) : T unit :=
  on_hart (fun r => mkHart (h_sstatus r) (h_sepc r) (h_scause r) (h_stval r) (h_stvec r) (h_satp r) (h_tp r) (h_time r) x (h_claim r) (h_complete r)).
Definition intr_on : T unit := let* r := get_hart in w_sstatus (Z.lor (h_sstatus r) SSTATUS_SIE).
Definition intr_off : T unit := let* r := get_hart in w_sstatus (Z.land (h_sstatus r) (Z.lnot SSTATUS_SIE)).

Definition plic_claim : T Z :=
  let* r := get_hart in
  on_hart (fun r => mkHart (h_sstatus r) (h_sepc r) (h_scause r) (h_stval r) (h_stvec r) (h_satp r) (h_tp r) (h_time r) (h_stimecmp r) (drop 1 (h_claim r)) (h_complete r)) ;;
  ret (nth 0 (h_claim r) 0).
Definition plic_complete (irq : Z) : T unit :=
  on_hart (fun r => mkHart (h_sstatus r) (h_sepc r) (h_scause r) (h_stval r) (h_stvec r) (h_satp r) (h_tp r) (h_time r) (h_stimecmp r) (h_claim r) (h_complete r ++ [irq])).

(** The text procdump prints for control-P. *)
Definition dump (s : kw) : list Z := default [] (procdump (k_pt s)).

Definition clockintr : T unit :=
  let* r := get_hart in
  when (h_tp r =? 0) (on_k (on_pt (clock_tick me))) ;;
  let* r := get_hart in
  w_stimecmp (u64 (h_time r + 1000000)).

Definition devintr : T Z :=
  let* r := get_hart in
  if h_scause r =? 0x8000000000000009 then
    let* irq := plic_claim in
    (if irq =? UART0_IRQ then on_k (on_kw (zoom consL (uartintr dump)))
     else if irq =? VIRTIO0_IRQ then zoom ts_diskL virtio_disk_intr
     else when (negb (irq =? 0)) (on_k (kprint (kprintf kdigits (bytes "unexpected interrupt irq=%d" ++ [10]) [VWord irq])))) ;;
    when (negb (irq =? 0)) (plic_complete irq) ;;
    ret 1
  else if h_scause r =? 0x8000000000000005 then clockintr ;; ret 2
  else ret 0.

(** Charging a timer tick to the process that used it. *)
Definition charge_running : T unit :=
  on_k (set_kproc me (fun p => with_run_total (u64 (p_run_total p + 1)) p)) ;;
  modify (fun s => let pt := k_pt (fs_user (ts_k s)) in
    mkTs (ts_k s) (ts_hart s) (ts_disk s) (charge_tick (ts_policy s) (mkEnv (ls_count pt) (ticks pt)) (procs pt me))).

Definition prepare_return : T unit :=
  intr_off ;;
  w_stvec Uservec ;;
  let* r := get_hart in
  let* p := on_k (kproc me) in
  on_k (tf_set me tf_kernel_satp (h_satp r)) ;;
  on_k (tf_set me tf_kernel_sp (u64 (p_kstack p + PGSIZE))) ;;
  on_k (tf_set me tf_kernel_trap usertrap_addr) ;;
  on_k (tf_set me tf_kernel_hartid (h_tp r)) ;;
  w_sstatus (Z.lor (Z.land (h_sstatus r) (Z.lnot SSTATUS_SPP)) SSTATUS_SPIE) ;;
  let* epc := on_k (tf_get me tf_epc) in
  w_sepc epc.

(** The messages for an unexpected trap. *)
Definition complain : T unit :=
  let* r := get_hart in
  let* p := on_k (kproc me) in
  on_k (kprint (kprintf kdigits (bytes "usertrap(): unexpected scause 0x%lx pid=%d" ++ [10]) [VWord (h_scause r); VWord (p_pid p)])) ;;
  on_k (kprint (kprintf kdigits (bytes "            sepc=0x%lx stval=0x%lx" ++ [10]) [VWord (h_sepc r); VWord (h_stval r)])) ;;
  on_k (on_pt (setkilled me)).

(** The three ways into usertrap: what the interrupt was (2: timer), and
    whether the process is still there. *)
Definition usertrap_cause : T (Z * bool) :=
  let* r := get_hart in
  if h_scause r =? 8 then
    let* dead := on_k (on_pt (killed me)) in
    if (dead : bool) then on_k (kexit pid me fuel (-1)) ;; ret (0, false) else
    let* epc := on_k (tf_get me tf_epc) in
    on_k (tf_set me tf_epc (u64 (epc + 4))) ;;
    intr_on ;;
    let* s := gets id in
    let* alive := on_k (syscall (ts_policy s) pid me fuel stat_pad) in
    ret (0, alive)
  else
    let* which := devintr in
    if negb (which =? 0) then ret (which, true)
    else if (h_scause r =? 13) || (h_scause r =? 15) then
      let* p := on_k (kproc me) in
      let* pa := on_k (on_pm (vmfault (mkUproc (p_size p) (p_pgtbl p)) (p_pgtbl p) (h_stval r) (if h_scause r =? 13 then 1 else 0))) in
      if negb (pa =? 0) then ret (0, true) else
      let* f := on_k (mmapfault pid me fuel (h_stval r)) in
      if f =? 0 then ret (0, true) else complain ;; ret (0, true)
    else complain ;; ret (0, true).

(** The satp value returned to trampoline.S; [None]: the process exited. *)
Definition usertrap : T (option Z) :=
  let* r := get_hart in
  if negb (Z.land (h_sstatus r) SSTATUS_SPP =? 0) then panic "usertrap: not from user mode" else
  w_stvec Kernelvec ;;
  on_k (tf_set me tf_epc (h_sepc r)) ;;
  let* c := usertrap_cause in
  let '(which_dev, alive) := c in
  if negb alive then ret None else
  when (which_dev =? 2) charge_running ;;
  let* dead := on_k (on_pt (killed me)) in
  if (dead : bool) then on_k (kexit pid me fuel (-1)) ;; ret None else
  let* s := gets id in
  when ((which_dev =? 2) && should_preempt (ts_policy s) (procs (k_pt (fs_user (ts_k s))) me)) (on_k (on_pt (yield me))) ;;
  prepare_return ;;
  let* p := on_k (kproc me) in
  ret (Some (MAKE_SATP (p_pgtbl p))).

(** [running]: myproc() is not 0. *)
Definition kerneltrap (running : bool) : T unit :=
  let* r := get_hart in
  if Z.land (h_sstatus r) SSTATUS_SPP =? 0 then panic "kerneltrap: not from supervisor mode" else
  if negb (Z.land (h_sstatus r) SSTATUS_SIE =? 0) then panic "kerneltrap: interrupts enabled" else
  let* which_dev := devintr in
  if which_dev =? 0 then
    on_k (kprint (kprintf kdigits (bytes "scause=0x%lx sepc=0x%lx stval=0x%lx" ++ [10]) [VWord (h_scause r); VWord (h_sepc r); VWord (h_stval r)])) ;;
    panic "kerneltrap"
  else
    when ((which_dev =? 2) && running) (charge_running ;; on_k (on_pt (yield me))) ;;
    w_sepc (h_sepc r) ;;
    w_sstatus (h_sstatus r).

(** kernel/proc.c: forkret; [first] is its static variable. *)
Definition forkret (first : bool) : T Z :=
  on_k (on_pt (unlock (p_lockL me))) ;;
  when first
    (on_k (fsinit pid fuel ROOTDEV) ;;
     let* r := on_k (kexec pid me fuel (bytes "/init") [bytes "/init"]) in
     on_k (tf_set me (tf_a 0) (u64 r)) ;;
     if u64 r =? u64 (-1) then panic "exec" else ret tt) ;;
  prepare_return ;;
  let* p := on_k (kproc me) in
  ret (MAKE_SATP (p_pgtbl p)).
End Trap.
