(* ===== verification/FileInv.v ===== *)
(** * Reference counts of open files

    The file table under any history of filealloc, filedup and fileclose by
    processes that use the references they hold.  Each of the three runs
    under ftable.lock without sleeping (fileclose up to the point where it
    has decided whether to close), so every interleaving of processes is a
    sequence of these steps. *)

From Stdlib Require Import ZArith Lia.
From stdpp Require Import gmap.
From S2P Require Import Prelude Params Kalloc Sleeplock Bio Log Fs Pipe ProcTable Sched Console Kernel File.

(** ** Histories *)

(** [FDup k] and [FClose k] use the k-th reference held. *)
Inductive fop := FAlloc | FDup (k : nat) | FClose (k : nat).

(** What the processes did so far: the references held, how many files were
    opened, the files handed to be closed. *)
Record fhist := mkFh { fh_held : list nat; fh_opened : nat; fh_closed : list file }.

Definition frun (h : fhist) (o : fop) : M kernel fhist :=
  match o with
  | FAlloc =>
      let* f := filealloc in
      ret (match f with Some f => mkFh (fh_held h ++ [f]) (S (fh_opened h)) (fh_closed h) | None => h end)
  | FDup k =>
      match fh_held h !! k with
      | None => ret h
      | Some f => let* g := filedup f in ret (mkFh (fh_held h ++ [g]) (fh_opened h) (fh_closed h))
      end
  | FClose k =>
      match fh_held h !! k with
      | None => ret h
      | Some f =>
          let* ff := on_kw (fileclose_ref f) in
          ret (mkFh (delete k (fh_held h)) (fh_opened h) (match ff with Some ff => fh_closed h ++ [ff] | None => fh_closed h end))
      end
  end.
Fixpoint fruns (os : list fop) (h : fhist) : M kernel fhist :=
  match os with
  | [] => ret h
  | o :: os => let* h := frun h o in fruns os h
  end.

(** ** The counts are exact *)

Definition count (f : nat) (held : list nat) : nat := length (List.filter (Nat.eqb f) held).

Record ftable_ok (held : list nat) (s : kernel) : Prop := {
  ft_free : ft_lock (fs_user s) = false;
  ft_ref : forall f, (f < nfile)%nat -> f_ref (files (fs_user s) f) = Z.of_nat (count f held);
  ft_held : forall f, f ∈ held -> (f < nfile)%nat;
}.

Lemma count_app f l k : count f (l ++ k) = (count f l + count f k)%nat.
Proof. unfold count. by rewrite List.filter_app, length_app. Qed.
Lemma count_delete f held k x : held !! k = Some x -> (count f (delete k held) + (if Nat.eqb f x then 1 else 0) = count f held)%nat.
Proof.
  intros Hk. rewrite delete_take_drop, count_app. pose proof (f_equal (count f) (take_drop_middle held k x Hk)) as E.
  rewrite count_app in E. rewrite <- E. unfold count at 4. cbn. destruct (Nat.eqb f x); cbn; fold (count f (drop (S k) held)); lia.
Qed.
Lemma count_pos f held : f ∈ held -> (0 < count f held)%nat.
Proof.
  intros Hf. apply list_elem_of_split in Hf as (l & k & ->). rewrite count_app. unfold count at 2. cbn. rewrite Nat.eqb_refl. cbn. lia.
Qed.
Lemma count_elem f held : (0 < count f held)%nat -> f ∈ held.
Proof.
  unfold count. intros Hc. destruct (List.filter (Nat.eqb f) held) as [|y l] eqn:El; [cbn in Hc; lia|].
  assert (In y (List.filter (Nat.eqb f) held)) as Hy by (rewrite El; by left). apply filter_In in Hy as [Hy Ey]. apply Nat.eqb_eq in Ey as <-. by apply list_elem_of_In.
Qed.
Lemma count_max f held : (count f held <= length held)%nat.
Proof. unfold count. apply List.filter_length_le. Qed.
Lemma count_zero f held : count f held = 0%nat -> f ∉ held.
Proof. intros E Hf. apply count_pos in Hf. lia. Qed.

(** ** The three operations *)

Lemma on_kw_wp {A} (m : M kw A) Q s : wp m (fun a u => Q a (put fs_userL u s)) (fs_user s) -> wp (on_kw m) Q s.
Proof. apply wp_zoom. Qed.

(** The table with one count changed. *)
Lemma ftable_set held held' s g f (h : file -> file) : ftable_ok held s -> (f < nfile)%nat ->
  files (fs_user g) = upd (files (fs_user s)) f (h (files (fs_user s) f)) -> ft_lock (fs_user g) = false ->
  f_ref (h (files (fs_user s) f)) = Z.of_nat (count f held') ->
  (forall x, x <> f -> count x held' = count x held) -> (forall x, x ∈ held' -> x = f \/ x ∈ held) -> ftable_ok held' g.
Proof.
  intros [] Hf Eg Hl Hr Ho Hh. split; [done| |].
  - intros x Hx. rewrite Eg. unfold upd. case_decide as E; [by subst|]. by rewrite ft_ref0, Ho.
  - intros x Hx. destruct (Hh x Hx) as [->|]; [done|by apply ft_held0].
Qed.

Lemma filealloc_spec held s : ftable_ok held s ->
  wp filealloc (fun r s' =>
    match r with
    | Some f => (f < nfile)%nat /\ f ∉ held /\ ftable_ok (held ++ [f]) s'
    | None => ftable_ok held s' /\ forall f, (f < nfile)%nat -> f ∈ held
    end) s.
Proof.
  intros Hok. pose proof Hok as []. unfold filealloc. apply on_kw_wp. wp_step. wp_step. wp_step. wp_step.
  destruct (List.find _ (seq 0 nfile)) as [f|] eqn:Ef; cbn [files set_ft_lock put ft_lockL] in Ef.
  - apply find_some in Ef as [Hin E0]. apply in_seq in Hin. apply Z.eqb_eq in E0. assert (f < nfile)%nat as Hf by lia.
    rewrite ft_ref0 in E0 by done. assert (count f held = 0%nat) as Ec by lia.
    wp_step. wp_step. wp_step. wp_step. split; [done|]. split; [by apply count_zero|].
    eapply (ftable_set held (held ++ [f]) s _ f (with_f_ref 1)); [done|done|done|done| | |]; cbn.
    + rewrite count_app, Ec. unfold count. cbn. by rewrite Nat.eqb_refl.
    + intros x Hx. rewrite count_app. unfold count at 2. cbn. rewrite (proj2 (Nat.eqb_neq x f)) by done. cbn. lia.
    + intros x. rewrite elem_of_app, list_elem_of_singleton. tauto.
  - wp_step. wp_step. wp_step. split; [by split|]. intros f Hf. pose proof (find_none _ _ Ef f) as Hn.
    assert (f ∈ held \/ f ∉ held) as [|Hno] by (destruct (decide (f ∈ held)); auto); [done|]. exfalso.
    assert (In f (seq 0 nfile)) as Hs by (apply in_seq; lia). specialize (Hn Hs). cbn in Hn. rewrite ft_ref0 in Hn by done. apply Z.eqb_neq in Hn. apply Hn.
    destruct (count f held) eqn:Ec; [done|]. destruct Hno. apply count_elem. lia.
Qed.

Lemma filedup_spec held s f : ftable_ok held s -> f ∈ held -> Z.of_nat (length held) < 2 ^ 31 - 1 ->
  wp (filedup f) (fun g s' => g = f /\ ftable_ok (held ++ [f]) s') s.
Proof.
  intros Hok Hf Hmax. pose proof Hok as []. unfold filedup. apply on_kw_wp. wp_step. wp_step. wp_step. wp_step.
  cbn [files set_ft_lock put ft_lockL]. assert (f < nfile)%nat as Hlt by auto. rewrite ft_ref0 by done.
  pose proof (count_pos f held Hf). pose proof (count_max f held). rewrite (proj2 (Z.ltb_ge _ _)) by lia. rewrite i32_small by lia.
  wp_step. wp_step. wp_step. wp_step. wp_step. split; [done|].
  eapply (ftable_set held (held ++ [f]) s _ f (with_f_ref _)); [done|done|done|done| | |]; cbn.
  - rewrite count_app. unfold count at 3. cbn. rewrite Nat.eqb_refl. cbn. lia.
  - intros x Hx. rewrite count_app. unfold count at 2. cbn. rewrite (proj2 (Nat.eqb_neq x f)) by done. cbn. lia.
  - intros x. rewrite elem_of_app, list_elem_of_singleton. tauto.
Qed.

Lemma fileclose_spec held s k f : ftable_ok held s -> held !! k = Some f ->
  wp (on_kw (fileclose_ref f)) (fun r s' => ftable_ok (delete k held) s' /\
    (is_Some r <-> f ∉ delete k held) /\ (forall ff, r = Some ff -> f_type ff = f_type (files (fs_user s) f) /\ f_ip ff = f_ip (files (fs_user s) f) /\ f_pipe ff = f_pipe (files (fs_user s) f)) /\
    (r = None -> f_type (files (fs_user s') f) = f_type (files (fs_user s) f))) s.
Proof.
  intros Hok Hk. pose proof Hok as []. assert (f ∈ held) as Hin by (by apply list_elem_of_lookup; exists k). assert (f < nfile)%nat as Hlt by auto.
  pose proof (count_pos f held Hin) as Hp. pose proof (count_delete f held k f Hk) as Hd. rewrite Nat.eqb_refl in Hd.
  assert (forall x, x <> f -> count x (delete k held) = count x held) as Ho.
  { intros x Hx. pose proof (count_delete x held k f Hk) as H'. rewrite (proj2 (Nat.eqb_neq x f)) in H' by done. lia. }
  assert (forall x, x ∈ delete k held -> x = f \/ x ∈ held) as Hh.
  { intros x Hx. right. apply count_elem. apply count_pos in Hx. pose proof (count_delete x held k f Hk). lia. }
  unfold fileclose_ref. apply on_kw_wp. wp_step. wp_step. wp_step. wp_step.
  cbn [files set_ft_lock put ft_lockL]. rewrite ft_ref0 by done. rewrite (proj2 (Z.ltb_ge _ _)) by lia. wp_step. wp_step.
  destruct (Z.ltb_spec 0 (Z.of_nat (count f held) - 1)) as [Hmore|Hlast].
  - wp_step. wp_step. wp_step. split; [|split; [|split]].
    + eapply (ftable_set held _ s _ f (with_f_ref (Z.of_nat (count f held) - 1))); [done|done|done|done| |done|done]. cbn. lia.
    + split; [intros [? ?]; done|]. intros Hno. exfalso. assert (0 < count f (delete k held))%nat as Hc by lia.
      by apply Hno, count_elem.
    + intros ff E. discriminate.
    + intros _. cbn. by rewrite upd_eq.
  - wp_step. wp_step. wp_step. wp_step. wp_step. wp_step. wp_step. wp_step. wp_step. split; [|split; [|split]].
    + eapply (ftable_set held _ s _ f (fun x => with_f_type FD_NONE (with_f_ref 0 (with_f_ref (Z.of_nat (count f held) - 1) x)))); [done|done| |done| |done|done]; cbn.
      * rewrite !upd_upd, !upd_eq. done.
      * lia.
    + split; [|by eexists]. intros _. apply count_zero. lia.
    + intros ff E. injection E as <-. cbn. by rewrite upd_eq.
    + intros E. discriminate.
Qed.

(** ** Histories keep the counts *)

Definition held_set (held : list nat) : gset nat := list_to_set held.
Record fhist_ok (h : fhist) (s : kernel) : Prop := {
  fh_table : ftable_ok (fh_held h) s;
  fh_once : fh_opened h = (length (fh_closed h) + size (held_set (fh_held h)))%nat;
}.

Lemma held_snoc held f : held_set (held ++ [f]) = held_set held ∪ {[f]}.
Proof. unfold held_set. rewrite list_to_set_app_L. cbn. set_solver. Qed.
Lemma held_delete held k f : held !! k = Some f -> held_set held = held_set (delete k held) ∪ {[f]}.
Proof.
  intros Hk. unfold held_set. rewrite <- (take_drop_middle held k f Hk) at 1. rewrite delete_take_drop, !list_to_set_app_L, list_to_set_cons. set_solver.
Qed.

Lemma frun_spec h o s : fhist_ok h s -> Z.of_nat (length (fh_held h)) < 2 ^ 31 - 1 ->
  wp (frun h o) (fun h' s' => fhist_ok h' s' /\ (length (fh_held h') <= S (length (fh_held h)))%nat) s.
Proof.
  intros [Ht Ho] Hmax. destruct o as [|k|k]; cbn [frun].
  - wp_step. eapply wp_mono; [by apply (filealloc_spec (fh_held h))|]. intros [f|] s' Hs'; wp_step; cbn.
    + destruct Hs' as (Hf & Hn & Hok). split; [|rewrite length_app; cbn; lia]. split; cbn; [done|].
      rewrite held_snoc, size_union, size_singleton by (unfold held_set; set_solver). lia.
    + destruct Hs' as [Hok _]. split; [by split|lia].
  - destruct (fh_held h !! k) as [f|] eqn:Ek; [|wp_step; split; [by split|lia]]. assert (f ∈ fh_held h) as Hin by (apply list_elem_of_lookup; eauto).
    wp_step. eapply wp_mono; [by apply (filedup_spec (fh_held h))|]. intros g s' [-> Hok]. wp_step. cbn.
    split; [|rewrite length_app; cbn; lia]. split; cbn; [done|]. rewrite held_snoc.
    replace (held_set (fh_held h) ∪ {[f]}) with (held_set (fh_held h)); [done|]. unfold held_set. set_solver.
  - destruct (fh_held h !! k) as [f|] eqn:Ek; [|wp_step; split; [by split|lia]].
    wp_step. eapply wp_mono; [by apply (fileclose_spec (fh_held h))|]. intros ff s' (Hok & Hlast & _). wp_step. cbn.
    split; [|rewrite length_delete by (by eexists); lia]. split; cbn; [done|]. rewrite Ho, (held_delete _ _ _ Ek). destruct ff as [ff|].
    + assert (f ∉ delete k (fh_held h)) as Hn by (by apply Hlast). rewrite length_app, size_union, size_singleton by (unfold held_set; set_solver). cbn [length]. unfold held_set. lia.
    + assert (f ∈ delete k (fh_held h)) as Hin.
      { destruct (decide (f ∈ delete k (fh_held h))) as [|Hn]; [done|]. apply Hlast in Hn as [? ?]. done. }
      f_equal. replace (held_set (delete k (fh_held h)) ∪ {[f]}) with (held_set (delete k (fh_held h))); [done|]. unfold held_set. set_solver.
Qed.

Lemma fruns_spec os : forall h s, fhist_ok h s -> Z.of_nat (length (fh_held h)) + Z.of_nat (length os) < 2 ^ 31 - 1 ->
  wp (fruns os h) fhist_ok s.
Proof.
  induction os as [|o os IH]; intros h s Hh Hm; cbn [fruns]; [by wp_step|]. cbn in Hm. wp_step.
  eapply wp_mono; [apply frun_spec; [done|lia]|]. intros h' s' [Hh' Hl]. apply IH; [done|lia].
Qed.

(** C37: the file table.  From a table with no references, through any
    history of filealloc, filedup and fileclose by processes using the
    references they hold (fewer than 2^31 of them), no call panics; the
    reference count of every entry is the number of references held to it;
    filealloc hands out an entry exactly when some entry is unreferenced, and
    never one that is; and every file opened is handed to be closed exactly
    once, when its last reference goes. *)
Theorem file_refs_exact os s : ftable_ok [] s -> Z.of_nat (length os) < 2 ^ 31 - 1 ->
  wp (fruns os (mkFh [] 0 [])) (fun h s' =>
    (forall f, (f < nfile)%nat -> f_ref (files (fs_user s') f) = Z.of_nat (count f (fh_held h))) /\
    fh_opened h = (length (fh_closed h) + size (held_set (fh_held h)))%nat /\
    wp filealloc (fun r _ => match r with
      | Some f => f ∉ fh_held h
      | None => forall f, (f < nfile)%nat -> f ∈ fh_held h end) s' /\
    forall k f, fh_held h !! k = Some f ->
      wp (on_kw (fileclose_ref f)) (fun r _ => is_Some r <-> f ∉ delete k (fh_held h)) s') s.
Proof.
  intros Hs Hm. eapply wp_mono; [apply fruns_spec; [by split|cbn; lia]|]. intros h s' [Ht Ho].
  split; [apply Ht|]. split; [done|]. split.
  - eapply wp_mono; [by apply (filealloc_spec (fh_held h))|]. intros [f|] s2; [by intros (_ & ? & _)|by intros [_ ?]].
  - intros k f Hk. eapply wp_mono; [by apply (fileclose_spec (fh_held h))|]. by intros r s2 (_ & ? & _).
Qed.

Module FileWitness.
Definition file0 : file := mkFile FD_NONE 0 false false 0 None 0 0.
Definition pt0 : ptable := mkPt (fun _ => blank) 1 false 1 false false 0 None 0 false 0 None.
Definition kw0 : kw := mkKw pt0 (mkPm (fun _ => 0) false 0) false (fun _ => file0) (fun _ => ToyUser.zero_pipe) (fun _ => None) cons0 uart0 [].
Definition k0 : kernel :=
  mkFs (mkLog false 0 0 false 0 0 (fun _ => 0) (mkBio false (fun _ => mkBuf false 0 0 initsleeplock 0 0%nat 0%nat []) (fun _ => []) [] []))
    (mkSb 0 0 0 0 0 0 0 0) false (fun _ => mkInode 0 0 0 initsleeplock false 0 0 0 0 0 (fun _ => 0)) kw0.
Lemma k0_ok : ftable_ok [] k0.
Proof. split; [reflexivity|reflexivity|]. intros f Hf. by apply elem_of_nil in Hf. Qed.
(** Open two files, duplicate the first, close it twice. *)
Definition ops : list fop := [FAlloc; FAlloc; FDup 0; FClose 0; FClose 1].
Lemma file_refs_exact_witness :
  wp (fruns ops (mkFh [] 0 [])) (fun h s' =>
    (forall f, (f < nfile)%nat -> f_ref (files (fs_user s') f) = Z.of_nat (count f (fh_held h))) /\
    fh_opened h = (length (fh_closed h) + size (held_set (fh_held h)))%nat /\
    wp filealloc (fun r _ => match r with
      | Some f => f ∉ fh_held h
      | None => forall f, (f < nfile)%nat -> f ∈ fh_held h end) s' /\
    forall k f, fh_held h !! k = Some f ->
      wp (on_kw (fileclose_ref f)) (fun r _ => is_Some r <-> f ∉ delete k (fh_held h)) s') k0.
Proof. apply (file_refs_exact ops k0 k0_ok). vm_compute. reflexivity. Defined.
End FileWitness.
