(* ===== verification/FileIO.v ===== *)
(** * Reading and writing open files (kernel/file.c: fileread, filewrite)

    The whole path of a write: open file, inode lock, copy from user space,
    block allocation, log and disk.  A file's bytes are a list; filewrite
    overwrites or extends it, in transactions of which a crash keeps a prefix,
    and fileread delivers a piece of it to user memory. *)

From Stdlib Require Import ZArith Lia FunctionalExtensionality.
From stdpp Require Import gmap.
From S2P Require Import Prelude Mem StringC Params Env Kalloc Vm VmBits PageTable UserCopy Sleeplock Bio Log Fs FsPure FsTxn FsAlloc FsInode FsFile FsWrite FsLock SmallDisk Pipe ProcTable Sched Console Kernel UserIO File FileInv.

(** ** The file system between operations *)

Section Idle.
Context {W : Type} (pid start : Z) (sb : superblock).
Implicit Types (d x : Z -> list Z) (c : control W) (i j : inode).

(** No transaction under way; the disk is [d] and [w] was written so far. *)
Record idle_at c d (w : list (Z * list Z)) (s : fs W) : Prop := {
  ia_ctl : ctl s = c;
  ia_log : log_idle pid start (fs_log s);
  ia_disk : disk (lbio (fs_log s)) = d;
  ia_writes : dwrites (lbio (fs_log s)) = w;
}.
Definition env d (w : list (Z * list Z)) (out : Z) : txn_env := mkTxn pid start d w out.
Definition fslayout : Prop := layout (env (fun _ => []) [] 0) sb.
Lemma env_layout d w out : fslayout -> layout (env d w out) sb.
Proof. by intros []. Qed.

(** An inode of the table that nobody holds: what ilock will find is a file
    of the disk [d]. *)
Record inode_at c (ip : nat) d i : Prop := {
  na_sb : c.1.1.1 = sb;
  na_inode : c.1.2 ip = i;
  na_ref : 1 <= i_ref i;
  na_lock : exists p, i_lock i = mkSleeplock false false p;
  na_rep : inode_rep sb d (loaded sb d i);
  na_sync : inode_disk (loaded sb d i) = dinode_at sb d (i_inum i);
  na_type : i_type (loaded sb d i) <> 0;
}.
(** The bytes of the file. *)
Definition fbytes d i : list Z := fcontent d (loaded sb d i).

(** The disk [x] holds [content] as the inode that was [i] on [d]; no other
    inode and no file apart from it differs. *)
Record stored d i x i' (content : list Z) : Prop := {
  st_fields : i_inum i' = i_inum i /\ i_type i' = i_type i /\ i_nlink i' = i_nlink i;
  st_disk : inode_disk i' = dinode_at sb x (i_inum i);
  st_rep : inode_rep sb x i';
  st_content : fcontent x i' = content;
  st_inodes : forall inum, 0 <= inum < sb_ninodes sb -> inum <> i_inum i -> dinode_at sb x inum = dinode_at sb d inum;
  st_others : forall j, inode_rep sb d j -> apart d i j -> inode_rep sb x j /\ fcontent x j = fcontent d j /\ apart x i' j;
}.

Lemma st_inum d i x i' content : stored d i x i' content -> i_inum i' = i_inum i.
Proof. by intros [[? _] _ _ _ _ _]. Qed.
Lemma stored_refl d i : inode_rep sb d i -> inode_disk i = dinode_at sb d (i_inum i) -> stored d i d i (fcontent d i).
Proof. intros. by split. Qed.
Lemma stored_trans d i x j l1 y k l2 : stored d i x j l1 -> stored x j y k l2 -> stored d i y k l2.
Proof.
  intros [(A1 & T1 & N1) A2 A3 A4 A5 A6] [(B1 & T2 & N2) B2 B3 B4 B5 B6]. split; try done; try congruence.
  - split_and!; congruence.
  - intros inum Hr Hn. rewrite B5, A5; [done|done|done|done|congruence].
  - intros f Hf Ha. destruct (A6 f Hf Ha) as (F1 & F2 & F3). destruct (B6 f F1 F3) as (G1 & G2 & G3). rewrite G2. done.
Qed.
Lemma stored_same d i x y i' content : fslayout -> same_fs sb y x -> stored d i x i' content -> stored d i y i' content.
Proof.
  intros Hly Hs [A1 A2 A3 A4 A5 A6]. pose proof (env_layout d [] 0 Hly) as Hl. pose proof (ir_inum _ _ _ A3) as Hin. rewrite (proj1 A1) in Hin. split; try done.
  - by rewrite (same_dinode (env d [] 0) sb Hl y x).
  - by apply (same_rep (env d [] 0) sb Hl y x).
  - by rewrite (same_content (env d [] 0) sb Hl y x).
  - intros inum Hr Hn. rewrite (same_dinode (env d [] 0) sb Hl y x) by done. by apply A5.
  - intros f Hf Ha. destruct (A6 f Hf Ha) as (F1 & F2 & F3). split; [by apply (same_rep (env d [] 0) sb Hl y x)|].
    rewrite (same_content (env d [] 0) sb Hl y x) by done. split; [done|]. intros n.
    rewrite (same_owns (env d [] 0) sb Hl y x i'), (same_owns (env d [] 0) sb Hl y x f) by done. apply F3.
Qed.
(** What one operation on an inode stores. *)
Lemma updates_stored d i x i' : fslayout -> disk_ok sb d -> updates sb d i x i' -> stored d i x i' (fcontent x i').
Proof.
  intros Hly Hd HU. pose proof (env_layout d [] 1 Hly) as Hl. pose proof (up_fields _ _ _ _ _ HU) as Hf. split; try done.
  - unfold same_fields in Hf. tauto.
  - symmetry. by apply (up_self _ _ _ _ _ HU).
  - by apply (up_rep _ _ _ _ _ HU).
  - intros inum. apply (up_inodes _ _ _ _ _ HU).
  - intros j Hj Ha. by apply (other_file (env d [] 1) sb Hl d i x i' j).
Qed.

Lemma stored_ilock d i x l i' content : stored d i x i' content -> stored d i x (with_ilock l i') content.
Proof. intros [A1 A2 A3 A4 A5 A6]. split; try done. by apply ilock_rep. Qed.

(** The states of an operation: begun, ended. *)
Lemma idle_begin c d w s fuel Q : idle_at c d w s -> (forall s', fs_at (env d w 1) c [] ∅ d s' -> Q tt s') -> wp (zoom fs_logL (begin_op (S fuel))) Q s.
Proof.
  intros [<- Hi <- <-] HQ. apply wp_zoom. eapply wp_mono; [by apply (txn_begin (env (disk (lbio (fs_log s))) (dwrites (lbio (fs_log s))) 1))|].
  intros [] l Hl. apply HQ. by split.
Qed.
Lemma idle_end c d w bs V s Q : fs_at (env d w 1) c bs ∅ V s -> log_empty start d -> Z.of_nat (length bs) < NBUF ->
  (forall s' d' ws, idle_at c d' (w ++ ws) s' -> outside_log start d' V -> ((forall n, block_ok (d n)) -> (forall n, block_ok (V n)) -> forall n, block_ok (d' n)) ->
     d' = apply_writes d ws -> ((forall n, n < start -> V n = d n) -> spares start d ws) -> crash_safe start d ws (fun x => (outside_log start x d \/ outside_log start x V) /\ ((forall n, block_ok (V n)) -> whole d x)) -> Q tt s') ->
  wp (zoom fs_logL (end_op pid)) Q s.
Proof.
  intros [<- Hs] He Hb HQ. apply wp_zoom. eapply wp_mono; [by apply (txn_end (env d w 1) bs V)|].
  intros [] l (Hi & Ho & Hok & ws & Hw & Hd & Hsp & Hc). by apply (HQ _ (disk (lbio l)) ws).
Qed.
Lemma idle_read c d w s : idle_at c d w s -> fs_at (env d w 0) c [] ∅ d s.
Proof. intros [<- Hi <- <-]. split; [done|]. by apply (read_begin (env (disk (lbio (fs_log s))) (dwrites (lbio (fs_log s))) 0)). Qed.
Lemma read_idle c d w V s : fs_at (env d w 0) c [] ∅ V s -> log_empty start d -> idle_at c d w s.
Proof. intros [<- Hs] He. destruct (read_end (env d w 0) eq_refl V (fs_log s) Hs He) as (Hi & Hd & Hw). by split. Qed.
Lemma idle_empty c d w s : idle_at c d w s -> log_empty start d.
Proof. intros [_ [] <- _]. done. Qed.
End Idle.

(** ** The kernel around it *)

Section FileIO.
Context `{LinkerOk} (pid start : Z) (sb : superblock) (me fuel : nat).
Implicit Types (d : Z -> list Z) (c : control kw) (i : inode).
Hypothesis Hly : fslayout pid start sb.

(** The state of an open file's offset. *)
Definition at_off (f : nat) (off : Z) (u : kw) : kw := on_file f (with_f_off off) u.
Lemma at_off_same f u : at_off f (f_off (files u f)) u = u.
Proof.
  unfold at_off, on_file. replace (with_f_off (f_off (files u f)) (files u f)) with (files u f) by by destruct (files u f). rewrite upd_id. by destruct u.
Qed.
Lemma at_off_file f off u : files (at_off f off u) f = with_f_off off (files u f).
Proof. unfold at_off, on_file. cbn. by rewrite upd_eq. Qed.
Lemma at_off_twice f a b u : at_off f a (at_off f b u) = at_off f a u.
Proof. unfold at_off, on_file, set_files. cbn. by rewrite upd_eq, upd_upd. Qed.
Lemma reading_files t ps u0 u f : reading me u0 t ps u -> files u f = files u0 f.
Proof. by intros [-> _]. Qed.
Lemma reading_off t ps u0 u f off : reading me u0 t ps u -> reading me (at_off f off u0) t ps (at_off f off u).
Proof. intros [E Hx]. split; [by rewrite E|exact Hx]. Qed.

Lemma wp_kfile {A} T c bs L V s f (k : file -> M kernel A) Q : fs_at T c bs L V s -> wp (k (files c.2 f)) Q s -> wp (let* x := kfile f in k x) Q s.
Proof. intros [<- _] HQ. unfold kfile. wp_step. by wp_step. Qed.
Lemma wp_on_kw T c bs L V s g Q : fs_at T c bs L V s -> (forall s', fs_at T (with_user (g c.2) c) bs L V s' -> Q tt s') -> wp (on_kw (modify g)) Q s.
Proof. intros [<- Hs] HQ. unfold on_kw. wp_step. wp_step. apply HQ. by split. Qed.

(** The offset moves by what was transferred. *)
Lemma wp_advance T c bs L V s f u0 t ps r Q : fs_at T c bs L V s -> reading me u0 t ps c.2 -> 0 <= r -> 0 <= f_off (files u0 f) -> f_off (files u0 f) + r < 2 ^ 32 ->
  (forall u s', reading me (at_off f (f_off (files u0 f) + r) u0) t ps u -> fs_at T (with_user u c) bs L V s' -> Q tt s') ->
  wp (when (0 <? r) (set_kfile f (fun x => with_f_off (u32 (f_off x + r)) x))) Q s.
Proof.
  intros Hs Hu Hr Ho Hm HQ. apply wp_when; intros E.
  - unfold set_kfile. eapply wp_on_kw; [exact Hs|]. intros s' Hs'. apply (HQ (at_off f (f_off (files u0 f) + r) c.2)).
    + by apply reading_off.
    + rewrite <- (reading_files t ps u0 c.2 f Hu). rewrite <- (reading_files t ps u0 c.2 f Hu) in Ho, Hm. unfold at_off, on_file in *. rewrite u32_small in Hs' by lia. exact Hs'.
  - assert (r = 0) as -> by lia. apply (HQ c.2); [by rewrite Z.add_0_r, at_off_same|by rewrite with_user_id].
Qed.

(** ** One transaction of filewrite *)

Definition chunk (n i : Z) : Z := Z.min write_max (n - i).

Lemma blocks_chunk off n : 0 <= off -> 0 <= n <= write_max -> (6 * blocks off n <= 24)%nat.
Proof.
  intros Ho Hn. unfold blocks. destruct (Z.eqb_spec n 0); [lia|]. change write_max with 3072 in Hn. unfold BSIZE. Z.div_mod_to_equations. lia.
Qed.

(** What is known of an open file that is written: its inode, its offset in
    range and the caller's buffer. *)
Record write_ok c ip d i f (addr n : Z) t ps : Prop := {
  wo_disk : disk_ok sb d;
  wo_inode : inode_at sb c ip d i;
  wo_file : f_ip (files c.2 f) = Some ip;
  wo_off : 0 <= f_off (files c.2 f) <= i_size (loaded sb d i);
  wo_max : f_off (files c.2 f) + n <= MAXFILE * BSIZE;
  wo_space : uspace me c.2 t ps;
  wo_addr : 0 <= addr;
  wo_buf : mapped (pm_mem (k_pm c.2)) t addr n;
}.

Definition wrote_chunk c ip d i f (addr n : Z) t ps w (r : Z) (s : kernel) : Prop := exists u' i' d' ws,
  let c' := with_user u' (set_ctl ip i' c) in let off := f_off (files c.2 f) in
  0 <= r <= n /\ (r = n \/ disk_full sb d') /\ idle_at pid start c' d' (w ++ ws) s /\ reading me (at_off f (off + r) c.2) t ps u' /\
  inode_at sb c' ip d' i' /\ i_valid i' = true /\ disk_ok sb d' /\ i_size i' = Z.max (i_size (loaded sb d i)) (off + r) /\
  stored sb d (loaded sb d i) d' i' (splice (fbytes sb d i) (Z.to_nat off) (take (Z.to_nat r) (ubytes (pm_mem (k_pm c.2)) t addr n))) /\
  d' = apply_writes d ws /\ spares start d ws /\ crash_safe start d ws (fun x => (same_fs sb x d \/ same_fs sb x d') /\ forall n, block_ok (x n)).

(** The copy into the file, between ilock and iunlock. *)
Lemma write_locked c ip d i f addr n t ps w s : fs_at (env pid start d w 1) (set_ctl ip (with_ilock (held_by pid) (loaded sb d i)) c) [] ∅ d s ->
  write_ok c ip d i f addr n t ps -> 0 <= n <= write_max ->
  wp (writei pid me ip (UserSrc addr) (f_off (files c.2 f)) n) (fun r s' => exists u V i1 bs, reading me c.2 t ps u /\
    fs_at (env pid start d w 1) (with_user u (set_ctl ip i1 c)) bs ∅ V s' /\ (length bs < 30)%nat /\ 0 <= r <= n /\ (r = n \/ disk_full sb V) /\
    i_lock i1 = held_by pid /\ i_ref i1 = i_ref i /\ i_valid i1 = true /\ i_type i1 = i_type (loaded sb d i) /\ disk_ok sb V /\
    i_size i1 = Z.max (i_size (loaded sb d i)) (f_off (files c.2 f) + r) /\
    (forall n, n < start -> V n = d n) /\
    stored sb d (loaded sb d i) V i1 (splice (fbytes sb d i) (Z.to_nat (f_off (files c.2 f))) (take (Z.to_nat r) (ubytes (pm_mem (k_pm c.2)) t addr n)))) s.
Proof.
  intros Hs [K1 K2 K3 K4 K5 K6 K7 K8] Hn. pose proof (env_layout pid start sb d w 1 Hly) as Hl. destruct K2 as [N1 N2 N3 N4 N5 N6 N7].
  set (i0 := with_ilock (held_by pid) (loaded sb d i)) in *. set (off := f_off (files c.2 f)) in *. set (data := ubytes _ _ _ _).
  assert (Z.of_nat (length data) = n) as Ln by (unfold data; rewrite length_ubytes; lia).
  pose proof (loaded_same sb d i) as (_ & _ & Eref & _ & Eval). pose proof (blocks_chunk off n ltac:(lia) Hn) as Hb.
  rewrite <- Ln. eapply wp_mono.
  - apply (wp_writei (env pid start d w 1) sb me Hl (UserSrc addr) data (reading me c.2 t ps) (set_ctl ip i0 c) ip [] d i0 off).
    + apply user_src_gives; [done|done|lia|done].
    + by apply (reading_start me).
    + exact N1.
    + apply set_ctl_inode.
    + exact Hs.
    + done.
    + by apply ilock_rep.
    + done.
    + lia.
    + apply ubytes_bytes. apply K6.
    + rewrite Ln. cbn. unfold nbuf, NBUF, MAXOPBLOCKS. lia.
  - intros r s' (u & V & i1 & bs & Hu & H1 & Hlen & Hr & Hf & Hsize & Hc & HU). rewrite Ln in *. rewrite set_ctl_set in H1.
    destruct (up_fields _ _ _ _ _ HU) as (F1 & F2 & F3 & F4 & F5 & F6 & _). exists u, V, i1, bs. split_and!; try done.
    + cbn in Hlen. lia.
    + lia.
    + lia.
    + tauto.
    + rewrite F3. exact Eref.
    + rewrite F5. exact Eval.
    + apply (up_disk _ _ _ _ _ HU).
    + intros k Hk. apply (up_low _ _ _ _ _ HU). pose proof (ly_inodes _ _ Hl). pose proof LOGBLOCKS_pos. cbn in *. lia.
    + change (fbytes sb d i) with (fcontent d i0). rewrite <- Hc. apply ilock_updates in HU.
      assert (i1 = with_ilock (i_lock i1) (with_ilock (i_lock (loaded sb d i)) i1)) as E by by destruct i1.
      rewrite E at 1. apply stored_ilock. by apply (updates_stored pid start) in HU.
Qed.

(** The end of a transaction on an inode. *)
Lemma chunk_end c ip d i f addr n t ps w r u V i1 bs s Q : inode_at sb c ip d i -> disk_ok sb d -> log_empty start d -> f_ip (files c.2 f) = Some ip ->
  reading me (at_off f (f_off (files c.2 f) + r) c.2) t ps u -> fs_at (env pid start d w 1) (with_user u (set_ctl ip (with_ilock initsleeplock i1) c)) bs ∅ V s ->
  (length bs < 30)%nat -> 0 <= r <= n -> (r = n \/ disk_full sb V) -> i_ref i1 = i_ref i -> i_valid i1 = true -> i_type i1 = i_type (loaded sb d i) -> disk_ok sb V ->
  i_size i1 = Z.max (i_size (loaded sb d i)) (f_off (files c.2 f) + r) -> (forall n, n < start -> V n = d n) ->
  stored sb d (loaded sb d i) V i1 (splice (fbytes sb d i) (Z.to_nat (f_off (files c.2 f))) (take (Z.to_nat r) (ubytes (pm_mem (k_pm c.2)) t addr n))) ->
  (forall s', wrote_chunk c ip d i f addr n t ps w r s' -> Q tt s') -> wp (on_log (end_op pid)) Q s.
Proof.
  intros [N1 N2 N3 N4 N5 N6 N7] Hd He Hip Hu Hs Hb Hr Hf E1 E2 E3 HV Hsz Hlow Hst HQ. pose proof (env_layout pid start sb d w 1 Hly) as Hl.
  eapply (idle_end pid start); [exact Hs|exact He|unfold NBUF, MAXOPBLOCKS; lia|].
  intros s' d' ws Hi Ho Hok Hw Hsp Hc. apply HQ. exists u, (with_ilock initsleeplock i1), d', ws. cbv zeta.
  assert (same_fs sb d' V) as Hsame by by apply (outside_same (env pid start d w 1) sb Hl).
  assert (disk_ok sb d') as Hd' by (apply (same_disk (env pid start d w 1) sb Hl d' V); [done|apply Hok; [apply Hd|apply HV]|done]).
  assert (loaded sb d' (with_ilock initsleeplock i1) = with_ilock initsleeplock i1) as El by (apply loaded_valid; exact E2).
  pose proof (stored_ilock _ _ _ _ initsleeplock _ _ (stored_same pid start sb _ _ V d' _ _ Hly Hsame Hst)) as Hst'.
  split; [done|]. split; [destruct Hf as [|Hf]; [by left|right; by apply (same_full (env pid start d w 1) sb Hl d' V)]|].
  split; [exact Hi|]. split; [done|]. split.
  - split; [done|by rewrite with_user_inode, set_ctl_inode|by rewrite <- E1 in N3|by exists 0|rewrite El; by apply Hst'| |by rewrite El; cbn; rewrite E3].
    rewrite El, (st_inum _ _ _ _ _ _ Hst'). apply Hst'.
  - split; [done|]. split; [done|]. split; [done|]. split; [done|]. split; [done|]. split; [by apply Hsp|]. eapply crash_mono; [|exact Hc].
    intros x [Hx Hwx]. split; [|apply Hwx; [apply HV|apply Hd]].
    destruct Hx as [Hx|Hx]; apply (outside_same (env pid start d w 1) sb Hl) in Hx; [by left|right]. eapply same_fs_trans; [exact Hx|]. by apply same_sym.
Qed.

Lemma filewrite_step_spec c ip d i f addr n a0 t ps w s : idle_at pid start c d w s -> 0 <= a0 < n -> 0 <= addr ->
  write_ok c ip d i f (addr + a0) (chunk n a0) t ps ->
  wp (filewrite_step pid me (S fuel) f addr n a0) (fun v s' => exists r, wrote_chunk c ip d i f (addr + a0) (chunk n a0) t ps w r s' /\
    v = if r =? chunk n a0 then inl (a0 + r) else inr a0) s.
Proof.
  intros Hi Hi0 Ha HW. pose proof (env_layout pid start sb d w 1 Hly) as Hl. pose proof HW as [K1 K2 K3 K4 K5 K6 K7 K8]. pose proof K2 as [N1 N2 N3 [p N4] N5 N6 N7].
  pose proof (idle_empty pid start _ _ _ _ Hi) as He. unfold filewrite_step. rewrite (proj2 (Z.leb_gt n a0)) by lia.
  assert ((if write_max <? n - a0 then write_max else n - a0) = chunk n a0) as -> by (unfold chunk; destruct (Z.ltb_spec write_max (n - a0)); lia).
  assert (0 <= chunk n a0 <= write_max) as Hch by (unfold chunk; change write_max with 3072; lia). cbv zeta.
  pose proof (loaded_same sb d i) as (Ed & En & _). pose proof (ir_dev _ _ _ N5) as Hdev. pose proof (ir_inum _ _ _ N5) as Hin. rewrite Ed in Hdev. rewrite En in Hin.
  rewrite u64_small by (destruct K8; pose proof MAXVA_val; lia). pose proof (ir_size _ _ _ N5) as Hsz. pose proof max_bytes as HM.
  wp_step. unfold on_log at 1. eapply (idle_begin pid start); [exact Hi|]. intros s1 H1.
  eapply wp_kfile; [exact H1|]. rewrite K3. wp_step.
  eapply (wp_ilock (env pid start d w 1) sb Hl fuel); [exact N1|exact N2|done|done|done|exact N4|exact H1|unfold nbuf, NBUF, MAXOPBLOCKS; cbn; lia|done|]. intros s2 H2.
  cbn [with_ip]. eapply wp_kfile; [exact H2|]. wp_step. eapply wp_mono; [by apply (write_locked c ip d i f (addr + a0) (chunk n a0) t ps w)|].
  intros r s3 (u & V & i1 & bs & Hu & H3 & Hb & Hr & Hf & E1 & E2 & E3 & E4 & HV & Hs3 & Hlow & Hst). wp_step.
  eapply (wp_advance _ _ _ _ _ _ f c.2); [exact H3|exact Hu|lia|lia|lia|]. intros u2 s4 Hu2 H4. rewrite with_user_twice in H4.
  wp_step. change ((set_ctl _ _ _).2) with c.2. rewrite K3. eapply (wp_iunlock (env pid start d w 1)); [reflexivity|rewrite with_user_inode, set_ctl_inode, E2; lia|rewrite with_user_inode, set_ctl_inode; exact E1|exact H4|].
  intros s5 H5. rewrite with_user_inode, set_ctl_inode in H5.
  assert (fs_at (env pid start d w 1) (with_user u2 (set_ctl ip (with_ilock initsleeplock i1) c)) bs ∅ V s5) as H5' by (rewrite <- (set_ctl_set ip _ i1 c); exact H5).
  wp_step. eapply (chunk_end c ip d i f (addr + a0) (chunk n a0) t ps w r u2 V i1 bs); try done. intros s6 H6.
  destruct (r =? chunk n a0) eqn:Er; cbn [negb]; wp_step; exists r; by rewrite Er.
Qed.

(** ** The whole write *)

(** The state after [a] bytes; a crash so far keeps a number of bytes that
    is a multiple of the largest transaction, or all of them. *)
Definition kept d i (off : Z) (data : list Z) (a : Z) (x : Z -> list Z) : Prop := exists k j,
  0 <= k <= a /\ (k mod write_max = 0 \/ k = a) /\ disk_ok sb x /\
  stored sb d (loaded sb d i) x j (splice (fbytes sb d i) (Z.to_nat off) (take (Z.to_nat k) data)).

Definition wrote_upto c ip d i f (addr n : Z) t ps w (a : Z) (s : kernel) : Prop := exists u' i' d' ws,
  let c' := with_user u' (set_ctl ip i' c) in let off := f_off (files c.2 f) in let data := ubytes (pm_mem (k_pm c.2)) t addr n in
  idle_at pid start c' d' (w ++ ws) s /\ reading me (at_off f (off + a) c.2) t ps u' /\
  inode_at sb c' ip d' i' /\ (a = 0 \/ i_valid i' = true) /\ disk_ok sb d' /\ i_size (loaded sb d' i') = Z.max (i_size (loaded sb d i)) (off + a) /\
  stored sb d (loaded sb d i) d' (loaded sb d' i') (splice (fbytes sb d i) (Z.to_nat off) (take (Z.to_nat a) data)) /\
  d' = apply_writes d ws /\ spares start d ws /\ crash_safe start d ws (kept d i off data a).

Lemma upto_start c ip d i f addr n t ps w s : idle_at pid start c d w s -> write_ok c ip d i f addr n t ps -> wrote_upto c ip d i f addr n t ps w 0 s.
Proof.
  intros Hi [K1 K2 K3 K4 K5 K6 K7 K8]. pose proof K2 as [N1 N2 N3 N4 N5 N6 N7]. exists c.2, i, d, []. cbv zeta.
  rewrite <- N2, set_ctl_id, with_user_id, N2, app_nil_r, Z.add_0_r, at_off_same.
  assert (splice (fbytes sb d i) (Z.to_nat (f_off (files c.2 f))) (take (Z.to_nat 0) (ubytes (pm_mem (k_pm c.2)) t addr n)) = fcontent d (loaded sb d i)) as E.
  { unfold splice, fbytes. rewrite take_0. cbn [length app]. rewrite Nat.add_0_r. apply take_drop. }
  assert (stored sb d (loaded sb d i) d (loaded sb d i) (fcontent d (loaded sb d i))) as Hst.
  { apply stored_refl; [done|]. pose proof (loaded_same sb d i) as (_ & -> & _). done. }
  rewrite E. split; [done|]. split; [by apply (reading_start me)|]. split; [done|]. split; [by left|]. split; [done|]. split; [lia|]. split; [done|]. split; [done|]. split; [by apply Forall_nil_2|].
  destruct Hi as [_ Hi Hd _]. apply crash_none; [apply Hi|rewrite <- Hd; apply Hi|]. intros x Hx Hwx. exists 0, (loaded sb d i). split; [lia|]. split; [by left|].
  pose proof (env_layout pid start sb d w 0 Hly) as Hl. apply (outside_same (env pid start d w 0) sb Hl) in Hx.
  rewrite E. split; [by apply (same_disk (env pid start d w 0) sb Hl x d); [|apply Hwx, K1|]|]. by eapply (stored_same pid start).
Qed.

(** The next transaction can start, and it writes the next bytes. *)
Lemma upto_next c ip d i f addr n t ps w a s : write_ok c ip d i f addr n t ps -> 0 <= a < n -> wrote_upto c ip d i f addr n t ps w a s ->
  exists u' i' d' ws t' ps', let c' := with_user u' (set_ctl ip i' c) in
    idle_at pid start c' d' (w ++ ws) s /\ write_ok c' ip d' i' f (addr + a) (chunk n a) t' ps' /\
    f_off (files u' f) = f_off (files c.2 f) + a /\
    (forall k, 0 <= k <= chunk n a -> take (Z.to_nat k) (ubytes (pm_mem (k_pm u')) t' (addr + a) (chunk n a)) =
       take (Z.to_nat k) (drop (Z.to_nat a) (ubytes (pm_mem (k_pm c.2)) t addr n))) /\
    (forall k u2, reading me (at_off f (f_off (files c.2 f) + a + k) u') t' ps' u2 -> reading me (at_off f (f_off (files c.2 f) + (a + k)) c.2) t ps u2) /\
    (a = 0 \/ i_valid i' = true) /\ i_size (loaded sb d' i') = Z.max (i_size (loaded sb d i)) (f_off (files c.2 f) + a) /\
    stored sb d (loaded sb d i) d' (loaded sb d' i') (splice (fbytes sb d i) (Z.to_nat (f_off (files c.2 f))) (take (Z.to_nat a) (ubytes (pm_mem (k_pm c.2)) t addr n))) /\
    d' = apply_writes d ws /\ spares start d ws /\ crash_safe start d ws (kept d i (f_off (files c.2 f)) (ubytes (pm_mem (k_pm c.2)) t addr n) a).
Proof.
  intros [K1 K2 K3 K4 K5 K6 K7 K8] Ha (u' & i' & d' & ws & X). cbv zeta in X. destruct X as (Hi & Hu & Hn & Hv & Hd & Hsz & Hst & Hw & Hsp & Hc).
  assert (0 <= chunk n a <= n - a) as Hch by (unfold chunk; change write_max with 3072; lia).
  destruct (reading_buf me _ t ps u' Hu) as (t' & ps' & Has & Hbuf & Hext). pose proof Hu as [Eu _]. set (off := f_off (files c.2 f)) in *.
  destruct (Hbuf addr n K7 K8) as [Hm Hub]. cbn in Hub. assert (files u' f = with_f_off (off + a) (files c.2 f)) as Ef by (rewrite (reading_files _ _ _ _ f Hu); apply at_off_file).
  exists u', i', d', ws, t', ps'. cbv zeta. split; [done|]. split; [|split; [|split; [|split; [|split_and!; done]]]].
  - split; try done.
    + change ((with_user u' (set_ctl ip i' c)).2) with u'. rewrite Ef. done.
    + change ((with_user u' (set_ctl ip i' c)).2) with u'. rewrite Ef. cbn. lia.
    + change ((with_user u' (set_ctl ip i' c)).2) with u'. rewrite Ef. cbn. lia.
    + change ((with_user u' (set_ctl ip i' c)).2) with u'. split; [|done]. destruct K6 as [K6 _]. by rewrite Eu.
    + lia.
    + apply (mapped_part _ _ addr n); try lia; done.
  - by rewrite Ef.
  - intros k Hk. rewrite (ubytes_part _ _ addr n) by lia. rewrite Hub, take_take. f_equal. lia.
  - intros k u2 [E2 (t2 & ps2 & H2)]. split.
    + transitivity (set_k_pm (k_pm u2) (at_off f (off + a + k) u')); [exact E2|]. rewrite Eu, Z.add_assoc.
      by rewrite <- (at_off_twice f (off + a + k) (off + a) c.2).
    + exists t2, ps2. by apply Hext.
Qed.

Lemma splice_splice {A} (l k1 k2 : list A) o : (o <= length l)%nat -> splice (splice l o k1) (o + length k1) k2 = splice l o (k1 ++ k2).
Proof.
  intros Ho. unfold splice. rewrite length_app.
  assert (length (take o l) = o) as Lt by (rewrite length_take; lia). rewrite (app_assoc (take o l)), take_app_length' by (rewrite length_app; lia).
  rewrite <- !app_assoc. do 3 f_equal.
  rewrite (app_assoc (take o l)), drop_app_ge by (rewrite length_app; lia). rewrite length_app, Lt, drop_drop. f_equal. lia.
Qed.

Lemma splice_piece {A} (l k : list A) o : (o <= length l)%nat -> take (length k) (drop o (splice l o k)) = k.
Proof.
  intros Ho. unfold splice. assert (length (take o l) = o) as Lt by (rewrite length_take; lia).
  rewrite drop_app_ge, Lt, Nat.sub_diag, drop_0 by lia. by rewrite take_app_length.
Qed.

Lemma upto_step c ip d i f addr n t ps w a s : write_ok c ip d i f addr n t ps -> 0 <= a < n -> a mod write_max = 0 -> 0 <= addr ->
  wrote_upto c ip d i f addr n t ps w a s ->
  wp (filewrite_step pid me (S fuel) f addr n a) (fun v s' => exists r, 0 <= r <= chunk n a /\ wrote_upto c ip d i f addr n t ps w (a + r) s' /\
    (r = chunk n a /\ v = inl (a + r) \/ r < chunk n a /\ v = inr a /\ disk_full sb (disk (lbio (fs_log s'))))) s.
Proof.
  intros HW Ha Hma Hadr Hs. destruct (upto_next c ip d i f addr n t ps w a s HW Ha Hs) as (u1 & i1 & d1 & ws1 & t1 & ps1 & X).
  cbv zeta in X. destruct X as (Hi & HW1 & Eoff & Hdata & Hrd & Hv & Hsz & Hst & Hw & Hsp & Hc).
  set (c1 := with_user u1 (set_ctl ip i1 c)) in *. pose proof HW as [_ _ _ K4 _ _ _ _].
  eapply wp_mono; [by apply (filewrite_step_spec c1 ip d1 i1 f addr n a t1 ps1 (w ++ ws1))|].
  intros v s' (r & (u2 & i2 & d2 & ws2 & X) & Hvr). cbv zeta in X. change c1.2 with u1 in X. rewrite Eoff in X.
  destruct X as (Hr & Hfull & Hi2 & Hu2 & Hn2 & Hv2 & Hd2 & Hsz2 & Hst2 & Hw2 & Hsp2 & Hc2). exists r. split; [done|].
  set (off := f_off (files c.2 f)) in *. set (data := ubytes (pm_mem (k_pm c.2)) t addr n) in *. rewrite Hdata in Hst2 by done.
  assert (with_user u2 (set_ctl ip i2 c1) = with_user u2 (set_ctl ip i2 c)) as Ec by (unfold c1; rewrite <- (set_ctl_set ip i2 i1 c); done). rewrite Ec in *.
  assert (loaded sb d2 i2 = i2) as El by by apply loaded_valid.
  assert (stored sb d (loaded sb d i) d2 i2 (splice (fbytes sb d i) (Z.to_nat off) (take (Z.to_nat (a + r)) data))) as Hst3.
  { pose proof (stored_trans _ _ _ _ _ _ _ _ _ Hst Hst2) as H3. unfold fbytes at 1 in H3. rewrite (st_content _ _ _ _ _ _ Hst) in H3.
    assert (length (take (Z.to_nat a) data) = Z.to_nat a) as La by (rewrite length_take; unfold data; rewrite length_ubytes; lia).
    replace (Z.to_nat (off + a)) with (Z.to_nat off + length (take (Z.to_nat a) data))%nat in H3 by lia. rewrite splice_splice in H3.
    - rewrite take_take_drop in H3. by replace (Z.to_nat a + Z.to_nat r)%nat with (Z.to_nat (a + r)) in H3 by lia.
    - unfold fbytes, fcontent. rewrite length_frange. lia. }
  assert (kept d i off data (a + r) d1) as Kd1 by (exists a, (loaded sb d1 i1); split; [lia|split; [by left|split; [apply HW1|done]]]).
  assert (kept d i off data (a + r) d2) as Kd2 by (exists (a + r), i2; split; [lia|split; [by right|done]]).
  assert (forall x y, same_fs sb y x -> (forall n, block_ok (y n)) -> kept d i off data (a + r) x -> kept d i off data (a + r) y) as Ks.
  { intros x y Hxy Hy (k & j & Hk & Hk' & Hx & Hj). exists k, j. split; [done|]. split; [done|]. split; [|by eapply (stored_same pid start)].
    by apply (same_disk (env pid start d w 0) sb (env_layout pid start sb d w 0 Hly) y x). }
  split.
  - exists u2, i2, d2, (ws1 ++ ws2). cbv zeta. rewrite app_assoc, El. split; [done|]. split; [by apply Hrd|]. split; [done|]. split; [by right|]. split; [done|].
    split; [lia|]. split; [done|]. split; [by rewrite apply_writes_app, <- Hw|]. split; [by apply spares_app; [|rewrite <- Hw]|]. apply crash_app.
    + eapply crash_mono; [|exact Hc]. intros x (k & j & Hk & Hk' & Hx & Hj). exists k, j. split; [lia|]. split; [|by split]. destruct Hk' as [Hk'|Hk']; [by left|left; by rewrite Hk'].
    + rewrite <- Hw. eapply crash_mono; [|exact Hc2]. intros x [[Hx|Hx] Hwx]; by eapply Ks.
  - destruct (Z.eqb_spec r (chunk n a)); [by left|right]. split; [lia|]. split; [done|]. destruct Hfull; [done|]. by destruct Hi2 as [_ _ -> _].
Qed.

Lemma chunk_all n a : 0 <= a < n -> a mod write_max = 0 -> (a + chunk n a) mod write_max = 0 \/ a + chunk n a = n.
Proof.
  intros Ha Hm. unfold chunk. destruct (Z.leb_spec write_max (n - a)).
  - left. rewrite Z.min_l by done. rewrite <- Zplus_mod_idemp_l, Hm. done.
  - right. lia.
Qed.
Lemma filewrite_loop c ip d i f addr n t ps w s : idle_at pid start c d w s -> write_ok c ip d i f addr n t ps -> 0 <= n ->
  wp (loop (S (Z.to_nat n)) (filewrite_step pid me (S fuel) f addr n) 0) (fun v s' => exists r, wrote_upto c ip d i f addr n t ps w r s' /\
    (v = n /\ r = n \/ 0 <= v <= r /\ r < n /\ disk_full sb (disk (lbio (fs_log s'))))) s.
Proof.
  intros Hi HW Hn. apply (wp_loop (fun a s' => 0 <= a <= n /\ (a mod write_max = 0 \/ a = n) /\ wrote_upto c ip d i f addr n t ps w a s') (fun a _ => Z.to_nat (n - a))).
  - intros a s1 (Ha & Hm & Hs). destruct (decide (n <= a)) as [Hle|Hlt].
    { unfold filewrite_step. rewrite (proj2 (Z.leb_le n a)) by done. wp_step. exists a. assert (a = n) as -> by lia. split; [done|by left]. }
    assert (a mod write_max = 0) as Hm' by (destruct Hm; [done|lia]). eapply wp_mono; [by apply (upto_step c ip d i f addr n t ps w a); try done; try lia; apply HW|].
    assert (0 < chunk n a <= n - a) as Hch by (unfold chunk; change write_max with 3072; lia).
    intros v s2 (r & Hr & Hs2 & [[-> ->]|(Hlt2 & -> & Hf)]).
    + split; [|lia]. split; [lia|]. split; [by apply chunk_all; [lia|]|done].
    + exists (a + r). split; [done|]. right. split; [lia|]. split; [lia|done].
  - split; [lia|]. split; [by left|]. by apply upto_start.
  - lia.
Qed.

(** ** fileread *)

Record read_ok c ip d i f (addr n : Z) t ps : Prop := {
  ro_disk : disk_ok sb d;
  ro_inode : inode_at sb c ip d i;
  ro_file : f_ip (files c.2 f) = Some ip;
  ro_off : 0 <= f_off (files c.2 f) <= i_size (loaded sb d i);
  ro_space : uspace me c.2 t ps;
  ro_addr : 0 <= addr;
  ro_buf : takes (pm_mem (k_pm c.2)) t addr (Z.min n (i_size (loaded sb d i) - f_off (files c.2 f)));
}.

Lemma filled_files u0 t ps va acc u f : filled me u0 t ps va acc u -> files u f = files u0 f.
Proof. by intros [-> _]. Qed.
Lemma filled_off u0 t ps va acc u f off : filled me u0 t ps va acc u -> filled me (at_off f off u0) t ps va acc (at_off f off u).
Proof. intros [E Hx]. split; [by rewrite E|exact Hx]. Qed.

Lemma idle_inode c ip d i : inode_at sb c ip d i -> inode_at sb (set_ctl ip (with_ilock initsleeplock (loaded sb d i)) c) ip d (with_ilock initsleeplock (loaded sb d i)).
Proof.
  intros [N1 N2 N3 N4 N5 N6 N7]. pose proof (loaded_same sb d i) as (_ & E2 & E3 & _ & E5).
  assert (loaded sb d (with_ilock initsleeplock (loaded sb d i)) = with_ilock initsleeplock (loaded sb d i)) as El by by apply loaded_valid.
  split; [done|by rewrite set_ctl_inode|cbn; by rewrite E3|by exists 0|rewrite El; by apply ilock_rep| |by rewrite El].
  rewrite El. cbn [i_inum with_ilock]. rewrite E2. exact N6.
Qed.

Lemma fileread_spec c ip d i f addr n t ps w s : idle_at pid start c d w s -> read_ok c ip d i f addr n t ps -> 0 <= n < 2 ^ 31 ->
  f_type (files c.2 f) = FD_INODE -> f_readable (files c.2 f) = true ->
  let off := f_off (files c.2 f) in let k := Z.min n (i_size (loaded sb d i) - off) in
  wp (fileread pid me (S fuel) f addr n) (fun v s' => v = k /\ exists u, let i' := with_ilock initsleeplock (loaded sb d i) in
    idle_at pid start (with_user u (set_ctl ip i' c)) d w s' /\ inode_at sb (with_user u (set_ctl ip i' c)) ip d i' /\
    filled me (at_off f (off + k) c.2) t ps addr (take (Z.to_nat k) (drop (Z.to_nat off) (fbytes sb d i))) u) s.
Proof.
  intros Hi [K1 K2 K3 K4 K5 K6 K7] Hn Hty Hrd off k. pose proof K2 as [N1 N2 N3 [p N4] N5 N6 N7]. pose proof (env_layout pid start sb d w 0 Hly) as Hl.
  pose proof (idle_empty pid start _ _ _ _ Hi) as He. pose proof (idle_read pid start _ _ _ _ Hi) as Hs0. pose proof (ir_size _ _ _ N5) as Hsz. pose proof max_bytes as HM.
  pose proof (loaded_same sb d i) as (Ed & En & Er & _). pose proof (ir_dev _ _ _ N5) as Hdev. pose proof (ir_inum _ _ _ N5) as Hin. rewrite Ed in Hdev. rewrite En in Hin.
  unfold fileread. eapply wp_kfile; [exact Hs0|]. rewrite Hrd, Hty, K3. cbn [negb with_ip]. wp_step.
  eapply (wp_ilock (env pid start d w 0) sb Hl fuel); [exact N1|exact N2|done|done|done|exact N4|exact Hs0|unfold nbuf, NBUF, MAXOPBLOCKS; cbn; lia|done|]. intros s2 H2.
  eapply wp_kfile; [exact H2|]. change ((set_ctl _ _ _).2) with c.2. rewrite u32_small by lia. wp_step.
  set (i1 := with_ilock (held_by pid) (loaded sb d i)).
  eapply (wp_readi (env pid start d w 0) sb me Hl (UserDst addr) (filled me c.2 t ps addr) (set_ctl ip i1 c) ip [] d i1);
    [by apply user_dst_takes|by apply (filled_start me)|apply set_ctl_inode|done|by apply ilock_rep|unfold nbuf, NBUF, MAXOPBLOCKS; cbn; lia|exact H2|exact K4|lia|lia|].
  intros u s3 H3. cbv zeta. change (Z.min n (i_size i1 - f_off (files c.2 f))) with k. change ((set_ctl _ _ _).2) with c.2. intros Hu. cbn [fst].
  assert (frange d i1 off k = take (Z.to_nat k) (drop (Z.to_nat off) (fbytes sb d i))) as Ef.
  { rewrite frange_content; [done|lia|lia|]. change (i_size i1) with (i_size (loaded sb d i)). lia. }
  change (f_off (files c.2 f)) with off in Hu. rewrite Ef in Hu. wp_step.
  assert (wp (when (0 <? k) (set_kfile f (fun x => with_f_off (u32 (f_off x + k)) x))) (fun _ s' => exists u, filled me (at_off f (off + k) c.2) t ps addr (take (Z.to_nat k) (drop (Z.to_nat off) (fbytes sb d i))) u /\
    fs_at (env pid start d w 0) (with_user u (set_ctl ip i1 c)) [] ∅ d s') s3) as Hadv.
  { apply wp_when; intros E.
    - unfold set_kfile. eapply wp_on_kw; [exact H3|]. intros s' Hs'. exists (at_off f (off + k) u). split; [by apply filled_off|].
      change ((with_user u _).2) with u in Hs'. unfold at_off, on_file in *. rewrite (filled_files _ _ _ _ _ _ f Hu) in *. rewrite u32_small in Hs' by lia. exact Hs'.
    - exists u. pose proof (at_off_same f c.2) as Ea. change (f_off (files c.2 f)) with off in Ea. replace (off + k) with off by lia. by rewrite Ea. }
  eapply wp_mono; [exact Hadv|]. intros [] s4 (u2 & Hu2 & H4). wp_step. rewrite K3.
  eapply (wp_iunlock (env pid start d w 0) (with_user u2 (set_ctl ip i1 c))); [reflexivity|rewrite with_user_inode, set_ctl_inode; change (i_ref i1) with (i_ref (loaded sb d i)); lia|by rewrite with_user_inode, set_ctl_inode|exact H4|].
  intros s5 H5. rewrite with_user_inode, set_ctl_inode in H5. wp_step. split; [done|]. exists u2. cbv zeta.
  split; [|split; [|done]].
  - apply (read_idle pid start _ _ _ d); [|done]. rewrite <- (set_ctl_set ip _ i1 c). exact H5.
  - destruct (idle_inode c ip d i K2) as [M1 M2 M3 M4 M5 M6 M7]. by split.
Qed.
Lemma filewrite_spec c ip d i f addr n t ps w s : idle_at pid start c d w s -> write_ok c ip d i f addr n t ps -> 0 <= n ->
  f_type (files c.2 f) = FD_INODE -> f_writable (files c.2 f) = true ->
  wp (filewrite pid me (S fuel) f addr n) (fun v s' => exists r, wrote_upto c ip d i f addr n t ps w r s' /\
    (v = n /\ r = n \/ v = -1 /\ 0 <= r < n /\ disk_full sb (disk (lbio (fs_log s'))))) s.
Proof.
  intros Hi HW Hn Hty Hwr. unfold filewrite. eapply (wp_kfile (env pid start d w 0)); [by apply (idle_read pid start)|].
  rewrite Hwr, Hty. cbn [negb]. wp_step. eapply wp_mono; [by apply (filewrite_loop c ip d i f addr n t ps w)|].
  intros v s' (r & Hs & Hv). wp_step. exists r. split; [done|]. destruct Hv as [[-> ->]|(Hv & Hr & Hf)].
  - left. by rewrite Z.eqb_refl.
  - right. rewrite (proj2 (Z.eqb_neq v n)) by lia. split; [done|]. split; [lia|done].
Qed.
End FileIO.

(** C2: A write to a file is one atomic step per transaction.  For an open
    file whose offset lies in the file and a mapped user buffer of [n] bytes,
    filewrite overwrites or extends the contents of the file at the offset
    with the bytes of the buffer and moves the offset by as many; it returns
    [n], or -1 after a part of them when the disk is full.  Memory of the
    user, other inodes and files that share no block with it are unchanged,
    and the inode can be used again.  When the machine stops after any of the
    disk writes, recovery gives a disk where the file has the old contents
    overwritten by a prefix of the data, everything or a multiple of the
    largest transaction: a write of at most [write_max] bytes happens
    entirely or not at all. *)
Theorem filewrite_atomic `{LinkerOk} pid start sb me fuel c ip d i f addr n t ps w s : fslayout pid start sb ->
  idle_at pid start c d w s -> write_ok sb me c ip d i f addr n t ps -> 0 <= n -> f_type (files c.2 f) = FD_INODE -> f_writable (files c.2 f) = true ->
  let off := f_off (files c.2 f) in let data := ubytes (pm_mem (k_pm c.2)) t addr n in
  wp (filewrite pid me (S fuel) f addr n) (fun v s' => exists r u' i' d' ws,
    (v = n /\ r = n \/ v = -1 /\ 0 <= r < n /\ disk_full sb d') /\
    idle_at pid start (with_user u' (set_ctl ip i' c)) d' (w ++ ws) s' /\
    reading me (at_off f (off + r) c.2) t ps u' /\
    inode_at sb (with_user u' (set_ctl ip i' c)) ip d' i' /\
    stored sb d (loaded sb d i) d' (loaded sb d' i') (splice (fbytes sb d i) (Z.to_nat off) (take (Z.to_nat r) data)) /\
    d' = apply_writes d ws /\ crash_safe start d ws (kept sb d i off data r)) s.
Proof.
  intros Hly Hi HW Hn Hty Hwr off data. eapply wp_mono; [by apply (filewrite_spec pid start sb me fuel Hly c ip d i f addr n t ps w)|].
  intros v s' (r & (u' & i' & d' & ws & X) & Hv). cbv zeta in X. destruct X as (Hi' & Hu & Hn' & _ & _ & _ & Hst & Hws & _ & Hc).
  exists r, u', i', d', ws. destruct Hi' as [H1 H2 H3 H4]. by rewrite H3 in Hv.
Qed.

(** Between operations no process holds anything in the cache. *)
Lemma idle_pid {W} pid pid' start (c : control W) d w s : idle_at pid start c d w s -> idle_at pid' start c d w s.
Proof.
  intros [Hc [L O K Hh [] Hd Hl] Hdk Hw]. split; [done| |done|done]. by split.
Qed.

Lemma layout_pid pid pid' start sb : fslayout pid start sb -> fslayout pid' start sb.
Proof. intros []. by split. Qed.

(** The reader's address space after the writer's system call: the one the
    call left, or another that the call did not touch. *)
Definition other_space (me me' : nat) (u : kw) (t t' : gmap (list Z) Z) : Prop :=
  me' = me /\ t' = t \/ spaces_apart (pm_mem (k_pm u)) t t'.

Lemma reader_space `{LinkerOk} (me me' : nat) u t t' ps u1 addr n : uspace me u t ps -> uspace me' u t' ps ->
  other_space me me' u t t' -> reading me u t ps u1 -> 0 <= addr -> takes (pm_mem (k_pm u)) t' addr n ->
  exists t1 ps1, uspace me' u1 t1 ps1 /\ takes (pm_mem (k_pm u1)) t1 addr n.
Proof.
  intros [_ Ha] [Hsz' Ha'] Hoth [Eu (t1 & ps1 & Hl)] Had Ht.
  assert (uroot me' u1 = uroot me' u /\ p_size (procs (k_pt u1) me') = p_size (procs (k_pt u) me')) as [Er Es] by (by rewrite Eu).
  unfold uspace. rewrite Er, Es. destruct Hoth as [[-> ->]|Hap].
  - exists t1, ps1. split; [split; [done|apply (lz_as _ _ _ _ _ _ _ Hl)]|by eapply lazy_takes].
  - destruct (lazy_other _ _ _ _ _ _ _ _ _ Ha Hl Ha' Hap) as (H1 & H2 & _). exists t', ps1. split; [by split|].
    destruct Ht as [Hm Ht]. split; [done|]. intros x Hx. rewrite (user_pa_ptev _ _ _ _ _ (H2 x)), H2. by apply Ht.
Qed.

(** C4: What is written is what is read.  A process writes [n] bytes through
    one open file: filewrite returns [n] or -1.  When it returned [n], a read
    of as many bytes through another open file of the same inode at the same
    offset, by the same process or by another one whose address space shares
    no page with the writer's page tables, returns [n] and leaves in the
    reader's buffer, in the reader's own address space, the bytes the
    writer's buffer had, across page and block boundaries, whatever blocks
    were allocated. *)
Theorem file_roundtrip `{LinkerOk} pid pid' start sb me me' fuel c ip d i f g addr addr' n t t' ps w s : fslayout pid start sb ->
  idle_at pid start c d w s -> write_ok sb me c ip d i f addr n t ps -> 0 <= n < 2 ^ 31 -> f_type (files c.2 f) = FD_INODE -> f_writable (files c.2 f) = true ->
  g <> f -> f_type (files c.2 g) = FD_INODE -> f_readable (files c.2 g) = true -> f_ip (files c.2 g) = Some ip -> f_off (files c.2 g) = f_off (files c.2 f) ->
  uspace me' c.2 t' ps -> other_space me me' c.2 t t' -> 0 <= addr' -> takes (pm_mem (k_pm c.2)) t' addr' n ->
  wp (let* v := filewrite pid me (S fuel) f addr n in let* r := fileread pid' me' (S fuel) g addr' n in ret (v, r)) (fun x s' =>
    (x.1 = n \/ x.1 = -1) /\ (x.1 = n -> x.2 = n /\ exists t2 ps2, aspace (uroot me' (fs_user s')) t2 ps2 (k_pm (fs_user s')) /\
      forall k, 0 <= k < n -> vmem (pm_mem (k_pm (fs_user s'))) t2 (addr' + k) = vmem (pm_mem (k_pm c.2)) t (addr + k))) s.
Proof.
  intros Hly Hi HW Hn Hty Hwr Hg Gty Grd Gip Goff Hsp Hoth Ha' Hto. pose proof HW as [_ _ _ K4 _ K6 _ _]. wp_step.
  eapply wp_mono; [apply (filewrite_spec pid start sb me fuel Hly c ip d i f addr n t ps w); (done || lia)|].
  intros v s' (r & (u' & i' & d' & ws & X) & Hv). cbv zeta in X. destruct X as (Hi' & Hrd & Hn' & _ & Hd' & Hsz & Hst & _). wp_step.
  pose proof Hrd as [Eu _]. apply (idle_pid pid pid') in Hi'.
  set (off := f_off (files c.2 f)) in *. assert (files u' g = files c.2 g) as Eg by (rewrite Eu; unfold at_off, on_file; cbn; by rewrite upd_ne).
  assert (0 <= r <= n) as Hr by lia. set (c1 := with_user u' (set_ctl ip i' c)) in *.
  destruct (reader_space me me' (at_off f (off + r) c.2) t t' ps u' addr' n K6 Hsp Hoth Hrd Ha' Hto) as (t1 & ps1 & Hsp1 & Hto').
  eapply wp_mono; [apply (fileread_spec pid' start sb me' fuel (layout_pid _ _ _ _ Hly) c1 ip d' i' g addr' n t1 ps1 (w ++ ws)); [exact Hi'| |done|by change c1.2 with u'; rewrite Eg|by change c1.2 with u'; rewrite Eg]|].
  - split; try done; change c1.2 with u'; rewrite ?Eg, ?Goff; [done|lia|].
    destruct Hto' as [Hmax Hm]. split; [lia|]. intros x Hx. apply Hm. lia.
  - cbv zeta. change c1.2 with u'. rewrite Eg, Goff, Hsz. intros k s2 (-> & u2 & Hi2 & _ & [Eu2 (t2 & ps2 & Hw2)]). wp_step. cbn [fst snd].
    split; [lia|]. intros ->. assert (r = n) as -> by lia. split; [lia|]. rewrite Z.min_l in Hw2 by lia. unfold fbytes in Hw2. rewrite (st_content _ _ _ _ _ _ Hst) in Hw2.
    set (data := ubytes (pm_mem (k_pm c.2)) t addr n) in *. assert (length data = Z.to_nat n) as Ld by apply length_ubytes.
    rewrite (take_ge data) in Hw2 by lia. rewrite <- Ld, splice_piece in Hw2 by (unfold fbytes, fcontent; rewrite length_frange; lia).
    assert (fs_user s2 = u2) as -> by (destruct Hi2 as [E _ _ _]; exact (f_equal snd E)). exists t2, ps2.
    assert (uroot me' u2 = uroot me' u') as -> by by rewrite Eu2. split; [apply (wr_as _ _ _ _ _ _ _ _ _ _ Hw2)|]. intros k Hk.
    destruct Hto as [Hmax _]. rewrite (wr_vmem _ _ _ _ _ _ _ _ _ _ Hw2) by lia. rewrite decide_True by lia. unfold data. rewrite nth_ubytes by lia. f_equal. lia.
Qed.

(** ** A small machine *)

Module SmallMachine.
Import ToyImage PageTableWitness OnePage.

(** A process with the page at 0; file 0 is open for writing, file 1 for
    reading. *)
Definition file_at0 (r wr : bool) : file := mkFile FD_INODE 1 r wr 0 (Some 0%nat) 0 0.
Definition kw1 : kw :=
  set_files (upd (upd (fun _ => FileWitness.file0) 0%nat (file_at0 false true)) 1%nat (file_at0 true false))
    (set_k_pm s2 (set_k_pt (set_procs (fun _ => ProcTable.with_size 4096 (with_pgtbl (P 0) blank)) FileWitness.pt0) FileWitness.kw0)).
Definition k1 : kernel := mkFs log1 sb1 false (fun _ => empty_file) kw1.

Lemma idle1 pid : idle_at pid 2 (ctl k1) disk1 [] k1.
Proof. destruct (bio1_rep pid) as (H1 & H2 & H3). split; [done|apply log1_idle|done|done]. Qed.
Lemma inode1 : inode_at sb1 (ctl k1) 0 disk1 empty_file.
Proof.
  split; try done; [by exists 0|exact file1_rep].
Qed.
Lemma uspace1 : uspace 0 kw1 parent free2.
Proof. split; [vm_compute; discriminate|exact space2]. Qed.
Lemma takes1 va n : 0 <= va -> 0 <= n -> va + n <= 4096 -> takes m2 parent va n.
Proof.
  intros Hva Hn Hm. split; [rewrite MAXVA_val; lia|]. intros x Hx. rewrite user_pa2, ptev2 by (rewrite MAXVA_val; lia). rewrite Z.div_small by lia. vm_compute. split; congruence.
Qed.
Lemma write1 n : 0 <= n <= 4096 -> write_ok sb1 0 (ctl k1) 0 disk1 empty_file 0 0 n parent free2.
Proof.
  intros Hn. split; [exact disk1_ok|exact inode1|done|vm_compute; split; congruence|change (f_off (files (ctl k1).2 0%nat)) with 0; rewrite max_bytes; lia|exact uspace1|done|].
  destruct (takes1 0 n ltac:(lia) ltac:(lia) ltac:(lia)) as [Hm Ht]. split; [done|]. intros x Hx. apply Ht. lia.
Qed.

(** Process 1 writes the first five bytes of its memory. *)
Lemma filewrite_atomic_witness :
  let off := f_off (files (ctl k1).2 0%nat) in let data := ubytes (pm_mem (k_pm (ctl k1).2)) parent 0 5 in
  wp (filewrite 1 0 1 0 0 5) (fun v s' => exists r u' i' d' ws,
    (v = 5 /\ r = 5 \/ v = -1 /\ 0 <= r < 5 /\ disk_full sb1 d') /\
    idle_at 1 2 (with_user u' (set_ctl 0 i' (ctl k1))) d' ([] ++ ws) s' /\
    reading 0 (at_off 0 (off + r) (ctl k1).2) parent free2 u' /\
    inode_at sb1 (with_user u' (set_ctl 0 i' (ctl k1))) 0 d' i' /\
    stored sb1 disk1 (loaded sb1 disk1 empty_file) d' (loaded sb1 d' i') (splice (fbytes sb1 disk1 empty_file) (Z.to_nat off) (take (Z.to_nat r) data)) /\
    d' = apply_writes disk1 ws /\ crash_safe 2 disk1 ws (kept sb1 disk1 empty_file off data r)) k1.
Proof.
  apply (filewrite_atomic 1 2 sb1 0 0 (ctl k1) 0 disk1 empty_file 0 0 5 parent free2 [] k1);
    [apply layout1|apply idle1|apply write1; lia|lia|reflexivity|reflexivity].
Defined.
End SmallMachine.

(** Two processes with a page each: tables 0, 1, 2 and page 3 are those of
    process 0, tables 4, 5, 6 and page 7 those of process 1.  Both open files
    are on the one inode. *)
Module TwoProcesses.
Import ToyImage PageTableWitness SmallMachine.

Definition user_pte (i : Z) : Z := Z.lor (PA2PTE (P i)) (Z.lor PTE_V (Z.lor PTE_R (Z.lor PTE_W PTE_U))).
Definition tables (b : Z) : list (Z * Z) :=
  [(P b, Z.lor (PA2PTE (P (b + 1))) PTE_V); (P (b + 1), Z.lor (PA2PTE (P (b + 2))) PTE_V); (P (b + 2), user_pte (b + 3))].
Definition words : list (Z * Z) := (P 3, 478560413032) :: tables 0 ++ tables 4.
Definition m4 : mem := fold_left (fun m w => store64 m w.1 w.2) words (fun _ => 0).
Definition s4 : pm := mkPm m4 false 0.
Definition tree (b : Z) : gmap (list Z) Z := {[ [] := P b; [0] := P (b + 1); [0; 0] := P (b + 2) ]}.

Lemma m4_ok : mem_ok m4.
Proof. unfold m4, words. cbn [fold_left fst snd app tables]. do 7 apply store_ok. intros a. unfold byte_ok. lia. Qed.
Lemma m4_words : Forall (fun w => load64 m4 w.1 = w.2) words.
Proof. unfold words. cbn [app tables]. repeat constructor; vm_compute; reflexivity. Qed.
Lemma m4_entry k i : 0 <= k < 8 -> 0 < i < 512 -> load64 m4 (P k + 8 * i) = 0.
Proof.
  intros Hk Hi. apply load64_zero. intros j Hj. unfold m4, words. cbn [fold_left fst snd app tables]. unfold store, P, PHYSTOP, KERNBASE, PGSIZE.
  rewrite !mwrite_out by (rewrite length_le_enc; lia). done.
Qed.
Lemma P_inj i j : P i = P j -> i = j.
Proof. unfold P, PGSIZE. lia. Qed.

Section OneTree.
Context (b : Z) (Hb : b = 0 \/ b = 4).

Lemma tree_inv p a : tree b !! p = Some a -> (p = [] /\ a = P b) \/ (p = [0] /\ a = P (b + 1)) \/ (p = [0; 0] /\ a = P (b + 2)).
Proof.
  intros Hp. unfold tree in Hp. apply lookup_insert_Some in Hp as [[<- <-]|[_ Hp]]; [by left|].
  apply lookup_insert_Some in Hp as [[<- <-]|[_ Hp]]; [by right; left|]. apply lookup_singleton_Some in Hp as [<- <-]. by right; right.
Qed.
Lemma tree_root : tree b !! [] = Some (P b).
Proof. done. Qed.
Lemma tree_words : load64 m4 (P b) = Z.lor (PA2PTE (P (b + 1))) PTE_V /\ load64 m4 (P (b + 1)) = Z.lor (PA2PTE (P (b + 2))) PTE_V /\
  load64 m4 (P (b + 2)) = user_pte (b + 3).
Proof.
  pose proof m4_words as Hw. unfold words in Hw. apply Forall_cons in Hw as [_ Hw]. apply Forall_app in Hw as [H0 H4].
  assert (Forall (fun w => load64 m4 w.1 = w.2) (tables b)) as Ht by (destruct Hb as [-> | ->]; done).
  unfold tables in Ht. apply Forall_cons in Ht as [E0 Ht]. apply Forall_cons in Ht as [E1 Ht]. apply Forall_cons in Ht as [E2 _]. done.
Qed.

Lemma tree_rep : pt_rep m4 (P b) (tree b).
Proof.
  destruct tree_words as (W0 & W1 & _). split; [apply tree_root| | | |].
  - intros p a Hp. destruct (tree_inv p a Hp) as [[_ ->]|[[_ ->]|[_ ->]]]; apply P_valid; lia.
  - intros p q a Hp Hq. destruct (tree_inv p a Hp) as [[-> ->]|[[-> ->]|[-> ->]]], (tree_inv q _ Hq) as [[-> E]|[[-> E]|[-> E]]];
      try done; apply P_inj in E; lia.
  - intros p i [a Ha]. destruct (tree_inv _ a Ha) as [[E _]|[[E _]|[E _]]].
    + by destruct p.
    + destruct p as [|x [|y p]]; [|discriminate E..]. injection E as ->. split; [by exists (P b)|cbn; lia].
    + destruct p as [|x [|y p]]; [discriminate E| |destruct p; discriminate E]. injection E as -> ->. split; [by exists (P (b + 1))|cbn; lia].
  - intros p a i Hp Hlen Hi. destruct (decide (i = 0)) as [->|Hne].
    + rewrite Z.mul_0_r, Z.add_0_r. destruct (tree_inv p a Hp) as [[-> ->]|[[-> ->]|[-> ->]]]; [exact W0|exact W1|cbn in Hlen; lia].
    + destruct (tree b !! (p ++ [i])) as [c|] eqn:E.
      { destruct (tree_inv _ c E) as [[E2 _]|[[E2 _]|[E2 _]]]; destruct p as [|x [|y [|z p]]]; cbn in E2; congruence. }
      destruct (tree_inv p a Hp) as [[-> ->]|[[-> ->]|[-> ->]]]; rewrite m4_entry by lia; done.
Qed.

Lemma tree_ptev va : 0 <= va < MAXVA -> ptev m4 (tree b) va = if va / 4096 =? 0 then user_pte (b + 3) else 0.
Proof.
  destruct tree_words as (_ & _ & W2). intros Hva. unfold ptev, leaf. destruct (Z.eqb_spec (va / 4096) 0) as [E|E].
  - destruct (PX_same_page va 0 E) as (-> & -> & ->). change (tree b !! [PX 2 0; PX 1 0]) with (Some (P (b + 2))).
    cbn [fmap option_fmap option_map]. change (8 * PX 0 0) with 0. by rewrite Z.add_0_r.
  - destruct (tree b !! [PX 2 va; PX 1 va]) as [a|] eqn:Hp; [|done]. cbn.
    destruct (tree_inv _ a Hp) as [[? _]|[[? _]|[Epx ->]]]; [done|done|]. injection Epx as E2 E1.
    pose proof (PX_range 0 va ltac:(lia)). apply m4_entry; [lia|]. destruct (Z.eq_dec (PX 0 va) 0) as [E0|]; [|lia]. exfalso. apply E.
    apply (PX_inj va 0); [done|rewrite MAXVA_val; lia|rewrite E2|rewrite E1|rewrite E0]; vm_compute; reflexivity.
Qed.
Lemma tree_pa va : 0 <= va < MAXVA -> user_pa m4 (tree b) va = if va / 4096 =? 0 then P (b + 3) else 0.
Proof. intros Hva. unfold user_pa. rewrite tree_ptev by done. destruct (va / 4096 =? 0); [|done]. destruct Hb as [-> | ->]; vm_compute; reflexivity. Qed.
Lemma tree_user va : 0 <= va < MAXVA -> user_pa m4 (tree b) va <> 0 -> va / 4096 = 0 /\ user_pa m4 (tree b) va = P (b + 3).
Proof. intros Hva. rewrite tree_pa by done. by destruct (Z.eqb_spec (va / 4096) 0). Qed.

Lemma tree_space : aspace (P b) (tree b) [] s4.
Proof.
  split; change (pm_mem s4) with m4.
  - split; [|split; [exact tree_rep|intros p a _; apply not_elem_of_nil]]. split; [done|]. split; [exact m4_ok|]. split; constructor.
  - intros va Hva Hn. destruct (tree_user va Hva Hn) as [_ ->]. apply P_valid. lia.
  - intros va va' H1 H2 Hn E. destruct (tree_user va H1 Hn) as [-> _]. destruct (tree_user va' H2) as [-> _]; [by rewrite <- E|done].
  - intros va Hva Hn. destruct (tree_user va Hva Hn) as [_ ->]. intros [Hq|[p Hq]]; [by apply elem_of_nil in Hq|].
    destruct (tree_inv p _ Hq) as [[_ E]|[[_ E]|[_ E]]]; apply P_inj in E; lia.
Qed.
Lemma tree_takes va n : 0 <= va -> 0 <= n -> va + n <= 4096 -> takes m4 (tree b) va n.
Proof.
  intros Hva Hn Hm. split; [rewrite MAXVA_val; lia|]. intros x Hx. rewrite tree_pa, tree_ptev by (rewrite MAXVA_val; lia). rewrite Z.div_small by lia.
  cbn [Z.eqb]. destruct Hb as [-> | ->]; vm_compute; split; congruence.
Qed.
End OneTree.

Lemma trees_apart : spaces_apart m4 (tree 0) (tree 4).
Proof.
  intros p q Hp. apply tree_inv in Hp. split.
  - intros p' Hp'. apply tree_inv in Hp'. destruct Hp as [[_ ->]|[[_ ->]|[_ ->]]], Hp' as [[_ E]|[[_ E]|[_ E]]]; apply P_inj in E; lia.
  - intros va Hva Hn. destruct (tree_user 4 ltac:(by right) va Hva Hn) as [_ ->].
    intros E. destruct Hp as [[_ ->]|[[_ ->]|[_ ->]]]; apply P_inj in E; lia.
Qed.

Definition two_procs : nat -> proc := fun i =>
  ProcTable.with_size 4096 (with_pgtbl (if decide (i = 1%nat) then P 4 else P 0) blank).
Definition kw2 : kw := set_k_pm s4 (set_k_pt (set_procs two_procs FileWitness.pt0) kw1).
Definition k2 : kernel := mkFs log1 sb1 false (fun _ => empty_file) kw2.

Lemma space_of i b : (i = 0%nat /\ b = 0) \/ (i = 1%nat /\ b = 4) -> uspace i kw2 (tree b) [].
Proof. intros [[-> ->]|[-> ->]]; (split; [vm_compute; discriminate|apply tree_space; tauto]). Qed.
Lemma inode2 : inode_at sb1 (ctl k2) 0 disk1 empty_file.
Proof. destruct inode1 as [N1 N2 N3 N4 N5 N6 N7]. by split. Qed.
Lemma write2 n : 0 <= n <= 4096 -> write_ok sb1 0 (ctl k2) 0 disk1 empty_file 0 0 n (tree 0) [].
Proof.
  intros Hn. split; [exact disk1_ok|exact inode2|done|vm_compute; split; congruence|change (f_off (files (ctl k2).2 0%nat)) with 0; rewrite max_bytes; lia|apply space_of; by left|done|].
  destruct (tree_takes 0 ltac:(by left) 0 n ltac:(lia) ltac:(lia) ltac:(lia)) as [Hm Ht]. split; [done|]. intros x Hx. apply Ht. lia.
Qed.

(** Process 0 (pid 1) writes the first five bytes of its memory, process 1
    (pid 2) reads them to address 100 of its own. *)
Lemma file_roundtrip_witness :
  wp (let* v := filewrite 1 0 1 0 0 5 in let* r := fileread 2 1 1 1 100 5 in ret (v, r)) (fun x s' =>
    (x.1 = 5 \/ x.1 = -1) /\ (x.1 = 5 -> x.2 = 5 /\ exists t2 ps2, aspace (uroot 1 (fs_user s')) t2 ps2 (k_pm (fs_user s')) /\
      forall k, 0 <= k < 5 -> vmem (pm_mem (k_pm (fs_user s'))) t2 (100 + k) = vmem (pm_mem (k_pm (ctl k2).2)) (tree 0) (0 + k))) k2.
Proof.
  apply (file_roundtrip 1 2 2 sb1 0 1 0 (ctl k2) 0 disk1 empty_file 0 1 0 100 5 (tree 0) (tree 4) [] [] k2);
    [apply layout1| |apply write2; lia|lia|reflexivity|reflexivity|discriminate|reflexivity|reflexivity|reflexivity|reflexivity| | |lia|].
  - destruct (idle1 1) as [_ H1 H2 H3]. by split.
  - apply space_of. by right.
  - right. exact trees_apart.
  - apply tree_takes; tauto || lia.
Defined.
End TwoProcesses.
