(* ===== verification/FsBoot.v ===== *)
(** * Crash and reboot (kernel/fs.c: fsinit, readsb, ireclaim)

    fsinit on a freshly booted kernel reads the super block, recovers the
    log and looks for orphaned inodes.  Whatever a crash left of a disk whose
    recovery yields a file system, the kernel ends up idle on that file
    system: on the disk a crash during filewrite left, and on the image mkfs
    builds. *)

From Stdlib Require Import ZArith Lia.
From stdpp Require Import gmap.
From S2P Require Import Prelude Mem StringC Params Env Sleeplock Bio Log Fs FsPure FsTxn FsAlloc FsInode FsFile FsWrite FsLock SmallDisk FsDir FsPath Mkfs MkfsImage Pipe ProcTable Kalloc Vm PageTable UserCopy Sched Console Kernel UserIO File FileInv FileIO.

(** ** The directory invariant depends on the blocks outside the log only *)

Section Same.
Context (T : txn_env) (sb : superblock) (Hly : layout T sb).
Implicit Types (V : Z -> list Z).

Lemma same_disk_inode x V n : same_fs sb x V -> inum_ok sb n -> disk_inode sb x n = disk_inode sb V n.
Proof.
  intros H Hn. unfold inum_ok in Hn. unfold disk_inode. rewrite H; [done|]. destruct (IBLOCK_eq T sb Hly n Hn) as [-> _].
  pose proof (Z.div_pos n IPB ltac:(lia) ltac:(done)). lia.
Qed.
Lemma same_map x V i : same_fs sb x V -> dir_rep sb V i -> dir_rep sb x i /\ dir_map x i = dir_map V i.
Proof.
  intros H [HR Ht Hs]. split; [split; [by apply (same_rep T sb Hly x V)|done|done]|]. unfold dir_map. f_equal. unfold dents. apply list_fmap_ext.
  intros a k Hk. apply list_elem_of_lookup_2, elem_of_seqZ in Hk. unfold frange. apply list_fmap_ext. intros b p Hp. apply list_elem_of_lookup_2, elem_of_seqZ in Hp.
  assert (0 <= p < i_size i) as Hpi by (Z.div_mod_to_equations; lia). destruct (slot_present sb V i p HR Hpi) as [Hk' Hz]. unfold fbyte. rewrite (same_slot T sb Hly x V) by done.
  rewrite H; [done|]. destruct (ir_slot _ _ _ HR (p / BSIZE)) as [|[Hd _]]; [unfold in_slots; lia|done|]. unfold data_block in Hd. pose proof (starts T sb Hly). lia.
Qed.
Lemma same_tree x V : same_fs sb x V -> (forall n, block_ok (x n)) -> tree_ok sb V -> tree_ok sb x.
Proof.
  intros H Hx [T1 T2 T3 T4]. split; [by apply (same_disk T sb Hly x V)|..].
  - intros n Hn. rewrite (same_disk_inode x V) by done. intros Ht. by apply (same_map x V _ H), T2.
  - intros n e y Hn. rewrite (same_disk_inode x V) by done. intros Ht. rewrite (proj2 (same_map x V _ H (T2 n Hn Ht))). intros Hy.
    destruct (T3 n e y Hn Ht Hy) as [Ho Hty]. split; [done|]. by rewrite (same_disk_inode x V).
  - intros n Hn. rewrite (same_disk_inode x V) by done. by apply T4.
Qed.
End Same.

(** ** fsinit *)

Section Boot.
Context {W : Type} `{UserMem W} (pid start : Z) (sb : superblock) (fuel : nat).
Implicit Types (V : Z -> list Z).

(** The kernel before fsinit. *)
Definition booting (c : bio) (old : superblock) (f : nat -> inode) (u : W) : fs W := mkFs (rebooted c) old false f u.

Lemma wp_readsb c old f u V Q : cache_rep pid ∅ c -> disk c = V -> 
  (forall c', cache_rep pid ∅ c' -> disk c' = V -> dwrites c' = dwrites c -> Q tt (booting c' (get_sb (V 1)) f u)) -> wp (readsb pid ROOTDEV) Q (booting c old f u).
Proof.
  intros HC Hd HQ. unfold readsb. wp_step. unfold fbread. change (u32 ROOTDEV) with ROOTDEV. change (u32 1) with 1. wp_step. cbn [view fs_bioL lcomp fs_logL lbioL fs_log booting rebooted lbio].
  eapply wp_mono; [apply (bread_spec pid ∅); [done|apply readable_empty]|]. intros b c1 (_ & Hb & H1 & E1 & W1). set (h := mkHold _ _ _ _) in H1. unfold fdata. wp_step. wp_step. wp_step. wp_step.
  unfold fbrelse. wp_step. cbn. change b with (h_idx h). rewrite (get_data_held pid _ _ 1 h H1) by by rewrite lookup_insert_eq.
  eapply wp_mono; [apply (brelse_spec pid _ _ 1 h H1); [by rewrite lookup_insert_eq|done|]; intros _; cbn; by rewrite E1|].
  intros [] c2 (H2 & E2 & W2). unfold brelsed in H2. cbn in H2. rewrite delete_insert_id in H2 by apply lookup_empty. cbn [h_data h]. unfold contents. rewrite lookup_empty, Hd.
  apply HQ; [done|congruence|congruence].
Qed.

Lemma wp_ireclaim (T : txn_env) (Hly : layout T sb) (c : control W) V s Q : c.1.1.1 = sb -> tree_ok sb V -> fs_at T c [] ∅ V s -> (forall s', fs_at T c [] ∅ V s' -> Q tt s') ->
  wp (ireclaim (tn_pid T) fuel ROOTDEV) Q s.
Proof.
  intros Hsb HT Hs HQ. unfold ireclaim. eapply wp_get_sb; [exact Hs|]. eapply wp_mono; [apply (wp_for_range (fun _ s => fs_at T c [] ∅ V s)); [exact Hs|]|intros [] s'; apply HQ].
  intros j s1 Hj H1. cbn beta. assert (inum_ok sb j) as Hin by (unfold inum_ok; rewrite Hsb in Hj; lia). destruct (IBLOCK_eq T sb Hly j Hin) as (_ & Hlog & _).
  unfold ireclaim_step. eapply wp_get_sb; [exact H1|]. rewrite Hsb. wp_step.
  eapply wp_fbread; [exact H1|apply Hlog|apply lookup_empty|rewrite map_size_empty; unfold nbuf, NBUF, MAXOPBLOCKS; cbn; lia|]. intros bp s2 H2.
  eapply wp_fdata; [exact H2|by rewrite lookup_insert_eq|]. assert (negb (d_type (dinode_off j) (V (IBLOCK j sb)) =? 0) && (d_nlink (dinode_off j) (V (IBLOCK j sb)) =? 0) = false) as ->.
  { pose proof (to_link sb V HT j Hin) as Hl. change (d_type (dinode_off j) (V (IBLOCK j sb)) <> 0 -> d_nlink (dinode_off j) (V (IBLOCK j sb)) <> 0) in Hl.
    destruct (Z.eqb_spec (d_type (dinode_off j) (V (IBLOCK j sb))) 0) as [|Hn]; [done|]. by rewrite (proj2 (Z.eqb_neq _ 0) (Hl Hn)). }
  wp_step. wp_step. wp_step. eapply wp_fbrelse; [exact H2|by rewrite lookup_insert_eq|]. rewrite delete_insert_id by apply lookup_empty. intros s3 H3. wp_step. exact H3.
Qed.
End Boot.

Section Mount.
Context {W : Type} `{UserMem W}.
Implicit Types (V : Z -> list Z).

(** A recovered disk with a well-formed tree is mounted. *)
Lemma wp_fsinit pid start sb fuel (c : bio) old f (u : W) P :
  layout (mkTxn pid start (fun _ => []) [] 0) sb -> sb_logstart sb = start -> sb_magic sb = FSMAGIC ->
  cache_rep pid ∅ c -> get_sb (disk c 1) = sb -> recovers pid start (disk c) P -> (forall x, P x -> tree_ok sb x) ->
  wp (fsinit pid fuel ROOTDEV) (fun _ s => ctl s = (sb, false, f, u) /\ log_idle pid start (fs_log s) /\ P (disk (lbio (fs_log s)))) (booting c old f u).
Proof.
  intros Hly Hst Hm HC Hsb HR HP. unfold fsinit. wp_step. apply wp_readsb with (pid := pid) (V := disk c); [done..|]. intros c1 HC1 Hd1 _. rewrite Hsb.
  wp_step. wp_step. cbn [fs_sb booting]. rewrite Hm, Hst. rewrite Z.eqb_refl. cbn [negb]. wp_step. wp_step. cbn [view fs_logL fs_log booting].
  eapply wp_mono; [by apply (HR c1)|]. intros [] l (Hi & HPl). set (x := disk (lbio l)) in *. set (T := mkTxn pid start x (dwrites (lbio l)) 0).
  assert (layout T sb) as HlyT by (destruct Hly; by split).
  apply (wp_ireclaim sb fuel T HlyT (sb, false, f, u) x); [done|by apply HP|split; [done|by apply (read_begin T)]|].
  intros s' [Hc Hs]. split; [done|]. destruct (read_end T eq_refl x (fs_log s') Hs) as (? & Hd & _); [|by rewrite Hd].
  destruct Hi. done.
Qed.
End Mount.

(** ** The image mkfs builds boots *)

Lemma fresh_layout pid d w out : layout (mkTxn pid (sb_logstart new_sb) d w out) new_sb.
Proof. split; vm_compute; try split; congruence. Qed.
Lemma fresh_recovers V l : fresh_disk V l -> crash_safe (sb_logstart new_sb) V [] (fun x => tree_ok new_sb x /\ same_fs new_sb x V).
Proof.
  intros [F1 F2 F3 F4 _ _ _]. pose proof (fresh_layout 0 V [] 0) as Hl. pose proof (to_disk _ _ F3) as Hd.
  apply crash_none; [split; vm_compute; congruence|split; [exact F2|apply (do_block _ _ Hd)]|]. intros x Hx Hw.
  apply (outside_same _ _ Hl) in Hx. split; [|done]. apply (same_tree _ _ Hl x V); [done|apply Hw, (do_block _ _ Hd)|done].
Qed.
Lemma mkfs_boots {W : Type} `{UserMem W} pid fuel V l (b : bio) old f (u : W) : fresh_disk V l -> cache_rep pid ∅ b -> disk b = V ->
  wp (fsinit pid fuel ROOTDEV) (fun _ s => ctl s = (new_sb, false, f, u) /\ log_idle pid (sb_logstart new_sb) (fs_log s) /\
    tree_ok new_sb (disk (lbio (fs_log s))) /\ same_fs new_sb (disk (lbio (fs_log s))) V) (booting b old f u).
Proof.
  intros HV HC Hd. apply (wp_fsinit pid (sb_logstart new_sb) new_sb fuel b old f u (fun x => tree_ok new_sb x /\ same_fs new_sb x V));
    [apply fresh_layout|done|done|done|by rewrite Hd; apply (fd_sb _ _ HV)| |by intros x []].
  rewrite Hd. apply (fresh_recovers V l HV pid 0%nat).
Qed.

(** ** A crash during a write *)

Section Written.
Context (pid start : Z) (sb : superblock) (Hly : fslayout pid start sb).
Implicit Types (d x : Z -> list Z) (i j : inode).

(** A directory's names are in its contents. *)
Lemma dents_same_content d x i : inode_rep sb d i -> fcontent x i = fcontent d i -> dents x i = dents d i.
Proof.
  intros HR E. unfold dents. apply list_fmap_ext. intros a k Hk. apply list_elem_of_lookup_2, elem_of_seqZ in Hk. pose proof (ir_size _ _ _ HR).
  rewrite !frange_content by (Z.div_mod_to_equations; lia). by rewrite E.
Qed.

(** Storing a file that shares no block with a directory leaves the
    directories as they are. *)
Record plain_file d i : Prop := {
  pf_tree : tree_ok sb d;
  pf_sync : inode_disk i = dinode_at sb d (i_inum i);
  pf_inum : inum_ok sb (i_inum i);
  pf_type : i_type i <> 0 /\ i_type i <> T_DIR;
  pf_apart : forall m, inum_ok sb m -> i_type (disk_inode sb d m) = T_DIR -> apart d i (disk_inode sb d m);
}.
Lemma stored_tree d i x j content : plain_file d i -> stored sb d i x j content -> disk_ok sb x -> tree_ok sb x.
Proof.
  intros [HT Hs Hin [Ht0 Ht] Hap] [(E1 & E2 & E3) Hj HRj Hc Hino Hoth] Hx.
  assert (inode_disk (disk_inode sb x (i_inum i)) = inode_disk j) as Ej by by rewrite Hj.
  assert (inode_disk (disk_inode sb d (i_inum i)) = inode_disk i) as Ei by by rewrite Hs.
  destruct (inode_disk_eq _ _ Ej) as (Tj & Lj & _). destruct (inode_disk_eq _ _ Ei) as (Ti & Li & _).
  assert (forall m, inum_ok sb m -> i_type (disk_inode sb x m) = i_type (disk_inode sb d m) /\ i_nlink (disk_inode sb x m) = i_nlink (disk_inode sb d m)) as Hsame.
  { intros m Hm. destruct (Z.eq_dec m (i_inum i)) as [->|Hne]; [split; congruence|]. destruct (inode_disk_eq (disk_inode sb x m) (disk_inode sb d m)) as (? & ? & _); [by apply Hino|done]. }
  assert (forall m, inum_ok sb m -> i_type (disk_inode sb d m) = T_DIR -> dir_rep sb x (disk_inode sb x m) /\ dir_map x (disk_inode sb x m) = dir_map d (disk_inode sb d m)) as Hdir.
  { intros m Hm Hd. destruct (to_dir _ _ HT m Hm Hd) as [HR Htm Hsz]. destruct (Hoth _ HR (Hap m Hm Hd)) as (HR' & Hc' & _).
    destruct (same_dir sb x (disk_inode sb x m) (disk_inode sb d m)) as [D1 D2]; [apply Hino; [done|congruence]|done|done|apply get_dinode_ok, (do_block _ _ Hx)|by split|].
    split; [done|]. rewrite D2. unfold dir_map. by rewrite (dents_same_content d x). }
  split; [done|..].
  - intros m Hm. rewrite (proj1 (Hsame m Hm)). apply Hdir, Hm.
  - intros m e y Hm. rewrite (proj1 (Hsame m Hm)). intros Hd. rewrite (proj2 (Hdir m Hm Hd)). intros Hy. destruct (to_name _ _ HT m e y Hm Hd Hy) as [Hyo Hyt].
    split; [done|]. by rewrite (proj1 (Hsame y Hyo)).
  - intros m Hm. destruct (Hsame m Hm) as [-> ->]. by apply (to_link _ _ HT).
Qed.
End Written.

(** C3: A crash during a write costs at most the end of the write.  Take a
    file system whose directories are well formed and an open plain file
    sharing no block with them, and let filewrite write [n] bytes of a mapped
    user buffer.  Stop the machine after any number of the disk writes this
    issues and boot the kernel on what is then on the disk, by any process
    and with any leftovers in memory: fsinit does not panic, loads the same
    super block, and ends with the log idle and empty on a disk with
    well-formed directories, where the file has its old contents overwritten
    by a prefix of the data (everything or a multiple of the largest
    transaction) and every other inode and file is as it was. *)
Theorem write_crash_boot `{LinkerOk} pid start sb me fuel c ip d i f addr n t ps w s : fslayout pid start sb ->
  1 < start -> sb_logstart sb = start -> sb_magic sb = FSMAGIC -> get_sb (d 1) = sb -> plain_file sb d (loaded sb d i) ->
  idle_at pid start c d w s -> write_ok sb me c ip d i f addr n t ps -> 0 <= n -> f_type (files c.2 f) = FD_INODE -> f_writable (files c.2 f) = true ->
  let off := f_off (files c.2 f) in let data := ubytes (pm_mem (k_pm c.2)) t addr n in
  wp (filewrite pid me (S fuel) f addr n) (fun v s' => exists r ws, (r = n \/ v = -1 /\ 0 <= r < n) /\
    dwrites (lbio (fs_log s')) = w ++ ws /\ disk (lbio (fs_log s')) = apply_writes d ws /\
    forall k pid' b old tb (u : kw), cache_rep pid' ∅ b -> disk b = apply_writes d (take k ws) ->
      wp (fsinit pid' fuel ROOTDEV) (fun _ s2 => ctl s2 = (sb, false, tb, u) /\ log_idle pid' start (fs_log s2) /\
        tree_ok sb (disk (lbio (fs_log s2))) /\ kept sb d i off data r (disk (lbio (fs_log s2)))) (booting b old tb u)) s.
Proof.
  intros Hly H1 Hst Hm Hsb HP Hi HW Hn Hty Hwr off data. eapply wp_mono; [by apply (filewrite_spec pid start sb me fuel Hly c ip d i f addr n t ps w)|].
  intros v s' (r & (u' & i' & d' & ws & X) & Hv). cbv zeta in X. destruct X as (Hi' & _ & _ & _ & _ & _ & _ & Hws & Hsp & Hc).
  exists r, ws. destruct Hi' as [_ _ Hd Hw]. split; [destruct Hv as [[]|(? & ? & _)]; [by left|by right]|]. split; [done|]. split; [congruence|].
  intros k pid' b old tb u HC Hb. apply (wp_fsinit pid' start sb fuel b old tb u (fun x => tree_ok sb x /\ kept sb d i off data r x)); [|done|done|done| | |by intros x []].
  - by destruct Hly.
  - rewrite Hb, (spares_take start) by done. done.
  - rewrite Hb. refine (crash_mono _ _ _ _ _ _ Hc pid' k). intros x Hx. split; [|done]. destruct Hx as (a & j & _ & _ & Hx & Hj).
    by eapply (stored_tree sb d (loaded sb d i)).
Qed.

(** *** On the small disk *)
Module BootWitness.
Import ToyImage PageTableWitness OnePage SmallMachine WalkWitness.

Lemma no_blocks n : ~ owns disk1 (loaded sb1 disk1 empty_file) n.
Proof.
  intros [Hn (k & Hk & E)]. assert (Forall (fun k => i_addrs (loaded sb1 disk1 empty_file) k = 0) (seqZ 0 13)) as Hf.
  { apply (bool_decide_unpack (Forall (fun k => i_addrs (loaded sb1 disk1 empty_file) k = 0) (seqZ 0 13))). by vm_compute. }
  rewrite Forall_forall in Hf. assert (forall a, 0 <= a <= NDIRECT -> i_addrs (loaded sb1 disk1 empty_file) a = 0) as Hz by (intros a Ha; apply Hf, elem_of_seqZ; unfold NDIRECT in Ha; lia).
  apply Hn. rewrite <- E. unfold slot_of, in_slots in *. rewrite (Hz NDIRECT) by (unfold NDIRECT; lia). destruct (Z.ltb_spec k NDIRECT); [apply Hz; lia|]. by destruct (k =? MAXFILE).
Qed.
Lemma plain1 : plain_file sb1 disk1 (loaded sb1 disk1 empty_file).
Proof.
  split; [exact tree1|by vm_compute|split; by vm_compute|split; by vm_compute|]. intros m _ _ n Hn _. by apply no_blocks in Hn.
Qed.

(** Five bytes of process 1, a crash, a boot by process 2. *)
Lemma write_crash_boot_witness :
  let off := f_off (files (ctl k1).2 0%nat) in let data := ubytes (pm_mem (k_pm (ctl k1).2)) parent 0 5 in
  wp (filewrite 1 0 1 0 0 5) (fun v s' => exists r ws, (r = 5 \/ v = -1 /\ 0 <= r < 5) /\
    dwrites (lbio (fs_log s')) = [] ++ ws /\ disk (lbio (fs_log s')) = apply_writes disk1 ws /\
    forall k pid' b old tb (u : kw), cache_rep pid' ∅ b -> disk b = apply_writes disk1 (take k ws) ->
      wp (fsinit pid' 0 ROOTDEV) (fun _ s2 => ctl s2 = (sb1, false, tb, u) /\ log_idle pid' 2 (fs_log s2) /\
        tree_ok sb1 (disk (lbio (fs_log s2))) /\ kept sb1 disk1 empty_file off data r (disk (lbio (fs_log s2)))) (booting b old tb u)) k1.
Proof.
  apply (write_crash_boot 1 2 sb1 0 0 (ctl k1) 0 disk1 empty_file 0 0 5 parent free2 [] k1);
    [apply layout1|lia|reflexivity|reflexivity|exact super_block_read|exact plain1|apply idle1|apply write1; lia|lia|reflexivity|reflexivity].
Defined.
End BootWitness.
