(* ===== verification/Mmap.v ===== *)
(** * Memory-mapped files: the areas of a process

    sys_mmap keeps the areas of a process page-aligned, below the trapframe
    and apart from each other, and its search for an address ends.  Three
    ways in which sys_munmap and mmapfault do not do what they mean to. *)

From Stdlib Require Import ZArith Lia.
From stdpp Require Import gmap.
From S2P Require Import Prelude Mem StringC Params Env Kalloc Vm Sleeplock Bio Log Fs Pipe ProcTable Sched Console Kernel File SysFile FileInv.

(** The pages of an area. *)
Definition v_end (v : vma) : Z := v_addr v + page_round_up (v_length v).

Record area_ok (v : vma) : Prop := {
  ar_aligned : v_addr v mod PGSIZE = 0;
  ar_low : 0 <= v_addr v;
  ar_length : 0 < v_length v < 2 ^ 31;
  ar_high : v_end v <= TRAPFRAME;
}.
Record areas_ok (f : nat -> vma) : Prop := {
  as_each : forall k, (k < nvma)%nat -> v_used (f k) = true -> area_ok (f k);
  as_apart : forall j k, (j < nvma)%nat -> (k < nvma)%nat -> j <> k -> v_used (f j) = true -> v_used (f k) = true ->
    v_end (f j) <= v_addr (f k) \/ v_end (f k) <= v_addr (f j);
}.

Lemma page_round_up_spec l : 0 < l < 2 ^ 31 -> page_round_up l mod PGSIZE = 0 /\ l <= page_round_up l < l + PGSIZE.
Proof.
  intros Hl. change (page_round_up l) with (PGROUNDUP l).
  destruct (PGROUNDUP_bounds l) as [H1 H2]; [lia|unfold PGSIZE; lia|]. done.
Qed.

Section Place.
Context (f : nat -> vma) (Hok : areas_ok f) (len : Z) (Hlen : 0 < len <= 2 ^ 31) (Hal : len mod PGSIZE = 0).

(** Areas that start below the end of the candidate. *)
Definition pending (addr : Z) : list nat := List.filter (fun k => v_used (f k) && (v_addr (f k) <? addr + len)) (seq 0 nvma).

Lemma overlap_spec addr k : 0 <= addr -> addr + len <= TRAPFRAME -> (k < nvma)%nat ->
  overlaps addr len (f k) = v_used (f k) && (addr <? v_addr (f k) + v_length (f k)) && (v_addr (f k) <? addr + len).
Proof.
  intros Ha Hh Hk. unfold overlaps. destruct (v_used (f k)) eqn:Hu; [|done]. destruct (as_each f Hok k Hk Hu) as [A1 A2 A3 A4].
  pose proof (page_round_up_spec _ A3) as [_ [A5 A6]]. unfold v_end in A4. unfold TRAPFRAME, TRAMPOLINE in *. rewrite MAXVA_val in *. unfold PGSIZE in *.
  rewrite !u64_small by lia. done.
Qed.

Definition below (x : Z) (k : nat) : bool := v_used (f k) && (v_addr (f k) <? x).
Lemma below_le x y l : y <= x -> (length (List.filter (below y) l) <= length (List.filter (below x) l))%nat.
Proof.
  intros Hle. induction l as [|i l IH]; [done|]. cbn. assert (below y i = true -> below x i = true) as Hi.
  { unfold below. destruct (v_used (f i)); cbn; [|done]. rewrite !Z.ltb_lt. lia. }
  destruct (below y i), (below x i); cbn; try lia; discriminate (Hi eq_refl).
Qed.
Lemma pending_less addr addr' k : (k < nvma)%nat -> v_used (f k) = true -> v_addr (f k) < addr + len ->
  addr' + len = v_addr (f k) -> (length (pending addr') < length (pending addr))%nat.
Proof.
  intros Hk Hu Hlt E. change (length (List.filter (below (addr' + len)) (seq 0 nvma)) < length (List.filter (below (addr + len)) (seq 0 nvma)))%nat.
  assert (In k (seq 0 nvma)) as Hin by (apply in_seq; lia). apply in_split in Hin as (l1 & l2 & ->).
  rewrite !List.filter_app, !length_app. cbn [List.filter].
  assert (below (addr' + len) k = false) as -> by (unfold below; rewrite Hu; apply Z.ltb_ge; lia).
  assert (below (addr + len) k = true) as -> by (unfold below; rewrite Hu; apply Z.ltb_lt; lia). cbn [length].
  pose proof (below_le (addr + len) (addr' + len) l1 ltac:(lia)). pose proof (below_le (addr + len) (addr' + len) l2 ltac:(lia)). lia.
Qed.

(** Every restart leaves room: the new candidate ends where an area starts
    that reaches above the old one. *)
Lemma place_spec n : forall addr, (length (pending addr) < n)%nat -> addr mod PGSIZE = 0 ->
  Z.of_nat n * 2 ^ 33 <= addr -> addr + len <= TRAPFRAME ->
  exists r, place n f len addr = Some r /\ r mod PGSIZE = 0 /\ 0 <= r /\ r + len <= TRAPFRAME /\
    forall k, (k < nvma)%nat -> v_used (f k) = true -> v_end (f k) <= r \/ r + len <= v_addr (f k).
Proof.
  induction n as [|n IH]; intros addr Hp Ha Hlow Hhigh; [lia|]. cbn [place]. unfold place_step.
  destruct (List.find _ _) as [k|] eqn:Ef.
  - apply find_some in Ef as [Hin Eo]. apply in_seq in Hin. assert (k < nvma)%nat as Hk by lia. rewrite overlap_spec in Eo by (try done; lia).
    apply andb_true_iff in Eo as [Eo E3]. apply andb_true_iff in Eo as [E1 E2]. apply Z.ltb_lt in E2, E3.
    destruct (as_each f Hok k Hk E1) as [A1 A2 A3 A4]. assert (0 <= v_addr (f k) - len < 2 ^ 64) as Hr.
    { unfold TRAPFRAME, TRAMPOLINE, PGSIZE in Hhigh. rewrite MAXVA_val in Hhigh. lia. }
    rewrite u64_small by lia. apply IH.
    + pose proof (pending_less addr (v_addr (f k) - len) k Hk E1 E3 ltac:(lia)). lia.
    + rewrite Zminus_mod, A1, Hal. done.
    + lia.
    + lia.
  - exists addr. split; [done|]. split; [done|]. split; [lia|]. split; [done|]. intros k Hk Hu.
    pose proof (find_none _ _ Ef k) as Hn. assert (In k (seq 0 nvma)) as Hs by (apply in_seq; lia). specialize (Hn Hs). cbn in Hn.
    rewrite overlap_spec, Hu in Hn by (try done; lia). cbn in Hn. destruct (as_each f Hok k Hk Hu) as [A1 A2 A3 A4].
    apply andb_false_iff in Hn as [Hn|Hn]; apply Z.ltb_ge in Hn; [|by right]. left.
    pose proof (page_round_up_spec _ A3) as [B1 [B2 B3]]. unfold v_end. assert ((addr - v_addr (f k)) mod PGSIZE = 0) as Hm by (rewrite Zminus_mod, Ha, A1; done).
    unfold PGSIZE in *. apply Z.mod_divide in Hm as [x Hx]; [|lia]. apply Z.mod_divide in B1 as [y Hy]; [|lia]. lia.
Qed.

Lemma place_mono n : forall m addr r, (n <= m)%nat -> place n f len addr = Some r -> place m f len addr = Some r.
Proof.
  induction n as [|n IH]; intros [|m] addr r Hle E; [done|done|lia|]. cbn [place] in *.
  destruct (place_step f len addr); [|done]. apply IH; [lia|done].
Qed.
End Place.

(** ** sys_mmap *)

Section Sys.
Context `{LinkerSyms} (pid : Z) (me fuel : nat).

(** The n-th system call argument, as the trapframe holds it. *)
Definition argval (s : kernel) (n : Z) : Z :=
  load64 (pm_mem (k_pm (fs_user s))) (p_trapframe (procs (k_pt (fs_user s)) me) + tf_a n).
Definition myproc (s : kernel) : proc := procs (k_pt (fs_user s)) me.

Lemma wp_argraw n Q s : 0 <= n <= 5 -> Q (argval s n) s -> wp (argraw me n) Q s.
Proof. intros Hn HQ. unfold argraw. rewrite (proj2 (Z.leb_le 0 n)), (proj2 (Z.leb_le n 5)) by lia. exact HQ. Qed.
Lemma wp_argint n Q s : 0 <= n <= 5 -> Q (i32 (argval s n)) s -> wp (argint me n) Q s.
Proof. intros Hn HQ. unfold argint. wp_step. apply wp_argraw; [done|]. by wp_step. Qed.
Lemma wp_argfd n Q s : 0 <= n <= 5 ->
  Q None s ->
  (forall fd f, 0 <= fd < NOFILE -> p_ofile (myproc s) (Z.to_nat fd) = Some f -> Q (Some (fd, f)) s) ->
  wp (argfd me n) Q s.
Proof.
  intros Hn HN HS. unfold argfd. wp_step. apply wp_argint; [done|]. set (fd := i32 (argval s n)).
  destruct (Z.ltb_spec fd 0); [exact HN|]. destruct (Z.leb_spec NOFILE fd); [exact HN|]. cbn [orb].
  unfold ofile, kproc. do 5 wp_step. destruct (p_ofile (procs (k_pt (fs_user s)) me) (Z.to_nat fd)) as [f|] eqn:Ef; [|done].
  apply HS; [lia|done].
Qed.

Lemma filedup_ok f s Q : ft_lock (fs_user s) = false -> 1 <= f_ref (files (fs_user s) f) < 2 ^ 31 - 1 ->
  (forall u, u = on_file f (with_f_ref (f_ref (files (fs_user s) f) + 1)) (fs_user s) -> Q f (put fs_userL u s)) ->
  wp (filedup f) Q s.
Proof.
  intros Hl Hr HQ. unfold filedup. apply on_kw_wp. wp_step. wp_step. wp_step. wp_step. cbn [files set_ft_lock put ft_lockL].
  rewrite (proj2 (Z.ltb_ge _ _)) by lia. rewrite i32_small by lia. wp_step. wp_step. wp_step. wp_step. wp_step. apply HQ.
  unfold on_file. destruct (fs_user s). cbn in *. by rewrite Hl.
Qed.

(** The state with area [k] of the process set and file [f] referenced once
    more. *)
Definition mapped (s s' : kernel) (k f : nat) (v : vma) : Prop :=
  p_vmas (myproc s') = upd (p_vmas (myproc s)) k v /\
  files (fs_user s') = upd (files (fs_user s)) f (with_f_ref (f_ref (files (fs_user s) f) + 1) (files (fs_user s) f)) /\
  (forall q, q <> me -> procs (k_pt (fs_user s')) q = procs (k_pt (fs_user s)) q) /\
  k_pm (fs_user s') = k_pm (fs_user s).

(** C38: sys_mmap keeps the areas of a process well formed.  Whatever the
    arguments, when the areas are page aligned, end below the trapframe and
    do not share a page, the call returns (the search for an address needs
    at most one restart per area), and either fails and changes nothing or
    fills a free slot with the requested length at the address it returns,
    takes one reference to the file and leaves all areas well formed. *)
Theorem mmap_areas_ok s : areas_ok (p_vmas (myproc s)) -> (nvma < fuel)%nat -> ft_lock (fs_user s) = false ->
  (forall fd f, p_ofile (myproc s) fd = Some f -> 1 <= f_ref (files (fs_user s) f) < 2 ^ 31 - 1) ->
  wp (sys_mmap me fuel) (fun r s' =>
    (r = -1 /\ s' = s) \/
    exists k f v, (k < nvma)%nat /\ v_used (p_vmas (myproc s) k) = false /\ mapped s s' k f v /\
      v_used v = true /\ v_addr v = r /\ v_length v = i32 (argval s 0) /\ v_f v = Some f /\
      areas_ok (p_vmas (myproc s'))) s.
Proof.
  intros Hok Hfuel Hl Href. unfold sys_mmap. wp_step. apply wp_argint; [lia|]. wp_step. apply wp_argint; [lia|]. wp_step. apply wp_argint; [lia|].
  wp_step. apply wp_argfd; [lia|by left|]. intros fd f Hfd Hf. wp_step. apply wp_argint; [lia|]. set (len := i32 (argval s 0)).
  destruct (Z.leb_spec len 0); [left; done|]. rewrite (proj2 (Z.ltb_ge fd 0)) by lia. cbn [orb]. unfold kproc. wp_step. wp_step.
  fold (myproc s). destruct (List.find _ (seq 0 nvma)) as [k|] eqn:Ek; [|by left]. apply find_some in Ek as [Hk Eu]. apply in_seq in Hk. apply negb_true_iff in Eu.
  assert (0 < len < 2 ^ 31) as Hlen by (pose proof (i32_range (argval s 0)); unfold len in *; lia).
  destruct (page_round_up_spec len Hlen) as [L1 [L2 L3]]. unfold PGSIZE in L3.
  assert (0 < page_round_up len <= 2 ^ 31) as L4.
  { split; [lia|]. apply Z.mod_divide in L1 as [x Hx]; [|done]. unfold PGSIZE in Hx. lia. }
  assert (0 <= TRAPFRAME - page_round_up len < 2 ^ 64) as Htop by (unfold TRAPFRAME, TRAMPOLINE, PGSIZE; rewrite MAXVA_val; lia).
  rewrite u64_small by done. destruct (place_spec (p_vmas (myproc s)) Hok (page_round_up len) L4 L1 (S nvma) (TRAPFRAME - page_round_up len)) as (r & Er & R1 & R2 & R3 & R4).
  - unfold pending. pose proof (List.filter_length_le (fun k => v_used (p_vmas (myproc s) k) && (v_addr (p_vmas (myproc s) k) <? TRAPFRAME - page_round_up len + page_round_up len)) (seq 0 nvma)) as Hle.
    rewrite length_seq in Hle. lia.
  - rewrite Zminus_mod, L1. done.
  - unfold TRAPFRAME, TRAMPOLINE, PGSIZE. rewrite MAXVA_val. change (Z.of_nat (S nvma)) with 17. lia.
  - lia.
  - rewrite (place_mono _ _ _ fuel _ _ Hfuel Er). wp_step. apply filedup_ok; [done|by eapply Href|]. intros u Eu'. unfold set_vma, set_kproc, on_pt, set_proc. wp_step. apply on_kw_wp, wp_zoom. wp_step. wp_step.
    right. set (v := mkVma true r len _ _ _ (Some f)). exists k, f, v.
    split; [lia|]. split; [done|].
    assert (p_vmas (myproc (put fs_userL (put k_ptL (on_proc me (fun q => with_vmas (upd (p_vmas q) k v) q) (view k_ptL (fs_user (put fs_userL u s)))) (fs_user (put fs_userL u s))) (put fs_userL u s))) = upd (p_vmas (myproc s)) k v) as Ev.
    { unfold myproc. cbn. rewrite upd_eq. cbn. by rewrite Eu'. }
    split; [split; [exact Ev|split; [|split]]|].
    + cbn. by rewrite Eu'.
    + intros q Hq. cbn. rewrite upd_ne by done. by rewrite Eu'.
    + cbn. by rewrite Eu'.
    + split; [done|]. split; [done|]. split; [done|]. split; [done|]. rewrite Ev.
      split.
      * intros j Hj. unfold upd. case_decide as E; [|by apply (as_each _ Hok)]. intros _. split; cbn; [done|done|lia|]. unfold v_end. cbn. lia.
      * intros i j Hi Hj Hij. unfold upd. repeat case_decide; subst; intros U1 U2; [done| | |by apply (as_apart _ Hok)]; unfold v_end at 1 2; cbn.
        -- destruct (R4 j Hj U2) as [G|G]; unfold v_end in *; cbn in *; lia.
        -- destruct (R4 i Hi U1) as [G|G]; unfold v_end in *; cbn in *; lia.
Qed.
End Sys.

(** ** What sys_munmap and mmapfault do not check *)

Section Unmap.
Context `{LinkerSyms} (pid : Z) (me fuel : nat).

Lemma find_first (p : nat -> bool) n : forall a k, (a <= k < a + n)%nat -> p k = true ->
  (forall j, (a <= j < k)%nat -> p j = false) -> List.find p (seq a n) = Some k.
Proof.
  induction n as [|n IH]; intros a k Hk Hp Hn; [lia|]. cbn. destruct (decide (a = k)) as [->|Hne]; [by rewrite Hp|].
  rewrite Hn by lia. apply IH; [lia|done|]. intros. apply Hn. lia.
Qed.

Lemma bind_ran {S A B} (m : M S A) (k : A -> M S B) msg s : wp m (fun a s' => k a s' = Panic msg) s -> bind m k s = Panic msg.
Proof. unfold wp, bind. by destruct (m s). Qed.
Lemma bind_panics {S A B} (m : M S A) (k : A -> M S B) msg s : m s = Panic msg -> bind m k s = Panic msg.
Proof. unfold bind. by intros ->. Qed.

(** The argument registers hold [addr] and [length], and the first area that
    contains the range is [k]. *)
Record unmapping (s : kernel) (addr length : Z) (k : nat) : Prop := {
  um_addr : argval me s 0 = addr;
  um_length : i32 (argval me s 1) = length;
  um_index : (k < nvma)%nat;
  um_found : contains addr length (p_vmas (myproc me s) k) = true;
  um_first : forall j, (j < k)%nat -> contains addr length (p_vmas (myproc me s) j) = false;
}.

(** sys_munmap does not round its address.  Unmapping the tail of a
    private area from an address that is not page aligned, in a page that is
    mapped, panics the kernel: any process can bring the system down. *)
Theorem munmap_unaligned_panics s addr length k : unmapping s addr length k ->
  let v := p_vmas (myproc me s) k in
  has (v_flags v) MAP_SHARED = false -> 0 <= addr -> addr mod PGSIZE <> 0 -> 0 < length -> addr + length < 2 ^ 64 ->
  addr + length = u64 (v_addr v + v_length v) ->
  wp (walkaddr (p_pgtbl (myproc me s)) addr) (fun pa _ => pa <> 0) (k_pm (fs_user s)) ->
  sys_munmap pid me fuel s = Panic "uvmunmap: not aligned".
Proof.
  intros [Ha Hl Hk Hf Hn] v Hs H0 Hun Hlen Hlt Hend Hw. unfold sys_munmap.
  apply bind_ran, wp_argraw; [lia|]. rewrite Ha. apply bind_ran, wp_argint; [lia|]. rewrite Hl. apply bind_ran, wp_gets. fold (myproc me s).
  rewrite (find_first _ _ 0 k) by (first [lia | done | intros; apply Hn; lia]). fold v. rewrite (u64_small (addr + length)), <- Hend, Z.eqb_refl, andb_false_r by lia.
  apply bind_panics. unfold unmap_range. cbn [loop]. apply bind_panics. unfold unmap_step. rewrite u64_small by lia.
  rewrite (proj2 (Z.leb_gt _ _)) by lia. apply bind_panics. unfold unmap_page. apply bind_ran, wp_gets. fold (myproc me s).
  apply bind_ran. apply on_kw_wp, wp_zoom. eapply wp_mono; [exact Hw|]. intros pa m Hpa. cbv beta.
  rewrite (proj2 (Z.eqb_neq _ _)), Hs by done. unfold when. apply bind_ran, wp_ret. unfold on_pm, on_kw, uvmunmap. rewrite (proj2 (Z.eqb_neq _ _)) by done. done.
Qed.

(** A negative length at the start of an area passes the checks: nothing is
    unmapped and the area grows downwards, over whatever is there. *)
Theorem munmap_negative_grows s addr length k : unmapping s addr length k ->
  let v := p_vmas (myproc me s) k in
  addr = v_addr v -> length < 0 <= addr + length -> 0 < v_length v -> v_addr v + v_length v - length < 2 ^ 64 ->
  wp (sys_munmap pid me fuel) (fun r s' => r = 0 /\
    v_used (p_vmas (myproc me s') k) = v_used v /\
    v_addr (p_vmas (myproc me s') k) = addr + length /\
    v_length (p_vmas (myproc me s') k) = v_length v - length) s.
Proof.
  intros [Ha Hl Hk Hf Hn] v Hv Hlen H0 Hlt. unfold sys_munmap. wp_step. apply wp_argraw; [lia|]. rewrite Ha. wp_step. apply wp_argint; [lia|]. rewrite Hl.
  unfold kproc. wp_step. wp_step. fold (myproc me s). rewrite (find_first _ _ 0 k) by (first [lia | done | intros; apply Hn; lia]). fold v.
  rewrite (proj2 (Z.eqb_eq addr (v_addr v)) Hv). cbn [andb negb]. wp_step. unfold unmap_range. cbn [loop]. wp_step. unfold unmap_step.
  rewrite u64_small, (proj2 (Z.leb_le _ _)) by lia. do 3 wp_step. unfold set_vma, set_kproc, on_pt, set_proc. cbn [v_used v_addr v_length v_f v_prot v_flags v_offset].
  apply on_kw_wp, wp_zoom. wp_step. rewrite <- Hv, !u64_small by lia. rewrite (proj2 (Z.eqb_neq _ 0)) by lia. wp_step.
  unfold myproc. cbn. rewrite !upd_eq. cbn. by rewrite upd_eq.
Qed.

(** mmapfault takes every mapped file for an inode: the first touch of an
    area mapped on a pipe, whose file has no inode, panics. *)
Theorem mmap_pipe_fault_panics s va k f : (k < nvma)%nat ->
  let v := p_vmas (myproc me s) k in
  in_vma (PGROUNDDOWN va) v = true -> (forall j, (j < k)%nat -> in_vma (PGROUNDDOWN va) (p_vmas (myproc me s) j) = false) ->
  v_f v = Some f -> f_ip (files (fs_user s) f) = None ->
  wp (walkaddr (p_pgtbl (myproc me s)) (PGROUNDDOWN va)) (fun pa m => pa = 0 /\ wp kalloc (fun mem _ => mem <> 0) m) (k_pm (fs_user s)) ->
  mmapfault pid me fuel va s = Panic "ilock".
Proof.
  intros Hk v Hin Hn Hv Hip Hw. unfold mmapfault. apply bind_ran, wp_gets. fold (myproc me s).
  rewrite (find_first _ _ 0 k) by (first [lia | done | intros; apply Hn; lia]). fold v.
  apply bind_ran. apply on_kw_wp, wp_zoom. eapply wp_mono; [exact Hw|]. intros pa m [-> Hm]. cbv beta. cbn [negb Z.eqb].
  apply bind_ran. apply on_kw_wp, wp_zoom. eapply wp_mono; [exact Hm|]. intros mem m' Hmem. cbv beta.
  rewrite (proj2 (Z.eqb_neq _ _)) by done. apply bind_ran. apply on_kw_wp, wp_zoom. unfold mem_op. wp_step.
  apply bind_ran. unfold vma_ip. rewrite Hv. wp_step. unfold kfile. do 2 wp_step. cbn. rewrite Hip. done.
Qed.
End Unmap.

Module MmapWitness.
Import ToyImage FileInv.FileWitness.
Definition no_area : vma := mkVma false 0 0 0 0 0 None.
(** Process 0 with one area of a page at [a] on file 0, its page table at
    4096 with one user page at virtual address 0, and the arguments [x] in
    its trapframe. *)
Definition table : mem :=
  store64 (store64 (store64 (fun _ => 0) 4096 (Z.lor (PA2PTE 8192) PTE_V)) 8192 (Z.lor (PA2PTE 12288) PTE_V)) 12288
    (Z.lor (PA2PTE 16384) (Z.lor PTE_V (Z.lor PTE_R PTE_U))).
Definition frame (x : list Z) : mem :=
  fold_left (fun m i => store64 m (20480 + tf_a (Z.of_nat i)) (nth i x 0)) (seq 0 6) table.
Definition proc0 (a : Z) : proc :=
  with_vmas (upd (fun _ => no_area) 0%nat (mkVma true a PGSIZE PROT_READ 2 0 (Some 0%nat)))
    (with_pgtbl 4096 (with_trapframe 20480 (with_ofile (upd (fun _ => None) 3%nat (Some 0%nat)) blank))).
Definition kwm (a : Z) (x : list Z) : kw :=
  mkKw (set_procs (fun _ => proc0 a) pt0) (mkPm (frame x) false 0) false (fun _ => with_f_ref 1 file0) (k_pipes kw0) (devsw kw0) cons0 uart0 [].
Definition km (a : Z) (x : list Z) : kernel := put fs_userL (kwm a x) k0.

Lemma areas0 a : 0 <= a < 2 ^ 20 -> a mod PGSIZE = 0 -> areas_ok (p_vmas (proc0 a)).
Proof.
  intros Ha Hm. split.
  - intros [|k] Hk Hu; [|discriminate Hu]. split; change (p_vmas (proc0 a) 0%nat) with (mkVma true a PGSIZE PROT_READ 2 0 (Some 0%nat)); cbn [v_addr v_length]; [done|lia|done|].
    unfold v_end, TRAPFRAME, TRAMPOLINE. rewrite MAXVA_val.
    cbn [v_addr v_length]. change (page_round_up _) with PGSIZE. unfold PGSIZE. lia.
  - intros [|j] [|k] Hj Hk Hne U V; [done|discriminate V|discriminate U|discriminate U].
Qed.

(** Map 5000 bytes of descriptor 3. *)
Lemma mmap_areas_ok_witness :
  wp (sys_mmap 0 17) (fun r s' =>
    (r = -1 /\ s' = km 0 [5000; 1; 2; 3; 0; 0]) \/
    exists k f v, (k < nvma)%nat /\ v_used (p_vmas (myproc 0 (km 0 [5000; 1; 2; 3; 0; 0])) k) = false /\
      mapped 0 (km 0 [5000; 1; 2; 3; 0; 0]) s' k f v /\
      v_used v = true /\ v_addr v = r /\ v_length v = i32 (argval 0 (km 0 [5000; 1; 2; 3; 0; 0]) 0) /\ v_f v = Some f /\
      areas_ok (p_vmas (myproc 0 s'))) (km 0 [5000; 1; 2; 3; 0; 0]).
Proof.
  apply (mmap_areas_ok 0 17); [by apply areas0|apply Nat.ltb_lt; reflexivity|reflexivity|].
  intros fd f Hf. cbn. lia.
Defined.

(** Unmap the second half of a page. *)
Lemma munmap_unaligned_panics_witness : sys_munmap 1 0 10 (km 0 [2048; 2048; 0; 0; 0; 0]) = Panic "uvmunmap: not aligned".
Proof.
  apply (munmap_unaligned_panics 1 0 10 _ 2048 2048 0).
  - split; [vm_compute; reflexivity|vm_compute; reflexivity|apply Nat.ltb_lt; reflexivity|vm_compute; reflexivity|lia].
  - reflexivity.
  - lia.
  - vm_compute. discriminate.
  - lia.
  - lia.
  - vm_compute. reflexivity.
  - vm_compute. discriminate.
Defined.
(** exec frees the old page table up to the old size only: a touched page of
    an area, which lies above it, is still mapped and freewalk panics.  Here
    the area is the page below the trapframe of a process of size 0. *)
Definition touched : mem :=
  store64 (store64 (store64 (fun _ => 0) (4096 + 8 * 255) (Z.lor (PA2PTE 8192) PTE_V)) (8192 + 8 * 511) (Z.lor (PA2PTE 12288) PTE_V)) (12288 + 8 * 509)
    (Z.lor (PA2PTE 16384) (Z.lor PTE_V (Z.lor PTE_R PTE_U))).
Theorem exec_with_mapping_panics :
  wp (walkaddr 4096 (TRAPFRAME - PGSIZE)) (fun pa _ => pa = 16384) (mkPm touched false 0) /\
  proc_freepagetable 4096 0 (mkPm touched false 0) = Panic "freewalk: leaf".
Proof. split; vm_compute; reflexivity. Qed.
End MmapWitness.
