(* ===== verification/TrapInv.v ===== *)
(** * Returning to user space

    Every way out of usertrap and forkret leaves the hart and the trapframe
    ready for the trampoline: traps go to uservec, sret drops to user mode
    with interrupts on, at the saved user pc.  The properties hold of every
    return, whatever the kernel looked like after the sleeps on the way; a
    system call that cannot sleep is followed to its return. *)

From Stdlib Require Import ZArith Lia FunctionalExtensionality.
From stdpp Require Import gmap.
From S2P Require Import Prelude Mem StringC Params Env Kalloc Vm Sleeplock Bio Log Fs Pipe ProcTable Sched Console Printf Virtio Kernel File SysFile ProcLife Trap FileInv Mmap.

(** [on_return o Q]: wherever the routine returns, [Q] holds, with any state
    found after each sleep. *)
Fixpoint on_return {S A} (o : outcome S A) (Q : A -> S -> Prop) : Prop :=
  match o with
  | Ret a s => Q a s
  | Sleep _ _ k => forall s, on_return (k s) Q
  | Panic _ | NoFuel => True
  end.
Lemma on_return_mono {S A} (o : outcome S A) (P Q : A -> S -> Prop) :
  (forall a s, P a s -> Q a s) -> on_return o P -> on_return o Q.
Proof. intros HPQ. induction o as [a s| |c s k IH|]; cbn; auto. Qed.
Lemma on_return_bind {S A B} (m : M S A) (k : A -> M S B) (Q : B -> S -> Prop) s :
  on_return (m s) (fun a s' => on_return (k a s') Q) -> on_return (bind m k s) Q.
Proof. unfold bind. intros Hm. induction (m s) as [a s'| |c s' r IH|]; cbn in *; auto. Qed.
Lemma on_return_any {S A} (o : outcome S A) : on_return o (fun _ _ => True).
Proof. induction o; cbn; auto. Qed.
(** What happened before does not matter to a property of the rest. *)
Lemma on_return_then {S A B} (m : M S A) (k : A -> M S B) (Q : B -> S -> Prop) s :
  (forall a s', on_return (k a s') Q) -> on_return (bind m k s) Q.
Proof. intros Hk. apply on_return_bind. eapply on_return_mono; [|apply on_return_any]. intros a s' _. apply Hk. Qed.
Lemma on_return_wp {S A} (m : M S A) Q s : wp m Q s -> on_return (m s) Q.
Proof. unfold wp. by destruct (m s). Qed.

(** ** The trapframe *)

Definition kmem (k : kernel) : mem := pm_mem (k_pm (fs_user k)).
Definition set_kmem (m : mem) (k : kernel) : kernel :=
  put fs_userL (put k_pmL (set_mem m (k_pm (fs_user k))) (fs_user k)) k.
Definition tf_base (p : nat) (k : kernel) : Z := p_trapframe (procs (k_pt (fs_user k)) p).

Lemma kmem_set m k : kmem (set_kmem m k) = m.
Proof. done. Qed.
Lemma tf_set_run p off v k : tf_set p off v k = Ret tt (set_kmem (store64 (kmem k) (tf_base p k + off) v) k).
Proof. done. Qed.

Section Return.
Context `{LinkerSyms} {P : Type} `{SchedulerPolicy P}.
Context (pid : Z) (me fuel : nat) (stat_pad : list Z) (usertrap_addr : Z).
Notation T := (M (tstate P)).

(** What trampoline.S finds when usertrap or forkret returns [satp]. *)
Record user_ready (s : tstate P) (satp : Z) : Prop := {
  ur_stvec : h_stvec (ts_hart s) = Uservec;
  ur_user : Z.testbit (h_sstatus (ts_hart s)) 8 = false;
  ur_intr : Z.testbit (h_sstatus (ts_hart s)) 5 = true;
  ur_off : Z.testbit (h_sstatus (ts_hart s)) 1 = false;
  ur_sepc : h_sepc (ts_hart s) = load64 (kmem (ts_k s)) (tf_base me (ts_k s) + tf_epc);
  ur_satp : satp = MAKE_SATP (p_pgtbl (procs (k_pt (fs_user (ts_k s))) me));
  ur_ksatp : load64 (kmem (ts_k s)) (tf_base me (ts_k s) + tf_kernel_satp) = u64 (h_satp (ts_hart s));
  ur_ksp : load64 (kmem (ts_k s)) (tf_base me (ts_k s) + tf_kernel_sp) = u64 (p_kstack (procs (k_pt (fs_user (ts_k s))) me) + PGSIZE);
  ur_ktrap : load64 (kmem (ts_k s)) (tf_base me (ts_k s) + tf_kernel_trap) = u64 usertrap_addr;
  ur_khart : load64 (kmem (ts_k s)) (tf_base me (ts_k s) + tf_kernel_hartid) = u64 (h_tp (ts_hart s));
}.

(** The words of the trapframe prepare_return writes. *)
Definition kernel_words (b : Z) (s : kernel) (h : hart) (kstack : Z) : mem :=
  store64 (store64 (store64 (store64 (kmem s) (b + tf_kernel_satp) (h_satp h)) (b + tf_kernel_sp) (u64 (kstack + PGSIZE)))
    (b + tf_kernel_trap) usertrap_addr) (b + tf_kernel_hartid) (h_tp h).
Lemma store_out n m a v x : ~ a <= x < a + Z.of_nat n -> store n m a v x = m x.
Proof. intros Hx. apply mwrite_out. rewrite length_le_enc. lia. Qed.
Lemma kernel_words_out b k h ks x : ~ b <= x < b + 24 -> ~ b + 32 <= x < b + 40 -> kernel_words b k h ks x = kmem k x.
Proof. intros. unfold kernel_words, tf_kernel_satp, tf_kernel_sp, tf_kernel_trap, tf_kernel_hartid. rewrite !store_out by lia. done. Qed.
Lemma kernel_words_a0 b k h ks : load64 (kernel_words b k h ks) (b + tf_a 0) = load64 (kmem k) (b + tf_a 0).
Proof. apply load_ext. intros i Hi. unfold tf_a. apply kernel_words_out; lia. Qed.
Lemma sstatus_bits x :
  let y := Z.lor (Z.land (Z.land x (Z.lnot SSTATUS_SIE)) (Z.lnot SSTATUS_SPP)) SSTATUS_SPIE in
  Z.testbit y 8 = false /\ Z.testbit y 5 = true /\ Z.testbit y 1 = false.
Proof.
  cbv zeta. rewrite !Z.lor_spec, !Z.land_spec, !Z.lnot_spec by lia. change SSTATUS_SIE with 2. change SSTATUS_SPP with 256. change SSTATUS_SPIE with 32.
  change (Z.testbit 2 8) with false. change (Z.testbit 256 8) with true. change (Z.testbit 32 8) with false.
  change (Z.testbit 32 5) with true. change (Z.testbit 2 1) with true. change (Z.testbit 32 1) with false.
  cbn [negb]. by rewrite ?andb_false_r, ?andb_true_r, ?orb_true_r.
Qed.

Lemma prepare_return_spec s :
  wp (prepare_return me usertrap_addr) (fun _ s' =>
    user_ready s' (MAKE_SATP (p_pgtbl (procs (k_pt (fs_user (ts_k s'))) me))) /\
    ts_k s' = set_kmem (kernel_words (tf_base me (ts_k s)) (ts_k s) (ts_hart s) (p_kstack (procs (k_pt (fs_user (ts_k s))) me))) (ts_k s)) s.
Proof.
  unfold wp, prepare_return, intr_off, w_stvec, w_sstatus, w_sepc, on_k, on_hart, get_hart. cbn.
  split; [|done]. destruct (sstatus_bits (h_sstatus (ts_hart s))) as (B1 & B2 & B3).
  split; cbn; try done. all: unfold tf_epc, tf_kernel_satp, tf_kernel_sp, tf_kernel_trap, tf_kernel_hartid, tf_base, kmem; cbn.
  all: rewrite ?load_store_other by lia; rewrite ?load_store_same; try done. apply u64_u64.
Qed.

Lemma killed_free q k : p_lock (procs (k_pt (fs_user k)) q) = false -> on_pt (killed q) k = Ret (p_killed (procs (k_pt (fs_user k)) q)) k.
Proof.
  intros Hl. destruct k as [lg sb il ino [pt pm0 fl fi pi dv co ua wo]]. cbn in Hl. destruct pt as [ps n1 l1 n2 l2 l3 c ip t tl no ru]. cbn in Hl.
  unfold on_pt, on_kw, killed, lock, acquire, zoom, bind, gets, obind. cbn. rewrite Hl. cbn. unfold gets, release, bind, gets. cbn. rewrite upd_eq. cbn.
  unfold set_k_pt, set_noff, on_proc, set_procs. cbn. rewrite upd_upd, upd_eq. replace (no + 1 - 1) with no by lia. do 4 f_equal.
  rewrite <- (upd_id ps q) at 3. f_equal. destruct (ps q). cbn in *. by rewrite Hl.
Qed.

Lemma store_store n m a v w : store n (store n m a v) a w = store n m a w.
Proof.
  extensionality x. unfold store, mwrite. rewrite !length_le_enc. by destruct (_ && _).
Qed.

(** The kernel when the system call starts: the saved pc is past the ecall. *)
Definition entered (s : tstate P) : kernel :=
  set_kmem (store64 (kmem (ts_k s)) (tf_base me (ts_k s) + tf_epc) (u64 (h_sepc (ts_hart s) + 4))) (ts_k s).
Lemma entered_eq s : 0 <= h_sepc (ts_hart s) < 2 ^ 64 ->
  let k := set_kmem (store64 (kmem (ts_k s)) (tf_base me (ts_k s) + tf_epc) (h_sepc (ts_hart s))) (ts_k s) in
  set_kmem (store64 (kmem k) (tf_base me k + tf_epc) (u64 (load64 (kmem k) (tf_base me k + tf_epc) + 4))) k = entered s.
Proof.
  intros Hs k. unfold entered. change (tf_base me k) with (tf_base me (ts_k s)). unfold k. rewrite !kmem_set, load64_store64_same, store_store by done. done.
Qed.
(** A system call from user mode by a process that was not killed. *)
Record from_ecall (s : tstate P) : Prop := {
  fe_user : Z.land (h_sstatus (ts_hart s)) SSTATUS_SPP = 0;
  fe_cause : h_scause (ts_hart s) = 8;
  fe_sepc : 0 <= h_sepc (ts_hart s) < 2 ^ 64;
  fe_lock : p_lock (procs (k_pt (fs_user (ts_k s))) me) = false;
  fe_alive : p_killed (procs (k_pt (fs_user (ts_k s))) me) = false;
}.
(** The call returned [v] with the process alive and unlocked. *)
Definition call_done (R : Z -> kernel -> Prop) (r : sysres) (k : kernel) : Prop :=
  exists v, r = Done v /\ R v k /\ p_lock (procs (k_pt (fs_user k)) me) = false /\ p_killed (procs (k_pt (fs_user k)) me) = false.

Lemma wp_tf_set p off v (Q : unit -> tstate P -> Prop) s :
  Q tt (mkTs (set_kmem (store64 (kmem (ts_k s)) (tf_base p (ts_k s) + off) v) (ts_k s)) (ts_hart s) (ts_disk s) (ts_policy s)) ->
  wp (on_k (tf_set p off v)) Q s.
Proof. done. Qed.
Lemma wp_killed (Q : bool -> tstate P -> Prop) s : p_lock (procs (k_pt (fs_user (ts_k s))) me) = false ->
  Q (p_killed (procs (k_pt (fs_user (ts_k s))) me)) s -> wp (on_k (on_pt (killed me))) Q s.
Proof. intros Hl HQ. unfold wp, on_k, zoom. cbn [view ts_kL]. rewrite killed_free by done. cbn. by destruct s. Qed.

(** The dispatch: the value the call returns is in a0. *)
Lemma syscall_spec policy f R k : 0 < i32 (load64 (kmem k) (tf_base me k + tf_a 7)) ->
  syscalls policy pid me fuel stat_pad (i32 (load64 (kmem k) (tf_base me k + tf_a 7))) = Some f -> wp f (call_done R) k ->
  wp (syscall policy pid me fuel stat_pad) (fun alive k' => alive = true /\ exists v k1, R v k1 /\
    k' = set_kmem (store64 (kmem k1) (tf_base me k1 + tf_a 0) (u64 v)) k1 /\
    p_lock (procs (k_pt (fs_user k1)) me) = false /\ p_killed (procs (k_pt (fs_user k1)) me) = false) k.
Proof.
  intros Hn Hf Hw. unfold syscall. wp_step. unfold tf_get. wp_step. fold (kmem k) (tf_base me k). rewrite (proj2 (Z.ltb_lt _ _)), Hf by done.
  wp_step. eapply wp_mono; [exact Hw|]. intros r k1 (v & -> & HR & Hl & Hd). cbn. split; [done|]. by exists v, k1.
Qed.

Lemma usertrap_call s f R : from_ecall s -> let k := entered s in
  0 < i32 (load64 (kmem k) (tf_base me k + tf_a 7)) ->
  syscalls (ts_policy s) pid me fuel stat_pad (i32 (load64 (kmem k) (tf_base me k + tf_a 7))) = Some f -> wp f (call_done R) k ->
  wp (usertrap pid me fuel stat_pad usertrap_addr) (fun r s' => exists satp v k1, r = Some satp /\ user_ready s' satp /\ R v k1 /\
    load64 (kmem (ts_k s')) (tf_base me (ts_k s') + tf_a 0) = u64 v /\
    forall x, ~ tf_base me k1 <= x < tf_base me k1 + 24 -> ~ tf_base me k1 + 32 <= x < tf_base me k1 + 40 ->
      ~ tf_base me k1 + 112 <= x < tf_base me k1 + 120 -> kmem (ts_k s') x = kmem k1 x) s.
Proof.
  intros [F1 F2 F3 F4 F5] k Hn Hf Hw. unfold usertrap, get_hart. wp_step. wp_step. rewrite F1. cbn [Z.eqb negb]. wp_step. unfold w_stvec, on_hart. wp_step. wp_step.
  apply wp_tf_set. wp_step. unfold usertrap_cause, get_hart. wp_step. wp_step. cbn [ts_hart h_scause ts_k ts_disk ts_policy]. rewrite F2. cbn [Z.eqb Pos.eqb].
  wp_step. apply wp_killed; [done|]. cbn [ts_k]. change (p_killed _) with (p_killed (procs (k_pt (fs_user (ts_k s))) me)). rewrite F5. wp_step.
  unfold tf_get. unfold on_k at 1. wp_step. wp_step. cbn [view ts_kL ts_k]. wp_step. apply wp_tf_set. cbn [put ts_kL ts_k ts_hart ts_disk ts_policy].
  match goal with |- context [mkTs (set_kmem ?m ?a) _ _ _] => replace (set_kmem m a) with k by (symmetry; exact (entered_eq s F3)) end.
  unfold intr_on, get_hart, w_sstatus, on_hart. do 4 wp_step. wp_step. wp_step. wp_step. apply wp_zoom. cbn [view ts_kL ts_k ts_policy id].
  eapply wp_mono; [by apply (syscall_spec _ f R)|]. intros alive k' (-> & v & k1 & HR & -> & L1 & L2). wp_step. cbn [negb Z.eqb when andb]. wp_step. wp_step. wp_step.
  apply wp_killed; [exact L1|]. cbn [ts_k put ts_kL]. change (p_killed _) with (p_killed (procs (k_pt (fs_user k1)) me)). rewrite L2. wp_step. wp_step. wp_step. wp_step. wp_step.
  eapply wp_mono; [apply prepare_return_spec|]. intros [] s' [Hr Hk]. cbn [ts_k put ts_kL] in Hk. wp_step. unfold on_k, kproc. do 3 wp_step. assert (put ts_kL (view ts_kL s') s' = s') as -> by (by destruct s').
  eexists _, v, k1. split; [done|]. split; [exact Hr|]. split; [done|]. rewrite Hk, kmem_set. cbn [ts_k]. split.
  - etransitivity; [apply kernel_words_a0|]. rewrite kmem_set. etransitivity; [apply load_store_same|]. apply u64_u64.
  - intros x X1 X2 X3. rewrite kernel_words_out by done. rewrite kmem_set. apply store_out. unfold tf_a. lia.
Qed.

Definition returns_ready (o : outcome (tstate P) (option Z)) : Prop :=
  on_return o (fun r s' => forall satp, r = Some satp -> user_ready s' satp).
Lemma usertrap_returns s : returns_ready (usertrap pid me fuel stat_pad usertrap_addr s).
Proof.
  unfold returns_ready, usertrap. apply on_return_then. intros r s1. destruct (negb _); [done|].
  apply on_return_then; intros _ s2. apply on_return_then; intros _ s3. apply on_return_then; intros [w alive] s4. destruct (negb alive); [done|].
  apply on_return_then; intros _ s5. apply on_return_then; intros [|] s6; [apply on_return_then; done|].
  apply on_return_then; intros s7 s8. apply on_return_then; intros _ s9.
  apply on_return_bind, on_return_wp. eapply wp_mono; [apply prepare_return_spec|]. intros _ s10 [Hr _]. cbn. intros satp [= <-]. by destruct s10.
Qed.

(** C39: Return to user space.  (1) Wherever usertrap hands a page table back
    to the trampoline, whatever happened on the way and whatever the other
    processes did while this one slept, traps go to uservec, interrupts are
    off, sret goes to user mode with interrupts on at the saved user pc, and
    the trapframe holds the kernel stack, page table, hart and handler for
    the next trap.  (2) A system call that returns [v] in the kernel makes
    usertrap return; the user finds [v] in a0, and the rest of memory as the
    call left it but for the kernel words of its trapframe. *)
Theorem return_to_user s : returns_ready (usertrap pid me fuel stat_pad usertrap_addr s) /\
  forall f R, from_ecall s -> let k := entered s in
  0 < i32 (load64 (kmem k) (tf_base me k + tf_a 7)) ->
  syscalls (ts_policy s) pid me fuel stat_pad (i32 (load64 (kmem k) (tf_base me k + tf_a 7))) = Some f -> wp f (call_done R) k ->
  wp (usertrap pid me fuel stat_pad usertrap_addr) (fun r s' => exists satp v k1, r = Some satp /\ user_ready s' satp /\ R v k1 /\
    load64 (kmem (ts_k s')) (tf_base me (ts_k s') + tf_a 0) = u64 v /\
    forall x, ~ tf_base me k1 <= x < tf_base me k1 + 24 -> ~ tf_base me k1 + 32 <= x < tf_base me k1 + 40 ->
      ~ tf_base me k1 + 112 <= x < tf_base me k1 + 120 -> kmem (ts_k s') x = kmem k1 x) s.
Proof. split; [apply usertrap_returns|]. intros f R. apply usertrap_call. Qed.
End Return.

Module ReturnWitness.
Import ToyImage MmapWitness.
(** Process 0 calls getpid (11) with its registers in the trapframe. *)
Definition k1 : kernel := set_kmem (store64 (frame []) (20480 + tf_a 7) 11) (km 0 []).
Definition hart0 : hart := mkHart 32 1000 8 0 Uservec 7 0 0 0 [] [].
Definition s0 : tstate RR := mkTs k1 hart0 vdisk0 (mkRR 0).
Lemma return_to_user_witness : returns_ready 0 5 (usertrap 1 0 10 [] 5 s0) /\
  wp (usertrap 1 0 10 [] 5) (fun r s' => exists satp v k, r = Some satp /\ user_ready 0 5 s' satp /\
    v = p_pid (procs (k_pt (fs_user k)) 0) /\ load64 (kmem (ts_k s')) (tf_base 0 (ts_k s') + tf_a 0) = u64 v /\
    forall x, ~ tf_base 0 k <= x < tf_base 0 k + 24 -> ~ tf_base 0 k + 32 <= x < tf_base 0 k + 40 ->
      ~ tf_base 0 k + 112 <= x < tf_base 0 k + 120 -> kmem (ts_k s') x = kmem k x) s0.
Proof.
  destruct (return_to_user 1 0 10 [] 5 s0) as [H1 H2]. split; [exact H1|].
  apply (H2 (done (sys_getpid 0)) (fun v k => v = p_pid (procs (k_pt (fs_user k)) 0))).
  - split; [reflexivity|reflexivity|cbn; lia|reflexivity|reflexivity].
  - vm_compute. reflexivity.
  - replace (i32 _) with 11 by (vm_compute; reflexivity). reflexivity.
  - eexists. repeat split.
Defined.
End ReturnWitness.
