(* ===== verification/Ulib.v ===== *)
(** * user/ulib.c: the C library of user programs

    The memory routines are the C loops over a flat memory.  A program that
    makes system calls is a tree: what it does next is a function of what the
    kernel answered.  [run] executes a program against a kernel (class
    [Kernel]); [Streams] is the part of a kernel's contract on read and write
    that theorems about programs need. *)

From Stdlib Require Import ZArith Lia.
From S2P Require Import Prelude Mem StringC Params Printf.

(** ** Strings in memory *)

(** [while(( *s++ = *t++) != 0);]; [None] is a source longer than the budget. *)
Fixpoint strcpy (fuel : nat) (m : mem) (s t : Z) : option mem :=
  match fuel with
  | O => None
  | S fuel =>
      let m := mset m s (m t) in
      if m s =? 0 then Some m else strcpy fuel m (s + 1) (t + 1)
  end.

(** [while( *p && *p == *q) p++, q++;] *)
Fixpoint strcmp (fuel : nat) (m : mem) (p q : Z) : option Z :=
  match fuel with
  | O => None
  | S fuel =>
      if negb (m p =? 0) && (m p =? m q) then strcmp fuel m (p + 1) (q + 1)
      else Some (m p - m q)
  end.

(** memset, memcmp and strlen repeat the loops of kernel/string.c. *)
Definition umemset (m : mem) (dst c n : Z) : mem := memset_loop (Z.to_nat n) m dst c.
Definition umemcmp (m : mem) (s1 s2 n : Z) : Z := memcmp_loop (Z.to_nat n) m s1 s2.
Definition ustrlen (fuel : nat) (m : mem) (s : Z) : option Z := strlen_loop fuel m s 0.

(** [n] is an int. *)
Definition umemmove (m : mem) (vdst vsrc n : Z) : mem :=
  if vdst <? vsrc then move_up (Z.to_nat n) m vdst vsrc
  else move_down (Z.to_nat n) m (vdst + n) (vsrc + n).
Definition umemcpy (m : mem) (dst src n : Z) : mem := umemmove m dst src n.

(** ** System calls and programs *)

Record stat := mkStat { st_dev : Z; st_ino : Z; st_type : Z; st_nlink : Z; st_size : Z }.
#[export] Instance stat_inhabited : Inhabited stat := populate (mkStat 0 0 0 0 0).

(** The system calls the programs make, with what the kernel answers: the
    result and what it stored through pointer arguments. *)
Inductive sys : Set -> Set :=
| SFork : sys Z
| SWait : sys Z                                   (* wait(0) *)
| SPipe : sys (Z * Z * Z)                         (* result, p[0], p[1] *)
| SRead (fd n : Z) : sys (Z * list Z)
| SWrite (fd : Z) (bs : list Z) : sys Z
| SClose (fd : Z) : sys Z
| SKill (pid : Z) : sys Z
| SExec (path : list Z) (argv : list (list Z)) : sys Z
| SOpen (path : list Z) (mode : Z) : sys Z
| SMknod (path : list Z) (major minor : Z) : sys Z
| SUnlink (path : list Z) : sys Z
| SFstat (fd : Z) : sys (Z * stat)
| SLink (old new : list Z) : sys Z
| SMkdir (path : list Z) : sys Z
| SChdir (path : list Z) : sys Z
| SDup (fd : Z) : sys Z
| SSbrk (n how : Z) : sys Z.

Inductive prog (A : Type) : Type :=
| Done (a : A)
| Exit (status : Z)
| Stuck                                           (* undefined behaviour *)
| OutOfFuel
| Sys {R : Set} (c : sys R) (k : R -> prog A).
Arguments Done {A}. Arguments Exit {A}. Arguments Stuck {A}. Arguments OutOfFuel {A}. Arguments Sys {A R}.

Definition call {R : Set} (c : sys R) : prog R := Sys c Done.
Fixpoint pbind {A B} (p : prog A) (f : A -> prog B) : prog B :=
  match p with
  | Done a => f a
  | Exit s => Exit s
  | Stuck => Stuck
  | OutOfFuel => OutOfFuel
  | Sys c k => Sys c (fun r => pbind (k r) f)
  end.
#[export] Instance prog_ret : MRet prog := @Done.
#[export] Instance prog_bind : MBind prog := fun A B f p => pbind p f.

(** [for(i = 0; i < argc; i++)] over what is left of argv. *)
Fixpoint each {A} (f : A -> prog unit) (l : list A) : prog unit :=
  match l with [] => Done tt | a :: l => _ ← f a; each f l end.

(** The bytes read(2) stored at the start of a buffer. *)
Definition overlay (bs buf : list Z) : list Z := bs ++ drop (length bs) buf.

(** ** Library routines *)

Definition SBRK_EAGER : Z := 1.
Definition SBRK_LAZY : Z := 2.

(** main's result is the exit status. *)
Definition start (main : prog Z) : prog unit := r ← main; Exit r.

(** [for(i=0; i+1 < max; )]: [n] characters still fit; [c] is the local the
    character is read into. *)
Fixpoint gets_loop (n : nat) (c : Z) : prog (list Z) :=
  match n with
  | O => Done []
  | S n =>
      '(cc, bs) ← call (SRead 0 1);
      if cc <? 1 then Done [] else
      let c := nth 0 bs c in
      if (c =? 10) || (c =? 13) then Done [c] else cs ← gets_loop n c; Done (c :: cs)
  end.
(** What gets leaves in the buffer, up to its terminator. *)
Definition gets (max : Z) : prog (list Z) :=
  cs ← gets_loop (Z.to_nat (max - 1)) 0; Done (cs ++ [0]).

(** stat: the result, and the struct stat as it is afterwards. *)
Definition ustat (n : list Z) (st : stat) : prog (Z * stat) :=
  fd ← call (SOpen n O_RDONLY);
  if fd <? 0 then Done (-1, st) else
  '(r, st) ← call (SFstat fd);
  _ ← call (SClose fd);
  Done (r, st).

Definition usbrk (n : Z) : prog Z := call (SSbrk n SBRK_EAGER).
Definition sbrklazy (n : Z) : prog Z := call (SSbrk n SBRK_LAZY).

(** user/printf.c: one write a character. *)
Definition putc (fd c : Z) : prog unit := _ ← call (SWrite fd [c]); Done tt.
Definition fprintf (fd : Z) (fmt : list Z) (args : list va) : prog unit :=
  match vprintf udigits fmt args with
  | Some cs => each (putc fd) cs
  | None => Stuck
  end.
Definition printf (fmt : list Z) (args : list va) : prog unit := fprintf 1 fmt args.

(** ** Running a program *)

(** A kernel as one process sees it: the answer to each call; [None] when the
    call does not return (exec succeeded, or the process was killed). *)
Class Kernel (W : Type) := kcall : forall R : Set, sys R -> W -> option R * W.
Arguments kcall {W _ R}.

Inductive outcome (A : Type) :=
| RDone (a : A) | RExit (status : Z) | RGone | RStuck | ROutOfFuel.
Arguments RDone {A}. Arguments RExit {A}. Arguments RGone {A}. Arguments RStuck {A}. Arguments ROutOfFuel {A}.

Section Run.
Context {W : Type} `{Kernel W}.

Fixpoint run {A} (p : prog A) (w : W) : outcome A * W :=
  match p with
  | Done a => (RDone a, w)
  | Exit s => (RExit s, w)
  | Stuck => (RStuck, w)
  | OutOfFuel => (ROutOfFuel, w)
  | Sys c k => match kcall c w with (Some r, w) => run (k r) w | (None, w) => (RGone, w) end
  end.

Lemma run_bind {A B} (p : prog A) (f : A -> prog B) w :
  run (p ≫= f) w =
  match run p w with
  | (RDone a, w) => run (f a) w
  | (RExit s, w) => (RExit s, w) | (RGone, w) => (RGone, w)
  | (RStuck, w) => (RStuck, w) | (ROutOfFuel, w) => (ROutOfFuel, w)
  end.
Proof.
  revert w. induction p as [a|s| | |R c k IH]; intros w; try done.
  cbn. destruct (kcall c w) as [[r|] w']; [apply IH|done].
Qed.
Lemma run_call {R : Set} (c : sys R) {B} (f : R -> prog B) w r w' :
  kcall c w = (Some r, w') -> run (call c ≫= f) w = run (f r) w'.
Proof. intros E. cbn. by rewrite E. Qed.
End Run.

(** read and write on streams: each descriptor has bytes still to come,
    [output] is what descriptor 1 received.  A read delivers the next bytes,
    at most as many as asked, none only at the end, or fails; a write
    transfers a prefix, all of it when it says so. *)
Class Streams (W : Type) `{Kernel W} := {
  input : W -> Z -> list Z;
  output : W -> list Z;
  read_law fd n w : 0 <= n ->
    exists r bs w', kcall (SRead fd n) w = (Some (r, bs), w') /\ output w' = output w /\
      (r < 0 /\ bs = [] /\ (forall fd, input w' fd = input w fd) \/
       r = Z.of_nat (length bs) /\ r <= n /\ input w fd = bs ++ input w' fd /\ (bs = [] -> n = 0 \/ input w fd = []));
  write_law fd bs w :
    exists r k w', kcall (SWrite fd bs) w = (Some r, w') /\ (forall fd, input w' fd = input w fd) /\
      output w' = (if fd =? 1 then output w ++ take k bs else output w) /\
      (r = Z.of_nat (length bs) -> take k bs = bs)
}.

Section Laws.
Context {W : Type} `{Streams W}.

(** Printing never blocks a program: it returns, and reads nothing. *)
Lemma run_putcs fd cs : forall w,
  exists w', run (each (putc fd) cs) w = (RDone tt, w') /\ (forall fd, input w' fd = input w fd) /\
    (fd <> 1 -> output w' = output w).
Proof.
  induction cs as [|c cs IH]; intros w; [by exists w|].
  destruct (write_law fd [c] w) as (r & k & w1 & E & Hi & Ho & _).
  destruct (IH w1) as (w2 & E2 & Hi2 & Ho2). exists w2. cbn. rewrite E. cbn. rewrite E2.
  split; [done|]. split; [intros; by rewrite Hi2|]. intros Hfd. rewrite Ho2, Ho by done.
  by rewrite (proj2 (Z.eqb_neq fd 1) Hfd).
Qed.

(** The bytes a call of gets takes from its input. *)
Definition eol (c : Z) : Prop := c = 10 \/ c = 13.
Record line_read (n : nat) (cs : list Z) (before after : list Z) : Prop := {
  lr_input : before = cs ++ after;
  lr_length : (length cs <= n)%nat;
  lr_inner : forall i c, cs !! i = Some c -> eol c -> S i = length cs;
}.

Lemma gets_loop_spec n : forall c w,
  exists cs w', run (gets_loop n c) w = (RDone cs, w') /\ output w' = output w /\
    line_read n cs (input w 0) (input w' 0).
Proof.
  induction n as [|n IH]; intros c w.
  { exists [], w. split_and!; [done..|]. split; [done|cbn; lia|done]. }
  cbn [gets_loop]. destruct (read_law 0 1 w) as (r & bs & w1 & E & Ho & Hr); [lia|].
  setoid_rewrite (run_call _ _ _ _ _ E).
  destruct (Z.ltb_spec r 1).
  { exists [], w1. split_and!; [done..|]. split; [|cbn; lia|done].
    destruct Hr as [(_ & _ & Hi)|(-> & _ & Hi & _)]; [by rewrite Hi|]. destruct bs; [done|cbn in *; lia]. }
  destruct Hr as [[? _]|(Hlen & Hr1 & Hi & _)]; [lia|]. destruct bs as [|b [|]]; cbn in Hlen; [lia| |lia].
  cbn [nth]. destruct ((b =? 10) || (b =? 13)) eqn:Eb.
  { exists [b], w1. split_and!; [done..|]. split; [done|cbn; lia|]. by intros [|] ? [= <-]. }
  destruct (IH b w1) as (cs & w2 & E2 & Ho2 & [Hin Hl Hlast]). exists (b :: cs), w2.
  rewrite run_bind, E2. split_and!; [done|congruence|]. split; [by rewrite Hi, Hin|cbn; lia|].
  intros [|i] c' Hc He; [|cbn; f_equal; by eapply Hlast].
  injection Hc as <-. apply orb_false_iff in Eb as [E3%Z.eqb_neq E4%Z.eqb_neq]. by destruct He.
Qed.

(** gets(buf, max) never stores more than [max] bytes, the terminator
    included, and stops at the first end of line: what it stores is the next
    bytes of the input, only the last of them a newline or a return. *)
Theorem gets_bounded max w : 1 <= max ->
  exists cs w', run (gets max) w = (RDone (cs ++ [0]), w') /\
    Z.of_nat (length (cs ++ [0])) <= max /\ output w' = output w /\
    line_read (Z.to_nat (max - 1)) cs (input w 0) (input w' 0).
Proof.
  intros Hmax. unfold gets. destruct (gets_loop_spec (Z.to_nat (max - 1)) 0 w) as (cs & w' & E & Ho & Hl).
  exists cs, w'. rewrite run_bind, E. split_and!; try done. destruct Hl. rewrite length_app. cbn. lia.
Qed.
End Laws.

(** ** What the string routines compute *)

(** [m] holds the string [a] at [p]. *)
Definition holds (m : mem) (p : Z) (a : list Z) : Prop :=
  Forall (fun x => x <> 0) a /\ mread m p (S (length a)) = a ++ [0].

Lemma holds_nil m p : holds m p [] <-> m p = 0.
Proof. unfold holds. cbn. split; [by intros [_ [=]]|intros ->; by split; [constructor|]]. Qed.
Lemma holds_cons m p x a : holds m p (x :: a) <-> m p = x /\ x <> 0 /\ holds m (p + 1) a.
Proof.
  unfold holds. rewrite Forall_cons. cbn [length mread app]. split.
  - intros [[Hx Ha] E]. injection E as E1 E2. by split_and!.
  - intros (E1 & Hx & Ha & E2). split; [done|]. by rewrite E1, E2.
Qed.
Lemma holds_ext m m' p a :
  (forall x, p <= x <= p + Z.of_nat (length a) -> m' x = m x) -> holds m p a -> holds m' p a.
Proof.
  intros He [Hn E]. split; [done|]. rewrite <- E. apply mread_ext. intros i Hi. apply He. lia.
Qed.

(** strcmp on two strings: 0 exactly when they are equal. *)
Lemma strcmp_spec a : forall fuel m p q b, (length a < fuel)%nat -> holds m p a -> holds m q b ->
  exists r, strcmp fuel m p q = Some r /\ (r = 0 <-> a = b).
Proof.
  induction a as [|x a IH]; intros [|fuel] m p q b Hf Ha Hb; try (cbn in Hf; lia); cbn [strcmp].
  - apply holds_nil in Ha. rewrite Ha. eexists. split; [done|]. destruct b as [|y b].
    + apply holds_nil in Hb. rewrite Hb. by split.
    + apply holds_cons in Hb as (-> & Hy & _). split; [lia|done].
  - apply holds_cons in Ha as (-> & Hx & Ha). rewrite (proj2 (Z.eqb_neq x 0) Hx). cbn [negb andb].
    destruct b as [|y b].
    + apply holds_nil in Hb. rewrite Hb, (proj2 (Z.eqb_neq x 0) Hx). eexists. split; [done|]. split; [lia|done].
    + apply holds_cons in Hb as (-> & Hy & Hb). destruct (Z.eqb_spec x y) as [->|Hne].
      * cbn in Hf. destruct (IH fuel m (p + 1) (q + 1) b) as (r & E & Hr); [lia|done|done|].
        exists r. split; [done|]. rewrite Hr. split; [by intros ->|by intros [= ->]].
      * eexists. split; [done|]. split; [lia|by intros [= -> _]].
Qed.

(** strcpy copies a string to memory it does not overlap, and changes nothing
    else. *)
Lemma strcpy_spec a : forall fuel m s t, (length a < fuel)%nat -> holds m t a ->
  s + Z.of_nat (length a) < t \/ t + Z.of_nat (length a) < s ->
  exists m', strcpy fuel m s t = Some m' /\ holds m' s a /\
    (forall x, x < s \/ s + Z.of_nat (length a) < x -> m' x = m x).
Proof.
  induction a as [|x a IH]; intros [|fuel] m s t Hf Ha Hd; try (cbn in Hf; lia); cbn [strcpy]; rewrite mset_eq.
  - apply holds_nil in Ha. rewrite Ha. eexists. split; [done|]. cbn in *. split.
    + by rewrite holds_nil, mset_eq.
    + intros x Hx. apply mset_ne. lia.
  - apply holds_cons in Ha as (E & Hx & Ha). rewrite E, (proj2 (Z.eqb_neq x 0) Hx). cbn [length] in *.
    destruct (IH fuel (mset m s x) (s + 1) (t + 1)) as (m' & E' & Hh & Ho); [lia| |lia|].
    { eapply holds_ext; [|done]. intros y Hy. apply mset_ne. lia. }
    exists m'. split; [done|]. split.
    + rewrite holds_cons, Ho, mset_eq by lia. done.
    + intros y Hy. rewrite Ho by lia. apply mset_ne. lia.
Qed.

(** memmove of the user library has the effect of memmove of the kernel,
    though it picks the direction by another test; a negative count moves
    nothing. *)
Theorem umemmove_same m dst src n x :
  umemmove m dst src n x = if n <? 0 then m x else memmove m dst src n x.
Proof.
  unfold umemmove. destruct (Z.ltb_spec n 0).
  - replace (Z.to_nat n) with 0%nat by lia. by destruct (dst <? src).
  - rewrite memmove_at by done. destruct (Z.ltb_spec dst src).
    + rewrite move_up_at by lia. by rewrite Z2Nat.id.
    + rewrite move_down_at by lia. rewrite Z2Nat.id by done. bdestruct_all; first [done|f_equal; lia|lia].
Qed.
