(* ===== verification/UserProg.v ===== *)
(** * user/*.c: the small programs, main of grep and of the shell

    Each main is a program over the system calls of [Ulib]; [argv] is the list
    of the argument strings, and loops that last as long as their input does
    take fuel.  cat, wc and grep are proved against any kernel that keeps the
    contract [Streams]; [Script] is a small such kernel to run them on. *)

From Stdlib Require Import ZArith Lia.
From S2P Require Import Prelude Mem Params Fs Kernel Grep Shell Printf Ulib.

(** A string literal that ends in a newline. *)
Definition ln (s : string) : list Z := bytes s ++ [10].
Definition str (s : list Z) : va := VStr (Some s).
Definition int (x : Z) : va := VWord x.
(** [argv[1]], [argv[2]], ... *)
Definition args (argv : list (list Z)) : list (list Z) := drop 1 argv.
Definition arg (argv : list (list Z)) (i : nat) : list Z := nth i argv [].
Definition argc (argv : list (list Z)) : nat := length argv.


(** ** user/cat.c *)

(** [buf], 512 bytes, is global: it keeps what earlier reads left. *)
Fixpoint cat (fuel : nat) (fd : Z) (buf : list Z) : prog (list Z) :=
  match fuel with
  | O => OutOfFuel
  | S fuel =>
      '(n, bs) ← call (SRead fd 512);
      let buf := overlay bs buf in
      if 0 <? n then
        r ← call (SWrite 1 (take (Z.to_nat n) buf));
        if negb (r =? n) then _ ← fprintf 2 (ln "cat: write error") []; Exit 1
        else cat fuel fd buf
      else if n <? 0 then _ ← fprintf 2 (ln "cat: read error") []; Exit 1
      else Done buf
  end.
Fixpoint cat_files (fuel : nat) (files : list (list Z)) (buf : list Z) : prog unit :=
  match files with
  | [] => Exit 0
  | f :: files =>
      fd ← call (SOpen f O_RDONLY);
      if fd <? 0 then _ ← fprintf 2 (ln "cat: cannot open %s") [str f]; Exit 1 else
      buf ← cat fuel fd buf;
      _ ← call (SClose fd);
      cat_files fuel files buf
  end.
Definition cat_main (fuel : nat) (argv : list (list Z)) : prog unit :=
  let buf := replicate 512 0 in
  if Nat.leb (argc argv) 1 then _ ← cat fuel 0 buf; Exit 0 else
  cat_files fuel (args argv) buf.

(** ** user/wc.c *)

Record counts := mkCounts { c_lines : Z; c_words : Z; c_chars : Z; c_inword : bool }.
Definition wc_seps : list Z := [32; 13; 9; 10; 11].
(** The body of the loop over the buffer, on [buf[i]]. *)
Definition wc_char (st : counts) (x : Z) : counts :=
  let c := i32 (c_chars st + 1) in
  let l := if x =? 10 then i32 (c_lines st + 1) else c_lines st in
  if in_chars wc_seps x then mkCounts l (c_words st) c false
  else if negb (c_inword st) then mkCounts l (i32 (c_words st + 1)) c true
  else mkCounts l (c_words st) c (c_inword st).

Definition wc_print (name : list Z) (st : counts) : prog unit :=
  printf (ln "%d %d %d %s") [int (c_lines st); int (c_words st); int (c_chars st); str name].
Fixpoint wc_loop (fuel : nat) (fd : Z) (name buf : list Z) (st : counts) : prog (list Z) :=
  match fuel with
  | O => OutOfFuel
  | S fuel =>
      '(n, bs) ← call (SRead fd 512);
      let buf := overlay bs buf in
      if 0 <? n then wc_loop fuel fd name buf (fold_left wc_char (take (Z.to_nat n) buf) st)
      else if n <? 0 then _ ← printf (ln "wc: read error") []; Exit 1
      else
        _ ← wc_print name st; Done buf
  end.
Definition wc (fuel : nat) (fd : Z) (name buf : list Z) : prog (list Z) :=
  wc_loop fuel fd name buf (mkCounts 0 0 0 false).
Fixpoint wc_files (fuel : nat) (files : list (list Z)) (buf : list Z) : prog unit :=
  match files with
  | [] => Exit 0
  | f :: files =>
      fd ← call (SOpen f O_RDONLY);
      if fd <? 0 then _ ← printf (ln "wc: cannot open %s") [str f]; Exit 1 else
      buf ← wc fuel fd f buf;
      _ ← call (SClose fd);
      wc_files fuel files buf
  end.
Definition wc_main (fuel : nat) (argv : list (list Z)) : prog unit :=
  let buf := replicate 512 0 in
  if Nat.leb (argc argv) 1 then _ ← wc fuel 0 [] buf; Exit 0 else
  wc_files fuel (args argv) buf.

(** ** user/echo.c, kill.c, ln.c, mkdir.c, rm.c *)

Fixpoint echo_args (l : list (list Z)) : prog unit :=
  match l with
  | [] => Exit 0
  | a :: l =>
      _ ← call (SWrite 1 a);
      _ ← call (SWrite 1 (match l with [] => [10] | _ => [32] end));
      echo_args l
  end.
Definition echo_main (argv : list (list Z)) : prog unit := echo_args (args argv).

Definition kill_main (argv : list (list Z)) : prog unit :=
  if Nat.ltb (argc argv) 2 then _ ← fprintf 2 (ln "usage: kill pid...") []; Exit 1 else
  _ ← each (fun a => _ ← call (SKill (atoi a)); Done tt) (args argv);
  Exit 0.

Definition ln_main (argv : list (list Z)) : prog unit :=
  if negb (Nat.eqb (argc argv) 3) then _ ← fprintf 2 (ln "Usage: ln old new") []; Exit 1 else
  r ← call (SLink (arg argv 1) (arg argv 2));
  _ ← (if r <? 0 then fprintf 2 (ln "link %s %s: failed") [str (arg argv 1); str (arg argv 2)] else Done tt);
  Exit 0.

(** The loops of mkdir and rm, which stop at the first failure. *)
Fixpoint until_failure (f : list Z -> sys Z) (msg : list Z) (l : list (list Z)) : prog unit :=
  match l with
  | [] => Exit 0
  | a :: l =>
      r ← call (f a);
      if r <? 0 then _ ← fprintf 2 msg [str a]; Exit 0 else until_failure f msg l
  end.
Definition mkdir_main (argv : list (list Z)) : prog unit :=
  if Nat.ltb (argc argv) 2 then _ ← fprintf 2 (ln "Usage: mkdir files...") []; Exit 1 else
  until_failure SMkdir (ln "mkdir: %s failed to create") (args argv).
Definition rm_main (argv : list (list Z)) : prog unit :=
  if Nat.ltb (argc argv) 2 then _ ← fprintf 2 (ln "Usage: rm files...") []; Exit 1 else
  until_failure SUnlink (ln "rm: %s failed to delete") (args argv).

(** ** user/ls.c *)

(** The loop runs backwards from the terminator to the last slash, or to just
    before the string. *)
Fixpoint back_to_slash (path : list Z) (p : nat) : Z :=
  match p with
  | O => if nth 0 path 0 =? slash then 0 else -1
  | S p' => if nth p path 0 =? slash then Z.of_nat p else back_to_slash path p'
  end.
Definition fmtname (path : list Z) : list Z :=
  let p := drop (Z.to_nat (back_to_slash path (length path) + 1)) path in
  if DIRSIZ <=? Z.of_nat (length p) then p else
  p ++ replicate (Z.to_nat DIRSIZ - length p) 32.

(** One line of the listing. *)
Definition ls_line (path : list Z) (st : stat) : prog unit :=
  printf (ln "%s %d %d %d") [str (fmtname path); int (st_type st); int (st_ino st); int (i32 (st_size st))].

(** The loop over the directory: [buf] holds the path and a slash. *)
Fixpoint ls_entries (fuel : nat) (fd : Z) (buf : list Z) (st : stat) : prog unit :=
  match fuel with
  | O => OutOfFuel
  | S fuel =>
      '(n, de) ← call (SRead fd 16);
      if negb (n =? 16) then Done tt else
      if le_dec (take 2 de) =? 0 then ls_entries fuel fd buf st else
      let path := buf ++ cstr (take (Z.to_nat DIRSIZ) (drop 2 de)) in
      '(r, st) ← ustat path st;
      if r <? 0 then _ ← printf (ln "ls: cannot stat %s") [str path]; ls_entries fuel fd buf st
      else _ ← ls_line path st; ls_entries fuel fd buf st
  end.
Definition ls (fuel : nat) (path : list Z) : prog unit :=
  fd ← call (SOpen path O_RDONLY);
  if fd <? 0 then fprintf 2 (ln "ls: cannot open %s") [str path] else
  '(r, st) ← call (SFstat fd);
  if r <? 0 then
    _ ← fprintf 2 (ln "ls: cannot stat %s") [str path]; _ ← call (SClose fd); Done tt
  else
    _ ← (if (st_type st =? T_DEVICE) || (st_type st =? T_FILE) then ls_line path st
         else if st_type st =? T_DIR then
           if 512 <? Z.of_nat (length path) + 1 + DIRSIZ + 1 then printf (ln "ls: path too long") []
           else ls_entries fuel fd (path ++ [slash]) st
         else Done tt);
    _ ← call (SClose fd);
    Done tt.
Definition ls_main (fuel : nat) (argv : list (list Z)) : prog unit :=
  if Nat.ltb (argc argv) 2 then _ ← ls fuel (bytes "."); Exit 0 else
  _ ← each (ls fuel) (args argv); Exit 0.

(** ** user/init.c *)

Definition console : list Z := bytes "console".
(** The inner loop: wait until the shell exits. *)
Fixpoint reap (fuel : nat) (pid : Z) : prog unit :=
  match fuel with
  | O => OutOfFuel
  | S fuel =>
      wpid ← call SWait;
      if wpid =? pid then Done tt
      else if wpid <? 0 then _ ← printf (ln "init: wait returned an error") []; Exit 1
      else reap fuel pid
  end.
(** [rounds] shells, one after the other. *)
Fixpoint init_loop (rounds fuel : nat) : prog unit :=
  match rounds with
  | O => OutOfFuel
  | S rounds =>
      _ ← printf (ln "init: starting sh") [];
      pid ← call SFork;
      if pid <? 0 then _ ← printf (ln "init: fork failed") []; Exit 1
      else if pid =? 0 then
        _ ← call (SExec (bytes "sh") [bytes "sh"]);
        _ ← printf (ln "init: exec sh failed") [];
        Exit 1
      else _ ← reap fuel pid; init_loop rounds fuel
  end.
Definition init_main (rounds fuel : nat) : prog unit :=
  fd ← call (SOpen console O_RDWR);
  _ ← (if fd <? 0 then
         _ ← call (SMknod console CONSOLE 0); _ ← call (SOpen console O_RDWR); Done tt
       else Done tt);
  _ ← call (SDup 0);
  _ ← call (SDup 0);
  init_loop rounds fuel.

(** ** user/grep.c *)

(** [while((q = strchr(p, '\n')) != 0)]: what is left of the buffer. *)
Fixpoint grep_pass (fuel : nat) (pattern p : list Z) : prog (list Z) :=
  match fuel with
  | O => OutOfFuel
  | S fuel =>
      match Grep.strchr (cstr p) newline with
      | None => Done p
      | Some q =>
          let line := take q p in
          _ ← (if re_match pattern (cstr line) then _ ← call (SWrite 1 (line ++ [newline])); Done tt else Done tt);
          grep_pass fuel pattern (drop (S q) p)
      end
  end.
(** [buf] is the [m] bytes in use. *)
Fixpoint grep_fd (fuel : nat) (pattern : list Z) (fd : Z) (buf : list Z) : prog unit :=
  match fuel with
  | O => OutOfFuel
  | S fuel =>
      '(n, bs) ← call (SRead fd (1024 - Z.of_nat (length buf) - 1));
      if 0 <? n then
        rest ← grep_pass bufsize pattern (buf ++ take (Z.to_nat n) bs);
        grep_fd fuel pattern fd rest
      else Done tt
  end.
Fixpoint grep_files (fuel : nat) (pattern : list Z) (files : list (list Z)) : prog unit :=
  match files with
  | [] => Exit 0
  | f :: files =>
      fd ← call (SOpen f O_RDONLY);
      if fd <? 0 then _ ← printf (ln "grep: cannot open %s") [str f]; Exit 1 else
      _ ← grep_fd fuel pattern fd [];
      _ ← call (SClose fd);
      grep_files fuel pattern files
  end.
Definition grep_main (fuel : nat) (argv : list (list Z)) : prog unit :=
  if Nat.leb (argc argv) 1 then _ ← fprintf 2 (ln "usage: grep pattern [file ...]") []; Exit 1 else
  let pattern := arg argv 1 in
  if Nat.leb (argc argv) 2 then _ ← grep_fd fuel pattern 0 []; Exit 0 else
  grep_files fuel pattern (drop 2 argv).

(** ** user/sh.c *)

Definition panic {A} (s : list Z) : prog A := _ ← fprintf 2 (bytes "%s" ++ [10]) [str s]; Exit 1.
Definition word_at (b : list Z) (p : strpos) : list Z := cstr (drop p.1 b).

(** The system calls of [Shell.runcmd]; [b] is the line with its words cut. *)
Fixpoint sh_calls (b : list Z) (p : Shell.prog) : prog unit :=
  match p with
  | PExit s => Exit s
  | PExec argv failed =>
      _ ← call (SExec (word_at b (hd (0%nat, 0%nat) argv)) (map (word_at b) argv)); sh_calls b failed
  | PClose fd k => _ ← call (SClose fd); sh_calls b k
  | POpen file mode k => fd ← call (SOpen (word_at b file) mode); sh_calls b (k fd)
  | PDup fd k => r ← call (SDup fd); sh_calls b (k r)
  | PMkPipe k => '(rc, p0, p1) ← call SPipe; sh_calls b (k rc p0 p1)
  | PFork k => pid ← call SFork; sh_calls b (k pid)
  | PWait k => _ ← call SWait; sh_calls b k
  | PPrint msg w k => _ ← fprintf 2 (ln msg) (match w with Some w => [str (word_at b w)] | None => [] end); sh_calls b k
  end.

(** [runcmd(parsecmd(cmd))] in a child of the shell. *)
Definition sh_child (cmd : list Z) : prog unit :=
  match parsecmd cmd with
  | POk (c, b) _ => sh_calls b (runcmd c)
  | PPanic msg lo =>
      _ ← match lo with Some s => fprintf 2 (ln "leftovers: %s") [str (drop s cmd)] | None => Done tt end;
      panic (bytes msg)
  | PFuel => OutOfFuel
  end.

(** fork1, in main. *)
Definition sh_fork1 : prog Z := pid ← call SFork; if pid =? -1 then panic (bytes "fork") else Done pid.

(** getcmd: whether there was a command, and the buffer. *)
Definition getcmd (nbuf : Z) : prog (bool * list Z) :=
  _ ← call (SWrite 2 (bytes "$ "));
  let buf := replicate (Z.to_nat nbuf) 0 in
  line ← gets nbuf;
  let buf := overlay line buf in
  Done (negb (nth 0 buf 0 =? 0), buf).

Fixpoint skip_blanks (cmd : list Z) : list Z :=
  match cmd with
  | x :: rest => if (x =? 32) || (x =? 9) then skip_blanks rest else cmd
  | [] => []
  end.

(** The body of the command loop; [cmd] is the string at the pointer. *)
Definition sh_command (cmd : list Z) : prog unit :=
  if nth 0 cmd 0 =? 10 then Done tt else
  if (nth 0 cmd 0 =? 99) && (nth 1 cmd 0 =? 100) && (nth 2 cmd 0 =? 32) then
    let cmd := take (length cmd - 1) cmd in
    let dir := drop 3 cmd in
    r ← call (SChdir dir);
    if r <? 0 then fprintf 2 (ln "cannot cd %s") [str dir] else Done tt
  else
    pid ← sh_fork1;
    if pid =? 0 then sh_child cmd else _ ← call SWait; Done tt.
Fixpoint sh_loop (fuel : nat) : prog unit :=
  match fuel with
  | O => OutOfFuel
  | S fuel =>
      '(got, buf) ← getcmd 100;
      if (got : bool) then _ ← sh_command (skip_blanks (cstr buf)); sh_loop fuel else Exit 0
  end.
(** [while((fd = open("console", O_RDWR)) >= 0)] *)
Fixpoint open_three (fuel : nat) : prog unit :=
  match fuel with
  | O => OutOfFuel
  | S fuel =>
      fd ← call (SOpen console O_RDWR);
      if fd <? 0 then Done tt
      else if 3 <=? fd then _ ← call (SClose fd); Done tt
      else open_three fuel
  end.
Definition sh_main (fuel : nat) : prog unit := _ ← open_three fuel; sh_loop fuel.

(** What wc counts: newlines, the maximal runs of characters other than
    separators, characters. *)
Definition is_sep (x : Z) : bool := in_chars wc_seps x.
Fixpoint split_fields (l : list Z) : list (list Z) :=
  match l with
  | [] => [[]]
  | x :: l => if is_sep x then [] :: split_fields l else
      match split_fields l with f :: fs => (x :: f) :: fs | [] => [[x]] end
  end.
Definition wc_words (l : list Z) : list (list Z) := filter (fun f => f <> []) (split_fields l).

(** ** A scripted kernel *)

(** Files with their contents, open descriptors with the bytes still to be
    read, what was written, and a number [chunk] no read exceeds. *)
Record script := mkScript {
  s_files : list (list Z * list Z);
  s_open : Z -> list Z;
  s_next : Z;
  s_chunk : Z;
  s_pids : list Z;               (* the answers to wait *)
  s_out : list (Z * list Z);     (* descriptor and bytes *)
  s_calls : list string          (* the other calls *)
}.
Definition set_input (w : script) (fd : Z) (bs : list Z) : script :=
  mkScript (s_files w) (fun x => if x =? fd then bs else s_open w x) (s_next w) (s_chunk w) (s_pids w) (s_out w) (s_calls w).
Definition open_with (w : script) (bs : list Z) : script :=
  mkScript (s_files w) (fun x => if x =? s_next w then bs else s_open w x) (s_next w + 1) (s_chunk w) (s_pids w) (s_out w) (s_calls w).
Definition emit (w : script) (fd : Z) (bs : list Z) : script :=
  mkScript (s_files w) (s_open w) (s_next w) (s_chunk w) (s_pids w) (s_out w ++ [(fd, bs)]) (s_calls w).
Definition note (w : script) (c : string) : script :=
  mkScript (s_files w) (s_open w) (s_next w) (s_chunk w) (s_pids w) (s_out w) (s_calls w ++ [c]).
Definition find_file (w : script) (path : list Z) : option (list Z) :=
  snd <$> List.find (fun f => bool_decide (f.1 = path)) (s_files w).
Definition s_output (w : script) (fd : Z) : list Z :=
  concat (map (fun o => if o.1 =? fd then o.2 else []) (s_out w)).

Definition script_call (R : Set) (c : sys R) (w : script) : option R * script :=
  match c in sys R return option R * script with
  | SRead fd n =>
      let bs := take (Z.to_nat (Z.min n (Z.max 1 (s_chunk w)))) (s_open w fd) in
      (Some (Z.of_nat (length bs), bs), set_input w fd (drop (length bs) (s_open w fd)))
  | SWrite fd bs => (Some (Z.of_nat (length bs)), emit w fd bs)
  | SOpen path mode =>
      match find_file w path with
      | Some bs => (Some (s_next w), open_with w bs)
      | None => (Some (-1), w)
      end
  | SClose _ => (Some 0, w)
  | SFstat fd => (Some (0, mkStat 1 7 T_FILE 1 (Z.of_nat (length (s_open w fd)))), w)
  | SFork => (Some 5, note w "fork")
  | SWait => match s_pids w with
             | p :: ps => (Some p, mkScript (s_files w) (s_open w) (s_next w) (s_chunk w) ps (s_out w) (s_calls w))
             | [] => (Some (-1), w) end
  | SExec _ _ => (Some (-1), note w "exec")
  | SPipe => (Some (-1, 0, 0), w)
  | SMknod _ _ _ => (Some 0, note w "mknod")
  | SKill _ | SUnlink _ | SLink _ _ | SMkdir _ | SChdir _ | SDup _ | SSbrk _ _ => (Some 0, w)
  end.
#[export] Instance script_kernel : Kernel script := script_call.

(** Descriptor 0 is the console: [typed]; [chunk] bytes a read. *)
Definition scripted (files : list (list Z * list Z)) (typed : list Z) (chunk : Z) (pids : list Z) : script :=
  mkScript files (fun fd => if fd =? 0 then typed else []) 3 chunk pids [] [].
Definition prints {A} (p : prog A) (w : script) : outcome A * list Z :=
  let '(o, w) := run p w in (o, s_output w 1).

Example cat_two : prints (cat_main 20 [bytes "cat"; bytes "a"; bytes "b"])
  (scripted [(bytes "a", bytes "hello "); (bytes "b", bytes "world")] [] 2 []) = (RExit 0, bytes "hello world").
Proof. vm_compute. reflexivity. Qed.
Example echo_joins : prints (echo_main [bytes "echo"; bytes "a"; bytes "bc"]) (scripted [] [] 1 []) = (RExit 0, ln "a bc").
Proof. vm_compute. reflexivity. Qed.
Example wc_file : prints (wc_main 20 [bytes "wc"; bytes "f"])
  (scripted [(bytes "f", ln "two words" ++ bytes " and" ++ ln " more")] [] 3 []) = (RExit 0, ln "2 4 20 f").
Proof. vm_compute. reflexivity. Qed.
Example grep_file : prints (grep_main 20 [bytes "grep"; bytes "^b"; bytes "f"])
  (scripted [(bytes "f", ln "ab" ++ ln "ba" ++ ln "bb")] [] 4 []) = (RExit 0, ln "ba" ++ ln "bb").
Proof. vm_compute. reflexivity. Qed.
Example ls_pads : prints (ls_main 5 [bytes "ls"; bytes "d/file"])
  (scripted [(bytes "d/file", bytes "12345")] [] 4 []) = (RExit 0, ln "file           2 7 5").
Proof. vm_compute. reflexivity. Qed.
Example shell_prompts : s_output (run (sh_loop 5) (scripted [] (ln "  cd /tmp" ++ ln "") 4 [])).2 2 = bytes "$ $ $ ".
Proof. vm_compute. reflexivity. Qed.

(** ** What the programs do *)

Lemma take_overlay bs buf r : r = Z.of_nat (length bs) -> take (Z.to_nat r) (overlay bs buf) = bs.
Proof. intros ->. unfold overlay. rewrite Nat2Z.id. apply take_app_length. Qed.

Lemma i32_succ n : i32 (i32 n + 1) = i32 (n + 1).
Proof.
  unfold i32. replace ((n + 2 ^ 31) mod 2 ^ 32 - 2 ^ 31 + 1 + 2 ^ 31) with ((n + 2 ^ 31) mod 2 ^ 32 + 1) by lia.
  rewrite Zplus_mod_idemp_l. do 2 f_equal. lia.
Qed.

(** The words that start in [l], when the text before it ended inside a word
    or not. *)
Fixpoint starts (inword : bool) (l : list Z) : nat :=
  match l with
  | [] => 0
  | x :: l => if is_sep x then starts false l else ((if inword then 0 else 1) + starts true l)%nat
  end.
Fixpoint ends_inword (inword : bool) (l : list Z) : bool :=
  match l with [] => inword | x :: l => ends_inword (negb (is_sep x)) l end.
Lemma starts_wc_words l : length (wc_words l) = starts false l /\
  length (wc_words l) = (starts true l + match split_fields l with (_ :: _) :: _ => 1 | _ => 0 end)%nat.
Proof.
  unfold wc_words. induction l as [|x l [IH1 IH2]]; [done|]. cbn [split_fields starts]. destruct (is_sep x).
  - rewrite filter_cons_False by (by intros []). rewrite IH1. split; [done|lia].
  - destruct (split_fields l) as [|f fs] eqn:E; [by destruct l; cbn in E; repeat case_match|].
    rewrite filter_cons_True in * by done. cbn [length]. destruct f as [|y f].
    + rewrite filter_cons_False in IH2 by (by intros []). lia.
    + rewrite filter_cons_True in IH2 by done. cbn [length] in IH2. lia.
Qed.

Notation newlines l := (Z.of_nat (length (filter (fun x => x = 10) l))).
Lemma wc_scan l : forall b L N C,
  fold_left wc_char l (mkCounts (i32 L) (i32 N) (i32 C) b) =
  mkCounts (i32 (L + newlines l)) (i32 (N + Z.of_nat (starts b l))) (i32 (C + Z.of_nat (length l))) (ends_inword b l).
Proof.
  induction l as [|x l IH]; intros b L N C; [cbn; by rewrite !Z.add_0_r|].
  cbn [fold_left length starts ends_inword]. unfold wc_char at 2. cbn [c_lines c_words c_chars c_inword]. unfold is_sep.
  rewrite !i32_succ. assert (newlines (x :: l) = (if x =? 10 then 1 else 0) + newlines l) as Hn.
  { destruct (Z.eqb_spec x 10); [rewrite filter_cons_True by done|rewrite filter_cons_False by done]; cbn [length]; lia. }
  rewrite Hn. replace (if x =? 10 then i32 (L + 1) else i32 L) with (i32 (L + (if x =? 10 then 1 else 0))).
  2: { destruct (x =? 10); [done|by rewrite Z.add_0_r]. }
  destruct (in_chars wc_seps x), b; cbn [negb]; rewrite IH; f_equal; f_equal; lia.
Qed.
Lemma starts_app a : forall b l, starts b (a ++ l) = (starts b a + starts (ends_inword b a) l)%nat.
Proof. induction a as [|x a IH]; intros b l; [done|]. cbn. destruct (is_sep x); rewrite IH; cbn; lia. Qed.

(** The scripted kernel keeps the contract. *)
#[export] Program Instance script_streams : Streams script :=
  {| input w fd := s_open w fd; output w := s_output w 1 |}.
Next Obligation.
  intros fd n w Hn. set (bs := take (Z.to_nat (Z.min n (Z.max 1 (s_chunk w)))) (s_open w fd)).
  exists (Z.of_nat (length bs)), bs, (set_input w fd (drop (length bs) (s_open w fd))).
  split; [done|]. split; [done|]. right. split; [done|].
  assert (s_open w fd = bs ++ drop (length bs) (s_open w fd)) as Hbs.
  { unfold bs. rewrite length_take. rewrite <- (take_drop (Z.to_nat (Z.min n (Z.max 1 (s_chunk w)))) (s_open w fd)) at 1.
    f_equal. destruct (Nat.min_spec (Z.to_nat (Z.min n (Z.max 1 (s_chunk w)))) (length (s_open w fd))) as [[_ ->]|[? ->]]; [done|].
    rewrite !drop_ge by lia. done. }
  split; [unfold bs; rewrite length_take; lia|]. split.
  - cbn. by rewrite Z.eqb_refl, <- Hbs.
  - unfold bs. destruct (s_open w fd); [by right|]. destruct (Z.to_nat _) eqn:E; [left; lia|done].
Qed.
Next Obligation.
  intros fd bs w. exists (Z.of_nat (length bs)), (length bs), (emit w fd bs). split; [done|]. split; [done|].
  rewrite firstn_all. split; [|done]. unfold s_output, emit. cbn. rewrite map_app, concat_app. cbn.
  destruct (fd =? 1); by rewrite !app_nil_r.
Qed.

Section Programs.
Context {W : Type} `{Streams W}.

(** The three answers to a read: an error, the end, or the next bytes. *)
Inductive read_answer (fd n : Z) (w : W) : Prop :=
| read_failed r w' : kcall (SRead fd n) w = (Some (r, []), w') -> r < 0 -> output w' = output w -> read_answer fd n w
| read_end w' : kcall (SRead fd n) w = (Some (0, []), w') -> input w fd = [] -> input w' fd = [] -> output w' = output w ->
    read_answer fd n w
| read_some bs w' : kcall (SRead fd n) w = (Some (Z.of_nat (length bs), bs), w') -> 0 < Z.of_nat (length bs) <= n ->
    input w fd = bs ++ input w' fd -> output w' = output w -> read_answer fd n w.
Lemma read_answers fd n w : 0 < n -> read_answer fd n w.
Proof.
  intros Hn. destruct (read_law fd n w) as (r & bs & w' & E & Ho & [(Hr & -> & _)|(-> & Hl & Hi & He)]); [lia| |].
  - by eapply read_failed.
  - destruct bs as [|b bs]; [|eapply read_some; [done|cbn; cbn in Hl; lia|done|done]].
    destruct (He eq_refl) as [?|Hnil]; [lia|]. rewrite Hnil in Hi. by eapply read_end.
Qed.

(** A program that prints a message and exits. *)
Lemma run_message {A} fd cs s w : exists w',
  run (_ ← each (putc fd) cs; @Exit A s) w = (RExit s, w') /\ (fd <> 1 -> output w' = output w).
Proof.
  destruct (run_putcs fd cs w) as (w' & E & _ & Ho). exists w'. by rewrite run_bind, E.
Qed.
Lemma run_fprintf {A} fd fmt args cs s w : vprintf udigits fmt args = Some cs -> exists w',
  run (_ ← fprintf fd fmt args; @Exit A s) w = (RExit s, w') /\ (fd <> 1 -> output w' = output w).
Proof. intros E. unfold fprintf. rewrite E. apply run_message. Qed.

(** cat copies a descriptor to its standard output: on every kernel it
    returns, having written exactly the bytes that were to come, or exits with
    status 1, having written a prefix of them. *)
Theorem cat_copies fd : forall fuel w buf, (length (input w fd) < fuel)%nat ->
  exists done rest w', input w fd = done ++ rest /\ output w' = output w ++ done /\
    (run (cat fuel fd buf) w = (RExit 1, w') \/
     rest = [] /\ exists buf', run (cat fuel fd buf) w = (RDone buf', w')).
Proof.
  induction fuel as [|fuel IH]; intros w buf Hf; [lia|]. cbn [cat].
  destruct (read_answers fd 512 w) as [r w1 E Hr Ho|w1 E Hi Hi1 Ho|bs w1 E Hl Hi Ho]; [lia| | |]; setoid_rewrite (run_call _ _ _ _ _ E).
  - bsimp. destruct (run_fprintf (A := list Z) 2 (ln "cat: read error") [] (ln "cat: read error") 1 w1 eq_refl) as (w2 & E2 & Ho2).
    exists [], (input w fd), w2. rewrite app_nil_r, Ho2, Ho by done. split_and!; [done..|]. by left.
  - exists [], [], w1. rewrite Hi, !app_nil_r. cbn. split_and!; [done..|]. right. split; [done|]. by eexists.
  - rewrite (proj2 (Z.ltb_lt _ _)) by lia. rewrite take_overlay by done.
    destruct (write_law 1 bs w1) as (r & k & w2 & E2 & Hi2 & Ho2 & Hk). cbn in Ho2. setoid_rewrite (run_call _ _ _ _ _ E2).
    destruct (Z.eqb_spec r (Z.of_nat (length bs))) as [->|Hne]; cbn [negb].
    + rewrite Hk in Ho2 by done. destruct (IH w2 (overlay bs buf)) as (d & rest & w3 & Hin & Hout & Hres).
      { rewrite Hi2. rewrite Hi, length_app in Hf. lia. }
      exists (bs ++ d), rest, w3. rewrite Hi, <- (Hi2 fd), Hin, Hout, Ho2, Ho, !(assoc_L (++)). done.
    + destruct (run_fprintf (A := list Z) 2 (ln "cat: write error") [] (ln "cat: write error") 1 w2 eq_refl) as (w3 & E3 & Ho3).
      exists (take k bs), (drop k bs ++ input w1 fd), w3. rewrite (assoc_L (++)), take_drop. split; [done|].
      rewrite Ho3, Ho2, Ho by done. split; [done|]. by left.
Qed.

Lemma wc_loop_spec fd name : forall fuel w buf b L N C, (length (input w fd) < fuel)%nat ->
  (exists w', run (wc_loop fuel fd name buf (mkCounts (i32 L) (i32 N) (i32 C) b)) w = (RExit 1, w')) \/
  exists w' buf' b', output w' = output w /\ input w' fd = [] /\
    run (wc_loop fuel fd name buf (mkCounts (i32 L) (i32 N) (i32 C) b)) w =
    run (_ ← wc_print name (mkCounts (i32 (L + newlines (input w fd))) (i32 (N + Z.of_nat (starts b (input w fd))))
           (i32 (C + Z.of_nat (length (input w fd)))) b'); Done buf') w'.
Proof.
  induction fuel as [|fuel IH]; intros w buf b L N C Hf; [lia|]. cbn [wc_loop].
  destruct (read_answers fd 512 w) as [r w1 E Hr Ho|w1 E Hi Hi1 Ho|bs w1 E Hl Hi Ho]; [lia| | |]; setoid_rewrite (run_call _ _ _ _ _ E).
  - left. bsimp. destruct (run_fprintf (A := list Z) 1 (ln "wc: read error") [] (ln "wc: read error") 1 w1 eq_refl) as (w2 & E2 & _).
    by exists w2.
  - right. exists w1, (overlay [] buf), b. rewrite Hi. cbn [length starts filter list_filter Z.of_nat]. rewrite !Z.add_0_r.
    split; [done|]. split; [done|]. reflexivity.
  - rewrite (proj2 (Z.ltb_lt _ _)) by lia. rewrite take_overlay, wc_scan by done.
    rewrite Hi, length_app in Hf. destruct (IH w1 (overlay bs buf) (ends_inword b bs) (L + newlines bs)
      (N + Z.of_nat (starts b bs)) (C + Z.of_nat (length bs))) as [?|(w2 & buf' & b' & Ho2 & Hi2 & E2)]; [lia|by left|right].
    exists w2, buf', b'. rewrite E2, Hi, starts_app, filter_app, !length_app, !Nat2Z.inj_add, !Z.add_assoc.
    split; [congruence|]. split; [done|]. reflexivity.
Qed.

(** wc counts: unless a read fails, it prints one line with the numbers of
    lines, words and characters that were to come, as ints, however read
    splits them. *)
Theorem wc_counts fd name buf fuel w : (length (input w fd) < fuel)%nat ->
  (exists w', run (wc fuel fd name buf) w = (RExit 1, w')) \/
  exists w' buf' b, output w' = output w /\ input w' fd = [] /\
    run (wc fuel fd name buf) w =
    run (_ ← wc_print name (mkCounts (i32 (newlines (input w fd))) (i32 (Z.of_nat (length (wc_words (input w fd)))))
           (i32 (Z.of_nat (length (input w fd)))) b); Done buf') w'.
Proof.
  intros Hf. rewrite (proj1 (starts_wc_words _)). exact (wc_loop_spec fd name fuel w buf false 0 0 0 Hf).
Qed.

(** A kernel on which reads do not fail and writes to descriptor 1 are
    complete. *)
Record steady : Prop := {
  steady_read fd n w r bs w' : kcall (SRead fd n) w = (Some (r, bs), w') -> 0 <= r;
  steady_write bs w r w' : kcall (SWrite 1 bs) w = (Some r, w') -> r = Z.of_nat (length bs)
}.

(** The pass over the buffer writes what [Grep.grep_lines] says. *)
Lemma run_grep_pass (Hs : steady) pattern : forall fuel p w, nonul p -> (length p < fuel)%nat ->
  exists w', run (grep_pass fuel pattern p) w = (RDone (grep_lines fuel pattern p).2, w') /\
    output w' = output w ++ (grep_lines fuel pattern p).1 /\ (forall fd, input w' fd = input w fd).
Proof.
  induction fuel as [|fuel IH]; intros p w Hp Hf; [lia|]. cbn [grep_pass grep_lines]. rewrite (cstr_nonul p) by done.
  destruct (Grep.strchr p newline) as [q|] eqn:Eq; [|exists w; by rewrite app_nil_r].
  pose proof (strchr_split p) as Hq. rewrite Eq in Hq. destruct Hq as [_ Hq].
  assert (length (drop (S q) p) < fuel)%nat as Hlen.
  { apply (f_equal length) in Hq. rewrite length_app in Hq. cbn in Hq. lia. }
  pose proof (Forall_drop _ (S q) _ Hp) as Hd. destruct (grep_lines fuel pattern (drop (S q) p)) as [out' rest] eqn:El.
  destruct (re_match pattern (cstr (take q p))).
  - destruct (write_law 1 (take q p ++ [newline]) w) as (r & k & w1 & E & Hi & Ho & Hk).
    pose proof (steady_write Hs _ _ _ _ E) as Hr. specialize (Hk Hr). rewrite Hk in Ho. cbn in Ho.
    destruct (IH (drop (S q) p) w1 Hd Hlen) as (w2 & E2 & Ho2 & Hi2). rewrite El in E2, Ho2. exists w2. cbn. rewrite E. cbn.
    split; [done|]. split; [cbn in Ho2; by rewrite Ho2, Ho, <- !(assoc_L (++))|]. intros. by rewrite Hi2.
  - destruct (IH (drop (S q) p) w Hd Hlen) as (w2 & E2 & Ho2 & Hi2). rewrite El in E2, Ho2. by exists w2.
Qed.

(** grep on a descriptor prints exactly the newline-terminated lines of the
    bytes to come that match, on every steady kernel, however reads split
    them. *)
Lemma grep_fd_spec (Hs : steady) pattern fd : forall fuel buf w,
  nonl buf -> nonul buf -> nonul (input w fd) -> (length buf <= 1023)%nat -> (length (input w fd) < fuel)%nat ->
  Forall (fun l => (length l <= 1022)%nat) (lines_of [] (buf ++ input w fd)) ->
  exists w', run (grep_fd fuel pattern fd buf) w = (RDone tt, w') /\
    output w' = output w ++ selected pattern (lines_of [] (buf ++ input w fd)).
Proof.
  induction fuel as [|fuel IH]; intros buf w Hb Hn Hf Hl Hfuel Hlines; [lia|]. cbn [grep_fd].
  destruct (read_law fd (1024 - Z.of_nat (length buf) - 1) w) as (r & bs & w1 & E & Ho & Hr); [lia|].
  pose proof (steady_read Hs _ _ _ _ _ _ E) as Hr0. destruct Hr as [[? _]|(-> & Hlen & Hi & Hend)]; [lia|].
  setoid_rewrite (run_call _ _ _ _ _ E). destruct (decide (bs = [])) as [->|Hbs].
  - exists w1. split; [done|]. rewrite Ho. assert (lines_of [] (buf ++ input w fd) = []) as ->; [|by rewrite app_nil_r].
    destruct (Hend eq_refl) as [?| ->]; [|by rewrite app_nil_r, lines_of_nonl]. apply first_line_long; [done|done|lia].
  - assert (0 < length bs)%nat by (destruct bs; [done|cbn; lia]). rewrite (proj2 (Z.ltb_lt _ _)) by lia.
    rewrite Nat2Z.id, firstn_all. rewrite Hi in Hf, Hfuel, Hlines |- *. apply Forall_app in Hf as [Hf1 Hf2]. rewrite length_app in Hfuel.
    assert (nonul (buf ++ bs)) as Hbn by (by apply Forall_app).
    assert (length (buf ++ bs) < bufsize)%nat as Hbl by (rewrite length_app; change bufsize with 1024%nat; lia).
    destruct (grep_lines_spec pattern bufsize (buf ++ bs) Hbn Hbl) as (rest & El & Hr1 & Hr2 & Hr3 & Hr4).
    destruct (run_grep_pass Hs pattern bufsize (buf ++ bs) w1 Hbn Hbl) as (w2 & E2 & Ho2 & Hi2).
    rewrite run_bind, E2, El. rewrite El in Ho2. cbn [fst snd] in *.
    specialize (Hr4 (input w1 fd)). rewrite <- (assoc_L (++)) in Hr4. rewrite Hr4 in Hlines |- *.
    apply Forall_app in Hlines as [_ Hlines]. destruct (IH rest w2) as (w3 & E3 & Ho3); [done|done|by rewrite Hi2| | |by rewrite Hi2|].
    { change bufsize with 1024%nat in Hbl. lia. }
    { rewrite Hi2. lia. }
    exists w3. split; [done|]. rewrite Ho3, Ho2, Ho, Hi2, <- (assoc_L (++)). f_equal. unfold selected. by rewrite map_app, concat_app.
Qed.
End Programs.

(** ls shows a path by its last element, padded to fourteen characters. *)
Lemma back_to_slash_spec dir base : Forall (fun x => x <> slash) base ->
  forall k, (k <= length base)%nat ->
  back_to_slash (dir ++ slash :: base) (length dir + k) = Z.of_nat (length dir).
Proof.
  intros Hb. induction k as [|k IH]; intros Hk.
  - rewrite Nat.add_0_r. assert (nth (length dir) (dir ++ slash :: base) 0 = slash) as E by (by rewrite nth_middle).
    destruct (length dir) as [|n] eqn:El; cbn [back_to_slash]; rewrite E, Z.eqb_refl; done.
  - rewrite Nat.add_succ_r. cbn [back_to_slash].
    rewrite (app_nth2 dir) by lia. replace (S (length dir + k) - length dir)%nat with (S k) by lia. cbn [nth].
    rewrite (proj2 (Z.eqb_neq _ _)); [apply IH; lia|].
    eapply Forall_nth; [exact Hb|lia].
Qed.
Lemma back_to_slash_none base : Forall (fun x => x <> slash) base -> forall k, back_to_slash base k = -1.
Proof.
  intros Hb. assert (forall i, (nth i base 0 =? slash) = false) as Hn.
  { intros i. apply Z.eqb_neq. destruct (decide (i < length base)%nat); [|by rewrite nth_overflow by lia].
    by apply (proj1 (Forall_nth _ 0 base) Hb). }
  induction k as [|k IH]; cbn [back_to_slash]; by rewrite Hn.
Qed.

Definition padded (name : list Z) : list Z := name ++ replicate (14 - length name) 32.
Theorem fmtname_last base : Forall (fun x => x <> slash) base ->
  fmtname base = padded base /\ forall dir, fmtname (dir ++ slash :: base) = padded base.
Proof.
  intros Hb. assert (forall p, p = base -> (if DIRSIZ <=? Z.of_nat (length p) then p else p ++ replicate (Z.to_nat DIRSIZ - length p) 32) = padded base) as Hp.
  { intros p ->. unfold padded. change (Z.to_nat DIRSIZ) with 14%nat. change DIRSIZ with 14. destruct (Z.leb_spec 14 (Z.of_nat (length base))); [|done].
    replace (14 - length base)%nat with 0%nat by lia. by rewrite app_nil_r. }
  unfold fmtname. split.
  - apply Hp. by rewrite back_to_slash_none.
  - intros dir. apply Hp. rewrite length_app. cbn [length]. rewrite Nat.add_succ_r, <- Nat.add_succ_r.
    assert (back_to_slash (dir ++ slash :: base) (length dir + S (length base)) = Z.of_nat (length dir)) as ->.
    { rewrite Nat.add_succ_r. cbn [back_to_slash]. rewrite nth_overflow by (rewrite length_app; cbn; lia). by apply back_to_slash_spec. }
    replace (Z.to_nat (Z.of_nat (length dir) + 1)) with (length dir + 1)%nat by lia.
    rewrite <- drop_drop, drop_app_length. done.
Qed.

(** init goes on when its shell exits, whatever orphans it reaped before. *)
Lemma reap_orphans pids pid rest : pid ∉ pids -> Forall (fun p => 0 <= p) pids ->
  forall fuel w, (length pids < fuel)%nat -> s_pids w = pids ++ pid :: rest ->
  exists w', run (reap fuel pid) w = (RDone tt, w') /\ s_pids w' = rest /\ s_out w' = s_out w.
Proof.
  intros Hp Hnn. induction Hnn as [|q pids Hq _ IH]; intros [|fuel] w Hf E; cbn in Hf; try lia; cbn; rewrite E; cbn.
  - rewrite Z.eqb_refl. by eexists.
  - apply not_elem_of_cons in Hp as [Hne Hp]. rewrite (proj2 (Z.eqb_neq q pid)) by congruence.
    rewrite (proj2 (Z.ltb_ge q 0)) by done.
    destruct (IH Hp fuel (mkScript (s_files w) (s_open w) (s_next w) (s_chunk w) (pids ++ pid :: rest) (s_out w) (s_calls w)))
      as (w' & E' & H1 & H2); [lia|done|]. by exists w'.
Qed.

(** init on a machine where the shell, process 5, exits once. *)
Example init_restarts : let '(o, w) := run (init_main 3 10) (scripted [] [] 1 [9; 5; 8]) in
  o = RExit 1 /\ s_output w 1 = ln "init: starting sh" ++ ln "init: starting sh" ++ ln "init: wait returned an error" /\
  s_calls w = ["mknod"%string; "fork"%string; "fork"%string].
Proof. vm_compute. by split_and!. Qed.
(** What a child of the shell does with a redirection and with bad syntax. *)
Example child_exec : s_output (run (sh_child (ln "ls < f")) (scripted [(bytes "f", [])] [] 1 [])).2 2 = ln "exec ls failed".
Proof. vm_compute. reflexivity. Qed.
Example child_open : run (sh_child (ln "ls > f")) (scripted [] [] 1 []) =
  (RExit 1, (run (fprintf 2 (ln "open f failed") []) (scripted [] [] 1 [])).2).
Proof. vm_compute. reflexivity. Qed.
Example child_syntax : s_output (run (sh_child (ln "a ) b")) (scripted [] [] 1 [])).2 2 = ln "leftovers: ) b" ++ [10] ++ ln "syntax".
Proof. vm_compute. reflexivity. Qed.
