(* ===== verification/DispatchBench.v ===== *)
(** * kernel/bench.cpp: the round-robin search, four ways

    The boot benchmark compares four copies of the round-robin search: plain C
    (bench_rr_direct.c), the policy behind a wrapper that is not inlined
    (bench_rr_direct_cpp.cpp), the policy inlined and a function pointer.
    Before it times them it prints what they pick on a few inputs.  [bench] is
    the state of that translation unit and the two it calls; each printf is
    the list of its numbers.  The theorems prove the equivalence those prints
    sample, for every sequence of calls and changes of the table.  The
    retired-instruction counter is not modelled. *)

From Stdlib Require Import ZArith Lia.
From S2P Require Import Prelude Params ProcTable Sched.

Record bench := mkBench {
  bench_procs : nat -> proc;
  c_rr_last : Z;                 (* bench_rr_direct.c *)
  g_cpp_direct_policy : RR;      (* bench_rr_direct_cpp.cpp *)
  g_boundary_inlined_policy : RR;
  fnptr_rr_last : Z
}.
Definition BENCH_NPROC : Z := NPROC.
Definition BENCH_REPS : nat := 200.

Definition with_procs (f : nat -> proc) (s : bench) : bench :=
  mkBench f (c_rr_last s) (g_cpp_direct_policy s) (g_boundary_inlined_policy s) (fnptr_rr_last s).
Definition with_c_last (x : Z) (s : bench) : bench :=
  mkBench (bench_procs s) x (g_cpp_direct_policy s) (g_boundary_inlined_policy s) (fnptr_rr_last s).
Definition with_direct (r : RR) (s : bench) : bench :=
  mkBench (bench_procs s) (c_rr_last s) r (g_boundary_inlined_policy s) (fnptr_rr_last s).
Definition with_inlined (r : RR) (s : bench) : bench :=
  mkBench (bench_procs s) (c_rr_last s) (g_cpp_direct_policy s) r (fnptr_rr_last s).
Definition with_fnptr (x : Z) (s : bench) : bench :=
  mkBench (bench_procs s) (c_rr_last s) (g_cpp_direct_policy s) (g_boundary_inlined_policy s) x.

(** ** The process table of the benchmark *)

Definition set_state (i : nat) (st : procstate) (s : bench) : bench :=
  with_procs (upd (bench_procs s) i (with_state st (bench_procs s i))) s.
Definition bench_set_all_unused (s : bench) : bench :=
  fold_left (fun s i => set_state i UNUSED s) (seq 0 (Z.to_nat BENCH_NPROC)) s.
Definition bench_set_runnable_indices (idxs : list nat) (s : bench) : bench :=
  fold_left (fun s i => set_state i RUNNABLE s) idxs (bench_set_all_unused s).
Definition bench_reset_procs (s : bench) : bench :=
  set_state (Z.to_nat (BENCH_NPROC - 1)) RUNNABLE (bench_set_all_unused s).

(** ** The searches *)

Definition Trivial_pick_next (procs : nat -> proc) (n : Z) : option nat := Some 0%nat.
Definition fnptr_trivial_pick_next (procs : nat -> proc) (n : Z) : option nat := Some 0%nat.

(** The loop again, with the static the function pointer's target keeps. *)
Definition fnptr_rr_pick_next (s : bench) (n : Z) : option nat * bench :=
  match rr_scan (is_runnable (bench_procs s)) n (fnptr_rr_last s) 1 (Z.to_nat n) with
  | Some idx => (Some idx, with_fnptr (Z.of_nat idx) s)
  | None => (None, s)
  end.
Definition c_call (s : bench) (n : Z) : option nat * bench :=
  let '(p, l) := c_rr_pick_next (c_rr_last s) (bench_procs s) n in (p, with_c_last l s).
Definition cpp_rr_pick_next_noinline (s : bench) (n : Z) : option nat * bench :=
  let '(p, r) := RR_pick_next (g_cpp_direct_policy s) (bench_procs s) n in (p, with_direct r s).
Definition b_inlined_call (s : bench) (n : Z) : option nat * bench :=
  let '(p, r) := RR_pick_next (g_boundary_inlined_policy s) (bench_procs s) n in (p, with_inlined r s).

(** The scan of the original scheduler loop, with a return on the first match. *)
Fixpoint vanilla_scan (f : nat -> proc) (p n : nat) : option nat :=
  match n with
  | O => None
  | S n => if is_runnable f p then Some p else vanilla_scan f (S p) n
  end.
Definition vanilla_style_pick_next (f : nat -> proc) (n : Z) : option nat := vanilla_scan f 0 (Z.to_nat n).

(** ** The conditions and the checks before any timing *)

Record BenchCondition := mkCond {
  bc_label : string;
  bc_reset_last : bench -> bench;
  bc_call : bench -> Z -> option nat * bench;
  bc_get_last : bench -> Z
}.
Definition conditions : list BenchCondition := [
  mkCond "A(C-direct)    " (with_c_last c_rr_reset_last) c_call c_rr_last;
  mkCond "B(cpp-noinline)" (fun s => with_direct (mkRR (-1)) s) cpp_rr_pick_next_noinline (fun s => rr_last (g_cpp_direct_policy s));
  mkCond "B(cpp-inlined) " (fun s => with_inlined (mkRR (-1)) s) b_inlined_call (fun s => rr_last (g_boundary_inlined_policy s));
  mkCond "C(fnptr)       " (with_fnptr (-1)) fnptr_rr_pick_next fnptr_rr_last
].

(** [p ? (int)(p - bench_procs) : -1] *)
Definition idx_of (p : option nat) : Z := match p with Some i => Z.of_nat i | None => -1 end.

(** [for (int i = k; i < k + calls; i++)]: the numbers printed. *)
Fixpoint print_calls (c : BenchCondition) (calls : nat) (i : Z) (s : bench) : list (list Z) * bench :=
  match calls with
  | O => ([], s)
  | S calls =>
      let '(p, s) := bc_call c s BENCH_NPROC in
      let line := [i; idx_of p; bc_get_last c s] in
      let '(lines, s) := print_calls c calls (i + 1) s in
      (line :: lines, s)
  end.

(** The third block of verify_abc_equivalence has a policy of its own. *)
Fixpoint print_local (r : RR) (calls : nat) (i : Z) (s : bench) : list (list Z) :=
  match calls with
  | O => []
  | S calls =>
      let '(p, r) := RR_pick_next r (bench_procs s) BENCH_NPROC in
      [i; idx_of p; rr_last r] :: print_local r calls (i + 1) s
  end.
Definition equivalence_block (c : BenchCondition) (calls : nat) (s : bench) : list (list Z) * bench :=
  print_calls c calls 0 (bc_reset_last c (bench_reset_procs s)).
Definition cond (k : nat) : BenchCondition := nth k conditions (mkCond "" id (fun s _ => (None, s)) (fun _ => 0)).
Definition verify_abc_equivalence (calls : nat) (s : bench) : list (list (list Z)) * bench :=
  let '(a, s) := equivalence_block (cond 0) calls s in
  let '(b, s) := equivalence_block (cond 1) calls s in
  let s := bench_reset_procs s in
  let c := print_local (mkRR (-1)) calls 0 s in
  let '(d, s) := equivalence_block (cond 3) calls s in
  ([a; b; c; d], s).

Definition run_boundary_script (c : BenchCondition) (s : bench) : list (list Z) * bench :=
  let s := bc_reset_last c (bench_set_all_unused s) in
  let '(p0, s) := bc_call c s BENCH_NPROC in
  let empty := [idx_of p0; bc_get_last c s] in
  let s := bc_reset_last c (bench_set_runnable_indices [5; 20; 40]%nat s) in
  let '(scattered, s) := print_calls c 6 0 s in
  let s := bc_reset_last c (bench_set_runnable_indices [62]%nat s) in
  let '(r1, s) := bc_call c s BENCH_NPROC in
  let first := [idx_of r1; bc_get_last c s] in
  let s := bench_set_runnable_indices [0]%nat s in
  let '(r2, s) := bc_call c s BENCH_NPROC in
  ([empty] ++ scattered ++ [first ++ [idx_of r2; bc_get_last c s]], s).
Fixpoint run_scripts (cs : list BenchCondition) (s : bench) : list (list (list Z)) * bench :=
  match cs with
  | [] => ([], s)
  | c :: cs =>
      let '(a, s) := run_boundary_script c s in
      let '(l, s) := run_scripts cs s in (a :: l, s)
  end.
Definition verify_abc_boundary_cases (s : bench) : list (list (list Z)) * bench := run_scripts conditions s.

(** ** The measured windows *)

(** The loop between the two readings of the counter, and what it picks. *)
Fixpoint timed_loop (call : bench -> Z -> option nat * bench) (reps : nat) (s : bench) : list (option nat) * bench :=
  match reps with
  | O => ([], s)
  | S reps =>
      let '(p, s) := call s BENCH_NPROC in
      let '(l, s) := timed_loop call reps s in (p :: l, s)
  end.
(** A policy that lives on the stack of the measuring function. *)
Fixpoint local_window (r : RR) (n : Z) (reps : nat) (s : bench) : list (option nat) :=
  match reps with
  | O => []
  | S reps => let '(p, r) := RR_pick_next r (bench_procs s) n in p :: local_window r n reps s
  end.
Definition pure_call (f : (nat -> proc) -> Z -> option nat) (s : bench) (n : Z) : option nat * bench := (f (bench_procs s) n, s).
Definition measure_static_trivial (reps : nat) := timed_loop (pure_call Trivial_pick_next) reps.
Definition measure_fnptr_trivial (reps : nat) := timed_loop (pure_call fnptr_trivial_pick_next) reps.
Definition measure_static_rr (reps : nat) (s : bench) := (local_window (mkRR (-1)) BENCH_NPROC reps s, s).
Definition measure_fnptr_rr (reps : nat) := timed_loop fnptr_rr_pick_next reps.
Definition g_opaque_n : Z := BENCH_NPROC.
Definition measure_static_rr_opaque_n (reps : nat) (s : bench) := (local_window (mkRR (-1)) g_opaque_n reps s, s).
Definition measure_vanilla_style (reps : nat) := timed_loop (pure_call vanilla_style_pick_next) reps.
Definition measure_c_direct (reps : nat) := timed_loop c_call reps.
Definition measure_cpp_direct_noinline (reps : nat) := timed_loop cpp_rr_pick_next_noinline reps.

(** run_dispatch_bench: the checks, then the windows in the order they are
    measured, each with the resets before it. *)
Definition windows (reps : nat) : list (bench -> list (option nat) * bench) := [
  fun s => measure_static_trivial reps (bench_reset_procs s);
  fun s => measure_fnptr_trivial reps (bench_reset_procs s);
  fun s => measure_static_rr reps (bench_reset_procs s);
  fun s => measure_fnptr_rr reps (bench_reset_procs (with_fnptr (-1) s));
  fun s => measure_static_rr_opaque_n reps (bench_reset_procs s);
  fun s => measure_vanilla_style reps (bench_reset_procs s);
  fun s => measure_c_direct reps (bench_reset_procs (with_c_last c_rr_reset_last s));
  fun s => measure_cpp_direct_noinline reps (bench_reset_procs (with_direct (mkRR (-1)) s))].
Fixpoint run_windows (ws : list (bench -> list (option nat) * bench)) (s : bench) : list (list (option nat)) * bench :=
  match ws with
  | [] => ([], s)
  | w :: ws => let '(a, s) := w s in let '(l, s) := run_windows ws s in (a :: l, s)
  end.
Definition run_dispatch_bench (s : bench) : list (list (option nat)) * bench :=
  run_windows (windows BENCH_REPS) (verify_abc_boundary_cases (verify_abc_equivalence 5 s).2).2.

(** ** All four are the round-robin policy *)

(** [view s] is the policy state the condition keeps somewhere in [s]. *)
Record implements_rr (c : BenchCondition) (view : bench -> RR) : Prop := {
  im_reset s : view (bc_reset_last c s) = mkRR (-1) /\ bench_procs (bc_reset_last c s) = bench_procs s;
  im_call s n : exists s', bc_call c s n = ((RR_pick_next (view s) (bench_procs s) n).1, s') /\
    view s' = (RR_pick_next (view s) (bench_procs s) n).2 /\ bench_procs s' = bench_procs s;
  im_last s : bc_get_last c s = rr_last (view s);
  im_procs f s : view (with_procs f s) = view s
}.

Lemma conditions_implement : Forall (fun c => exists view, implements_rr c view) conditions.
Proof.
  repeat apply Forall_cons_2; [| | | |constructor].
  - exists (fun s => mkRR (c_rr_last s)). split; cbn; try done. intros s n. unfold c_call, c_rr_pick_next, RR_pick_next, circular. cbn.
    destruct (rr_scan _ _ _ _ _); by eexists.
  - exists g_cpp_direct_policy. split; cbn; try done. intros s n. unfold cpp_rr_pick_next_noinline.
    destruct (RR_pick_next _ _ _); by eexists.
  - exists g_boundary_inlined_policy. split; cbn; try done. intros s n. unfold b_inlined_call.
    destruct (RR_pick_next _ _ _); by eexists.
  - exists (fun s => mkRR (fnptr_rr_last s)). split; cbn; try done. intros s n. unfold fnptr_rr_pick_next, RR_pick_next, circular. cbn.
    destruct (rr_scan _ _ _ _ _); by eexists.
Qed.

(** What a caller can do with a condition. *)
Inductive step := Reset | Table (f : nat -> proc) | Call (n : Z).
Fixpoint outputs (c : BenchCondition) (l : list step) (s : bench) : list (Z * Z) :=
  match l with
  | [] => []
  | Reset :: l => outputs c l (bc_reset_last c s)
  | Table f :: l => outputs c l (with_procs f s)
  | Call n :: l => let '(p, s) := bc_call c s n in (idx_of p, bc_get_last c s) :: outputs c l s
  end.
Fixpoint rr_outputs (l : list step) (r : RR) (f : nat -> proc) : list (Z * Z) :=
  match l with
  | [] => []
  | Reset :: l => rr_outputs l (mkRR (-1)) f
  | Table f :: l => rr_outputs l r f
  | Call n :: l => let '(p, r) := RR_pick_next r f n in (idx_of p, rr_last r) :: rr_outputs l r f
  end.
Lemma outputs_rr c view : implements_rr c view -> forall l s, outputs c l s = rr_outputs l (view s) (bench_procs s).
Proof.
  intros I. induction l as [|[|f|n] l IH]; intros s; cbn; [done| | |].
  - rewrite IH. by destruct (im_reset _ _ I s) as [-> ->].
  - rewrite IH. by rewrite (im_procs _ _ I).
  - destruct (im_call _ _ I s n) as (s' & -> & Hv & Hp). rewrite IH, Hv, Hp, (im_last _ _ I), Hv.
    by destruct (RR_pick_next _ _ _).
Qed.

(** The four searches are the same function of what they are called with:
    once reset, whatever calls follow and however the table changes between
    them, each condition picks the process and keeps the position that the
    policy of the kernel does. *)
Theorem searches_equivalent c l s : In c conditions ->
  outputs c (Reset :: l) s = rr_outputs l (mkRR (-1)) (bench_procs s).
Proof.
  intros Hc. pose proof conditions_implement as H. rewrite List.Forall_forall in H. destruct (H c Hc) as [view I].
  rewrite (outputs_rr c view I). done.
Qed.

(** The scan of the original scheduler picks what round robin picks just after
    a reset. *)
Lemma vanilla_scan_rr f n k : (k <= n)%nat ->
  vanilla_scan f k (n - k) = rr_scan (is_runnable f) (Z.of_nat n) (-1) (Z.of_nat k + 1) (n - k).
Proof.
  intros Hk. remember (n - k)%nat as d eqn:Ed. revert k Hk Ed. induction d as [|d IH]; intros k Hk Ed; [done|].
  cbn [vanilla_scan rr_scan]. rewrite (proj2 (Z.ltb_ge _ _)) by lia.
  replace (-1 + (Z.of_nat k + 1)) with (Z.of_nat k) by lia. rewrite Z.mod_small, Nat2Z.id by lia.
  destruct (is_runnable f k); [done|]. rewrite IH by lia. f_equal. lia.
Qed.
Theorem vanilla_is_rr_reset f n : 0 <= n -> vanilla_style_pick_next f n = (RR_pick_next (mkRR (-1)) f n).1.
Proof.
  intros Hn. unfold vanilla_style_pick_next, RR_pick_next, circular. pose proof (vanilla_scan_rr f (Z.to_nat n) 0) as H.
  rewrite Nat.sub_0_r, Z2Nat.id in H by done. cbn [rr_last]. rewrite H by lia. by destruct (rr_scan _ _ _ _ _).
Qed.

(** ** What the checks print and the windows do *)

(** The numbers the comments in the code expect, for every condition and
    whatever state the benchmark starts from. *)
Definition boundary_expected : list (list Z) :=
  [[-1; -1]; [0; 5; 5]; [1; 20; 20]; [2; 40; 40]; [3; 5; 5]; [4; 20; 20]; [5; 40; 40]; [62; 62; 0; 0]].
Lemma boundary_cases_pass s : (verify_abc_boundary_cases s).1 = replicate 4 boundary_expected.
Proof. vm_compute. reflexivity. Qed.
Lemma equivalence_blocks_pass s :
  (verify_abc_equivalence 5 s).1 = replicate 4 [[0; 63; 63]; [1; 63; 63]; [2; 63; 63]; [3; 63; 63]; [4; 63; 63]].
Proof. vm_compute. reflexivity. Qed.

(** The worst case the table is set up for: from a reset and after each pick,
    the search looks at all 64 slots. *)
Definition only_last (f : nat -> proc) : Prop := forall i, (i < 64)%nat -> is_runnable f i = bool_decide (i = 63%nat).
Lemma all_unused l : forall s i, is_runnable (bench_procs (fold_left (fun s i => set_state i UNUSED s) l s)) i =
  if bool_decide (i ∈ l) then false else is_runnable (bench_procs s) i.
Proof.
  induction l as [|x l IH]; intros s i; [done|]. cbn [fold_left]. rewrite IH. unfold is_runnable, set_state. cbn. unfold upd.
  destruct (decide (i = x)) as [->|Hne].
  - rewrite (bool_decide_eq_true_2 (x ∈ x :: l)) by (rewrite elem_of_cons; by left). by destruct (bool_decide _).
  - rewrite (bool_decide_ext (i ∈ x :: l) (i ∈ l)) by (rewrite elem_of_cons; tauto). done.
Qed.
Lemma reset_only_last s : only_last (bench_procs (bench_reset_procs s)).
Proof.
  intros i Hi. unfold bench_reset_procs, set_state, is_runnable. cbn [bench_procs with_procs]. unfold upd. change (Z.to_nat (BENCH_NPROC - 1)) with 63%nat.
  pose proof (all_unused (seq 0 (Z.to_nat BENCH_NPROC)) s i) as H. unfold is_runnable in H. fold (bench_set_all_unused s) in H.
  destruct (decide (i = 63%nat)) as [->|Hi']; [done|]. rewrite H, bool_decide_eq_true_2, bool_decide_eq_false_2; [done..|].
  apply elem_of_seq. change (Z.to_nat BENCH_NPROC) with 64%nat. lia.
Qed.
Lemma worst_case f last : only_last f -> last = -1 \/ last = 63 ->
  RR_pick_next (mkRR last) f 64 = (Some 63%nat, mkRR 63) /\
  forall k, 1 <= k < 64 -> is_runnable f (slot_at 64 last k) = false.
Proof.
  intros Ho Hl. assert (forall k, 1 <= k <= 64 -> slot_at 64 last k = Z.to_nat (k - 1)) as Hs.
  { intros k Hk. unfold slot_at. destruct Hl as [-> | ->]; f_equal; [rewrite Z.mod_small; lia|].
    symmetry. apply (Z.mod_unique _ _ 1); lia. }
  assert (forall k, 1 <= k < 64 -> is_runnable f (slot_at 64 last k) = false) as Hw.
  { intros k Hk. rewrite Hs, Ho by lia. apply bool_decide_eq_false. lia. }
  split; [|done]. unfold RR_pick_next, circular. cbn [rr_last].
  destruct (rr_scan (is_runnable f) 64 last 1 (Z.to_nat 64)) as [q|] eqn:E.
  - apply rr_scan_some in E as (k & Hk & -> & HP & _). destruct (decide (k = 64)) as [->|]; [by rewrite Hs|].
    rewrite Hw in HP by lia. done.
  - pose proof (rr_scan_none (is_runnable f) 64 last (Z.to_nat 64) 1 ltac:(lia) E 64 ltac:(lia)) as H.
    rewrite Hs, Ho in H by lia. done.
Qed.

(** Every measured search does the same work: for any number of repetitions,
    all round-robin and vanilla windows pick slot 63 on every call. *)
Lemma local_window_last reps s : only_last (bench_procs s) -> forall last, last = -1 \/ last = 63 ->
  local_window (mkRR last) 64 reps s = replicate reps (Some 63%nat).
Proof.
  intros Ho. induction reps as [|reps IH]; intros last Hl; [done|]. cbn [local_window replicate].
  rewrite (proj1 (worst_case _ last Ho Hl)). by rewrite IH by tauto.
Qed.
Lemma window_last c view reps : implements_rr c view -> forall s last, only_last (bench_procs s) -> view s = mkRR last ->
  last = -1 \/ last = 63 -> (timed_loop (bc_call c) reps s).1 = replicate reps (Some 63%nat).
Proof.
  intros I. induction reps as [|reps IH]; intros s last Ho Hv Hl; [done|]. cbn [timed_loop replicate].
  destruct (im_call _ _ I s BENCH_NPROC) as (s' & -> & Hv' & Hp). rewrite Hv in *. change BENCH_NPROC with 64 in *.
  rewrite (proj1 (worst_case _ last Ho Hl)) in *. cbn [fst snd] in *.
  rewrite <- Hp in Ho. specialize (IH s' 63 Ho Hv' ltac:(tauto)). destruct (timed_loop (bc_call c) reps s'). cbn in *. by rewrite IH.
Qed.
Lemma window_pure f p reps s : f (bench_procs s) BENCH_NPROC = p -> timed_loop (pure_call f) reps s = (replicate reps p, s).
Proof. intros E. induction reps as [|reps IH]; [done|]. cbn [timed_loop pure_call replicate]. by rewrite E, IH. Qed.
Lemma run_windows_each ws rs : Forall2 (fun w r => forall s, (w s).1 = r) ws rs -> forall s, (run_windows ws s).1 = rs.
Proof.
  induction 1 as [|w r ws rs Hw _ IH]; intros s; [done|]. cbn. specialize (Hw s). destruct (w s) as [a s1]. cbn in Hw. rewrite Hw.
  specialize (IH s1). destruct (run_windows ws s1). cbn in *. by rewrite IH.
Qed.

Lemma window_after_reset c view reps s : implements_rr c view ->
  (timed_loop (bc_call c) reps (bench_reset_procs (bc_reset_last c s))).1 = replicate reps (Some 63%nat).
Proof.
  intros I. apply (window_last c view reps I _ (-1)); [apply reset_only_last| |by left].
  destruct (im_reset _ _ I s) as [<- _]. unfold bench_reset_procs, bench_set_all_unused, set_state. rewrite (im_procs _ _ I).
  generalize (bc_reset_last c s). induction (seq 0 (Z.to_nat BENCH_NPROC)) as [|x l IH]; intros s'; [done|].
  cbn [fold_left]. rewrite IH. apply (im_procs _ _ I).
Qed.

Theorem windows_same_work reps s :
  (run_windows (windows reps) s).1 =
  replicate 2 (replicate reps (Some 0%nat)) ++ replicate 6 (replicate reps (Some 63%nat)).
Proof.
  revert s. apply run_windows_each. pose proof conditions_implement as H. rewrite List.Forall_forall in H.
  assert (forall c, In c conditions -> forall s,
    (timed_loop (bc_call c) reps (bench_reset_procs (bc_reset_last c s))).1 = replicate reps (Some 63%nat)) as Hw.
  { intros c Hc s. destruct (H c Hc) as [view I]. by apply (window_after_reset c view). }
  assert (forall s, vanilla_style_pick_next (bench_procs (bench_reset_procs s)) BENCH_NPROC = Some 63%nat) as Hvan.
  { intros s. rewrite vanilla_is_rr_reset by done. change BENCH_NPROC with 64. by rewrite (proj1 (worst_case _ (-1) (reset_only_last s) ltac:(by left))). }
  repeat apply List.Forall2_cons; try intros s.
  - apply (f_equal fst (window_pure Trivial_pick_next (Some 0%nat) reps _ eq_refl)).
  - apply (f_equal fst (window_pure fnptr_trivial_pick_next (Some 0%nat) reps _ eq_refl)).
  - apply (local_window_last reps _ (reset_only_last s)). by left.
  - apply (Hw (cond 3)). cbn. tauto.
  - apply (local_window_last reps _ (reset_only_last s)). by left.
  - apply (f_equal fst (window_pure vanilla_style_pick_next (Some 63%nat) reps _ (Hvan s))).
  - apply (Hw (cond 0)). cbn. tauto.
  - apply (Hw (cond 1)). cbn. tauto.
  - constructor.
Qed.
