(* ===== verification/Boot.v ===== *)
(** * Booting: start.cpp, plic.c, trapinit and the order of main.c

    start runs in machine mode on every hart and hands over to main in
    supervisor mode; a register holds what was written to it, and mret is the
    instruction of the privileged architecture.  plicinit and plicinithart
    program the interrupt controller.  main is the sequence of
    initialisation calls each hart makes; what a call does is modelled with
    its component. *)

From Stdlib Require Import ZArith Lia.
From S2P Require Import Prelude Params Kalloc ProcTable Kernel File Trap.

(** ** Machine mode *)

Inductive csr :=
| mstatus | mepc | satp | medeleg | mideleg | sie | pmpaddr0 | pmpcfg0 | mie | menvcfg | mcounteren | stimecmp | tp.
#[export] Instance csr_eq_dec : EqDecision csr.
Proof. solve_decision. Defined.

(** [m_mode] is 3, 1 or 0: machine, supervisor, user. *)
Record machine := mkMachine { m_reg : csr -> Z; m_mhartid : Z; m_time : Z; m_mode : Z; m_pc : Z }.
Definition csr_read (c : csr) : M machine Z := gets (fun s => m_reg s c).
Definition csr_write (c : csr) (x : Z) : M machine unit :=
  modify (fun s => mkMachine (upd (m_reg s) c x) (m_mhartid s) (m_time s) (m_mode s) (m_pc s)).

Definition MSTATUS_MPP_MASK : Z := Z.shiftl 3 11.
Definition MSTATUS_MPP_S : Z := Z.shiftl 1 11.
Definition SIE_SEIE : Z := Z.shiftl 1 9.
Definition SIE_STIE : Z := Z.shiftl 1 5.
Definition MIE_STIE : Z := Z.shiftl 1 5.
Definition Mcounteren_CY : Z := Z.shiftl 1 0.
Definition Mcounteren_TM : Z := Z.shiftl 1 1.
Definition Mcounteren_IR : Z := Z.shiftl 1 2.

Definition timerinit : M machine unit :=
  let* x := csr_read mie in csr_write mie (Z.lor x MIE_STIE) ;;
  let* x := csr_read menvcfg in csr_write menvcfg (Z.lor x (Z.shiftl 1 63)) ;;
  let* x := csr_read mcounteren in csr_write mcounteren (Z.lor x (Z.lor (Z.lor Mcounteren_CY Mcounteren_TM) Mcounteren_IR)) ;;
  let* t := gets m_time in csr_write stimecmp (u64 (t + 1000000)).

(** The instruction: the previous mode and interrupt enable become current. *)
Definition mpp (x : Z) : Z := Z.land (Z.shiftr x 11) 3.
Definition set_bit (x n : Z) (b : bool) : Z := if b then Z.lor x (Z.shiftl 1 n) else Z.land x (Z.lnot (Z.shiftl 1 n)).
Definition mret : M machine unit :=
  modify (fun s =>
    let x := m_reg s mstatus in
    let x' := Z.land (set_bit (set_bit x 3 (Z.testbit x 7)) 7 true) (Z.lnot MSTATUS_MPP_MASK) in
    mkMachine (upd (m_reg s) mstatus x') (m_mhartid s) (m_time s) (mpp x) (m_reg s mepc)).

(** [main] is where main was linked. *)
Definition start (main : Z) : M machine unit :=
  let* x := csr_read mstatus in
  csr_write mstatus (Z.lor (Z.land x (Z.lnot MSTATUS_MPP_MASK)) MSTATUS_MPP_S) ;;
  csr_write mepc main ;;
  csr_write satp 0 ;;
  csr_write medeleg 0xffff ;;
  csr_write mideleg 0xffff ;;
  let* x := csr_read sie in csr_write sie (Z.lor x (Z.lor SIE_SEIE SIE_STIE)) ;;
  csr_write pmpaddr0 0x3fffffffffffff ;;
  csr_write pmpcfg0 0xf ;;
  timerinit ;;
  let* id := gets m_mhartid in
  csr_write tp (u64 (i32 id)) ;;
  mret.

(** What main relies on when a hart enters it. *)
Record in_main (s0 s : machine) (main : Z) : Prop := {
  im_mode : m_mode s = 1;
  im_pc : m_pc s = main;
  im_satp : m_reg s satp = 0;
  im_delegated : forall i, 0 <= i < 16 -> Z.testbit (m_reg s medeleg) i = true /\ Z.testbit (m_reg s mideleg) i = true;
  im_sources : Z.testbit (m_reg s sie) 9 = true /\ Z.testbit (m_reg s sie) 5 = true /\ Z.testbit (m_reg s mie) 5 = true;
  im_timer : Z.testbit (m_reg s menvcfg) 63 = true /\ m_reg s stimecmp = u64 (m_time s0 + 1000000) /\
    (forall i, 0 <= i < 3 -> Z.testbit (m_reg s mcounteren) i = true);
  im_interrupts : Z.testbit (m_reg s mstatus) 1 = Z.testbit (m_reg s0 mstatus) 1;
  im_cpuid : 0 <= m_mhartid s0 < 2 ^ 31 -> m_reg s tp = m_mhartid s0
}.

Lemma mpp_start x : mpp (Z.lor (Z.land x (Z.lnot MSTATUS_MPP_MASK)) MSTATUS_MPP_S) = 1.
Proof.
  unfold mpp. rewrite Z.shiftr_lor, Z.shiftr_land, Z.land_lor_distr_l. rewrite <- Z.land_assoc.
  change (Z.land (Z.shiftr (Z.lnot MSTATUS_MPP_MASK) 11) 3) with 0. by rewrite Z.land_0_r.
Qed.
Lemma in_ones i n : 0 <= i < n -> Z.testbit (Z.ones n) i = true.
Proof. intros. apply Z.ones_spec_low. lia. Qed.

Lemma set_bit_other x n m b : 0 <= n -> 0 <= m -> n <> m -> Z.testbit (set_bit x n b) m = Z.testbit x m.
Proof.
  intros Hn Hm Hne. assert (Z.testbit (Z.shiftl 1 n) m = false) as E.
  { rewrite Z.shiftl_mul_pow2, Z.mul_1_l, Z.pow2_bits_eqb by done. by bsimp. }
  unfold set_bit. destruct b; [by rewrite Z.lor_spec, E, orb_false_r|].
  by rewrite Z.land_spec, Z.lnot_spec, E, andb_true_r by done.
Qed.

(** start hands over to main in supervisor mode, with paging off, interrupts
    and exceptions delegated, the timer armed and the hart's number in tp; the
    supervisor's interrupts stay disabled if they were. *)
Theorem start_enters_main main s0 : wp (start main) (fun _ s => in_main s0 s main) s0.
Proof.
  unfold start, timerinit, csr_read, csr_write, mret. repeat (wp_step; cbn [m_reg m_mode m_pc m_time m_mhartid]).
  split; cbn [m_reg m_mode m_pc m_time m_mhartid]; repeat first [rewrite upd_eq | rewrite upd_ne by done].
  - apply mpp_start.
  - done.
  - done.
  - intros i Hi. change 0xffff with (Z.ones 16). by rewrite in_ones.
  - rewrite !Z.lor_spec. rewrite !orb_true_r. done.
  - split; [by rewrite Z.lor_spec, orb_true_r|]. split; [done|]. intros i Hi. rewrite Z.lor_spec.
    change (Z.lor (Z.lor Mcounteren_CY Mcounteren_TM) Mcounteren_IR) with (Z.ones 3). rewrite in_ones by done. apply orb_true_r.
  - rewrite Z.land_spec, !set_bit_other, Z.lor_spec, Z.land_spec by lia.
    change (Z.testbit (Z.lnot MSTATUS_MPP_MASK) 1) with true. change (Z.testbit MSTATUS_MPP_S 1) with false.
    by rewrite !andb_true_r, orb_false_r.
  - intros Hi. rewrite i32_small by lia. apply u64_small. lia.
Qed.

(** ** kernel/plic.c *)

Definition PLIC_PRIORITY (irq : Z) : Z := PLIC + irq * 4.
Definition PLIC_SENABLE (hart : Z) : Z := PLIC + 0x2080 + hart * 0x100.
Definition PLIC_SPRIORITY (hart : Z) : Z := PLIC + 0x201000 + hart * 0x2000.

(** The controller's registers, 32 bits each. *)
Definition plic : Type := Z -> Z.
Definition plic_write (a v : Z) : M plic unit := modify (fun p => upd p a (u32 v)).
Definition plicinit : M plic unit :=
  plic_write (PLIC_PRIORITY UART0_IRQ) 1 ;; plic_write (PLIC_PRIORITY VIRTIO0_IRQ) 1.
Definition plicinithart (hart : Z) : M plic unit :=
  plic_write (PLIC_SENABLE hart) (Z.lor (Z.shiftl 1 UART0_IRQ) (Z.shiftl 1 VIRTIO0_IRQ)) ;;
  plic_write (PLIC_SPRIORITY hart) 0.
Fixpoint each_hart (harts : list Z) : M plic unit :=
  match harts with [] => ret tt | h :: harts => plicinithart h ;; each_hart harts end.

(** The controller presents a pending source to a hart's supervisor mode when
    it is enabled there and its priority exceeds the threshold. *)
Definition presents (p : plic) (hart irq : Z) : bool :=
  Z.testbit (p (PLIC_SENABLE hart)) irq && (p (PLIC_SPRIORITY hart) <? p (PLIC_PRIORITY irq)).

Definition hart_ok (h : Z) : Prop := 0 <= h < NCPU.
Record set_up (p : plic) (h : Z) : Prop := {
  su_enable : p (PLIC_SENABLE h) = Z.lor (Z.shiftl 1 UART0_IRQ) (Z.shiftl 1 VIRTIO0_IRQ);
  su_threshold : p (PLIC_SPRIORITY h) = 0
}.
Definition prioritised (p : plic) : Prop := p (PLIC_PRIORITY UART0_IRQ) = 1 /\ p (PLIC_PRIORITY VIRTIO0_IRQ) = 1.

Lemma plicinithart_spec h p : hart_ok h -> prioritised p ->
  wp (plicinithart h) (fun _ p' => prioritised p' /\ set_up p' h /\ forall h', hart_ok h' -> set_up p h' -> set_up p' h') p.
Proof.
  intros Hh [H1 H2]. unfold plicinithart, plic_write. do 3 wp_step.
  assert (forall a, a <> PLIC_SENABLE h -> a <> PLIC_SPRIORITY h ->
    upd (upd p (PLIC_SENABLE h) (u32 (Z.lor (Z.shiftl 1 UART0_IRQ) (Z.shiftl 1 VIRTIO0_IRQ)))) (PLIC_SPRIORITY h) (u32 0) a = p a) as Hout.
  { intros a Ha Hb. by rewrite !upd_ne. }
  unfold hart_ok, NCPU in *. unfold prioritised in *.
  assert (PLIC_SENABLE h <> PLIC_SPRIORITY h) as Hne by (unfold PLIC_SENABLE, PLIC_SPRIORITY; lia).
  split; [|split].
  - split; (rewrite Hout; [done|..]); unfold PLIC_PRIORITY, PLIC_SENABLE, PLIC_SPRIORITY, UART0_IRQ, VIRTIO0_IRQ; lia.
  - split; [by rewrite upd_ne, upd_eq|by rewrite upd_eq].
  - intros h' Hh' [E1 E2]. destruct (decide (h' = h)) as [->|Hd].
    + split; [by rewrite upd_ne, upd_eq|by rewrite upd_eq].
    + split; (rewrite Hout; [done|..]); unfold PLIC_SENABLE, PLIC_SPRIORITY; lia.
Qed.
Lemma each_hart_spec harts : Forall hart_ok harts -> forall p done, prioritised p -> Forall hart_ok done -> Forall (set_up p) done ->
  wp (each_hart harts) (fun _ p' => prioritised p' /\ Forall (set_up p') (done ++ harts)) p.
Proof.
  induction 1 as [|h harts Hh _ IH]; intros p ds Hp Hok Hd; cbn [each_hart]; [apply wp_ret; by rewrite app_nil_r|].
  wp_step. eapply wp_mono; [by apply plicinithart_spec|]. intros _ p1 (Hp1 & Hs & Hk).
  eapply wp_mono; [apply (IH p1 (ds ++ [h]) Hp1)|].
  - apply Forall_app. split; [done|]. by apply Forall_singleton.
  - apply Forall_app. split; [|by apply Forall_singleton]. rewrite Forall_forall in *. auto.
  - intros [] p2 HQ. by rewrite <- (assoc_L (++)) in HQ.
Qed.

(** Once hart 0 ran plicinit and each hart plicinithart, in any order, a
    pending source is presented to each of them exactly when it is the UART
    or the disk. *)
Theorem plic_routes harts p : Forall hart_ok harts ->
  wp (plicinit ;; each_hart harts) (fun _ p' => forall h irq, h ∈ harts -> 0 < irq < 32 ->
    presents p' h irq = bool_decide (irq = UART0_IRQ \/ irq = VIRTIO0_IRQ)) p.
Proof.
  intros Hh. unfold plicinit, plic_write. do 4 wp_step. eapply wp_mono; [apply (each_hart_spec harts Hh _ [])|].
  - split; [by rewrite upd_ne, upd_eq|by rewrite upd_eq].
  - constructor.
  - constructor.
  - intros _ p' [[H1 H2] Hs] h irq Hin Hirq. cbn [app] in Hs. rewrite Forall_forall in Hs. destruct (Hs h Hin) as [E1 E2].
    unfold presents. rewrite E1, E2, Z.lor_spec, !Z.shiftl_mul_pow2, !Z.mul_1_l, !Z.pow2_bits_eqb by done.
    destruct (Z.eqb_spec UART0_IRQ irq) as [<-|Hu]; [by rewrite H1|].
    destruct (Z.eqb_spec VIRTIO0_IRQ irq) as [<-|Hv]; [by rewrite H2|]. cbn. symmetry. apply bool_decide_eq_false. intros [E|E]; congruence.
Qed.

(** ** kernel/trap.c: trapinit and trapinithart *)

Section Trapinit.
Context {P : Type}.
Definition trapinit : M (tstate P) unit := on_k (on_pt (modify (put tickslockL false))).
Definition trapinithart : M (tstate P) unit := w_stvec Kernelvec.
End Trapinit.

(** ** kernel/main.c *)

(** The calls main makes, the printing of hart 0 as one. *)
Inductive init_call :=
| Consoleinit | Printfinit | PrintBooting | RunDispatchBench | RunBudgetWindowSelftest | RunSpanWindowSelftest
| Kinit | RunResourceExperiment | Kvminit | Kvminithart | Procinit | Trapinit | Trapinithart | Plicinit | Plicinithart
| Binit | Iinit | Fileinit | VirtioDiskInit | Userinit | PrintStarting | CallScheduler.
#[export] Instance init_call_eq_dec : EqDecision init_call.
Proof. solve_decision. Defined.

Inductive item := Do (c : init_call) | SetStarted | AwaitStarted.
Definition boot_calls : list init_call :=
  [Consoleinit; Printfinit; PrintBooting; RunDispatchBench; RunBudgetWindowSelftest; RunSpanWindowSelftest; Kinit;
   RunResourceExperiment; Kvminit; Kvminithart; Procinit; Trapinit; Trapinithart; Plicinit; Plicinithart;
   Binit; Iinit; Fileinit; VirtioDiskInit; Userinit].
Definition hart_calls : list init_call := [PrintStarting; Kvminithart; Trapinithart; Plicinithart].
Definition main_items (cpu : nat) : list item :=
  match cpu with
  | O => (Do <$> boot_calls) ++ [SetStarted; Do CallScheduler]
  | S _ => AwaitStarted :: (Do <$> hart_calls) ++ [Do CallScheduler]
  end.

(** The harts run main together; [b_log] is what was called, in order. *)
Record bstate := mkB { b_todo : nat -> list item; b_started : bool; b_log : list (nat * init_call) }.
Inductive bstep : bstate -> bstate -> Prop :=
| bs_do h c l s : b_todo s h = Do c :: l -> bstep s (mkB (upd (b_todo s) h l) (b_started s) (b_log s ++ [(h, c)]))
| bs_set h l s : b_todo s h = SetStarted :: l -> bstep s (mkB (upd (b_todo s) h l) true (b_log s))
| bs_wait h l s : b_todo s h = AwaitStarted :: l -> b_started s = true -> bstep s (mkB (upd (b_todo s) h l) true (b_log s)).
Definition binit_state : bstate := mkB main_items false [].

Definition binv (s : bstate) : Prop :=
  if b_started s then exists l, b_log s = ((fun c => (0%nat, c)) <$> boot_calls) ++ l
  else exists past next, boot_calls = past ++ next /\ b_log s = (fun c => (0%nat, c)) <$> past /\
    b_todo s 0%nat = (Do <$> next) ++ [SetStarted; Do CallScheduler] /\
    forall h, h <> 0%nat -> b_todo s h = main_items h.

Lemma binv_step s s' : binv s -> bstep s s' -> binv s'.
Proof.
  unfold binv. intros Hi Hs. destruct Hs as [h c l s E|h l s E|h l s E Es]; cbn [b_started b_log b_todo].
  - destruct (b_started s); [destruct Hi as [k ->]; eexists; by rewrite <- (assoc_L (++))|].
    destruct Hi as (past & next & Hb & Hl & H0 & Ho). destruct (decide (h = 0%nat)) as [->|Hne].
    + rewrite H0 in E. destruct next as [|x next]; [discriminate E|]. injection E as <- <-. exists (past ++ [x]), next.
      split; [by rewrite Hb, <- (assoc_L (++))|]. split; [by rewrite Hl, fmap_app|]. split; [by rewrite upd_eq|].
      intros h Hh. rewrite upd_ne by done. by apply Ho.
    + rewrite Ho in E by done. destruct h; [done|]. discriminate E.
  - destruct (b_started s); [destruct Hi as [k ->]; by eexists|]. destruct Hi as (past & next & Hb & Hl & H0 & Ho).
    destruct (decide (h = 0%nat)) as [->|Hne]; [|rewrite Ho in E by done; destruct h; [done|discriminate E]].
    rewrite H0 in E. destruct next as [|x next]; [|discriminate E]. exists []. rewrite Hl, Hb. by rewrite !app_nil_r.
  - rewrite Es in Hi. destruct Hi as [k ->]. by eexists.
Qed.

(** No hart but the first does anything before the first has made all its
    calls: whatever another hart calls in an execution of main, everything
    hart 0 initialises comes before. *)
Theorem harts_wait_for_boot s h c : rtc bstep binit_state s -> h <> 0%nat -> (h, c) ∈ b_log s ->
  exists l, b_log s = ((fun c => (0%nat, c)) <$> boot_calls) ++ l /\ (h, c) ∈ l.
Proof.
  intros Hr Hh Hin. assert (binv s) as Hi.
  { remember binit_state as s0 eqn:E0. assert (binv s0) as Hi0.
    { subst. exists [], boot_calls. split_and!; try done. }
    clear E0 Hin. induction Hr as [x|x y z Hxy _ IH]; [done|]. apply IH. by eapply binv_step. }
  unfold binv in Hi. destruct (b_started s).
  - destruct Hi as [l Hl]. exists l. split; [done|]. rewrite Hl in Hin. apply elem_of_app in Hin as [Hin|Hin]; [|done].
    apply list_elem_of_fmap in Hin as (x & [= -> _] & _). done.
  - destruct Hi as (past & next & _ & Hl & _). rewrite Hl in Hin. apply list_elem_of_fmap in Hin as (x & [= -> _] & _). done.
Qed.

(** Memory before tables, tables before paging, the file structures before
    the first process. *)
Definition before (a b : init_call) : Prop := exists i j, boot_calls !! i = Some a /\ boot_calls !! j = Some b /\ (i < j)%nat.
Example boot_order : before Kinit Kvminit /\ before Kvminit Kvminithart /\ before Kvminithart Procinit /\
  before Trapinit Trapinithart /\ before Binit VirtioDiskInit /\ before VirtioDiskInit Userinit.
Proof.
  split_and!; [exists 6%nat, 8%nat|exists 8%nat, 9%nat|exists 9%nat, 10%nat|exists 11%nat, 12%nat|exists 15%nat, 18%nat|exists 18%nat, 19%nat];
    split_and!; (reflexivity || lia).
Qed.
